(* ===== verification/_CoqProject ===== *)
-Q . S2P
Prelude.v
PyDict.v
PyText.v
Torch.v
Metadata.v
MambaPool.v
Tracker.v
HostPool.v
SnapshotStore.v
SnapshotFacts.v
SnapshotSpec.v
SnapshotFaults.v
StoreInterface.v
Policy.v
TierManager.v
TierFacts.v
PendingRestore.v
Hooks.v
Health.v
Scheduler.v
SchedulerFacts.v
System.v
SystemFacts.v
KvAllocator.v
KvKernels.v
KvAllocFacts.v
RadixKey.v
KvEvents.v
RadixTree.v
RadixOps.v
RadixInv.v
RadixMoves.v
RadixState.v
RadixLocks.v
RadixRun.v
RadixEvents.v
RadixInsert.v
RadixSpec.v
RadixEvict.v
RadixLockOps.v
RadixTotal.v
RadixSlots.v
RadixReq.v
RadixReqFacts.v
RadixDemo.v
RadixReqDemo.v
RadixAlloc.v
PySort.v
SchedPolicy.v
SchedDfs.v
SchedPolicyFacts.v
SchedDemo.v
PrefillAdder.v
PrefillFacts.v
PrefillAlloc.v
MambaTree.v
MambaOps.v
LruFacts.v
MambaView.v
MambaRules.v
MambaInv.v
MambaRun.v
MambaHold.v
MambaShrink.v
MambaEvict.v
MambaInsert.v
MambaMatch.v
MambaSpec.v
MambaLaws.v
MambaTotal.v
MambaDemo.v
MambaReq.v
MambaReqFacts.v
MambaReqCache.v
MambaPoolCopy.v
MambaReqAlloc.v
MambaReqAllocFacts.v
MambaReqDemo.v
Agents.v
AgentFacts.v
