(* ===== verification/Prelude.v ===== *)
(** * Engram: verification of state snapshots and prefix caching

    Engram is a serving runtime for hybrid Mamba models, built on SGLang.  Its
    own contribution is that the recurrent state of a conversation outlives a
    request: it is saved after forward passes and on demand, kept in host RAM
    and on disk, and put back into the device pool of a later request.  The
    runtime around it shares memory between requests: token prefixes are kept
    in a radix tree with the slots of their KV cache and, for hybrid models,
    with checkpoints of the recurrent state.  On top, an agent loop lets a model
    call tools.  This library models all three, Python code under
    src/python/sglang/srt (snapshot, managers, mem_cache, agents), and proves
    what its parts promise and that they fit together.

    ** The parts and where they are

    Foundations
    - Prelude.v (this file): exceptions, the state-and-exception monad [M]
      (writes before an exception are kept, as in Python), Python's truth
      values and [or], list and integer lemmas.  PyDict.v: [dict] and
      [OrderedDict], and the values of untyped dictionaries.  PyText.v: the
      string operations of file names.  Torch.v: PyTorch tensors as an
      interface ([Torch], [TorchLaws]) with a concrete instance [ctensor].

    Snapshots
    - Metadata.v: [MambaSnapshotMetadata] and [validate_state_tensors]
      (snapshot/mamba_snapshot.py).
    - MambaPool.v: the device pool of slots ([MambaPool] of
      mem_cache/memory_pool.py) and the transfers [extract_state_from_pool]
      and [inject_state_to_pool].
    - Tracker.v: [ConversationTracker] (snapshot/conversation_tracker.py).
      HostPool.v: [MambaHostPool] (snapshot/mamba_host_pool.py).
    - SnapshotStore.v: [MambaSnapshotManager] on a file system
      (snapshot/mamba_snapshot.py).  SnapshotFacts.v: its lemmas.
      SnapshotSpec.v: the finite map it implements and the refinement.
      SnapshotFaults.v: what holds when disk operations fail.
      StoreInterface.v: the class through which its clients use it, with its
      laws, the proof that the disk implementation satisfies them, and a small
      concrete store for the witnesses.
    - Policy.v: [SnapshotRetentionPolicy] (snapshot/snapshot_policy.py).
    - TierManager.v, TierFacts.v: [TierManager] (snapshot/tier_manager.py).
    - PendingRestore.v: the registry of staged restores
      (managers/scheduler_pending_restore.py and the registry functions of
      managers/scheduler_snapshot_handlers.py).
    - Hooks.v: [SnapshotHookManager] (snapshot/snapshot_hooks.py).
      Health.v: [StateHealthMonitor] (snapshot/state_health.py).
    - Scheduler.v, SchedulerFacts.v: the request handlers
      (managers/scheduler_snapshot_handlers.py) on a scheduler record, with
      the queueing functions of managers/scheduler.py they call.
    - System.v, SystemFacts.v: initialization, the post-forward callback and
      the startup restore (managers/scheduler_snapshot_system.py).

    KV memory
    - KvAllocator.v: the token and the paged allocator of mem_cache/allocator.py
      with their two Triton kernels, program by program.  KvKernels.v: the
      kernels write what the loop over requests writes.  KvAllocFacts.v: what
      a batch gets, and that no slot is lost over any sequence of calls.

    The prefix cache (mem_cache/radix_cache.py, events.py, evict_policy.py)
    - RadixKey.v: keys and how they are compared.  KvEvents.v: the events for
      KV-aware routers.  RadixTree.v, RadixOps.v: nodes on a heap, shared by
      reference, and every operation of [RadixCache].
    - RadixInv.v: the tree's shape, locks and sizes as an invariant of the
      heap.  RadixMoves.v, RadixState.v, RadixLocks.v, RadixRun.v,
      RadixEvents.v, RadixInsert.v: how each step changes it.  RadixSpec.v,
      RadixEvict.v, RadixLockOps.v, RadixTotal.v: lookup and insertion,
      eviction, locks, traversals and reset against what is cached.
      RadixSlots.v: counting the slots of the tree.
    - RadixReq.v, RadixReqFacts.v: requests, the table of their slots
      ([ReqToTokenPool]), [cache_finished_req], [cache_unfinished_req] and
      [release_kv_cache] (mem_cache/common.py).  RadixAlloc.v: allocation that
      evicts when memory is short.  RadixDemo.v, RadixReqDemo.v: a concrete
      cache and request.

    The prefix cache of hybrid models (mem_cache/mamba_radix_cache.py)
    - MambaTree.v: nodes, the two LRU lists as doubly linked nodes ([LRUList]).
      MambaOps.v: the operations of [MambaRadixCache].
    - LruFacts.v: doubly linked lists.  MambaView.v: the view of a cache (tree,
      checkpoints, two lists) and simulation of code on it.  MambaRules.v: one
      rule per primitive step.  MambaInv.v: the invariant of the view.
      MambaRun.v, MambaHold.v, MambaShrink.v, MambaEvict.v, MambaInsert.v,
      MambaMatch.v: the loops.  MambaSpec.v, MambaLaws.v, MambaTotal.v: the
      operations against what is cached and which checkpoints exist.
      MambaDemo.v: a concrete cache.
    - MambaReq.v, MambaReqFacts.v, MambaReqCache.v: [cache_finished_req],
      [cache_unfinished_req] and [release_kv_cache] for this cache, with
      [HybridReqToTokenPool].  MambaPoolCopy.v: [MambaPool] meets the interface
      they use.  MambaReqAlloc.v, MambaReqAllocFacts.v: how a request gets its
      slots ([alloc_req_slots]) and which slot the forward pass writes its next
      checkpoint to (managers/schedule_batch.py,
      managers/scheduler_components/batch_result_processor.py).
      MambaReqDemo.v: concrete requests.

    Scheduling (managers/schedule_policy.py)
    - PySort.v: [list.sort].  SchedPolicy.v: [SchedulePolicy], which orders the
      waiting queue.  SchedDfs.v: the depth-first order.  SchedPolicyFacts.v:
      the order of every policy.  SchedDemo.v: a concrete queue.
    - PrefillAdder.v: [PrefillAdder], which admits requests to a batch within a
      token budget, and the loop of managers/scheduler.py that feeds it.
      PrefillFacts.v: the budget against the prefix cache.  PrefillAlloc.v: the
      budget against the allocator, and a concrete pool.

    Agents (agents/)
    - Agents.v: [ToolRegistry] (agents/tool_registry.py), [ToolExecutionEngine]
      (agents/tool_execution.py) and [AgentLoop] (agents/agent_loop.py).
      AgentFacts.v: their theorems, and concrete tools.

    The state of a Python object is a record, one definition per method, named
    as in the source where that is possible; a function that may raise or that
    writes is code in [M].  Objects that several others refer to (tree nodes,
    the scheduler's requests and batches) live in a heap and are held by
    reference.  Clock readings are arguments ([now], integers in the clock's
    unit), random ids of new requests are arguments too.

    ** What the theorems show

    - Memory is conserved: when requests are cached and released, each KV slot
      and each state slot is in the tree, with a request or free, as often as
      before, and the calls raise only where the theorems say so; a release is
      covered with the cache enabled and disabled, and with the cache enabled
      for requests whose protected prefix and checkpoint lie within their
      committed tokens, which stripped thinking can break
      ([cache_unfinished_req_spec], [release_kv_cache_spec],
      [m_cache_unfinished_req_spec], [m_release_kv_cache_spec],
      [token_ledger], [mamba_pool_slots]).
    - Allocation under pressure succeeds when enough is free or evictable
      ([alloc_token_slots_spec], [m_alloc_req_slots_spec]); eviction takes
      what nobody holds, in the order of the policy, and terminates
      ([evict_safe], [evict_mamba_spec], [evict_full_spec]).
    - An admitted batch can be served: the budget of the adder covers what the
      batch will allocate (with a spare page for each request but one), its
      prefixes are held, and with pages of one slot the allocation succeeds
      ([prefill_pass_fits], [prefill_batch_allocates]); ordering the queue
      loses no request and gives the order of the policy ([calc_priority_lpm],
      [calc_priority_dfs], [calc_priority_total]).
    - The caches are maps: a lookup returns the longest cached prefix (that
      ends in a checkpoint, for hybrid models), an insertion adds exactly the
      prefixes of its key, locks are undone by their releases
      ([match_prefix_spec], [insert_spec], [m_match_prefix_spec],
      [m_match_prefix_cow], [m_insert_spec], [lock_ref_spec],
      [m_lock_ref_spec]); the linked lists implement lists
      ([lru_list_refines]); keys are compared by their longest common prefix,
      an incomplete last page of equal keys excepted ([match_is_lcp]).
    - A checkpoint has the state it claims: the slot the forward pass writes is
      the one the cache takes, for the recorded number of tokens
      ([prepare_for_extend_spec], [mamba_prefix_cache_update_spec]).
    - Kernels: what each program of the parallel extend kernel stores, for every
      value of its masked lanes, and that the kernel equals the sequential loop
      where the masked lanes of its two loads cancel out ([alloc_extend_equiv]);
      what the allocator hands out then is fresh and page-wise
      ([paged_alloc_extend_spec]), and for one more position per request without
      any condition on masked lanes ([paged_alloc_decode_spec]).
    - Storage: every sequence of calls behaves like a finite map from places
      to snapshots ([snapshot_store_refines]); with failing disks a load does
      not see a mixture of two saves, unless the [stat] or the removal of the new
      state file is what failed ([save_never_torn]), and no file leaves its
      conversation directory ([snapshot_paths_confined]).
    - Tiers: the invariants of tracker and host pool in every reachable state,
      LRU eviction, the order in which tiers are searched, and that a cleanup
      cycle loses no state ([tier_invariant], [save_state_spec],
      [restore_conversation_spec], [cleanup_loses_nothing], ...).
    - Snapshots end to end: save, overwrite, restore brings the state back
      ([save_restore_roundtrip]); a staged restore reaches the next request
      ([staged_restore_hydrates]); a snapshot the policy asks for is put into the
      warm tier or on disk, where pruning keeps the newest turns
      ([post_forward_saves]); transfers touch one slot
      ([inject_extract_roundtrip]), and hydration and restores account for
      every slot on every branch ([hydrate_spec], [restore_create_slots]).
    - Agents: the registry with its index of tags is a list of tools
      ([registry_refines]); the counters of the engine account for every
      execution under every interleaving, those that raise included
      ([engine_counts]); a run of the agent ends for every model, parser and
      tool, with the tools the model asked for executed once and in order
      ([agent_run_spec]).
    - Policy, registry, hooks, health monitor, lookup of requests, token
      budget, the other handlers: each method on every branch.

    Some theorems and lemmas describe behaviour that is surely not meant:
    [full_queue_leaks_slot], [demoted_not_restorable],
    [branch_not_restorable], [staged_under_conversation_id_missed],
    [strip_thinking_frees_cached], [strip_thinking_release_fails],
    [strip_thinking_files_late_state], [hit_tokens_counts_nodes],
    [chunk_budget_negative], [req_states_unsorted],
    [malformed_parameters_escape], [reset_in_flight],
    [match_unaligned_overshoots], [masked_lane_shifts], [stat_fault_tears],
    [saved_turn_pruned].

    ** Interfaces, bounds, assumptions

    PyTorch, safetensors, floating-point arithmetic, SHA-256 and [heapq] are
    parameters with the documented laws the code relies on ([TorchLaws],
    [StorageLaws], [FloatOps], [Sha256Laws], [HeapQLaws]); each has a concrete
    instance, and every theorem with hypotheses has a witness on concrete
    values.  Components meet at classes: the clients of the snapshot manager
    are verified against [SnapshotManagerLaws], which [disk_manager_laws]
    discharges for a disk that does not fail; the caches use an allocator
    through [KvFree] and the pool of states through [MambaSlots] and
    [MambaStates], which the allocators of KvAllocator.v and [MambaPool]
    implement.  In the model of the kernels the value of a masked lane, of a
    load outside an array and of uninitialized output is a parameter.  The
    theorems hold for all values of the last two; those about the extend kernel
    say what masked lanes change, and state the equality with the loop under the
    condition [masked_cancel] that they cancel out.  The model, the
    parser and what the operating system makes of running a tool are parameters
    of the agent loop, without assumptions: each may raise, also what
    [except Exception] does not catch.  On the disk, writes, renames, removals,
    [stat] calls and the creation of directories may fail; a metadata file holds
    the dictionary that the source writes as JSON.  The ratios and estimates of the host pool's
    statistics and of the prefill budget are exact rationals.

    Loops over a list are structural.  Other loops have fuel, and the theorems
    say that they do their work with it: descents in a tree take the length of
    the key, walks to the root, evictions, traversals, recursions over a tree
    and searches in the LRU lists the number of nodes (each step moves to
    another node or removes one), the agent loop [max_iterations],
    the eviction loops of the host pool and of the registry the number of
    entries (plus one for the host pool, whose last iteration finds nothing to
    evict).  Token ids fit 32 bits and the entries of the slot table wrap at 32
    bits as in the source; other integers are Python's unbounded ones.  Strings
    are ASCII.

    ** Not modelled

    Threads (each locked method is one step, each locked block for the engine of
    the agents; the cleanup thread is one iteration of its loop), the parser of
    tool calls and the built-in tools (JSON, XML and regular expressions; the
    agent loop is verified for every parser), log output and metrics, Python's
    recursion limit, GPU numerics and device placement, the deferred copies of states on the forward stream, the
    speculative variant of the state cache, sliding-window caches, the
    hierarchical cache, disaggregated scheduling, preemption by priority, HTTP
    entrypoints and the client library, and the rest of the scheduler. *)

From Stdlib Require Export ZArith Lia Ascii.
From stdpp Require Export base tactics option list gmap strings pretty sorting.

Declare Scope py_scope.
Delimit Scope py_scope with py.
#[global] Open Scope Z_scope.
#[global] Open Scope stdpp_scope.

(** ** Python exceptions

    An exception is its class and its message.  [FileNotFoundError] is a
    subclass of [OSError] (which Python also calls [IOError]), and
    [SnapshotValidationError] is declared in mamba_snapshot.py as a subclass
    of [ValueError]; [isinstance] is the test an [except C] clause performs.
    [BaseException] stands for [SystemExit], [KeyboardInterrupt] and
    [CancelledError], which [except Exception] lets through; only the agents'
    tools raise them (Agents.v). *)

Inductive exn_class :=
  | ValueError
  | SnapshotValidationError
  | OSError
  | FileNotFoundError
  | RuntimeError
  | TypeError
  | KeyError
  | AttributeError
  | IndexError
  | AssertionError
  | OverflowError
  | ZeroDivisionError
  | BaseException.

#[global] Instance exn_class_eq_dec : EqDecision exn_class.
Proof. solve_decision. Defined.

Record exn := Exn { exn_type : exn_class; exn_msg : string }.

#[global] Instance exn_eq_dec : EqDecision exn.
Proof. solve_decision. Defined.

Definition subclass (c d : exn_class) : bool :=
  bool_decide (c = d) ||
  match c, d with
  | SnapshotValidationError, ValueError => true
  | FileNotFoundError, OSError => true
  | _, _ => false
  end.

Definition isinstance (e : exn) (d : exn_class) : bool := subclass (exn_type e) d.

(** ** Results and the state-and-exception monad

    [M S A] is code that reads and writes a state [S] and either returns an
    [A] or raises.  As in Python, the writes made before an exception is
    raised are kept. *)

Inductive res (A : Type) :=
  | Ok (a : A)
  | Raise (e : exn).
Arguments Ok {A} a.
Arguments Raise {A} e.

Definition M (S A : Type) : Type := S -> res A * S.

Section monad.
Context {S : Type}.

#[global] Instance M_ret : MRet (M S) := fun A a s => (Ok a, s).

#[global] Instance M_bind : MBind (M S) := fun A B f m s =>
  match m s with
  | (Ok a, s') => f a s'
  | (Raise e, s') => (Raise e, s')
  end.

#[global] Instance M_fmap : FMap (M S) := fun A B f m s =>
  match m s with
  | (Ok a, s') => (Ok (f a), s')
  | (Raise e, s') => (Raise e, s')
  end.

Definition raise {A} (c : exn_class) (msg : string) : M S A :=
  fun s => (Raise (Exn c msg), s).

Definition reraise {A} (e : exn) : M S A := fun s => (Raise e, s).

(** [try: m except Exception as e: h e] *)
Definition try_except {A} (m : M S A) (h : exn -> M S A) : M S A := fun s =>
  match m s with
  | (Ok a, s') => (Ok a, s')
  | (Raise e, s') => h e s'
  end.

(** Code that cannot raise, as a state transformer. *)
Definition lift_st {A} (f : S -> A * S) : M S A := fun s =>
  let '(a, s') := f s in (Ok a, s').

Definition gets {A} (f : S -> A) : M S A := fun s => (Ok (f s), s).

Definition modify (f : S -> S) : M S unit := fun s => (Ok tt, f s).

(** A value computed by code that may raise but touches no state. *)
Definition lift_res {A} (r : res A) : M S A := fun s => (r, s).

(** [for x in l: body x] *)
Fixpoint for_each {A} (l : list A) (body : A -> M S unit) : M S unit :=
  match l with
  | [] => mret tt
  | x :: l' => body x ≫= fun _ => for_each l' body
  end.
End monad.

(** Running code that owns a part of a larger state. *)
Definition zoom {S T A} (get : T -> S) (set : S -> T -> T) (m : M S A) : M T A :=
  fun t => let '(r, s') := m (get t) in (r, set s' t).

Section monad_laws.
Context {S : Type}.

Lemma bind_ok {A B} (m : M S A) (f : A -> M S B) s s' a :
  m s = (Ok a, s') -> (m ≫= f) s = f a s'.
Proof. intros H. unfold mbind, M_bind. by rewrite H. Qed.

Lemma bind_raise {A B} (m : M S A) (f : A -> M S B) s s' e :
  m s = (Raise e, s') -> (m ≫= f) s = (Raise e, s').
Proof. intros H. unfold mbind, M_bind. by rewrite H. Qed.

Lemma bind_assoc {A B C} (m : M S A) (f : A -> M S B) (g : B -> M S C) s :
  ((m ≫= f) ≫= g) s = (m ≫= fun a => f a ≫= g) s.
Proof. unfold mbind, M_bind. by destruct (m s) as [[a|e] s']. Qed.

(** A successful sequence ran both of its halves. *)
Lemma bind_ok_inv {A B} (m : M S A) (f : A -> M S B) s s'' b :
  (m ≫= f) s = (Ok b, s'') ->
  exists a s', m s = (Ok a, s') /\ f a s' = (Ok b, s'').
Proof.
  unfold mbind, M_bind. destruct (m s) as [[a|e] s'] eqn:E; [eauto|done].
Qed.

Lemma try_ok {A} (m : M S A) h s s' a :
  m s = (Ok a, s') -> try_except m h s = (Ok a, s').
Proof. intros H. unfold try_except. by rewrite H. Qed.

Lemma try_raise {A} (m : M S A) h s s' e :
  m s = (Raise e, s') -> try_except m h s = h e s'.
Proof. intros H. unfold try_except. by rewrite H. Qed.

Lemma try_bind_ok {A B} (m : M S A) (f : A -> M S B) h s s' a :
  m s = (Ok a, s') -> try_except (m ≫= f) h s = try_except (f a) h s'.
Proof. intros Hm. unfold try_except. by rewrite (bind_ok _ _ _ _ _ Hm). Qed.

Lemma try_bind_raise {A B} (m : M S A) (f : A -> M S B) h s s' e :
  m s = (Raise e, s') -> try_except (m ≫= f) h s = h e s'.
Proof. intros Hm. unfold try_except. by rewrite (bind_raise _ _ _ _ _ Hm). Qed.

(** A property every state of a run satisfies: kept by every primitive and by
    sequencing, handlers and loops. *)
Definition preserves {A} (P : S -> Prop) (m : M S A) : Prop :=
  forall s, P s -> P (m s).2.

Lemma preserves_ret {A} P (a : A) : preserves P (mret a : M S A).
Proof. by intros s H. Qed.

Lemma preserves_raise {A} P c msg : preserves P (raise c msg : M S A).
Proof. by intros s H. Qed.

Lemma preserves_reraise {A} P e : preserves P (reraise e : M S A).
Proof. by intros s H. Qed.

Lemma preserves_lift_res {A} P (r : res A) : preserves P (lift_res r : M S A).
Proof. by intros s H. Qed.

Lemma preserves_gets {A} P (f : S -> A) : preserves P (gets f).
Proof. by intros s H. Qed.

Lemma preserves_bind {A B} P (m : M S A) (f : A -> M S B) :
  preserves P m -> (forall a, preserves P (f a)) -> preserves P (m ≫= f).
Proof.
  intros Hm Hf s Hs. specialize (Hm s Hs). unfold mbind, M_bind.
  destruct (m s) as [[a|e] s']; [by apply Hf|done].
Qed.

Lemma preserves_try {A} P (m : M S A) h :
  preserves P m -> (forall e, preserves P (h e)) -> preserves P (try_except m h).
Proof.
  intros Hm Hh s Hs. specialize (Hm s Hs). unfold try_except.
  destruct (m s) as [[a|e] s']; [done|by apply Hh].
Qed.

Lemma preserves_lift_st {A} P (f : S -> A * S) :
  (forall s, P s -> P (f s).2) -> preserves P (lift_st f).
Proof. intros Hf s Hs. unfold lift_st. specialize (Hf s Hs). by destruct (f s). Qed.

Lemma preserves_modify P (f : S -> S) :
  (forall s, P s -> P (f s)) -> preserves P (modify f).
Proof. intros Hf s Hs. by apply Hf. Qed.

Lemma preserves_for_each {A} P (l : list A) body :
  (forall x, preserves P (body x)) -> preserves P (for_each l body).
Proof.
  intros Hb. induction l as [|x l IH]; [by apply preserves_ret|].
  by apply preserves_bind.
Qed.

Lemma preserves_if {A} P (b : bool) (m1 m2 : M S A) :
  preserves P m1 -> preserves P m2 -> preserves P (if b then m1 else m2).
Proof. by destruct b. Qed.
End monad_laws.

Lemma fmap_run {X B C} (f : B -> C) (m : M X B) s :
  (f <$> m) s = match m s with (Ok a, s') => (Ok (f a), s') | (Raise e, s') => (Raise e, s') end.
Proof. done. Qed.

Lemma preserves_zoom {S T A} (P : T -> Prop) (g : T -> S) (u : S -> T -> T) (m : M S A) :
  (forall t, P t -> P (u (m (g t)).2 t)) -> preserves P (zoom g u m).
Proof. intros H t Ht. unfold zoom. specialize (H t Ht). by destruct (m (g t)). Qed.

Create HintDb py.
#[export] Hint Resolve preserves_ret preserves_raise preserves_reraise
  preserves_lift_res preserves_gets preserves_bind preserves_try
  preserves_for_each preserves_if : py.

(** Unfold the monad on a concrete run. *)
Ltac run_unfold :=
  unfold mbind, M_bind, mret, M_ret, fmap, M_fmap, gets, modify, raise, reraise,
    lift_res, lift_st, zoom in *.

(** ** Lists of integers *)

(** Python's [sum(f(x) for x in l)]. *)
Definition sumZ {A} (f : A -> Z) (l : list A) : Z := foldr (fun x acc => f x + acc) 0 l.

Section sumZ.
Context {A : Type} (f : A -> Z).

Lemma sumZ_app l1 l2 : sumZ f (l1 ++ l2) = sumZ f l1 + sumZ f l2.
Proof. induction l1 as [|x l1 IH]; simpl; lia. Qed.

Lemma sumZ_nonneg l : (forall x, x ∈ l -> 0 <= f x) -> 0 <= sumZ f l.
Proof.
  induction l as [|x l IH]; simpl; intros H; [lia|].
  assert (0 <= f x) by (apply H; set_solver).
  assert (0 <= sumZ f l) by (apply IH; intros; apply H; set_solver). lia.
Qed.

Lemma sumZ_perm l1 l2 : l1 ≡ₚ l2 -> sumZ f l1 = sumZ f l2.
Proof. induction 1; simpl; lia. Qed.

Lemma sumZ_ext (f' : A -> Z) l : (forall x, x ∈ l -> f x = f' x) -> sumZ f l = sumZ f' l.
Proof.
  induction l as [|x l IH]; intros Hf; [done|]. simpl.
  rewrite (Hf x) by set_solver. rewrite IH; [done|]. intros y Hy. apply Hf. set_solver.
Qed.

Lemma sumZ_le (f' : A -> Z) l : (forall x, x ∈ l -> f x <= f' x) -> sumZ f l <= sumZ f' l.
Proof.
  induction l as [|x l IH]; intros Hf; simpl; [lia|].
  assert (f x <= f' x) by (apply Hf; set_solver).
  assert (sumZ f l <= sumZ f' l) by (apply IH; intros; apply Hf; set_solver). lia.
Qed.

Lemma sumZ_zero l : (forall x, x ∈ l -> f x = 0) -> sumZ f l = 0.
Proof.
  induction l as [|x l IH]; intros Hf; [done|]. simpl. rewrite (Hf x) by set_solver.
  rewrite IH; [done|]. intros y Hy. apply Hf. set_solver.
Qed.

Lemma sumZ_fmap l : sumZ id (f <$> l) = sumZ f l.
Proof. induction l as [|x l IH]; [done|]. simpl. by rewrite <-IH. Qed.

Lemma sumZ_const c l : sumZ (fun _ : A => c) l = c * Z.of_nat (length l).
Proof. induction l as [|x l IH]; [simpl; lia|]. cbn [sumZ foldr length]. fold (sumZ (fun _ : A => c) l). lia. Qed.
End sumZ.

(** The length of a list as an integer, Python's [len]. *)
Definition len {A} (l : list A) : Z := Z.of_nat (length l).

Lemma len_nonneg {A} (l : list A) : 0 <= len l.
Proof. unfold len. lia. Qed.

Lemma len_app {A} (l1 l2 : list A) : len (l1 ++ l2) = len l1 + len l2.
Proof. unfold len. rewrite length_app. lia. Qed.

(** Python truth values of optional strings: [None] and [''] are false. *)
Definition truthy (o : option string) : bool :=
  match o with
  | Some s => negb (bool_decide (s = ""))
  | None => false
  end.

(** [a or b] on an optional string and a string. *)
Definition str_or (o : option string) (d : string) : string :=
  match o with
  | Some s => if bool_decide (s = "") then d else s
  | None => d
  end.

(** An optional value printed by an f-string. *)
Definition fstr_opt {A} (p : A -> string) (o : option A) : string :=
  match o with Some x => p x | None => "None" end.

(** [sep.join(l)] *)
Fixpoint join (sep : string) (l : list string) : string :=
  match l with
  | [] => ""
  | [s] => s
  | s :: l' => s +:+ sep +:+ join sep l'
  end.

(** ** Lists *)

Lemma filter_id {A} (P : A -> Prop) `{!forall x, Decision (P x)} (l : list A) :
  (forall x, x ∈ l -> P x) -> filter P l = l.
Proof.
  induction l as [|x l IH]; intros HP; [done|]. rewrite filter_cons_True by (apply HP; left).
  f_equal. apply IH. intros y Hy. apply HP. by right.
Qed.

Lemma filter_ext_in {A} (P Q : A -> Prop) `{!forall x, Decision (P x)} `{!forall x, Decision (Q x)} (l : list A) :
  (forall x, x ∈ l -> P x <-> Q x) -> filter P l = filter Q l.
Proof.
  induction l as [|x l IH]; intros HPQ; [done|].
  assert (filter P l = filter Q l) as IH' by (apply IH; intros y Hy; apply HPQ; by right).
  destruct (decide (P x)) as [Hx|Hx].
  - rewrite !filter_cons_True by (done || by apply HPQ; [left|]). by rewrite IH'.
  - rewrite !filter_cons_False by (done || by rewrite <-HPQ; [|left]). done.
Qed.

Lemma NoDup_omap {A B} (f : A -> option B) (l : list A) :
  NoDup l ->
  (forall x y z, x ∈ l -> y ∈ l -> f x = Some z -> f y = Some z -> x = y) ->
  NoDup (omap f l).
Proof.
  induction l as [|x l IH]; simpl; intros Hnd Hinj; [by apply NoDup_nil_2|].
  apply NoDup_cons in Hnd as [Hx Hnd].
  assert (NoDup (omap f l)) as Hl.
  { apply IH; [done|]. intros a b z Ha Hb. apply Hinj; set_solver. }
  destruct (f x) as [z|] eqn:E; [|done]. apply NoDup_cons. split; [|done].
  intros (y & Hy & Hf)%list_elem_of_omap. assert (x = y) as ->; [|done].
  by apply (Hinj x y z); [set_solver|set_solver| |].
Qed.

(** The last element of a sorted list is its maximum. *)
Lemma sorted_last_max (l : list Z) x :
  StronglySorted Z.le l -> last l = Some x -> forall y, y ∈ l -> y <= x.
Proof.
  induction l as [|a l IH]; [done|]. intros Hs Hlast y Hy.
  inversion Hs as [|? ? Hs' Ha]; subst.
  destruct l as [|b l]; simpl in Hlast; [set_solver by lia|].
  apply elem_of_cons in Hy as [->|Hy]; [|by apply IH].
  rewrite Forall_forall in Ha. apply Ha. by apply last_Some_elem_of.
Qed.

Lemma merge_sort_elem (l : list Z) x : x ∈ merge_sort Z.le l <-> x ∈ l.
Proof. by rewrite merge_sort_Permutation. Qed.

Lemma merge_sort_Z_sorted (l : list Z) : StronglySorted Z.le (merge_sort Z.le l).
Proof. apply StronglySorted_merge_sort; apply _. Qed.

Lemma sorted_NoDup_lt (l : list Z) : StronglySorted Z.le l -> NoDup l -> StronglySorted Z.lt l.
Proof.
  induction l as [|x l IH]; intros Hs Hn; [constructor|].
  inversion Hs as [|? ? Hs' Hx]; subst. apply NoDup_cons in Hn as [Hnx Hn].
  constructor; [by apply IH|]. rewrite Forall_forall in *. intros y Hy.
  pose proof (Hx y Hy). assert (x ≠ y) by (intros ->; done). lia.
Qed.

Lemma StronglySorted_lt_le (l : list Z) : StronglySorted Z.lt l -> StronglySorted Z.le l.
Proof.
  induction 1 as [|x l _ IH Hx]; constructor; [done|]. eapply Forall_impl; [exact Hx|]. simpl. lia.
Qed.

Lemma StronglySorted_lt_NoDup (l : list Z) : StronglySorted Z.lt l -> NoDup l.
Proof.
  induction 1 as [|x l _ IH Hx]; constructor; [|done]. intros Hin.
  rewrite Forall_forall in Hx. specialize (Hx x Hin). lia.
Qed.

(** A strictly increasing list is determined by its elements. *)
Lemma sorted_lt_unique (l1 l2 : list Z) :
  StronglySorted Z.lt l1 -> StronglySorted Z.lt l2 -> (forall x, x ∈ l1 <-> x ∈ l2) -> l1 = l2.
Proof.
  intros H1 H2 Heq. apply (StronglySorted_unique Z.le); auto using StronglySorted_lt_le.
  apply NoDup_Permutation; auto using StronglySorted_lt_NoDup.
Qed.

Lemma merge_sort_sorted_id (l : list Z) : StronglySorted Z.lt l -> merge_sort Z.le l = l.
Proof.
  intros Hs. apply (StronglySorted_unique Z.le); auto using StronglySorted_lt_le.
  - apply merge_sort_Z_sorted.
  - apply merge_sort_Permutation.
Qed.

Lemma StronglySorted_app_inv {A} (R : A -> A -> Prop) (l1 l2 : list A) :
  StronglySorted R (l1 ++ l2) ->
  StronglySorted R l2 /\ forall x y, x ∈ l1 -> y ∈ l2 -> R x y.
Proof.
  induction l1 as [|a l1 IH]; simpl; intros Hs; [set_solver|].
  inversion Hs as [|? ? Hs' Ha]; subst. destruct (IH Hs') as [H2 H3]. split; [done|].
  rewrite Forall_forall in Ha. intros x y [->|Hx]%elem_of_cons Hy; [|by apply H3].
  apply Ha. set_solver.
Qed.
