(* ===== verification/PyDict.v ===== *)
(** * Python dictionaries

    [dict] and [collections.OrderedDict] as the source uses them: association
    lists in insertion order.  Assigning to a present key keeps its position,
    assigning to an absent key appends, [del] and [pop] remove, [popitem
    (last=False)] removes the oldest item and [move_to_end] makes a key the
    newest.  The lemmas relate every operation to the finite map that the
    dictionary denotes, and to the order of its keys. *)

From S2P Require Import Prelude.

Abbreviation dict K V := (list (K * V)).

Section dict.
Context {K V : Type} `{EqDecision K}.
Implicit Types (d : dict K V) (k : K) (v : V).

(** [d.get(k)] *)
Fixpoint dict_get (d : dict K V) (k : K) : option V :=
  match d with
  | [] => None
  | (k', v) :: d' => if decide (k' = k) then Some v else dict_get d' k
  end.

(** [k in d] *)
Definition dict_has (d : dict K V) (k : K) : bool :=
  match dict_get d k with Some _ => true | None => false end.

(** [d[k] = v] *)
Fixpoint dict_set (d : dict K V) (k : K) (v : V) : dict K V :=
  match d with
  | [] => [(k, v)]
  | (k', v') :: d' =>
      if decide (k' = k) then (k', v) :: d' else (k', v') :: dict_set d' k v
  end.

(** [del d[k]], and the dictionary that [d.pop(k)] leaves *)
Fixpoint dict_del (d : dict K V) (k : K) : dict K V :=
  match d with
  | [] => []
  | (k', v') :: d' =>
      if decide (k' = k) then dict_del d' k else (k', v') :: dict_del d' k
  end.

(** [d.popitem(last=False)] *)
Definition dict_popitem_first (d : dict K V) : option ((K * V) * dict K V) :=
  match d with [] => None | kv :: d' => Some (kv, d') end.

(** [d.move_to_end(k)] for a present key *)
Definition dict_move_to_end (d : dict K V) (k : K) : dict K V :=
  match dict_get d k with
  | Some v => dict_del d k ++ [(k, v)]
  | None => d
  end.

Definition dict_keys (d : dict K V) : list K := d.*1.
Definition dict_values (d : dict K V) : list V := d.*2.

(** A dictionary has one item per key. *)
Definition dict_wf (d : dict K V) : Prop := NoDup (dict_keys d).

Lemma dict_get_set_eq d k v : dict_get (dict_set d k v) k = Some v.
Proof.
  induction d as [|[k' v'] d IH]; simpl; repeat (case_decide; simpl); try done.
Qed.

Lemma dict_get_set_ne d k k' v : k ≠ k' -> dict_get (dict_set d k v) k' = dict_get d k'.
Proof.
  intros Hne. induction d as [|[k'' v''] d IH]; simpl;
    repeat (case_decide; simpl); subst; try done.
Qed.

Lemma dict_get_del_eq d k : dict_get (dict_del d k) k = None.
Proof. induction d as [|[k' v'] d IH]; simpl; repeat (case_decide; simpl); done. Qed.

Lemma dict_get_del_ne d k k' : k ≠ k' -> dict_get (dict_del d k) k' = dict_get d k'.
Proof.
  intros Hne. induction d as [|[k'' v''] d IH]; simpl;
    repeat (case_decide; simpl); subst; try done.
Qed.

Lemma dict_get_app d1 d2 k :
  dict_get (d1 ++ d2) k =
  match dict_get d1 k with Some v => Some v | None => dict_get d2 k end.
Proof. induction d1 as [|[k' v'] d1 IH]; simpl; [done|]. by case_decide. Qed.

Lemma dict_get_None d k : dict_get d k = None <-> k ∉ dict_keys d.
Proof.
  induction d as [|[k' v'] d IH]; simpl; [set_solver|].
  rewrite not_elem_of_cons. case_decide; [naive_solver|]. naive_solver.
Qed.

Lemma dict_get_Some_key d k v : dict_get d k = Some v -> k ∈ dict_keys d.
Proof.
  intros H. destruct (decide (k ∈ dict_keys d)) as [|Hn]; [done|].
  apply dict_get_None in Hn. congruence.
Qed.

Lemma dict_get_elem d k v : dict_get d k = Some v -> (k, v) ∈ d.
Proof.
  induction d as [|[k' v'] d IH]; simpl; [done|].
  case_decide; intros Hg; [simplify_eq; left|right; auto].
Qed.

Lemma dict_elem_get d k v : dict_wf d -> (k, v) ∈ d -> dict_get d k = Some v.
Proof.
  unfold dict_wf. induction d as [|[k' v'] d IH]; simpl; [set_solver|].
  intros [Hk Hnd]%NoDup_cons [Heq|Hin]%elem_of_cons; [simplify_eq; by case_decide|].
  case_decide; subst; [|by apply IH].
  destruct Hk. apply list_elem_of_fmap. by exists (k, v).
Qed.

Lemma dict_has_true d k : dict_has d k = true <-> k ∈ dict_keys d.
Proof.
  unfold dict_has. destruct (dict_get d k) eqn:E.
  - apply dict_get_Some_key in E. done.
  - apply dict_get_None in E. done.
Qed.

Lemma dict_has_false d k : dict_has d k = false <-> dict_get d k = None.
Proof. unfold dict_has. by destruct (dict_get d k). Qed.

Lemma dict_has_get d k : dict_has d k = true <-> is_Some (dict_get d k).
Proof. unfold dict_has, is_Some. destruct (dict_get d k); naive_solver. Qed.

(** *** Order of keys *)

Lemma dict_keys_set d k v :
  dict_keys (dict_set d k v) =
  if dict_has d k then dict_keys d else dict_keys d ++ [k].
Proof.
  unfold dict_has. induction d as [|[k' v'] d IH]; simpl; [done|].
  case_decide; simpl; [done|]. rewrite IH. by destruct (dict_get d k).
Qed.

Lemma dict_keys_del d k : dict_keys (dict_del d k) = filter (fun k' => k' ≠ k) (dict_keys d).
Proof.
  induction d as [|[k' v'] d IH]; simpl; [done|].
  rewrite filter_cons. repeat (case_decide; simpl); try done. by f_equal.
Qed.

Lemma dict_del_absent d k : dict_get d k = None -> dict_del d k = d.
Proof.
  induction d as [|[k' v'] d IH]; simpl; [done|]. case_decide; [done|].
  intros Hg. f_equal. auto.
Qed.

Lemma dict_set_absent d k v : dict_get d k = None -> dict_set d k v = d ++ [(k, v)].
Proof.
  induction d as [|[k' v'] d IH]; simpl; [done|]. case_decide; [done|].
  intros Hg. f_equal. auto.
Qed.

Lemma dict_wf_set d k v : dict_wf d -> dict_wf (dict_set d k v).
Proof.
  unfold dict_wf. intros Hwf. rewrite dict_keys_set. destruct (dict_has d k) eqn:E; [done|].
  apply NoDup_app. split; [done|]. split; [|apply NoDup_singleton].
  intros x Hx ->%list_elem_of_singleton. apply dict_has_false, dict_get_None in E. done.
Qed.

Lemma dict_wf_del d k : dict_wf d -> dict_wf (dict_del d k).
Proof. unfold dict_wf. intros Hwf. rewrite dict_keys_del. by apply NoDup_filter. Qed.

Lemma dict_wf_tail p d : dict_wf (p :: d) -> dict_wf d.
Proof. unfold dict_wf. simpl. by intros [_ ?]%NoDup_cons. Qed.

Lemma dict_wf_filter (P : K * V -> Prop) `{forall p, Decision (P p)} d :
  dict_wf d -> dict_wf (filter P d).
Proof.
  unfold dict_wf, dict_keys. induction d as [|p d IH]; simpl; [done|].
  intros [Hp Hd]%NoDup_cons. rewrite filter_cons. case_decide; [|auto]. simpl.
  apply NoDup_cons. split; [|auto]. intros (q & Hq & Hin)%list_elem_of_fmap.
  apply Hp, list_elem_of_fmap. exists q. split; [done|].
  apply list_elem_of_filter in Hin. naive_solver.
Qed.

Lemma dict_get_filter (P : K * V -> Prop) `{forall p, Decision (P p)} d k v :
  dict_wf d -> dict_get (filter P d) k = Some v <-> dict_get d k = Some v /\ P (k, v).
Proof.
  intros Hwf. pose proof (dict_wf_filter P d Hwf) as Hwf'. split.
  - intros [HP Hin]%dict_get_elem%list_elem_of_filter. split; [by apply dict_elem_get|done].
  - intros [Hg HP]. apply dict_elem_get; [done|]. apply list_elem_of_filter.
    split; [done|by apply dict_get_elem].
Qed.

Lemma dict_wf_nil : dict_wf [].
Proof. apply NoDup_nil_2. Qed.

Lemma dict_keys_app d1 d2 : dict_keys (d1 ++ d2) = dict_keys d1 ++ dict_keys d2.
Proof. apply fmap_app. Qed.

Lemma dict_wf_app_r d1 d2 : dict_wf (d1 ++ d2) -> dict_wf d2.
Proof. unfold dict_wf. rewrite dict_keys_app. by intros (_ & _ & ?)%NoDup_app. Qed.

Lemma dict_wf_snoc d k v : dict_wf d -> dict_get d k = None -> dict_wf (d ++ [(k, v)]).
Proof. intros Hwf Hn. rewrite <- dict_set_absent by done. by apply dict_wf_set. Qed.

Lemma dict_wf_move d k : dict_wf d -> dict_wf (dict_move_to_end d k).
Proof.
  intros Hwf. unfold dict_move_to_end. destruct (dict_get d k) eqn:E; [|done].
  apply dict_wf_snoc; [by apply dict_wf_del|apply dict_get_del_eq].
Qed.

Lemma dict_get_move d k k' : dict_get (dict_move_to_end d k) k' = dict_get d k'.
Proof.
  unfold dict_move_to_end. destruct (dict_get d k) as [v|] eqn:E; [|done].
  rewrite dict_get_app. simpl. destruct (decide (k = k')) as [->|Hne].
  - by rewrite dict_get_del_eq.
  - rewrite dict_get_del_ne by done. by destruct (dict_get d k').
Qed.

(** *** Lengths and sums *)

Lemma dict_length_del d k v :
  dict_wf d -> dict_get d k = Some v -> length d = S (length (dict_del d k)).
Proof.
  induction d as [|[k' v'] d IH]; simpl; [done|]. intros Hwf.
  case_decide; simpl; [|intros Hg; f_equal; eauto using dict_wf_tail].
  subst. intros [= ->]. f_equal. apply NoDup_cons in Hwf as [Hk _].
  rewrite dict_del_absent; [done|]. by apply dict_get_None.
Qed.

Lemma dict_length_set d k v :
  length (dict_set d k v) = if dict_has d k then length d else S (length d).
Proof.
  unfold dict_has. induction d as [|[k' v'] d IH]; simpl; [done|].
  case_decide; simpl; [done|]. rewrite IH. by destruct (dict_get d k).
Qed.

Lemma dict_length_del_le d k : (length (dict_del d k) ≤ length d)%nat.
Proof. induction d as [|[k' v'] d IH]; simpl; [lia|]. case_decide; simpl; lia. Qed.

Lemma dict_length_move d k :
  dict_wf d -> length (dict_move_to_end d k) = length d.
Proof.
  intros Hwf. unfold dict_move_to_end. destruct (dict_get d k) eqn:E; [|done].
  rewrite length_app. simpl. erewrite (dict_length_del d) by done. lia.
Qed.

Lemma dict_sum_del (f : V -> Z) d k v :
  dict_wf d -> dict_get d k = Some v ->
  sumZ f (dict_values (dict_del d k)) = sumZ f (dict_values d) - f v.
Proof.
  induction d as [|[k' v'] d IH]; simpl; [done|]. intros Hwf.
  case_decide; simpl.
  - subst. intros [= ->]. apply NoDup_cons in Hwf as [Hk _].
    rewrite dict_del_absent by (by apply dict_get_None). lia.
  - intros Hg. rewrite IH; eauto using dict_wf_tail. lia.
Qed.

(** *** The finite map a dictionary denotes *)

Context `{Countable K}.

Definition dict_map (d : dict K V) : gmap K V := list_to_map d.

Lemma dict_map_lookup d k : dict_map d !! k = dict_get d k.
Proof.
  unfold dict_map. induction d as [|[k' v'] d IH]; simpl; [done|].
  case_decide; subst; simplify_map_eq; done.
Qed.

Lemma dict_map_set d k v : dict_map (dict_set d k v) = <[k := v]> (dict_map d).
Proof.
  apply map_eq. intros k'. rewrite dict_map_lookup, lookup_insert, dict_map_lookup.
  case_decide; subst; [apply dict_get_set_eq|by apply dict_get_set_ne].
Qed.

Lemma dict_map_del d k : dict_map (dict_del d k) = delete k (dict_map d).
Proof.
  apply map_eq. intros k'. rewrite dict_map_lookup, lookup_delete, dict_map_lookup.
  case_decide; subst; [apply dict_get_del_eq|by apply dict_get_del_ne].
Qed.

Lemma dict_map_move d k : dict_map (dict_move_to_end d k) = dict_map d.
Proof. apply map_eq. intros k'. by rewrite !dict_map_lookup, dict_get_move. Qed.
End dict.

(** Update the value under a key in place, for [d[k].field = v]. *)
Definition dict_alter {K V} `{EqDecision K} (f : V -> V) (d : dict K V) (k : K) : dict K V :=
  match dict_get d k with Some v => dict_set d k (f v) | None => d end.

#[export] Hint Resolve dict_wf_set dict_wf_del dict_wf_nil dict_wf_move : py.
Create Rewrite HintDb py.
#[export] Hint Rewrite @dict_get_set_eq @dict_get_del_eq @dict_get_move : py.

(** Simplify dictionary lookups in the goal and the hypotheses. *)
Ltac dict_simpl :=
  repeat first
    [ progress autorewrite with py in *
    | rewrite dict_get_set_ne in * by (done || congruence)
    | rewrite dict_get_del_ne in * by (done || congruence) ].

(** ** Dynamically typed values

    The values the source keeps in untyped dictionaries: the snapshot metadata
    as a [dict] (MambaSnapshotMetadata.to_dict), the [layer_config] mapping, the
    documents of the metadata JSON files, and the parameters of tools.  Floats
    only carry clock readings here, so [VFloat] holds the reading in the
    clock's unit. *)

Inductive pyval :=
  | VNone
  | VBool (b : bool)
  | VInt (z : Z)
  | VFloat (t : Z)
  | VStr (s : string)
  | VList (l : list pyval)
  | VDict (d : list (string * pyval)).

Abbreviation pydict := (dict string pyval).

(** [bool(d)] of a dictionary *)
Definition dict_truthy (d : pydict) : bool :=
  match d with [] => false | _ => true end.

(** [m or {}] and [m or old] on optional dictionaries *)
Definition odict_or (m old : option pydict) : option pydict :=
  match m with
  | Some d => if dict_truthy d then m else old
  | None => old
  end.

(** [d.get(k, default)] *)
Definition get_default (d : pydict) (k : string) (default : pyval) : pyval :=
  match dict_get d k with Some v => v | None => default end.

(** [bool(v)] *)
Definition val_truthy (v : pyval) : bool :=
  match v with
  | VNone => false
  | VBool b => b
  | VInt z | VFloat z => negb (bool_decide (z = 0))
  | VStr s => negb (bool_decide (s = ""))
  | VList l => match l with [] => false | _ => true end
  | VDict d => dict_truthy d
  end.
