(* ===== verification/PyText.v ===== *)
(** * Python strings

    The string operations the snapshot manager applies to file names: decimal
    formatting and [int(s)], [s.replace(pat, '')], the last-dot split behind
    [Path.suffix], [Path.stem] and [Path.with_suffix], substring tests, and the
    character-class regular expression of [_sanitize_path_component].  Strings
    are ASCII. *)

From S2P Require Import Prelude.

(** ** Characters *)

Definition digit_value (c : ascii) : option Z :=
  let n := Z.of_N (N_of_ascii c) in
  if bool_decide (48 <= n <= 57) then Some (n - 48) else None.

Definition is_alpha (c : ascii) : bool :=
  let n := Z.of_N (N_of_ascii c) in
  bool_decide (65 <= n <= 90) || bool_decide (97 <= n <= 122).

Definition is_digit (c : ascii) : bool :=
  match digit_value c with Some _ => true | None => false end.

Definition newline : ascii := ascii_of_N 10.

(** ** Python's [int(s)]

    Surrounding white space and one sign are allowed, and single underscores
    between digits. *)

Fixpoint parse_digits (acc : Z) (prev_digit : bool) (s : string) : option Z :=
  match s with
  | "" => if prev_digit then Some acc else None
  | String c s' =>
      match digit_value c with
      | Some d => parse_digits (acc * 10 + d) true s'
      | None =>
          if bool_decide (c = "_"%char) && prev_digit
          then parse_digits acc false s' else None
      end
  end.

Fixpoint lstrip (s : string) : string :=
  match s with
  | "" => ""
  | String c s' => if Ascii.is_space c then lstrip s' else s
  end.

Fixpoint rstrip (s : string) : string :=
  match s with
  | "" => ""
  | String c s' =>
      match rstrip s' with
      | "" => if Ascii.is_space c then "" else String c ""
      | r => String c r
      end
  end.

Definition py_int (s : string) : option Z :=
  match lstrip (rstrip s) with
  | String c s' =>
      if bool_decide (c = "-"%char) then Z.opp <$> parse_digits 0 false s'
      else if bool_decide (c = "+"%char) then parse_digits 0 false s'
      else parse_digits 0 false (String c s')
  | "" => None
  end.

(** ** Substrings *)

(** [pat in s] *)
Fixpoint contains (pat s : string) : bool :=
  String.prefix pat s ||
  match s with "" => false | String _ s' => contains pat s' end.

(** [s.replace(pat, '')] for a non-empty [pat]: [skip] characters of a match
    are still to be dropped. *)
Fixpoint remove_go (pat : string) (skip : nat) (s : string) : string :=
  match s with
  | "" => ""
  | String c s' =>
      match skip with
      | S k => remove_go pat k s'
      | O =>
          if String.prefix pat s then remove_go pat (String.length pat - 1) s'
          else String c (remove_go pat 0 s')
      end
  end.

Definition remove_all (pat s : string) : string := remove_go pat 0 s.

(** ** Names of files *)

(** Split at the last dot. *)
Fixpoint rsplit_dot (s : string) : option (string * string) :=
  match s with
  | "" => None
  | String c s' =>
      match rsplit_dot s' with
      | Some (a, b) => Some (String c a, b)
      | None => if bool_decide (c = "."%char) then Some ("", s') else None
      end
  end.

(** [Path(name).suffix], [Path(name).stem] and [Path(name).with_suffix(suf).name]:
    a leading dot and a trailing dot do not start a suffix. *)
Definition name_split (name : string) : string * string :=
  match rsplit_dot name with
  | Some (a, b) =>
      if bool_decide (a = "") || bool_decide (b = "") then (name, "")
      else (a, "." +:+ b)
  | None => (name, "")
  end.

Definition name_suffix (name : string) : string := (name_split name).2.
Definition name_stem (name : string) : string := (name_split name).1.
Definition with_suffix (name suf : string) : string := name_stem name +:+ suf.

(** ** Sanitising *)

Definition component_char (c : ascii) : bool :=
  is_alpha c || is_digit c ||
  bool_decide (c = "_"%char) || bool_decide (c = "."%char) || bool_decide (c = "-"%char).

(** [re.match(r"^[a-zA-Z0-9_.-]+$", s)]: [$] also matches just before a final
    newline. *)
Fixpoint match_component_go (seen : bool) (s : string) : bool :=
  match s with
  | "" => seen
  | String c s' =>
      if component_char c then match_component_go true s'
      else seen && bool_decide (c = newline) && bool_decide (s' = "")
  end.

Definition match_component (s : string) : bool := match_component_go false s.

(** ** Lemmas *)

Fixpoint str_all (P : ascii -> bool) (s : string) : bool :=
  match s with "" => true | String c s' => P c && str_all P s' end.

Lemma str_app_cons c s1 s2 : String c s1 +:+ s2 = String c (s1 +:+ s2).
Proof. reflexivity. Qed.

Lemma str_app_nil_l s : "" +:+ s = s.
Proof. reflexivity. Qed.

Lemma str_app_nil_r s : s +:+ "" = s.
Proof. induction s as [|c s IH]; [done|]. rewrite str_app_cons. by f_equal. Qed.

Lemma str_app_assoc s1 s2 s3 : (s1 +:+ s2) +:+ s3 = s1 +:+ (s2 +:+ s3).
Proof. induction s1 as [|c s1 IH]; [done|]. rewrite !str_app_cons. by f_equal. Qed.

Lemma str_length_app s1 s2 :
  String.length (s1 +:+ s2) = (String.length s1 + String.length s2)%nat.
Proof. induction s1 as [|c s1 IH]; [done|]. rewrite str_app_cons. simpl. by f_equal. Qed.

Lemma str_app_inj_r s1 s2 t : s1 +:+ t = s2 +:+ t -> s1 = s2.
Proof.
  revert s2. induction s1 as [|c s1 IH]; intros [|c2 s2] Heq; [done| | |].
  - apply (f_equal String.length) in Heq. rewrite !str_length_app in Heq. simpl in Heq. lia.
  - apply (f_equal String.length) in Heq. rewrite !str_length_app in Heq. simpl in Heq. lia.
  - rewrite !str_app_cons in Heq. injection Heq as -> Heq. f_equal. by apply IH.
Qed.

Lemma str_all_app P s1 s2 : str_all P (s1 +:+ s2) = str_all P s1 && str_all P s2.
Proof.
  induction s1 as [|c s1 IH]; [done|]. rewrite str_app_cons. simpl. rewrite IH. apply andb_assoc.
Qed.

Lemma str_all_impl (P Q : ascii -> bool) s :
  (forall c, P c = true -> Q c = true) -> str_all P s = true -> str_all Q s = true.
Proof.
  intros H. induction s as [|c s IH]; simpl; [done|].
  intros [Hc Hs]%andb_prop. by rewrite (H _ Hc), IH.
Qed.

(** *** Decimal numbers *)

Lemma digit_value_pretty (x : N) : (x < 10)%N -> digit_value (pretty_N_char x) = Some (Z.of_N x).
Proof.
  intros Hx. assert (x = 0 \/ x = 1 \/ x = 2 \/ x = 3 \/ x = 4 \/ x = 5 \/ x = 6 \/ x = 7 \/
    x = 8 \/ x = 9)%N as Hc by lia.
  destruct_or? Hc; subst; reflexivity.
Qed.

Lemma parse_pretty_N_go (x : N) s b :
  (0 < x)%N -> parse_digits 0 b (pretty_N_go x s) = parse_digits (Z.of_N x) true s.
Proof.
  revert s b. induction (N.lt_wf_0 x) as [x _ IH]; intros s b Hx.
  rewrite pretty_N_go_step by done.
  assert (x `mod` 10 < 10)%N as Hm by (by apply N.mod_lt).
  pose proof (N.div_mod x 10 ltac:(done)) as Hdm.
  destruct (decide (x `div` 10 = 0)%N) as [Hz|Hnz].
  - rewrite Hz, pretty_N_go_0. simpl. rewrite digit_value_pretty by done. f_equal. lia.
  - rewrite IH by (try apply N.div_lt; lia). simpl.
    rewrite digit_value_pretty by done. f_equal. lia.
Qed.

Lemma pretty_N_go_digits (x : N) s :
  str_all is_digit s = true -> str_all is_digit (pretty_N_go x s) = true.
Proof.
  revert s. induction (N.lt_wf_0 x) as [x _ IH]; intros s Hs.
  destruct (decide (x = 0)%N) as [->|Hnz]; [done|].
  rewrite pretty_N_go_step by lia. apply IH; [apply N.div_lt; lia|]. simpl.
  unfold is_digit. rewrite digit_value_pretty by (by apply N.mod_lt). done.
Qed.

Lemma pretty_nonneg (z : Z) : 0 <= z -> pretty z = pretty (Z.to_N z).
Proof. destruct z; [done|done|lia]. Qed.

Lemma pretty_N_pos (x : N) : (0 < x)%N -> pretty x = pretty_N_go x "".
Proof. intros Hx. unfold pretty, pretty_N. rewrite decide_False; [done|lia]. Qed.

Lemma pretty_digits (z : Z) : 0 <= z -> str_all is_digit (pretty z) = true.
Proof.
  intros Hz. rewrite pretty_nonneg by done.
  destruct (decide (Z.to_N z = 0)%N) as [->|Hnz]; [done|].
  rewrite pretty_N_pos by lia. by apply pretty_N_go_digits.
Qed.

Lemma parse_pretty (z : Z) : 0 <= z -> parse_digits 0 false (pretty z) = Some z.
Proof.
  intros Hz. rewrite pretty_nonneg by done.
  destruct (decide (Z.to_N z = 0)%N) as [Hz0|Hnz].
  - rewrite Hz0. simpl. f_equal. lia.
  - rewrite pretty_N_pos by lia. rewrite parse_pretty_N_go by lia. simpl. f_equal. lia.
Qed.

Lemma digit_not_space c : is_digit c = true -> Ascii.is_space c = false.
Proof. destruct c as [[] [] [] [] [] [] [] []]; by vm_compute. Qed.

Lemma rstrip_digits s : str_all is_digit s = true -> rstrip s = s.
Proof.
  induction s as [|c s IH]; simpl; [done|]. intros [Hc Hs]%andb_prop. rewrite IH by done.
  destruct s; [|done]. by rewrite digit_not_space.
Qed.

Lemma lstrip_digits s : str_all is_digit s = true -> lstrip s = s.
Proof. destruct s as [|c s]; simpl; [done|]. intros [Hc _]%andb_prop. by rewrite digit_not_space. Qed.

(** [int] reads back what an f-string printed. *)
Lemma py_int_pretty (z : Z) : 0 <= z -> py_int (pretty z) = Some z.
Proof.
  intros Hz. pose proof (pretty_digits z Hz) as Hd. pose proof (parse_pretty z Hz) as Hp.
  unfold py_int. rewrite rstrip_digits, lstrip_digits by done.
  destruct (pretty z) as [|c s]; [done|]. simpl in Hd. apply andb_prop in Hd as [Hc _].
  rewrite !bool_decide_false; [done| |]; intros ->; done.
Qed.

(** *** Removing a pattern *)

Lemma remove_go_skip pat p s : remove_go pat (String.length p) (p +:+ s) = remove_all pat s.
Proof. induction p as [|c p IH]; [done|]. rewrite str_app_cons. simpl. apply IH. Qed.

Lemma prefix_app p s : String.prefix p (p +:+ s) = true.
Proof.
  induction p as [|c p IH]; [by destruct s|]. rewrite str_app_cons. simpl.
  destruct (ascii_dec c c); done.
Qed.

Lemma remove_all_match c p s :
  remove_all (String c p) (String c p +:+ s) = remove_all (String c p) s.
Proof.
  unfold remove_all at 1. rewrite str_app_cons. cbn [remove_go].
  rewrite <- str_app_cons, prefix_app.
  replace (String.length (String c p) - 1)%nat with (String.length p) by (simpl; lia).
  apply remove_go_skip.
Qed.

Lemma remove_all_skip c p s1 s2 :
  str_all (fun x => negb (bool_decide (x = c))) s1 = true ->
  remove_all (String c p) (s1 +:+ s2) = s1 +:+ remove_all (String c p) s2.
Proof.
  induction s1 as [|x s1 IH]; [done|]. simpl. intros [Hx Hs]%andb_prop.
  rewrite !str_app_cons. unfold remove_all. cbn [remove_go].
  assert (String.prefix (String c p) (String x (s1 +:+ s2)) = false) as ->.
  { simpl. destruct (ascii_dec c x) as [->|]; [|done].
    by rewrite bool_decide_true in Hx. }
  f_equal. by apply IH.
Qed.

Lemma remove_all_nil pat : remove_all pat "" = "".
Proof. done. Qed.

(** *** Names *)

Lemma rsplit_dot_app a b :
  str_all (fun x => negb (bool_decide (x = "."%char))) b = true ->
  rsplit_dot (a +:+ "." +:+ b) = Some (a, b).
Proof.
  intros Hb.
  assert (rsplit_dot b = None) as Hn.
  { induction b as [|c b IH]; [done|]. simpl in *. apply andb_prop in Hb as [Hc Hb].
    rewrite IH by done. by destruct (bool_decide (c = "."%char)). }
  induction a as [|c a IH].
  { change ("" +:+ "." +:+ b) with (String "."%char b). cbn [rsplit_dot]. by rewrite Hn. }
  rewrite str_app_cons. cbn [rsplit_dot]. by rewrite IH.
Qed.

Lemma name_split_app a b :
  a ≠ "" -> b ≠ "" ->
  str_all (fun x => negb (bool_decide (x = "."%char))) b = true ->
  name_split (a +:+ "." +:+ b) = (a, "." +:+ b).
Proof.
  intros Ha Hb Hd. unfold name_split. rewrite rsplit_dot_app by done.
  by rewrite !bool_decide_false.
Qed.
