(* ===== verification/Torch.v ===== *)
(** * The tensor library, as an interface

    PyTorch is not part of this repository, so tensors are a parameter of the
    model: [Torch] lists the operations the snapshot code calls on them and
    [TorchLaws] the documented behaviour it relies on.  Tensors are values:
    [.cpu()], [.to(device)] and [.clone()] keep the value of a tensor and are
    not written in the model, and no modelled code mutates a tensor that is
    shared, except [mamba_cache[:, i] = v], which is [store_slot]: the pool tensors
    are owned by the pool's record and every write goes through it.

    [ctensor] is a small concrete implementation of the interface, on which
    the theorems of the development are instantiated. *)

From S2P Require Import Prelude.

Inductive dtype :=
  | float32
  | bfloat16
  | float16
  | float8_e4m3fn
  | dtype_other (name : string).

#[global] Instance dtype_eq_dec : EqDecision dtype.
Proof. solve_decision. Defined.

(** [str(t.shape)] *)
Definition shape_str (l : list Z) : string :=
  "torch.Size([" +:+ join ", " (pretty <$> l) +:+ "])".

(** [str(t.dtype)] *)
Definition dtype_str (d : dtype) : string :=
  match d with
  | float32 => "torch.float32"
  | bfloat16 => "torch.bfloat16"
  | float16 => "torch.float16"
  | float8_e4m3fn => "torch.float8_e4m3fn"
  | dtype_other n => "torch." +:+ n
  end.

Class Torch (T : Type) := {
  numel : T -> Z;
  element_size : T -> Z;
  shape : T -> list Z;
  tensor_dtype : T -> dtype;
  has_float8 : bool;              (** [hasattr(torch, "float8_e4m3fn")] *)
  to_float16 : T -> T;            (** [t.to(torch.float16)] *)
  isnan_any : T -> bool;          (** [torch.isnan(t).any()] *)
  isinf_any : T -> bool;          (** [torch.isinf(t).any()] *)
  abs_sum_is_zero : T -> bool;    (** [t.abs().sum() == 0] *)
  num_slots : T -> Z;             (** [t.shape[1]] *)
  select_slot : T -> Z -> T;      (** [t[:, i]] *)
  store_slot : T -> Z -> T -> T;  (** [t] after [t[:, i] = v] *)
  zeros_like : T -> T;            (** zeros of the shape and type of [t] *)
}.

(** [t[:, i]] reads what [t[:, i] = v] wrote when no conversion of the element
    type is involved; other slots, the shape and the element type stay. *)
Class TorchLaws (T : Type) `{Torch T} : Prop := {
  numel_nonneg t : 0 <= numel t;
  element_size_nonneg t : 0 <= element_size t;
  select_store_eq t i v :
    0 <= i < num_slots t -> shape v = shape (select_slot t i) ->
    tensor_dtype v = tensor_dtype t -> select_slot (store_slot t i v) i = v;
  select_store_ne t i j v :
    0 <= i -> 0 <= j -> i ≠ j -> select_slot (store_slot t i v) j = select_slot t j;
  shape_store t i j v :
    shape v = shape (select_slot t i) ->
    shape (select_slot (store_slot t i v) j) = shape (select_slot t j);
  slots_store t i v : num_slots (store_slot t i v) = num_slots t;
  dtype_store t i v : tensor_dtype (store_slot t i v) = tensor_dtype t;
  dtype_select t i : tensor_dtype (select_slot t i) = tensor_dtype t;
  shape_zeros t : shape (zeros_like t) = shape t;
  dtype_zeros t : tensor_dtype (zeros_like t) = tensor_dtype t;
}.

(** ** A concrete implementation

    A state tensor is its rows, one per layer; a pool tensor is the list of
    the state tensors of its slots. *)

Inductive elem := Fin (z : Z) | Inf | NaN.

#[global] Instance elem_eq_dec : EqDecision elem.
Proof. solve_decision. Defined.

Inductive ctensor :=
  | CState (d : dtype) (rows : list (list elem))
  | CPool (d : dtype) (slots : list (list (list elem))).

#[global] Instance ctensor_eq_dec : EqDecision ctensor.
Proof. solve_decision. Defined.

Definition rows_shape (rows : list (list elem)) : list Z :=
  [len rows; match rows with [] => 0 | r :: _ => len r end].

Definition celems (t : ctensor) : list elem :=
  match t with
  | CState _ rows => concat rows
  | CPool _ slots => concat (concat slots)
  end.

Definition c_dtype (t : ctensor) : dtype :=
  match t with CState d _ | CPool d _ => d end.

Definition c_shape (t : ctensor) : list Z :=
  match t with
  | CState _ rows => rows_shape rows
  | CPool _ slots => len slots :: match slots with [] => [0; 0] | r :: _ => rows_shape r end
  end.

Definition c_slots (t : ctensor) : Z :=
  match t with CState _ _ => 0 | CPool _ slots => len slots end.

Definition c_select (t : ctensor) (i : Z) : ctensor :=
  match t with
  | CState _ _ => t
  | CPool d slots =>
      CState d (match slots !! Z.to_nat i with Some r => r | None => [] end)
  end.

Definition c_store (t : ctensor) (i : Z) (v : ctensor) : ctensor :=
  match t, v with
  | CPool d slots, CState _ rows => CPool d (<[Z.to_nat i := rows]> slots)
  | _, _ => t
  end.

Definition zero_row (r : list elem) : list elem := map (fun _ => Fin 0) r.

Definition dtype_size (d : dtype) : Z :=
  match d with
  | float32 => 4
  | bfloat16 | float16 => 2
  | float8_e4m3fn => 1
  | dtype_other _ => 8
  end.

#[global] Instance ctensor_torch : Torch ctensor := {
  numel t := len (celems t);
  element_size t := dtype_size (c_dtype t);
  shape := c_shape;
  tensor_dtype := c_dtype;
  has_float8 := true;
  to_float16 t :=
    match t with CState _ r => CState float16 r | CPool _ s => CPool float16 s end;
  isnan_any t := existsb (fun e => bool_decide (e = NaN)) (celems t);
  isinf_any t := existsb (fun e => bool_decide (e = Inf)) (celems t);
  abs_sum_is_zero t := forallb (fun e => bool_decide (e = Fin 0)) (celems t);
  num_slots := c_slots;
  select_slot := c_select;
  store_slot := c_store;
  zeros_like t :=
    match t with
    | CState d rows => CState d (map zero_row rows)
    | CPool d slots => CPool d (map (map zero_row) slots)
    end;
}.

#[global] Instance ctensor_laws : TorchLaws ctensor.
Proof.
  split.
  - intros t. apply len_nonneg.
  - intros t. simpl. destruct (c_dtype t); simpl; lia.
  - intros [d rows|d slots] i [d' rows'|d' slots']; simpl; intros Hi Hs Hd; try lia; subst;
      [|by destruct slots'].
    f_equal. rewrite list_lookup_insert_eq; [done|]. unfold len in Hi. lia.
  - intros [d rows|d slots] i j [d' rows'|d' slots']; simpl; intros Hi Hj Hne; try done.
    rewrite list_lookup_insert_ne; [done|]. lia.
  - intros [d rows|d slots] i j [d' rows'|d' slots']; simpl; intros Hs; try done.
    destruct (decide (Z.to_nat i = Z.to_nat j)) as [Hij|Hij].
    + rewrite <- Hij. destruct (decide (Z.to_nat i < length slots)%nat) as [Hlt|Hge].
      * rewrite list_lookup_insert_eq by done. done.
      * rewrite list_insert_ge by lia. done.
    + by rewrite list_lookup_insert_ne.
  - intros [d rows|d slots] i [d' rows'|d' slots']; simpl; try done. unfold len.
    by rewrite length_insert.
  - intros [d rows|d slots] i [d' rows'|d' slots']; done.
  - by intros [d rows|d slots] i.
  - assert (forall rows : list (list elem),
      rows_shape (map zero_row rows) = rows_shape rows) as Hrows.
    { intros [|r rows]; [done|]. unfold rows_shape, len, zero_row. simpl. by rewrite !length_map. }
    intros [d rows|d slots]; simpl; [apply Hrows|]. unfold len. rewrite length_map.
    destruct slots as [|r slots]; [done|]. simpl. by rewrite Hrows.
  - by intros [d rows|d slots].
Qed.
