(* ===== verification/Metadata.v ===== *)
(** * Snapshot metadata and state validation (snapshot/mamba_snapshot.py, part 1)

    The [MambaSnapshotMetadata] dataclass with its dictionary form, and
    [validate_state_tensors], the structural check every save, load and
    injection of a state goes through.

    The dataclass is typed here by its annotations, except that
    [turn_number] may be [None], which the save handler can pass.  A
    dictionary value of another type than the annotation makes [from_dict]
    raise [TypeError] in the model; Python would carry it untyped. *)

From S2P Require Import Prelude PyDict Torch.

(** ** MambaSnapshotMetadata *)

Record MambaSnapshotMetadata := mkMeta {
  md_conversation_id : string;
  md_turn_number : option Z;
  md_timestamp : Z;
  md_token_count : Z;
  md_model_name : string;
  md_mamba_pool_idx : Z;
  md_req_pool_idx : Z;
  md_layer_config : pydict;
  md_active_tool_context : option string;
  md_branch_name : option string;
  md_parent_snapshot : option string;
  md_fill_ids : option (list Z);
}.

Definition v_opt {A} (f : A -> pyval) (o : option A) : pyval :=
  match o with Some x => f x | None => VNone end.

(** [asdict(self)]: the fields in declaration order. *)
Definition to_dict (m : MambaSnapshotMetadata) : pydict :=
  [("conversation_id", VStr (md_conversation_id m));
   ("turn_number", v_opt VInt (md_turn_number m));
   ("timestamp", VFloat (md_timestamp m));
   ("token_count", VInt (md_token_count m));
   ("model_name", VStr (md_model_name m));
   ("mamba_pool_idx", VInt (md_mamba_pool_idx m));
   ("req_pool_idx", VInt (md_req_pool_idx m));
   ("layer_config", VDict (md_layer_config m));
   ("active_tool_context", v_opt VStr (md_active_tool_context m));
   ("branch_name", v_opt VStr (md_branch_name m));
   ("parent_snapshot", v_opt VStr (md_parent_snapshot m));
   ("fill_ids", v_opt (fun l => VList (VInt <$> l)) (md_fill_ids m))].

(** Reading a value at its annotated type. *)
Definition as_str (v : pyval) : option string :=
  match v with VStr s => Some s | _ => None end.
Definition as_int (v : pyval) : option Z :=
  match v with VInt z => Some z | _ => None end.
Definition as_float (v : pyval) : option Z :=
  match v with VFloat z => Some z | _ => None end.
Definition as_dict (v : pyval) : option pydict :=
  match v with VDict d => Some d | _ => None end.
Definition as_opt {A} (f : pyval -> option A) (v : pyval) : option (option A) :=
  match v with VNone => Some None | _ => Some <$> f v end.
Definition as_int_list (v : pyval) : option (list Z) :=
  match v with VList l => mapM as_int l | _ => None end.
Definition as_ids (v : pyval) : option (option (list Z)) := as_opt as_int_list v.

(** The parameters of the dataclass constructor: the first eight are required,
    the last four default to [None]. *)
Definition required_fields : list string :=
  ["conversation_id"; "turn_number"; "timestamp"; "token_count"; "model_name";
   "mamba_pool_idx"; "req_pool_idx"; "layer_config"].
Definition optional_fields : list string :=
  ["active_tool_context"; "branch_name"; "parent_snapshot"; "fill_ids"].

Definition type_error {A} (msg : string) : res A := Raise (Exn TypeError msg).

Definition build_metadata (d : pydict) : option MambaSnapshotMetadata :=
  cid ← dict_get d "conversation_id" ≫= as_str;
  turn ← dict_get d "turn_number" ≫= as_opt as_int;
  ts ← dict_get d "timestamp" ≫= as_float;
  tokens ← dict_get d "token_count" ≫= as_int;
  model ← dict_get d "model_name" ≫= as_str;
  pool ← dict_get d "mamba_pool_idx" ≫= as_int;
  req ← dict_get d "req_pool_idx" ≫= as_int;
  layers ← dict_get d "layer_config" ≫= as_dict;
  tool ← as_opt as_str (get_default d "active_tool_context" VNone);
  branch ← as_opt as_str (get_default d "branch_name" VNone);
  parent ← as_opt as_str (get_default d "parent_snapshot" VNone);
  ids ← as_ids (get_default d "fill_ids" VNone);
  Some (mkMeta cid turn ts tokens model pool req layers tool branch parent ids).

(** [from_dict]: the dataclass constructor applied to the items as keyword
    arguments.  Python does not check the annotations; a document whose values
    have other types than those [to_dict] writes is outside the model, which
    refuses it with a [TypeError]. *)
Definition from_dict (d : pydict) : res MambaSnapshotMetadata :=
  if forallb (fun k => bool_decide (k ∈ required_fields ++ optional_fields)) (dict_keys d) then
    if forallb (dict_has d) required_fields then
      match build_metadata d with
      | Some m => Ok m
      | None => type_error "a metadata value has the wrong type"
      end
    else type_error "missing required positional arguments"
  else type_error "got an unexpected keyword argument".

(** ** validate_state_tensors *)

Record ValidationResult := mkValidation {
  is_valid : bool;
  warnings : list string;
  errors : list string;
}.

Section validation.
Context {T : Type} `{Torch T}.

Definition ALLOWED_DTYPES : list dtype :=
  [float32; bfloat16; float16] ++ (if has_float8 then [float8_e4m3fn] else []).

(** [_check_tensor]: the warnings and errors one tensor adds, in order. *)
Definition check_tensor (strict : bool) (conv_id : string) (t : T) (name : string)
    (acc : list string * list string) : list string * list string :=
  let '(ws, es) := acc in
  let tag := "[" +:+ conv_id +:+ "] " +:+ name +:+ ": " in
  if bool_decide (numel t = 0) then (ws, es ++ [tag +:+ "empty tensor (0 elements)"])
  else if negb (bool_decide (tensor_dtype t ∈ ALLOWED_DTYPES)) then
    (ws, es ++ [tag +:+ "invalid dtype " +:+ dtype_str (tensor_dtype t) +:+
                ", expected one of {" +:+ join ", " (dtype_str <$> ALLOWED_DTYPES) +:+ "}"])
  else
    let check_t :=
      if has_float8 && bool_decide (tensor_dtype t = float8_e4m3fn) then to_float16 t else t in
    let es := if isnan_any check_t then es ++ [tag +:+ "contains NaN values"] else es in
    let es := if isinf_any check_t then es ++ [tag +:+ "contains Inf values"] else es in
    if abs_sum_is_zero check_t then
      let msg := tag +:+ "all-zero tensor (possibly uninitialized)" in
      if strict then (ws, es ++ [msg]) else (ws ++ [msg], es)
    else (ws, es).

(** The loop over [enumerate(conv_states)]. *)
Fixpoint check_conv_states (strict : bool) (conv_id : string) (i : Z) (l : list T)
    (acc : list string * list string) : list string * list string :=
  match l with
  | [] => acc
  | t :: l' =>
      check_conv_states strict conv_id (i + 1) l'
        (check_tensor strict conv_id t ("conv_state[" +:+ pretty i +:+ "]") acc)
  end.

Definition validate_state_tensors (conv_states : list T) (temporal_states : T)
    (metadata : option MambaSnapshotMetadata) (strict : bool) : ValidationResult :=
  let conv_id := match metadata with Some m => md_conversation_id m | None => "unknown" end in
  match conv_states with
  | [] => mkValidation false [] ["[" +:+ conv_id +:+ "] conv_states list is empty"]
  | _ =>
      let acc := check_conv_states strict conv_id 0 conv_states ([], []) in
      let '(ws, es) := check_tensor strict conv_id temporal_states "temporal_states" acc in
      mkValidation (bool_decide (len es = 0)) ws es
  end.

(** ** Lemmas *)

(** The tensor the numeric checks look at. *)
Definition checked (t : T) : T :=
  if has_float8 && bool_decide (tensor_dtype t = float8_e4m3fn) then to_float16 t else t.

(** What the checks accept. *)
Definition tensor_ok (strict : bool) (t : T) : Prop :=
  numel t ≠ 0 /\ tensor_dtype t ∈ ALLOWED_DTYPES /\
  isnan_any (checked t) = false /\ isinf_any (checked t) = false /\
  (strict = true -> abs_sum_is_zero (checked t) = false).

(** The warnings accumulated by the checks never matter for validity. *)
Lemma check_tensor_errors strict conv_id t name ws es :
  exists es', (check_tensor strict conv_id t name (ws, es)).2 = es ++ es' /\
    (es' = [] <-> tensor_ok strict t).
Proof.
  unfold check_tensor, tensor_ok, checked.
  destruct (decide (numel t = 0)) as [Hz|Hz].
  { rewrite bool_decide_true by done. eexists. split; [reflexivity|]. naive_solver. }
  rewrite (bool_decide_false (numel t = 0)) by done.
  destruct (decide (tensor_dtype t ∈ ALLOWED_DTYPES)) as [Hd|Hd].
  2:{ rewrite bool_decide_false by done. eexists. split; [reflexivity|]. naive_solver. }
  rewrite bool_decide_true by done. cbn [negb].
  set (c := if _ && _ then _ else _).
  destruct (isnan_any c), (isinf_any c), (abs_sum_is_zero c), strict; simpl;
    rewrite <- ?app_assoc; simpl;
    (eexists; split; [first [reflexivity | symmetry; apply app_nil_r]|naive_solver]).
Qed.

Lemma check_conv_states_errors strict conv_id i l acc :
  exists es', (check_conv_states strict conv_id i l acc).2 = acc.2 ++ es' /\
    (es' = [] <-> Forall (tensor_ok strict) l).
Proof.
  revert i acc. induction l as [|t l IH]; intros i [ws es]; cbn [check_conv_states].
  - exists []. by rewrite app_nil_r.
  - set (name := "conv_state[" +:+ pretty i +:+ "]").
    destruct (check_tensor_errors strict conv_id t name ws es) as (es1 & Heq & Hes1).
    destruct (IH (i + 1) (check_tensor strict conv_id t name (ws, es))) as (es2 & -> & Hes2).
    rewrite Heq, <- app_assoc. exists (es1 ++ es2). split; [done|].
    rewrite app_nil, Forall_cons, Hes1, Hes2. done.
Qed.

Lemma validate_valid_iff conv temporal m strict :
  is_valid (validate_state_tensors conv temporal m strict) = true <->
  conv ≠ [] /\ Forall (tensor_ok strict) conv /\ tensor_ok strict temporal.
Proof.
  unfold validate_state_tensors. destruct conv as [|t conv]; [naive_solver|].
  set (cid := match m with Some _ => _ | None => _ end).
  destruct (check_conv_states_errors strict cid 0 (t :: conv) ([], [])) as (es1 & Heq1 & Hes1).
  destruct (check_conv_states _ _ _ _ _) as [ws es] eqn:E. simpl in Heq1. subst es.
  destruct (check_tensor_errors strict cid temporal "temporal_states" ws es1) as (es2 & Heq2 & Hes2).
  destruct (check_tensor _ _ _ _ _) as [ws' es']. simpl in Heq2 |- *. subst es'.
  rewrite <- Hes1, <- Hes2, <- app_nil, bool_decide_eq_true. unfold len.
  destruct (es1 ++ es2); simpl; split; intros; naive_solver lia.
Qed.

Lemma validate_valid_errors conv temporal m strict :
  is_valid (validate_state_tensors conv temporal m strict) = true <->
  errors (validate_state_tensors conv temporal m strict) = [].
Proof.
  unfold validate_state_tensors. destruct conv; [simpl; naive_solver|].
  destruct (check_tensor _ _ _ _ _) as [ws es]. simpl. rewrite bool_decide_eq_true.
  unfold len. destruct es; simpl; naive_solver lia.
Qed.

Lemma validate_valid_any m m' conv temporal strict :
  is_valid (validate_state_tensors conv temporal m strict) =
  is_valid (validate_state_tensors conv temporal m' strict).
Proof. apply eq_true_iff_eq. by rewrite !validate_valid_iff. Qed.

(** [validate_state_tensors] accepts exactly the states that can be
    restored: there is at least one conv state, and every conv state and the
    temporal state are non-empty, have an allowed element type, hold no NaN
    and no infinity (an FP8 tensor is looked at after its conversion to
    float16) and, in strict mode, are not all zero; a state is accepted
    when and only when no error is reported, whatever the metadata. *)
Theorem validation_exact conv temporal m strict :
  let result := validate_state_tensors conv temporal m strict in
  (is_valid result = true <->
     conv ≠ [] /\ Forall (fun t =>
       numel t ≠ 0 /\ tensor_dtype t ∈ ALLOWED_DTYPES /\ isnan_any (checked t) = false /\
       isinf_any (checked t) = false /\ (strict = true -> abs_sum_is_zero (checked t) = false))
       (temporal :: conv)) /\
  (is_valid result = true <-> errors result = []).
Proof.
  split; [|apply validate_valid_errors]. rewrite validate_valid_iff, Forall_cons.
  unfold tensor_ok. naive_solver.
Qed.

End validation.

Lemma as_int_list_ints l : as_int_list (VList (VInt <$> l)) = Some l.
Proof.
  unfold as_int_list. apply mapM_Some. induction l as [|x l IH]; constructor; done.
Qed.

Lemma as_ids_ids ids : as_ids (v_opt (fun l => VList (VInt <$> l)) ids) = Some ids.
Proof.
  destruct ids as [l|]; [|done].
  change (Some <$> as_int_list (VList (VInt <$> l)) = Some (Some l)).
  by rewrite as_int_list_ints.
Qed.

Lemma build_to_dict m : build_metadata (to_dict m) = Some m.
Proof.
  destruct m as [cid turn ts tokens model pool req layers tool branch parent ids].
  pose proof (as_ids_ids ids) as Hids. unfold to_dict. cbn [md_fill_ids].
  generalize dependent (v_opt (fun l => VList (VInt <$> l)) ids). intros w Hids.
  destruct turn, tool, branch, parent; cbv -[as_ids]; rewrite Hids; done.
Qed.

Lemma from_to_dict m : from_dict (to_dict m) = Ok m.
Proof.
  unfold from_dict.
  assert (forallb (fun k => bool_decide (k ∈ required_fields ++ optional_fields))
    (dict_keys (to_dict m)) = true) as -> by (vm_compute; reflexivity).
  assert (forallb (dict_has (to_dict m)) required_fields = true) as -> by (vm_compute; reflexivity).
  by rewrite build_to_dict.
Qed.
