(* ===== verification/MambaPool.v ===== *)
(** * MambaPool (mem_cache/memory_pool.py) and the state transfers of
    mamba_snapshot.py

    The pool of device slots that hold the recurrent state of running
    requests.  [mamba_cache.conv] is a list of tensors and
    [mamba_cache.temporal] one tensor, all of shape [layers, size + 1, ...];
    slot 0 is the padding slot and is never handed out.  The speculative
    variant of the cache and the device on which tensors live are not
    modelled.  [extract_state_from_pool] and [inject_state_to_pool] copy the
    state of one slot out of and into the pool. *)

From S2P Require Import Prelude PyDict Torch Metadata.

Record MambaPool (T : Type) := mkMPool {
  pool_size : Z;
  pool_conv : list T;
  pool_temporal : T;
  free_slots : list Z;
}.
Arguments mkMPool {T} _ _ _ _.
Arguments pool_size {T} _.
Arguments pool_conv {T} _.
Arguments pool_temporal {T} _.
Arguments free_slots {T} _.

Section pool.
Context {T : Type} `{Torch T}.
Implicit Types (p : MambaPool T).

Definition set_free (l : list Z) (p : MambaPool T) : MambaPool T :=
  mkMPool (pool_size p) (pool_conv p) (pool_temporal p) l.

Definition set_cache (c : list T) (t : T) (p : MambaPool T) : MambaPool T :=
  mkMPool (pool_size p) c t (free_slots p).

(** [torch.arange(1, self.size + 1)] *)
Definition all_slots (size : Z) : list Z := seqZ 1 size.

Definition mamba_pool_init (size : Z) (conv : list T) (temporal : T) : MambaPool T :=
  mkMPool size conv temporal (all_slots size).

Definition available_size (p : MambaPool T) : Z := len (free_slots p).

(** [alloc]: sizes are not negative. *)
Definition alloc (need_size : nat) (p : MambaPool T) : option (list Z) * MambaPool T :=
  if bool_decide (length (free_slots p) < need_size)%nat then (None, p)
  else (Some (take need_size (free_slots p)), set_free (drop need_size (free_slots p)) p).

Definition free (free_index : list Z) (p : MambaPool T) : MambaPool T :=
  if bool_decide (len free_index = 0) then p
  else set_free (free_slots p ++ free_index) p.

Definition pool_clear (p : MambaPool T) : MambaPool T := set_free (all_slots (pool_size p)) p.

(** [t[:, indices] = zeros] *)
Definition zero_slots (indices : list Z) (t : T) : T :=
  foldl (fun t i => store_slot t i (zeros_like (select_slot t i))) t indices.

Definition clear_slots (indices : list Z) (p : MambaPool T) : MambaPool T :=
  set_cache (zero_slots indices <$> pool_conv p) (zero_slots indices (pool_temporal p)) p.

(** [t[:, indices]], as the list of the slots read. *)
Definition gather (indices : list Z) (t : T) : list T := select_slot t <$> indices.

(** [t[:, indices] = vs]: index [i] gets the value at the same position of
    [vs]; a single value is broadcast, other lengths are refused.  (With a
    repeated index PyTorch does not say which write wins; here the last.) *)
Definition scatter (indices : list Z) (vs : list T) (t : T) : res T :=
  let write vs := foldl (fun t iv => store_slot t iv.1 iv.2) t (zip indices vs) in
  if bool_decide (length vs = length indices) then Ok (write vs)
  else match vs with
       | [v] => Ok (write (replicate (length indices) v))
       | _ => Raise (Exn RuntimeError "shape mismatch")
       end.

(** [for i, conv in enumerate(self.mamba_cache.conv): conv[:, indices] = f i conv] *)
Fixpoint write_conv (indices : list Z) (f : nat -> T -> res (list T)) (i n : nat) :
    M (MambaPool T) unit :=
  match n with
  | O => mret tt
  | S n' => fun p =>
      match pool_conv p !! i with
      | None => (Ok tt, p)
      | Some t =>
          match f i t with
          | Raise e => (Raise e, p)
          | Ok vs =>
              match scatter indices vs t with
              | Raise e => (Raise e, p)
              | Ok t' =>
                  write_conv indices f (S i) n'
                    (set_cache (<[i := t']> (pool_conv p)) (pool_temporal p) p)
              end
          end
      end
  end.

(** [self.mamba_cache.temporal[:, indices] = f temporal] *)
Definition write_temporal (indices : list Z) (f : T -> list T) : M (MambaPool T) unit := fun p =>
  match scatter indices (f (pool_temporal p)) (pool_temporal p) with
  | Raise e => (Raise e, p)
  | Ok t' => (Ok tt, set_cache (pool_conv p) t' p)
  end.

(** The right-hand side of [t[:, dst] = t[:, src]] is read before anything is
    written. *)
Definition copy_from (src_indices dst_indices : list Z) : M (MambaPool T) unit := fun p =>
  (write_conv dst_indices (fun _ t => Ok (gather src_indices t)) 0 (length (pool_conv p)) ≫= fun _ =>
   write_temporal dst_indices (gather src_indices)) p.

Definition get_cpu_copy (indices : list Z) (p : MambaPool T) : list (list T) * list T :=
  (gather indices <$> pool_conv p, gather indices (pool_temporal p)).

Definition load_cpu_copy (cpu : list (list T) * list T) (indices : list Z) :
    M (MambaPool T) unit := fun p =>
  (write_conv indices
     (fun i _ => match cpu.1 !! i with
                 | Some vs => Ok vs
                 | None => Raise (Exn IndexError "list index out of range")
                 end) 0 (length (pool_conv p)) ≫= fun _ =>
   write_temporal indices (fun _ => cpu.2)) p.

(** ** Transfers *)

(** [t[:, i]]: a negative index counts from the end. *)
Definition index_slot (t : T) (i : Z) : res T :=
  if bool_decide (0 <= i < num_slots t) then Ok (select_slot t i)
  else if bool_decide (- num_slots t <= i < 0) then Ok (select_slot t (i + num_slots t))
  else Raise (Exn IndexError "index out of bounds").

Fixpoint map_res {A B} (f : A -> res B) (l : list A) : res (list B) :=
  match l with
  | [] => Ok []
  | x :: l' =>
      match f x with
      | Raise e => Raise e
      | Ok y => match map_res f l' with Raise e => Raise e | Ok ys => Ok (y :: ys) end
      end
  end.

Definition extract_state_from_pool (p : MambaPool T) (mamba_pool_idx : Z) : res (list T * T) :=
  match map_res (fun t => index_slot t mamba_pool_idx) (pool_conv p) with
  | Raise e => Raise e
  | Ok conv_states =>
      match index_slot (pool_temporal p) mamba_pool_idx with
      | Raise e => Raise e
      | Ok temporal_states =>
          let result := validate_state_tensors conv_states temporal_states None false in
          if negb (is_valid result) then
            Raise (Exn ValueError ("Extracted state from pool idx " +:+ pretty mamba_pool_idx +:+
              " failed validation: " +:+ join "; " (errors result)))
          else Ok (conv_states, temporal_states)
      end
  end.

(** The loop over [enumerate(conv_states)]: a shape error at layer [i] comes
    after the layers before it were written. *)
Fixpoint inject_conv (i : nat) (conv_states : list T) (idx : Z) : M (MambaPool T) unit :=
  match conv_states with
  | [] => mret tt
  | c :: rest => fun p =>
      match pool_conv p !! i with
      | None => (Raise (Exn IndexError "list index out of range"), p)
      | Some t =>
          match index_slot t idx with
          | Raise e => (Raise e, p)
          | Ok expected =>
              if negb (bool_decide (shape c = shape expected)) then
                (Raise (Exn ValueError ("Conv state " +:+ pretty (Z.of_nat i) +:+
                  " shape mismatch: got " +:+ shape_str (shape c) +:+
                  ", expected " +:+ shape_str (shape expected))), p)
              else
                inject_conv (S i) rest idx
                  (set_cache (<[i := store_slot t idx c]> (pool_conv p)) (pool_temporal p) p)
          end
      end
  end.

Definition inject_temporal (temporal : T) (idx : Z) : M (MambaPool T) unit := fun p =>
  match index_slot (pool_temporal p) idx with
  | Raise e => (Raise e, p)
  | Ok expected =>
      if negb (bool_decide (shape temporal = shape expected)) then
        (Raise (Exn ValueError ("Temporal state shape mismatch: got " +:+
          shape_str (shape temporal) +:+ ", expected " +:+ shape_str (shape expected))), p)
      else (Ok tt, set_cache (pool_conv p) (store_slot (pool_temporal p) idx temporal) p)
  end.

Definition inject_state_to_pool (conv_states : list T) (temporal_states : T)
    (mamba_pool_idx : Z) : M (MambaPool T) unit := fun p =>
  if bool_decide (mamba_pool_idx < 1) || bool_decide (pool_size p < mamba_pool_idx) then
    (Raise (Exn RuntimeError ("Invalid mamba_pool_idx " +:+ pretty mamba_pool_idx +:+
      ", must be in range [1, " +:+ pretty (pool_size p) +:+ "]")), p)
  else if negb (bool_decide (len conv_states = len (pool_conv p))) then
    (Raise (Exn ValueError ("Conv state count mismatch: got " +:+ pretty (len conv_states) +:+
      ", expected " +:+ pretty (len (pool_conv p)))), p)
  else
    let result := validate_state_tensors conv_states temporal_states None false in
    if negb (is_valid result) then
      (Raise (Exn ValueError ("State validation failed before GPU injection at pool idx " +:+
        pretty mamba_pool_idx +:+ ": " +:+ join "; " (errors result))), p)
    else
      (inject_conv 0 conv_states mamba_pool_idx ≫= fun _ =>
       inject_temporal temporal_states mamba_pool_idx) p.

(** ** Slots are handed out once *)

(** The pool together with the slots its users hold. *)
Inductive mpool_step : MambaPool T * list Z -> MambaPool T * list Z -> Prop :=
  | mstep_alloc n p used l p' :
      alloc n p = (Some l, p') -> mpool_step (p, used) (p', used ++ l)
  | mstep_alloc_fail n p used p' :
      alloc n p = (None, p') -> mpool_step (p, used) (p', used)
  | mstep_free l p used rest :
      used ≡ₚ l ++ rest -> mpool_step (p, used) (free l p, rest)
  | mstep_clear p used : mpool_step (p, used) (pool_clear p, [])
  | mstep_data p p' used :
      pool_size p' = pool_size p -> free_slots p' = free_slots p ->
      mpool_step (p, used) (p', used).

Inductive mpool_reach (size : Z) (conv : list T) (temporal : T) :
    MambaPool T * list Z -> Prop :=
  | mreach_init : mpool_reach size conv temporal (mamba_pool_init size conv temporal, [])
  | mreach_step s s' :
      mpool_reach size conv temporal s -> mpool_step s s' -> mpool_reach size conv temporal s'.

Definition slots_inv (size : Z) (s : MambaPool T * list Z) : Prop :=
  pool_size s.1 = size /\ free_slots s.1 ++ s.2 ≡ₚ all_slots size.

Lemma alloc_some n p l p' :
  alloc n p = (Some l, p') ->
  free_slots p = l ++ free_slots p' /\ length l = n /\ p' = set_free (free_slots p') p.
Proof.
  unfold alloc. case_bool_decide as Hn; [done|]. intros [= <- <-]. simpl.
  rewrite take_drop, length_take. split_and!; [done|lia|done].
Qed.

Lemma alloc_none n p p' :
  alloc n p = (None, p') -> (length (free_slots p) < n)%nat /\ p' = p.
Proof. unfold alloc. case_bool_decide; [by intros [= <-]|done]. Qed.

Lemma free_free_slots l p : free_slots (free l p) = free_slots p ++ l /\ pool_size (free l p) = pool_size p.
Proof.
  unfold free. case_bool_decide as Hl; [|done].
  assert (l = []) as -> by (destruct l; [done|unfold len in Hl; simpl in Hl; lia]).
  by rewrite app_nil_r.
Qed.

Lemma slots_inv_step size s s' : slots_inv size s -> mpool_step s s' -> slots_inv size s'.
Proof.
  intros [Hsz Hperm] Hstep. destruct Hstep as [n p used l p' Ha|n p used p' Ha|l p used rest Hu
    |p used|p p' used H1 H2]; simpl in *.
  - apply alloc_some in Ha as (Hf & _ & ->). split; [done|]. simpl in *. rewrite Hf in Hperm.
    rewrite <- Hperm. solve_Permutation.
  - apply alloc_none in Ha as [_ ->]. done.
  - destruct (free_free_slots l p) as [Hf Hs]. split; simpl; [congruence|].
    rewrite Hf, <- Hperm, Hu. solve_Permutation.
  - split; [done|]. simpl. by rewrite Hsz, app_nil_r.
  - split; simpl; congruence.
Qed.

(** as long as users only free slots they hold, every slot from 1 to
    [size] is at every moment either free or held by exactly one user, and
    slot 0, the padding slot, is never handed out: the free list and the held
    slots are disjoint, without repetition, and together exactly 1..[size].
    [alloc] succeeds exactly when enough slots are free. *)
Theorem mamba_pool_slots size conv temporal p used :
  mpool_reach size conv temporal (p, used) ->
  NoDup (free_slots p ++ used) /\
  (forall i, i ∈ free_slots p ++ used <-> 1 <= i <= size) /\
  forall n, (exists l, (alloc n p).1 = Some l /\ length l = n) <-> (n <= length (free_slots p))%nat.
Proof.
  intros Hr. assert (slots_inv size (p, used)) as [Hsz Hperm].
  { remember (p, used) as s eqn:Es. clear Es. induction Hr as [|s1 s2 _ IH Hst].
    - split; [done|]. simpl. by rewrite app_nil_r.
    - by eapply slots_inv_step. }
  simpl in *. split_and!.
  - rewrite Hperm. apply NoDup_seqZ.
  - intros i. rewrite Hperm. unfold all_slots. rewrite elem_of_seqZ. lia.
  - intros n. unfold alloc. case_bool_decide; simpl.
    + split; [by intros (l & ? & _)|lia].
    + split; [lia|]. intros _. eexists. split; [done|]. rewrite length_take. lia.
Qed.

(** ** Transfers touch one slot *)

Context `{!TorchLaws T}.

(** [t'] is [t] with at most slot [idx] rewritten by a state of its shape. *)
Definition same_but (idx : Z) (t t' : T) : Prop :=
  num_slots t' = num_slots t /\ tensor_dtype t' = tensor_dtype t /\
  (forall j, shape (select_slot t' j) = shape (select_slot t j)) /\
  (forall j, 0 <= j -> j ≠ idx -> select_slot t' j = select_slot t j).

Definition only_slot (idx : Z) (p p' : MambaPool T) : Prop :=
  pool_size p' = pool_size p /\ free_slots p' = free_slots p /\
  Forall2 (same_but idx) (pool_conv p) (pool_conv p') /\
  same_but idx (pool_temporal p) (pool_temporal p').

#[local] Instance same_but_refl idx : Reflexive (same_but idx).
Proof. intros t. by split_and!. Qed.

#[local] Instance same_but_trans idx : Transitive (same_but idx).
Proof.
  intros t1 t2 t3 (A1 & A2 & A3 & A4) (B1 & B2 & B3 & B4). split_and!; try congruence.
  intros j Hj Hne. by rewrite B4, A4.
Qed.

#[local] Instance only_slot_refl idx : Reflexive (only_slot idx).
Proof. intros p. split_and!; [done..| |done]. apply Forall_Forall2_diag, Forall_true. done. Qed.

#[local] Instance only_slot_trans idx : Transitive (only_slot idx).
Proof.
  intros p1 p2 p3 (A1 & A2 & A3 & A4) (B1 & B2 & B3 & B4). split_and!; try congruence.
  - by etrans.
  - by etrans.
Qed.

Lemma same_but_store idx t v :
  0 <= idx -> shape v = shape (select_slot t idx) -> same_but idx t (store_slot t idx v).
Proof.
  intros Hi Hs. split_and!; [apply slots_store|apply dtype_store|intros j; by apply shape_store|].
  intros j Hj Hne. by apply select_store_ne.
Qed.

(** Every tensor of the pool has [size + 1] slots. *)
Definition pool_wf p : Prop :=
  Forall (fun t => num_slots t = pool_size p + 1) (pool_conv p) /\
  num_slots (pool_temporal p) = pool_size p + 1.

Lemma only_slot_wf idx p p' : only_slot idx p p' -> pool_wf p -> pool_wf p'.
Proof.
  intros (Hs & _ & Hc & Ht & _) [Hw1 Hw2]. split; [|congruence]. rewrite Hs.
  induction Hc as [|t t' l l' Hh _ IH]; [done|]. inversion Hw1; subst.
  constructor; [destruct Hh; congruence|by apply IH].
Qed.

Lemma index_slot_in t idx : 0 <= idx < num_slots t -> index_slot t idx = Ok (select_slot t idx).
Proof. intros Hi. unfold index_slot. by rewrite bool_decide_true. Qed.

Definition fits_slot (idx : Z) (c t : T) : Prop := shape c = shape (select_slot t idx).

#[global] Instance fits_slot_dec idx c t : Decision (fits_slot idx c t).
Proof. unfold fits_slot. apply _. Defined.

Lemma inject_conv_frame i l idx p : 0 <= idx -> only_slot idx p (inject_conv i l idx p).2.
Proof.
  intros Hi. revert i p. induction l as [|c l IH]; intros i p; simpl; [done|].
  destruct (pool_conv p !! i) as [t|] eqn:Ht; [|done].
  destruct (index_slot t idx) as [e|] eqn:He; [|done].
  destruct (bool_decide (shape c = shape e)) eqn:Hs; simpl; [|done].
  apply bool_decide_eq_true in Hs.
  etrans; [|apply IH]. split_and!; [done..| |done]. simpl.
  rewrite <- (list_insert_id (pool_conv p) i t Ht) at 1.
  apply Forall2_insert; [apply Forall_Forall2_diag, Forall_true; done|].
  unfold index_slot in He. case_bool_decide; [|case_bool_decide; [lia|done]].
  injection He as <-. by apply same_but_store.
Qed.

Lemma inject_temporal_frame v idx p : 0 <= idx -> only_slot idx p (inject_temporal v idx p).2.
Proof.
  intros Hi. unfold inject_temporal. destruct (index_slot _ idx) as [e|] eqn:He; [|done].
  destruct (bool_decide (shape v = shape e)) eqn:Hs; simpl; [|done].
  apply bool_decide_eq_true in Hs. split_and!; [done..| |].
  - apply Forall_Forall2_diag, Forall_true. done.
  - unfold index_slot in He. case_bool_decide; [|case_bool_decide; [lia|done]].
    injection He as <-. by apply same_but_store.
Qed.

Lemma inject_conv_run l idx pre ts p :
  pool_conv p = pre ++ ts -> length l = length ts -> Forall (fun t => 0 <= idx < num_slots t) ts ->
  (Forall2 (fits_slot idx) l ts ->
     inject_conv (length pre) l idx p =
       (Ok tt, set_cache (pre ++ zip_with (fun c t => store_slot t idx c) l ts) (pool_temporal p) p)) /\
  (~ Forall2 (fits_slot idx) l ts -> exists e, (inject_conv (length pre) l idx p).1 = Raise e).
Proof.
  revert pre ts p. induction l as [|c l IH]; intros pre [|t ts] p Hp Hlen Hr; try done.
  { split; [|by intros Hn; destruct Hn]. intros _. simpl. rewrite app_nil_r in *.
    rewrite <- Hp. by destruct p. }
  apply Forall_cons in Hr as [Ht Hr]. cbn [inject_conv].
  rewrite Hp, list_lookup_middle by done. rewrite index_slot_in by done.
  destruct (decide (shape c = shape (select_slot t idx))) as [Hs|Hs].
  - rewrite bool_decide_true by done. cbn [negb]. rewrite insert_app_r_alt, Nat.sub_diag by done.
    cbn [insert list_insert].
    destruct (IH (pre ++ [store_slot t idx c]) ts
      (set_cache (pre ++ store_slot t idx c :: ts) (pool_temporal p) p)) as [IH1 IH2];
      [by simpl; rewrite <- app_assoc|by injection Hlen|done|].
    rewrite length_app, Nat.add_1_r in IH1, IH2. split.
    + intros Hf. rewrite IH1 by (by inversion Hf). simpl. by rewrite <- app_assoc.
    + intros Hn. apply IH2. intros Hf. apply Hn. by constructor.
  - rewrite bool_decide_false by done. split; [intros Hf; by inversion Hf|]. simpl. eauto.
Qed.

Lemma inject_temporal_run v idx p :
  0 <= idx < num_slots (pool_temporal p) ->
  (fits_slot idx v (pool_temporal p) -> inject_temporal v idx p =
     (Ok tt, set_cache (pool_conv p) (store_slot (pool_temporal p) idx v) p)) /\
  (~ fits_slot idx v (pool_temporal p) -> exists e, (inject_temporal v idx p).1 = Raise e).
Proof.
  intros Hi. unfold inject_temporal, fits_slot. rewrite index_slot_in by done.
  split; intros Hs; [by rewrite bool_decide_true|]. rewrite bool_decide_false by done. simpl. eauto.
Qed.

(** When [inject_state_to_pool] accepts a state. *)
Definition injectable (conv : list T) (temporal : T) (idx : Z) p : Prop :=
  1 <= idx <= pool_size p /\
  is_valid (validate_state_tensors conv temporal None false) = true /\
  Forall2 (fits_slot idx) conv (pool_conv p) /\ fits_slot idx temporal (pool_temporal p).

#[global] Instance injectable_dec conv temporal idx p : Decision (injectable conv temporal idx p).
Proof. unfold injectable. apply _. Defined.

Definition injected (conv : list T) (temporal : T) (idx : Z) p : MambaPool T :=
  set_cache (zip_with (fun c t => store_slot t idx c) conv (pool_conv p))
    (store_slot (pool_temporal p) idx temporal) p.

Lemma wf_in_range p idx :
  pool_wf p -> 1 <= idx <= pool_size p ->
  Forall (fun t => 0 <= idx < num_slots t) (pool_conv p) /\ 0 <= idx < num_slots (pool_temporal p).
Proof.
  intros [Hc Ht] Hi. split; [|lia]. eapply Forall_impl; [exact Hc|]. simpl. intros; lia.
Qed.

Lemma inject_ok conv temporal idx p :
  pool_wf p -> injectable conv temporal idx p ->
  inject_state_to_pool conv temporal idx p = (Ok tt, injected conv temporal idx p).
Proof.
  intros Hw (Hi & Hv & Hc & Ht). destruct (wf_in_range p idx Hw Hi) as [R1 R2].
  unfold inject_state_to_pool. rewrite !bool_decide_false by lia. simpl.
  rewrite bool_decide_true by (unfold len; by rewrite (Forall2_length _ _ _ Hc)).
  rewrite Hv. simpl.
  destruct (inject_conv_run conv idx [] (pool_conv p) p) as [Hrun _];
    [done|by eapply Forall2_length|done|].
  rewrite (bind_ok _ _ _ _ _ (Hrun Hc)). by apply inject_temporal_run.
Qed.

Lemma inject_not_ok conv temporal idx p :
  pool_wf p -> ~ injectable conv temporal idx p ->
  exists e, (inject_state_to_pool conv temporal idx p).1 = Raise e.
Proof.
  intros Hw Hn. unfold inject_state_to_pool.
  destruct (decide (1 <= idx <= pool_size p)) as [Hi|Hi].
  2:{ assert (bool_decide (idx < 1) || bool_decide (pool_size p < idx) = true) as ->
        by (apply orb_true_iff; rewrite !bool_decide_eq_true; lia). simpl. eauto. }
  rewrite !bool_decide_false by lia. simpl.
  destruct (bool_decide (len conv = len (pool_conv p))) eqn:Hl; simpl; [|by eauto].
  apply bool_decide_eq_true in Hl. unfold len in Hl.
  destruct (is_valid _) eqn:Hv; simpl; [|by eauto].
  destruct (wf_in_range p idx Hw Hi) as [R1 R2].
  destruct (inject_conv_run conv idx [] (pool_conv p) p) as [Hok Hbad]; [done|lia|done|].
  simpl in Hok, Hbad. destruct (inject_conv 0 conv idx p) as [[[]|e] p1] eqn:E.
  2:{ rewrite (bind_raise _ _ _ _ _ E). simpl. eauto. }
  rewrite (bind_ok _ _ _ _ _ E).
  assert (Forall2 (fits_slot idx) conv (pool_conv p)) as Hc.
  { destruct (decide (Forall2 (fits_slot idx) conv (pool_conv p))) as [?|Hf]; [done|].
    destruct (Hbad Hf) as [e He]. done. }
  injection (Hok Hc) as ->.
  apply inject_temporal_run; [done|]. simpl. intros Hf. apply Hn. destruct Hi. by split_and!.
Qed.

Lemma inject_frame conv temporal idx p :
  pool_wf p -> only_slot idx p (inject_state_to_pool conv temporal idx p).2.
Proof.
  intros Hw. unfold inject_state_to_pool.
  destruct (_ || _) eqn:Hi; [done|]. destruct (negb _); [done|]. destruct (negb _); [done|].
  apply orb_false_iff in Hi as [Hi1 Hi2]. apply bool_decide_eq_false in Hi1, Hi2.
  pose proof (inject_conv_frame 0 conv idx p ltac:(lia)) as Hc.
  destruct (inject_conv 0 conv idx p) as [[[]|e] p1] eqn:E.
  - rewrite (bind_ok _ _ _ _ _ E). etrans; [exact Hc|]. apply inject_temporal_frame. lia.
  - by rewrite (bind_raise _ _ _ _ _ E).
Qed.

Lemma map_res_ok {A B} (f : A -> res B) l ys :
  Forall2 (fun x y => f x = Ok y) l ys -> map_res f l = Ok ys.
Proof. induction 1 as [|x y l ys Hx _ IH]; simpl; [done|]. by rewrite Hx, IH. Qed.

(** The tensors have the element types of the pool. *)
Definition same_dtypes (conv : list T) (temporal : T) p : Prop :=
  Forall2 (fun c t => tensor_dtype c = tensor_dtype t) conv (pool_conv p) /\
  tensor_dtype temporal = tensor_dtype (pool_temporal p).

Lemma extract_injected conv temporal idx p :
  pool_wf p -> injectable conv temporal idx p -> same_dtypes conv temporal p ->
  extract_state_from_pool (injected conv temporal idx p) idx = Ok (conv, temporal).
Proof.
  intros Hw (Hi & Hv & Hc & Ht) [Hd1 Hd2]. destruct (wf_in_range p idx Hw Hi) as [R1 R2].
  unfold extract_state_from_pool. simpl. rewrite (map_res_ok _ _ conv).
  - rewrite index_slot_in by (by rewrite slots_store).
    rewrite select_store_eq by done. by rewrite Hv.
  - clear Hv Ht Hd2 R2. revert Hc Hd1 R1. generalize (pool_conv p). intros ts Hc.
    induction Hc as [|c t conv ts Hct _ IH]; simpl; intros Hd R; [constructor|].
    inversion Hd; inversion R; subst. constructor; [|by apply IH].
    rewrite index_slot_in by (by rewrite slots_store). by rewrite select_store_eq.
Qed.

Lemma map_res_inv {A B} (f : A -> res B) l ys :
  map_res f l = Ok ys -> Forall2 (fun x y => f x = Ok y) l ys.
Proof.
  revert ys. induction l as [|x l IH]; intros ys; simpl; [intros [= <-]; constructor|].
  destruct (f x) as [y|] eqn:E; [|done]. destruct (map_res f l); [|done]. intros [= <-].
  constructor; auto.
Qed.

(** What is extracted is the content of the slot, and it is valid. *)
Lemma extract_inv p idx conv temporal :
  pool_wf p -> 1 <= idx <= pool_size p -> extract_state_from_pool p idx = Ok (conv, temporal) ->
  conv = (fun t => select_slot t idx) <$> pool_conv p /\
  temporal = select_slot (pool_temporal p) idx /\
  is_valid (validate_state_tensors conv temporal None false) = true.
Proof.
  intros Hw Hi. destruct (wf_in_range p idx Hw Hi) as [R1 R2]. unfold extract_state_from_pool.
  destruct (map_res _ _) as [c|] eqn:Ec; [|done]. rewrite index_slot_in by done.
  destruct (is_valid _) eqn:Hv; simpl; [|done]. intros [= <- <-]. split_and!; [|done..].
  apply map_res_inv in Ec. clear Hv. revert R1.
  induction Ec as [|t c' l ys Ht _ IH]; intros R1; [done|]. inversion R1; subst. simpl.
  rewrite index_slot_in in Ht by done. injection Ht as <-. f_equal. auto.
Qed.

Lemma extract_valid p idx conv temporal :
  extract_state_from_pool p idx = Ok (conv, temporal) ->
  length conv = length (pool_conv p) /\
  is_valid (validate_state_tensors conv temporal None false) = true.
Proof.
  unfold extract_state_from_pool. destruct (map_res _ _) as [c|] eqn:Ec; [|done].
  destruct (index_slot _ _); [|done]. destruct (is_valid _) eqn:Hv; simpl; [|done].
  intros [= <- <-]. split; [|done]. apply map_res_inv, Forall2_length in Ec. done.
Qed.

(** Two pools that differ in their data only. *)
Definition same_layout p p' : Prop :=
  let lay t t' := num_slots t' = num_slots t /\ tensor_dtype t' = tensor_dtype t /\
                  forall j, shape (select_slot t' j) = shape (select_slot t j) in
  pool_size p' = pool_size p /\ Forall2 lay (pool_conv p) (pool_conv p') /\
  lay (pool_temporal p) (pool_temporal p').

Lemma same_layout_wf p p' : same_layout p p' -> pool_wf p -> pool_wf p'.
Proof.
  intros (Hs & Hc & Ht & _) [W1 W2]. split; [|congruence]. rewrite Hs. clear Ht W2 Hs.
  induction Hc as [|t t' l l' Hl _ IH]; [done|]. inversion W1; subst.
  constructor; [destruct Hl; congruence|auto].
Qed.

(** A state taken from a pool can be put back into any pool of its layout. *)
Lemma extracted_injectable p p' idx conv temporal :
  pool_wf p -> 1 <= idx <= pool_size p -> extract_state_from_pool p idx = Ok (conv, temporal) ->
  same_layout p p' -> injectable conv temporal idx p' /\ same_dtypes conv temporal p'.
Proof.
  intros Hw Hi He (Hs & Hc & Ht1 & Ht2 & Ht3). destruct (extract_inv _ _ _ _ Hw Hi He) as (-> & -> & Hv).
  unfold injectable, same_dtypes, fits_slot. rewrite Hs, Ht2, Ht3, dtype_select.
  split_and!; try lia; try done; apply Forall2_fmap_l; (eapply Forall2_impl; [exact Hc|]);
    intros t t' (_ & L2 & L3); simpl.
  - by rewrite L3.
  - by rewrite dtype_select, L2.
Qed.

(** [inject_state_to_pool] succeeds exactly when the slot is one of
    1..[size], the state passes validation and every tensor has the shape of
    its slot; whether it succeeds or raises half-way, no other slot, no free
    slot and no size changes; and after a success with the pool's element
    types [extract_state_from_pool] gives back the very state injected. *)
Theorem inject_extract_roundtrip conv temporal idx p :
  pool_wf p ->
  let '(r, p') := inject_state_to_pool conv temporal idx p in
  (r = Ok tt <-> injectable conv temporal idx p) /\
  only_slot idx p p' /\ pool_wf p' /\
  (r = Ok tt -> same_dtypes conv temporal p ->
     extract_state_from_pool p' idx = Ok (conv, temporal)).
Proof.
  intros Hw. pose proof (inject_frame conv temporal idx p Hw) as Hf.
  pose proof (inject_ok conv temporal idx p Hw) as Hok.
  pose proof (inject_not_ok conv temporal idx p Hw) as Hbad.
  destruct (inject_state_to_pool conv temporal idx p) as [r p']. simpl in *.
  assert (r = Ok tt <-> injectable conv temporal idx p) as Hiff.
  { split; [|intros Hx; specialize (Hok Hx); congruence]. intros ->.
    destruct (decide (injectable conv temporal idx p)) as [?|Hx]; [done|].
    by destruct (Hbad Hx) as [e He]. }
  split_and!; [done|done|by eapply only_slot_wf|].
  intros Hr%Hiff Hd. specialize (Hok Hr). simplify_eq. by apply extract_injected.
Qed.
End pool.

(** ** Witnesses *)

Definition demo_pool : MambaPool ctensor :=
  mamba_pool_init 2 [CPool float32 (replicate 3 [[Fin 0; Fin 0]])]
    (CPool float32 (replicate 3 [[Fin 0; Fin 0]])).

Definition demo_state (n : Z) : ctensor := CState float32 [[Fin n; Fin 1]].

Lemma mamba_pool_slots_witness :
  NoDup (free_slots (alloc 1 demo_pool).2 ++ [1]) /\ (alloc 2 (alloc 1 demo_pool).2).1 = None.
Proof.
  split; [|reflexivity].
  refine (proj1 (mamba_pool_slots 2 (pool_conv demo_pool) (pool_temporal demo_pool)
    (alloc 1 demo_pool).2 [1] _)).
  eapply (mreach_step _ _ _ (demo_pool, [])); [apply mreach_init|].
  apply (mstep_alloc 1 demo_pool []). reflexivity.
Defined.

Lemma inject_extract_roundtrip_witness :
  let p' := (inject_state_to_pool [demo_state 5] (demo_state 6) 1 demo_pool).2 in
  extract_state_from_pool p' 1 = Ok ([demo_state 5], demo_state 6).
Proof.
  assert (pool_wf demo_pool) as Hw by (split; [repeat constructor|reflexivity]).
  pose proof (inject_extract_roundtrip [demo_state 5] (demo_state 6) 1 demo_pool Hw) as Hx.
  destruct (inject_state_to_pool _ _ _ _) as [r p'] eqn:E.
  destruct Hx as (_ & _ & _ & Hx). simpl. apply Hx.
  - assert ((inject_state_to_pool [demo_state 5] (demo_state 6) 1 demo_pool).1 = Ok tt) as Hr
      by (vm_compute; reflexivity).
    rewrite E in Hr. exact Hr.
  - split; [|reflexivity]. constructor; [reflexivity|constructor].
Defined.
