(* ===== verification/Tracker.v ===== *)
(** * ConversationTracker (snapshot/conversation_tracker.py)

    The registry of conversations and of the tier each one is in.  The
    tracker's methods hold one lock for their whole body, so each method is
    one atomic step; the clock reading [time.time()] is an argument.  Times
    and durations are integers in an arbitrary unit. *)

From S2P Require Import Prelude PyDict.

(** ** Data *)

Inductive ConversationTier := ACTIVE | WARM | COLD | ARCHIVED.

#[global] Instance tier_eq_dec : EqDecision ConversationTier.
Proof. solve_decision. Defined.

(** [ConversationTier.value] *)
Definition tier_value (t : ConversationTier) : string :=
  match t with
  | ACTIVE => "active"
  | WARM => "warm"
  | COLD => "cold"
  | ARCHIVED => "archived"
  end.

Record ConversationState := mkConv {
  conversation_id : string;
  tier : ConversationTier;
  last_access_time : Z;
  last_transition_time : Z;
  access_count : Z;
  mamba_pool_idx : option Z;
  metadata : option pydict;
}.

Record ConversationTracker := mkTracker {
  active_timeout : Z;
  warm_timeout : Z;
  cold_retention : Z;
  conversations : dict string ConversationState;
  tier_transitions : dict string Z;
}.

(** The metrics dictionary built by [__init__]. *)
Definition initial_transitions : dict string Z :=
  [("active_to_warm", 0); ("warm_to_cold", 0); ("cold_to_archived", 0);
   ("promotions", 0)].

Definition tracker_init (active warm cold : Z) : ConversationTracker :=
  mkTracker active warm cold [] initial_transitions.

(** ** Operations *)

Definition set_conversations (d : dict string ConversationState) (t : ConversationTracker) :=
  mkTracker (active_timeout t) (warm_timeout t) (cold_retention t) d (tier_transitions t).

Definition set_transitions (d : dict string Z) (t : ConversationTracker) :=
  mkTracker (active_timeout t) (warm_timeout t) (cold_retention t) (conversations t) d.

Definition register_conversation (now : Z) (cid : string) (tr : ConversationTier)
    (idx : option Z) (m : option pydict) (t : ConversationTracker) : ConversationTracker :=
  let state' :=
    match dict_get (conversations t) cid with
    | Some st =>
        mkConv (conversation_id st) tr now
          (if decide (tier st = tr) then last_transition_time st else now)
          (access_count st) idx (odict_or m (metadata st))
    | None => mkConv cid tr now now 0 idx m
    end in
  set_conversations (dict_set (conversations t) cid state') t.

Definition mark_accessed (now : Z) (cid : string) (t : ConversationTracker) : ConversationTracker :=
  match dict_get (conversations t) cid with
  | Some st =>
      set_conversations
        (dict_set (conversations t) cid
           (mkConv (conversation_id st) (tier st) now (last_transition_time st)
              (access_count st + 1) (mamba_pool_idx st) (metadata st))) t
  | None => t
  end.

(** The metrics update of [transition_tier]: the counter named after the
    transition when there is one, else [promotions] when the target is ACTIVE. *)
Definition count_transition (old new : ConversationTier) (d : dict string Z) : dict string Z :=
  let key := tier_value old +:+ "_to_" +:+ tier_value new in
  if dict_has d key then dict_alter (fun n => n + 1) d key
  else if decide (new = ACTIVE) then dict_alter (fun n => n + 1) d "promotions"
  else d.

Definition transition_tier (now : Z) (cid : string) (new_tier : ConversationTier)
    (idx : option Z) (t : ConversationTracker) : bool * ConversationTracker :=
  match dict_get (conversations t) cid with
  | None => (false, t)
  | Some st =>
      if decide (tier st = new_tier) then (true, t)
      else
        (true,
         set_transitions (count_transition (tier st) new_tier (tier_transitions t))
           (set_conversations
              (dict_set (conversations t) cid
                 (mkConv (conversation_id st) new_tier (last_access_time st) now
                    (access_count st) idx (metadata st))) t))
  end.

Definition get_state (cid : string) (t : ConversationTracker) : option ConversationState :=
  dict_get (conversations t) cid.

Definition get_conversation_ids (t : ConversationTracker) : list string :=
  dict_keys (filter (fun p => tier p.2 ≠ ARCHIVED) (conversations t)).

Definition get_tier (cid : string) (t : ConversationTracker) : option ConversationTier :=
  tier <$> get_state cid t.

(** The dictionary of lists [check_transitions_needed] returns. *)
Record Transitions := mkTransitions {
  active_to_warm : list string;
  warm_to_cold : list string;
  cold_to_archived : list string;
}.

(** One iteration of the loop over [_conversations.items()]. *)
Definition check_one (now : Z) (t : ConversationTracker)
    (tr : Transitions) (p : string * ConversationState) : Transitions :=
  let '(conv_id, st) := p in
  let time_since_access := now - last_access_time st in
  match tier st with
  | ACTIVE =>
      if bool_decide (time_since_access > active_timeout t) then
        mkTransitions (active_to_warm tr ++ [conv_id]) (warm_to_cold tr) (cold_to_archived tr)
      else tr
  | WARM =>
      if bool_decide (time_since_access > warm_timeout t) then
        mkTransitions (active_to_warm tr) (warm_to_cold tr ++ [conv_id]) (cold_to_archived tr)
      else tr
  | COLD =>
      if bool_decide (time_since_access > cold_retention t) then
        mkTransitions (active_to_warm tr) (warm_to_cold tr) (cold_to_archived tr ++ [conv_id])
      else tr
  | ARCHIVED => tr
  end.

Definition check_transitions_needed (now : Z) (t : ConversationTracker) : Transitions :=
  foldl (check_one now t) (mkTransitions [] [] []) (conversations t).

Definition list_conversations_by_tier (tr : ConversationTier) (t : ConversationTracker) :
    list ConversationState :=
  filter (fun st => tier st = tr) (dict_values (conversations t)).

(** The [tier_counts] dictionary of [get_stats]. *)
Definition tier_counts (t : ConversationTracker) : dict string Z :=
  foldl (fun d st => dict_alter (fun n => n + 1) d (tier_value (tier st)))
    [("active", 0); ("warm", 0); ("cold", 0); ("archived", 0)]
    (dict_values (conversations t)).

Definition remove_conversation (cid : string) (t : ConversationTracker) :
    bool * ConversationTracker :=
  if dict_has (conversations t) cid
  then (true, set_conversations (dict_del (conversations t) cid) t)
  else (false, t).

Definition clear_tracker (t : ConversationTracker) : ConversationTracker :=
  set_conversations [] t.

Record TrackerStats := mkTrackerStats {
  total_conversations : Z;
  stats_tier_counts : dict string Z;
  stats_transitions : dict string Z;
  stats_timeouts : dict string Z;
}.

Definition get_stats (t : ConversationTracker) : TrackerStats :=
  mkTrackerStats (len (conversations t)) (tier_counts t) (tier_transitions t)
    [("active_timeout", active_timeout t); ("warm_timeout", warm_timeout t);
     ("cold_retention", cold_retention t)].

(** ** The tracker as a state machine

    A step is one call of a mutating method at the clock reading [now]; the
    clock never goes backwards along a run. *)

Inductive tracker_step (now : Z) : ConversationTracker -> ConversationTracker -> Prop :=
  | step_register cid tr idx m t :
      tracker_step now t (register_conversation now cid tr idx m t)
  | step_access cid t : tracker_step now t (mark_accessed now cid t)
  | step_transition cid tr idx t : tracker_step now t (transition_tier now cid tr idx t).2
  | step_remove cid t : tracker_step now t (remove_conversation cid t).2
  | step_clear t : tracker_step now t (clear_tracker t).

Inductive tracker_reachable (a w c : Z) : Z -> ConversationTracker -> Prop :=
  | reach_init now : tracker_reachable a w c now (tracker_init a w c)
  | reach_step now now' t t' :
      tracker_reachable a w c now t -> now <= now' -> tracker_step now' t t' ->
      tracker_reachable a w c now' t'.

(** Every record is filed under its own id, its times are not in the future
    and its counters are not negative; the metrics dictionary keeps the four
    counters of [__init__]. *)
Definition conv_ok (now : Z) (cid : string) (st : ConversationState) : Prop :=
  conversation_id st = cid /\ last_access_time st <= now /\
  last_transition_time st <= now /\ 0 <= access_count st.

Definition tracker_inv (now : Z) (t : ConversationTracker) : Prop :=
  dict_wf (conversations t) /\
  (forall cid st, dict_get (conversations t) cid = Some st -> conv_ok now cid st) /\
  dict_keys (tier_transitions t) = dict_keys initial_transitions /\
  (forall k n, dict_get (tier_transitions t) k = Some n -> 0 <= n).

(** ** Lemmas *)

(** Discharge [conv_ok] of an updated record. *)
Ltac conv_solve := unfold conv_ok in *; simpl in *; split_and!; repeat case_match; try done; lia.

Lemma tracker_inv_mono now now' t : tracker_inv now t -> now <= now' -> tracker_inv now' t.
Proof.
  intros (Hwf & Hc & Hk & Hn) Hle. split_and!; [done| |done|done].
  intros cid st Hg. destruct (Hc cid st Hg) as (? & ? & ? & ?). by conv_solve.
Qed.

Lemma tracker_inv_set now t cid st :
  tracker_inv now t -> conv_ok now cid st ->
  tracker_inv now (set_conversations (dict_set (conversations t) cid st) t).
Proof.
  intros (Hwf & Hc & Hk & Hn) Hok. split_and!; simpl; auto with py.
  intros cid' st'. destruct (decide (cid = cid')) as [<-|Hne].
  - rewrite dict_get_set_eq. naive_solver.
  - rewrite dict_get_set_ne by done. apply Hc.
Qed.

Lemma dict_keys_alter (f : Z -> Z) (d : dict string Z) k :
  dict_keys (dict_alter f d k) = dict_keys d.
Proof.
  unfold dict_alter. destruct (dict_get d k) eqn:E; [|done].
  rewrite dict_keys_set. unfold dict_has. by rewrite E.
Qed.

Lemma dict_alter_nonneg (d : dict string Z) k :
  (forall k n, dict_get d k = Some n -> 0 <= n) ->
  forall k' n, dict_get (dict_alter (fun n => n + 1) d k) k' = Some n -> 0 <= n.
Proof.
  intros H k' n. unfold dict_alter. destruct (dict_get d k) as [m|] eqn:E; [|eauto].
  destruct (decide (k = k')) as [->|Hne].
  - rewrite dict_get_set_eq. intros [= <-]. specialize (H _ _ E). lia.
  - rewrite dict_get_set_ne by done. eauto.
Qed.

Lemma tracker_inv_count now t old new :
  tracker_inv now t ->
  tracker_inv now (set_transitions (count_transition old new (tier_transitions t)) t).
Proof.
  intros (Hwf & Hc & Hk & Hn). unfold count_transition.
  split_and!; simpl; [done|done| |]; repeat case_match;
    rewrite ?dict_keys_alter; eauto using dict_alter_nonneg.
Qed.

Lemma tracker_inv_step now t t' :
  tracker_inv now t -> tracker_step now t t' -> tracker_inv now t'.
Proof.
  intros Hinv Hstep. pose proof Hinv as (Hwf & Hc & Hk & Hn).
  destruct Hstep as [cid tr idx m t|cid t|cid tr idx t|cid t|t].
  - apply tracker_inv_set; [done|]. destruct (dict_get (conversations t) cid) eqn:E.
    + destruct (Hc _ _ E) as (? & ? & ? & ?). by conv_solve.
    + by conv_solve.
  - unfold mark_accessed. destruct (dict_get (conversations t) cid) eqn:E; [|done].
    destruct (Hc _ _ E) as (? & ? & ? & ?).
    apply tracker_inv_set; [done|]. by conv_solve.
  - unfold transition_tier. destruct (dict_get (conversations t) cid) eqn:E; [|done].
    destruct (Hc _ _ E) as (? & ? & ? & ?). case_decide; simpl; [done|].
    apply (tracker_inv_count now (set_conversations _ t)), tracker_inv_set; [done|].
    by conv_solve.
  - unfold remove_conversation. destruct (dict_has _ _); simpl; [|done].
    split_and!; simpl; auto with py. intros cid' st'.
    destruct (decide (cid = cid')) as [<-|Hne]; [by rewrite dict_get_del_eq|].
    rewrite dict_get_del_ne by done. apply Hc.
  - split_and!; simpl; auto with py. done.
Qed.

(** Appending the ids of the matching conversations, as a list comprehension. *)
Definition overdue (now timeout : Z) (tr : ConversationTier) (p : string * ConversationState) :
    bool := bool_decide (tier p.2 = tr /\ now - last_access_time p.2 > timeout).

Definition overdue_ids (now timeout : Z) (tr : ConversationTier)
    (d : dict string ConversationState) : list string :=
  dict_keys (filter (fun p => overdue now timeout tr p = true) d).

Lemma overdue_ids_cons now timeout tr p d :
  overdue_ids now timeout tr (p :: d) =
  (if overdue now timeout tr p then [p.1] else []) ++ overdue_ids now timeout tr d.
Proof.
  unfold overdue_ids. rewrite filter_cons. by destruct (overdue _ _ _ p).
Qed.

Lemma check_fold_spec now t tr d :
  foldl (check_one now t) tr d =
  mkTransitions (active_to_warm tr ++ overdue_ids now (active_timeout t) ACTIVE d)
    (warm_to_cold tr ++ overdue_ids now (warm_timeout t) WARM d)
    (cold_to_archived tr ++ overdue_ids now (cold_retention t) COLD d).
Proof.
  revert tr. induction d as [|[cid st] d IH]; intros tr; simpl.
  - rewrite !app_nil_r. by destruct tr.
  - rewrite IH, !overdue_ids_cons. unfold overdue, check_one. simpl.
    destruct (tier st) eqn:Et; simpl;
      repeat case_bool_decide; destruct_and?; simplify_eq/=; rewrite <- ?app_assoc;
      try done; naive_solver.
Qed.

Lemma overdue_ids_elem now timeout tr d cid :
  dict_wf d ->
  cid ∈ overdue_ids now timeout tr d <->
  exists st, dict_get d cid = Some st /\ tier st = tr /\ now - last_access_time st > timeout.
Proof.
  intros Hwf. unfold overdue_ids, dict_keys. rewrite list_elem_of_fmap. split.
  - intros ([k st] & -> & [Ho Hin]%list_elem_of_filter).
    apply bool_decide_eq_true in Ho as [??]. exists st. eauto using dict_elem_get.
  - intros (st & Hg & ? & ?). exists (cid, st). split; [done|].
    apply list_elem_of_filter. split; [by apply bool_decide_eq_true|by apply dict_get_elem].
Qed.

Lemma overdue_ids_NoDup now timeout tr d : dict_wf d -> NoDup (overdue_ids now timeout tr d).
Proof.
  intros Hwf. by apply dict_wf_filter.
Qed.

Lemma reachable_tracker_inv a w c now t : tracker_reachable a w c now t -> tracker_inv now t.
Proof.
  induction 1 as [now|now now' t t' _ IH Hle Hstep].
  - split_and!; simpl; [apply dict_wf_nil|done|done|].
    intros k n. repeat case_decide; intros; simplify_eq; done.
  - eauto using tracker_inv_step, tracker_inv_mono.
Qed.

(** The counter [transition_tier] bumps for a move from [old] to [new]. *)
Definition counter_of (old new : ConversationTier) : option string :=
  match old, new with
  | ACTIVE, WARM => Some "active_to_warm"
  | WARM, COLD => Some "warm_to_cold"
  | COLD, ARCHIVED => Some "cold_to_archived"
  | _, ACTIVE => Some "promotions"
  | _, _ => None
  end.

Lemma dict_has_keys {V} (d : dict string V) k : dict_has d k = bool_decide (k ∈ dict_keys d).
Proof.
  case_bool_decide as Hin; [by apply dict_has_true|].
  apply not_true_is_false. by rewrite dict_has_true.
Qed.

Lemma dict_get_alter {V} (f : V -> V) (d : dict string V) k k' :
  dict_get (dict_alter f d k) k' =
  (fun v => if decide (k = k') then f v else v) <$> dict_get d k'.
Proof.
  unfold dict_alter. destruct (dict_get d k) as [v|] eqn:E; destruct (decide (k = k')) as [<-|Hne].
  - by rewrite dict_get_set_eq, E.
  - rewrite dict_get_set_ne by done. by destruct (dict_get d k').
  - by rewrite E.
  - by destruct (dict_get d k').
Qed.

Lemma count_transition_get old new d key :
  dict_keys d = dict_keys initial_transitions ->
  old ≠ new ->
  dict_get (count_transition old new d) key =
  (fun n => if decide (counter_of old new = Some key) then n + 1 else n) <$> dict_get d key.
Proof.
  intros Hk Hne. unfold count_transition. rewrite dict_has_keys, Hk.
  destruct old, new; try done; simpl;
    rewrite ?dict_get_alter; destruct (dict_get d key) as [n|]; try done; simpl;
    f_equal; repeat case_decide; simplify_eq; done.
Qed.

(** The number of conversations of a list that are in a tier. *)
Definition count_tier (tr : ConversationTier) (l : list ConversationState) : Z :=
  len (filter (fun st => tier st = tr) l).

Lemma count_tier_cons tr st l :
  count_tier tr (st :: l) = (if decide (tier st = tr) then 1 else 0) + count_tier tr l.
Proof. unfold count_tier, len. rewrite filter_cons. case_decide; simpl; lia. Qed.

Lemma tier_counts_fold l a w c z :
  foldl (fun d st => dict_alter (fun n => n + 1) d (tier_value (tier st)))
    [("active", a); ("warm", w); ("cold", c); ("archived", z)] l =
  [("active", a + count_tier ACTIVE l); ("warm", w + count_tier WARM l);
   ("cold", c + count_tier COLD l); ("archived", z + count_tier ARCHIVED l)].
Proof.
  revert a w c z. induction l as [|st l IH]; intros a w c z; cbn [foldl].
  - by rewrite !Z.add_0_r.
  - rewrite !count_tier_cons. destruct (tier st);
      (etransitivity;
       [first [exact (IH (a + 1) w c z) | exact (IH a (w + 1) c z)
              | exact (IH a w (c + 1) z) | exact (IH a w c (z + 1))]
       | simpl; by rewrite ?Z.add_0_l, ?Z.add_assoc]).
Qed.

Lemma tier_counts_closed t :
  tier_counts t =
  [("active", len (list_conversations_by_tier ACTIVE t));
   ("warm", len (list_conversations_by_tier WARM t));
   ("cold", len (list_conversations_by_tier COLD t));
   ("archived", len (list_conversations_by_tier ARCHIVED t))].
Proof. unfold tier_counts. by rewrite tier_counts_fold, !Z.add_0_l. Qed.

Lemma count_tiers_total t :
  len (list_conversations_by_tier ACTIVE t) + len (list_conversations_by_tier WARM t) +
  len (list_conversations_by_tier COLD t) + len (list_conversations_by_tier ARCHIVED t) =
  len (conversations t).
Proof.
  change (count_tier ACTIVE (dict_values (conversations t)) +
    count_tier WARM (dict_values (conversations t)) +
    count_tier COLD (dict_values (conversations t)) +
    count_tier ARCHIVED (dict_values (conversations t)) = len (conversations t)).
  induction (conversations t) as [|[k st] d IH]; [done|].
  cbn [dict_values fmap list_fmap snd]. rewrite !count_tier_cons.
  unfold len in *. simpl length. unfold dict_values in IH.
  destruct (tier st); simpl; lia.
Qed.

(** ** Properties *)

Definition tracker_example : ConversationTracker :=
  (transition_tier 9 "b" COLD None
     (mark_accessed 7 "a"
        (register_conversation 5 "b" WARM None None
           (register_conversation 3 "a" ACTIVE (Some 2) None (tracker_init 10 20 30))))).2.

Lemma tracker_example_reachable : tracker_reachable 10 20 30 9 tracker_example.
Proof.
  eapply (reach_step _ _ _ 7); [|lia|apply step_transition].
  eapply (reach_step _ _ _ 5); [|lia|apply step_access].
  eapply (reach_step _ _ _ 3); [|lia|apply step_register].
  eapply (reach_step _ _ _ 3); [apply reach_init|lia|apply step_register].
Qed.

(** [check_transitions_needed] returns, without repetition and each in at most one list, exactly
    the conversations that have been idle for strictly longer than the timeout
    of the tier they are in: ACTIVE for [active_timeout], WARM for
    [warm_timeout], COLD for [cold_retention]; an ARCHIVED one is never listed. *)
Theorem check_transitions_needed_spec a w c clock now t :
  tracker_reachable a w c clock t ->
  let tr := check_transitions_needed now t in
  let idle tier0 timeout cid := exists st, get_state cid t = Some st /\ tier st = tier0 /\
    now - last_access_time st > timeout in
  (forall cid, cid ∈ active_to_warm tr <-> idle ACTIVE (active_timeout t) cid) /\
  (forall cid, cid ∈ warm_to_cold tr <-> idle WARM (warm_timeout t) cid) /\
  (forall cid, cid ∈ cold_to_archived tr <-> idle COLD (cold_retention t) cid) /\
  NoDup (active_to_warm tr ++ warm_to_cold tr ++ cold_to_archived tr).
Proof.
  intros Hr%reachable_tracker_inv. destruct Hr as [Hwf _]. cbv zeta.
  unfold check_transitions_needed. rewrite check_fold_spec. simpl.
  split_and!; try (intros cid; by apply overdue_ids_elem).
  assert (forall tr1 tr2 n1 n2 cid, tr1 ≠ tr2 ->
    cid ∈ overdue_ids now n1 tr1 (conversations t) ->
    cid ∉ overdue_ids now n2 tr2 (conversations t)) as Hdisj.
  { intros tr1 tr2 n1 n2 cid Hne. rewrite !overdue_ids_elem by done. naive_solver congruence. }
  apply NoDup_app. split; [by apply overdue_ids_NoDup|]. split.
  - intros cid Hin. rewrite not_elem_of_app. split; by eapply Hdisj; [|done].
  - apply NoDup_app. split; [by apply overdue_ids_NoDup|].
    split; [|by apply overdue_ids_NoDup]. intros cid Hin. by eapply Hdisj; [|done].
Qed.

Lemma check_transitions_needed_spec_witness :
  check_transitions_needed 40 tracker_example =
    mkTransitions ["a"] [] ["b"] /\
  NoDup (active_to_warm (check_transitions_needed 40 tracker_example) ++
         warm_to_cold (check_transitions_needed 40 tracker_example) ++
         cold_to_archived (check_transitions_needed 40 tracker_example)).
Proof.
  split; [reflexivity|].
  apply (check_transitions_needed_spec 10 20 30 9 40 tracker_example tracker_example_reachable).
Defined.

(** [transition_tier] returns [False] and changes nothing for an unknown
    conversation, returns [True] and changes nothing when the conversation is already in the
    target tier, and otherwise moves exactly that conversation: its tier, its
    transition time and its pool index are replaced, its access time is kept,
    the other conversations are untouched, and of the metrics only the counter
    of this transition moves, by one: the demotion counter for
    ACTIVE to WARM, WARM to COLD and COLD to ARCHIVED, [promotions] for a move
    to ACTIVE, and none for the remaining transitions. *)
Theorem transition_tier_spec a w c clock now cid new idx t :
  tracker_reachable a w c clock t ->
  let '(ok, t') := transition_tier now cid new idx t in
  match get_state cid t with
  | None => ok = false /\ t' = t
  | Some st =>
      ok = true /\
      if decide (tier st = new) then t' = t
      else
        get_state cid t' =
          Some (mkConv cid new (last_access_time st) now (access_count st) idx (metadata st)) /\
        (forall cid', cid' ≠ cid -> get_state cid' t' = get_state cid' t) /\
        forall key, dict_get (tier_transitions t') key =
          (fun n => if decide (counter_of (tier st) new = Some key) then n + 1 else n)
            <$> dict_get (tier_transitions t) key
  end.
Proof.
  intros Hr%reachable_tracker_inv. destruct Hr as (_ & Hc & Hk & _).
  unfold transition_tier, get_state.
  destruct (dict_get (conversations t) cid) as [st|] eqn:E; [|done].
  destruct (decide (tier st = new)) as [|Hne]; [done|]. simpl. split; [done|]. split_and!.
  - rewrite dict_get_set_eq. by destruct (Hc _ _ E) as [-> _].
  - intros cid' Hne'. by apply dict_get_set_ne.
  - intros key. by apply count_transition_get.
Qed.

Lemma transition_tier_spec_witness :
  exists t', transition_tier 12 "a" WARM None tracker_example = (true, t') /\
    dict_get (tier_transitions t') "active_to_warm" = Some 1.
Proof.
  eexists. split; [reflexivity|].
  pose proof (transition_tier_spec 10 20 30 9 12 "a" WARM None tracker_example
    tracker_example_reachable) as H.
  destruct H as (_ & _ & _ & H). exact (H "active_to_warm").
Defined.

(** The [tier_counts] of [get_stats] count, for each of the four tiers, the
    conversations [list_conversations_by_tier] lists for it, and the four
    counts add up to [total_conversations]. *)
Theorem get_stats_counts t :
  (forall tr, dict_get (stats_tier_counts (get_stats t)) (tier_value tr) =
     Some (len (list_conversations_by_tier tr t))) /\
  sumZ id (dict_values (stats_tier_counts (get_stats t))) = total_conversations (get_stats t).
Proof.
  unfold get_stats; simpl. rewrite tier_counts_closed. split; [by intros []|].
  simpl. rewrite <- (count_tiers_total t). unfold id. lia.
Qed.
