(* ===== verification/HostPool.v ===== *)
(** * MambaHostPool (snapshot/mamba_host_pool.py)

    The host-memory pool of the WARM tier: an [OrderedDict] of entries in
    least-recently-used order, bounded in the number of conversations and in
    bytes.  Every public method runs under one lock, so it is one atomic step.
    The byte limit is the integer [int(max_memory_gb * 1024**3)] that
    [__init__] computes from its float argument. *)

From Stdlib Require Import QArith.
From S2P Require Import Prelude PyDict Torch.
#[local] Open Scope Z_scope.

Section host_pool.
Context {T : Type} `{Torch T}.

(** ** Data *)

Record HostPoolEntry := mkEntry {
  entry_conversation_id : string;
  conv_states : list T;
  temporal_states : T;
  entry_last_access_time : Z;
  entry_access_count : Z;
  entry_metadata : option pydict;
}.

Definition tensor_bytes (t : T) : Z := element_size t * numel t.

Definition memory_bytes (e : HostPoolEntry) : Z :=
  sumZ tensor_bytes (conv_states e) + tensor_bytes (temporal_states e).

Record MambaHostPool := mkPool {
  max_conversations : Z;
  max_memory_bytes : Z;
  enable_cross_session_refs : bool;
  pool : dict string HostPoolEntry;
  current_memory_bytes : Z;
  hits : Z;
  misses : Z;
  evictions : Z;
}.

Definition host_pool_init (max_conv max_bytes : Z) (refs : bool) : MambaHostPool :=
  mkPool max_conv max_bytes refs [] 0 0 0 0.

(** ** Operations *)

Definition set_pool (d : dict string HostPoolEntry) (mem : Z) (p : MambaHostPool) : MambaHostPool :=
  mkPool (max_conversations p) (max_memory_bytes p) (enable_cross_session_refs p)
    d mem (hits p) (misses p) (evictions p).

Definition add_hit (p : MambaHostPool) : MambaHostPool :=
  mkPool (max_conversations p) (max_memory_bytes p) (enable_cross_session_refs p)
    (pool p) (current_memory_bytes p) (hits p + 1) (misses p) (evictions p).

Definition add_miss (p : MambaHostPool) : MambaHostPool :=
  mkPool (max_conversations p) (max_memory_bytes p) (enable_cross_session_refs p)
    (pool p) (current_memory_bytes p) (hits p) (misses p + 1) (evictions p).

Definition add_eviction (p : MambaHostPool) : MambaHostPool :=
  mkPool (max_conversations p) (max_memory_bytes p) (enable_cross_session_refs p)
    (pool p) (current_memory_bytes p) (hits p) (misses p) (evictions p + 1).

Definition evict_lru (p : MambaHostPool) : bool * MambaHostPool :=
  match dict_popitem_first (pool p) with
  | None => (false, p)
  | Some ((_, entry), rest) =>
      (true, add_eviction (set_pool rest (current_memory_bytes p - memory_bytes entry) p))
  end.

(** The condition of the eviction loop. *)
Definition must_evict (entry_size : Z) (p : MambaHostPool) : bool :=
  bool_decide (len (pool p) >= max_conversations p) ||
  bool_decide (current_memory_bytes p + entry_size > max_memory_bytes p).

(** The eviction loop of [save_state]: the boolean says whether there is room.
    Each iteration removes an entry, so [S (length (pool p))] iterations
    always suffice ([make_room_fuel]). *)
Fixpoint make_room (fuel : nat) (entry_size : Z) (p : MambaHostPool) : bool * MambaHostPool :=
  match fuel with
  | O => (false, p)
  | S fuel' =>
      if must_evict entry_size p then
        let '(evicted, p') := evict_lru p in
        if evicted then make_room fuel' entry_size p' else (false, p')
      else (true, p)
  end.

(** The part of [save_state] after the loop. *)
Definition insert_entry (cid : string) (entry : HostPoolEntry) (p : MambaHostPool) : MambaHostPool :=
  let p1 :=
    match dict_get (pool p) cid with
    | Some old => set_pool (dict_del (pool p) cid) (current_memory_bytes p - memory_bytes old) p
    | None => p
    end in
  set_pool (dict_set (pool p1) cid entry) (current_memory_bytes p1 + memory_bytes entry) p1.

Definition save_state (now : Z) (cid : string) (conv : list T) (temporal : T)
    (metadata : option pydict) (p : MambaHostPool) : bool * MambaHostPool :=
  let entry := mkEntry cid conv temporal now 0 metadata in
  let '(room, p') := make_room (S (length (pool p))) (memory_bytes entry) p in
  if room then (true, insert_entry cid entry p') else (false, p').

Definition loaded : Type := (list T * T * pydict)%type.

Definition get_state (now : Z) (cid : string) (p : MambaHostPool) :
    option loaded * MambaHostPool :=
  match dict_get (pool p) cid with
  | None => (None, add_miss p)
  | Some e =>
      let e' := mkEntry (entry_conversation_id e) (conv_states e) (temporal_states e) now
                  (entry_access_count e + 1) (entry_metadata e) in
      (Some (conv_states e, temporal_states e,
             match odict_or (entry_metadata e) (Some []) with Some d => d | None => [] end),
       add_hit (set_pool (dict_set (dict_del (pool p) cid) cid e') (current_memory_bytes p) p))
  end.

Definition get_state_for_reference (now : Z) (cid target : string) (p : MambaHostPool) :
    option loaded * MambaHostPool :=
  if enable_cross_session_refs p then get_state now target p else (None, p).

Definition has_state (cid : string) (p : MambaHostPool) : bool := dict_has (pool p) cid.

Definition remove_state (cid : string) (p : MambaHostPool) : bool * MambaHostPool :=
  match dict_get (pool p) cid with
  | None => (false, p)
  | Some e =>
      (true, set_pool (dict_del (pool p) cid) (current_memory_bytes p - memory_bytes e) p)
  end.

Definition list_conversations (p : MambaHostPool) : list string := dict_keys (pool p).

Record EntryInfo := mkInfo {
  info_conversation_id : string;
  info_last_access_time : Z;
  info_access_count : Z;
  info_memory_bytes : Z;
  info_metadata : option pydict;
}.

Definition get_conversation_metadata (cid : string) (p : MambaHostPool) : option EntryInfo :=
  e ← dict_get (pool p) cid;
  Some (mkInfo (entry_conversation_id e) (entry_last_access_time e) (entry_access_count e)
          (memory_bytes e) (entry_metadata e)).

(** Ratios are exact rationals. *)
Definition ratio (num den : Z) : Q := (inject_Z num / inject_Z den)%Q.

Definition get_hit_rate (p : MambaHostPool) : Q :=
  let total_accesses := hits p + misses p in
  if bool_decide (total_accesses = 0) then 0%Q else ratio (hits p) total_accesses.

Record PoolStats := mkPoolStats {
  stat_current_conversations : Z;
  stat_max_conversations : Z;
  stat_current_memory_bytes : Z;
  stat_max_memory_bytes : Z;
  stat_memory_utilization : Q;
  stat_hits : Z;
  stat_misses : Z;
  stat_hit_rate : Q;
  stat_evictions : Z;
}.

Definition get_stats (p : MambaHostPool) : PoolStats :=
  mkPoolStats (len (pool p)) (max_conversations p) (current_memory_bytes p) (max_memory_bytes p)
    (if bool_decide (max_memory_bytes p > 0)
     then ratio (current_memory_bytes p) (max_memory_bytes p) else 0%Q)
    (hits p) (misses p) (get_hit_rate p) (evictions p).

Definition clear_pool (p : MambaHostPool) : MambaHostPool := set_pool [] 0 p.

Definition pool_len (p : MambaHostPool) : Z := len (pool p).

(** ** The pool as a state machine *)

Inductive pool_step : MambaHostPool -> MambaHostPool -> Prop :=
  | pstep_save now cid conv temporal m p :
      pool_step p (save_state now cid conv temporal m p).2
  | pstep_get now cid p : pool_step p (get_state now cid p).2
  | pstep_ref now cid target p : pool_step p (get_state_for_reference now cid target p).2
  | pstep_remove cid p : pool_step p (remove_state cid p).2
  | pstep_clear p : pool_step p (clear_pool p).

Inductive pool_reachable (mc mb : Z) (refs : bool) : MambaHostPool -> Prop :=
  | preach_init : pool_reachable mc mb refs (host_pool_init mc mb refs)
  | preach_step p p' : pool_reachable mc mb refs p -> pool_step p p' ->
      pool_reachable mc mb refs p'.

(** The bytes the entries of a dictionary occupy. *)
Definition dict_bytes (d : dict string HostPoolEntry) : Z := sumZ memory_bytes (dict_values d).

(** One entry per conversation, filed under its own id; the byte counter is the
    sum of the entries; a pool that holds anything respects both limits. *)
Definition pool_inv (p : MambaHostPool) : Prop :=
  dict_wf (pool p) /\
  (forall cid e, dict_get (pool p) cid = Some e -> entry_conversation_id e = cid) /\
  current_memory_bytes p = dict_bytes (pool p) /\
  (pool p ≠ [] ->
     len (pool p) <= max_conversations p /\ current_memory_bytes p <= max_memory_bytes p) /\
  0 <= hits p /\ 0 <= misses p /\ 0 <= evictions p.
End host_pool.

Arguments HostPoolEntry : clear implicits.
Arguments MambaHostPool : clear implicits.

Section host_pool_facts.
Context {T : Type} `{TorchLaws T}.
Implicit Types (p : MambaHostPool T) (d : dict string (HostPoolEntry T)).

(** ** Lemmas *)

Lemma memory_bytes_nonneg (e : HostPoolEntry T) : 0 <= memory_bytes e.
Proof.
  assert (forall t : T, 0 <= tensor_bytes t) as Ht.
  { intros t. apply Z.mul_nonneg_nonneg; [apply element_size_nonneg|apply numel_nonneg]. }
  unfold memory_bytes. pose proof (Ht (temporal_states e)).
  pose proof (sumZ_nonneg tensor_bytes (conv_states e) ltac:(intros; apply Ht)). lia.
Qed.

Lemma dict_bytes_nonneg d : 0 <= dict_bytes d.
Proof. apply sumZ_nonneg. intros e _. apply memory_bytes_nonneg. Qed.

Lemma dict_bytes_app d1 d2 : dict_bytes (d1 ++ d2) = dict_bytes d1 + dict_bytes d2.
Proof. unfold dict_bytes, dict_values. by rewrite fmap_app, sumZ_app. Qed.

Lemma dict_bytes_cons c e d : dict_bytes ((c, e) :: d) = memory_bytes e + dict_bytes d.
Proof. reflexivity. Qed.

(** There is room for an entry of [size] bytes next to the entries of [d]. *)
Definition fits p (size : Z) d : Prop :=
  len d < max_conversations p /\ dict_bytes d + size <= max_memory_bytes p.

#[global] Instance fits_dec p size d : Decision (fits p size d).
Proof. unfold fits. apply _. Defined.

Lemma must_evict_fits p size :
  current_memory_bytes p = dict_bytes (pool p) ->
  must_evict size p = negb (bool_decide (fits p size (pool p))).
Proof.
  intros Hm. unfold must_evict, fits. rewrite Hm.
  repeat case_bool_decide; simpl; try done; lia.
Qed.

(** Pools that differ only in their entries, byte counter and eviction count. *)
Definition same_config p p' : Prop :=
  max_conversations p' = max_conversations p /\ max_memory_bytes p' = max_memory_bytes p /\
  enable_cross_session_refs p' = enable_cross_session_refs p /\
  hits p' = hits p /\ misses p' = misses p.

(** The loop drops entries from the least recently used end, as few as it
    takes, and fails only when nothing is left to drop. *)
Lemma make_room_spec fuel size p ok p' :
  current_memory_bytes p = dict_bytes (pool p) ->
  (length (pool p) < fuel)%nat ->
  make_room fuel size p = (ok, p') ->
  same_config p p' /\
  current_memory_bytes p' = dict_bytes (pool p') /\
  exists evicted, pool p = evicted ++ pool p' /\
    evictions p' = evictions p + len evicted /\
    (forall k, (k < length evicted)%nat -> ~ fits p size (drop k (pool p))) /\
    if ok then fits p size (pool p') else pool p' = [] /\ ~ fits p size [].
Proof.
  revert p. induction fuel as [|fuel IH]; intros p Hm Hf; [lia|]. simpl.
  rewrite must_evict_fits by done. case_bool_decide as Hfit; simpl.
  { intros [= <- <-]. split; [by split_and!|]. split; [done|]. exists [].
    split_and!; [done|simpl; unfold len; simpl; lia|simpl; lia|done]. }
  unfold evict_lru. destruct (pool p) as [|[c e] rest] eqn:Ep; simpl.
  { intros [= <- <-]. split; [by split_and!|]. rewrite Ep. split; [done|]. exists [].
    split_and!; [done|unfold len; simpl; lia|simpl; lia|done|done]. }
  set (q := add_eviction _). intros Hrun.
  destruct (IH q) as ((Hc1 & Hc2 & Hc3 & Hc4 & Hc5) & Hm' & evicted & Hp & Hev & Hmin & Hok);
    [|by simpl in *; lia|done|].
  { simpl. rewrite Hm. rewrite dict_bytes_cons. lia. }
  split; [by split_and!|]. split; [done|]. exists ((c, e) :: evicted).
  simpl in Hp. rewrite Hp. split_and!; [done| | |].
  - rewrite Hev. simpl. unfold len. simpl. lia.
  - intros [|k] Hk; simpl; [by rewrite <- Hp|].
    specialize (Hmin k). simpl in Hmin. rewrite Hp in Hmin. apply Hmin. simpl in Hk. lia.
  - destruct ok; [exact Hok|]. exact Hok.
Qed.

(** More iterations than entries change nothing: the fuel is enough. *)
Lemma make_room_fuel fuel size p :
  (length (pool p) < fuel)%nat ->
  make_room fuel size p = make_room (S (length (pool p))) size p.
Proof.
  remember (length (pool p)) as n eqn:Hn. revert fuel p Hn.
  induction n as [|n IH]; intros [|fuel] p Hn Hf; try lia; simpl;
    destruct (must_evict size p); try done; unfold evict_lru;
    destruct (pool p) as [|[c e] rest] eqn:Ep; simpl in Hn; try done; try lia; simpl.
  rewrite IH; [|simpl; lia|lia]. done.
Qed.

(** The entries after the insertion: the saved conversation last. *)
Lemma insert_entry_pool cid e p :
  dict_wf (pool p) ->
  pool (insert_entry cid e p) = dict_del (pool p) cid ++ [(cid, e)].
Proof.
  intros Hwf. unfold insert_entry. destruct (dict_get (pool p) cid) eqn:E; simpl.
  - apply dict_set_absent, dict_get_del_eq.
  - rewrite dict_del_absent by done. by apply dict_set_absent.
Qed.

Lemma insert_entry_bytes cid e p :
  dict_wf (pool p) -> current_memory_bytes p = dict_bytes (pool p) ->
  current_memory_bytes (insert_entry cid e p) = dict_bytes (pool (insert_entry cid e p)).
Proof.
  intros Hwf Hm. rewrite insert_entry_pool, dict_bytes_app by done.
  unfold insert_entry. destruct (dict_get (pool p) cid) as [old|] eqn:E; simpl.
  - unfold dict_bytes at 1. rewrite (dict_sum_del _ _ _ old) by done.
    rewrite Hm. unfold dict_bytes. simpl. lia.
  - rewrite dict_del_absent by done. rewrite Hm. unfold dict_bytes. simpl. lia.
Qed.

Lemma insert_entry_config cid e p :
  same_config p (insert_entry cid e p) /\ evictions (insert_entry cid e p) = evictions p.
Proof. unfold insert_entry. by destruct (dict_get (pool p) cid). Qed.

Lemma dict_del_bytes_le d cid : dict_wf d -> dict_bytes (dict_del d cid) <= dict_bytes d.
Proof.
  intros Hwf. destruct (dict_get d cid) as [e|] eqn:E.
  - unfold dict_bytes. rewrite (dict_sum_del _ _ _ e) by done.
    pose proof (memory_bytes_nonneg e). lia.
  - by rewrite dict_del_absent.
Qed.

(** What [save_state] leaves, on both branches. *)
Lemma save_state_cases now cid conv temporal m p ok p' :
  pool_inv p ->
  save_state now cid conv temporal m p = (ok, p') ->
  let entry := mkEntry cid conv temporal now 0 m in
  same_config p p' /\
  exists evicted kept, pool p = evicted ++ kept /\
    evictions p' = evictions p + len evicted /\
    (forall k, (k < length evicted)%nat -> ~ fits p (memory_bytes entry) (drop k (pool p))) /\
    current_memory_bytes p' = dict_bytes (pool p') /\
    if ok then fits p (memory_bytes entry) kept /\ pool p' = dict_del kept cid ++ [(cid, entry)]
    else kept = [] /\ pool p' = [] /\ ~ fits p (memory_bytes entry) [].
Proof.
  intros (Hwf & Hid & Hm & Hlim & Hn) Hrun entry. unfold save_state in Hrun. fold entry in Hrun.
  destruct (make_room _ _ _) as [room q] eqn:Eroom.
  destruct (make_room_spec _ _ _ _ _ Hm (Nat.lt_succ_diag_r _) Eroom)
    as (Hcfg & Hmq & evicted & Hp & Hev & Hmin & Hok).
  assert (dict_wf (pool q)) as Hwfq by (rewrite Hp in Hwf; by eapply dict_wf_app_r).
  destruct room; injection Hrun as <- <-.
  - destruct (insert_entry_config cid entry q) as [(H1 & H2 & H3 & H4 & H5) H6].
    destruct Hcfg as (G1 & G2 & G3 & G4 & G5).
    split; [unfold same_config; split_and!; congruence|].
    exists evicted, (pool q). split_and!; [done|congruence|done| | |].
    + by apply insert_entry_bytes.
    + done.
    + by apply insert_entry_pool.
  - split; [done|]. destruct Hok as [Hnil Hnf].
    exists evicted, (pool q). by split_and!.
Qed.

Lemma pool_inv_init mc mb refs : pool_inv (host_pool_init (T:=T) mc mb refs).
Proof. split_and!; simpl; done || apply dict_wf_nil. Qed.

Lemma pool_inv_save now cid conv temporal m p :
  pool_inv p -> pool_inv (save_state now cid conv temporal m p).2.
Proof.
  intros Hinv. destruct (save_state now cid conv temporal m p) as [ok p'] eqn:E.
  destruct (save_state_cases _ _ _ _ _ _ _ _ Hinv E)
    as ((C1 & C2 & C3 & C4 & C5) & evicted & kept & Hp & Hev & _ & Hm & Hok).
  pose proof (len_nonneg evicted). set (entry := mkEntry cid conv temporal now 0 m) in *.
  destruct Hinv as (Hwf & Hid & Hmem & Hlim & Hh & Hmi & He). simpl.
  assert (dict_wf kept) as Hwfk by (rewrite Hp in Hwf; by eapply dict_wf_app_r).
  unfold pool_inv. destruct ok.
  - destruct Hok as [[Hf1 Hf2] Hpool].
    split_and!; try lia; [| |].
    + rewrite Hpool. apply dict_wf_snoc; [by apply dict_wf_del|apply dict_get_del_eq].
    + rewrite Hpool. intros c e. rewrite dict_get_app. simpl.
      destruct (decide (cid = c)) as [<-|Hne]; [rewrite dict_get_del_eq; naive_solver|].
      rewrite dict_get_del_ne by done. destruct (dict_get kept c) eqn:Ek; [|done].
      intros [= <-]. apply Hid. rewrite Hp, dict_get_app.
      destruct (dict_get evicted c) as [e'|] eqn:Ee; [|done].
      (* a key of [evicted] cannot also be a key of [kept] *)
      exfalso. rewrite Hp in Hwf. unfold dict_wf in Hwf. rewrite dict_keys_app in Hwf.
      apply NoDup_app in Hwf as (_ & Hd & _).
      by apply (Hd c); eapply dict_get_Some_key.
    + intros _. rewrite Hm, C1, C2, Hpool. rewrite dict_bytes_app, len_app.
      pose proof (dict_del_bytes_le kept cid Hwfk). pose proof (dict_length_del_le kept cid).
      unfold dict_bytes at 2. unfold len in *. simpl. lia.
  - destruct Hok as (_ & Hpool & _). rewrite Hpool in *.
    split_and!; try lia; try done. apply dict_wf_nil.
Qed.

Lemma pool_inv_get now cid p : pool_inv p -> pool_inv (get_state now cid p).2.
Proof.
  intros (Hwf & Hid & Hm & Hlim & Hh & Hmi & He). unfold get_state.
  destruct (dict_get (pool p) cid) as [e|] eqn:E; simpl.
  2: { split_and!; simpl; try lia; done. }
  rewrite dict_set_absent by apply dict_get_del_eq.
  split_and!; simpl; try lia.
  - apply dict_wf_snoc; [by apply dict_wf_del|apply dict_get_del_eq].
  - intros c e'. rewrite dict_get_app. simpl. destruct (decide (cid = c)) as [<-|Hne].
    + rewrite dict_get_del_eq. intros [= <-]. simpl. by apply Hid.
    + rewrite dict_get_del_ne by done. destruct (dict_get (pool p) c) eqn:Ec; [|done].
      intros [= <-]. by apply Hid.
  - rewrite dict_bytes_app. unfold dict_bytes at 1. rewrite (dict_sum_del _ _ _ e) by done.
    rewrite Hm. unfold dict_bytes. simpl. unfold memory_bytes. simpl. lia.
  - intros _. destruct Hlim as [Hl1 Hl2]; [by intros Hnil; rewrite Hnil in E|].
    split; [|done]. rewrite len_app. unfold len in *. simpl.
    rewrite (dict_length_del _ _ _ Hwf E) in Hl1. lia.
Qed.

Lemma pool_inv_remove cid p : pool_inv p -> pool_inv (remove_state cid p).2.
Proof.
  intros (Hwf & Hid & Hm & Hlim & Hh & Hmi & He). unfold remove_state.
  destruct (dict_get (pool p) cid) as [e|] eqn:E; simpl; [|by split_and!].
  split_and!; simpl; try lia; [by apply dict_wf_del| | |].
  - intros c e'. destruct (decide (cid = c)) as [<-|Hne].
    + by rewrite dict_get_del_eq.
    + rewrite dict_get_del_ne by done. apply Hid.
  - rewrite Hm. unfold dict_bytes. by rewrite (dict_sum_del _ _ _ e).
  - intros _. destruct Hlim as [Hl1 Hl2]; [by intros Hnil; rewrite Hnil in E|].
    pose proof (memory_bytes_nonneg e). unfold len in *.
    rewrite (dict_length_del _ _ _ Hwf E) in Hl1. lia.
Qed.

Lemma pool_inv_clear p : pool_inv p -> pool_inv (clear_pool p).
Proof.
  intros (Hwf & Hid & Hm & Hlim & Hh & Hmi & He).
  split_and!; simpl; try done; try lia; apply dict_wf_nil.
Qed.

Lemma pool_inv_ref now cid target p :
  pool_inv p -> pool_inv (get_state_for_reference now cid target p).2.
Proof.
  intros Hinv. unfold get_state_for_reference.
  destruct (enable_cross_session_refs p); [by apply pool_inv_get|done].
Qed.

Lemma pool_step_inv p p' : pool_inv p -> pool_step p p' -> pool_inv p'.
Proof.
  intros Hinv Hs. destruct Hs; eauto using pool_inv_save, pool_inv_get, pool_inv_ref,
    pool_inv_remove, pool_inv_clear.
Qed.

Lemma reachable_pool_inv mc mb refs p : pool_reachable mc mb refs p -> pool_inv p.
Proof. induction 1; eauto using pool_inv_init, pool_step_inv. Qed.

(** A hit, and what it does to the pool. *)
Lemma get_state_hit now cid p e :
  dict_get (pool p) cid = Some e ->
  pool (get_state now cid p).2 =
    dict_del (pool p) cid ++
    [(cid, mkEntry (entry_conversation_id e) (conv_states e) (temporal_states e) now
             (entry_access_count e + 1) (entry_metadata e))].
Proof. intros E. unfold get_state. rewrite E. simpl. apply dict_set_absent, dict_get_del_eq. Qed.

(** ** Properties *)

(** In every state the host pool can reach, the byte counter equals the
    sum of the sizes of the stored entries, each entry is filed once and under its own
    conversation id, and a non-empty pool respects both the conversation limit and the memory
    limit. *)
Theorem host_pool_invariant mc mb refs p : pool_reachable mc mb refs p -> pool_inv p.
Proof. apply reachable_pool_inv. Qed.

(** [save_state] on a reachable pool always returns; it returns [True] exactly when
    the limits admit the entry on its own.  On success it has evicted the shortest
    possible run of least recently used entries, counted in [evictions], kept the others in
    order, and made the saved entry the most recently used one.  On failure it has
    evicted every entry of the pool. *)
Theorem save_state_spec mc mb refs now cid conv temporal m p :
  pool_reachable mc mb refs p ->
  let entry := mkEntry cid conv temporal now 0 m in
  let '(ok, p') := save_state now cid conv temporal m p in
  (ok = true <-> 1 <= mc /\ memory_bytes entry <= mb) /\
  exists evicted kept, pool p = evicted ++ kept /\
    evictions p' = evictions p + len evicted /\
    (forall k, (k < length evicted)%nat -> ~ fits p (memory_bytes entry) (drop k (pool p))) /\
    pool p' = if ok then dict_del kept cid ++ [(cid, entry)] else [].
Proof.
  intros Hr entry.
  assert (max_conversations p = mc /\ max_memory_bytes p = mb) as [Hmc Hmb].
  { clear entry. induction Hr as [|p p' Hr [IH1 IH2] Hs]; [done|].
    pose proof (reachable_pool_inv _ _ _ _ Hr) as Hinv.
    destruct Hs as [now' cid' conv' temporal' m' p| | |cid' p|]; simpl.
    - destruct (save_state now' cid' conv' temporal' m' p) as [ok q] eqn:E.
      destruct (save_state_cases _ _ _ _ _ _ _ _ Hinv E) as [(C1 & C2 & _) _]. simpl. split; congruence.
    - unfold get_state. by destruct (dict_get _ _).
    - unfold get_state_for_reference, get_state.
      destruct (enable_cross_session_refs p); [|done]. by destruct (dict_get _ _).
    - unfold remove_state. by destruct (dict_get _ _).
    - done. }
  apply reachable_pool_inv in Hr as Hinv.
  destruct (save_state now cid conv temporal m p) as [ok p'] eqn:E.
  destruct (save_state_cases _ _ _ _ _ _ _ _ Hinv E)
    as (_ & evicted & kept & Hp & Hev & Hmin & _ & Hok). fold entry in Hmin, Hok.
  split; [|exists evicted, kept; split_and!; [done|done|done|by destruct ok; destruct_and!]].
  unfold fits in Hok. rewrite Hmc, Hmb in Hok.
  pose proof (dict_bytes_nonneg kept). pose proof (len_nonneg kept).
  destruct ok; [split; [intros _; lia|done]|]. split; [done|]. intros [Hc Hb].
  destruct Hok as (_ & _ & Hn). destruct Hn. unfold len, dict_bytes. simpl. lia.
Qed.

(** A hit returns the stored tensors and metadata unchanged, keeps every other
    entry and their order, makes the conversation the most recently used one, and
    counts one hit and one access; a miss only counts a miss. *)
Theorem get_state_spec now cid p :
  let '(r, p') := get_state now cid p in
  match dict_get (pool p) cid with
  | Some e =>
      r = Some (conv_states e, temporal_states e,
                match entry_metadata e with Some d => d | None => [] end) /\
      list_conversations p' = filter (fun c => c ≠ cid) (list_conversations p) ++ [cid] /\
      (forall c, c ≠ cid -> dict_get (pool p') c = dict_get (pool p) c) /\
      (entry_access_count <$> dict_get (pool p') cid) = Some (entry_access_count e + 1) /\
      hits p' = hits p + 1 /\ misses p' = misses p /\
      current_memory_bytes p' = current_memory_bytes p
  | None => r = None /\ pool p' = pool p /\ hits p' = hits p /\ misses p' = misses p + 1
  end.
Proof.
  unfold get_state. destruct (dict_get (pool p) cid) as [e|] eqn:E; [|done].
  unfold list_conversations. simpl.
  rewrite dict_set_absent by apply dict_get_del_eq.
  split_and!; try done.
  - by destruct (entry_metadata e) as [[|]|].
  - by rewrite dict_keys_app, dict_keys_del.
  - intros c Hne. rewrite dict_get_app. simpl. rewrite dict_get_del_ne by done.
    rewrite decide_False by done. by destruct (dict_get (pool p) c).
  - rewrite dict_get_app, dict_get_del_eq. simpl. by rewrite decide_True.
Qed.
End host_pool_facts.

(** ** Instances *)

Definition ex_state (n : Z) : ctensor := CState float32 [[Fin n; Fin 1]].

Definition pool_example : MambaHostPool ctensor :=
  (save_state 3 "c" [ex_state 3] (ex_state 4) (Some [("k", VInt 1)])
     (save_state 2 "b" [ex_state 2] (ex_state 4) None
        (save_state 1 "a" [ex_state 1] (ex_state 4) None (host_pool_init 2 100 true)).2).2).2.

Lemma pool_example_reachable : pool_reachable 2 100 true pool_example.
Proof.
  eapply preach_step; [|apply pstep_save]. eapply preach_step; [|apply pstep_save].
  eapply preach_step; [|apply pstep_save]. apply preach_init.
Qed.

Lemma host_pool_invariant_witness :
  list_conversations pool_example = ["b"; "c"] /\ pool_inv pool_example.
Proof.
  split; [reflexivity|]. apply (host_pool_invariant 2 100 true), pool_example_reachable.
Defined.

Lemma save_state_spec_witness :
  (save_state 4 "d" [ex_state 5] (ex_state 6) None pool_example).1 = true /\
  list_conversations (save_state 4 "d" [ex_state 5] (ex_state 6) None pool_example).2 = ["c"; "d"] /\
  (true = true <-> 1 <= 2 /\ memory_bytes (mkEntry "d" [ex_state 5] (ex_state 6) 4 0 None) <= 100).
Proof.
  split; [reflexivity|]. split; [reflexivity|].
  exact (proj1 (save_state_spec 2 100 true 4 "d" [ex_state 5] (ex_state 6) None pool_example
    pool_example_reachable)).
Defined.
