(* ===== verification/SnapshotStore.v ===== *)
(** * MambaSnapshotManager (snapshot/mamba_snapshot.py, part 2)

    Snapshots on disk.  The file system below the manager's base directory is
    a set of directories and a map from paths to contents; a path is the list
    of its components below the base directory.  A metadata file holds the
    dictionary that [json.dump] was given and [json.load] returns it; a state
    file holds a safetensors blob, and a write that fails half-way leaves a
    [Partial] file of some size.  Safetensors is a third-party package: the codec
    is the interface [Storage] with the law that loading a saved dictionary
    gives its items back.  An [IOEnv] says which writes, renames, removals,
    [stat] calls and directory creations fail; reads and existence tests do not.
    There are no symbolic links, so [Path.resolve] is the identity. *)

From S2P Require Import Prelude PyDict PyText Torch Metadata.

Class Storage (T : Type) := {
  st_bytes : Type;
  save_file : dict string T -> st_bytes;
  load_file : st_bytes -> option (dict string T);
  blob_size : st_bytes -> Z;
  doc_size : pydict -> Z;
}.

(** [load_file(save_file(d))] has the items of [d], in any order. *)
Class StorageLaws (T : Type) `{Storage T} : Prop := {
  load_save d : dict_wf d -> exists d', load_file (save_file d) = Some d' /\
    length d' = length d /\ forall k, dict_get d' k = dict_get d k;
}.

(** ** The file system *)

Abbreviation path := (list string).

Section store.
Context {T : Type} `{Torch T} `{Storage T}.

Inductive content :=
  | Doc (d : pydict)
  | Blob (b : st_bytes)
  | Partial (size : Z).

Record FS := mkFS { dirs : gset path; files : gmap path content }.

Definition empty_fs : FS := mkFS ∅ ∅.

Inductive fault := NoFault | FaultNoFile | FaultPartial (size : Z).

Record IOEnv := mkIO {
  write_fault : path -> fault;
  rename_fault : path -> bool;
  mkdir_fault : path -> bool;
  unlink_fault : path -> bool;
  stat_fault : path -> bool;
}.

Definition no_faults : IOEnv := mkIO (fun _ => NoFault) (fun _ => false) (fun _ => false) (fun _ => false) (fun _ => false).

Variable (io : IOEnv).
(** [str(self.base_dir)], an absolute path. *)
Variable (base_dir : string).

(** [str(base_dir / p)] *)
Definition path_str (p : path) : string :=
  base_dir +:+ String.concat "" ((fun c => "/" +:+ c) <$> p).

Definition set_files (f : gmap path content) (s : FS) : FS := mkFS (dirs s) f.

(** [p.exists()] *)
Definition exists_path (p : path) : M FS bool :=
  gets (fun s => bool_decide (is_Some (files s !! p)) || bool_decide (p ∈ dirs s)).

(** [p.mkdir(parents=True, exist_ok=True)] for a [p] whose parents exist *)
Definition mkdir (p : path) : M FS unit := fun s =>
  if mkdir_fault io p then (Raise (Exn OSError "mkdir failed"), s)
  else match files s !! p with
       | Some _ => (Raise (Exn OSError "File exists"), s)
       | None => (Ok tt, mkFS ({[p]} ∪ dirs s) (files s))
       end.

(** Opening a file for writing and writing [c]. *)
Definition write_path (p : path) (c : content) : M FS unit := fun s =>
  match write_fault io p with
  | NoFault => (Ok tt, set_files (<[p := c]> (files s)) s)
  | FaultNoFile => (Raise (Exn OSError "write failed"), s)
  | FaultPartial n =>
      (Raise (Exn OSError "write failed"), set_files (<[p := Partial n]> (files s)) s)
  end.

(** [p.rename(q)] *)
Definition rename_path (p q : path) : M FS unit := fun s =>
  if rename_fault io q then (Raise (Exn OSError "rename failed"), s)
  else match files s !! p with
       | Some c => (Ok tt, set_files (<[q := c]> (delete p (files s))) s)
       | None => (Raise (Exn FileNotFoundError "no such file"), s)
       end.

(** [p.unlink()] *)
Definition unlink_path (p : path) : M FS unit := fun s =>
  if unlink_fault io p then (Raise (Exn OSError "unlink failed"), s)
  else match files s !! p with
       | Some _ => (Ok tt, set_files (delete p (files s)) s)
       | None => (Raise (Exn FileNotFoundError "no such file"), s)
       end.

(** [p.stat().st_size] *)
Definition content_size (c : content) : Z :=
  match c with Doc d => doc_size d | Blob b => blob_size b | Partial n => n end.

Definition stat_size (p : path) : M FS Z := fun s =>
  if stat_fault io p then (Raise (Exn OSError "stat failed"), s)
  else match files s !! p with
       | Some c => (Ok (content_size c), s)
       | None => (Raise (Exn FileNotFoundError "no such file"), s)
       end.

Definition unlink_if_exists (p : path) : M FS unit :=
  e ← exists_path p; if (e : bool) then unlink_path p else mret tt.

(** The names of the regular files of a directory, as [iterdir] and [is_file]
    give them; the order is not specified and the callers sort. *)
Definition names_in (dir : path) (s : FS) : list string :=
  omap (fun p : path * content =>
          match last p.1 with
          | Some name => if decide (p.1 = dir ++ [name]) then Some name else None
          | None => None
          end) (map_to_list (files s)).

(** ** Sanitising *)

Definition value_error {A} (msg : string) : res A := Raise (Exn ValueError msg).

Definition sanitize_path_component (component name : string) : res string :=
  if bool_decide (component = "") then value_error (name +:+ " cannot be empty")
  else if negb (match_component component) then
    value_error (name +:+ " contains invalid characters. " +:+
      "Only alphanumeric, underscore, hyphen, and period are allowed. " +:+ "Got: " +:+ component)
  else if contains ".." component || String.prefix "/" component || String.prefix "\" component
  then value_error (name +:+ " contains path traversal sequences. Got: " +:+ component)
  else if bool_decide (255 < String.length component)%nat then
    value_error (name +:+ " exceeds maximum length of 255 characters")
  else Ok component.

Definition get_conversation_dir (conversation_id : string) : M FS path :=
  safe_id ← lift_res (sanitize_path_component conversation_id "conversation_id");
  let conv_dir := ["conversation_" +:+ safe_id] in
  if negb (String.prefix base_dir (path_str conv_dir)) then
    raise ValueError ("conversation_id '" +:+ conversation_id +:+
      "' results in path outside base directory")
  else
    mkdir conv_dir ≫= fun _ => mret conv_dir.

Definition metadata_name (stem : string) : string := stem +:+ "_metadata.json".
Definition state_name (stem : string) : string := stem +:+ "_state.safetensors".

Definition get_snapshot_paths (conversation_id : string) (turn_number : option Z)
    (branch_name : option string) : M FS (path * path) :=
  conv_dir ← get_conversation_dir conversation_id;
  if truthy branch_name then
    let branch := str_or branch_name "" in
    safe_branch ← lift_res (sanitize_path_component branch "branch_name");
    let branch_dir := conv_dir ++ ["branches"] in
    mkdir branch_dir ≫= fun _ =>
    let metadata_path := branch_dir ++ [metadata_name safe_branch] in
    let state_path := branch_dir ++ [state_name safe_branch] in
    if negb (String.prefix (path_str branch_dir) (path_str metadata_path)) then
      raise ValueError ("branch_name '" +:+ branch +:+ "' results in invalid path")
    else mret (metadata_path, state_path)
  else
    match turn_number with
    | Some turn =>
        if bool_decide (turn < 0) then
          raise ValueError ("turn_number must be non-negative, got " +:+ pretty turn)
        else
          mret (conv_dir ++ [metadata_name ("turn_" +:+ pretty turn)],
                conv_dir ++ [state_name ("turn_" +:+ pretty turn)])
    | None => raise ValueError "Must specify either turn_number or branch_name"
    end.

(** [p.with_suffix(suf)] *)
Definition path_with_suffix (p : path) (suf : string) : path :=
  match last p with
  | Some name => take (length p - 1) p ++ [with_suffix name suf]
  | None => p
  end.

(** ** Saving *)

(** [f"conv_layer_{i}"] *)
Definition layer_key (i : Z) : string := "conv_layer_" +:+ pretty i.

(** The loop that adds the conv states to [state_dict]. *)
Fixpoint add_layers (i : Z) (l : list T) (d : dict string T) : dict string T :=
  match l with
  | [] => d
  | t :: l' => add_layers (i + 1) l' (dict_set d (layer_key i) t)
  end.

Definition build_state_dict (conv_states : list T) (temporal_states : T) : dict string T :=
  add_layers 0 conv_states (dict_set [] "temporal" temporal_states).

(** [metadata.to_json(p)] *)
Definition to_json (m : MambaSnapshotMetadata) (p : path) : M FS unit :=
  write_path p (Doc (to_dict m)).

Definition save_snapshot (conv_states : list T) (temporal_states : T)
    (m : MambaSnapshotMetadata) : M FS (path * path) :=
  if bool_decide (len conv_states = 0) then raise ValueError "conv_states must not be empty"
  else
  let result := validate_state_tensors conv_states temporal_states (Some m) false in
  if negb (is_valid result) then
    raise ValueError
      ("State validation failed before save (conversation=" +:+ md_conversation_id m +:+
       ", turn=" +:+ fstr_opt pretty (md_turn_number m) +:+ "): " +:+ join "; " (errors result))
  else
  '(metadata_path, state_path) ←
    get_snapshot_paths (md_conversation_id m) (md_turn_number m) (md_branch_name m);
  let state_dict := build_state_dict conv_states temporal_states in
  let temp_state_path := path_with_suffix state_path ".safetensors.tmp" in
  try_except
    (write_path temp_state_path (Blob (save_file state_dict)) ≫= fun _ =>
     rename_path temp_state_path state_path ≫= fun _ =>
     stat_size state_path ≫= fun _ => mret tt)
    (fun e =>
       unlink_if_exists temp_state_path ≫= fun _ =>
       raise OSError ("Failed to save state: " +:+ exn_msg e)) ≫= fun _ =>
  let temp_metadata_path := path_with_suffix metadata_path ".json.tmp" in
  try_except
    (to_json m temp_metadata_path ≫= fun _ =>
     rename_path temp_metadata_path metadata_path)
    (fun e =>
       unlink_if_exists state_path ≫= fun _ =>
       raise OSError ("Failed to save metadata: " +:+ exn_msg e)) ≫= fun _ =>
  mret (metadata_path, state_path).

(** ** Loading *)

(** [MambaSnapshotMetadata.from_json(p)]: a document that is not JSON raises a
    [ValueError] ([json.JSONDecodeError] or [UnicodeDecodeError]). *)
Definition from_json (p : path) : M FS MambaSnapshotMetadata := fun s =>
  match files s !! p with
  | Some (Doc d) => (from_dict d, s)
  | Some _ => (Raise (Exn ValueError "invalid JSON document"), s)
  | None => (Raise (Exn FileNotFoundError "no such file"), s)
  end.

Definition read_blob (p : path) : M FS (dict string T) := fun s =>
  match files s !! p with
  | Some (Blob b) =>
      match load_file b with
      | Some d => (Ok d, s)
      | None => (Raise (Exn ValueError "invalid safetensors file"), s)
      end
  | Some _ => (Raise (Exn ValueError "invalid safetensors file"), s)
  | None => (Raise (Exn FileNotFoundError "no such file"), s)
  end.

(** The loop [while f"conv_layer_{layer_idx}" in state_dict]; the keys of a
    dictionary are distinct, so [S (length d)] iterations suffice. *)
Fixpoint collect_layers (fuel : nat) (i : Z) (d : dict string T) : list T :=
  match fuel with
  | O => []
  | S fuel' =>
      match dict_get d (layer_key i) with
      | Some t => t :: collect_layers fuel' (i + 1) d
      | None => []
      end
  end.

Definition load_snapshot (conversation_id : string) (turn_number : option Z)
    (branch_name : option string) : M FS (list T * T * MambaSnapshotMetadata) :=
  '(metadata_path, state_path) ← get_snapshot_paths conversation_id turn_number branch_name;
  me ← exists_path metadata_path;
  if negb me then raise FileNotFoundError ("Metadata not found: " +:+ path_str metadata_path)
  else
  se ← exists_path state_path;
  if negb se then raise FileNotFoundError ("State not found: " +:+ path_str state_path)
  else
  metadata ← try_except (from_json metadata_path)
    (fun e => raise ValueError ("Failed to load metadata: " +:+ exn_msg e));
  state_dict ← try_except (read_blob state_path)
    (fun e => raise ValueError ("Failed to load state tensors: " +:+ exn_msg e));
  match dict_get state_dict "temporal" with
  | None => raise ValueError "Snapshot missing 'temporal' state"
  | Some temporal_states =>
      let conv_states := collect_layers (S (length state_dict)) 0 state_dict in
      if bool_decide (len conv_states = 0) then raise ValueError "Snapshot has no conv states"
      else
      let result := validate_state_tensors conv_states temporal_states (Some metadata) false in
      if negb (is_valid result) then
        raise SnapshotValidationError
          ("Loaded snapshot failed validation: conversation=" +:+ conversation_id +:+
           ", turn=" +:+ fstr_opt pretty turn_number +:+ ": " +:+ join "; " (errors result))
      else mret (conv_states, temporal_states, metadata)
  end.

(** ** Listing *)

Definition list_conversations : M FS (list string) := gets (fun s =>
  merge_sort String.le
    (omap (fun p : path =>
             match p with
             | [name] =>
                 if String.prefix "conversation_" name
                 then Some (remove_all "conversation_" name) else None
             | _ => None
             end) (elements (dirs s)))).

(** The turn number [list_snapshots] reads off a file name, if it is one. *)
Definition turn_of_name (name : string) : option Z :=
  if String.prefix "turn_" name && bool_decide (name_suffix name = ".json")
  then py_int (remove_all "_metadata" (remove_all "turn_" (name_stem name)))
  else None.

Definition list_snapshots (conversation_id : string) : M FS (list Z) :=
  conv_dir ← get_conversation_dir conversation_id;
  gets (fun s => merge_sort Z.le (omap turn_of_name (names_in conv_dir s))).

Definition list_branches (conversation_id : string) : M FS (list string) :=
  conv_dir ← get_conversation_dir conversation_id;
  let branch_dir := conv_dir ++ ["branches"] in
  be ← exists_path branch_dir;
  if negb be then mret []
  else gets (fun s =>
    merge_sort String.le
      (omap (fun name =>
               if bool_decide (name_suffix name = ".json")
               then Some (remove_all "_metadata" (name_stem name)) else None)
            (names_in branch_dir s))).

Definition load_metadata (conversation_id : string) (turn_number : option Z)
    (branch_name : option string) : M FS (option MambaSnapshotMetadata) :=
  '(metadata_path, _) ← get_snapshot_paths conversation_id turn_number branch_name;
  me ← exists_path metadata_path;
  if negb me then mret None
  else try_except (Some <$> from_json metadata_path) (fun _ => mret None).

Definition get_latest_snapshot (conversation_id : string) :
    M FS (option (Z * MambaSnapshotMetadata)) :=
  turns ← list_snapshots conversation_id;
  match last turns with
  | None => mret None
  | Some latest_turn =>
      '(metadata_path, _) ← get_snapshot_paths conversation_id (Some latest_turn) None;
      metadata ← from_json metadata_path;
      mret (Some (latest_turn, metadata))
  end.

(** ** Deleting and sizes *)

Definition delete_snapshot (conversation_id : string) (turn_number : option Z)
    (branch_name : option string) : M FS bool :=
  '(metadata_path, state_path) ← get_snapshot_paths conversation_id turn_number branch_name;
  me ← exists_path metadata_path;
  se ← exists_path state_path;
  unlink_if_exists metadata_path ≫= fun _ =>
  unlink_if_exists state_path ≫= fun _ =>
  mret (me || se).

(** [if p.exists(): total_size += p.stat().st_size] *)
Definition size_of (p : path) : M FS Z :=
  e ← exists_path p; if (e : bool) then stat_size p else mret 0.

Definition get_snapshot_size (conversation_id : string) (turn_number : option Z)
    (branch_name : option string) : M FS Z :=
  '(metadata_path, state_path) ← get_snapshot_paths conversation_id turn_number branch_name;
  a ← size_of metadata_path;
  b ← size_of state_path;
  mret (a + b).
End store.

Arguments FS T {_}.
Arguments content T {_}.

(** A codec for the witnesses: a file is the dictionary itself, with an
    eight-byte header. *)
#[global] Instance cstorage : Storage ctensor := {|
  st_bytes := dict string ctensor;
  save_file d := d;
  load_file b := Some b;
  blob_size b := 8 + sumZ (fun kv : string * ctensor => numel kv.2 * element_size kv.2) b;
  doc_size d := len d;
|}.

#[global] Instance cstorage_laws : StorageLaws ctensor.
Proof. split. intros d _. by exists d. Qed.
