(* ===== verification/SnapshotFacts.v ===== *)
(** * What the snapshot manager guarantees

    Lemmas and properties of SnapshotStore.v: which names are accepted, where
    the files of a snapshot are, the save/load round trip and the frame of a
    save, the state left by a failed save, and the listings. *)

From S2P Require Import Prelude PyDict PyText Torch Metadata SnapshotStore.

Section store_facts.
Context {T : Type} `{Torch T} `{Storage T}.
Context (io : IOEnv) (base_dir : string).
Implicit Types (s : FS T) (m : MambaSnapshotMetadata) (loc : path * string).

(** ** Sanitising *)

(** What [_sanitize_path_component] lets through. *)
Definition component_ok (c : string) : bool :=
  negb (bool_decide (c = "")) && match_component c && negb (contains ".." c) &&
  negb (String.prefix "/" c) && negb (String.prefix "\" c) &&
  bool_decide (String.length c <= 255)%nat.

Lemma sanitize_ok c name : component_ok c = true -> sanitize_path_component c name = Ok c.
Proof.
  unfold component_ok, sanitize_path_component. intros Hc.
  repeat (apply andb_prop in Hc as [Hc ?]).
  repeat match goal with Hx : negb _ = true |- _ => apply negb_true_iff in Hx end.
  rewrite Hc.
  repeat match goal with Hx : ?t = _ |- context [?t] => rewrite Hx end. simpl.
  rewrite bool_decide_false; [done|].
  match goal with Hx : bool_decide _ = true |- _ => apply bool_decide_eq_true in Hx end. lia.
Qed.

Lemma sanitize_inv c name c' :
  sanitize_path_component c name = Ok c' -> c' = c /\ component_ok c = true.
Proof.
  unfold sanitize_path_component, component_ok, value_error.
  destruct (bool_decide (c = "")); [done|].
  destruct (match_component c); [|done]. simpl.
  destruct (contains ".." c); [done|].
  destruct (String.prefix "/" c); [done|].
  destruct (String.prefix "\" c); [done|]. simpl.
  case_bool_decide as Hl; [done|]. intros [= <-]. split; [done|]. apply bool_decide_eq_true. lia.
Qed.

(** ** Where a snapshot lives *)

Definition conv_dir_name (cid : string) : string := "conversation_" +:+ cid.

(** The directory and the common stem of the two files of a snapshot. *)
Definition snap_loc (cid : string) (turn : option Z) (branch : option string) :
    option (path * string) :=
  if component_ok cid then
    if truthy branch then
      let b := str_or branch "" in
      if component_ok b then Some ([conv_dir_name cid; "branches"], b) else None
    else
      match turn with
      | Some n => if bool_decide (n < 0) then None
                  else Some ([conv_dir_name cid], "turn_" +:+ pretty n)
      | None => None
      end
  else None.

(** The directories [mkdir] is called on. *)
Definition dir_chain (dir : path) : list path :=
  match dir with
  | [c; b] => [[c]; [c; b]]
  | _ => [dir]
  end.

(** Every one of them can be made: the disk does not fail and no file is in
    the way. *)
Definition dirs_ok (dir : path) s : Prop :=
  Forall (fun d => mkdir_fault io d = false /\ files s !! d = None) (dir_chain dir).

Definition add_dirs (dir : path) s : FS T :=
  mkFS (list_to_set (dir_chain dir) ∪ dirs s) (files s).

Lemma path_str_prefix p q : String.prefix (path_str base_dir p) (path_str base_dir (p ++ q)) = true.
Proof.
  unfold path_str. rewrite fmap_app.
  assert (forall l1 l2, String.concat "" (l1 ++ l2) = String.concat "" l1 +:+ String.concat "" l2)
    as ->.
  { intros l1 l2. induction l1 as [|x l1 IH]; [done|].
    destruct l1 as [|y l1]; [destruct l2; simpl; [by rewrite str_app_nil_r|done]|].
    cbn [app] in *. change (String.concat "" (x :: y :: l1 ++ l2))
      with (x +:+ "" +:+ String.concat "" (y :: l1 ++ l2)). rewrite IH.
    change (String.concat "" (x :: y :: l1)) with (x +:+ "" +:+ String.concat "" (y :: l1)).
    by rewrite !str_app_assoc. }
  rewrite <- str_app_assoc. apply prefix_app.
Qed.

Lemma base_prefix p : String.prefix base_dir (path_str base_dir p) = true.
Proof. apply prefix_app. Qed.

Lemma mkdir_ok d s :
  mkdir_fault io d = false -> files s !! d = None ->
  mkdir io d s = (Ok tt, mkFS ({[d]} ∪ dirs s) (files s)).
Proof. intros H1 H2. unfold mkdir. by rewrite H1, H2. Qed.

Lemma mkdir_inv d s s' :
  mkdir io d s = (Ok tt, s') ->
  mkdir_fault io d = false /\ files s !! d = None /\ s' = mkFS ({[d]} ∪ dirs s) (files s).
Proof.
  unfold mkdir. destruct (mkdir_fault io d); [done|]. destruct (files s !! d); [done|].
  by intros [= <-].
Qed.

Lemma get_conversation_dir_ok cid s :
  component_ok cid = true -> dirs_ok [conv_dir_name cid] s ->
  get_conversation_dir io base_dir cid s =
    (Ok [conv_dir_name cid], add_dirs [conv_dir_name cid] s).
Proof.
  intros Hc Hd. apply Forall_singleton in Hd as [Hf Hn].
  unfold get_conversation_dir. rewrite sanitize_ok by done.
  erewrite bind_ok; [|reflexivity]. rewrite base_prefix. simpl.
  erewrite bind_ok; [|by apply mkdir_ok].
  unfold add_dirs. simpl. by rewrite union_empty_r_L.
Qed.

Lemma get_conversation_dir_inv cid s p s' :
  get_conversation_dir io base_dir cid s = (Ok p, s') ->
  component_ok cid = true /\ dirs_ok [conv_dir_name cid] s /\
  p = [conv_dir_name cid] /\ s' = add_dirs [conv_dir_name cid] s.
Proof.
  unfold get_conversation_dir. intros (safe & s1 & Hs & Hrest)%bind_ok_inv.
  injection Hs as Hs <-. apply sanitize_inv in Hs as [-> Hc]. rewrite base_prefix in Hrest.
  simpl in Hrest. apply bind_ok_inv in Hrest as ([] & s2 & Hm & Hr). injection Hr as <- <-.
  apply mkdir_inv in Hm as (Hf & Hn & ->). split_and!; [done| |done|].
  - by apply Forall_singleton.
  - unfold add_dirs. simpl. by rewrite union_empty_r_L.
Qed.

Definition meta_path (loc : path * string) : path := loc.1 ++ [metadata_name loc.2].
Definition state_path (loc : path * string) : path := loc.1 ++ [state_name loc.2].

Lemma get_snapshot_paths_ok cid turn branch loc s :
  snap_loc cid turn branch = Some loc -> dirs_ok loc.1 s ->
  get_snapshot_paths io base_dir cid turn branch s =
    (Ok (meta_path loc, state_path loc), add_dirs loc.1 s).
Proof.
  unfold snap_loc, get_snapshot_paths. destruct (component_ok cid) eqn:Hc; [|done].
  destruct (truthy branch) eqn:Ht.
  - destruct (component_ok (str_or branch "")) eqn:Hb; [|done]. intros [= <-] Hd.
    simpl in Hd. inversion Hd as [|? ? Hd1 Hd2]; subst. apply Forall_singleton in Hd2 as [Hf Hn].
    erewrite bind_ok; [|apply get_conversation_dir_ok; [done|by apply Forall_singleton]].
    rewrite sanitize_ok by done. erewrite bind_ok; [|reflexivity].
    erewrite bind_ok; [|by apply mkdir_ok]. cbv zeta.
    rewrite path_str_prefix. simpl.
    unfold add_dirs, mret, M_ret. simpl. do 2 f_equal.
    by rewrite !union_empty_r_L, assoc_L, (comm_L (∪) {[_]}) by apply _.
  - destruct turn as [n|]; [|done]. case_bool_decide as Hn; [done|]. intros [= <-] Hd.
    erewrite bind_ok; [|by apply get_conversation_dir_ok]. done.
Qed.

Lemma get_snapshot_paths_inv cid turn branch s pr s' :
  get_snapshot_paths io base_dir cid turn branch s = (Ok pr, s') ->
  exists loc, snap_loc cid turn branch = Some loc /\ dirs_ok loc.1 s.
Proof.
  unfold get_snapshot_paths. intros (p & s1 & Hd & Hrest)%bind_ok_inv.
  apply get_conversation_dir_inv in Hd as (Hc & Hd & -> & ->).
  unfold snap_loc. rewrite Hc. destruct (truthy branch) eqn:Ht.
  - apply bind_ok_inv in Hrest as (safe & s2 & Hs & Hrest). injection Hs as Hs <-.
    apply sanitize_inv in Hs as [-> Hb]. rewrite Hb.
    apply bind_ok_inv in Hrest as ([] & s2 & Hm & Hrest). apply mkdir_inv in Hm as (Hf & Hn & ->).
    eexists. split; [done|]. simpl. constructor; [by inversion Hd|]. by apply Forall_singleton.
  - destruct turn as [n|]; [|done]. case_bool_decide as Hn; [done|]. eauto.
Qed.

(** ** Names of files *)

Fixpoint str_last (s : string) : option ascii :=
  match s with
  | "" => None
  | String c "" => Some c
  | String _ s' => str_last s'
  end.

Lemma str_last_app a c b : str_last (a +:+ String c b) = str_last (String c b).
Proof.
  induction a as [|x a IH]; [done|]. rewrite str_app_cons. rewrite <- IH.
  destruct a; [done|]. by rewrite str_app_cons.
Qed.

Definition state_tmp_name (stem : string) : string := stem +:+ "_state.safetensors.tmp".
Definition meta_tmp_name (stem : string) : string := stem +:+ "_metadata.json.tmp".

Lemma metadata_name_ne_state a b : metadata_name a ≠ state_name b.
Proof.
  intros Heq. apply (f_equal str_last) in Heq.
  unfold metadata_name, state_name in Heq. by rewrite !str_last_app in Heq.
Qed.

Lemma metadata_name_ne_tmp a b :
  metadata_name a ≠ state_tmp_name b /\ metadata_name a ≠ meta_tmp_name b.
Proof.
  split; intros Heq; apply (f_equal str_last) in Heq;
    unfold metadata_name, state_tmp_name, meta_tmp_name in Heq; by rewrite !str_last_app in Heq.
Qed.

Lemma state_name_ne_tmp a b :
  state_name a ≠ state_tmp_name b /\ state_name a ≠ meta_tmp_name b.
Proof.
  split; intros Heq; apply (f_equal str_last) in Heq;
    unfold state_name, state_tmp_name, meta_tmp_name in Heq; by rewrite !str_last_app in Heq.
Qed.

Lemma with_suffix_app a b suf :
  a ≠ "" -> b ≠ "" -> str_all (fun x => negb (bool_decide (x = "."%char))) b = true ->
  with_suffix (a +:+ "." +:+ b) suf = a +:+ suf.
Proof. intros. unfold with_suffix, name_stem. by rewrite name_split_app. Qed.

Lemma app_ne_nil a c b : a +:+ String c b ≠ "".
Proof. by destruct a. Qed.

Lemma path_with_suffix_app dir name suf :
  path_with_suffix (dir ++ [name]) suf = dir ++ [with_suffix name suf].
Proof.
  unfold path_with_suffix. rewrite last_snoc, length_app. simpl.
  replace (length dir + 1 - 1)%nat with (length dir) by lia. by rewrite take_app_length.
Qed.

Lemma state_tmp_path loc :
  path_with_suffix (state_path loc) ".safetensors.tmp" = loc.1 ++ [state_tmp_name loc.2].
Proof.
  unfold state_path, state_name. rewrite path_with_suffix_app. do 2 f_equal.
  change "_state.safetensors" with ("_state" +:+ "." +:+ "safetensors").
  rewrite <- str_app_assoc, with_suffix_app by (done || apply app_ne_nil).
  by rewrite str_app_assoc.
Qed.

Lemma meta_tmp_path loc :
  path_with_suffix (meta_path loc) ".json.tmp" = loc.1 ++ [meta_tmp_name loc.2].
Proof.
  unfold meta_path, metadata_name. rewrite path_with_suffix_app. do 2 f_equal.
  change "_metadata.json" with ("_metadata" +:+ "." +:+ "json").
  rewrite <- str_app_assoc, with_suffix_app by (done || apply app_ne_nil).
  by rewrite str_app_assoc.
Qed.

Lemma snoc_ne (d1 d2 : path) (a b : string) : a ≠ b -> d1 ++ [a] ≠ d2 ++ [b].
Proof. intros Hne [_ Heq]%app_inj_tail. done. Qed.

Definition state_tmp (loc : path * string) : path := loc.1 ++ [state_tmp_name loc.2].
Definition meta_tmp (loc : path * string) : path := loc.1 ++ [meta_tmp_name loc.2].

Lemma loc_paths_ne loc loc' :
  meta_path loc ≠ state_path loc' /\ meta_path loc ≠ state_tmp loc' /\
  meta_path loc ≠ meta_tmp loc' /\ state_path loc ≠ state_tmp loc' /\
  state_path loc ≠ meta_tmp loc'.
Proof.
  destruct (metadata_name_ne_tmp loc.2 loc'.2), (state_name_ne_tmp loc.2 loc'.2).
  split_and!; apply snoc_ne; auto using metadata_name_ne_state.
Qed.

(** The directory of a location: a conversation's, or its branches. *)
Definition loc_wf (loc : path * string) : Prop :=
  exists c, loc.1 = [c] \/ loc.1 = [c; "branches"].

Lemma snap_loc_wf cid turn branch loc : snap_loc cid turn branch = Some loc -> loc_wf loc.
Proof.
  unfold snap_loc, loc_wf. intros Hl. repeat case_match; simplify_eq/=; eauto.
Qed.

Definition loc_files (loc : path * string) : list path :=
  [meta_path loc; state_path loc; state_tmp loc; meta_tmp loc].

Lemma loc_files_shape loc p :
  p ∈ loc_files loc -> exists name, p = loc.1 ++ [name] /\ (8 < String.length name)%nat.
Proof.
  intros Hp. unfold loc_files in Hp.
  repeat (apply elem_of_cons in Hp as [->|Hp]; [eexists; split; [reflexivity|];
    unfold metadata_name, state_name, state_tmp_name, meta_tmp_name;
    rewrite str_length_app; simpl; lia|]).
  by apply elem_of_nil in Hp.
Qed.

(** No file of a snapshot is one of the directories the manager makes. *)
Lemma loc_not_dir loc loc' d p :
  loc_wf loc -> loc_wf loc' -> d ∈ dir_chain loc.1 -> p ∈ loc_files loc' -> d ≠ p.
Proof.
  intros [c Hc] [c' Hc'] Hd (name & -> & Hlen)%loc_files_shape ->.
  destruct Hc as [Hc|Hc], Hc' as [Hc'|Hc']; rewrite Hc in Hd; rewrite Hc' in Hd; simpl in Hd;
    set_unfold in Hd; destruct_or?; simplify_eq/=; lia.
Qed.

Lemma dirs_ok_files (dir : path) s s' :
  files s' = files s -> dirs_ok dir s -> dirs_ok dir s'.
Proof. intros Hf Hd. unfold dirs_ok. by rewrite Hf. Qed.

(** Writing only files of snapshots keeps every directory makeable. *)
Lemma dirs_ok_write loc (loc' : path * string) (f : gmap path (content T)) s (ds : gset path) :
  loc_wf loc -> loc_wf loc' -> dirs_ok loc.1 s ->
  (forall p, p ∉ loc_files loc' -> f !! p = files s !! p) -> dirs_ok loc.1 (mkFS ds f).
Proof.
  intros Hw Hw' Hd Hf. unfold dirs_ok in *. rewrite Forall_forall in *. intros d Hin.
  destruct (Hd d Hin) as [? Hn]. split; [done|]. simpl. rewrite Hf; [done|].
  intros Hp. by apply (loc_not_dir loc loc' d d Hw Hw' Hin Hp).
Qed.

(** ** What a save does *)

(** The files after a successful save. *)
Definition saved_files (loc : path * string) (conv : list T) (temporal : T)
    (m : MambaSnapshotMetadata) (f : gmap path (content T)) : gmap path (content T) :=
  <[meta_path loc := Doc (to_dict m)]>
    (delete (meta_tmp loc)
       (<[state_path loc := Blob (save_file (build_state_dict conv temporal))]>
          (delete (state_tmp loc) f))).

(** The two disk phases of a save, each with its outcome. *)
Definition state_phase_ok (loc : path * string) : bool :=
  match write_fault io (state_tmp loc) with NoFault => true | _ => false end &&
  negb (rename_fault io (state_path loc)) && negb (stat_fault io (state_path loc)).

Definition meta_phase_ok (loc : path * string) : bool :=
  match write_fault io (meta_tmp loc) with NoFault => true | _ => false end &&
  negb (rename_fault io (meta_path loc)).

Lemma unlink_if_exists_run p s :
  p ∉ dirs s -> unlink_fault io p = false ->
  unlink_if_exists io p s = (Ok tt, mkFS (dirs s) (delete p (files s))).
Proof.
  intros Hd Hu. unfold unlink_if_exists, exists_path, unlink_path. run_unfold.
  rewrite (bool_decide_false (p ∈ dirs s)) by done. rewrite orb_false_r, Hu.
  destruct (files s !! p) as [c|] eqn:E.
  - rewrite bool_decide_true by done. by rewrite E.
  - rewrite bool_decide_false by (by intros [? ?]). rewrite delete_id by done. by destruct s.
Qed.

(** Removing a file where that may fail: it is gone, or the removal raises and
    changes nothing. *)
Lemma unlink_if_exists_any p s : p ∉ dirs s ->
  unlink_if_exists io p s = (Ok tt, mkFS (dirs s) (delete p (files s))) \/
  (unlink_fault io p = true /\ exists e, unlink_if_exists io p s = (Raise e, s)).
Proof.
  intros Hd. destruct (unlink_fault io p) eqn:Hu; [|left; by apply unlink_if_exists_run].
  unfold unlink_if_exists, exists_path, unlink_path. run_unfold.
  rewrite (bool_decide_false (p ∈ dirs s)) by done. rewrite orb_false_r, Hu.
  case_bool_decide as Hp; [by right; eauto|left]. rewrite delete_id; [by destruct s|].
  destruct (files s !! p); [by destruct Hp|done].
Qed.

(** A handler that removes a file and raises *)
Lemma cleanup_run p msg s : p ∉ dirs s ->
  exists e f, (unlink_if_exists io p ≫= fun _ => raise OSError msg : M (FS T) unit) s = (Raise e, mkFS (dirs s) f) /\
    (f = delete p (files s) \/ (f = files s /\ unlink_fault io p = true)).
Proof.
  intros Hd. destruct (unlink_if_exists_any p s Hd) as [Hr|(Hu & e & Hr)].
  - rewrite (bind_ok _ _ _ _ _ Hr). eexists _, _. split; [reflexivity|by left].
  - rewrite (bind_raise _ _ _ _ _ Hr). exists e, (files s). split; [by destruct s|by right].
Qed.

(** The phase that writes the tensors: on failure the old state file is still
    there, unless it was the [stat] of the new one that failed. *)
Lemma state_phase_run loc b s :
  state_tmp loc ∉ dirs s ->
  let run := try_except
    (write_path io (state_tmp loc) (Blob b) ≫= fun _ =>
     rename_path io (state_tmp loc) (state_path loc) ≫= fun _ =>
     stat_size io (state_path loc) ≫= fun _ => mret tt)
    (fun e => unlink_if_exists io (state_tmp loc) ≫= fun _ =>
       raise OSError ("Failed to save state: " +:+ exn_msg e)) s in
  if state_phase_ok loc
  then run = (Ok tt, mkFS (dirs s) (<[state_path loc := Blob b]> (delete (state_tmp loc) (files s))))
  else exists e f, run = (Raise e, mkFS (dirs s) f) /\
    (forall p, p ≠ state_tmp loc -> p ≠ state_path loc -> f !! p = files s !! p) /\
    (f !! state_path loc = files s !! state_path loc \/
     (f !! state_path loc = Some (Blob b) /\ stat_fault io (state_path loc) = true)).
Proof.
  intros Hd run. subst run. destruct (loc_paths_ne loc loc) as (N1 & N2 & N3 & N4 & N5).
  unfold state_phase_ok, try_except, write_path, rename_path, stat_size.
  destruct (write_fault io (state_tmp loc)) as [| |n]; run_unfold; simpl.
  - destruct (rename_fault io (state_path loc)); simpl.
    + destruct (cleanup_run (state_tmp loc) ("Failed to save state: " +:+ "rename failed")
        (set_files (<[state_tmp loc := Blob b]> (files s)) s) Hd) as (e & f & Hr & [Hf|[Hf _]]);
        exists e, f; (split; [exact Hr|]); subst f; simpl;
        (split; [intros p H1 H2; by simplify_map_eq|left; by simplify_map_eq]).
    + rewrite lookup_insert_eq. unfold set_files. simpl. rewrite delete_insert_eq.
      destruct (stat_fault io (state_path loc)) eqn:Est; simpl.
      * destruct (cleanup_run (state_tmp loc) ("Failed to save state: " +:+ "stat failed")
          (mkFS (dirs s) (<[state_path loc := Blob b]> (delete (state_tmp loc) (files s)))) Hd) as (e & f & Hr & [Hf|[Hf _]]);
          exists e, f; (split; [exact Hr|]); subst f; simpl;
          (split; [intros p H1 H2; by simplify_map_eq|right; by simplify_map_eq]).
      * by rewrite lookup_insert_eq.
  - destruct (cleanup_run (state_tmp loc) ("Failed to save state: " +:+ "write failed") s Hd) as (e & f & Hr & [Hf|[Hf _]]);
      exists e, f; (split; [exact Hr|]); subst f;
      (split; [intros p H1 H2; by simplify_map_eq|left; by simplify_map_eq]).
  - destruct (cleanup_run (state_tmp loc) ("Failed to save state: " +:+ "write failed")
      (set_files (<[state_tmp loc := Partial n]> (files s)) s) Hd) as (e & f & Hr & [Hf|[Hf _]]);
      exists e, f; (split; [exact Hr|]); subst f; simpl;
      (split; [intros p H1 H2; by simplify_map_eq|left; by simplify_map_eq]).
Qed.

(** The phase that writes the metadata: on failure it removes the state file, if
    that does not fail too. *)
Lemma meta_phase_run loc m s :
  state_path loc ∉ dirs s ->
  let run := try_except
    (to_json io m (meta_tmp loc) ≫= fun _ => rename_path io (meta_tmp loc) (meta_path loc))
    (fun e => unlink_if_exists io (state_path loc) ≫= fun _ =>
       raise OSError ("Failed to save metadata: " +:+ exn_msg e)) s in
  if meta_phase_ok loc
  then run = (Ok tt, mkFS (dirs s) (<[meta_path loc := Doc (to_dict m)]> (delete (meta_tmp loc) (files s))))
  else exists e f, run = (Raise e, mkFS (dirs s) f) /\
    (forall p, p ≠ meta_tmp loc -> p ≠ state_path loc -> f !! p = files s !! p) /\
    (f !! state_path loc = None \/
     (f !! state_path loc = files s !! state_path loc /\ unlink_fault io (state_path loc) = true)).
Proof.
  intros Hd run. subst run. destruct (loc_paths_ne loc loc) as (N1 & N2 & N3 & N4 & N5).
  unfold meta_phase_ok, try_except, to_json, write_path, rename_path.
  assert (forall msg x, let f1 := match x with Some c => <[meta_tmp loc := c]> (files s) | None => files s end in
    exists e f, (unlink_if_exists io (state_path loc) ≫= fun _ => raise OSError msg : M (FS T) unit) (mkFS (dirs s) f1) =
        (Raise e, mkFS (dirs s) f) /\
      (forall p, p ≠ meta_tmp loc -> p ≠ state_path loc -> f !! p = files s !! p) /\
      (f !! state_path loc = None \/
       (f !! state_path loc = files s !! state_path loc /\ unlink_fault io (state_path loc) = true))) as Hfail.
  { intros msg x f1. destruct (cleanup_run (state_path loc) msg (mkFS (dirs s) f1) Hd) as (e & f & Hr & Hf).
    exists e, f. split; [exact Hr|]. subst f1.
    destruct Hf as [->|[-> Hu]]; simpl; destruct x; (split; [intros p H1 H2; by simplify_map_eq|]);
      first [by left; simplify_map_eq|by right; simplify_map_eq]. }
  destruct (write_fault io (meta_tmp loc)) as [| |n]; run_unfold; simpl.
  - destruct (rename_fault io (meta_path loc)); simpl; [apply (Hfail _ (Some _))|].
    rewrite lookup_insert_eq. unfold set_files. simpl. by rewrite delete_insert_eq.
  - destruct s. apply (Hfail _ None).
  - apply (Hfail _ (Some _)).
Qed.

(** ** The shape of the store *)

(** The manager only makes conversation directories and their branch
    directories, and only writes the files of snapshots. *)
Definition store_wf s : Prop :=
  (forall d, d ∈ dirs s -> exists c, d = [c] \/ d = [c; "branches"]) /\
  (forall p, is_Some (files s !! p) ->
     exists cid turn branch loc, snap_loc cid turn branch = Some loc /\ p ∈ loc_files loc).

Lemma store_wf_empty : store_wf empty_fs.
Proof.
  split; [intros d Hd; by apply not_elem_of_empty in Hd|].
  intros p [c Hc]. simpl in Hc. by rewrite lookup_empty in Hc.
Qed.

Lemma loc_files_not_dirs loc p s : store_wf s -> loc_wf loc -> p ∈ loc_files loc -> p ∉ dirs s.
Proof.
  intros [Hd _] Hw Hp Hin. destruct (Hd p Hin) as [c Hc].
  apply (loc_not_dir ([c; "branches"], "") loc p p); try done.
  - exists c. by right.
  - simpl. set_solver.
Qed.

Lemma store_wf_dir d s : store_wf s -> (exists c, d = [c] \/ d = [c; "branches"]) -> files s !! d = None.
Proof.
  intros [_ Hf] [c Hc]. destruct (files s !! d) eqn:E; [|done].
  destruct (Hf d ltac:(by rewrite E)) as (? & ? & ? & loc & Hl%snap_loc_wf & Hp).
  exfalso. apply (loc_not_dir ([c; "branches"], "") loc d d); try done.
  - exists c. by right.
  - simpl. set_solver.
Qed.

Lemma dirs_ok_wf loc s :
  store_wf s -> loc_wf loc -> (forall d, mkdir_fault io d = false) -> dirs_ok loc.1 s.
Proof.
  intros Hs [c Hc] Hm. apply Forall_forall. intros d Hd. split; [apply Hm|].
  apply store_wf_dir; [done|]. exists c. destruct Hc as [Hc|Hc]; rewrite Hc in Hd; set_solver.
Qed.

Lemma store_wf_files f s :
  store_wf s ->
  (forall p, is_Some (f !! p) -> is_Some (files s !! p) \/
     exists cid turn branch loc, snap_loc cid turn branch = Some loc /\ p ∈ loc_files loc) ->
  store_wf (mkFS (dirs s) f).
Proof. intros [Hd Hf] Hnew. split; [done|]. intros p Hp. destruct (Hnew p Hp); eauto. Qed.

Lemma store_wf_add_dirs loc s : store_wf s -> loc_wf loc -> store_wf (add_dirs loc.1 s).
Proof.
  intros [Hd Hf] [c Hc]. split; [|done]. intros d. simpl. rewrite elem_of_union, elem_of_list_to_set.
  intros [Hin|Hin]; [|by apply Hd]. exists c. destruct Hc as [Hc|Hc]; rewrite Hc in Hin; set_solver.
Qed.

(** What a save that raises after its arguments were accepted leaves: files of
    other snapshots and the old metadata as they were; the old state file or
    none, or, where the [stat] of the new state file or its removal failed, the
    new one *)
Record save_failed (loc : path * string) (conv : list T) (temporal : T) (f f' : gmap path (content T)) : Prop := SaveFailed {
  sf_other p : p ∉ loc_files loc -> f' !! p = f !! p;
  sf_meta : f' !! meta_path loc = f !! meta_path loc;
  sf_state : f' !! state_path loc = f !! state_path loc \/ f' !! state_path loc = None \/
    (f' !! state_path loc = Some (Blob (save_file (build_state_dict conv temporal))) /\
     (stat_fault io (state_path loc) = true \/ unlink_fault io (state_path loc) = true))
}.

(** The run of [save_snapshot] once its arguments are accepted. *)
Lemma save_snapshot_run conv temporal m loc s :
  store_wf s -> conv ≠ [] ->
  is_valid (validate_state_tensors conv temporal (Some m) false) = true ->
  snap_loc (md_conversation_id m) (md_turn_number m) (md_branch_name m) = Some loc ->
  dirs_ok loc.1 s ->
  if state_phase_ok loc && meta_phase_ok loc
  then save_snapshot io base_dir conv temporal m s =
    (Ok (meta_path loc, state_path loc), mkFS (dirs (add_dirs loc.1 s)) (saved_files loc conv temporal m (files s)))
  else exists e f', save_snapshot io base_dir conv temporal m s = (Raise e, mkFS (dirs (add_dirs loc.1 s)) f') /\
    save_failed loc conv temporal (files s) f'.
Proof.
  intros Hs Hne Hv Hl Hd. pose proof (snap_loc_wf _ _ _ _ Hl) as Hw.
  pose proof (store_wf_add_dirs loc s Hs Hw) as Hs'. destruct (loc_paths_ne loc loc) as (N1 & N2 & N3 & N4 & N5).
  assert (forall p, p ∈ loc_files loc -> p ∉ dirs (add_dirs loc.1 s)) as Hnd.
  { intros p Hp. by eapply loc_files_not_dirs. }
  assert (forall p, p ∉ loc_files loc -> p ≠ meta_path loc /\ p ≠ state_path loc /\
    p ≠ state_tmp loc /\ p ≠ meta_tmp loc) as Hout by (unfold loc_files; set_solver).
  unfold save_snapshot. rewrite bool_decide_false by (by destruct conv).
  rewrite Hv. cbv zeta. cbn [negb].
  erewrite bind_ok; [|by apply get_snapshot_paths_ok].
  cbv beta iota. rewrite state_tmp_path, meta_tmp_path. fold (state_tmp loc) (meta_tmp loc).
  pose proof (state_phase_run loc (save_file (build_state_dict conv temporal)) (add_dirs loc.1 s)
    ltac:(apply Hnd; set_solver)) as Hst. cbv zeta in Hst.
  destruct (state_phase_ok loc); simpl andb.
  - rewrite (bind_ok _ _ _ _ _ Hst). cbv beta.
    match goal with |- context [(_ ≫= _) (mkFS ?d ?f)] =>
      pose proof (meta_phase_run loc m (mkFS d f) ltac:(apply Hnd; set_solver)) as Hm end. cbv zeta in Hm. simpl in Hm.
    destruct (meta_phase_ok loc).
    + by rewrite (bind_ok _ _ _ _ _ Hm).
    + destruct Hm as (e & f & Hr & Ho & Hf). exists e, f. rewrite (bind_raise _ _ _ _ _ Hr). split; [done|]. split.
      * intros p Hp. destruct (Hout p Hp) as (? & ? & ? & ?). rewrite Ho by done. by simplify_map_eq.
      * rewrite Ho by done. by simplify_map_eq.
      * destruct Hf as [->|[-> Hu]]; [by right; left|right; right]. simplify_map_eq. by split; [|right].
  - destruct Hst as (e & f & Hr & Ho & Hf). exists e, f. rewrite (bind_raise _ _ _ _ _ Hr). split; [done|]. split.
    + intros p Hp. destruct (Hout p Hp) as (? & ? & ? & ?). by rewrite Ho.
    + by rewrite Ho.
    + destruct Hf as [->|[-> Hu]]; [by left|right; right]. by split; [|left].
Qed.

(** What a save that returned had for arguments. *)
Lemma save_snapshot_ok_inv conv temporal m s pr s' :
  store_wf s ->
  save_snapshot io base_dir conv temporal m s = (Ok pr, s') ->
  exists loc, snap_loc (md_conversation_id m) (md_turn_number m) (md_branch_name m) = Some loc /\
    conv ≠ [] /\ is_valid (validate_state_tensors conv temporal (Some m) false) = true /\
    dirs_ok loc.1 s /\ pr = (meta_path loc, state_path loc) /\
    s' = mkFS (dirs (add_dirs loc.1 s)) (saved_files loc conv temporal m (files s)).
Proof.
  intros Hs Hrun. pose proof Hrun as Hrun'. unfold save_snapshot in Hrun.
  destruct (decide (conv = [])) as [->|Hne]; [done|].
  rewrite bool_decide_false in Hrun by (by destruct conv). cbv zeta in Hrun.
  destruct (is_valid _) eqn:Hv; [|done]. simpl in Hrun.
  apply bind_ok_inv in Hrun as (pr0 & s1 & Hp & _).
  apply get_snapshot_paths_inv in Hp as (loc & Hl & Hd). exists loc.
  pose proof (save_snapshot_run conv temporal m loc s Hs Hne Hv Hl Hd) as Hx. rewrite Hrun' in Hx.
  destruct (state_phase_ok loc && meta_phase_ok loc); [|by destruct Hx as (? & ? & ? & _)].
  injection Hx as -> ->. by split_and!.
Qed.

(** ** The state dictionary *)

Lemma layer_key_inj i j : layer_key i = layer_key j -> i = j.
Proof. intros Heq%(inj (String.append "conv_layer_")). by apply (inj pretty) in Heq. Qed.

Lemma layer_key_temporal i : layer_key i ≠ "temporal".
Proof. done. Qed.

Lemma add_layers_wf i (l : list T) d : dict_wf d -> dict_wf (add_layers i l d).
Proof. revert i d. induction l as [|t l IH]; intros i d Hd; simpl; [done|]. by apply IH, dict_wf_set. Qed.

Lemma add_layers_get_other i (l : list T) d k :
  (forall j, i <= j -> layer_key j ≠ k) -> dict_get (add_layers i l d) k = dict_get d k.
Proof.
  revert i d. induction l as [|t l IH]; intros i d Hk; simpl; [done|].
  rewrite IH by (intros j Hj; apply Hk; lia). apply dict_get_set_ne, Hk. lia.
Qed.

Lemma add_layers_get i (l : list T) d (j : nat) :
  (forall j', i <= j' -> dict_get d (layer_key j') = None) ->
  dict_get (add_layers i l d) (layer_key (i + Z.of_nat j)) = l !! j.
Proof.
  revert i d j. induction l as [|t l IH]; intros i d j Hd; simpl.
  - rewrite Hd by lia. done.
  - destruct j as [|j].
    + rewrite add_layers_get_other.
      * rewrite Z.add_0_r. by rewrite dict_get_set_eq.
      * intros j Hj Heq%layer_key_inj. lia.
    + replace (i + Z.of_nat (S j)) with (i + 1 + Z.of_nat j) by lia. simpl. apply IH.
      intros j' Hj'. rewrite dict_get_set_ne; [apply Hd; lia|]. intros Heq%layer_key_inj. lia.
Qed.

Lemma add_layers_length i (l : list T) d :
  (forall j', i <= j' -> dict_get d (layer_key j') = None) ->
  length (add_layers i l d) = (length l + length d)%nat.
Proof.
  revert i d. induction l as [|t l IH]; intros i d Hd; simpl; [done|]. rewrite IH.
  - rewrite dict_length_set. unfold dict_has. rewrite Hd by lia. lia.
  - intros j' Hj'. rewrite dict_get_set_ne; [apply Hd; lia|]. intros Heq%layer_key_inj. lia.
Qed.

Lemma collect_layers_spec fuel i (d : dict string T) l :
  (forall j : nat, dict_get d (layer_key (i + Z.of_nat j)) = l !! j) ->
  (length l < fuel)%nat -> collect_layers fuel i d = l.
Proof.
  revert fuel i. induction l as [|t l IH]; intros [|fuel] i Hg Hf; simpl in *; try lia.
  - specialize (Hg 0%nat). rewrite Z.add_0_r in Hg. by rewrite Hg.
  - pose proof (Hg 0%nat) as H0'. rewrite Z.add_0_r in H0'. rewrite H0'. simpl. f_equal.
    apply IH; [|lia]. intros j. specialize (Hg (S j)). simpl in Hg. rewrite <- Hg. do 2 f_equal. lia.
Qed.

Lemma state_dict_facts conv (temporal : T) :
  let d := build_state_dict conv temporal in
  dict_wf d /\ length d = S (length conv) /\ dict_get d "temporal" = Some temporal /\
  forall j : nat, dict_get d (layer_key (0 + Z.of_nat j)) = conv !! j.
Proof.
  simpl. unfold build_state_dict. split_and!.
  - apply add_layers_wf, dict_wf_set, dict_wf_nil.
  - rewrite add_layers_length by done. simpl. lia.
  - by rewrite add_layers_get_other.
  - intros j. by apply add_layers_get.
Qed.

(** ** Loading what was saved *)

Lemma load_snapshot_run `{!StorageLaws T} cid turn branch loc conv temporal m s :
  snap_loc cid turn branch = Some loc -> dirs_ok loc.1 s ->
  conv ≠ [] -> is_valid (validate_state_tensors conv temporal (Some m) false) = true ->
  files s !! meta_path loc = Some (Doc (to_dict m)) ->
  files s !! state_path loc = Some (Blob (save_file (build_state_dict conv temporal))) ->
  load_snapshot io base_dir cid turn branch s = (Ok (conv, temporal, m), add_dirs loc.1 s).
Proof.
  intros Hl Hd Hne Hv Hm Hst. unfold load_snapshot.
  erewrite bind_ok; [|by apply get_snapshot_paths_ok]. cbv beta iota.
  destruct (state_dict_facts conv temporal) as (Hwf & Hlen & Htemp & Hlayers).
  destruct (load_save _ Hwf) as (d' & Hload & Hlen' & Hget).
  unfold exists_path, from_json, read_blob, try_except. run_unfold.
  cbn -[collect_layers]. rewrite Hm. cbn -[collect_layers]. rewrite Hst.
  cbn -[collect_layers]. rewrite Hm, from_to_dict. cbn -[collect_layers]. rewrite Hst, Hload, Hget, Htemp.
  rewrite (collect_layers_spec _ _ _ conv); [| |simpl; lia].
  2:{ intros j. by rewrite Hget, Hlayers. }
  rewrite bool_decide_false by (by destruct conv). by rewrite Hv.
Qed.

Lemma saved_lookup loc conv temporal m f :
  saved_files loc conv temporal m f !! meta_path loc = Some (Doc (to_dict m)) /\
  saved_files loc conv temporal m f !! state_path loc =
    Some (Blob (save_file (build_state_dict conv temporal))).
Proof.
  destruct (loc_paths_ne loc loc) as (H1 & H2 & H3 & H4 & H5). unfold saved_files.
  split; [by rewrite lookup_insert_eq|].
  rewrite lookup_insert_ne by done. rewrite lookup_delete_ne by done. by rewrite lookup_insert_eq.
Qed.

Lemma saved_lookup_other loc conv temporal m f p :
  p ∉ loc_files loc -> saved_files loc conv temporal m f !! p = f !! p.
Proof.
  intros Hp. unfold saved_files, loc_files in *. set_unfold in Hp.
  rewrite lookup_insert_ne, lookup_delete_ne, lookup_insert_ne, lookup_delete_ne; naive_solver.
Qed.

(** Two snapshots at different places share no file. *)
Lemma loc_files_disjoint loc (loc' : path * string) p :
  loc ≠ loc' -> p ∈ [meta_path loc'; state_path loc'] -> p ∉ loc_files loc.
Proof.
  intros Hne Hp Hin. destruct (loc_paths_ne loc' loc) as (H1 & H2 & H3 & H4 & H5).
  destruct (loc_paths_ne loc loc') as (G1 & _).
  assert (meta_path loc' ≠ meta_path loc /\ state_path loc' ≠ state_path loc) as [Hm Hs].
  { destruct loc as [d st], loc' as [d' st']. unfold meta_path, state_path; simpl.
    split; intros [-> Heq]%app_inj_tail; apply Hne; f_equal;
      unfold metadata_name, state_name in Heq; by apply str_app_inj_r in Heq. }
  unfold loc_files in Hin. set_unfold in Hin. set_unfold in Hp. naive_solver.
Qed.

(** ** Listing *)

Lemma names_in_elem dir name s : name ∈ names_in dir s <-> is_Some (files s !! (dir ++ [name])).
Proof.
  unfold names_in. rewrite list_elem_of_omap. split.
  - intros ([p c] & Hin & Hf). simpl in Hf. apply elem_of_map_to_list in Hin.
    destruct (last p); [|done]. case_decide; simplify_eq. eauto.
  - intros [c Hc]. exists (dir ++ [name], c). split; [by apply elem_of_map_to_list|].
    simpl. rewrite last_snoc. by rewrite decide_True.
Qed.

Lemma names_in_NoDup dir s : NoDup (names_in dir s).
Proof.
  unfold names_in. apply NoDup_omap; [apply NoDup_map_to_list|].
  intros [p c] [p' c'] name Hp Hp' Hf Hf'. simpl in *.
  destruct (last p); [|done]. destruct (last p'); [|done].
  repeat case_decide; simplify_eq. f_equal.
  eapply (map_to_list_unique (files s)); eassumption.
Qed.

Definition turn_stem (n : Z) : string := "turn_" +:+ pretty n.

Lemma digit_ne c d : is_digit d = false -> is_digit c = true -> negb (bool_decide (c = d)) = true.
Proof. intros Hd Hc. rewrite bool_decide_false; [done|]. intros ->. congruence. Qed.

Lemma turn_of_metadata_name n : 0 <= n -> turn_of_name (metadata_name (turn_stem n)) = Some n.
Proof.
  intros Hn. unfold turn_of_name, metadata_name, turn_stem, name_suffix, name_stem.
  change "_metadata.json" with ("_metadata" +:+ "." +:+ "json").
  rewrite <- (str_app_assoc _ "_metadata"), name_split_app by (done || apply app_ne_nil). simpl.
  rewrite !str_app_assoc, prefix_app. simpl.
  rewrite remove_all_match.
  assert (forall c, is_digit c = false ->
    str_all (fun x => negb (bool_decide (x = c))) (pretty n) = true) as Hno.
  { intros c Hc. eapply str_all_impl; [|by apply pretty_digits]. intros d. by apply digit_ne. }
  rewrite remove_all_skip by (by apply Hno).
  change (remove_all "turn_" "_metadata") with "_metadata".
  rewrite remove_all_skip by (by apply Hno).
  change (remove_all "_metadata" "_metadata") with "". rewrite str_app_nil_r.
  by apply py_int_pretty.
Qed.

Lemma suffix_not_json a b :
  b ≠ "json" -> b ≠ "" -> a ≠ "" ->
  str_all (fun x => negb (bool_decide (x = "."%char))) b = true ->
  turn_of_name (a +:+ "." +:+ b) = None.
Proof.
  intros Hj Hb Ha Hd. unfold turn_of_name, name_suffix. rewrite name_split_app by done.
  rewrite (bool_decide_false (_ = ".json")); [by rewrite andb_false_r|].
  simpl. intros Heq. apply Hj. by injection Heq.
Qed.

Lemma turn_of_other_names st :
  turn_of_name (state_name st) = None /\ turn_of_name (state_tmp_name st) = None /\
  turn_of_name (meta_tmp_name st) = None.
Proof.
  unfold state_name, state_tmp_name, meta_tmp_name.
  change "_state.safetensors.tmp" with ("_state.safetensors" +:+ "." +:+ "tmp").
  change "_state.safetensors" with ("_state" +:+ "." +:+ "safetensors") at 1.
  change "_metadata.json.tmp" with ("_metadata.json" +:+ "." +:+ "tmp").
  rewrite <- !(str_app_assoc st). split_and!; apply suffix_not_json; done || apply app_ne_nil.
Qed.

(** A file directly in a conversation directory belongs to a numbered turn. *)
Lemma conv_dir_file c name s :
  store_wf s -> is_Some (files s !! ([c] ++ [name])) ->
  exists n, 0 <= n /\ [c] ++ [name] ∈ loc_files ([c], turn_stem n).
Proof.
  intros [_ Hf] Hn. destruct (Hf _ Hn) as (cid & turn & branch & loc & Hl & Hp).
  pose proof Hl as Hw%snap_loc_wf. destruct (loc_files_shape _ _ Hp) as (nm & Heq & _).
  unfold snap_loc in Hl. destruct (component_ok cid); [|done].
  destruct (truthy branch); [destruct (component_ok _); [|done]; simplify_eq/=|].
  destruct turn as [n|]; [|done]. case_bool_decide; [done|]. simplify_eq/=.
  exists n. split; [lia|done].
Qed.

Lemma turn_listed c name n s :
  store_wf s -> name ∈ names_in [c] s -> turn_of_name name = Some n ->
  0 <= n /\ name = metadata_name (turn_stem n).
Proof.
  intros Hs Hin%names_in_elem Ht. destruct (conv_dir_file _ _ _ Hs Hin) as (n' & Hn' & Hp).
  destruct (turn_of_other_names (turn_stem n')) as (H1 & H2 & H3).
  unfold loc_files, meta_path, state_path, state_tmp, meta_tmp in Hp. simpl in Hp.
  set_unfold in Hp. destruct_or? Hp; simplify_eq; try congruence; try done.
  rewrite turn_of_metadata_name in Ht by done. naive_solver.
Qed.

(** The pure listing of the turns of a conversation directory. *)
Definition turns_of (c : string) s : list Z := merge_sort Z.le (omap turn_of_name (names_in [c] s)).

Lemma turns_of_elem c n s :
  store_wf s ->
  n ∈ turns_of c s <-> 0 <= n /\ is_Some (files s !! meta_path ([c], turn_stem n)).
Proof.
  intros Hs. unfold turns_of. rewrite merge_sort_elem, list_elem_of_omap. split.
  - intros (name & Hin & Ht). destruct (turn_listed _ _ _ _ Hs Hin Ht) as [Hn ->].
    by apply names_in_elem in Hin.
  - intros [Hn Hf]. exists (metadata_name (turn_stem n)).
    split; [by apply names_in_elem|by apply turn_of_metadata_name].
Qed.

Lemma turns_of_NoDup c s : store_wf s -> NoDup (turns_of c s).
Proof.
  intros Hs. unfold turns_of. rewrite merge_sort_Permutation.
  apply NoDup_omap; [apply names_in_NoDup|]. intros x y z Hx Hy Hfx Hfy.
  destruct (turn_listed _ _ _ _ Hs Hx Hfx), (turn_listed _ _ _ _ Hs Hy Hfy). congruence.
Qed.

Lemma turns_of_sorted c s : StronglySorted Z.le (turns_of c s).
Proof. apply merge_sort_Z_sorted. Qed.

Lemma names_in_add_dirs dir d s : names_in dir (add_dirs d s) = names_in dir s.
Proof. done. Qed.

Lemma list_snapshots_run cid s :
  component_ok cid = true -> dirs_ok [conv_dir_name cid] s ->
  list_snapshots io base_dir cid s =
    (Ok (turns_of (conv_dir_name cid) s), add_dirs [conv_dir_name cid] s).
Proof.
  intros Hc Hd. unfold list_snapshots. erewrite bind_ok; [|by apply get_conversation_dir_ok]. done.
Qed.
End store_facts.
