(* ===== verification/SnapshotSpec.v ===== *)
(** * The snapshot store against its specification

    A client of the snapshot manager may think of the disk as one finite map
    from places (a turn or a branch of a conversation) to snapshots.  This
    file is that specification and the simulation that relates it to
    SnapshotStore.v on a disk that does not fail; SnapshotFaults.v treats the
    disk that does. *)

From S2P Require Import Prelude PyDict PyText Torch Metadata SnapshotStore SnapshotFacts.

Abbreviation snapshot T := (list T * T * MambaSnapshotMetadata)%type.

Section spec.
Context {T : Type} `{Torch T} `{Storage T}.
Context (base_dir : string).
Implicit Types (s : FS T) (m : MambaSnapshotMetadata) (loc : path * string).

(** ** The specification *)

Abbreviation snapmap := (gmap (path * string) (snapshot T)).
Implicit Types (A : snapmap).

Inductive op :=
  | OSave (conv : list T) (temporal : T) (m : MambaSnapshotMetadata)
  | OLoad (cid : string) (turn : option Z) (branch : option string)
  | ODelete (cid : string) (turn : option Z) (branch : option string)
  | OList (cid : string)
  | OLatest (cid : string).

(** What a call gives its caller; of an exception only the class counts. *)
Inductive out :=
  | RUnit
  | RSnap (x : snapshot T)
  | RBool (b : bool)
  | RTurns (l : list Z)
  | RLatest (x : option (Z * MambaSnapshotMetadata))
  | RErr (c : exn_class).

(** The place of a numbered turn. *)
Definition turn_loc (cid : string) (n : Z) : path * string :=
  ([conv_dir_name cid], turn_stem n).

Lemma turn_loc_inj cid n n' : turn_loc cid n = turn_loc cid n' -> n = n'.
Proof.
  intros Heq%(f_equal snd). apply (inj (String.append "turn_")) in Heq.
  by apply (inj pretty) in Heq.
Qed.

Lemma turn_loc_cid cid cid' n n' : turn_loc cid n = turn_loc cid' n' -> cid = cid'.
Proof.
  intros Heq%(f_equal fst). apply (f_equal head), (inj Some) in Heq.
  by apply (inj (String.append "conversation_")) in Heq.
Qed.

(** [l] lists the turns of [cid] in increasing order, each once. *)
Definition lists_turns A (cid : string) (l : list Z) : Prop :=
  StronglySorted Z.lt l /\ forall n, n ∈ l <-> 0 <= n /\ is_Some (A !! turn_loc cid n).

Lemma lists_turns_unique A cid l l' : lists_turns A cid l -> lists_turns A cid l' -> l = l'.
Proof.
  intros [Hs Hl] [Hs' Hl']. apply sorted_lt_unique; [done..|]. intros n. by rewrite Hl, Hl'.
Qed.

Lemma lists_turns_nonneg A cid l : lists_turns A cid l -> Forall (fun n => 0 <= n) l.
Proof. intros [_ Hl]. apply Forall_forall. intros n Hn. by apply Hl. Qed.

Definition saveable (conv : list T) (temporal : T) m : bool :=
  negb (bool_decide (len conv = 0)) &&
  is_valid (validate_state_tensors conv temporal (Some m) false).

(** Whether a state can be saved does not depend on its metadata. *)
Lemma saveable_any conv temporal m m' : saveable conv temporal m = saveable conv temporal m'.
Proof. unfold saveable. by rewrite (validate_valid_any (Some m) (Some m')). Qed.

Inductive spec_step : op -> snapmap -> out -> snapmap -> Prop :=
  | S_save conv temporal m loc A :
      saveable conv temporal m = true ->
      snap_loc (md_conversation_id m) (md_turn_number m) (md_branch_name m) = Some loc ->
      spec_step (OSave conv temporal m) A RUnit (<[loc := (conv, temporal, m)]> A)
  | S_save_err conv temporal m A :
      saveable conv temporal m = false \/
      snap_loc (md_conversation_id m) (md_turn_number m) (md_branch_name m) = None ->
      spec_step (OSave conv temporal m) A (RErr ValueError) A
  | S_load cid turn branch loc x A :
      snap_loc cid turn branch = Some loc -> A !! loc = Some x ->
      spec_step (OLoad cid turn branch) A (RSnap x) A
  | S_load_missing cid turn branch loc A :
      snap_loc cid turn branch = Some loc -> A !! loc = None ->
      spec_step (OLoad cid turn branch) A (RErr FileNotFoundError) A
  | S_load_err cid turn branch A :
      snap_loc cid turn branch = None ->
      spec_step (OLoad cid turn branch) A (RErr ValueError) A
  | S_delete cid turn branch loc A :
      snap_loc cid turn branch = Some loc ->
      spec_step (ODelete cid turn branch) A
        (RBool (bool_decide (is_Some (A !! loc)))) (delete loc A)
  | S_delete_err cid turn branch A :
      snap_loc cid turn branch = None ->
      spec_step (ODelete cid turn branch) A (RErr ValueError) A
  | S_list cid l A :
      component_ok cid = true -> lists_turns A cid l ->
      spec_step (OList cid) A (RTurns l) A
  | S_list_err cid A :
      component_ok cid = false -> spec_step (OList cid) A (RErr ValueError) A
  | S_latest_none cid A :
      component_ok cid = true -> lists_turns A cid [] ->
      spec_step (OLatest cid) A (RLatest None) A
  | S_latest cid l n conv temporal m A :
      component_ok cid = true -> lists_turns A cid (l ++ [n]) ->
      A !! turn_loc cid n = Some (conv, temporal, m) ->
      spec_step (OLatest cid) A (RLatest (Some (n, m))) A
  | S_latest_err cid A :
      component_ok cid = false -> spec_step (OLatest cid) A (RErr ValueError) A.

Inductive spec_run : list op -> snapmap -> list out -> snapmap -> Prop :=
  | spec_nil A : spec_run [] A [] A
  | spec_cons o ops A r A' rs A'' :
      spec_step o A r A' -> spec_run ops A' rs A'' ->
      spec_run (o :: ops) A (r :: rs) A''.

(** ** The manager's calls *)

Definition call (io : IOEnv) (o : op) : M (FS T) out :=
  match o with
  | OSave conv temporal m =>
      save_snapshot io base_dir conv temporal m ≫= fun _ => mret RUnit
  | OLoad cid turn branch => RSnap <$> load_snapshot io base_dir cid turn branch
  | ODelete cid turn branch => RBool <$> delete_snapshot io base_dir cid turn branch
  | OList cid => RTurns <$> list_snapshots io base_dir cid
  | OLatest cid => RLatest <$> get_latest_snapshot io base_dir cid
  end.

Definition out_of (r : res out) : out :=
  match r with Ok x => x | Raise e => RErr (exn_type e) end.

(** Calls one after the other; an exception reaches the caller, who goes on. *)
Fixpoint calls (io : IOEnv) (ops : list op) (s : FS T) : list out * FS T :=
  match ops with
  | [] => ([], s)
  | o :: ops' =>
      let '(r, s1) := call io o s in
      let '(rs, s2) := calls io ops' s1 in (out_of r :: rs, s2)
  end.

(** ** The abstraction *)

(** The files of one place hold [x]. *)
Definition holds (loc : path * string) (x : option (snapshot T)) s : Prop :=
  match x with
  | Some (conv, temporal, m) =>
      saveable conv temporal m = true /\
      files s !! meta_path loc = Some (Doc (to_dict m)) /\
      files s !! state_path loc = Some (Blob (save_file (build_state_dict conv temporal)))
  | None => files s !! meta_path loc = None /\ files s !! state_path loc = None
  end.

Definition abstracts s A : Prop :=
  store_wf s /\
  forall cid turn branch loc, snap_loc cid turn branch = Some loc -> holds loc (A !! loc) s.

Lemma abstracts_empty : abstracts empty_fs ∅.
Proof.
  split; [apply store_wf_empty|]. intros cid turn branch loc _. rewrite lookup_empty.
  split; apply lookup_empty.
Qed.

Lemma abstracts_wf s A : abstracts s A -> store_wf s.
Proof. by intros []. Qed.

Lemma abstracts_valid s A cid turn branch loc conv temporal m :
  abstracts s A -> snap_loc cid turn branch = Some loc ->
  A !! loc = Some (conv, temporal, m) -> saveable conv temporal m = true.
Proof. intros [_ Hh] Hl HA. specialize (Hh _ _ _ _ Hl). rewrite HA in Hh. by destruct Hh. Qed.

Lemma holds_files loc x s s' : files s' = files s -> holds loc x s -> holds loc x s'.
Proof. intros Hf. unfold holds. by rewrite Hf. Qed.

Lemma abstracts_add_dirs loc s A :
  loc_wf loc -> abstracts s A -> abstracts (add_dirs loc.1 s) A.
Proof. intros Hw [Hs Ha]. split; [by apply store_wf_add_dirs|]. exact Ha. Qed.

Lemma holds_other (loc loc' : path * string) x s s' :
  loc ≠ loc' -> (forall p, p ∉ loc_files loc -> files s' !! p = files s !! p) ->
  holds loc' x s -> holds loc' x s'.
Proof.
  intros Hne Hf. unfold holds.
  rewrite !Hf by (apply (loc_files_disjoint loc loc'); [done|set_solver]). done.
Qed.

Lemma saveable_inv conv temporal m :
  saveable conv temporal m = true ->
  conv ≠ [] /\ is_valid (validate_state_tensors conv temporal (Some m) false) = true.
Proof. unfold saveable. intros [H1 H2]%andb_prop. split; [|done]. by destruct conv. Qed.

(** ** Each call refines its specification *)

Definition io0 : IOEnv := no_faults.

Lemma snap_loc_turn cid n :
  component_ok cid = true -> 0 <= n -> snap_loc cid (Some n) None = Some (turn_loc cid n).
Proof. intros Hc Hn. unfold snap_loc. rewrite Hc. simpl. by rewrite bool_decide_false by lia. Qed.

Lemma no_fault_dirs_ok loc s : store_wf s -> loc_wf loc -> dirs_ok io0 loc.1 s.
Proof. intros. by apply dirs_ok_wf. Qed.

Lemma conv_loc_wf cid st : loc_wf ([conv_dir_name cid], st).
Proof. exists (conv_dir_name cid). by left. Qed.

Lemma conversation_dir_bad cid s :
  component_ok cid = false -> exists e,
    get_conversation_dir io0 base_dir cid s = (Raise (Exn ValueError e), s).
Proof.
  intros Hc. unfold get_conversation_dir. destruct (sanitize_path_component cid _) as [c|[cl e]] eqn:Hs.
  - apply sanitize_inv in Hs as [_ Hs]. congruence.
  - exists e. run_unfold.
    unfold sanitize_path_component, value_error in Hs. repeat case_match; naive_solver.
Qed.

(** A place that is not one is refused, at most with a directory made. *)
Lemma snapshot_paths_bad cid turn branch s A :
  abstracts s A -> snap_loc cid turn branch = None -> exists e s',
    get_snapshot_paths io0 base_dir cid turn branch s = (Raise (Exn ValueError e), s') /\
    abstracts s' A.
Proof.
  intros Ha Hl. unfold get_snapshot_paths. destruct (component_ok cid) eqn:Hc.
  2:{ destruct (conversation_dir_bad cid s Hc) as [e He]. exists e, s.
      split; [|done]. by erewrite bind_raise. }
  pose proof (no_fault_dirs_ok _ s (abstracts_wf _ _ Ha) (conv_loc_wf cid "")) as Hd.
  pose proof (abstracts_add_dirs _ s A (conv_loc_wf cid "") Ha) as Ha'.
  erewrite bind_ok; [|by apply get_conversation_dir_ok]. unfold snap_loc in Hl. rewrite Hc in Hl.
  destruct (truthy branch) eqn:Ht.
  - destruct (component_ok (str_or branch "")) eqn:Hb; [done|].
    destruct (sanitize_path_component (str_or branch "") "branch_name") as [c|[cl e]] eqn:Hs.
    { apply sanitize_inv in Hs as [_ Hs]. congruence. }
    exists e, (add_dirs [conv_dir_name cid] s). run_unfold. split; [|done].
    unfold sanitize_path_component, value_error in Hs. repeat case_match; naive_solver.
  - destruct turn as [n|]; [|by eauto]. destruct (bool_decide (n < 0)); [|done]. by eauto.
Qed.

Definition refines_step (o : op) : Prop := forall s A,
  abstracts s A -> exists A',
    spec_step o A (out_of (call io0 o s).1) A' /\ abstracts (call io0 o s).2 A'.

Lemma save_refines conv temporal m : refines_step (OSave conv temporal m).
Proof.
  intros s A Ha. cbn [call]. destruct (saveable conv temporal m) eqn:Hsv.
  2:{ exists A. unfold saveable in Hsv. unfold save_snapshot.
      destruct (bool_decide (len conv = 0)) eqn:Hz; simpl in Hsv.
      - split; [|done]. apply S_save_err. left. unfold saveable. by rewrite Hz.
      - rewrite Hsv. split; [|done]. apply S_save_err. left. unfold saveable. by rewrite Hz. }
  destruct (snap_loc (md_conversation_id m) (md_turn_number m) (md_branch_name m)) as [loc|] eqn:Hl.
  2:{ destruct (snapshot_paths_bad _ _ _ s A Ha Hl) as (e & s' & Hp & Ha'). exists A.
      destruct (saveable_inv _ _ _ Hsv) as [Hne Hv].
      assert (save_snapshot io0 base_dir conv temporal m s = (Raise (Exn ValueError e), s')) as Hr.
      { unfold save_snapshot. rewrite bool_decide_false by (by destruct conv). rewrite Hv.
        cbn [negb]. by erewrite bind_raise. }
      rewrite (bind_raise _ _ _ _ _ Hr). split; [apply S_save_err; by right|exact Ha']. }
  pose proof (snap_loc_wf _ _ _ _ Hl) as Hw. destruct (saveable_inv _ _ _ Hsv) as [Hne Hv].
  exists (<[loc := (conv, temporal, m)]> A). destruct Ha as [Hs Ha].
  erewrite bind_ok; [|exact (save_snapshot_run io0 base_dir conv temporal m loc s Hs Hne Hv Hl (no_fault_dirs_ok loc s Hs Hw))].
  simpl. split; [by apply S_save|]. split.
  - apply (store_wf_files _ (add_dirs loc.1 s)); [by apply store_wf_add_dirs|]. intros p Hp.
    destruct (decide (p ∈ loc_files loc)); [right; eauto 10|left]. by rewrite saved_lookup_other in Hp.
  - intros cid turn branch loc' Hl'. destruct (decide (loc = loc')) as [<-|Hneq].
    + rewrite lookup_insert_eq. simpl. by split; [|apply saved_lookup].
    + rewrite lookup_insert_ne by done. eapply holds_other; [done| |by eapply Ha].
      intros p Hp. by apply saved_lookup_other.
Qed.

Lemma load_refines `{!StorageLaws T} cid turn branch : refines_step (OLoad cid turn branch).
Proof.
  intros s A Ha. exists A. cbn [call].
  destruct (snap_loc cid turn branch) as [loc|] eqn:Hl.
  2:{ destruct (snapshot_paths_bad _ _ _ s A Ha Hl) as (e & s' & Hp & Ha').
      assert (load_snapshot io0 base_dir cid turn branch s = (Raise (Exn ValueError e), s')) as Hr.
      { unfold load_snapshot. by erewrite bind_raise. }
      unfold fmap, M_fmap. rewrite Hr. split; [by apply S_load_err|done]. }
  pose proof (snap_loc_wf _ _ _ _ Hl) as Hw. pose proof Ha as [Hs Hh].
  pose proof (no_fault_dirs_ok loc s Hs Hw) as Hd.
  pose proof (abstracts_add_dirs loc s A Hw Ha) as Ha'.
  specialize (Hh _ _ _ _ Hl). destruct (A !! loc) as [[[conv temporal] m]|] eqn:HA.
  - destruct Hh as (Hsv & Hm & Hst). destruct (saveable_inv _ _ _ Hsv) as [Hne Hv].
    unfold fmap, M_fmap. rewrite (load_snapshot_run io0 base_dir _ _ _ loc conv temporal m) by done.
    split; [by eapply S_load|done].
  - destruct Hh as [Hm Hst].
    assert (load_snapshot io0 base_dir cid turn branch s =
      (Raise (Exn FileNotFoundError ("Metadata not found: " +:+ path_str base_dir (meta_path loc))),
       add_dirs loc.1 s)) as Hr.
    { unfold load_snapshot. erewrite bind_ok; [|by apply get_snapshot_paths_ok]. cbv beta iota.
      unfold exists_path. run_unfold. cbn [files add_dirs]. rewrite Hm.
      rewrite (bool_decide_false (is_Some None)) by (by intros [? ?]).
      rewrite (bool_decide_false (_ ∈ _)); [done|].
      apply (loc_files_not_dirs loc); [apply Ha'|done|set_solver]. }
    unfold fmap, M_fmap. rewrite Hr. split; [by eapply S_load_missing|done].
Qed.

Lemma delete_snapshot_run io cid turn branch loc s :
  store_wf s -> snap_loc cid turn branch = Some loc -> dirs_ok io loc.1 s ->
  unlink_fault io (meta_path loc) = false -> unlink_fault io (state_path loc) = false ->
  delete_snapshot io base_dir cid turn branch s =
    (Ok (bool_decide (is_Some (files s !! meta_path loc)) ||
         bool_decide (is_Some (files s !! state_path loc))),
     mkFS (dirs (add_dirs loc.1 s)) (delete (state_path loc) (delete (meta_path loc) (files s)))).
Proof.
  intros Hs Hl Hd Hu1 Hu2. pose proof (snap_loc_wf _ _ _ _ Hl) as Hw.
  assert (forall p, p ∈ loc_files loc -> p ∉ dirs (add_dirs loc.1 s)) as Hnd.
  { intros p Hp. apply (loc_files_not_dirs loc); [by apply store_wf_add_dirs|done|done]. }
  unfold delete_snapshot. erewrite bind_ok; [|by apply get_snapshot_paths_ok]. cbv beta iota.
  erewrite bind_ok; [|reflexivity]. erewrite bind_ok; [|reflexivity].
  erewrite bind_ok; [|apply unlink_if_exists_run; [apply Hnd; set_solver|done]].
  erewrite bind_ok; [|apply unlink_if_exists_run; [apply Hnd; set_solver|done]].
  rewrite !(bool_decide_false (_ ∈ dirs (add_dirs _ _))) by (apply Hnd; set_solver).
  by rewrite !orb_false_r.
Qed.

Lemma delete_refines cid turn branch : refines_step (ODelete cid turn branch).
Proof.
  intros s A Ha. cbn [call]. unfold fmap, M_fmap.
  destruct (snap_loc cid turn branch) as [loc|] eqn:Hl.
  2:{ destruct (snapshot_paths_bad _ _ _ s A Ha Hl) as (e & s' & Hp & Ha'). exists A.
      assert (delete_snapshot io0 base_dir cid turn branch s = (Raise (Exn ValueError e), s')) as Hr.
      { unfold delete_snapshot. by erewrite bind_raise. }
      rewrite Hr. split; [by apply S_delete_err|done]. }
  pose proof (snap_loc_wf _ _ _ _ Hl) as Hw. pose proof Ha as [Hs Hh].
  rewrite (delete_snapshot_run io0 _ _ _ loc) by auto using no_fault_dirs_ok.
  exists (delete loc A). split.
  - assert (bool_decide (is_Some (files s !! meta_path loc)) ||
            bool_decide (is_Some (files s !! state_path loc)) =
            bool_decide (is_Some (A !! loc))) as Hb.
    { specialize (Hh _ _ _ _ Hl). destruct (A !! loc) as [[[conv temporal] m]|].
      - by destruct Hh as (_ & -> & ->).
      - by destruct Hh as [-> ->]. }
    simpl. rewrite Hb. by apply S_delete.
  - split.
    + apply (store_wf_files _ (add_dirs loc.1 s)); [by apply store_wf_add_dirs|].
      intros p Hp. left. simpl. by rewrite !lookup_delete_is_Some in Hp; destruct Hp as (_ & _ & Hp).
    + intros cid' turn' branch' loc' Hl'. destruct (decide (loc = loc')) as [<-|Hneq].
      * rewrite lookup_delete_eq. simpl. split; [|by rewrite lookup_delete_eq].
        rewrite lookup_delete_ne by (symmetry; apply loc_paths_ne). by rewrite lookup_delete_eq.
      * rewrite lookup_delete_ne by done. eapply holds_other; [done| |by eapply Hh].
        intros p Hp. unfold loc_files in Hp. set_unfold in Hp. simpl.
        rewrite !lookup_delete_ne; naive_solver.
Qed.

Lemma holds_meta_some loc x s : holds loc x s -> is_Some (files s !! meta_path loc) <-> is_Some x.
Proof.
  destruct x as [[[conv temporal] m]|]; simpl.
  - by intros (_ & -> & _).
  - intros [-> _]. split; by intros [? ?].
Qed.

Lemma turns_of_lists cid s A :
  abstracts s A -> component_ok cid = true -> lists_turns A cid (turns_of (conv_dir_name cid) s).
Proof.
  intros [Hs Hh] Hc. split.
  - apply sorted_NoDup_lt; [apply turns_of_sorted|by apply turns_of_NoDup].
  - intros n. rewrite turns_of_elem by done.
    change ([conv_dir_name cid], turn_stem n) with (turn_loc cid n).
    split; intros [Hn Hx]; (split; [done|]); eapply holds_meta_some;
      eauto using snap_loc_turn.
Qed.

Lemma list_refines cid : refines_step (OList cid).
Proof.
  intros s A Ha. exists A. cbn [call]. unfold fmap, M_fmap. destruct (component_ok cid) eqn:Hc.
  - rewrite list_snapshots_run by (done || apply (no_fault_dirs_ok (_, "")); eauto using conv_loc_wf, abstracts_wf).
    split; [apply S_list; [done|by apply turns_of_lists]|].
    by apply (abstracts_add_dirs (_, "")); [apply conv_loc_wf|].
  - destruct (conversation_dir_bad cid s Hc) as [e He].
    assert (list_snapshots io0 base_dir cid s = (Raise (Exn ValueError e), s)) as Hr.
    { unfold list_snapshots. by erewrite bind_raise. }
    rewrite Hr. split; [by apply S_list_err|done].
Qed.

Lemma latest_refines cid : refines_step (OLatest cid).
Proof.
  intros s A Ha. exists A. cbn [call]. unfold fmap, M_fmap. destruct (component_ok cid) eqn:Hc.
  2:{ destruct (conversation_dir_bad cid s Hc) as [e He].
      assert (get_latest_snapshot io0 base_dir cid s = (Raise (Exn ValueError e), s)) as Hr.
      { unfold get_latest_snapshot, list_snapshots. erewrite bind_raise; [done|]. by erewrite bind_raise. }
      rewrite Hr. split; [by apply S_latest_err|done]. }
  pose proof (turns_of_lists cid s A Ha Hc) as Hlt.
  pose proof (abstracts_add_dirs (_, "") s A (conv_loc_wf cid "") Ha) as Ha'.
  pose proof (abstracts_add_dirs (_, "") _ A (conv_loc_wf cid "") Ha') as Ha''.
  pose proof (no_fault_dirs_ok (_, "") _ (abstracts_wf _ _ Ha') (conv_loc_wf cid "")) as Hd'.
  unfold get_latest_snapshot. erewrite bind_ok.
  2:{ apply list_snapshots_run; [done|]. apply (no_fault_dirs_ok (_, "")); eauto using conv_loc_wf, abstracts_wf. }
  destruct (turns_of (conv_dir_name cid) s) as [|n l _] eqn:Et using rev_ind.
  { split; [by apply S_latest_none|done]. }
  rewrite last_snoc. assert (0 <= n /\ is_Some (A !! turn_loc cid n)) as [Hn [[[conv temporal] m] HA]].
  { apply Hlt. set_solver. }
  erewrite bind_ok; [|apply (get_snapshot_paths_ok _ _ _ _ _ (turn_loc cid n)); [by apply snap_loc_turn|done]].
  cbv beta iota. destruct Ha as [Hs Hh].
  pose proof (Hh _ _ _ _ (snap_loc_turn cid n Hc Hn)) as Hx. rewrite HA in Hx.
  destruct Hx as (_ & Hm & _).
  erewrite bind_ok; [|unfold from_json; cbn [files add_dirs]; rewrite Hm, from_to_dict; reflexivity].
  split; [by eapply S_latest|done].
Qed.

Lemma call_refines `{!StorageLaws T} o : refines_step o.
Proof.
  destruct o; [apply save_refines|apply load_refines|apply delete_refines
    |apply list_refines|apply latest_refines].
Qed.

(** C24: on a disk that does not fail, any sequence of calls to the snapshot
    manager (saves, loads, deletions, listings and queries for the latest
    snapshot, accepted or refused) started on an empty store gives exactly
    the results of the specification, a finite map from places to snapshots:
    a save inserts, a load returns the very tensors and metadata last saved
    at that place or [FileNotFoundError], a deletion removes and tells whether
    there was something, a listing is the strictly increasing list of the
    turns present, and names that are not accepted raise [ValueError] and
    change nothing. *)
Theorem snapshot_store_refines `{!StorageLaws T} (ops : list op) :
  exists A, spec_run ops ∅ (calls no_faults ops empty_fs).1 A /\
    abstracts (calls no_faults ops empty_fs).2 A.
Proof.
  generalize (∅ : snapmap), (empty_fs : FS T), abstracts_empty.
  induction ops as [|o ops IH]; intros A s Ha; cbn [calls].
  { exists A. split; [constructor|done]. }
  destruct (call_refines o s A Ha) as (A1 & Hstep & Ha1). unfold io0 in *.
  destruct (call no_faults o s) as [r s1]. destruct (IH A1 s1 Ha1) as (A2 & Hrun & Ha2).
  exists A2. destruct (calls no_faults ops s1) as [rs s2].
  split; [by econstructor|done].
Qed.

End spec.
