(* ===== verification/SnapshotFaults.v ===== *)
(** * The snapshot store on a disk that may fail

    Every mkdir, write, rename, removal and [stat] of SnapshotStore.v may fail
    here, at every path and differently for every call.  What is left of the
    contract: the files stay where they belong, a save that returned can be
    loaded, and a save that raised leaves a snapshot made of two halves only
    when the [stat] or the removal of the new state file is what failed. *)

From S2P Require Import Prelude PyDict PyText Torch Metadata SnapshotStore SnapshotFacts.
From S2P Require Import SnapshotSpec.

Section faults.
Context {T : Type} `{Torch T} `{Storage T}.
Context (base_dir : string).
Implicit Types (s : FS T) (m : MambaSnapshotMetadata) (loc : path * string).

(** ** The store stays well formed *)

(** The files are those of [f]. *)
Definition same_files (f : gmap path (content T)) s : Prop := files s = f /\ store_wf s.

Lemma mkdir_same io d f :
  (exists c, d = [c] \/ d = [c; "branches"]) -> preserves (same_files f) (mkdir io d).
Proof.
  intros Hd s [Hf [Hw1 Hw2]]. unfold mkdir. destruct (mkdir_fault io d); [done|].
  destruct (files s !! d); [done|]. split; [done|]. split; [|done]. intros d'. simpl. set_solver.
Qed.

Lemma conversation_dir_same io cid f :
  preserves (same_files f) (get_conversation_dir io base_dir cid).
Proof.
  unfold get_conversation_dir. apply preserves_bind; [apply preserves_lift_res|]. intros safe.
  apply preserves_if; [apply preserves_raise|]. apply preserves_bind; [|by auto with py].
  apply mkdir_same. eauto.
Qed.

Lemma conversation_dir_shape io cid s p s' :
  get_conversation_dir io base_dir cid s = (Ok p, s') -> p = [conv_dir_name cid].
Proof. by intros (_ & _ & -> & _)%get_conversation_dir_inv. Qed.

Lemma snapshot_paths_same io cid turn branch f :
  preserves (same_files f) (get_snapshot_paths io base_dir cid turn branch).
Proof.
  intros s Hs. pose proof (conversation_dir_same io cid f s Hs) as Hc.
  unfold get_snapshot_paths. destruct (get_conversation_dir io base_dir cid s) as [[p|e] s1] eqn:E.
  2:{ by erewrite bind_raise. }
  erewrite bind_ok by done. apply conversation_dir_shape in E as ->. simpl in Hc.
  destruct (truthy branch); [|destruct turn; [case_bool_decide|]; done].
  apply (preserves_bind (same_files f)); [apply preserves_lift_res| |done]. intros safe.
  apply preserves_bind; [apply mkdir_same; simpl; eauto|]. intros _.
  apply preserves_if; [apply preserves_raise|apply preserves_ret].
Qed.

(** Everything a save can do to the disk. *)
Inductive save_outcome (io : IOEnv) (f : gmap path (content T)) (conv : list T) (temporal : T)
    (m : MambaSnapshotMetadata) :
    res (path * path) -> gmap path (content T) -> Prop :=
  | save_untouched e : save_outcome io f conv temporal m (Raise e) f
  | save_changed loc r f' :
      saveable conv temporal m = true ->
      snap_loc (md_conversation_id m) (md_turn_number m) (md_branch_name m) = Some loc ->
      (forall p, p ∉ loc_files loc -> f' !! p = f !! p) ->
      match r with
      | Ok _ =>
          f' !! meta_path loc = Some (Doc (to_dict m)) /\
          f' !! state_path loc = Some (Blob (save_file (build_state_dict conv temporal)))
      | Raise _ => save_failed io loc conv temporal f f'
      end -> save_outcome io f conv temporal m r f'.

(** A save whose arguments or directories are refused writes nothing. *)
Lemma save_refused io conv temporal m s :
  store_wf s ->
  (exists e s', save_snapshot io base_dir conv temporal m s = (Raise e, s') /\
     same_files (files s) s') \/
  (saveable conv temporal m = true /\ exists loc,
     snap_loc (md_conversation_id m) (md_turn_number m) (md_branch_name m) = Some loc /\
     dirs_ok io loc.1 s).
Proof.
  intros Hs. unfold save_snapshot. destruct (saveable conv temporal m) eqn:Hsv.
  2:{ unfold saveable in Hsv. left. destruct (bool_decide (len conv = 0)); [by eexists _, _|].
      simpl in Hsv. rewrite Hsv. by eexists _, _. }
  destruct (saveable_inv _ _ _ Hsv) as [Hne Hv].
  rewrite bool_decide_false by (by destruct conv). rewrite Hv. cbn [negb].
  pose proof (snapshot_paths_same io (md_conversation_id m) (md_turn_number m)
    (md_branch_name m) (files s) s ltac:(by split)) as Hsame.
  destruct (get_snapshot_paths io base_dir (md_conversation_id m) (md_turn_number m)
    (md_branch_name m) s) as [[pr|e] s1] eqn:Hp.
  - right. split; [done|]. by eapply get_snapshot_paths_inv.
  - left. exists e, s1. split; [by erewrite bind_raise|done].
Qed.

Lemma save_outcomes io conv temporal m s :
  store_wf s ->
  let '(r, s') := save_snapshot io base_dir conv temporal m s in
  save_outcome io (files s) conv temporal m r (files s') /\ store_wf s'.
Proof.
  intros Hs. destruct (save_refused io conv temporal m s Hs)
    as [(e & s' & -> & Hf & Hw)|(Hsv & loc & Hl & Hd)].
  { rewrite Hf. split; [constructor|done]. }
  destruct (saveable_inv _ _ _ Hsv) as [Hne Hv].
  pose proof (snap_loc_wf _ _ _ _ Hl) as Hw.
  assert (forall r f', (forall p, p ∉ loc_files loc -> f' !! p = files s !! p) ->
    save_outcome io (files s) conv temporal m r f' ->
    save_outcome io (files s) conv temporal m r f' /\
    store_wf (mkFS (dirs (add_dirs loc.1 s)) f')) as Hboth.
  { intros r f' Hf Ho. split; [done|].
    apply (store_wf_files _ (add_dirs loc.1 s)); [by apply store_wf_add_dirs|].
    intros p Hp. destruct (decide (p ∈ loc_files loc)); [right; eauto 10|left]. by rewrite Hf in Hp. }
  pose proof (save_snapshot_run io base_dir conv temporal m loc s Hs Hne Hv Hl Hd) as Hrun.
  destruct (state_phase_ok io loc && meta_phase_ok io loc).
  - rewrite Hrun. apply Hboth; [intros p Hp; by apply saved_lookup_other|].
    apply (save_changed _ _ _ _ _ loc); [done..|intros p Hp; by apply saved_lookup_other|].
    apply saved_lookup.
  - destruct Hrun as (e & f' & -> & Hf). pose proof (sf_other _ _ _ _ _ _ Hf) as Ho.
    apply Hboth; [done|]. by apply (save_changed _ _ _ _ _ loc).
Qed.

(** The other calls write no file or only remove some. *)
Lemma preserves_same_wf {A} (c : M (FS T) A) :
  (forall f, preserves (same_files f) c) -> preserves store_wf c.
Proof. intros Hc s Hs. by apply (Hc (files s) s). Qed.

Lemma unlink_wf io q : preserves store_wf (unlink_if_exists io q : M (FS T) unit).
Proof.
  intros s Hs. unfold unlink_if_exists, exists_path, unlink_path. run_unfold.
  destruct (_ || _); [|done]. destruct (unlink_fault io q); [done|]. destruct (files s !! q); [|done].
  apply store_wf_files; [done|]. intros x Hx. left. apply lookup_delete_is_Some in Hx. by destruct Hx.
Qed.

Lemma delete_wf io cid turn branch :
  preserves store_wf (delete_snapshot io base_dir cid turn branch).
Proof.
  unfold delete_snapshot, exists_path. apply preserves_bind.
  { apply preserves_same_wf. intros f. apply snapshot_paths_same. }
  intros [mp sp]. do 2 (apply preserves_bind; [by auto with py|intros ?]).
  do 2 (apply preserves_bind; [apply unlink_wf|intros ?]). auto with py.
Qed.

Lemma from_json_preserves P p : preserves P (from_json p : M (FS T) _).
Proof. intros s Hs. unfold from_json. by repeat case_match. Qed.

Lemma read_blob_preserves P p : preserves P (read_blob p : M (FS T) _).
Proof. intros s Hs. unfold read_blob. by repeat case_match. Qed.

Hint Resolve from_json_preserves read_blob_preserves snapshot_paths_same conversation_dir_same : py.

Lemma load_same io cid turn branch f :
  preserves (same_files f) (load_snapshot io base_dir cid turn branch).
Proof.
  unfold load_snapshot, exists_path. apply preserves_bind; [by auto with py|]. intros [mp sp].
  repeat first [apply preserves_bind; [by auto with py|intros ?]
               |apply preserves_if; [by auto with py|]].
  destruct (dict_get _ _); auto 6 with py.
Qed.

Lemma list_same io cid f : preserves (same_files f) (list_snapshots io base_dir cid).
Proof. unfold list_snapshots. auto with py. Qed.

Lemma latest_same io cid f : preserves (same_files f) (get_latest_snapshot io base_dir cid).
Proof.
  unfold get_latest_snapshot. apply preserves_bind; [apply list_same|]. intros l.
  destruct (last l); [|by auto with py]. apply preserves_bind; [by auto with py|].
  intros [mp sp]. auto with py.
Qed.

Lemma preserves_fmap {S A B} (P : S -> Prop) (g : A -> B) (c : M S A) :
  preserves P c -> preserves P (g <$> c).
Proof.
  intros Hc s Hs. specialize (Hc s Hs). unfold fmap, M_fmap. by destruct (c s) as [[]].
Qed.

(** Every call of the manager, whatever fails, keeps the store well formed. *)
Lemma call_wf io o : preserves store_wf (call (T:=T) base_dir io o).
Proof.
  destruct o; simpl.
  - apply preserves_bind; [|by auto with py]. intros s Hs.
    pose proof (save_outcomes io conv temporal m s Hs) as Ho.
    destruct (save_snapshot _ _ _ _ _ _). by destruct Ho.
  - apply preserves_fmap, preserves_same_wf. intros f. apply load_same.
  - apply preserves_fmap, delete_wf.
  - apply preserves_fmap, preserves_same_wf. intros f. apply list_same.
  - apply preserves_fmap, preserves_same_wf. intros f. apply latest_same.
Qed.

(** The stores the manager can produce, each call under faults of its own. *)
Inductive store_reachable : FS T -> Prop :=
  | reach_empty : store_reachable empty_fs
  | reach_call io o s : store_reachable s -> store_reachable (call base_dir io o s).2.

Lemma reachable_wf s : store_reachable s -> store_wf s.
Proof. induction 1; [apply store_wf_empty|by apply call_wf]. Qed.

(** ** Confinement *)

(** A path component that names an entry of its directory: not empty, not
    [.] or [..], no separator. *)
Definition plain_name (c : string) : Prop :=
  c ≠ "" /\ c ≠ "." /\ c ≠ ".." /\
  str_all (fun x => negb (bool_decide (x = "/"%char))) c = true.

Definition no_slash (c : string) : bool := str_all (fun x => negb (bool_decide (x = "/"%char))) c.

Lemma match_component_no_slash seen c : match_component_go seen c = true -> no_slash c = true.
Proof.
  unfold no_slash. revert seen. induction c as [|x c IH]; intros seen; simpl; [done|].
  destruct (component_char x) eqn:Hx.
  - intros Hc. rewrite (IH _ Hc), andb_true_r, bool_decide_false; [done|]. by intros ->.
  - intros [[_ Hn]%andb_prop He]%andb_prop. apply bool_decide_eq_true in Hn, He. by subst.
Qed.

Lemma component_ok_no_slash c : component_ok c = true -> no_slash c = true.
Proof.
  unfold component_ok, match_component. intros Hc. repeat (apply andb_prop in Hc as [Hc ?]).
  by eapply match_component_no_slash.
Qed.

Lemma snap_loc_no_slash cid turn branch loc :
  snap_loc cid turn branch = Some loc ->
  no_slash loc.2 = true /\ exists c, no_slash c = true /\
    (loc.1 = [conv_dir_name c] \/ loc.1 = [conv_dir_name c; "branches"]).
Proof.
  unfold snap_loc. destruct (component_ok cid) eqn:Hc; [|done].
  apply component_ok_no_slash in Hc. destruct (truthy branch).
  - destruct (component_ok _) eqn:Hb; [|done]. apply component_ok_no_slash in Hb.
    intros [= <-]. eauto.
  - destruct turn as [n|]; [|done]. case_bool_decide; [done|]. intros [= <-]. simpl.
    split; [|eauto]. unfold no_slash. rewrite str_all_app. simpl.
    eapply str_all_impl; [|apply pretty_digits; lia]. intros x. by apply digit_ne.
Qed.

Lemma plain_app a b : no_slash a = true -> no_slash b = true -> (2 < String.length b)%nat ->
  plain_name (a +:+ b).
Proof.
  intros Ha Hb Hl. assert (2 < String.length (a +:+ b))%nat by (rewrite str_length_app; lia).
  split_and!; [by intros Hx; rewrite Hx in *; simpl in *; lia..|].
  rewrite str_all_app. unfold no_slash in *. by rewrite Ha, Hb.
Qed.

Lemma plain_app_l a b : no_slash a = true -> no_slash b = true -> (2 < String.length a)%nat ->
  plain_name (a +:+ b).
Proof.
  intros Ha Hb Hl. assert (2 < String.length (a +:+ b))%nat by (rewrite str_length_app; lia).
  split_and!; [by intros Hx; rewrite Hx in *; simpl in *; lia..|].
  rewrite str_all_app. unfold no_slash in *. by rewrite Ha, Hb.
Qed.

(** whatever conversation ids, branch names and turns the manager is
    called with, and whichever disk operations fail, every file it leaves lies
    inside the base directory: directly in a directory [conversation_<id>] or
    in its [branches] directory, and no component of its path is empty, [.],
    [..] or holds a path separator. *)
Theorem snapshot_paths_confined s p :
  store_reachable s -> is_Some (files s !! p) ->
  Forall plain_name p /\
  exists cid name, p = [conv_dir_name cid; name] \/ p = [conv_dir_name cid; "branches"; name].
Proof.
  intros [_ Hs]%reachable_wf Hp. destruct (Hs p Hp) as (cid & turn & branch & loc & Hl & Hin).
  destruct (snap_loc_no_slash _ _ _ _ Hl) as (Hst & c & Hc & Hd).
  assert (exists name, p = loc.1 ++ [name] /\ plain_name name) as (name & -> & Hname).
  { unfold loc_files in Hin. set_unfold in Hin. destruct_or? Hin; try done; subst p;
      (eexists; split; [reflexivity|]); apply plain_app; try done; simpl; lia. }
  assert (plain_name (conv_dir_name c)) as Hpc by (apply plain_app_l; [done..|simpl; lia]).
  destruct Hd as [-> | ->]; simpl; split; eauto.
  constructor; [done|]. constructor; [by split_and!|by constructor].
Qed.

(** ** Torn snapshots *)

(** A load looks at the two files of the place and at nothing else. *)
Lemma load_result_files cid turn branch loc s s' :
  store_wf s -> store_wf s' -> snap_loc cid turn branch = Some loc ->
  files s' !! meta_path loc = files s !! meta_path loc ->
  files s' !! state_path loc = files s !! state_path loc ->
  (load_snapshot no_faults base_dir cid turn branch s').1 =
  (load_snapshot no_faults base_dir cid turn branch s).1.
Proof.
  intros Hs Hs' Hl Hm Hst. pose proof (snap_loc_wf _ _ _ _ Hl) as Hw.
  assert (forall s0, store_wf s0 -> forall p, p ∈ loc_files loc ->
    bool_decide (p ∈ dirs (add_dirs loc.1 s0)) = false) as Hnd.
  { intros s0 Hs0 p Hp. apply bool_decide_false.
    apply (loc_files_not_dirs loc); [by apply store_wf_add_dirs|done|done]. }
  unfold load_snapshot.
  rewrite (bind_ok _ _ s _ _
    (get_snapshot_paths_ok _ base_dir _ _ _ _ s Hl (no_fault_dirs_ok loc s Hs Hw))).
  rewrite (bind_ok _ _ s' _ _
    (get_snapshot_paths_ok _ base_dir _ _ _ _ s' Hl (no_fault_dirs_ok loc s' Hs' Hw))).
  cbv beta iota.
  unfold exists_path, from_json, read_blob, try_except. run_unfold.
  rewrite !(Hnd s), !(Hnd s') by (done || unfold loc_files; set_solver).
  cbn -[collect_layers from_dict]. rewrite Hm.
  destruct (files s !! meta_path loc) as [cm|] eqn:Em; cbn -[collect_layers from_dict]; [|done].
  rewrite !(Hnd s), !(Hnd s') by (done || unfold loc_files; set_solver).
  cbn -[collect_layers from_dict]. rewrite Hst.
  destruct (files s !! state_path loc) as [cs|] eqn:Es; cbn -[collect_layers from_dict]; [|done].
  rewrite Hm, Em. destruct cm as [d|b|n]; cbn -[collect_layers from_dict]; try done.
  destruct (from_dict d) as [m|e]; cbn -[collect_layers]; [|done].
  rewrite Hst, Es. destruct cs as [d'|b|n]; cbn -[collect_layers]; try done.
  destruct (load_file b) as [dd|]; cbn -[collect_layers]; [|done].
  destruct (dict_get dd "temporal"); [|done].
  destruct (bool_decide _); [done|]. by destruct (is_valid _).
Qed.

(** A place with a metadata file and no state file. *)
Lemma load_no_state cid turn branch loc s :
  store_wf s -> snap_loc cid turn branch = Some loc -> files s !! state_path loc = None ->
  exists msg, (load_snapshot no_faults base_dir cid turn branch s).1 =
    Raise (Exn FileNotFoundError msg).
Proof.
  intros Hs Hl Hst. pose proof (snap_loc_wf _ _ _ _ Hl) as Hw.
  assert (state_path loc ∉ dirs (add_dirs loc.1 s)) as Hnd.
  { apply (loc_files_not_dirs loc); [by apply store_wf_add_dirs|done|set_solver]. }
  unfold load_snapshot.
  erewrite bind_ok; [|apply get_snapshot_paths_ok; [exact Hl|by apply no_fault_dirs_ok]].
  cbv beta iota. unfold exists_path. run_unfold. destruct (_ || _); simpl; [|by eauto].
  rewrite Hst, (bool_decide_false (is_Some None)) by (by intros [? ?]).
  rewrite bool_decide_false by done. simpl. eauto.
Qed.

(** C34: A save is all or nothing for those who load.  Whichever writes,
    renames, removals, [stat] calls and directory creations fail during
    [save_snapshot]: if it returns, loading its place gives back the very tensors
    and metadata it was given, and every other place loads as before.  If it
    raises, every other place loads as before, and so does its own, except that
    this may have become [FileNotFoundError] (the metadata write failed and the
    state file was removed); only if the [stat] of the new state file or its
    removal is what failed, the new state file is left beside the old
    metadata. *)
Theorem save_never_torn `{!StorageLaws T} io conv temporal m s cid turn branch loc :
  store_reachable s -> snap_loc cid turn branch = Some loc ->
  let load s0 := (load_snapshot no_faults base_dir cid turn branch s0).1 in
  let own := snap_loc (md_conversation_id m) (md_turn_number m) (md_branch_name m) in
  let '(r, s') := save_snapshot io base_dir conv temporal m s in
  match r with
  | Ok _ => load s' = if decide (own = Some loc) then Ok (conv, temporal, m) else load s
  | Raise _ => load s' = load s \/
      (own = Some loc /\ exists msg, load s' = Raise (Exn FileNotFoundError msg)) \/
      (own = Some loc /\ (stat_fault io (state_path loc) = true \/ unlink_fault io (state_path loc) = true) /\
       files s' !! state_path loc = Some (Blob (save_file (build_state_dict conv temporal))) /\
       files s' !! meta_path loc = files s !! meta_path loc)
  end.
Proof.
  intros Hs%reachable_wf Hl. cbv zeta. pose proof (save_outcomes io conv temporal m s Hs) as Ho.
  destruct (save_snapshot io base_dir conv temporal m s) as [r s']. destruct Ho as [Ho Hs'].
  inversion Ho as [e He Hf|loc' r' f' Hsv Hl' Hfr Hr]; subst.
  { left. apply (load_result_files _ _ _ loc); congruence. }
  destruct (decide (loc' = loc)) as [->|Hne].
  - destruct r as [pr|e].
    + rewrite decide_True by done. destruct Hr as [Hm Hst]. destruct (saveable_inv _ _ _ Hsv).
      rewrite (load_snapshot_run _ _ _ _ _ loc conv temporal m); try done.
      apply no_fault_dirs_ok; [done|by eapply snap_loc_wf].
    + destruct Hr as [_ Hm [Hst|[Hst|[Hst Hx]]]]; [left; by apply (load_result_files _ _ _ loc)|right; left|right; right; done].
      split; [done|]. by apply (load_no_state _ _ _ loc).
  - assert (forall p, p ∈ [meta_path loc; state_path loc] -> files s' !! p = files s !! p) as Hsame.
    { intros p Hp. apply Hfr. by apply (loc_files_disjoint loc' loc). }
    assert ((load_snapshot no_faults base_dir cid turn branch s').1 =
      (load_snapshot no_faults base_dir cid turn branch s).1) as Heq
      by (apply (load_result_files _ _ _ loc); try done; apply Hsame; set_solver).
    destruct r; [rewrite decide_False by congruence|left]; done.
Qed.
End faults.

(** ** Witnesses *)

Definition meta_of (cid : string) (turn : Z) : MambaSnapshotMetadata :=
  mkMeta cid (Some turn) 0 3 "m" 1 1 [] None None None (Some [1; 2; 3]).

Definition t_of (n : Z) : ctensor := CState float32 [[Fin n; Fin 1]].

Definition demo_ops : list op :=
  [OSave [t_of 1] (t_of 2) (meta_of "a" 10); OSave [t_of 3; t_of 4] (t_of 5) (meta_of "a" 2);
   OSave [] (t_of 5) (meta_of "a" 2); OSave [t_of 3] (t_of 5) (meta_of "../x" 2);
   OLoad "a" (Some 2) None; OLoad "a" (Some 3) None; OLoad "a" None None;
   OList "a"; OLatest "a"; ODelete "a" (Some 10) None; ODelete "a" (Some 10) None;
   OLatest "a"; OLatest "b"].

Lemma snapshot_store_refines_witness :
  exists A, spec_run demo_ops ∅
    [RUnit; RUnit; RErr ValueError; RErr ValueError;
     RSnap ([t_of 3; t_of 4], t_of 5, meta_of "a" 2); RErr FileNotFoundError; RErr ValueError;
     RTurns [2; 10]; RLatest (Some (10, meta_of "a" 10)); RBool true; RBool false;
     RLatest (Some (2, meta_of "a" 2)); RLatest None] A.
Proof.
  destruct (snapshot_store_refines "/srv" demo_ops) as (A & Hrun & _). exists A.
  match type of Hrun with spec_run _ _ ?o _ =>
    match goal with |- spec_run _ _ ?o' _ =>
      assert (o = o') as Heq by (vm_compute; reflexivity) end end.
  rewrite Heq in Hrun. exact Hrun.
Defined.

Definition demo_store : FS ctensor :=
  (call "/srv" no_faults (OSave [t_of 1] (t_of 2) (meta_of "a" 10)) empty_fs).2.

Lemma demo_store_reachable : store_reachable "/srv" demo_store.
Proof. apply reach_call, reach_empty. Qed.

Lemma snapshot_paths_confined_witness :
  is_Some (files demo_store !! ["conversation_a"; "turn_10_metadata.json"]) /\
  Forall plain_name ["conversation_a"; "turn_10_metadata.json"].
Proof.
  assert (is_Some (files demo_store !! ["conversation_a"; "turn_10_metadata.json"])) as Hs
    by (vm_compute; eauto).
  split; [exact Hs|].
  exact (proj1 (snapshot_paths_confined "/srv" demo_store _ demo_store_reachable Hs)).
Defined.

(** The disk refuses to write metadata files. *)
Definition bad_meta_io : IOEnv :=
  mkIO (fun p => if bool_decide (last p = Some "turn_10_metadata.json.tmp")
                 then FaultPartial 7 else NoFault) (fun _ => false) (fun _ => false) (fun _ => false) (fun _ => false).

Definition demo_load (s : FS ctensor) : res (list ctensor * ctensor * MambaSnapshotMetadata) :=
  (load_snapshot no_faults "/srv" "a" (Some 10) None s).1.

Definition demo_overwrite : res (path * path) * FS ctensor :=
  save_snapshot bad_meta_io "/srv" [t_of 7] (t_of 8) (meta_of "a" 10) demo_store.

Definition raises {A} (r : res A) : bool := match r with Raise _ => true | Ok _ => false end.

(** Overwriting turn 10 on that disk loses it, and the load says so. *)
Lemma save_never_torn_witness :
  demo_load demo_store = Ok ([t_of 1], t_of 2, meta_of "a" 10) /\
  raises demo_overwrite.1 = true /\
  exists msg, demo_load demo_overwrite.2 = Raise (Exn FileNotFoundError msg).
Proof.
  assert (demo_load demo_store = Ok ([t_of 1], t_of 2, meta_of "a" 10)) as F1
    by (vm_compute; reflexivity).
  assert (raises demo_overwrite.1 = true) as F2 by (vm_compute; reflexivity).
  assert (raises (demo_load demo_overwrite.2) = true) as F3 by (vm_compute; reflexivity).
  split; [exact F1|]. split; [exact F2|].
  assert (snap_loc "a" (Some 10) None = Some (["conversation_a"], "turn_10")) as Hl
    by (vm_compute; reflexivity).
  pose proof (save_never_torn "/srv" bad_meta_io [t_of 7] (t_of 8) (meta_of "a" 10) demo_store
    "a" (Some 10) None _ demo_store_reachable Hl) as Hx.
  cbv zeta in Hx. fold demo_overwrite in Hx. unfold demo_load in *.
  destruct demo_overwrite as [[pr|e] s']; [discriminate F2|].
  destruct Hx as [Hx|[[_ Hx]|(_ & Hx & _)]]; [|exact Hx|destruct Hx as [Hx|Hx]; discriminate Hx].
  cbn [snd] in F3. rewrite Hx, F1 in F3. discriminate F3.
Defined.

(** The [stat] that is only there for a log line fails after the rename: turn 10
    is left with the new tensors and the metadata of the old save, and loads as
    if that had been saved. *)
Definition bad_stat_io : IOEnv :=
  mkIO (fun _ => NoFault) (fun _ => false) (fun _ => false) (fun _ => false) (fun _ => true).

Definition longer_meta : MambaSnapshotMetadata :=
  mkMeta "a" (Some 10) 0 4 "m" 1 1 [] None None None (Some [1; 2; 3; 4]).

Lemma stat_fault_tears :
  let s' := save_snapshot bad_stat_io "/srv" [t_of 7] (t_of 8) longer_meta demo_store in
  raises s'.1 = true /\ demo_load s'.2 = Ok ([t_of 7], t_of 8, meta_of "a" 10).
Proof. vm_compute. done. Qed.
