(* ===== verification/StoreInterface.v ===== *)
(** * What the snapshot manager promises to its clients

    The retention policy, the tier manager and the scheduler's handlers are
    given a snapshot manager and only call its methods.  [SnapshotManager]
    lists those methods, [SnapshotManagerLaws] says that they behave like the
    finite map of SnapshotSpec.v; the theorems about the clients are proved
    against this interface, and [disk_manager] with [disk_manager_laws] is the
    implementation of mamba_snapshot.py on a disk that does not fail. *)

From S2P Require Import Prelude PyDict PyText Torch Metadata SnapshotStore SnapshotFacts.
From S2P Require Import SnapshotSpec SnapshotFaults.

Class SnapshotManager (S T : Type) := {
  sm_save : list T -> T -> MambaSnapshotMetadata -> M S (path * path);
  sm_load : string -> option Z -> option string -> M S (list T * T * MambaSnapshotMetadata);
  sm_delete : string -> option Z -> option string -> M S bool;
  sm_list : string -> M S (list Z);
  sm_latest : string -> M S (option (Z * MambaSnapshotMetadata));
  sm_branches : string -> M S (list string);
  sm_size : string -> option Z -> option string -> M S Z;
  sm_metadata : string -> option Z -> option string -> M S (option MambaSnapshotMetadata);
  sm_conversations : M S (list string);
}.

Definition sm_call {S T} `{SnapshotManager S T} (o : op (T:=T)) : M S (out (T:=T)) :=
  match o with
  | OSave conv temporal m => sm_save conv temporal m ≫= fun _ => mret RUnit
  | OLoad cid turn branch => RSnap <$> sm_load cid turn branch
  | ODelete cid turn branch => RBool <$> sm_delete cid turn branch
  | OList cid => RTurns <$> sm_list cid
  | OLatest cid => RLatest <$> sm_latest cid
  end.

Class SnapshotManagerLaws (S T : Type) `{Torch T} `{SnapshotManager S T} := {
  represents : S -> gmap (path * string) (snapshot T) -> Prop;
  sm_refines o s A : represents s A -> exists A',
    spec_step o A (out_of (sm_call o s).1) A' /\ represents (sm_call o s).2 A';
  (** everything stored has passed validation *)
  sm_stored_valid s A cid turn branch loc conv temporal m :
    represents s A -> snap_loc cid turn branch = Some loc ->
    A !! loc = Some (conv, temporal, m) -> saveable conv temporal m = true;
}.

(** ** The laws, method by method *)

Section client.
Context {S T : Type} `{Torch T} `{!SnapshotManager S T} `{!SnapshotManagerLaws S T}.
Implicit Types (s : S) (A : gmap (path * string) (snapshot T)).

Lemma sm_list_spec cid s A :
  represents s A -> component_ok cid = true ->
  exists l s', sm_list cid s = (Ok l, s') /\ lists_turns A cid l /\ represents s' A.
Proof.
  intros Hr Hc. destruct (sm_refines (OList cid) s A Hr) as (A' & Hst & Hr').
  cbn [sm_call] in *. rewrite fmap_run in *. destruct (sm_list cid s) as [[l|e] s'];
    simpl in *; inversion Hst; subst; [|congruence..]. eauto.
Qed.

Lemma sm_list_err cid s A :
  represents s A -> component_ok cid = false ->
  exists e s', sm_list cid s = (Raise e, s') /\ represents s' A.
Proof.
  intros Hr Hc. destruct (sm_refines (OList cid) s A Hr) as (A' & Hst & Hr').
  cbn [sm_call] in *. rewrite fmap_run in *. destruct (sm_list cid s) as [[l|e] s'];
    simpl in *; inversion Hst; subst; [congruence..|]. eauto.
Qed.

Lemma sm_delete_turn cid n s A :
  represents s A -> component_ok cid = true -> 0 <= n ->
  exists s', sm_delete cid (Some n) None s = (Ok (bool_decide (is_Some (A !! turn_loc cid n))), s') /\
    represents s' (delete (turn_loc cid n) A).
Proof.
  intros Hr Hc Hn. destruct (sm_refines (ODelete cid (Some n) None) s A Hr) as (A' & Hst & Hr').
  pose proof (snap_loc_turn cid n Hc Hn) as Hl.
  cbn [sm_call] in *. rewrite fmap_run in *. destruct (sm_delete cid (Some n) None s) as [[l|e] s'];
    simpl in *; inversion Hst; subst; simplify_eq; eauto.
Qed.

Lemma sm_load_spec cid turn branch loc s A :
  represents s A -> snap_loc cid turn branch = Some loc ->
  exists r s', sm_load cid turn branch s = (r, s') /\ represents s' A /\
    match A !! loc with
    | Some x => r = Ok x
    | None => exists msg, r = Raise (Exn FileNotFoundError msg)
    end.
Proof.
  intros Hr Hl. destruct (sm_refines (OLoad cid turn branch) s A Hr) as (A' & Hst & Hr').
  cbn [sm_call] in *. rewrite fmap_run in *.
  destruct (sm_load cid turn branch s) as [[x|[c msg]] s']; simpl in *; eexists _, s';
    (split; [reflexivity|]); inversion Hst; subst; simplify_eq; (split; [done|]).
  - by simplify_option_eq.
  - simplify_option_eq. eauto.
Qed.

Lemma sm_save_spec conv temporal m loc s A :
  represents s A -> saveable conv temporal m = true ->
  snap_loc (md_conversation_id m) (md_turn_number m) (md_branch_name m) = Some loc ->
  exists pr s', sm_save conv temporal m s = (Ok pr, s') /\
    represents s' (<[loc := (conv, temporal, m)]> A).
Proof.
  intros Hr Hs Hl. destruct (sm_refines (OSave conv temporal m) s A Hr) as (A' & Hst & Hr').
  cbn [sm_call] in *. destruct (sm_save conv temporal m s) as [[pr|e] s'] eqn:E.
  - rewrite (bind_ok _ _ _ _ _ E) in Hst, Hr'. simpl in *. inversion Hst; subst.
    simplify_eq. eauto.
  - rewrite (bind_raise _ _ _ _ _ E) in Hst, Hr'. simpl in *. inversion Hst; subst.
    naive_solver congruence.
Qed.

(** A refused save changes nothing. *)
Lemma sm_save_err conv temporal m s A :
  represents s A ->
  saveable conv temporal m = false \/
    snap_loc (md_conversation_id m) (md_turn_number m) (md_branch_name m) = None ->
  exists msg s', sm_save conv temporal m s = (Raise (Exn ValueError msg), s') /\ represents s' A.
Proof.
  intros Hr Hbad. destruct (sm_refines (OSave conv temporal m) s A Hr) as (A' & Hst & Hr').
  cbn [sm_call] in *. destruct (sm_save conv temporal m s) as [[pr|[c msg]] s'] eqn:E.
  - rewrite (bind_ok _ _ _ _ _ E) in Hst, Hr'. simpl in *. inversion Hst; subst.
    naive_solver congruence.
  - rewrite (bind_raise _ _ _ _ _ E) in Hst, Hr'. simpl in *. inversion Hst; subst. eauto.
Qed.

Lemma sm_latest_spec cid s A :
  represents s A -> component_ok cid = true ->
  exists r s', sm_latest cid s = (Ok r, s') /\ represents s' A /\
    match r with
    | None => lists_turns A cid []
    | Some (n, m) => exists l conv temporal, lists_turns A cid (l ++ [n]) /\
        A !! turn_loc cid n = Some (conv, temporal, m)
    end.
Proof.
  intros Hr Hc. destruct (sm_refines (OLatest cid) s A Hr) as (A' & Hst & Hr').
  cbn [sm_call] in *. rewrite fmap_run in *. destruct (sm_latest cid s) as [[x|e] s'];
    simpl in *; inversion Hst; subst; try congruence; eexists _, s';
    (split; [reflexivity|]); (split; [done|]); eauto 6.
Qed.

(** Without knowing whether the request is well formed. *)
Lemma sm_load_any cid turn branch s A :
  represents s A -> exists r s', sm_load cid turn branch s = (r, s') /\ represents s' A /\
    match snap_loc cid turn branch ≫= fun loc => A !! loc with
    | Some snap => r = Ok snap
    | None => exists e, r = Raise e /\
        (exn_type e = FileNotFoundError \/ exn_type e = ValueError)
    end.
Proof.
  intros Hr. destruct (sm_refines (OLoad cid turn branch) s A Hr) as (A' & Hst & Hr').
  cbn [sm_call] in *. rewrite fmap_run in *.
  destruct (sm_load cid turn branch s) as [[snap|[c msg]] s'] eqn:E; simpl in *;
    inversion Hst as [| |? ? ? loc ? ? Hl Hlk|? ? ? loc ? Hl Hlk|? ? ? ? Hl| | | | | | |]; subst;
    eexists _, s'; (split; [reflexivity|]); (split; [done|]); rewrite Hl; simpl;
    rewrite ?Hlk; eauto.
Qed.

Lemma sm_latest_any cid s A :
  represents s A -> exists r s', sm_latest cid s = (r, s') /\ represents s' A /\
    (forall n m, r = Ok (Some (n, m)) -> component_ok cid = true /\ exists l, lists_turns A cid (l ++ [n])).
Proof.
  intros Hr. destruct (sm_refines (OLatest cid) s A Hr) as (A' & Hst & Hr').
  cbn [sm_call] in *. rewrite fmap_run in *. destruct (sm_latest cid s) as [[y|e] s'];
    simpl in *; inversion Hst; subst; eexists _, s'; (split; [reflexivity|]); (split; [done|]);
    naive_solver.
Qed.
End client.

(** ** The implementation *)

Section disk.
Context {T : Type} `{Torch T} `{Storage T}.

Definition disk_manager (io : IOEnv) (base_dir : string) : SnapshotManager (FS T) T := {|
  sm_save := save_snapshot io base_dir;
  sm_load := load_snapshot io base_dir;
  sm_delete := delete_snapshot io base_dir;
  sm_list := list_snapshots io base_dir;
  sm_latest := get_latest_snapshot io base_dir;
  sm_branches := list_branches io base_dir;
  sm_size := get_snapshot_size io base_dir;
  sm_metadata := load_metadata io base_dir;
  sm_conversations := list_conversations;
|}.

Definition disk_manager_laws `{!StorageLaws T} (base_dir : string) :
  @SnapshotManagerLaws (FS T) T _ (disk_manager no_faults base_dir) :=
  @Build_SnapshotManagerLaws (FS T) T _ (disk_manager no_faults base_dir) abstracts
    (fun o => match o with
              | OSave c t m => save_refines base_dir c t m
              | OLoad c t b => load_refines base_dir c t b
              | ODelete c t b => delete_refines base_dir c t b
              | OList c => list_refines base_dir c
              | OLatest c => latest_refines base_dir c
              end)
    (fun s A c t b loc => abstracts_valid s A c t b loc).
End disk.

(** ** A small disk for the witnesses

    The implementation on concrete tensors, and a store with three turns of one
    conversation, together with the finite map it stands for. *)

#[global] Instance demo_manager : SnapshotManager (FS ctensor) ctensor :=
  disk_manager no_faults "/srv".

#[global] Instance demo_manager_laws : SnapshotManagerLaws (FS ctensor) ctensor :=
  disk_manager_laws "/srv".

(** A store with the turns 1, 4 and 9 of conversation [a]. *)
Definition demo_save (n : Z) (s : FS ctensor) : FS ctensor :=
  (call "/srv" no_faults (OSave [t_of 1] (t_of n) (meta_of "a" n)) s).2.

Definition demo_disk : FS ctensor := demo_save 9 (demo_save 1 (demo_save 4 empty_fs)).

Definition demo_map : gmap (path * string) (snapshot ctensor) :=
  list_to_map ((fun n => (turn_loc "a" n, ([t_of 1], t_of n, meta_of "a" n))) <$> [9; 1; 4]).

Lemma demo_save_map n s A :
  abstracts s A -> 0 <= n -> abstracts (demo_save n s)
    (<[turn_loc "a" n := ([t_of 1], t_of n, meta_of "a" n)]> A).
Proof.
  intros Ha Hn. destruct (save_refines "/srv" [t_of 1] (t_of n) (meta_of "a" n) s A Ha)
    as (A' & Hst & Ha').
  assert (snap_loc "a" (Some n) None = Some (turn_loc "a" n)) as Hl by (by apply snap_loc_turn).
  assert (saveable [t_of 1] (t_of n) (meta_of "a" n) = true) as Hsv.
  { unfold saveable. simpl. by rewrite andb_false_r. }
  inversion Hst; subst; [|naive_solver congruence]. simpl in *. by simplify_eq.
Qed.

Lemma demo_disk_map : abstracts demo_disk demo_map.
Proof. do 3 (apply demo_save_map; [|lia]). apply abstracts_empty. Qed.

Lemma demo_turns : lists_turns demo_map "a" [1; 4; 9].
Proof.
  split; [repeat constructor|]. intros n.
  assert (is_Some (demo_map !! turn_loc "a" n) <-> n ∈ [9; 1; 4]) as ->; [|set_solver by lia].
  unfold demo_map. rewrite <- not_eq_None_Some, <- not_elem_of_list_to_map.
  rewrite <- list_fmap_compose. unfold compose. simpl.
  split; [intros Hn|intros Hn Hx; apply Hx].
  - destruct (decide (n ∈ [9; 1; 4])) as [?|Hno]; [done|]. exfalso. apply Hn. intros Hin. apply Hno.
    set_unfold in Hin. set_unfold. destruct_or? Hin; try done; apply turn_loc_inj in Hin; tauto.
  - set_unfold in Hn. set_unfold. destruct_or? Hn; subst; tauto.
Qed.

Lemma demo_represents : represents demo_disk demo_map.
Proof. exact demo_disk_map. Qed.
