(* ===== verification/Policy.v ===== *)
(** * SnapshotRetentionPolicy (snapshot/snapshot_policy.py)

    When to take a snapshot and which old ones to prune.  The policy keeps a
    configuration and the time of the last snapshot of each conversation; the
    snapshots themselves are behind the [SnapshotManager] interface, so the
    methods that touch them are code over the manager's state. *)

From S2P Require Import Prelude PyDict Torch Metadata SnapshotStore SnapshotFacts.
From S2P Require Import SnapshotSpec StoreInterface SnapshotFaults.

Inductive SnapshotTriggerPolicy :=
  | EVERY_TURN
  | EVERY_N_TURNS
  | ON_TOOL_CALL
  | MANUAL_ONLY.

Record SnapshotRetentionConfig := mkRetention {
  max_snapshots_per_conversation : Z;
  snapshot_trigger_policy : SnapshotTriggerPolicy;
  snapshot_every_n_turns : Z;
  enable_auto_pruning : bool;
  min_snapshot_interval_seconds : Z;
  keep_named_branches : bool;
}.

Record SnapshotRetentionPolicy := mkPolicy {
  config : SnapshotRetentionConfig;
  last_snapshot_time : dict string Z;
}.

Definition policy_init (c : SnapshotRetentionConfig) : SnapshotRetentionPolicy := mkPolicy c [].

(** The attributes of the request object the policy looks for. *)
Record PolicyReq := mkPolicyReq {
  preq_conversation_id : option string;
  preq_rid : option string;
}.

(** The id under which a request is throttled. *)
Definition policy_key (req : PolicyReq) (conversation_id : option string) : string :=
  match conversation_id with
  | Some c => c
  | None =>
      match preq_conversation_id req with
      | Some c => c
      | None => match preq_rid req with Some r => r | None => "default" end
      end
  end.

Definition should_snapshot (now : Z) (req : PolicyReq) (turn_number : Z)
    (conversation_id : option string) (additional_context : option pydict)
    (p : SnapshotRetentionPolicy) : res bool :=
  let key := policy_key req conversation_id in
  let last_time := match dict_get (last_snapshot_time p) key with Some t => t | None => 0 end in
  if bool_decide (now - last_time < min_snapshot_interval_seconds (config p)) then Ok false
  else match snapshot_trigger_policy (config p) with
       | MANUAL_ONLY => Ok false
       | EVERY_TURN => Ok true
       | EVERY_N_TURNS =>
           let n := snapshot_every_n_turns (config p) in
           if bool_decide (n = 0) then Raise (Exn ZeroDivisionError "integer modulo by zero")
           else Ok (bool_decide (turn_number mod n = 0))
       | ON_TOOL_CALL =>
           match additional_context with
           | Some d => Ok (dict_truthy d && val_truthy (get_default d "tool_call_made" (VBool false)))
           | None => Ok false
           end
       end.

Definition mark_snapshot_taken (now : Z) (conversation_id : string)
    (p : SnapshotRetentionPolicy) : SnapshotRetentionPolicy :=
  mkPolicy (config p) (dict_set (last_snapshot_time p) conversation_id now).

(** What the trigger policy asks for, apart from the throttle. *)
Definition triggered (turn_number : Z) (ctx : option pydict) (c : SnapshotRetentionConfig) : Prop :=
  match snapshot_trigger_policy c with
  | MANUAL_ONLY => False
  | EVERY_TURN => True
  | EVERY_N_TURNS => (snapshot_every_n_turns c | turn_number)
  | ON_TOOL_CALL => exists d v, ctx = Some d /\ dict_get d "tool_call_made" = Some v /\
      val_truthy v = true
  end.

Definition last_time (p : SnapshotRetentionPolicy) (key : string) : Z :=
  match dict_get (last_snapshot_time p) key with Some t => t | None => 0 end.

(** A snapshot is asked for exactly when the minimum interval since the
    last one of that conversation has passed and the trigger policy fires
    (every turn; turns divisible by N; a tool call in the context; never), the
    only error is a zero N; and marking a snapshot silences that conversation,
    and no other, for the minimum interval. *)
Theorem should_snapshot_spec now req turn cid ctx p :
  let key := policy_key req cid in
  let c := config p in
  (snapshot_trigger_policy c = EVERY_N_TURNS -> snapshot_every_n_turns c ≠ 0) ->
  (exists b, should_snapshot now req turn cid ctx p = Ok b /\
     (b = true <-> min_snapshot_interval_seconds c <= now - last_time p key /\ triggered turn ctx c)) /\
  forall t k, now - t < min_snapshot_interval_seconds c ->
    should_snapshot now req turn cid ctx (mark_snapshot_taken t k p) =
      if bool_decide (k = key) then Ok false else should_snapshot now req turn cid ctx p.
Proof.
  intros key c Hn. split.
  - unfold should_snapshot, triggered, last_time. fold key c.
    case_bool_decide as Hi; [exists false; split; [done|]; split; [done|lia]|].
    destruct (snapshot_trigger_policy c) eqn:Ep.
    + exists true. split; [done|]. split; [|done]. intros _. split; [lia|done].
    + rewrite bool_decide_false by (by apply Hn). eexists. split; [done|].
      rewrite bool_decide_eq_true, Z.mod_divide by (by apply Hn).
      split; [intros Hd; split; [lia|done]|by intros []].
    + destruct ctx as [d|]; [|exists false; split; [done|]; naive_solver].
      eexists. split; [done|]. unfold get_default.
      destruct (dict_get d "tool_call_made") as [v|] eqn:Ed.
      * destruct d as [|kv d]; [done|]. simpl. split.
        -- intros Hv. split; [lia|]. by eexists _, v.
        -- intros (_ & d' & v' & [= <-] & Hv & ?). congruence.
      * rewrite andb_false_r. split; [done|]. intros (_ & d' & v' & [= <-] & Hv & ?). congruence.
    + exists false. split; [done|]. naive_solver.
  - intros t k Ht. unfold should_snapshot. simpl. fold key c.
    destruct (decide (k = key)) as [Hk|Hk].
    + rewrite (bool_decide_true (k = key)), Hk, dict_get_set_eq by done.
      by rewrite bool_decide_true.
    + rewrite (bool_decide_false (k = key)) by done. by rewrite dict_get_set_ne.
Qed.

Section policy.
Context {S T : Type} `{Torch T} `{!SnapshotManager S T}.
Implicit Types (cfg : SnapshotRetentionConfig).

(** [try: delete(x); deleted += 1  except Exception: log], over a list. *)
Fixpoint delete_each {X} (del : X -> M S bool) (l : list X) (deleted : Z) : M S Z :=
  match l with
  | [] => mret deleted
  | x :: l' =>
      n ← try_except (del x ≫= fun _ => mret (deleted + 1)) (fun _ => mret deleted);
      delete_each del l' n
  end.

Definition prune_old_snapshots cfg (conversation_id : string) : M S Z :=
  if negb (enable_auto_pruning cfg) then mret 0
  else
  snapshots ← sm_list conversation_id;
  if bool_decide (len snapshots <= max_snapshots_per_conversation cfg) then mret 0
  else
  let to_delete := len snapshots - max_snapshots_per_conversation cfg in
  delete_each (fun turn => sm_delete conversation_id (Some turn) None)
    (take (Z.to_nat to_delete) (merge_sort Z.le snapshots)) 0.

(** [create_branch] after the source turn is known. *)
Definition branch_from (now : Z) (conversation_id branch_name : string) (source_turn : Z) :
    M S bool :=
  src ← try_except (Some <$> sm_load conversation_id (Some source_turn) None) (fun _ => mret None);
  match src with
  | None => mret false
  | Some (conv_states, temporal_states, source_metadata) =>
      let branch_metadata :=
        mkMeta conversation_id (md_turn_number source_metadata) now
          (md_token_count source_metadata) (md_model_name source_metadata)
          (md_mamba_pool_idx source_metadata) (md_req_pool_idx source_metadata)
          (md_layer_config source_metadata) None (Some branch_name)
          (Some ("turn_" +:+ pretty source_turn)) None in
      try_except
        (sm_save conv_states temporal_states branch_metadata ≫= fun _ => mret true)
        (fun _ => mret false)
  end.

Definition create_branch (now : Z) (conversation_id branch_name : string)
    (source_turn : option Z) : M S bool :=
  match source_turn with
  | None =>
      latest ← sm_latest conversation_id;
      match latest with
      | None => mret false
      | Some (turn, _) => branch_from now conversation_id branch_name turn
      end
  | Some turn => branch_from now conversation_id branch_name turn
  end.

Definition delete_branch (conversation_id branch_name : string) : M S bool :=
  try_except (sm_delete conversation_id None (Some branch_name) ≫= fun _ => mret true)
    (fun _ => mret false).

Definition policy_list_branches (conversation_id : string) : M S (list string) :=
  sm_branches conversation_id.

(** [for x in l: total += size(x)] *)
Fixpoint add_sizes {X} (size : X -> M S Z) (l : list X) (total : Z) : M S Z :=
  match l with
  | [] => mret total
  | x :: l' => n ← size x; add_sizes size l' (total + n)
  end.

Definition get_total_snapshot_size (conversation_id : string) : M S Z :=
  turns ← sm_list conversation_id;
  total ← add_sizes (fun turn => sm_size conversation_id (Some turn) None) turns 0;
  branches ← sm_branches conversation_id;
  add_sizes (fun b => sm_size conversation_id None (Some b)) branches total.

Definition cleanup_all_snapshots (conversation_id : string) : M S Z :=
  turns ← sm_list conversation_id;
  deleted ← delete_each (fun turn => sm_delete conversation_id (Some turn) None) turns 0;
  branches ← sm_branches conversation_id;
  delete_each (fun b => sm_delete conversation_id None (Some b)) branches deleted.

(** ** Pruning *)

Context `{!SnapshotManagerLaws S T}.
Implicit Types (s : S) (A : gmap (path * string) (snapshot T)).

(** [A] without the given turns of a conversation. *)
Definition without_turns (cid : string) (l : list Z) A : gmap (path * string) (snapshot T) :=
  foldl (fun A n => delete (turn_loc cid n) A) A l.

Lemma delete_each_turns cid l k s A :
  represents s A -> component_ok cid = true -> Forall (fun n => 0 <= n) l ->
  exists s', delete_each (fun turn => sm_delete cid (Some turn) None) l k s = (Ok (k + len l), s') /\
    represents s' (without_turns cid l A).
Proof.
  intros Hr Hc Hl. revert k s A Hr. induction Hl as [|n l Hn _ IH]; intros k s A Hr; simpl.
  { exists s. split; [|done]. unfold mret, M_ret. do 2 f_equal. unfold len. simpl. lia. }
  destruct (sm_delete_turn cid n s A Hr Hc Hn) as (s1 & Hd & Hr1).
  erewrite bind_ok; [|apply try_ok; erewrite bind_ok by exact Hd; reflexivity].
  destruct (IH (k + 1) s1 _ Hr1) as (s2 & Hrun & Hr2). exists s2. split; [|done].
  rewrite Hrun. do 2 f_equal. unfold len. simpl. lia.
Qed.

Lemma without_turns_lookup cid l A loc :
  without_turns cid l A !! loc =
    if bool_decide (loc ∈ turn_loc cid <$> l) then None else A !! loc.
Proof.
  revert A. induction l as [|n l IH]; intros A; [done|].
  change (without_turns cid (n :: l) A) with (without_turns cid l (delete (turn_loc cid n) A)).
  rewrite IH, fmap_cons.
  destruct (decide (loc = turn_loc cid n)) as [->|Hne].
  - rewrite (bool_decide_true (_ ∈ _ :: _)) by set_solver. case_bool_decide; [done|].
    by rewrite lookup_delete_eq.
  - rewrite lookup_delete_ne by done.
    rewrite (bool_decide_ext (loc ∈ turn_loc cid n :: (turn_loc cid <$> l))
      (loc ∈ turn_loc cid <$> l)) by set_solver. done.
Qed.

Lemma without_turns_lists cid l1 l2 A :
  lists_turns A cid (l1 ++ l2) -> lists_turns (without_turns cid l1 A) cid l2.
Proof.
  intros [Hs Hl]. destruct (StronglySorted_app_inv _ _ _ Hs) as [Hs2 Hlt]. split; [done|].
  intros n. rewrite without_turns_lookup. assert (turn_loc cid n ∈ turn_loc cid <$> l1 <-> n ∈ l1) as Hiff.
  { rewrite list_elem_of_fmap. split; [|by eauto]. by intros (n' & ->%turn_loc_inj & ?). }
  rewrite (bool_decide_ext _ _ Hiff). case_bool_decide as Hin.
  - split; [intros H2; specialize (Hlt n n Hin H2); lia|]. by intros [_ [? ?]].
  - rewrite <- Hl. set_solver.
Qed.

(** A run with the turns [old ++ kept] on disk. *)
Lemma prune_run cfg cid old kept s A :
  represents s A -> component_ok cid = true -> enable_auto_pruning cfg = true ->
  lists_turns A cid (old ++ kept) ->
  len old = Z.min (len (old ++ kept))
              (Z.max 0 (len (old ++ kept) - max_snapshots_per_conversation cfg)) ->
  exists s', prune_old_snapshots cfg cid s = (Ok (len old), s') /\
    represents s' (without_turns cid old A).
Proof.
  intros Hr Hc He Hlt Hold. destruct (sm_list_spec cid s A Hr Hc) as (l & s1 & Hl & Hlt1 & Hr1).
  pose proof (lists_turns_unique _ _ _ _ Hlt Hlt1) as <-.
  unfold prune_old_snapshots. rewrite He. simpl. erewrite bind_ok by exact Hl.
  case_bool_decide as Hb.
  - assert (old = []) as -> by (destruct old; [done|unfold len in *; simpl in *; lia]).
    by exists s1.
  - rewrite merge_sort_sorted_id by apply Hlt.
    assert (take (Z.to_nat (len (old ++ kept) - max_snapshots_per_conversation cfg)) (old ++ kept) = old)
      as ->.
    { destruct (decide (max_snapshots_per_conversation cfg < 0)).
      - assert (kept = []) as -> by (destruct kept; [done|unfold len in *; rewrite length_app in *; simpl in *; lia]).
        rewrite app_nil_r in *. apply take_ge. unfold len in *. lia.
      - replace (Z.to_nat _) with (length old) by (unfold len in *; rewrite length_app in *; lia).
        apply take_app_length. }
    destruct (delete_each_turns cid old 0 s1 A Hr1 Hc) as (s' & Hrun & Hr'); [|by eauto].
    apply lists_turns_nonneg in Hlt. by apply Forall_app in Hlt as [? _].
Qed.

Lemma prune_newest cfg cid s A :
  represents s A -> component_ok cid = true -> enable_auto_pruning cfg = true ->
  0 <= max_snapshots_per_conversation cfg ->
  exists old kept s',
    lists_turns A cid (old ++ kept) /\
    len kept = Z.min (len (old ++ kept)) (max_snapshots_per_conversation cfg) /\
    prune_old_snapshots cfg cid s = (Ok (len old), s') /\
    represents s' (without_turns cid old A) /\ lists_turns (without_turns cid old A) cid kept /\
    (forall loc, loc ∉ turn_loc cid <$> old -> without_turns cid old A !! loc = A !! loc).
Proof.
  intros Hr Hc He Hmax. set (mx := max_snapshots_per_conversation cfg) in *.
  destruct (sm_list_spec cid s A Hr Hc) as (l & _ & _ & Hlt & _).
  set (k := (length l - Z.to_nat mx)%nat). rewrite <- (take_drop k l) in Hlt.
  destruct (prune_run cfg cid (take k l) (drop k l) s A) as (s' & Hrun & Hr'); [done..| |].
  { unfold len. rewrite take_drop, length_take. fold mx. lia. }
  exists (take k l), (drop k l), s'. split_and!; try done.
  - unfold len. rewrite take_drop, length_drop. lia.
  - by apply without_turns_lists.
  - intros loc Hloc. rewrite without_turns_lookup. by rewrite bool_decide_false.
Qed.

(** with pruning enabled and a limit [max >= 0], [prune_old_snapshots]
    deletes exactly the oldest turns beyond the limit: if the conversation has
    the turns [old ++ kept] in increasing order with [kept] the last [max] of
    them (all of them if there are no more), it returns the number of [old]
    ones, those are gone, the kept turns, every branch and every snapshot of
    every other conversation are untouched, and a second run deletes
    nothing. *)
Theorem prune_keeps_newest cfg cid s A :
  represents s A -> component_ok cid = true -> enable_auto_pruning cfg = true ->
  0 <= max_snapshots_per_conversation cfg ->
  exists old kept s' A',
    lists_turns A cid (old ++ kept) /\
    len kept = Z.min (len (old ++ kept)) (max_snapshots_per_conversation cfg) /\
    prune_old_snapshots cfg cid s = (Ok (len old), s') /\
    represents s' A' /\ lists_turns A' cid kept /\
    (forall loc, loc ∉ turn_loc cid <$> old -> A' !! loc = A !! loc) /\
    exists s'', prune_old_snapshots cfg cid s' = (Ok 0, s'').
Proof.
  intros Hr Hc He Hmax.
  destruct (prune_newest cfg cid s A Hr Hc He Hmax) as (old & kept & s' & Hlt & Hk & Hrun & Hr' & Hlt' & Hf).
  exists old, kept, s', (without_turns cid old A). split_and!; try done.
  destruct (prune_run cfg cid [] kept s' _ Hr') as (s'' & Hrun' & _); [done..| |by eauto].
  pose proof (len_nonneg kept). unfold len at 1. simpl. lia.
Qed.

(** ** Branches *)

(** The place of a branch. *)
Definition branch_loc (cid branch : string) : path * string :=
  ([conv_dir_name cid; "branches"], branch).

Lemma snap_loc_branch cid turn branch :
  component_ok cid = true -> component_ok branch = true ->
  snap_loc cid turn (Some branch) = Some (branch_loc cid branch).
Proof.
  intros Hc Hb. unfold snap_loc. rewrite Hc.
  assert (branch ≠ "") as Hne by (by intros ->). simpl.
  rewrite bool_decide_false by done. simpl. by rewrite Hb.
Qed.

(** The metadata [create_branch] writes. *)
Definition branch_meta (now : Z) (cid branch : string) (turn : Z) (m : MambaSnapshotMetadata) :
    MambaSnapshotMetadata :=
  mkMeta cid (md_turn_number m) now (md_token_count m) (md_model_name m) (md_mamba_pool_idx m)
    (md_req_pool_idx m) (md_layer_config m) None (Some branch)
    (Some ("turn_" +:+ pretty turn)) None.

Lemma branch_from_run now cid branch n s A conv temporal m :
  represents s A -> component_ok cid = true -> component_ok branch = true -> 0 <= n ->
  A !! turn_loc cid n = Some (conv, temporal, m) ->
  exists s', branch_from now cid branch n s = (Ok true, s') /\
    represents s' (<[branch_loc cid branch := (conv, temporal, branch_meta now cid branch n m)]> A).
Proof.
  intros Hr Hc Hb Hn HA. pose proof (snap_loc_turn cid n Hc Hn) as Hl.
  destruct (sm_load_spec _ _ _ _ s A Hr Hl) as (r & s1 & Hload & Hr1 & Hres).
  rewrite HA in Hres. subst r. unfold branch_from.
  erewrite bind_ok; [|apply try_ok; rewrite fmap_run, Hload; reflexivity]. cbv beta iota.
  destruct (sm_save_spec conv temporal (branch_meta now cid branch n m) (branch_loc cid branch) s1 A)
    as (pr & s2 & Hsave & Hr2).
  - done.
  - rewrite (saveable_any _ _ _ m). by eapply sm_stored_valid.
  - by apply snap_loc_branch.
  - exists s2. split; [|done]. apply try_ok. erewrite bind_ok by exact Hsave. done.
Qed.

(** Pruning with any configuration leaves a branch alone. *)
Lemma prune_keeps_branch cfg cid branch x s A :
  represents s A -> component_ok cid = true -> A !! branch_loc cid branch = Some x ->
  exists k s' A', prune_old_snapshots cfg cid s = (Ok k, s') /\
    represents s' A' /\ A' !! branch_loc cid branch = Some x.
Proof.
  intros Hr Hc HA. destruct (enable_auto_pruning cfg) eqn:He.
  2:{ exists 0, s, A. unfold prune_old_snapshots. by rewrite He. }
  destruct (sm_list_spec cid s A Hr Hc) as (l & _ & _ & Hlt & _).
  set (k := Z.to_nat (len l - max_snapshots_per_conversation cfg)).
  rewrite <- (take_drop k l) in Hlt.
  destruct (prune_run cfg cid (take k l) (drop k l) s A) as (s' & Hrun & Hr'); [done..| |].
  { rewrite take_drop. unfold len in *. rewrite length_take. lia. }
  eexists _, s', _. split_and!; [done|done|]. rewrite without_turns_lookup.
  rewrite bool_decide_false; [done|]. intros (n & Hn & _)%list_elem_of_fmap. done.
Qed.

Lemma prunes_keep_branch cfgs cid branch x s A s' u :
  represents s A -> component_ok cid = true -> A !! branch_loc cid branch = Some x ->
  for_each cfgs (fun cfg => prune_old_snapshots cfg cid ≫= fun _ => mret tt) s = (u, s') ->
  u = Ok tt /\ exists A', represents s' A' /\ A' !! branch_loc cid branch = Some x.
Proof.
  revert s A. induction cfgs as [|cfg cfgs IH]; intros s A Hr Hc HA; simpl.
  { intros [= <- <-]. eauto. }
  destruct (prune_keeps_branch cfg cid branch x s A Hr Hc HA) as (k & s1 & A1 & Hrun & Hr1 & HA1).
  erewrite bind_ok; [by eapply IH|]. erewrite bind_ok by exact Hrun. done.
Qed.

(** a branch is a checkpoint that retention does not touch.
    [create_branch] from a turn that is on disk (by default the latest one)
    succeeds, and however often the conversation is pruned afterwards, with
    any retention configuration, loading the branch returns the tensors the
    turn had when the branch was made. *)
Theorem branch_survives_pruning now cid branch source n s A conv temporal m cfgs :
  represents s A -> component_ok cid = true -> component_ok branch = true ->
  (forall k, source = Some k -> k = n) ->
  (source = None -> exists l, lists_turns A cid (l ++ [n])) -> 0 <= n ->
  A !! turn_loc cid n = Some (conv, temporal, m) ->
  exists s1, create_branch now cid branch source s = (Ok true, s1) /\
    forall s2 u, for_each cfgs (fun cfg => prune_old_snapshots cfg cid ≫= fun _ => mret tt) s1 = (u, s2) ->
      u = Ok tt /\ exists m' s3, sm_load cid None (Some branch) s2 = (Ok (conv, temporal, m'), s3) /\
        md_branch_name m' = Some branch /\ md_parent_snapshot m' = Some (turn_stem n).
Proof.
  intros Hr Hc Hb Hsrc Hlast Hn HA.
  assert (exists s1, create_branch now cid branch source s = (Ok true, s1) /\
    represents s1 (<[branch_loc cid branch := (conv, temporal, branch_meta now cid branch n m)]> A))
    as (s1 & Hrun & Hr1).
  { destruct source as [k|]; simpl.
    - rewrite (Hsrc k eq_refl). by apply branch_from_run.
    - destruct (sm_latest_spec cid s A Hr Hc) as (r & s0 & Hl & Hr0 & Hres).
      erewrite bind_ok by exact Hl. destruct (Hlast eq_refl) as [l Hlt].
      destruct r as [[n' m']|].
      + destruct Hres as (l' & c' & t' & Hlt' & _).
        pose proof (lists_turns_unique _ _ _ _ Hlt Hlt') as [_ <-]%app_inj_tail.
        by apply branch_from_run.
      + pose proof (lists_turns_unique _ _ _ _ Hlt Hres) as Hnil. by destruct l. }
  exists s1. split; [done|]. intros s2 u Hpr.
  destruct (prunes_keep_branch _ cid branch _ _ _ _ _ Hr1 Hc (lookup_insert_eq _ _ _) Hpr)
    as (-> & A2 & Hr2 & HA2).
  destruct (sm_load_spec _ _ _ _ s2 A2 Hr2 (snap_loc_branch cid None branch Hc Hb))
    as (r & s3 & Hload & _ & Hres).
  rewrite HA2 in Hres. subst r. split; [done|]. by eexists _, s3.
Qed.
End policy.

(** ** Witnesses *)

Definition demo_cfg : SnapshotRetentionConfig := mkRetention 2 EVERY_N_TURNS 5 true 10 true.

Lemma should_snapshot_spec_witness :
  should_snapshot 100 (mkPolicyReq (Some "a") None) 10 None None
    (mark_snapshot_taken 95 "a" (policy_init demo_cfg)) = Ok false /\
  should_snapshot 100 (mkPolicyReq (Some "a") None) 10 None None (policy_init demo_cfg) = Ok true.
Proof.
  split; [|reflexivity].
  assert (snapshot_trigger_policy demo_cfg = EVERY_N_TURNS -> snapshot_every_n_turns demo_cfg ≠ 0) as Hn
    by done.
  exact (proj2 (should_snapshot_spec 100 (mkPolicyReq (Some "a") None) 10 None None
    (policy_init demo_cfg) Hn) 95 "a" eq_refl).
Defined.

Lemma prune_keeps_newest_witness :
  exists s', prune_old_snapshots demo_cfg "a" demo_disk = (Ok 1, s') /\
    exists A', abstracts s' A' /\ lists_turns A' "a" [4; 9].
Proof.
  destruct (prune_keeps_newest demo_cfg "a"
    demo_disk demo_map demo_represents eq_refl eq_refl ltac:(simpl; lia))
    as (old & kept & s' & A' & Hlt & Hk & Hrun & Hr & Hlt' & _ & _).
  assert (old = [1] /\ kept = [4; 9]) as [-> ->].
  { pose proof (lists_turns_unique _ _ _ _ Hlt demo_turns) as Heq. rewrite Heq in Hk.
    clear Hrun Hr Hlt' Hlt. change (len kept = 2) in Hk.
    destruct old as [|a [|b old]]; simpl in Heq.
    - subst kept. discriminate Hk.
    - injection Heq as -> ->. done.
    - injection Heq as -> -> Heq. apply (f_equal length) in Heq. rewrite length_app in Heq.
      unfold len in Hk. simpl in Heq. lia. }
  exists s'. split; [exact Hrun|]. exists A'. split; [exact Hr|exact Hlt'].
Defined.

Lemma branch_survives_pruning_witness :
  exists s1, create_branch 50 "a" "exp" None demo_disk = (Ok true, s1).
Proof.
  destruct (branch_survives_pruning 50 "a" "exp" None 9 demo_disk demo_map [t_of 1] (t_of 9) (meta_of "a" 9) [demo_cfg])
    as (s1 & Hrun & _).
  - exact demo_represents.
  - reflexivity.
  - reflexivity.
  - discriminate.
  - intros _. exists [1; 4]. exact demo_turns.
  - lia.
  - reflexivity.
  - exists s1. exact Hrun.
Defined.
