(* ===== verification/TierManager.v ===== *)
(** * TierManager (snapshot/tier_manager.py)

    The three tiers of a conversation's state: device (not here), host RAM
    (the host pool) and disk (the snapshot manager).  The manager's state is
    the tracker, the host pool and the disk, the last behind the
    [SnapshotManager] interface.  Every public method takes the manager's
    lock, so methods run one after the other; [now] is the clock reading of
    the call.  The cleanup thread is [background_iteration], one turn of its
    loop; its sleep and the joining of threads are not modelled. *)

From S2P Require Import Prelude PyDict PyText Torch Metadata Tracker HostPool.
From S2P Require Import SnapshotStore SnapshotFacts SnapshotSpec StoreInterface.

Record TierManager (S T : Type) := mkTier {
  conversation_tracker : ConversationTracker;
  host_pool : MambaHostPool T;
  store : S;
  model_path : option string;
  cleanup_interval : Z;
  cleanup_running : bool;
}.
Arguments mkTier {S T} _ _ _ _ _ _.
Arguments conversation_tracker {S T} _.
Arguments host_pool {S T} _.
Arguments store {S T} _.
Arguments model_path {S T} _.
Arguments cleanup_interval {S T} _.
Arguments cleanup_running {S T} _.

(** A restored state: tensors and the metadata dictionary. *)
Abbreviation restored T := (list T * T * pydict)%type.

Section tier.
Context {S T : Type} `{Torch T} `{!SnapshotManager S T}.
Abbreviation TM := (TierManager S T).

Definition set_tracker (t : ConversationTracker) (x : TM) : TM :=
  mkTier t (host_pool x) (store x) (model_path x) (cleanup_interval x) (cleanup_running x).
Definition set_host (p : MambaHostPool T) (x : TM) : TM :=
  mkTier (conversation_tracker x) p (store x) (model_path x) (cleanup_interval x) (cleanup_running x).
Definition set_store (s : S) (x : TM) : TM :=
  mkTier (conversation_tracker x) (host_pool x) s (model_path x) (cleanup_interval x) (cleanup_running x).
Definition set_running (b : bool) (x : TM) : TM :=
  mkTier (conversation_tracker x) (host_pool x) (store x) (model_path x) (cleanup_interval x) b.

(** Calls to the three components. *)
Definition on_store {A} (m : M S A) : M TM A := zoom store set_store m.
Definition on_host {A} (f : MambaHostPool T -> A * MambaHostPool T) : M TM A :=
  lift_st (fun x => let '(a, p) := f (host_pool x) in (a, set_host p x)).
Definition on_tracker (f : ConversationTracker -> ConversationTracker) : M TM unit :=
  modify (fun x => set_tracker (f (conversation_tracker x)) x).

(** [self.start_background_cleanup()] / [stop_background_cleanup()]: the flag
    the loop tests. *)
Definition start_background_cleanup : M TM unit := modify (set_running true).
Definition stop_background_cleanup : M TM unit := modify (set_running false).

Definition tier_manager_init (t : ConversationTracker) (p : MambaHostPool T) (s : S)
    (enable_background_cleanup : bool) (interval : Z) (model : option string) : TM :=
  mkTier t p s model interval enable_background_cleanup.

(** ** Saving *)

Definition save_to_warm_tier (now : Z) (cid : string) (conv_states : list T)
    (temporal_states : T) (metadata : option pydict) (validation_policy : string) : M TM bool :=
  let result := validate_state_tensors conv_states temporal_states None false in
  if negb (is_valid result) then
    if bool_decide (validation_policy = "raise") then
      raise SnapshotValidationError ("Warm-tier save rejected for " +:+ cid +:+ ": " +:+
        join "; " (errors result))
    else mret false
  else
  success ← on_host (save_state now cid conv_states temporal_states metadata);
  if (success : bool) then
    st ← gets (fun x => Tracker.get_state cid (conversation_tracker x));
    (match st with
     | None => on_tracker (register_conversation now cid WARM None metadata)
     | Some _ => on_tracker (fun t => (transition_tier now cid WARM None t).2)
     end) ≫= fun _ => mret true
  else mret false.

Definition save_to_cold_tier (now : Z) (cid : string) (conv_states : list T)
    (temporal_states : T) (m : MambaSnapshotMetadata) : M TM bool :=
  try_except
    (on_store (sm_save conv_states temporal_states m) ≫= fun _ =>
     on_tracker (fun t => (transition_tier now cid COLD None t).2) ≫= fun _ =>
     mret true)
    (fun _ => mret false).

(** ** Restoring *)

(** [self.model_path and model_name and model_name != self.model_path] *)
Definition model_mismatch (model : option string) (name : pyval) : bool :=
  match model with
  | Some p => negb (bool_decide (p = "")) && val_truthy name &&
      match name with VStr n => negb (bool_decide (n = p)) | _ => true end
  | None => false
  end.

(** A model name in a message. *)
Definition name_str (v : pyval) : string := match v with VStr n => n | _ => "?" end.

Definition mismatch_msg (model : option string) (name : pyval) : string :=
  "Model mismatch: snapshot from '" +:+ name_str name +:+ "', server running '" +:+
  fstr_opt id model +:+ "'".

Definition restore_from_warm_tier (now : Z) (cid : string) : M TM (option (restored T)) :=
  result ← on_host (HostPool.get_state now cid);
  match result with
  | None => mret None
  | Some (conv_states, temporal_states, metadata) =>
      model ← gets model_path;
      let name := get_default metadata "model_name" VNone in
      if model_mismatch model name then raise ValueError (mismatch_msg model name)
      else
        on_tracker (mark_accessed now cid) ≫= fun _ =>
        mret (Some (conv_states, temporal_states, metadata))
  end.

(** The body of the [try] of [restore_from_cold_tier], from the load on. *)
Definition load_turn (now : Z) (cid : string) (n : Z) :
    M TM (option (list T * T * MambaSnapshotMetadata)) :=
  '(conv_states, temporal_states, m) ← on_store (sm_load cid (Some n) None);
  model ← gets model_path;
  let name := VStr (md_model_name m) in
  if model_mismatch model name then raise ValueError (mismatch_msg model name)
  else
    on_tracker (mark_accessed now cid) ≫= fun _ =>
    mret (Some (conv_states, temporal_states, m)).

Definition cold_body (now : Z) (cid : string) (turn_number : option Z) :
    M TM (option (list T * T * MambaSnapshotMetadata)) :=
  match turn_number with
  | Some n => load_turn now cid n
  | None =>
      latest ← on_store (sm_latest cid);
      match latest with
      | None => mret None
      | Some (n, _) => load_turn now cid n
      end
  end.

Definition restore_from_cold_tier (now : Z) (cid : string) (turn_number : option Z) :
    M TM (option (list T * T * MambaSnapshotMetadata)) :=
  try_except (cold_body now cid turn_number)
    (fun e => if isinstance e ValueError then reraise e else mret None).

(** The part of [restore_conversation] that falls back to disk. *)
Definition restore_cold_and_promote (now : Z) (cid : string) (turn_number : option Z) :
    M TM (option (restored T)) :=
  result ← restore_from_cold_tier now cid turn_number;
  match result with
  | None => mret None
  | Some (conv_states, temporal_states, m) =>
      save_to_warm_tier now cid conv_states temporal_states (Some (to_dict m)) "log_and_continue"
        ≫= fun _ => mret (Some (conv_states, temporal_states, to_dict m))
  end.

Definition restore_conversation (now : Z) (cid : string) (turn_number : option Z) :
    M TM (option (restored T)) :=
  tier ← gets (fun x => get_tier cid (conversation_tracker x));
  held ← gets (fun x => has_state cid (host_pool x));
  warm ← (if bool_decide (tier = Some WARM) || held then restore_from_warm_tier now cid
          else mret None);
  match warm with
  | Some r => mret (Some r)
  | None =>
      if bool_decide (tier = Some COLD) || bool_decide (is_Some turn_number)
      then restore_cold_and_promote now cid turn_number
      else mret None
  end.

Definition load_cross_session_reference (now : Z) (current reference : string) :
    M TM (option (restored T)) :=
  result ← on_host (get_state_for_reference now current reference);
  match result with
  | Some r => mret (Some r)
  | None => restore_conversation now reference None
  end.

(** ** Demotion and cleanup *)

(** The [MambaSnapshotMetadata] that [demote_to_cold_tier] builds from the
    dictionary kept in the host pool.  A dictionary whose values have other
    types than [to_dict] writes is outside the model (a [TypeError]). *)
Definition demoted_metadata (now : Z) (cid : string) (d : pydict) : option MambaSnapshotMetadata :=
  turn ← as_opt as_int (get_default d "turn_number" (VInt 0));
  tokens ← as_int (get_default d "token_count" (VInt 0));
  model ← as_str (get_default d "model_name" (VStr "unknown"));
  pool_idx ← as_int (get_default d "mamba_pool_idx" (VInt 0));
  req_idx ← as_int (get_default d "req_pool_idx" (VInt 0));
  layers ← as_dict (get_default d "layer_config" (VDict []));
  Some (mkMeta cid turn now tokens model pool_idx req_idx layers None None None None).

Definition demote_to_cold_tier (now : Z) (cid : string) : M TM bool :=
  result ← on_host (HostPool.get_state now cid);
  match result with
  | None => mret false
  | Some (conv_states, temporal_states, metadata) =>
      match demoted_metadata now cid metadata with
      | None => raise TypeError "a metadata value has the wrong type"
      | Some snapshot_metadata =>
          success ← save_to_cold_tier now cid conv_states temporal_states snapshot_metadata;
          (if (success : bool) then on_host (remove_state cid) ≫= fun _ => mret tt else mret tt)
            ≫= fun _ => mret success
      end
  end.

(** [for conv_id in warm_to_cold: if self.demote_to_cold_tier(conv_id): n += 1] *)
Fixpoint demote_all (now : Z) (l : list string) (n : Z) : M TM Z :=
  match l with
  | [] => mret n
  | cid :: l' =>
      ok ← demote_to_cold_tier now cid;
      demote_all now l' (if (ok : bool) then n + 1 else n)
  end.

(** The body of the [try] that archives one conversation. *)
Definition archive_body (now : Z) (cid : string) : M TM unit :=
  snapshots ← on_store (sm_list cid);
  for_each snapshots (fun turn =>
    on_store (sm_delete cid (Some turn) None) ≫= fun _ => mret tt) ≫= fun _ =>
  on_tracker (fun t => (transition_tier now cid ARCHIVED None t).2).

Fixpoint archive_all (now : Z) (l : list string) (n : Z) : M TM Z :=
  match l with
  | [] => mret n
  | cid :: l' =>
      k ← try_except (archive_body now cid ≫= fun _ => mret (n + 1)) (fun _ => mret n);
      archive_all now l' k
  end.

(** The counts of [results]: warm_to_cold and cold_to_archived. *)
Definition run_cleanup_cycle (now : Z) : M TM (Z * Z) :=
  needed ← gets (fun x => check_transitions_needed now (conversation_tracker x));
  a ← demote_all now (warm_to_cold needed) 0;
  b ← archive_all now (cold_to_archived needed) 0;
  mret (a, b).

(** One turn of [_background_cleanup_loop], after its sleep; the boolean says
    whether the loop goes on. *)
Definition background_iteration (now : Z) : M TM bool :=
  run ← gets cleanup_running;
  (if (run : bool) then try_except (run_cleanup_cycle now ≫= fun _ => mret tt) (fun _ => mret tt)
   else mret tt) ≫= fun _ =>
  gets cleanup_running.

Record TierStats := mkTierStats {
  ts_tracker : TrackerStats;
  ts_host_pool : PoolStats;
  ts_cleanup_interval : Z;
  ts_cleanup_running : bool;
}.

Definition tier_get_stats (x : TM) : TierStats :=
  mkTierStats (Tracker.get_stats (conversation_tracker x)) (HostPool.get_stats (host_pool x))
    (cleanup_interval x) (cleanup_running x).

(** ** Startup *)

(** One conversation of [restore_latest_snapshots_to_warm_tier]: the body of
    its [try]. *)
Definition restore_latest (now : Z) (cid : string) : M TM bool :=
  latest ← on_store (sm_latest cid);
  match latest with
  | None => mret false
  | Some (turn, _) =>
      result ← restore_conversation now cid (Some turn);
      mret (match result with Some _ => true | None => false end)
  end.

Fixpoint restore_each (now : Z) (l : list string) (n : Z) : M TM Z :=
  match l with
  | [] => mret n
  | cid :: l' =>
      ok ← try_except (restore_latest now cid) (fun _ => mret false);
      restore_each now l' (if (ok : bool) then n + 1 else n)
  end.

Definition restore_latest_snapshots_to_warm_tier (now : Z) : M TM Z :=
  conversations ← on_store sm_conversations;
  restore_each now conversations 0.
End tier.
