(* ===== verification/TierFacts.v ===== *)
(** * What the tier manager guarantees

    The invariants of the tracker and of the host pool hold in every state the
    tier manager reaches; restoring follows the documented order of the
    tiers; demotion and the cleanup cycle move states but never lose one. *)

From S2P Require Import Prelude PyDict PyText Torch Metadata Tracker HostPool.
From S2P Require Import SnapshotStore SnapshotFacts SnapshotSpec StoreInterface SnapshotFaults.
From S2P Require Import TierManager.

Section facts.
Context {S T : Type} `{TL : TorchLaws T} `{!SnapshotManager S T}.
Implicit Types (x : TierManager S T).

(** ** The invariant *)

Definition tier_inv (now : Z) x : Prop :=
  tracker_inv now (conversation_tracker x) /\ pool_inv (host_pool x).

Lemma tier_on_store {A} now (m : M S A) : preserves (tier_inv now) (on_store m).
Proof. apply preserves_zoom. by intros x []. Qed.

Lemma tier_on_host {A} now (f : MambaHostPool T -> A * MambaHostPool T) :
  (forall p, pool_inv p -> pool_inv (f p).2) ->
  preserves (tier_inv now) (on_host (S:=S) f).
Proof.
  intros Hf. apply preserves_lift_st. intros x [Ht Hp]. specialize (Hf _ Hp).
  destruct (f (host_pool x)). by split.
Qed.

Lemma tier_on_tracker now f :
  (forall t, tracker_inv now t -> tracker_inv now (f t)) ->
  preserves (tier_inv now) (on_tracker (S:=S) (T:=T) f).
Proof. intros Hf. apply preserves_modify. intros x [Ht Hp]. split; [by apply Hf|done]. Qed.

Lemma tracker_inv_transition now cid tr idx t :
  tracker_inv now t -> tracker_inv now (transition_tier now cid tr idx t).2.
Proof. intros. eapply tracker_inv_step; [done|apply step_transition]. Qed.

Lemma tracker_inv_access now cid t : tracker_inv now t -> tracker_inv now (mark_accessed now cid t).
Proof. intros. eapply tracker_inv_step; [done|apply step_access]. Qed.

Lemma tracker_inv_register now cid tr idx m t :
  tracker_inv now t -> tracker_inv now (register_conversation now cid tr idx m t).
Proof. intros. eapply tracker_inv_step; [done|apply step_register]. Qed.

Hint Resolve tier_on_store tier_on_host tier_on_tracker tracker_inv_transition
  tracker_inv_access tracker_inv_register pool_inv_save pool_inv_get pool_inv_ref
  pool_inv_remove : py.

(** Walk through the code of a method. *)
Ltac walk := repeat first
  [ progress (intros; cbv beta)
  | solve [eauto 2 with py]
  | apply preserves_bind | apply preserves_try | apply preserves_if | apply preserves_for_each
  | solve [auto with py]
  | match goal with |- preserves _ (match ?e with _ => _ end) => destruct e end ].

Lemma tier_save_warm now cid c t m pol :
  preserves (tier_inv now) (save_to_warm_tier (S:=S) now cid c t m pol).
Proof. unfold save_to_warm_tier. walk. Qed.

Lemma tier_save_cold now cid c t m : preserves (tier_inv now) (save_to_cold_tier (S:=S) now cid c t m).
Proof. unfold save_to_cold_tier. walk. Qed.

Lemma tier_restore_warm now cid : preserves (tier_inv now) (restore_from_warm_tier (S:=S) now cid).
Proof. unfold restore_from_warm_tier. walk. Qed.

Lemma tier_restore_cold now cid n : preserves (tier_inv now) (restore_from_cold_tier (S:=S) now cid n).
Proof. unfold restore_from_cold_tier, cold_body, load_turn. walk. Qed.

Hint Resolve tier_save_warm tier_save_cold tier_restore_warm tier_restore_cold : py.

Lemma tier_restore now cid n : preserves (tier_inv now) (restore_conversation (S:=S) now cid n).
Proof. unfold restore_conversation, restore_cold_and_promote. walk. Qed.

Lemma tier_demote now cid : preserves (tier_inv now) (demote_to_cold_tier (S:=S) now cid).
Proof. unfold demote_to_cold_tier. walk. Qed.

Hint Resolve tier_restore tier_demote : py.

Lemma tier_cleanup now : preserves (tier_inv now) (run_cleanup_cycle (S:=S) (T:=T) now).
Proof.
  unfold run_cleanup_cycle. walk.
  - generalize 0. induction (warm_to_cold _) as [|c l IH]; intros k; simpl; walk.
  - generalize 0. induction (cold_to_archived _) as [|c l IH]; intros k; simpl;
      unfold archive_body; walk.
Qed.

Lemma tier_startup now : preserves (tier_inv now) (restore_latest_snapshots_to_warm_tier (S:=S) (T:=T) now).
Proof.
  unfold restore_latest_snapshots_to_warm_tier. walk. generalize 0.
  induction a as [|c l IH]; intros k; simpl; unfold restore_latest; walk.
Qed.

Hint Resolve tier_cleanup tier_startup : py.

(** A call of a public method at clock reading [now], whatever it returns or
    raises; [tstep_store] is the disk used by somebody else. *)
Inductive tier_step (now : Z) : TierManager S T -> TierManager S T -> Prop :=
  | tstep_save_warm cid c t m pol x : tier_step now x (save_to_warm_tier now cid c t m pol x).2
  | tstep_save_cold cid c t m x : tier_step now x (save_to_cold_tier now cid c t m x).2
  | tstep_restore_warm cid x : tier_step now x (restore_from_warm_tier now cid x).2
  | tstep_restore_cold cid n x : tier_step now x (restore_from_cold_tier now cid n x).2
  | tstep_restore cid n x : tier_step now x (restore_conversation now cid n x).2
  | tstep_reference c r x : tier_step now x (load_cross_session_reference now c r x).2
  | tstep_demote cid x : tier_step now x (demote_to_cold_tier now cid x).2
  | tstep_background x : tier_step now x (background_iteration now x).2
  | tstep_startup x : tier_step now x (restore_latest_snapshots_to_warm_tier now x).2
  | tstep_start x : tier_step now x (start_background_cleanup x).2
  | tstep_stop x : tier_step now x (stop_background_cleanup x).2
  | tstep_store s x : tier_step now x (set_store s x).

Inductive tier_reachable (x0 : TierManager S T) : Z -> TierManager S T -> Prop :=
  | treach_init now : tier_reachable x0 now x0
  | treach_step now now' x x' :
      tier_reachable x0 now x -> now <= now' -> tier_step now' x x' -> tier_reachable x0 now' x'.

Lemma tier_inv_step now x x' : tier_inv now x -> tier_step now x x' -> tier_inv now x'.
Proof.
  intros Hinv Hstep. destruct Hstep.
  - by apply tier_save_warm.
  - by apply tier_save_cold.
  - by apply tier_restore_warm.
  - by apply tier_restore_cold.
  - by apply tier_restore.
  - assert (preserves (tier_inv now) (load_cross_session_reference (S:=S) (T:=T) now c r)) as Hp
      by (unfold load_cross_session_reference; walk). by apply Hp.
  - by apply tier_demote.
  - assert (preserves (tier_inv now) (background_iteration (S:=S) (T:=T) now)) as Hp
      by (unfold background_iteration; walk). by apply Hp.
  - by apply tier_startup.
  - done.
  - done.
  - done.
Qed.

(** in every state the tier manager reaches from an empty tracker and an
    empty host pool, through any sequence of its public methods (the
    background cleanup and the startup restore included, successful or not,
    with any behaviour of the disk), the tracker and the host pool are
    consistent: each conversation is recorded once with times not in the
    future, and the host pool's byte counter is exact and within its limits. *)
Theorem tier_invariant a w c mc mb refs s interval running model now x :
  tier_reachable (tier_manager_init (tracker_init a w c) (host_pool_init mc mb refs) s
    running interval model) now x ->
  tracker_inv now (conversation_tracker x) /\ pool_inv (host_pool x).
Proof.
  remember (tier_manager_init _ _ _ _ _ _) as x0 eqn:Hx0. intros Hr. subst x0.
  change (tier_inv now x). induction Hr as [now|now now' x x' _ IH Hle Hstep].
  - split; [|apply pool_inv_init]. apply (reachable_tracker_inv a w c). constructor.
  - eapply tier_inv_step; [|done]. destruct IH as [Ht Hp].
    split; [by eapply tracker_inv_mono|done].
Qed.

(** ** What a conversation has in host RAM *)

Definition held x (cid : string) : option (restored T) :=
  (fun e => (conv_states e, temporal_states e,
             match entry_metadata e with Some d => d | None => [] end)) <$>
  dict_get (pool (host_pool x)) cid.

Lemma odict_or_nil (m : option pydict) :
  match odict_or m (Some []) with Some d => d | None => [] end =
  match m with Some d => d | None => [] end.
Proof. by destruct m as [[|]|]. Qed.

Lemma has_state_held cid x : has_state cid (host_pool x) = bool_decide (is_Some (held x cid)).
Proof.
  unfold has_state, held, dict_has. by destruct (dict_get _ cid).
Qed.

(** [host_pool.get_state]: the view of the host pool stays. *)
Lemma get_state_run now cid x :
  exists p', on_host (HostPool.get_state now cid) x = (Ok (held x cid), set_host p' x) /\
    forall c, held (set_host p' x) c = held x c.
Proof.
  unfold on_host, lift_st, held. simpl. unfold HostPool.get_state at 1.
  destruct (dict_get (pool (host_pool x)) cid) as [e|] eqn:E.
  - eexists. split; [by rewrite odict_or_nil|]. simpl. intros c.
    destruct (decide (cid = c)) as [<-|Hne].
    + by rewrite dict_get_set_eq, E.
    + by rewrite dict_get_set_ne, dict_get_del_ne.
  - eexists. split; [done|]. done.
Qed.

Lemma remove_state_run cid x :
  exists b p', on_host (remove_state cid) x = (Ok b, set_host p' x) /\
    forall c, held (set_host p' x) c = if decide (c = cid) then None else held x c.
Proof.
  unfold on_host, lift_st, held. simpl. unfold remove_state.
  destruct (dict_get (pool (host_pool x)) cid) as [e|] eqn:E; eexists _, _; (split; [done|]);
    simpl; intros c; case_decide as Hc; subst.
  - by rewrite dict_get_del_eq.
  - by rewrite dict_get_del_ne.
  - by rewrite E.
  - done.
Qed.

Lemma save_state_held now cid c t m x p' :
  pool_inv (host_pool x) -> save_state now cid c t m (host_pool x) = (true, p') ->
  held (set_host p' x) cid = Some (c, t, match m with Some d => d | None => [] end).
Proof.
  intros Hinv Hs. destruct (save_state_cases _ _ _ _ _ _ _ _ Hinv Hs)
    as (_ & evicted & kept & _ & _ & _ & _ & _ & Hp).
  unfold held. simpl. rewrite Hp, dict_get_app, dict_get_del_eq. simpl. by rewrite decide_True.
Qed.

(** Whether a state of a given size would fit in an empty host pool. *)
Definition fits_alone (c : list T) (t : T) x : Prop :=
  1 <= max_conversations (host_pool x) /\
  memory_bytes (mkEntry "" c t 0 0 None) <= max_memory_bytes (host_pool x).

Lemma save_state_ok_iff now cid c t m x :
  pool_inv (host_pool x) ->
  (save_state now cid c t m (host_pool x)).1 = true <-> fits_alone c t x.
Proof.
  intros Hinv. destruct (save_state now cid c t m (host_pool x)) as [ok p'] eqn:E.
  destruct (save_state_cases _ _ _ _ _ _ _ _ Hinv E)
    as (_ & evicted & kept & _ & _ & _ & _ & Hok). unfold fits_alone.
  change (memory_bytes (mkEntry "" c t 0 0 None)) with (memory_bytes (mkEntry cid c t now 0 m)).
  unfold fits in Hok. pose proof (dict_bytes_nonneg kept). pose proof (len_nonneg kept).
  simpl. destruct ok; [split; [intros _; destruct Hok; lia|done]|]. split; [done|]. intros [Hc Hb].
  destruct Hok as (_ & _ & Hn). destruct Hn. unfold len, dict_bytes. simpl. lia.
Qed.

(** ** Restoring *)

Context `{!SnapshotManagerLaws S T}.
Implicit Types (A : gmap (path * string) (snapshot T)).

(** The model check on a metadata dictionary. *)
Definition wrong_model x (d : pydict) : bool :=
  model_mismatch (model_path x) (get_default d "model_name" VNone).

Lemma restore_warm_run now cid x :
  exists r x', restore_from_warm_tier now cid x = (r, x') /\ store x' = store x /\
    (forall k, held x' k = held x k) /\ host_pool x' = host_pool (on_host (HostPool.get_state now cid) x).2 /\
    match held x cid with
    | None => r = Ok None /\ conversation_tracker x' = conversation_tracker x /\ model_path x' = model_path x
    | Some (c, t, d) =>
        if wrong_model x d then exists msg, r = Raise (Exn ValueError msg)
        else r = Ok (Some (c, t, d))
    end.
Proof.
  unfold restore_from_warm_tier. destruct (get_state_run now cid x) as (p' & Hrun & Hheld).
  rewrite Hrun. erewrite bind_ok by exact Hrun. destruct (held x cid) as [[[c t] d]|].
  - erewrite bind_ok by reflexivity. simpl. unfold wrong_model.
    destruct (model_mismatch (model_path x) _); eexists _, _; (split; [reflexivity|]).
    + split_and!; eauto.
    + by split_and!.
  - eexists _, _. split; [reflexivity|]. by split_and!.
Qed.

Lemma on_store_run {B} (m : M S B) x r s' : m (store x) = (r, s') -> on_store m x = (r, set_store s' x).
Proof. intros Hm. unfold on_store, zoom. by rewrite Hm. Qed.

Lemma on_tracker_run f x : on_tracker f x = (Ok tt, set_tracker (f (conversation_tracker x)) x).
Proof. done. Qed.

(** The turn a restore looks for: the one asked for, else the latest. *)
Definition wanted A (cid : string) (turn : option Z) (n : Z) : Prop :=
  turn = Some n \/ (turn = None /\ exists l, lists_turns A cid (l ++ [n])).

(** What a restore from disk gives. *)
Definition cold_result (r : res (option (list T * T * MambaSnapshotMetadata))) x
    (found : option (snapshot T)) : Prop :=
  match found with
  | Some (c, t, m) =>
      if wrong_model x (to_dict m) then exists msg, r = Raise (Exn ValueError msg)
      else r = Ok (Some (c, t, m))
  | None => r = Ok None
  end.

Lemma load_turn_run now cid n x A :
  represents (store x) A -> component_ok cid = true -> 0 <= n ->
  exists r x', restore_from_cold_tier now cid (Some n) x = (r, x') /\
    represents (store x') A /\ host_pool x' = host_pool x /\
    cold_result r x (A !! turn_loc cid n).
Proof.
  intros Hr Hc Hn. destruct (sm_load_spec _ _ _ _ _ A Hr (snap_loc_turn cid n Hc Hn))
    as (r0 & s1 & Hload & Hr1 & Hres). apply on_store_run in Hload.
  unfold restore_from_cold_tier, cold_body, load_turn, try_except.
  destruct (A !! turn_loc cid n) as [[[c t] m]|].
  - subst r0. erewrite bind_ok by exact Hload. cbv beta iota. erewrite bind_ok by reflexivity.
    unfold cold_result, wrong_model. cbn [model_path set_store].
    change (get_default (to_dict m) "model_name" VNone) with (VStr (md_model_name m)).
    destruct (model_mismatch (model_path x) _).
    + eexists _, _. split; [reflexivity|]. split_and!; eauto.
    + eexists _, _. split; [reflexivity|]. by split_and!.
  - destruct Hres as [msg ->]. erewrite bind_raise by exact Hload. eexists _, _. split; [reflexivity|]. by split_and!.
Qed.

Lemma wanted_unique A cid turn n n' : wanted A cid turn n -> wanted A cid turn n' -> n = n'.
Proof.
  intros [->|[-> [l Hl]]] [Hn|[Hn [l' Hl']]]; try congruence.
  by pose proof (lists_turns_unique _ _ _ _ Hl Hl') as [_ <-]%app_inj_tail.
Qed.

(** The two outcomes of a restore from disk: there is a turn to look for, or
    there is none. *)
Lemma restore_cold_run now cid turn x A :
  represents (store x) A -> component_ok cid = true -> (forall n, turn = Some n -> 0 <= n) ->
  exists r x', restore_from_cold_tier now cid turn x = (r, x') /\
    represents (store x') A /\ host_pool x' = host_pool x /\
    ((exists n, wanted A cid turn n /\ 0 <= n /\ cold_result r x (A !! turn_loc cid n)) \/
     ((~ exists n, wanted A cid turn n) /\ r = Ok None)).
Proof.
  intros Hr Hc Hn. destruct turn as [n|].
  { specialize (Hn n eq_refl).
    destruct (load_turn_run now cid n x A Hr Hc Hn) as (r & x' & Hrun & H1 & H2 & H3).
    exists r, x'. split_and!; [done..|]. left. exists n. split_and!; [by left|done..]. }
  destruct (sm_latest_spec cid (store x) A Hr Hc) as (lt & s1 & Hlat & Hr1 & Hres).
  apply on_store_run in Hlat. unfold restore_from_cold_tier at 1. cbn [cold_body].
  destruct lt as [[n m]|].
  - destruct Hres as (l & c & t & Hlt & HA).
    assert (0 <= n) as Hn0 by (apply Hlt; set_solver).
    destruct (load_turn_run now cid n (set_store s1 x) A Hr1 Hc Hn0) as (r & x' & Hrun & H1 & H2 & H3).
    exists r, x'. split_and!; [|done..|].
    + rewrite <- Hrun. unfold restore_from_cold_tier, try_except, cold_body.
      by erewrite bind_ok by exact Hlat.
    + left. exists n. split_and!; [|done..]. right. eauto.
  - exists (Ok None), (set_store s1 x). split_and!; [|done..|].
    + unfold try_except. by erewrite bind_ok by exact Hlat.
    + right. split; [|done]. intros (n & [?|[_ [l' Hlt']]]); [done|].
      pose proof (lists_turns_unique _ _ _ _ Hres Hlt') as Hx. by destruct l'.
Qed.

Lemma get_tier_register now cid m t :
  get_tier cid (register_conversation now cid WARM None m t) = Some WARM.
Proof.
  unfold get_tier, Tracker.get_state, register_conversation. simpl. rewrite dict_get_set_eq.
  by destruct (dict_get _ cid).
Qed.

Lemma get_tier_transition now cid tr t :
  is_Some (Tracker.get_state cid t) -> get_tier cid (transition_tier now cid tr None t).2 = Some tr.
Proof.
  unfold get_tier, Tracker.get_state, transition_tier. intros [st Hst]. rewrite Hst.
  case_decide as Ht; simpl; [by rewrite Hst; simpl; rewrite Ht|]. by rewrite dict_get_set_eq.
Qed.

(** A warm save of a valid state. *)
Lemma save_warm_run now cid c t m pol x :
  pool_inv (host_pool x) -> is_valid (validate_state_tensors c t None false) = true ->
  exists ok x', save_to_warm_tier now cid c t m pol x = (Ok ok, x') /\ store x' = store x /\
    model_path x' = model_path x /\ pool_inv (host_pool x') /\ (ok = true <-> fits_alone c t x) /\
    (ok = true -> held x' cid = Some (c, t, match m with Some d => d | None => [] end) /\
       get_tier cid (conversation_tracker x') = Some WARM).
Proof.
  intros Hinv Hv. unfold save_to_warm_tier. rewrite Hv. cbn [negb].
  pose proof (save_state_ok_iff now cid c t m x Hinv) as Hiff.
  pose proof (pool_inv_save now cid c t m _ Hinv) as Hinv'.
  assert (on_host (save_state now cid c t m) x = (Ok (save_state now cid c t m (host_pool x)).1,
    set_host (save_state now cid c t m (host_pool x)).2 x)) as Hrun.
  { unfold on_host, lift_st. by destruct (save_state now cid c t m (host_pool x)). }
  erewrite bind_ok by exact Hrun.
  destruct (save_state now cid c t m (host_pool x)) as [[] p'] eqn:E; simpl in *.
  - erewrite bind_ok by reflexivity. simpl.
    pose proof (save_state_held now cid c t m x p' Hinv E) as Hh.
    destruct (Tracker.get_state cid (conversation_tracker x)) as [st|] eqn:Est.
    + erewrite bind_ok by apply on_tracker_run. eexists true, _. split; [reflexivity|].
      split_and!; try done. intros _. split; [done|]. simpl. by apply get_tier_transition.
    + erewrite bind_ok by apply on_tracker_run. eexists true, _. split; [reflexivity|].
      split_and!; try done. intros _. split; [done|]. apply get_tier_register.
  - eexists false, _. split; [reflexivity|]. by split_and!.
Qed.

(** What [restore_conversation] returns, and leaves in host RAM, when it goes
    to disk. *)
Definition promoted (r : res (option (restored T))) x x' (cid : string)
    (found : option (snapshot T)) : Prop :=
  match found with
  | Some (c, t, m) =>
      if wrong_model x (to_dict m) then exists msg, r = Raise (Exn ValueError msg)
      else r = Ok (Some (c, t, to_dict m)) /\
        (fits_alone c t x -> held x' cid = Some (c, t, to_dict m) /\
           get_tier cid (conversation_tracker x') = Some WARM)
  | None => r = Ok None
  end.

Lemma promote_run now cid turn x A :
  pool_inv (host_pool x) -> represents (store x) A -> component_ok cid = true ->
  (forall n, turn = Some n -> 0 <= n) ->
  exists r x', restore_cold_and_promote now cid turn x = (r, x') /\ represents (store x') A /\
    ((exists n, wanted A cid turn n /\ promoted r x x' cid (A !! turn_loc cid n)) \/
     ((~ exists n, wanted A cid turn n) /\ r = Ok None)).
Proof.
  intros Hinv Hr Hc Hn. unfold restore_cold_and_promote.
  destruct (restore_cold_run now cid turn x A Hr Hc Hn)
    as (rc & x1 & Hcold & Hr1 & Hhost & [(n & Hw & Hn0 & Hres)|[Hno ->]]).
  2:{ erewrite bind_ok by exact Hcold. exists (Ok None), x1. eauto. }
  unfold cold_result in Hres. unfold promoted.
  destruct (A !! turn_loc cid n) as [[[c t] m]|] eqn:HA.
  2:{ subst rc. erewrite bind_ok by exact Hcold. exists (Ok None), x1. split_and!; [done..|].
      left. exists n. by rewrite HA. }
  destruct (wrong_model x (to_dict m)) eqn:Hm.
  { destruct Hres as [msg ->]. erewrite bind_raise by exact Hcold. eexists _, x1.
    split_and!; [done..|]. left. exists n. rewrite HA, Hm. eauto. }
  subst rc. erewrite bind_ok by exact Hcold. cbv beta iota.
  pose proof (sm_stored_valid _ _ _ _ _ _ _ _ _ Hr (snap_loc_turn cid n Hc Hn0) HA) as Hsv.
  apply saveable_inv in Hsv as [_ Hv]. rewrite (validate_valid_any _ None) in Hv.
  destruct (save_warm_run now cid c t (Some (to_dict m)) "log_and_continue" x1)
    as (ok & x2 & Hsave & Hst2 & _ & _ & Hok & Hheld); [by rewrite Hhost|done|].
  erewrite bind_ok by exact Hsave. eexists _, x2. split; [reflexivity|]. rewrite Hst2.
  split; [done|]. left. exists n. split; [done|]. rewrite HA, Hm. split; [done|].
  intros Hfit. apply Hheld, Hok. unfold fits_alone in *. by rewrite Hhost.
Qed.

(** The first step of [restore_conversation] when host RAM has nothing. *)
Lemma warm_miss now cid x :
  pool_inv (host_pool x) -> held x cid = None ->
  exists x1, (if bool_decide (get_tier cid (conversation_tracker x) = Some WARM) || has_state cid (host_pool x)
      then restore_from_warm_tier now cid else mret None) x = (Ok None, x1) /\
    store x1 = store x /\ pool_inv (host_pool x1) /\ model_path x1 = model_path x /\
    forall c t, fits_alone c t x1 <-> fits_alone c t x.
Proof.
  intros Hinv Hh. rewrite has_state_held, Hh, (bool_decide_false (is_Some None)), orb_false_r
    by (by intros [? ?]).
  case_bool_decide; [|by exists x].
  destruct (restore_warm_run now cid x) as (rw & xw & Hw & Hstw & _ & Hhw & Hres).
  rewrite Hh in Hres. destruct Hres as (-> & _ & Hmp). exists xw. split_and!; [done..| |done|].
  - rewrite Hhw. unfold on_host, lift_st. pose proof (pool_inv_get now cid _ Hinv) as Hg.
    by destruct (HostPool.get_state now cid (host_pool x)).
  - intros c t. unfold fits_alone. rewrite Hhw. unfold on_host, lift_st, HostPool.get_state.
    by destruct (dict_get (pool (host_pool x)) cid).
Qed.

(** C36: [restore_conversation] looks in host RAM first and on disk second.
    (1) A conversation held in host RAM is returned from there, unchanged and
    whatever turn was asked for, or refused with [ValueError] if it belongs
    to another model.
    (2) Otherwise, if the tracker has it COLD or a turn was asked for, the
    asked (else the latest) turn on disk is returned, promoted to host RAM and
    marked WARM when it can fit there; [None] if there is no such snapshot.
    (3) Otherwise the answer is [None], without looking at the disk. *)
Theorem restore_conversation_spec now cid turn x A :
  pool_inv (host_pool x) -> represents (store x) A -> component_ok cid = true ->
  (forall n, turn = Some n -> 0 <= n) ->
  let '(r, x') := restore_conversation now cid turn x in
  let on_disk := get_tier cid (conversation_tracker x) = Some COLD \/ is_Some turn in
  represents (store x') A /\
  match held x cid with
  | Some (c, t, d) =>
      (if wrong_model x d then exists msg, r = Raise (Exn ValueError msg)
       else r = Ok (Some (c, t, d))) /\ forall k, held x' k = held x k
  | None =>
      (on_disk -> forall n, wanted A cid turn n ->
         promoted r x x' cid (A !! turn_loc cid n)) /\
      (~ (on_disk /\ exists n, wanted A cid turn n) -> r = Ok None)
  end.
Proof.
  intros Hinv Hr Hc Hn. unfold restore_conversation.
  erewrite bind_ok by reflexivity. erewrite bind_ok by reflexivity.
  destruct (held x cid) as [[[c t] d]|] eqn:Hh.
  { destruct (restore_warm_run now cid x) as (rw & xw & Hw & Hstw & Hheldw & _ & Hresw).
    rewrite has_state_held, Hh, (bool_decide_true (is_Some (Some _))), orb_true_r by done.
    rewrite Hh in Hresw. destruct (wrong_model x d) eqn:Hm.
    - destruct Hresw as [msg ->]. erewrite bind_raise by exact Hw. rewrite Hstw. eauto.
    - subst rw. erewrite bind_ok by exact Hw. simpl. by rewrite Hstw. }
  destruct (warm_miss now cid x Hinv Hh) as (x1 & H1 & Hst1 & Hinv1 & Hmod1 & Hfit1).
  rewrite (bind_ok _ _ _ _ _ H1). clear H1.
  destruct (_ || _) eqn:Hod.
  2:{ apply orb_false_iff in Hod as [O1%bool_decide_eq_false O2%bool_decide_eq_false].
      split; [by simpl; rewrite Hst1|]. split; [tauto|done]. }
  apply orb_true_iff in Hod. rewrite !bool_decide_eq_true in Hod.
  destruct (promote_run now cid turn x1 A Hinv1 ltac:(by rewrite Hst1) Hc Hn)
    as (r & x' & Hrun & Hr' & [(n & Hw & Hp)|[Hno ->]]); rewrite Hrun; (split; [done|]).
  - split; [|intros Hx; destruct Hx; eauto]. intros _ n' Hw'.
    pose proof (wanted_unique _ _ _ _ _ Hw Hw') as <-. unfold promoted, wrong_model in *.
    rewrite Hmod1 in Hp. destruct (A !! turn_loc cid n) as [[[c t] m]|]; [|done].
    destruct (model_mismatch _ _); [done|]. by rewrite Hfit1 in Hp.
  - split; [|done]. intros _ n' Hw'. destruct Hno. eauto.
Qed.

(** ** Demotion and cleanup *)

(** A demotion touches host RAM and disk of its own conversation only, and
    moves the state or leaves it where it was. *)
Definition demoted (cid : string) x A (r : res bool) x' A' : Prop :=
  represents (store x') A' /\
  (forall k, k ≠ cid -> held x' k = held x k) /\
  (forall loc, (forall n, loc ≠ turn_loc cid n) -> A' !! loc = A !! loc) /\
  ((r = Ok true /\ exists c t d, held x cid = Some (c, t, d) /\ held x' cid = None /\
      exists n m, A' !! turn_loc cid n = Some (c, t, m)) \/
   (r ≠ Ok true /\ held x' cid = held x cid /\ A' = A)).

Lemma save_cold_run now cid c t m x A :
  represents (store x) A ->
  exists ok x', save_to_cold_tier now cid c t m x = (Ok ok, x') /\ host_pool x' = host_pool x /\
    if ok : bool then
      exists loc, snap_loc (md_conversation_id m) (md_turn_number m) (md_branch_name m) = Some loc /\
        represents (store x') (<[loc := (c, t, m)]> A)
    else represents (store x') A.
Proof.
  intros Hr. unfold save_to_cold_tier.
  destruct (saveable c t m) eqn:Hsv;
    [destruct (snap_loc (md_conversation_id m) (md_turn_number m) (md_branch_name m)) as [loc|] eqn:Hl|].
  - destruct (sm_save_spec c t m loc (store x) A Hr Hsv Hl) as (pr & s' & Hs & Hr').
    eexists true, _. split; [apply try_ok; erewrite bind_ok by (by apply on_store_run); reflexivity|].
    split; [done|]. exists loc. done.
  - destruct (sm_save_err c t m (store x) A Hr) as (msg & s' & Hs & Hr'); [by right|].
    eexists false, _. split; [erewrite try_raise by (erewrite bind_raise by (by apply on_store_run); reflexivity); reflexivity|].
    done.
  - destruct (sm_save_err c t m (store x) A Hr) as (msg & s' & Hs & Hr'); [by left|].
    eexists false, _. split; [erewrite try_raise by (erewrite bind_raise by (by apply on_store_run); reflexivity); reflexivity|].
    done.
Qed.

Lemma held_host x x' k : host_pool x' = host_pool x -> held x' k = held x k.
Proof. intros Hh. unfold held. by rewrite Hh. Qed.

Lemma demoted_meta_loc now cid d m loc :
  demoted_metadata now cid d = Some m ->
  snap_loc (md_conversation_id m) (md_turn_number m) (md_branch_name m) = Some loc ->
  exists n, loc = turn_loc cid n.
Proof.
  unfold demoted_metadata. intros Hm. repeat (apply bind_Some in Hm as (? & _ & Hm)).
  injection Hm as <-. simpl. unfold snap_loc. destruct (component_ok cid); [|done]. simpl.
  case_match; [|done]. case_bool_decide; [done|]. intros [= <-]. by eexists.
Qed.

Lemma demote_run now cid x A :
  represents (store x) A ->
  exists r x' A', demote_to_cold_tier now cid x = (r, x') /\ demoted cid x A r x' A'.
Proof.
  intros Hr. unfold demote_to_cold_tier. destruct (get_state_run now cid x) as (p1 & Hget & Hheld1).
  rewrite (bind_ok _ _ _ _ _ Hget). set (x1 := set_host p1 x) in *.
  destruct (held x cid) as [[[c t] d]|] eqn:Hh.
  2:{ exists (Ok false), x1, A. split; [done|]. split_and!; try done. right. by rewrite Hheld1. }
  destruct (demoted_metadata now cid d) as [m|] eqn:Hm.
  2:{ eexists _, x1, A. split; [done|]. split_and!; try done. right. by rewrite Hheld1. }
  destruct (save_cold_run now cid c t m x1 A Hr) as (ok & x2 & Hsave & Hh2 & Hcase).
  rewrite (bind_ok _ _ _ _ _ Hsave). destruct ok.
  - destruct Hcase as (loc & Hl & Hr2). destruct (demoted_meta_loc _ _ _ _ _ Hm Hl) as [n ->].
    destruct (remove_state_run cid x2) as (b & p3 & Hrem & Hheld3).
    cbv beta iota. rewrite (bind_ok _ _ _ (set_host p3 x2) tt) by (by rewrite (bind_ok _ _ _ _ _ Hrem)).
    eexists _, _, _. split; [reflexivity|]. split_and!; [exact Hr2| | |].
    + intros k Hk. rewrite Hheld3, decide_False by done. by rewrite (held_host x1 x2), Hheld1.
    + intros loc Hloc. by rewrite lookup_insert_ne.
    + left. split; [done|]. exists c, t, d. split; [done|]. split; [by rewrite Hheld3, decide_True|].
      exists n, m. by rewrite lookup_insert_eq.
  - eexists _, x2, A. split; [reflexivity|]. split_and!; try done.
    + intros k Hk. by rewrite (held_host x1 x2), Hheld1.
    + right. split; [done|]. by rewrite (held_host x1 x2), Hheld1.
Qed.

(** The state [r] of a conversation is safe: in host RAM, or no longer there
    and on disk. *)
Definition safe (cid : string) (r : restored T) x A : Prop :=
  held x cid = Some r \/
  (held x cid = None /\ exists n m, A !! turn_loc cid n = Some (r.1.1, r.1.2, m)).

Lemma demoted_safe cid cid0 s0 x A r x' A' :
  demoted cid x A r x' A' -> safe cid0 s0 x A -> safe cid0 s0 x' A'.
Proof.
  intros (_ & Hheld & Hmap & Hcase) Hsafe. destruct (decide (cid0 = cid)) as [->|Hne].
  - destruct Hcase as [(_ & c & t & d & Hh & Hh' & n & m & HA)|(_ & Hh & ->)].
    + right. split; [done|]. destruct Hsafe as [Hs|[Hs _]]; [|congruence].
      rewrite Hh in Hs. injection Hs as <-. by exists n, m.
    + destruct Hsafe as [Hs|[Hs Hd]]; [left; congruence|right; split; [congruence|done]].
  - destruct Hsafe as [Hs|[Hs (n & m & HA)]]; [left; by rewrite Hheld|].
    right. split; [by rewrite Hheld|]. exists n, m. rewrite Hmap; [done|].
    intros n' ?%turn_loc_cid. done.
Qed.

Lemma demote_all_safe now l k x A cid0 s0 :
  represents (store x) A -> safe cid0 s0 x A ->
  exists r x' A', demote_all now l k x = (r, x') /\ represents (store x') A' /\ safe cid0 s0 x' A' /\
    (cid0 ∉ l -> held x' cid0 = held x cid0).
Proof.
  revert k x A. induction l as [|cid l IH]; intros k x A Hr Hs; cbn [demote_all].
  { eexists _, x, A. split; [reflexivity|]. done. }
  destruct (demote_run now cid x A Hr) as (r & x1 & A1 & Hrun & Hd).
  pose proof (demoted_safe _ _ _ _ _ _ _ _ Hd Hs) as Hs1.
  destruct Hd as (Hr1 & Hheld & _). destruct r as [ok|e].
  - rewrite (bind_ok _ _ _ _ _ Hrun).
    destruct (IH (if ok then k + 1 else k) x1 A1 Hr1 Hs1) as (r2 & x2 & A2 & Hrun2 & Hr2 & Hs2 & Hh2).
    exists r2, x2, A2. split_and!; try done. intros Hni. rewrite Hh2, Hheld; [done|set_solver..].
  - rewrite (bind_raise _ _ _ _ _ Hrun). eexists _, x1, A1. split_and!; try done.
    intros Hni. apply Hheld. set_solver.
Qed.

(** Deleting the listed turns of a conversation. *)
Lemma delete_turns_run cid l x A :
  represents (store x) A -> component_ok cid = true -> Forall (fun n => 0 <= n) l ->
  exists s' A', for_each l (fun turn =>
      on_store (sm_delete cid (Some turn) None) ≫= fun _ => mret tt) x = (Ok tt, set_store s' x) /\
    represents s' A' /\ (forall loc, (forall n, loc ≠ turn_loc cid n) -> A' !! loc = A !! loc) /\
    (forall n, n ∈ l -> A' !! turn_loc cid n = None) /\
    (forall loc, A !! loc = None -> A' !! loc = None).
Proof.
  intros Hr Hc Hl. revert x A Hr. induction Hl as [|n l Hn _ IH]; intros x A Hr.
  { exists (store x), A. split_and!; try done; [by destruct x|]. intros n Hn%elem_of_nil. done. }
  destruct (sm_delete_turn cid n (store x) A Hr Hc Hn) as (s1 & Hd & Hr1). cbn [for_each].
  destruct (IH (set_store s1 x) _ Hr1) as (s2 & A2 & Hrun & Hr2 & Hframe & Hgone & Hnone).
  apply on_store_run in Hd.
  rewrite (bind_ok _ _ _ (set_store s1 x) tt) by (by rewrite (bind_ok _ _ _ _ _ Hd)).
  exists s2, A2. split_and!; [exact Hrun|done| | |].
  - intros loc Hloc. rewrite Hframe by done. by rewrite lookup_delete_ne.
  - intros n' [->|Hin]%elem_of_cons; [|by apply Hgone]. apply Hnone. apply lookup_delete_eq.
  - intros loc Hloc. apply Hnone. rewrite lookup_delete_None. by right.
Qed.

(** Archiving deletes every numbered turn of the conversation and nothing else. *)
Lemma archive_run now cid x A :
  represents (store x) A ->
  exists r x' A', archive_body now cid x = (r, x') /\ represents (store x') A' /\
    host_pool x' = host_pool x /\
    (forall loc, (forall n, loc ≠ turn_loc cid n) -> A' !! loc = A !! loc) /\
    (component_ok cid = true -> r = Ok tt /\ forall n, 0 <= n -> A' !! turn_loc cid n = None).
Proof.
  intros Hr. unfold archive_body. destruct (component_ok cid) eqn:Hc.
  - destruct (sm_list_spec cid (store x) A Hr Hc) as (l & s1 & Hl & Hlt & Hr1).
    apply on_store_run in Hl. rewrite (bind_ok _ _ _ _ _ Hl).
    destruct (delete_turns_run cid l (set_store s1 x) A Hr1 Hc) as (s2 & A2 & Hd & Hr2 & Hf & Hg & Hno).
    { by eapply lists_turns_nonneg. }
    rewrite (bind_ok _ _ _ _ _ Hd). rewrite on_tracker_run. eexists _, _, A2. split; [reflexivity|].
    split_and!; try done. intros _. split; [done|]. intros n Hn.
    destruct (A !! turn_loc cid n) eqn:HA; [|by apply Hno]. apply Hg, Hlt. eauto.
  - destruct (sm_list_err cid (store x) A Hr Hc) as (e & s1 & Hl & Hr1). apply on_store_run in Hl.
    rewrite (bind_raise _ _ _ _ _ Hl). eexists _, _, A. split; [reflexivity|]. by split_and!.
Qed.

Lemma archive_all_frame now l k x A :
  represents (store x) A ->
  exists n x' A', archive_all now l k x = (Ok n, x') /\ represents (store x') A' /\
    host_pool x' = host_pool x /\
    forall cid n, cid ∉ l -> A' !! turn_loc cid n = A !! turn_loc cid n.
Proof.
  revert k x A. induction l as [|cid l IH]; intros k x A Hr; cbn [archive_all].
  { eexists _, x, A. split; [reflexivity|]. done. }
  destruct (archive_run now cid x A Hr) as (r & x1 & A1 & Hrun & Hr1 & Hh1 & Hf1 & _).
  assert (exists j, try_except (archive_body now cid ≫= fun _ => mret (k + 1)) (fun _ => mret k) x =
    (Ok j, x1)) as [j Hj].
  { unfold try_except. destruct r as [[]|e].
    - rewrite (bind_ok _ _ _ _ _ Hrun). eauto.
    - rewrite (bind_raise _ _ _ _ _ Hrun). eauto. }
  rewrite (bind_ok _ _ _ _ _ Hj).
  destruct (IH j x1 A1 Hr1) as (n & x2 & A2 & Hrun2 & Hr2 & Hh2 & Hf2).
  exists n, x2, A2. split_and!; try congruence. intros c n' Hni.
  rewrite Hf2, Hf1; [done| |set_solver]. intros n'' ->%turn_loc_cid. set_solver.
Qed.

(** C33: a cleanup cycle moves states between the tiers and never loses one
    that is in host RAM: whatever the cycle returns or raises, every
    conversation held before it is afterwards still held, unchanged, or no
    longer held and stored on disk with the same tensors. *)
Theorem cleanup_loses_nothing now x A cid c t d :
  tier_inv now x -> represents (store x) A -> held x cid = Some (c, t, d) ->
  let '(_, x') := run_cleanup_cycle now x in
  exists A', represents (store x') A' /\
    (held x' cid = Some (c, t, d) \/
     (held x' cid = None /\ exists n m, A' !! turn_loc cid n = Some (c, t, m))).
Proof.
  intros [[Hwf _] _] Hr Hh. unfold run_cleanup_cycle. erewrite bind_ok by reflexivity.
  unfold check_transitions_needed. rewrite check_fold_spec. cbn [warm_to_cold cold_to_archived app].
  set (wl := overdue_ids _ _ WARM _). set (cl := overdue_ids _ _ COLD _).
  destruct (demote_all_safe now wl 0 x A cid (c, t, d) Hr (or_introl Hh))
    as (r1 & x1 & A1 & Hrun1 & Hr1 & Hs1 & Hh1).
  destruct r1 as [a|e]; [|by rewrite (bind_raise _ _ _ _ _ Hrun1); eauto].
  rewrite (bind_ok _ _ _ _ _ Hrun1).
  destruct (archive_all_frame now cl 0 x1 A1 Hr1) as (b & x2 & A2 & Hrun2 & Hr2 & Hh2 & Hf2).
  rewrite (bind_ok _ _ _ _ _ Hrun2). exists A2. split; [done|]. rewrite (held_host x1 x2) by done.
  destruct Hs1 as [Hs1|[Hs1 (n & m & HA)]]; [by left|]. right. split; [done|].
  exists n, m. rewrite Hf2; [done|]. unfold cl. rewrite overdue_ids_elem by done.
  intros (st & Hst & Htier & _). rewrite Hh1, Hh in Hs1; [done|]. unfold wl.
  rewrite overdue_ids_elem by done. intros (st' & Hst' & Htier' & _). congruence.
Qed.

(** A warm save is visible at once.  [save_to_warm_tier] of a state that
    passes validation returns [True] exactly when the state fits in the host
    pool's limits; then [restore_conversation], at any later time and for any
    turn argument, returns those very tensors and metadata (if the metadata
    names no other model).  A state that fails validation is refused and
    nothing changes. *)
Theorem warm_save_then_restore now now' cid c t m pol turn x :
  pool_inv (host_pool x) ->
  wrong_model x (match m with Some d => d | None => [] end) = false ->
  if is_valid (validate_state_tensors c t None false) then
    exists ok x', save_to_warm_tier now cid c t m pol x = (Ok ok, x') /\
      (ok = true <-> fits_alone c t x) /\
      (ok = true -> get_tier cid (conversation_tracker x') = Some WARM /\
         (restore_conversation now' cid turn x').1 =
           Ok (Some (c, t, match m with Some d => d | None => [] end)))
  else save_to_warm_tier now cid c t m pol x =
    (if bool_decide (pol = "raise")
     then Raise (Exn SnapshotValidationError ("Warm-tier save rejected for " +:+ cid +:+ ": " +:+
       join "; " (errors (validate_state_tensors c t None false))))
     else Ok false, x).
Proof.
  intros Hinv Hmod. destruct (is_valid _) eqn:Hv.
  2:{ unfold save_to_warm_tier. rewrite Hv. by case_bool_decide. }
  destruct (save_warm_run now cid c t m pol x Hinv Hv)
    as (ok & x' & Hrun & _ & Hmp & _ & Hok & Hheld).
  exists ok, x'. split_and!; [done..|]. intros ->. destruct (Hheld eq_refl) as [Hh Ht].
  split; [done|]. unfold restore_conversation.
  erewrite bind_ok by reflexivity. erewrite bind_ok by reflexivity.
  rewrite Ht, (bool_decide_true (Some WARM = Some WARM)) by done. simpl.
  destruct (restore_warm_run now' cid x') as (rw & xw & Hw & _ & _ & _ & Hres).
  rewrite Hh in Hres. unfold wrong_model in *. rewrite Hmp, Hmod in Hres. subst rw.
  by rewrite (bind_ok _ _ _ _ _ Hw).
Qed.
End facts.

(** ** Witnesses *)

(** A manager over the demo disk, its tracker and host pool empty. *)
Definition demo_tier0 : TierManager (FS ctensor) ctensor :=
  tier_manager_init (tracker_init 10 20 1000) (host_pool_init 2 100 true) demo_disk true 60 (Some "m").

(** Conversation [b] in host RAM since time 5. *)
Definition demo_tier : TierManager (FS ctensor) ctensor :=
  (save_to_warm_tier 5 "b" [t_of 1] (t_of 2) (Some [("turn_number", VInt 3)]) "raise" demo_tier0).2.

Lemma demo_tier_reachable : tier_reachable demo_tier0 5 demo_tier.
Proof. eapply (treach_step _ 0); [apply treach_init|lia|]. apply tstep_save_warm. Qed.

Lemma tier_invariant_witness :
  tracker_inv 5 (conversation_tracker demo_tier) /\ pool_inv (host_pool demo_tier).
Proof.
  exact (tier_invariant 10 20 1000 2 100 true demo_disk 60 true (Some "m") 5 demo_tier
    demo_tier_reachable).
Defined.

Lemma demo_tier_inv now : 5 <= now -> tier_inv now demo_tier.
Proof.
  intros Hle. assert (tier_inv 0 demo_tier0) as Hinit.
  { split; [|apply pool_inv_init]. apply (reachable_tracker_inv 10 20 1000). constructor. }
  assert (tier_inv 5 demo_tier) as [Ht Hp].
  { eapply tier_inv_step; [|apply tstep_save_warm]. destruct Hinit as [Ht Hp].
    split; [by eapply tracker_inv_mono|done]. }
  split; [by eapply tracker_inv_mono|done].
Qed.

Lemma restore_conversation_spec_witness :
  (restore_conversation 30 "a" (Some 4) demo_tier0).1 =
    Ok (Some ([t_of 1], t_of 4, to_dict (meta_of "a" 4))).
Proof.
  pose proof (restore_conversation_spec 30 "a" (Some 4) demo_tier0 demo_map
    (pool_inv_init 2 100 true) demo_represents eq_refl
    ltac:(intros n Hn; injection Hn as <-; lia)) as Hx.
  destruct (restore_conversation 30 "a" (Some 4) demo_tier0) as [r x'].
  destruct Hx as [_ Hx]. cbn [held] in Hx. destruct Hx as [Hx _].
  specialize (Hx (or_intror (mk_is_Some _ _ eq_refl)) 4 (or_introl eq_refl)).
  exact (proj1 Hx).
Defined.

Lemma warm_save_then_restore_witness :
  exists x', save_to_warm_tier 5 "b" [t_of 1] (t_of 2) None "raise" demo_tier0 = (Ok true, x') /\
    (restore_conversation 9 "b" (Some 77) x').1 = Ok (Some ([t_of 1], t_of 2, [])).
Proof.
  destruct (warm_save_then_restore 5 9 "b" [t_of 1] (t_of 2) None "raise" (Some 77) demo_tier0
    (pool_inv_init 2 100 true) eq_refl) as (ok & x' & Hrun & Hiff & Hres).
  assert (ok = true) as ->.
  { apply Hiff. split; vm_compute; discriminate. }
  exists x'. split; [exact Hrun|]. exact (proj2 (Hres eq_refl)).
Defined.

Lemma cleanup_loses_nothing_witness :
  held demo_tier "b" = Some ([t_of 1], t_of 2, [("turn_number", VInt 3)]) /\
  exists A', represents (store (run_cleanup_cycle 50 demo_tier).2) A' /\
    (held (run_cleanup_cycle 50 demo_tier).2 "b" = Some ([t_of 1], t_of 2, [("turn_number", VInt 3)]) \/
     exists n m, A' !! turn_loc "b" n = Some ([t_of 1], t_of 2, m)).
Proof.
  assert (held demo_tier "b" = Some ([t_of 1], t_of 2, [("turn_number", VInt 3)])) as Hh
    by (vm_compute; reflexivity).
  split; [exact Hh|].
  pose proof (cleanup_loses_nothing 50 demo_tier demo_map "b" [t_of 1] (t_of 2)
    [("turn_number", VInt 3)] (demo_tier_inv 50 ltac:(lia)) demo_represents Hh) as Hx.
  destruct (run_cleanup_cycle 50 demo_tier) as [r x']. destruct Hx as (A' & Hr & Hx).
  exists A'. split; [exact Hr|]. destruct Hx as [Hx|[_ Hx]]; [left|right]; exact Hx.
Defined.
