(* ===== verification/PendingRestore.v ===== *)
(** * The pending-restore registry (managers/scheduler_pending_restore.py and
    the registry helpers of managers/scheduler_snapshot_handlers.py)

    A snapshot restored for a request that has already finished is staged
    here, under the request's id (its canonical key), with the conversation id
    as an alias, until the next request of that conversation arrives.  The
    registry is an ordered dictionary of entries and a dictionary of
    aliases.  The request id of a restore may be missing ([None] is then the
    key), so keys are optional strings. *)

From S2P Require Import Prelude PyDict Torch.

Definition PENDING_RESTORE_REGISTRY_MAX : Z := 256.

Record PendingRestoreEntry (T : Type) := mkPending {
  pe_conv_states : list T;
  pe_temporal_states : T;
  pe_fill_ids : option (list Z);
  pe_conversation_id : string;
  pe_timestamp : Z;
}.
Arguments mkPending {T} _ _ _ _ _.
Arguments pe_conv_states {T} _.
Arguments pe_temporal_states {T} _.
Arguments pe_fill_ids {T} _.
Arguments pe_conversation_id {T} _.
Arguments pe_timestamp {T} _.

Record Pending (T : Type) := mkRegistry {
  registry : dict (option string) (PendingRestoreEntry T);
  aliases : dict (option string) (option string);
}.
Arguments mkRegistry {T} _ _.
Arguments registry {T} _.
Arguments aliases {T} _.

Section pending.
Context {T : Type}.
Implicit Types (p : Pending T) (e : PendingRestoreEntry T).

Definition pending_init : Pending T := mkRegistry [] [].

(** [for alias_key, target in list(aliases.items()): if target == t: del aliases[alias_key]] *)
Definition drop_aliases (target : option string) (a : dict (option string) (option string)) :
    dict (option string) (option string) :=
  filter (fun kv => kv.2 ≠ target) a.

(** [if key in registry: registry.pop(key)] *)
Definition pop_entry (key : option string) (p : Pending T) : Pending T :=
  mkRegistry (dict_del (registry p) key) (aliases p).

Definition drop_targets (target : option string) (p : Pending T) : Pending T :=
  mkRegistry (registry p) (drop_aliases target (aliases p)).

(** Case B: the canonical key was an alias of another entry. *)
Definition evict_if_alias (canonical : option string) (p : Pending T) : Pending T :=
  match dict_get (aliases p) canonical with
  | Some other =>
      drop_targets other
        (if bool_decide (other ≠ canonical) then pop_entry other p else p)
  | None => p
  end.

(** The conversation id becomes an alias of [canonical]; entries it named
    before are evicted. *)
Definition map_alias (conversation_id : string) (canonical : option string) (p : Pending T) :
    Pending T :=
  let alias := Some conversation_id in
  let p1 :=
    if dict_has (registry p) alias then drop_targets alias (pop_entry alias p) else p in
  let p2 :=
    match dict_get (aliases p1) alias with
    | Some (Some old) =>
        if bool_decide (Some old ≠ canonical) then drop_targets (Some old) (pop_entry (Some old) p1)
        else p1
    | _ => p1
    end in
  mkRegistry (registry p2) (dict_set (aliases p2) alias canonical).

(** [while len(registry) > MAX: evict the oldest]; each iteration removes an
    entry, so [length (registry p)] iterations suffice. *)
Fixpoint evict_oldest (fuel : nat) (p : Pending T) : Pending T :=
  match fuel with
  | O => p
  | S fuel' =>
      if bool_decide (PENDING_RESTORE_REGISTRY_MAX < len (registry p)) then
        match dict_popitem_first (registry p) with
        | Some ((evicted, _), rest) =>
            evict_oldest fuel' (drop_targets evicted (mkRegistry rest (aliases p)))
        | None => p
        end
      else p
  end.

Definition stage_pending_restore (now : Z) (rid : option string) (conversation_id : string)
    (conv_states : list T) (temporal_states : T) (fill_ids : option (list Z)) (p : Pending T) : Pending T :=
  let canonical := rid in
  let p1 := drop_targets canonical (pop_entry canonical p) in
  let p2 := evict_if_alias canonical p1 in
  let entry := mkPending conv_states temporal_states fill_ids conversation_id now in
  let p3 := mkRegistry (dict_set (registry p2) canonical entry) (aliases p2) in
  let p4 :=
    if negb (bool_decide (conversation_id = "")) && bool_decide (Some conversation_id ≠ canonical)
    then map_alias conversation_id canonical p3 else p3 in
  evict_oldest (length (registry p4)) p4.

Definition clear_pending_restore (rid : option string) (conversation_id : option string)
    (p : Pending T) : Pending T :=
  let canonical := if dict_has (registry p) rid then rid else None in
  let canonical :=
    if bool_decide (canonical = None) && truthy conversation_id
    then mjoin (dict_get (aliases p) conversation_id) else canonical in
  if bool_decide (canonical = None) || negb (dict_has (registry p) canonical) then p
  else drop_targets canonical (pop_entry canonical p).

(** The lookup of [_maybe_hydrate_from_pending_restore]: the canonical key and
    whether it was found through the request id. *)
Definition find_pending (rid : string) (conv_id : option string) (p : Pending T) :
    option (string * bool) :=
  let canonical := if dict_has (registry p) (Some rid) then Some rid else None in
  let matched_via_rid := bool_decide (is_Some canonical) in
  let canonical :=
    if bool_decide (canonical = None) && truthy conv_id && negb (bool_decide (conv_id = Some rid))
    then mjoin (dict_get (aliases p) conv_id) else canonical in
  match canonical with
  | Some c => if dict_has (registry p) canonical then Some (c, matched_via_rid) else None
  | None => None
  end.

(** [registry.move_to_end(canonical)] *)
Definition touch (canonical : option string) (p : Pending T) : Pending T :=
  mkRegistry (dict_move_to_end (registry p) canonical) (aliases p).

(** ** The invariant *)

(** An alias names a live entry of that conversation and is not itself the key
    of an entry; an entry filed under a request id other than its (non-empty)
    conversation id has its alias. *)
Definition pending_core p : Prop :=
  dict_wf (registry p) /\ dict_wf (aliases p) /\
  (forall a c, dict_get (aliases p) a = Some c ->
     a ≠ Some "" /\ dict_get (registry p) a = None /\
     exists e, dict_get (registry p) c = Some e /\ a = Some (pe_conversation_id e)) /\
  (forall k e, k ≠ None -> dict_get (registry p) k = Some e -> pe_conversation_id e ≠ "" ->
     Some (pe_conversation_id e) ≠ k -> dict_get (aliases p) (Some (pe_conversation_id e)) = Some k).

(** Removing an entry with its aliases, the step every eviction takes. *)
Definition remove_entry (key : option string) p : Pending T := drop_targets key (pop_entry key p).

Lemma drop_aliases_get t a k c :
  dict_wf a -> dict_get (drop_aliases t a) k = Some c <-> dict_get a k = Some c /\ c ≠ t.
Proof. intros Hwf. unfold drop_aliases. by rewrite dict_get_filter. Qed.

Lemma remove_entry_get key p k :
  dict_get (registry (remove_entry key p)) k =
    if decide (k = key) then None else dict_get (registry p) k.
Proof. simpl. case_decide; subst; [apply dict_get_del_eq|by apply dict_get_del_ne]. Qed.

Lemma pending_core_remove key p : pending_core p -> pending_core (remove_entry key p).
Proof.
  intros (Hr & Ha & J2 & J3). split_and!.
  - by apply dict_wf_del.
  - by apply dict_wf_filter.
  - intros a c. simpl. rewrite drop_aliases_get by done. intros [Hac Hne].
    destruct (J2 a c Hac) as (Hn & Hreg & e & He & Hc). split; [done|].
    change (dict_del (registry p) key) with (registry (remove_entry key p)).
    rewrite !remove_entry_get. rewrite (decide_False (P := c = key)) by done.
    split; [by case_decide|eauto].
  - intros k e Hkn. rewrite remove_entry_get. case_decide as Hk; [done|]. intros He Hne Hk'.
    simpl. apply drop_aliases_get; [done|]. auto.
Qed.

(** The registry while entry [e] is being inserted under [rid]: only the alias
    of that entry is missing. *)
Definition inserting (rid : option string) e p : Prop :=
  dict_wf (registry p) /\ dict_wf (aliases p) /\
  dict_get (registry p) rid = Some e /\ dict_get (aliases p) rid = None /\
  (forall a c, dict_get (aliases p) a = Some c ->
     a ≠ Some "" /\ c ≠ rid /\ dict_get (registry p) a = None /\
     exists e, dict_get (registry p) c = Some e /\ a = Some (pe_conversation_id e)) /\
  (forall k e, k ≠ None -> k ≠ rid -> dict_get (registry p) k = Some e -> pe_conversation_id e ≠ "" ->
     Some (pe_conversation_id e) ≠ k -> dict_get (aliases p) (Some (pe_conversation_id e)) = Some k).

Lemma inserting_remove rid e key p :
  key ≠ rid -> inserting rid e p -> inserting rid e (remove_entry key p).
Proof.
  intros Hkey (Hr & Ha & He & Hal & J2 & J3). split_and!.
  - by apply dict_wf_del.
  - by apply dict_wf_filter.
  - rewrite remove_entry_get. by rewrite decide_False.
  - destruct (dict_get (aliases (remove_entry key p)) rid) eqn:E; [|done].
    simpl in E. apply drop_aliases_get in E as [E _]; congruence.
  - intros a c. simpl. rewrite drop_aliases_get by done. intros [Hac Hne].
    destruct (J2 a c Hac) as (Hn & Hcr & Hreg & e' & He' & Hc). split; [done|]. split; [done|].
    change (dict_del (registry p) key) with (registry (remove_entry key p)).
    rewrite !remove_entry_get. rewrite (decide_False (P := c = key)) by done.
    split; [by case_decide|eauto].
  - intros k e' Hkn Hkr. rewrite remove_entry_get. case_decide as Hk; [done|]. intros He' Hne Hk'.
    simpl. apply drop_aliases_get; [done|]. auto.
Qed.

(** Up to the insertion of the entry. *)
Lemma stage_inserting rid e p :
  pending_core p ->
  let p2 := evict_if_alias rid (remove_entry rid p) in
  inserting rid e (mkRegistry (dict_set (registry p2) rid e) (aliases p2)).
Proof.
  intros Hp p2. assert (pending_core p2 /\ dict_get (registry p2) rid = None /\
    dict_get (aliases p2) rid = None /\ forall a, dict_get (aliases p2) a ≠ Some rid)
    as ((Hr & Ha & J2 & J3) & Hreg & Hal & Hnt).
  { assert (pending_core (remove_entry rid p)) as Hc1 by by apply pending_core_remove.
    assert (dict_get (registry (remove_entry rid p)) rid = None) as Hn1.
    { rewrite remove_entry_get. by rewrite decide_True. }
    assert (forall a, dict_get (aliases (remove_entry rid p)) a ≠ Some rid) as Ht1.
    { intros a E. simpl in E. apply drop_aliases_get in E as [_ ?]; [done|apply Hp]. }
    revert Hc1 Hn1 Ht1. subst p2. generalize (remove_entry rid p). intros q Hc1 Hn1 Ht1.
    unfold evict_if_alias. destruct (dict_get (aliases q) rid) as [other|] eqn:E; [|done].
    destruct Hc1 as (Hr & Ha & J2 & J3). destruct (J2 _ _ E) as (_ & _ & e' & He' & _).
    assert (other ≠ rid) as Hne by congruence. rewrite bool_decide_true by done.
    change (drop_targets other (pop_entry other q)) with (remove_entry other q).
    split_and!; [by apply pending_core_remove| | |].
    - rewrite remove_entry_get. by case_decide.
    - destruct (dict_get (aliases (remove_entry other q)) rid) eqn:E'; [|done].
      simpl in E'. apply drop_aliases_get in E' as [E' ?]; congruence.
    - intros a E'. simpl in E'. apply drop_aliases_get in E' as [E' _]; [by apply (Ht1 a)|done]. }
  split_and!; simpl.
  - by apply dict_wf_set.
  - done.
  - apply dict_get_set_eq.
  - done.
  - intros a c Hac. destruct (J2 a c Hac) as (Hn & Hra & e' & He' & Hc).
    assert (a ≠ rid) by congruence. assert (c ≠ rid) by congruence.
    rewrite !dict_get_set_ne by done. split_and!; try done. eauto.
  - intros k e' Hkn Hk. rewrite dict_get_set_ne by done. auto.
Qed.

(** An entry without an alias completes the insertion. *)
Lemma inserting_done rid e p :
  inserting rid e p -> ~ (pe_conversation_id e ≠ "" /\ Some (pe_conversation_id e) ≠ rid) -> pending_core p.
Proof.
  intros (Hr & Ha & Hrid & Hal & J2 & J3) Hno. split_and!; [done..| |].
  - intros a c Hac. by destruct (J2 a c Hac) as (? & _ & ? & ?).
  - intros k e' Hkn He' Hne Hk. destruct (decide (k = rid)) as [->|Hkr]; [|by apply J3].
    rewrite Hrid in He'. injection He' as <-. tauto.
Qed.

(** What [map_alias] does after an insertion. *)
Lemma map_alias_core rid e p :
  inserting rid e p -> pe_conversation_id e ≠ "" -> Some (pe_conversation_id e) ≠ rid ->
  let p' := map_alias (pe_conversation_id e) rid p in
  pending_core p' /\ dict_get (registry p') rid = Some e.
Proof.
  intros Hins Hne Hrid. cbv zeta. unfold map_alias.
  set (alias := Some (pe_conversation_id e)) in *.
  set (p1 := if dict_has (registry p) alias then _ else p).
  assert (inserting rid e p1 /\ dict_get (registry p1) alias = None) as [Hi1 Hn1].
  { subst p1. destruct (dict_has (registry p) alias) eqn:Hhas.
    - split; [by apply inserting_remove|]. apply dict_get_del_eq.
    - split; [done|]. by apply dict_has_false. }
  clearbody p1. clear p Hins.
  set (p2 := match dict_get (aliases p1) alias with Some (Some old) => _ | _ => p1 end).
  assert (inserting rid e p2 /\ dict_get (registry p2) alias = None /\
    forall old, dict_get (aliases p2) alias ≠ Some (Some old)) as (Hi2 & Hn2 & Ha2).
  { subst p2. destruct (dict_get (aliases p1) alias) as [[old|]|] eqn:E;
      [|split_and!; [done..|congruence]|split_and!; [done..|congruence]].
    assert (Some old ≠ rid) as Hold by (by destruct Hi1 as (_ & _ & _ & _ & J2 & _); apply J2 in E as (_ & ? & _)).
    rewrite bool_decide_true by done.
    change (drop_targets (Some old) (pop_entry (Some old) p1)) with (remove_entry (Some old) p1).
    split_and!; [by apply inserting_remove| |].
    - rewrite remove_entry_get. by case_decide.
    - intros old' E'. simpl in E'. apply drop_aliases_get in E' as [E' ?]; [congruence|apply Hi1]. }
  clearbody p2. destruct Hi2 as (Hr & Ha & He & Hal & J2 & J3). split; [|done]. split_and!; simpl.
  - done.
  - by apply dict_wf_set.
  - intros a c. destruct (decide (alias = a)) as [<-|Hac].
    + rewrite dict_get_set_eq. intros [= <-]. split_and!; [|done|eauto]. subst alias. congruence.
    + rewrite dict_get_set_ne by done. intros Hc. destruct (J2 a c Hc) as (? & _ & ? & ?). done.
  - intros k e' Hkn He' Hne' Hk. destruct (decide (k = rid)) as [->|Hkr].
    + rewrite He in He'. injection He' as <-. apply dict_get_set_eq.
    + rewrite dict_get_set_ne; [by apply J3|]. intros Heq.
      specialize (J3 k e' Hkn Hkr He' Hne' Hk). rewrite <- Heq in J3.
      destruct k as [k|]; [|done]. by apply Ha2 in J3.
Qed.

(** The entry at the end of the order. *)
Definition newest p : option (option string * PendingRestoreEntry T) := last (registry p).

Lemma evict_oldest_spec fuel p x :
  pending_core p -> (length (registry p) <= fuel)%nat -> newest p = Some x ->
  let p' := evict_oldest fuel p in
  pending_core p' /\ len (registry p') <= PENDING_RESTORE_REGISTRY_MAX /\ newest p' = Some x /\
  (len (registry p) <= PENDING_RESTORE_REGISTRY_MAX -> p' = p).
Proof.
  revert p. induction fuel as [|fuel IH]; intros p Hp Hf Hl; cbn [evict_oldest].
  { unfold newest in Hl. destruct (registry p); simpl in *; [done|lia]. }
  case_bool_decide as Hlen; [|split_and!; done || lia].
  destruct (registry p) as [|[k v] rest] eqn:E; [done|]. simpl.
  assert (drop_targets k (mkRegistry rest (aliases p)) = remove_entry k p) as ->.
  { unfold remove_entry, drop_targets, pop_entry. rewrite E. simpl. rewrite decide_True by done.
    destruct Hp as [Hwf _]. rewrite E in Hwf. rewrite dict_del_absent; [done|].
    apply dict_get_None. by apply NoDup_cons in Hwf as [? _]. }
  assert (registry (remove_entry k p) = rest) as Hrest.
  { simpl. rewrite E. simpl. rewrite decide_True by done. destruct Hp as [Hwf _]. rewrite E in Hwf.
    rewrite dict_del_absent; [done|]. apply dict_get_None. by apply NoDup_cons in Hwf as [? _]. }
  destruct (IH (remove_entry k p)) as (H1 & H2 & H3 & _).
  - by apply pending_core_remove.
  - rewrite Hrest. simpl in Hf. lia.
  - unfold newest in *. rewrite Hrest. rewrite E in Hl. unfold len in Hlen.
    destruct rest; [simpl in Hlen; unfold PENDING_RESTORE_REGISTRY_MAX in Hlen; lia|done].
  - split_and!; try done. unfold len in *. lia.
Qed.

Lemma last_dict_del (d : dict (option string) (PendingRestoreEntry T)) k k' v :
  last d = Some (k', v) -> k ≠ k' -> last (dict_del d k) = Some (k', v).
Proof.
  intros Hl Hne. destruct d as [|x d _] using rev_ind; [done|]. rewrite last_snoc in Hl.
  injection Hl as ->. assert (dict_del (d ++ [(k', v)]) k = dict_del d k ++ [(k', v)]) as ->.
  { induction d as [|[a b] d IH]; simpl; [by rewrite decide_False|]. case_decide; [done|].
    simpl. by f_equal. }
  apply last_snoc.
Qed.

Lemma stage_newest rid e p :
  newest p = Some (rid, e) -> Some (pe_conversation_id e) ≠ rid ->
  newest (map_alias (pe_conversation_id e) rid p) = Some (rid, e).
Proof.
  intros Hn Hne. unfold map_alias, newest in *. simpl.
  set (p1 := if dict_has (registry p) _ then _ else p).
  assert (last (registry p1) = Some (rid, e)) as Hn1.
  { subst p1. destruct (dict_has _ _); [by apply last_dict_del|done]. }
  destruct (dict_get (aliases p1) _) as [[old|]|]; [|done..].
  case_bool_decide; [by apply last_dict_del|done].
Qed.

(** Everything there is to know about a staging. *)
Lemma stage_spec now rid conv c t ids p :
  pending_core p ->
  let e := mkPending c t ids conv now in
  let p' := stage_pending_restore now rid conv c t ids p in
  pending_core p' /\ len (registry p') <= PENDING_RESTORE_REGISTRY_MAX /\
  newest p' = Some (rid, e).
Proof.
  intros Hp e. unfold stage_pending_restore.
  change (drop_targets rid (pop_entry rid p)) with (remove_entry rid p). fold e.
  pose proof (stage_inserting rid e p Hp) as Hins. cbv zeta in *.
  set (p2 := evict_if_alias rid (remove_entry rid p)) in *.
  assert (dict_get (registry p2) rid = None) as Hnone.
  { subst p2. unfold evict_if_alias. destruct (dict_get (aliases (remove_entry rid p)) rid) as [o|].
    - case_bool_decide; simpl; [rewrite dict_get_del_ne by done|]; apply dict_get_del_eq.
    - apply dict_get_del_eq. }
  set (p3 := mkRegistry _ _) in *.
  assert (newest p3 = Some (rid, e)) as Hnew3.
  { unfold newest, p3. simpl. rewrite dict_set_absent by done. apply last_snoc. }
  clearbody p3. set (p4 := if _ && _ then _ else p3).
  assert (pending_core p4 /\ newest p4 = Some (rid, e)) as [Hc4 Hn4].
  { subst p4. destruct (decide (conv ≠ "" /\ Some conv ≠ rid)) as [[He Hcr]|Hno].
    - rewrite bool_decide_false, bool_decide_true by done. simpl.
      split; [by apply (map_alias_core rid e)|by apply (stage_newest rid e)].
    - replace (_ && _) with false.
      2:{ symmetry. apply andb_false_iff. rewrite negb_false_iff, bool_decide_eq_true, bool_decide_eq_false.
          destruct (decide (conv = "")); [by left|right; tauto]. }
      split; [|done]. by apply (inserting_done rid e). }
  destruct (evict_oldest_spec (length (registry p4)) p4 (rid, e) Hc4 (le_n _) Hn4)
    as (H1 & H2 & H3 & _). done.
Qed.

(** ** The registry as a state machine *)

Inductive pending_step : Pending T -> Pending T -> Prop :=
  | pend_stage now rid conv c t ids p :
      pending_step p (stage_pending_restore now rid conv c t ids p)
  | pend_clear rid conv p : pending_step p (clear_pending_restore rid conv p)
  | pend_touch k p : pending_step p (touch k p).

Inductive pending_reachable : Pending T -> Prop :=
  | pend_reach_init : pending_reachable pending_init
  | pend_reach_step p p' : pending_reachable p -> pending_step p p' -> pending_reachable p'.

Lemma pending_core_touch k p : pending_core p -> pending_core (touch k p).
Proof.
  intros (Hr & Ha & J2 & J3). split_and!; simpl; [by apply dict_wf_move|done| |].
  - intros a c Hac. rewrite !dict_get_move. by apply J2.
  - intros k' e Hk. rewrite dict_get_move. by apply J3.
Qed.

Lemma clear_cases rid conv p :
  clear_pending_restore rid conv p = p \/
  exists c, clear_pending_restore rid conv p = remove_entry c p.
Proof.
  unfold clear_pending_restore. cbv zeta. destruct (_ || _); [by left|right]. by eexists.
Qed.

Lemma reachable_pending p :
  pending_reachable p -> pending_core p /\ len (registry p) <= PENDING_RESTORE_REGISTRY_MAX.
Proof.
  induction 1 as [|p p' _ [Hc Hl] Hs].
  - split; [|done]. split_and!; [apply dict_wf_nil|apply dict_wf_nil|done|done].
  - destruct Hs as [now rid conv c t ids p|rid conv p|k p].
    + by destruct (stage_spec now rid conv c t ids p Hc) as (? & ? & _).
    + destruct (clear_cases rid conv p) as [-> | (c & ->)]; [done|].
      split; [by apply pending_core_remove|]. simpl. unfold len in *.
      pose proof (dict_length_del_le (registry p) c). lia.
    + split; [by apply pending_core_touch|]. simpl. unfold len. rewrite dict_length_move; [done|apply Hc].
Qed.

(** in every state the registry reaches, it holds at most 256 entries;
    every alias names a live entry, one of that very conversation, and no
    alias is at the same time the key of an entry; every entry filed under a
    request id other than its conversation id can be reached through its
    alias; and no conversation has two entries staged under request ids. *)
Theorem pending_registry_invariant p :
  pending_reachable p ->
  len (registry p) <= PENDING_RESTORE_REGISTRY_MAX /\
  (forall a c, dict_get (aliases p) a = Some c ->
     dict_get (registry p) a = None /\
     exists e, dict_get (registry p) c = Some e /\ a = Some (pe_conversation_id e)) /\
  (forall k e, dict_get (registry p) (Some k) = Some e -> pe_conversation_id e ≠ "" ->
     pe_conversation_id e ≠ k -> dict_get (aliases p) (Some (pe_conversation_id e)) = Some (Some k)) /\
  (forall k k' e e', dict_get (registry p) (Some k) = Some e -> dict_get (registry p) (Some k') = Some e' ->
     pe_conversation_id e = pe_conversation_id e' -> pe_conversation_id e ≠ "" -> k = k').
Proof.
  intros [(_ & _ & J2 & J3) Hl]%reachable_pending. split_and!; [done| | |].
  - intros a c Hac. by destruct (J2 a c Hac) as (_ & ? & ?).
  - intros k e Hk Hne Hc. apply J3; congruence.
  - intros k k' e e' Hk Hk' Heq Hne.
    assert (forall k0 e0, dict_get (registry p) (Some k0) = Some e0 ->
      pe_conversation_id e0 = pe_conversation_id e -> k0 ≠ pe_conversation_id e ->
      dict_get (registry p) (Some (pe_conversation_id e)) = None /\
      dict_get (aliases p) (Some (pe_conversation_id e)) = Some (Some k0)) as Hal.
    { intros k0 e0 H0 Hc0 Hk0. rewrite <- Hc0 in *.
      assert (dict_get (aliases p) (Some (pe_conversation_id e0)) = Some (Some k0)) as Ha0
        by (apply J3; congruence).
      by destruct (J2 _ _ Ha0) as (_ & ? & _). }
    destruct (decide (k = pe_conversation_id e)) as [->|E1], (decide (k' = pe_conversation_id e)) as [->|E2].
    + done.
    + destruct (Hal k' e' Hk' (eq_sym Heq) E2). congruence.
    + destruct (Hal k e Hk eq_refl E1). congruence.
    + destruct (Hal k e Hk eq_refl E1), (Hal k' e' Hk' (eq_sym Heq) E2). congruence.
Qed.

Lemma newest_get p k e : dict_wf (registry p) -> newest p = Some (k, e) -> dict_get (registry p) k = Some e.
Proof.
  intros Hwf Hn. apply dict_elem_get; [done|]. by apply last_Some_elem_of.
Qed.

Lemma find_by_rid rid conv_id p :
  dict_has (registry p) (Some rid) = true -> find_pending rid conv_id p = Some (rid, true).
Proof. intros Hh. unfold find_pending. rewrite !Hh. simpl. by rewrite Hh. Qed.

Lemma find_by_alias rid conv_id p :
  dict_get (registry p) (Some rid) = None ->
  find_pending rid (Some conv_id) p =
    if bool_decide (conv_id = "") || bool_decide (conv_id = rid) then None
    else match dict_get (aliases p) (Some conv_id) with
         | Some (Some c) => if dict_has (registry p) (Some c) then Some (c, false) else None
         | _ => None
         end.
Proof.
  intros Hn%dict_has_false. unfold find_pending. rewrite Hn. simpl.
  destruct (decide (conv_id = "")) as [->|H1]; [done|]. rewrite bool_decide_false by done. simpl.
  destruct (decide (conv_id = rid)) as [->|H2]; [by rewrite !bool_decide_true|].
  rewrite !bool_decide_false by congruence. simpl.
  destruct (dict_get (aliases p) (Some conv_id)) as [[c|]|]; [|done..]. simpl.
  by destruct (dict_has (registry p) (Some c)).
Qed.

(** What is staged is found.  After [_stage_pending_restore] for a request
    id and a conversation id, the next request with that request id finds
    exactly the staged tensors and token ids, and so does a request with any
    other id (not itself staged) that carries the conversation id, provided
    the conversation id is not empty and differs from both request ids; after
    [_clear_pending_restore] for the same pair nothing is found. *)
Theorem staged_is_found now rid conv c t ids p :
  pending_reachable p ->
  let e := mkPending c t ids conv now in
  let p' := stage_pending_restore now (Some rid) conv c t ids p in
  let p'' := clear_pending_restore (Some rid) (Some conv) p' in
  (forall conv_id, find_pending rid conv_id p' = Some (rid, true)) /\
  dict_get (registry p') (Some rid) = Some e /\
  (conv ≠ "" -> conv ≠ rid -> forall rid',
     dict_get (registry p') (Some rid') = None -> rid' ≠ conv ->
     find_pending rid' (Some conv) p' = Some (rid, false)) /\
  dict_get (registry p'') (Some rid) = None /\ find_pending rid (Some conv) p'' = None.
Proof.
  intros [Hc _]%reachable_pending e p' p''.
  destruct (stage_spec now (Some rid) conv c t ids p Hc) as (Hc' & _ & Hn). fold p' e in Hc', Hn.
  assert (dict_get (registry p') (Some rid) = Some e) as He by (apply newest_get; [apply Hc'|done]).
  assert (dict_has (registry p') (Some rid) = true) as Hhas by (unfold dict_has; by rewrite He).
  assert (p'' = remove_entry (Some rid) p') as ->.
  { unfold p'', clear_pending_restore. cbv zeta. rewrite !Hhas. simpl. by rewrite Hhas. }
  assert (dict_get (registry (remove_entry (Some rid) p')) (Some rid) = None) as Hgone.
  { rewrite remove_entry_get. by rewrite decide_True. }
  destruct Hc' as (Hr & Ha & J2 & J3). split_and!.
  - intros conv_id. by apply find_by_rid.
  - done.
  - intros Hne Hcr rid' Hrid' Hrc. rewrite find_by_alias by done.
    rewrite !bool_decide_false by congruence. simpl.
    assert (dict_get (aliases p') (Some conv) = Some (Some rid)) as -> by (apply (J3 (Some rid) e); simpl; congruence).
    by rewrite Hhas.
  - done.
  - rewrite find_by_alias by done. destruct (_ || _) eqn:Hb; [done|].
    apply orb_false_iff in Hb as [Hne%bool_decide_eq_false Hcr%bool_decide_eq_false].
    destruct (dict_get (aliases (remove_entry (Some rid) p')) (Some conv)) as [k|] eqn:E; [|done].
    simpl in E. apply drop_aliases_get in E as [E Hk]; [|done].
    assert (dict_get (aliases p') (Some conv) = Some (Some rid)) as Hal
      by (apply (J3 (Some rid) e); simpl; congruence).
    congruence.
Qed.

End pending.

(** ** Witnesses *)

Definition demo_pending : Pending ctensor :=
  stage_pending_restore 1 (Some "r1") "conv" [] (CState float32 []) (Some [7]) pending_init.

Lemma demo_pending_reachable : pending_reachable demo_pending.
Proof. eapply pend_reach_step; [apply pend_reach_init|apply pend_stage]. Qed.

Lemma pending_registry_invariant_witness :
  dict_get (aliases demo_pending) (Some "conv") = Some (Some "r1") /\
  len (registry demo_pending) <= PENDING_RESTORE_REGISTRY_MAX.
Proof.
  split; [vm_compute; reflexivity|].
  exact (proj1 (pending_registry_invariant demo_pending demo_pending_reachable)).
Defined.

(** A second staging for the same conversation replaces the first. *)
Lemma staged_is_found_witness :
  let p' := stage_pending_restore 2 (Some "r2") "conv" [] (CState float32 []) None demo_pending in
  find_pending "r2" None p' = Some ("r2", true) /\ dict_keys (registry p') = [Some "r2"].
Proof.
  split; [|vm_compute; reflexivity].
  exact (proj1 (staged_is_found 2 "r2" "conv" [] (CState float32 []) None demo_pending
    demo_pending_reachable) None).
Defined.

(** A state staged under the conversation's own id, or without a request id, is
    not found by a request that carries the conversation id and another
    request id. *)
Lemma staged_under_conversation_id_missed :
  find_pending "r9" (Some "conv")
    (stage_pending_restore 1 (Some "conv") "conv" [] (CState float32 []) (Some [7]) pending_init) = None /\
  find_pending "r9" (Some "conv")
    (stage_pending_restore 1 None "conv" [] (CState float32 []) (Some [7]) pending_init) = None.
Proof. split; vm_compute; reflexivity. Qed.
