(* ===== verification/Hooks.v ===== *)
(** * SnapshotHookManager (snapshot/snapshot_hooks.py)

    Three lists of callbacks, run at three points of a request's life.  A
    callback is code over the state [S] of the scheduler it closes over; the
    request, the pools and the context it is given are the fields of
    [SnapshotTrigger] (the pools are parts of [S], so the trigger only says
    whether there is a Mamba pool).  Registration and triggering hold a lock
    only while the list is read or written. *)

From S2P Require Import Prelude PyDict.

Record SnapshotTrigger (R : Type) := mkTrigger {
  tr_req : R;
  tr_turn_number : Z;
  tr_reason : string;
  tr_additional_context : option pydict;
}.
Arguments mkTrigger {R} _ _ _ _.
Arguments tr_req {R} _.
Arguments tr_turn_number {R} _.
Arguments tr_reason {R} _.
Arguments tr_additional_context {R} _.

Section hooks.
Context {S R : Type}.
(** [req.mamba_pool_idx]: [None] when the attribute is missing or [None]. *)
Context (pool_idx_of : R -> S -> option Z).

Definition hook : Type := SnapshotTrigger R -> M S unit.

Record SnapshotHookManager := mkHooks {
  hooks_enabled : bool;
  post_forward_hooks : list hook;
  pre_eviction_hooks : list hook;
  on_demand_hooks : list hook;
}.

Definition hooks_init (enabled : bool) : SnapshotHookManager := mkHooks enabled [] [] [].

Definition register_post_forward_hook (h : hook) (m : SnapshotHookManager) : SnapshotHookManager :=
  mkHooks (hooks_enabled m) (post_forward_hooks m ++ [h]) (pre_eviction_hooks m) (on_demand_hooks m).

Definition register_pre_eviction_hook (h : hook) (m : SnapshotHookManager) : SnapshotHookManager :=
  mkHooks (hooks_enabled m) (post_forward_hooks m) (pre_eviction_hooks m ++ [h]) (on_demand_hooks m).

Definition register_on_demand_hook (h : hook) (m : SnapshotHookManager) : SnapshotHookManager :=
  mkHooks (hooks_enabled m) (post_forward_hooks m) (pre_eviction_hooks m) (on_demand_hooks m ++ [h]).

(** [for hook in hooks: try: hook(trigger) except Exception: log] *)
Definition run_hooks (l : list hook) (t : SnapshotTrigger R) : M S unit :=
  for_each l (fun h => try_except (h t) (fun _ => mret tt)).

(** The guards shared by the three triggers. *)
Definition trigger_hooks (l : list hook) (reason : string) (m : SnapshotHookManager) (req : R)
    (has_mamba_pool : bool) (turn_number : Z) (ctx : option pydict) : M S unit := fun s =>
  if negb (hooks_enabled m) then (Ok tt, s)
  else if negb has_mamba_pool then (Ok tt, s)
  else match pool_idx_of req s with
       | None => (Ok tt, s)
       | Some _ => run_hooks l (mkTrigger req turn_number reason ctx) s
       end.

Definition trigger_post_forward (m : SnapshotHookManager) :=
  trigger_hooks (post_forward_hooks m) "post_forward" m.

Definition trigger_pre_eviction (m : SnapshotHookManager) :=
  trigger_hooks (pre_eviction_hooks m) "pre_eviction" m.

Definition trigger_on_demand (m : SnapshotHookManager) :=
  trigger_hooks (on_demand_hooks m) "on_demand" m.

Definition clear_hooks (hook_type : option string) (m : SnapshotHookManager) : SnapshotHookManager :=
  let clears k := bool_decide (hook_type = None) || bool_decide (hook_type = Some k) in
  mkHooks (hooks_enabled m)
    (if clears "post_forward" then [] else post_forward_hooks m)
    (if clears "pre_eviction" then [] else pre_eviction_hooks m)
    (if clears "on_demand" then [] else on_demand_hooks m).

Definition get_hook_count (m : SnapshotHookManager) : dict string Z :=
  [("post_forward", len (post_forward_hooks m)); ("pre_eviction", len (pre_eviction_hooks m));
   ("on_demand", len (on_demand_hooks m))].

(** ** Failures stay inside the hook that failed *)

Lemma run_hooks_fold l t s :
  run_hooks l t s = (Ok tt, foldl (fun s h => (h t s).2) s l).
Proof.
  unfold run_hooks. revert s. induction l as [|h l IH]; intros s; simpl; [done|].
  erewrite bind_ok; [apply IH|]. unfold try_except. by destruct (h t s) as [[[]|e] s'].
Qed.

(** Triggering the post-forward hooks never raises.  With the manager
    enabled, a Mamba pool and a slot on the request, every registered hook
    runs once, in registration order, each on the state the hooks before it
    left, whether those returned or raised; a hook registered last runs last;
    otherwise nothing runs and the state is untouched. *)
Theorem hooks_run_all m h req has_pool turn ctx s :
  let t := mkTrigger req turn "post_forward" ctx in
  let active := hooks_enabled m && has_pool && bool_decide (is_Some (pool_idx_of req s)) in
  trigger_post_forward m req has_pool turn ctx s =
    (Ok tt, if active then foldl (fun s h => (h t s).2) s (post_forward_hooks m) else s) /\
  (active = true ->
   trigger_post_forward (register_post_forward_hook h m) req has_pool turn ctx s =
     (Ok tt, (h t (trigger_post_forward m req has_pool turn ctx s).2).2)) /\
  (trigger_post_forward (clear_hooks None m) req has_pool turn ctx s = (Ok tt, s)).
Proof.
  cbv zeta. unfold trigger_post_forward, trigger_hooks.
  destruct (hooks_enabled m) eqn:He, has_pool, (pool_idx_of req s) as [i|] eqn:Hi; simpl;
    rewrite ?He, ?Hi, ?run_hooks_fold; simpl; split_and!; try done.
  intros _. by rewrite foldl_app.
Qed.
End hooks.
