(* ===== verification/Health.v ===== *)
(** * StateHealthMonitor (snapshot/state_health.py)

    Rolling windows of tensor norms, one per layer and conversation, and a
    test that flags a norm far from the window's mean.  The norm of a layer is
    PyTorch's ([TorchNorm]).  The floating-point operations of the code are an
    interface too ([FloatOps]): nothing below depends on their rounding, and
    the built-in [sum] rounds differently in different Python versions.
    [spec_float_ops] instantiates it with IEEE-754 binary64 arithmetic. *)

From Stdlib Require Import SpecFloat.
From S2P Require Import Prelude PyDict Torch Metadata.

Class FloatOps (F : Type) := {
  f_zero : F;
  f_inf : F;
  f_sum : list F -> F;          (** [sum(window)] *)
  f_div_int : F -> Z -> F;      (** [x / n] *)
  f_sub : F -> F -> F;
  f_div : F -> F -> F;
  f_mul : F -> F -> F;
  f_square : F -> F;            (** [x ** 2] *)
  f_sqrt : F -> F;              (** [math.sqrt] *)
  f_abs : F -> F;
  f_eqb : F -> F -> bool;       (** [==] *)
  f_gtb : F -> F -> bool;       (** [>] *)
}.

(** [[torch.linalg.norm(t[i].float()).item() for i in range(t.shape[0])]] *)
Class TorchNorm (T F : Type) := layer_norms : T -> list F.

Section health.
Context {T F : Type} `{Torch T} `{!FloatOps F} `{!TorchNorm T F}.

Record NormBaseline := mkBaseline {
  windows : dict Z (list F);
  window_size : Z;
}.

Definition baseline_init (size : Z) : NormBaseline := mkBaseline [] size.

(** [deque(maxlen=n).append(x)]: the oldest values fall out. *)
Definition deque_append (n : Z) (l : list F) (x : F) : list F :=
  let l' := l ++ [x] in drop (length l' - Z.to_nat n) l'.

Definition baseline_update (layer_idx : Z) (norm_value : F) (b : NormBaseline) : NormBaseline :=
  let w := match dict_get (windows b) layer_idx with Some w => w | None => [] end in
  mkBaseline (dict_set (windows b) layer_idx (deque_append (window_size b) w norm_value))
    (window_size b).

(** (mean, std, count) *)
Definition baseline_stats (layer_idx : Z) (b : NormBaseline) : F * F * Z :=
  match dict_get (windows b) layer_idx with
  | None | Some [] => (f_zero, f_zero, 0)
  | Some window =>
      let count := len window in
      let mean := f_div_int (f_sum window) count in
      if bool_decide (count < 2) then (mean, f_zero, count)
      else
        let variance := f_div_int (f_sum ((fun x => f_square (f_sub x mean)) <$> window)) (count - 1) in
        (mean, f_sqrt variance, count)
  end.

Definition is_anomalous (layer_idx : Z) (norm_value sigma_threshold : F) (b : NormBaseline) : bool :=
  match dict_get (windows b) layer_idx with
  | None => false
  | Some window =>
      if bool_decide (len window < 2) then false
      else
        let '(mean, std, _) := baseline_stats layer_idx b in
        if f_eqb std f_zero then negb (f_eqb norm_value mean)
        else f_gtb (f_abs (f_sub norm_value mean)) (f_mul sigma_threshold std)
  end.

Definition baseline_clear (b : NormBaseline) : NormBaseline := mkBaseline [] (window_size b).

(** The dictionary recorded for an anomalous layer. *)
Record AnomalyDetail := mkDetail {
  an_norm : F;
  an_mean : F;
  an_std : F;
  an_sigma_deviation : F;
  an_source : string;
}.

Record HealthCheckResult := mkHealth {
  healthy : bool;
  anomalous_layers : list Z;
  details : dict Z AnomalyDetail;
  structural_errors : list string;
  hc_timestamp : Z;
  hc_conversation_id : string;
  hc_turn_number : Z;
}.

Record StateHealthMonitor := mkMonitor {
  baselines : dict string NormBaseline;
  monitor_window_size : Z;
  sigma_threshold : F;
}.

Definition monitor_init (size : Z) (sigma : F) : StateHealthMonitor := mkMonitor [] size sigma.

(** The accumulators of the loops of [check_state_health]. *)
Record Scan := mkScan {
  sc_baseline : NormBaseline;
  sc_anomalous : list Z;
  sc_details : dict Z AnomalyDetail;
  sc_layer_idx : Z;
}.

(** The body of the inner loops, for one norm. *)
Definition check_norm (sigma : F) (source : string) (a : Scan) (norm : F) : Scan :=
  let i := sc_layer_idx a in
  let b := sc_baseline a in
  if is_anomalous i norm sigma b then
    let '(mean, std, _) := baseline_stats i b in
    let dev := if f_gtb std f_zero then f_div (f_abs (f_sub norm mean)) std else f_inf in
    mkScan b (sc_anomalous a ++ [i]) (dict_set (sc_details a) i (mkDetail norm mean std dev source))
      (i + 1)
  else mkScan (baseline_update i norm b) (sc_anomalous a) (sc_details a) (i + 1).

Definition check_tensor_norms (sigma : F) (source : string) (a : Scan) (t : T) : Scan :=
  foldl (check_norm sigma source) a (layer_norms t).

(** [_get_baseline] *)
Definition get_baseline (cid : string) (m : StateHealthMonitor) : NormBaseline :=
  match dict_get (baselines m) cid with
  | Some b => b
  | None => baseline_init (monitor_window_size m)
  end.

Definition check_state_health (now : Z) (cid : string) (conv_states : list T)
    (temporal_states : T) (turn_number : Z) (m : StateHealthMonitor) :
    HealthCheckResult * StateHealthMonitor :=
  let validation := validate_state_tensors conv_states temporal_states None false in
  if negb (is_valid validation) then
    (mkHealth false [] [] (errors validation) now cid turn_number, m)
  else
    let a0 := mkScan (get_baseline cid m) [] [] 0 in
    let a1 := foldl (check_tensor_norms (sigma_threshold m) "conv_state") a0 conv_states in
    let a2 := check_tensor_norms (sigma_threshold m) "temporal_states" a1 temporal_states in
    (mkHealth (bool_decide (len (sc_anomalous a2) = 0)) (sc_anomalous a2) (sc_details a2) []
       now cid turn_number,
     mkMonitor (dict_set (baselines m) cid (sc_baseline a2)) (monitor_window_size m)
       (sigma_threshold m)).

Definition get_conversation_health (cid : string) (m : StateHealthMonitor) : option NormBaseline :=
  dict_get (baselines m) cid.

Definition reset_baseline (cid : string) (m : StateHealthMonitor) : StateHealthMonitor :=
  match dict_get (baselines m) cid with
  | Some b => mkMonitor (dict_set (baselines m) cid (baseline_clear b)) (monitor_window_size m)
                (sigma_threshold m)
  | None => m
  end.

(** ** Windows *)

(** No window is longer than the window size. *)
Definition baseline_ok (b : NormBaseline) : Prop :=
  forall i w, dict_get (windows b) i = Some w -> len w <= Z.max 0 (window_size b).

Definition monitor_ok (m : StateHealthMonitor) : Prop :=
  forall cid b, dict_get (baselines m) cid = Some b ->
    baseline_ok b /\ window_size b = monitor_window_size m.

Lemma baseline_update_ok i x b : baseline_ok b -> baseline_ok (baseline_update i x b).
Proof.
  intros Hb j w. simpl. destruct (decide (i = j)) as [<-|Hne].
  - rewrite dict_get_set_eq. intros [= <-]. unfold deque_append, len.
    rewrite length_drop. lia.
  - rewrite dict_get_set_ne by done. apply Hb.
Qed.

Lemma check_norm_baseline sigma src a x :
  sc_baseline (check_norm sigma src a x) =
    (if is_anomalous (sc_layer_idx a) x sigma (sc_baseline a) then sc_baseline a
     else baseline_update (sc_layer_idx a) x (sc_baseline a)) /\
  sc_layer_idx (check_norm sigma src a x) = sc_layer_idx a + 1.
Proof.
  unfold check_norm. destruct (is_anomalous _ _ _ _); [|done].
  by destruct (baseline_stats _ _) as [[mean std] n].
Qed.

(** A property of baselines that updates keep holds after a scan. *)
Lemma scan_baseline (P : NormBaseline -> Prop) sigma src l a :
  (forall i x b, P b -> P (baseline_update i x b)) ->
  P (sc_baseline a) -> P (sc_baseline (foldl (check_norm sigma src) a l)).
Proof.
  intros Hu. revert a. induction l as [|x l IH]; intros a Ha; simpl; [done|]. apply IH.
  destruct (check_norm_baseline sigma src a x) as [-> _]. by destruct (is_anomalous _ _ _ _); [|apply Hu].
Qed.

Lemma scan_conv (P : NormBaseline -> Prop) sigma l a :
  (forall i x b, P b -> P (baseline_update i x b)) ->
  P (sc_baseline a) -> P (sc_baseline (foldl (check_tensor_norms sigma "conv_state") a l)).
Proof.
  intros Hu. revert a. induction l as [|t l IH]; intros a Ha; simpl; [done|].
  apply IH. unfold check_tensor_norms. by apply scan_baseline.
Qed.

Lemma check_monitor_ok now cid c t n m :
  monitor_ok m -> monitor_ok (check_state_health now cid c t n m).2.
Proof.
  intros Hm. unfold check_state_health. destruct (negb _); [done|].
  set (P b := baseline_ok b /\ window_size b = monitor_window_size m).
  assert (forall i x b, P b -> P (baseline_update i x b)) as Hu.
  { intros i x b [Hb Hs]. split; [by apply baseline_update_ok|done]. }
  assert (P (get_baseline cid m)) as H0.
  { unfold get_baseline. destruct (dict_get (baselines m) cid) eqn:E; [by eapply Hm|].
    split; [|done]. intros i w. done. }
  intros cid' b. simpl. destruct (decide (cid = cid')) as [<-|Hne].
  - rewrite dict_get_set_eq. intros [= <-]. unfold check_tensor_norms at 1.
    apply (scan_baseline P); [done|]. by apply (scan_conv P).
  - rewrite dict_get_set_ne by done. apply Hm.
Qed.

Lemma reset_monitor_ok cid m : monitor_ok m -> monitor_ok (reset_baseline cid m).
Proof.
  intros Hm. unfold reset_baseline. destruct (dict_get (baselines m) cid) as [b|] eqn:E; [|done].
  intros cid' b'. simpl. destruct (decide (cid = cid')) as [<-|Hne].
  - rewrite dict_get_set_eq. intros [= <-]. destruct (Hm _ _ E). by split.
  - rewrite dict_get_set_ne by done. apply Hm.
Qed.

(** ** A fresh baseline *)

(** Nothing recorded from layer [i] on. *)
Definition fresh_from (i : Z) (b : NormBaseline) : Prop :=
  forall j, i <= j -> dict_get (windows b) j = None.

Lemma fresh_scan sigma src l a :
  sc_anomalous a = [] -> fresh_from (sc_layer_idx a) (sc_baseline a) ->
  let a' := foldl (check_norm sigma src) a l in
  sc_anomalous a' = [] /\ fresh_from (sc_layer_idx a') (sc_baseline a').
Proof.
  revert a. induction l as [|x l IH]; intros a Ha Hf; [done|]. cbn [foldl].
  assert (is_anomalous (sc_layer_idx a) x sigma (sc_baseline a) = false) as Hna.
  { unfold is_anomalous. by rewrite Hf. }
  apply IH; unfold check_norm; rewrite Hna; [done|]. intros j Hj. simpl in *.
  rewrite dict_get_set_ne by lia. apply Hf. lia.
Qed.

Lemma fresh_conv sigma l a :
  sc_anomalous a = [] -> fresh_from (sc_layer_idx a) (sc_baseline a) ->
  let a' := foldl (check_tensor_norms sigma "conv_state") a l in
  sc_anomalous a' = [] /\ fresh_from (sc_layer_idx a') (sc_baseline a').
Proof.
  revert a. induction l as [|t l IH]; intros a Ha Hf; [done|]. cbn [foldl].
  destruct (fresh_scan sigma "conv_state" (layer_norms t) a Ha Hf) as [H1 H2]. by apply IH.
Qed.

Inductive monitor_reachable (size : Z) (sigma : F) : StateHealthMonitor -> Prop :=
  | mon_init : monitor_reachable size sigma (monitor_init size sigma)
  | mon_check now cid c t n m :
      monitor_reachable size sigma m ->
      monitor_reachable size sigma (check_state_health now cid c t n m).2
  | mon_reset cid m :
      monitor_reachable size sigma m -> monitor_reachable size sigma (reset_baseline cid m).

Lemma reachable_monitor_ok size sigma m : monitor_reachable size sigma m -> monitor_ok m.
Proof. induction 1; [done|by apply check_monitor_ok|by apply reset_monitor_ok]. Qed.

(** the health monitor never keeps more norms per layer than the window
    size, whatever it is fed; a state that fails structural validation is
    unhealthy and leaves every baseline as it was; and right after
    [reset_baseline] of a conversation (which leaves the other conversations
    alone), the first structurally valid state of that conversation is
    healthy, whatever its norms. *)
Theorem health_monitor_spec size sigma m now cid c t n :
  monitor_reachable size sigma m ->
  (forall cid' b i w, dict_get (baselines m) cid' = Some b -> dict_get (windows b) i = Some w ->
     len w <= Z.max 0 (monitor_window_size m)) /\
  (forall cid', cid' ≠ cid -> dict_get (baselines (reset_baseline cid m)) cid' = dict_get (baselines m) cid') /\
  if is_valid (validate_state_tensors c t None false)
  then healthy (check_state_health now cid c t n (reset_baseline cid m)).1 = true
  else healthy (check_state_health now cid c t n m).1 = false /\
       (check_state_health now cid c t n m).2 = m.
Proof.
  intros Hr%reachable_monitor_ok. split_and!.
  - intros cid' b i w Hb Hw. destruct (Hr _ _ Hb) as [Hok <-]. by eapply Hok.
  - intros cid' Hne. unfold reset_baseline. destruct (dict_get (baselines m) cid); [|done].
    simpl. by rewrite dict_get_set_ne.
  - unfold check_state_health. destruct (is_valid _) eqn:Hv; [|done]. cbn [negb fst healthy].
    assert (fresh_from 0 (get_baseline cid (reset_baseline cid m))) as Hf.
    { intros j _. unfold get_baseline, reset_baseline.
      destruct (dict_get (baselines m) cid) eqn:E; simpl; [by rewrite dict_get_set_eq|by rewrite E]. }
    set (a0 := mkScan _ _ _ _).
    destruct (fresh_conv (sigma_threshold (reset_baseline cid m)) c a0 eq_refl Hf) as [H1 H2].
    destruct (fresh_scan (sigma_threshold (reset_baseline cid m)) "temporal_states"
      (layer_norms t) _ H1 H2) as [H3 _].
    apply bool_decide_eq_true. unfold check_tensor_norms at 1. by rewrite H3.
Qed.
End health.

(** ** Witness *)

(** IEEE-754 binary64. *)
#[global] Instance spec_float_ops : FloatOps spec_float := {|
  f_zero := S754_zero false;
  f_inf := S754_infinity false;
  f_sum l := fold_left (SFadd 53 1024) l (S754_zero false);
  f_div_int x n := SFdiv 53 1024 x (binary_normalize 53 1024 n 0 false);
  f_sub := SFsub 53 1024;
  f_div := SFdiv 53 1024;
  f_mul := SFmul 53 1024;
  f_square x := SFmul 53 1024 x x;
  f_sqrt := SFsqrt 53 1024;
  f_abs := SFabs;
  f_eqb := SFeqb;
  f_gtb x y := SFltb y x;
|}.

Definition sf (n : Z) : spec_float := binary_normalize 53 1024 n 0 false.

(** The sum of the finite entries of a row stands for its norm. *)
#[global] Instance ctensor_norm : TorchNorm ctensor spec_float := fun t =>
  match t with
  | CState _ rows => map (fun r => sf (sumZ (fun e => match e with Fin z => Z.abs z | _ => 0 end) r)) rows
  | CPool _ _ => []
  end.

Definition hstate (n : Z) : ctensor := CState float32 [[Fin n]].

Definition demo_monitor : StateHealthMonitor (F:=spec_float) :=
  foldl (fun m n => (check_state_health 0 "a" [hstate n] (hstate n) 0 m).2)
    (monitor_init 100 (sf 3)) [10; 11; 10; 11].

(** The monitor flags a jump of the norm, and accepts it after a reset. *)
Lemma health_monitor_spec_witness :
  healthy (check_state_health 0 "a" [hstate 99] (hstate 10) 5 demo_monitor).1 = false /\
  anomalous_layers (check_state_health 0 "a" [hstate 99] (hstate 10) 5 demo_monitor).1 = [0] /\
  healthy (check_state_health 0 "a" [hstate 99] (hstate 10) 5 (reset_baseline "a" demo_monitor)).1 = true.
Proof.
  split; [vm_compute; reflexivity|]. split; [vm_compute; reflexivity|].
  assert (monitor_reachable 100 (sf 3) demo_monitor) as Hr.
  { unfold demo_monitor. cbn [foldl]. do 4 apply mon_check. apply mon_init. }
  exact (proj2 (proj2 (health_monitor_spec 100 (sf 3) demo_monitor 0 "a" [hstate 99] (hstate 10) 5 Hr))).
Defined.
