(* ===== verification/Scheduler.v ===== *)
(** * The scheduler's snapshot handlers
    (managers/scheduler_snapshot_handlers.py)

    The handlers work on a scheduler object.  [Scheduler] has the attributes
    they read and write.  Requests and batches are objects that several
    queues share, so they live in a heap ([sch_reqs], [sch_batches]) and the
    queues hold references; a handler that changes a request changes it for
    everybody.  The disk is reached through the tier manager's record
    ([sch_tier]), whose tracker and host pool only count when tiers are on
    ([sch_tiers]).

    The scheduler runs in the default mode: no prefill/decode disaggregation
    and no priority scheduling.  [http_worker_ipc], the sampling parameters
    other than [max_new_tokens], and log output are not modelled. *)

From S2P Require Import Prelude PyDict PyText Torch Metadata MambaPool Tracker HostPool.
From S2P Require Import SnapshotStore StoreInterface Policy TierManager PendingRestore Health.

(** ** Requests *)

Record Req := mkReq {
  rid : string;
  req_conversation_id : option string;
  req_mamba_pool_idx : option Z;
  mamba_has_restored_state : bool;
  origin_input_ids : list Z;
  req_fill_ids : option (list Z);
  req_pool_idx : option Z;
  max_new_tokens : option Z;
  is_stateful_generate : bool;
  to_finish : option string;               (** the message of [FINISH_ABORT] *)
}.

Definition set_pool_idx (i : option Z) (b : bool) (r : Req) : Req :=
  mkReq (rid r) (req_conversation_id r) i b (origin_input_ids r) (req_fill_ids r)
    (req_pool_idx r) (max_new_tokens r) (is_stateful_generate r) (to_finish r).
Definition set_conversation (c : option string) (r : Req) : Req :=
  mkReq (rid r) c (req_mamba_pool_idx r) (mamba_has_restored_state r) (origin_input_ids r)
    (req_fill_ids r) (req_pool_idx r) (max_new_tokens r) (is_stateful_generate r) (to_finish r).
Definition set_ids (origin : list Z) (fill : option (list Z)) (r : Req) : Req :=
  mkReq (rid r) (req_conversation_id r) (req_mamba_pool_idx r) (mamba_has_restored_state r)
    origin fill (req_pool_idx r) (max_new_tokens r) (is_stateful_generate r) (to_finish r).
Definition set_max_new_tokens (n : option Z) (r : Req) : Req :=
  mkReq (rid r) (req_conversation_id r) (req_mamba_pool_idx r) (mamba_has_restored_state r)
    (origin_input_ids r) (req_fill_ids r) (req_pool_idx r) n (is_stateful_generate r) (to_finish r).

(** [set_finish_with_abort] (schedule_batch.py), on the attributes above. *)
Definition set_finish_with_abort (error_msg : string) (r : Req) : Req :=
  mkReq (rid r) (req_conversation_id r) (req_mamba_pool_idx r) (mamba_has_restored_state r) [0]
    (req_fill_ids r) (req_pool_idx r) (max_new_tokens r) (is_stateful_generate r) (Some error_msg).

(** ** The scheduler *)

Record ServerArgs := mkArgs {
  sa_model_path : string;
  sa_max_req_input_len : Z;
  sa_max_req_len : Z;
  sa_max_total_num_tokens : Z;
  sa_page_size : Z;
  sa_max_queued_requests : option Z;
  sa_health_check_interval : Z;
  sa_health_failure_policy : string;
}.

Record Scheduler (S T F : Type) := mkSched {
  server_args : ServerArgs;
  sch_snapshots : bool;                      (** [snapshot_manager is not None] *)
  sch_tiers : bool;                          (** [tier_manager is not None] *)
  sch_tier : TierManager S T;
  mamba_pool : option (MambaPool T);         (** [req_to_token_pool.mamba_pool] *)
  num_mamba_layers : Z;
  pending : Pending T;
  health_monitor : option (StateHealthMonitor (F:=F));
  health_check_counter : dict string Z;
  snapshot_policy : SnapshotRetentionPolicy;
  sch_reqs : gmap nat Req;
  sch_batches : gmap nat (list nat);
  running_batch : option nat;
  cur_batch : option nat;
  last_batch : option nat;
  waiting_queue : list nat;
  aborted : list string;                     (** rids of the aborts sent to clients *)
}.
Arguments mkSched {S T F} _ _ _ _ _ _ _ _ _ _ _ _ _ _ _ _ _.
Arguments server_args {S T F} _.
Arguments sch_snapshots {S T F} _.
Arguments sch_tiers {S T F} _.
Arguments sch_tier {S T F} _.
Arguments mamba_pool {S T F} _.
Arguments num_mamba_layers {S T F} _.
Arguments pending {S T F} _.
Arguments health_monitor {S T F} _.
Arguments health_check_counter {S T F} _.
Arguments snapshot_policy {S T F} _.
Arguments sch_reqs {S T F} _.
Arguments sch_batches {S T F} _.
Arguments running_batch {S T F} _.
Arguments cur_batch {S T F} _.
Arguments last_batch {S T F} _.
Arguments waiting_queue {S T F} _.
Arguments aborted {S T F} _.

Section scheduler.
Context {S T F : Type} `{Torch T} `{!SnapshotManager S T} `{!FloatOps F} `{!TorchNorm T F}.
Abbreviation Sch := (Scheduler S T F).

Definition upd_tier (t : TierManager S T) (x : Sch) : Sch :=
  mkSched (server_args x) (sch_snapshots x) (sch_tiers x) t (mamba_pool x) (num_mamba_layers x)
    (pending x) (health_monitor x) (health_check_counter x) (snapshot_policy x) (sch_reqs x)
    (sch_batches x) (running_batch x) (cur_batch x) (last_batch x) (waiting_queue x) (aborted x).
Definition upd_pool (p : option (MambaPool T)) (x : Sch) : Sch :=
  mkSched (server_args x) (sch_snapshots x) (sch_tiers x) (sch_tier x) p (num_mamba_layers x)
    (pending x) (health_monitor x) (health_check_counter x) (snapshot_policy x) (sch_reqs x)
    (sch_batches x) (running_batch x) (cur_batch x) (last_batch x) (waiting_queue x) (aborted x).
Definition upd_pending (p : Pending T) (x : Sch) : Sch :=
  mkSched (server_args x) (sch_snapshots x) (sch_tiers x) (sch_tier x) (mamba_pool x)
    (num_mamba_layers x) p (health_monitor x) (health_check_counter x) (snapshot_policy x)
    (sch_reqs x) (sch_batches x) (running_batch x) (cur_batch x) (last_batch x)
    (waiting_queue x) (aborted x).
Definition upd_health (m : option (StateHealthMonitor (F:=F))) (c : dict string Z) (x : Sch) : Sch :=
  mkSched (server_args x) (sch_snapshots x) (sch_tiers x) (sch_tier x) (mamba_pool x)
    (num_mamba_layers x) (pending x) m c (snapshot_policy x) (sch_reqs x) (sch_batches x)
    (running_batch x) (cur_batch x) (last_batch x) (waiting_queue x) (aborted x).
Definition upd_policy (p : SnapshotRetentionPolicy) (x : Sch) : Sch :=
  mkSched (server_args x) (sch_snapshots x) (sch_tiers x) (sch_tier x) (mamba_pool x)
    (num_mamba_layers x) (pending x) (health_monitor x) (health_check_counter x) p (sch_reqs x)
    (sch_batches x) (running_batch x) (cur_batch x) (last_batch x) (waiting_queue x) (aborted x).
Definition upd_reqs (h : gmap nat Req) (q : list nat) (a : list string) (x : Sch) : Sch :=
  mkSched (server_args x) (sch_snapshots x) (sch_tiers x) (sch_tier x) (mamba_pool x)
    (num_mamba_layers x) (pending x) (health_monitor x) (health_check_counter x)
    (snapshot_policy x) h (sch_batches x) (running_batch x) (cur_batch x) (last_batch x) q a.

(** Code of the parts, as code of the scheduler. *)
Definition on_tier {A} (m : M (TierManager S T) A) : M Sch A := zoom sch_tier upd_tier m.
Definition on_disk {A} (m : M S A) : M Sch A := on_tier (on_store m).
(** [m] on a pool the caller has checked to be there. *)
Definition on_pool {A} (m : M (MambaPool T) A) : M Sch A := fun x =>
  match mamba_pool x with
  | Some p => let '(r, p') := m p in (r, upd_pool (Some p') x)
  | None => (Raise (Exn AttributeError "NoneType"), x)
  end.
Definition update_req (ref : nat) (f : Req -> Req) : M Sch unit :=
  modify (fun x => upd_reqs (alter f ref (sch_reqs x)) (waiting_queue x) (aborted x) x).

(** ** _find_request_by_rid *)

Definition req_of (x : Sch) (ref : nat) : option Req := sch_reqs x !! ref.

(** The first reference of a list whose request has id [r]. *)
Definition search_reqs (x : Sch) (r : string) (l : list nat) : option nat :=
  snd <$> list_find (fun ref => (rid <$> req_of x ref) = Some r) l.

(** One batch of the loop; [seen] are the identities of the batches before. *)
Definition search_batch (x : Sch) (r : string) (seen : list nat) (batch : option nat) : option nat :=
  match batch with
  | None => None
  | Some b =>
      if bool_decide (b ∈ seen) then None
      else match sch_batches x !! b with
           | Some l => search_reqs x r l
           | None => None
           end
  end.

Definition seen_with (seen : list nat) (batch : option nat) : list nat :=
  match batch with Some b => b :: seen | None => seen end.

Definition find_request_by_rid (r : option string) (x : Sch) : option nat :=
  match r with
  | None => None
  | Some r =>
      let s1 := seen_with [] (running_batch x) in
      let s2 := seen_with s1 (cur_batch x) in
      match search_batch x r [] (running_batch x) with
      | Some ref => Some ref
      | None =>
          match search_batch x r s1 (cur_batch x) with
          | Some ref => Some ref
          | None =>
              match search_batch x r s2 (last_batch x) with
              | Some ref => Some ref
              | None => search_reqs x r (waiting_queue x)
              end
          end
      end
  end.

(** ** The pending-restore path *)

(** A conversation id handed to the snapshot manager: the manager refuses
    [None] like the empty string ([if not component: raise ValueError]). *)
Definition disk_id (conversation_id : option string) : string :=
  match conversation_id with Some c => c | None => "" end.

Definition load_snapshot_for_pending_restore (now : Z) (conversation_id : option string)
    (turn_number : option Z) (branch_name : option string) : M Sch (option (restored T)) :=
  tiers ← gets sch_tiers;
  held ← gets (fun x => match conversation_id with
                        | Some c => has_state c (host_pool (sch_tier x))
                        | None => false
                        end);
  warm ← (if (tiers : bool) && bool_decide (turn_number = None) && bool_decide (branch_name = None)
             && (held : bool)
          then on_tier (restore_from_warm_tier now (disk_id conversation_id)) else mret None);
  match warm with
  | Some r => mret (Some r)
  | None =>
      try_except
        ('(c, t, m) ← on_disk (sm_load (disk_id conversation_id) turn_number branch_name);
         mret (Some (c, t, to_dict m)))
        (fun e => if isinstance e FileNotFoundError || isinstance e ValueError
                  then mret None else reraise e)
  end.

(** [if state_health_monitor is not None: reset_baseline(c); counter[c] = 0] *)
Definition reset_health (conversation_id : string) : M Sch unit :=
  modify (fun x =>
    match health_monitor x with
    | Some m => upd_health (Some (reset_baseline conversation_id m))
                  (dict_set (health_check_counter x) conversation_id 0) x
    | None => x
    end).

(** [mamba_pool.alloc(1)] *)
Definition alloc_slot : M Sch (option Z) :=
  on_pool (fun p =>
    match alloc 1 p with
    | (Some (i :: _), p') => (Ok (Some i), p')
    | (_, p') => (Ok None, p')
    end).

Definition free_slot (i : Z) : M Sch unit := on_pool (modify (free [i])).

(** The conversation id of a hydrated request. *)
Definition reconcile (via_rid : bool) (entry_conv : string) (req : Req) : Req :=
  if via_rid && truthy (req_conversation_id req) && negb (bool_decide (req_conversation_id req = Some entry_conv))
  then set_conversation (Some entry_conv) req
  else if negb (truthy (req_conversation_id req)) then set_conversation (Some entry_conv) req
  else req.

(** [_maybe_hydrate_from_pending_restore] on a request that is in no queue
    yet; it returns the result and the request. *)
Definition maybe_hydrate_from_pending_restore (req : Req) : M Sch (option bool * Req) := fun x =>
  match registry (pending x) with
  | [] => (Ok (None, req), x)
  | _ =>
  match req_mamba_pool_idx req with
  | Some _ => (Ok (None, req), x)
  | None =>
  match find_pending (rid req) (req_conversation_id req) (pending x) with
  | None => (Ok (None, req), x)
  | Some (canonical, via_rid) =>
  match dict_get (registry (pending x)) (Some canonical) with
  | None => (Ok (None, req), x)
  | Some entry =>
      match mamba_pool x with
      | None => (Ok (Some false, req), x)
      | Some _ =>
          (new_pool_idx ← alloc_slot;
           match new_pool_idx with
           | None => mret (Some false, req)
           | Some i =>
               injected ← try_except
                 (on_pool (inject_state_to_pool (pe_conv_states entry) (pe_temporal_states entry) i)
                    ≫= fun _ => mret true)
                 (fun _ => free_slot i ≫= fun _ => mret false);
               if (injected : bool) then
                 modify (fun x => upd_pending (touch (Some canonical) (pending x)) x) ≫= fun _ =>
                 reset_health (pe_conversation_id entry) ≫= fun _ =>
                 mret (Some true,
                       reconcile via_rid (pe_conversation_id entry) (set_pool_idx (Some i) true req))
               else mret (Some false, req)
           end) x
      end
  end end end end.

(** ** Saving *)

Record SaveSnapshotReqInput := mkSaveIn {
  save_rid : string;
  save_snapshot_id : option string;
  save_conversation_id : option string;
  save_turn_number : option Z;
  save_branch_name : option string;
}.

Record SaveSnapshotReqOutput := mkSaveOut {
  save_success : bool;
  save_out_id : option string;
  save_message : string;
}.

Definition save_failed (msg : string) : SaveSnapshotReqOutput := mkSaveOut false None msg.

(** [a or b] on an optional integer and a value *)
Definition turn_or (turn : option Z) (v : pyval) : pyval :=
  match turn with
  | Some n => if bool_decide (n = 0) then v else VInt n
  | None => v
  end.

(** The metadata of a snapshot saved from the warm tier; a dictionary whose
    values have other types than the code writes is outside the model. *)
Definition warm_save_metadata (now : Z) (conv_id model : string) (r : SaveSnapshotReqInput)
    (d : pydict) : option MambaSnapshotMetadata :=
  turn ← as_opt as_int (turn_or (save_turn_number r) (get_default d "turn_number" (VInt 0)));
  tokens ← as_int (get_default d "token_count" (VInt 0));
  pool_idx ← as_int (get_default d "mamba_pool_idx" (VInt 0));
  req_idx ← as_int (get_default d "req_pool_idx" (VInt 0));
  layers ← as_dict (get_default d "layer_config" (VDict []));
  ids ← as_ids (get_default d "fill_ids" VNone);
  Some (mkMeta conv_id turn now tokens model pool_idx req_idx layers None (save_branch_name r) None ids).

(** The branch of [handle_save_snapshot] for a finished request. *)
Definition save_from_warm (now : Z) (conv_id snapshot_id : string) (r : SaveSnapshotReqInput) :
    M Sch SaveSnapshotReqOutput :=
  let missing := save_failed ("Request not found and no WARM tier state for: " +:+ save_rid r) in
  tiers ← gets sch_tiers;
  held ← gets (fun x => has_state conv_id (host_pool (sch_tier x)));
  if (tiers : bool) && (held : bool) then
    warm ← on_tier (restore_from_warm_tier now conv_id);
    match warm with
    | None => mret missing
    | Some (conv_states, temporal_states, d) =>
        model ← gets (fun x => sa_model_path (server_args x));
        match warm_save_metadata now conv_id model r d with
        | None => raise TypeError "a metadata value has the wrong type"
        | Some m =>
            on_disk (sm_save conv_states temporal_states m) ≫= fun _ =>
            mret (mkSaveOut true (Some snapshot_id) "Snapshot saved successfully (from WARM tier)")
        end
    end
  else mret missing.

(** [{"num_layers": ..., "model_type": "hybrid"}] *)
Definition layer_config (layers : Z) : pydict :=
  [("num_layers", VInt layers); ("model_type", VStr "hybrid")].

(** The branch of [handle_save_snapshot] for a live request. *)
Definition save_live (now : Z) (conv_id snapshot_id : string) (r : SaveSnapshotReqInput) (req : Req) :
    M Sch SaveSnapshotReqOutput := fun x =>
  match req_mamba_pool_idx req with
  | None => (Ok (save_failed "Request does not have Mamba state (not a Mamba model or state not allocated)"), x)
  | Some idx =>
  match mamba_pool x with
  | None => (Ok (save_failed "Mamba pool not available"), x)
  | Some p =>
  match extract_state_from_pool p idx with
  | Raise e => (Raise e, x)
  | Ok (conv_states, temporal_states) =>
  match req_fill_ids req, req_pool_idx req with
  | None, _ => (Raise (Exn TypeError "object of type 'NoneType' has no len()"), x)
  | _, None => (Raise (Exn TypeError "int() argument must not be 'NoneType'"), x)
  | Some ids, Some req_idx =>
      let m := mkMeta conv_id (save_turn_number r) now (len ids) (sa_model_path (server_args x)) idx
                 req_idx (layer_config (num_mamba_layers x)) None (save_branch_name r) None (Some ids) in
      (on_disk (sm_save conv_states temporal_states m) ≫= fun _ =>
       mret (mkSaveOut true (Some snapshot_id) "Snapshot saved successfully")) x
  end end end end.

Definition handle_save_snapshot (now : Z) (r : SaveSnapshotReqInput) : M Sch SaveSnapshotReqOutput :=
  fun x =>
  if negb (sch_snapshots x) then
    (Ok (save_failed "Snapshot system not enabled. Start server with --enable-mamba-snapshots"), x)
  else
  let conv_id := str_or (save_conversation_id r) (save_rid r) in
  let snapshot_id :=
    str_or (save_snapshot_id r)
      (conv_id +:+ "-t" +:+ pretty (match save_turn_number r with Some n => n | None => 0 end)) in
  try_except
    (match find_request_by_rid (Some (save_rid r)) x ≫= req_of x with
     | None => save_from_warm now conv_id snapshot_id r
     | Some req => save_live now conv_id snapshot_id r req
     end)
    (fun e => mret (save_failed ("Error saving snapshot: " +:+ exn_msg e))) x.

(** ** Listing, info, deletion *)

Record ListSnapshotsReqOutput := mkListOut {
  list_success : bool;
  list_result : option (list pydict);
  list_message : option string;
}.

(** The metadata dictionaries of the snapshots that can be read. *)
Fixpoint collect_metadata {X} (load : X -> M Sch (option MambaSnapshotMetadata)) (l : list X)
    (acc : list pydict) : M Sch (list pydict) :=
  match l with
  | [] => mret acc
  | y :: l' =>
      m ← load y;
      collect_metadata load l' (match m with Some m => acc ++ [to_dict m] | None => acc end)
  end.

Definition handle_list_snapshots (cid : string) : M Sch ListSnapshotsReqOutput := fun x =>
  if negb (sch_snapshots x) then (Ok (mkListOut false None (Some "Snapshot system not enabled")), x)
  else
  try_except
    (turns ← on_disk (sm_list cid);
     l1 ← collect_metadata (fun n => on_disk (sm_metadata cid (Some n) None)) turns [];
     branches ← on_disk (sm_branches cid);
     l2 ← collect_metadata (fun b => on_disk (sm_metadata cid None (Some b))) branches l1;
     mret (mkListOut true (Some l2) None))
    (fun e => mret (mkListOut false None (Some ("Error listing snapshots: " +:+ exn_msg e)))) x.

Record GetSnapshotInfoReqOutput := mkInfoOut {
  info_success : bool;
  info_result : option pydict;
  info_message : option string;
}.

(** [f"Snapshot not found: conversation=..., turn=..., branch=..."] *)
Definition not_found_msg (cid : option string) (turn : option Z) (branch : option string) : string :=
  "Snapshot not found: conversation=" +:+ fstr_opt id cid +:+ ", turn=" +:+ fstr_opt pretty turn +:+
  ", branch=" +:+ fstr_opt id branch.

Definition handle_get_snapshot_info (cid : string) (turn : option Z) (branch : option string) :
    M Sch GetSnapshotInfoReqOutput := fun x =>
  if negb (sch_snapshots x) then (Ok (mkInfoOut false None (Some "Snapshot system not enabled")), x)
  else
  try_except
    (m ← on_disk (sm_metadata cid turn branch);
     match m with
     | None => mret (mkInfoOut false None (Some (not_found_msg (Some cid) turn branch)))
     | Some m => mret (mkInfoOut true (Some (to_dict m)) None)
     end)
    (fun e => mret (mkInfoOut false None (Some ("Error getting snapshot info: " +:+ exn_msg e)))) x.

Record DeleteSnapshotReqOutput := mkDeleteOut {
  delete_success : bool;
  delete_message : string;
}.

Definition handle_delete_snapshot (cid : string) (turn : option Z) (branch : option string) :
    M Sch DeleteSnapshotReqOutput := fun x =>
  if negb (sch_snapshots x) then
    (Ok (mkDeleteOut false "Snapshot system not enabled. Start server with --enable-mamba-snapshots"), x)
  else
  try_except
    (success ← on_disk (sm_delete cid turn branch);
     mret (if (success : bool) then mkDeleteOut true "Snapshot deleted successfully"
           else mkDeleteOut false (not_found_msg (Some cid) turn branch)))
    (fun e => mret (mkDeleteOut false ("Error deleting snapshot: " +:+ exn_msg e))) x.

(** ** Restoring *)

Record RestoreSnapshotReqInput := mkRestoreIn {
  restore_rid : option string;
  restore_conversation_id : option string;
  restore_turn_number : option Z;
  restore_branch_name : option string;
  create_new_request : bool;
  continuation_ids : option (list Z);
  restore_max_new_tokens : option Z;
}.

(** [RestoreSnapshotReqInput.__post_init__] (io_struct.py), apart from the
    fresh [request_id]. *)
Definition restore_input_post_init (r : RestoreSnapshotReqInput) : res RestoreSnapshotReqInput :=
  if negb (truthy (restore_rid r) || truthy (restore_conversation_id r)) then
    Raise (Exn ValueError ("RestoreSnapshotReqInput requires at least one of 'rid' or " +:+
      "'conversation_id' to be set."))
  else if negb (create_new_request r) then
    if bool_decide (is_Some (continuation_ids r)) || bool_decide (is_Some (restore_max_new_tokens r)) then
      Raise (Exn ValueError ("continuation_ids and max_new_tokens can only be provided when " +:+
        "create_new_request=True."))
    else Ok r
  else if bool_decide (restore_max_new_tokens r = None) then
    Raise (Exn ValueError "max_new_tokens must be provided when create_new_request=True.")
  else if bool_decide (continuation_ids r = None) then
    Raise (Exn ValueError "continuation_ids must be provided when create_new_request=True.")
  else Ok r.

Record RestoreSnapshotReqOutput := mkRestoreOut {
  restore_success : bool;
  restore_message : string;
  restore_token_count : pyval;
  restore_out_rid : option string;
  restore_pool_idx : option Z;
}.

Definition restore_failed (msg : string) : RestoreSnapshotReqOutput :=
  mkRestoreOut false msg VNone None None.

(** [running_model and name and name != running_model] *)
Definition other_model (x : Sch) (name : pyval) : bool :=
  model_mismatch (Some (sa_model_path (server_args x))) name.

Definition model_msg (x : Sch) (name : pyval) : string :=
  mismatch_msg (Some (sa_model_path (server_args x))) name.

Definition no_fill_ids_msg : string :=
  "Snapshot is incompatible: fill_ids missing. " +:+
  "Re-run the original conversation to create a compatible snapshot.".

(** [init_req_max_new_tokens] (scheduler.py) *)
Definition init_req_max_new_tokens (a : ServerArgs) (req : Req) : Req :=
  let input_len := len (origin_input_ids req) in
  let paged := - (- input_len / sa_page_size a) * sa_page_size a in
  set_max_new_tokens (Some (Z.max 0
    (Z.min (match max_new_tokens req with Some n => n | None => Z.shiftl 1 30 end)
      (Z.min (sa_max_req_len a - input_len - 1)
        (sa_max_total_num_tokens a - paged - sa_page_size a - 1))))) req.

(** [_add_request_to_queue] (scheduler.py) in the default mode: a full queue
    makes the scheduler send an abort to the client instead. *)
Definition add_request_to_queue (ref : nat) (req : Req) : M Sch unit :=
  modify (fun x =>
    let full := match sa_max_queued_requests (server_args x) with
                | Some n => bool_decide (n < len (waiting_queue x) + 1)
                | None => false
                end in
    if full then upd_reqs (sch_reqs x) (waiting_queue x) (aborted x ++ [rid req]) x
    else upd_reqs (<[ref := req]> (sch_reqs x)) (waiting_queue x ++ [ref]) (aborted x) x).

(** From the snapshot to the new request, with slot [idx] allocated: [inl] is
    an early return. *)
Definition build_request (r : RestoreSnapshotReqInput) (conv_id new_rid : string) (idx : Z)
    (snap : list T * T * MambaSnapshotMetadata) : M Sch (RestoreSnapshotReqOutput + Req) :=
  let '(conv_states, temporal_states, m) := snap in
  on_pool (inject_state_to_pool conv_states temporal_states idx) ≫= fun _ =>
  match md_fill_ids m with
  | None => free_slot idx ≫= fun _ => mret (inl (restore_failed no_fill_ids_msg))
  | Some ids =>
      let origin := match continuation_ids r with Some c => ids ++ c | None => ids end in
      max_len ← gets (fun x => sa_max_req_input_len (server_args x));
      if bool_decide (is_Some (continuation_ids r)) && bool_decide (max_len <= len origin) then
        free_slot idx ≫= fun _ =>
        mret (inl (restore_failed ("Input length (" +:+ pretty (len origin) +:+
          ") meets or exceeds max_req_input_len (" +:+ pretty max_len +:+
          "). Reduce continuation_ids length or increase max_req_input_len.")))
      else
        mret (inr (mkReq new_rid (Some conv_id) (Some idx) false origin (Some origin) None
          (match restore_max_new_tokens r with Some n => Some n | None => Some 128 end)
          (bool_decide (is_Some (continuation_ids r))) None))
  end.

(** The registration of the new request; [None] means that the answer is sent
    when the generation is done. *)
Definition register_request (r : RestoreSnapshotReqInput) (conv_id : string) (idx : Z)
    (m : MambaSnapshotMetadata) (ref : nat) (req : Req) : M Sch (option RestoreSnapshotReqOutput) :=
  args ← gets server_args;
  add_request_to_queue ref (init_req_max_new_tokens args req) ≫= fun _ =>
  reset_health conv_id ≫= fun _ =>
  if is_stateful_generate req then mret None
  else mret (Some (mkRestoreOut true
    ("Created new request from snapshot. rid=" +:+ rid req +:+ ", mamba_pool_idx=" +:+ pretty idx)
    (VInt (md_token_count m)) (Some (rid req)) (Some idx))).

(** Which turn to load: the one asked for, a branch, or the latest. *)
Definition resolve_turn (conv_id : string) (turn : option Z) (branch : option string) :
    M Sch (option (option Z)) :=
  match turn, branch with
  | None, None =>
      latest ← on_disk (sm_latest conv_id);
      mret ((fun l => Some l.1) <$> latest)
  | _, _ => mret (Some turn)
  end.

Definition creation_error (e : exn) : RestoreSnapshotReqOutput :=
  restore_failed ("Error creating new request from snapshot: " +:+ exn_msg e).

(** The part of the handler that owns the new slot.  Whatever raises, the slot
    is freed once ([pool_freed] guards the second attempt). *)
Definition create_with_slot (r : RestoreSnapshotReqInput) (conv_id new_rid : string) (ref : nat)
    (idx : Z) (snap : list T * T * MambaSnapshotMetadata) : M Sch (option RestoreSnapshotReqOutput) :=
  built ← try_except (build_request r conv_id new_rid idx snap)
    (fun e => free_slot idx ≫= fun _ => mret (inl (creation_error e)));
  match built with
  | inl out => mret (Some out)
  | inr req =>
      try_except (register_request r conv_id idx snap.2 ref req)
        (fun e => free_slot idx ≫= fun _ => mret (Some (creation_error e)))
  end.

(** [handle_restore_snapshot] with [create_new_request]; [ref] and [new_rid]
    are the identity and the id of the new request. *)
Definition restore_create (r : RestoreSnapshotReqInput) (conv_id : option string)
    (new_rid : string) (ref : nat) : M Sch (option RestoreSnapshotReqOutput) := fun x =>
  try_except
    (match mamba_pool x with
     | None => mret (Some (restore_failed "Mamba pool not available"))
     | Some _ =>
         resolved ← resolve_turn (disk_id conv_id) (restore_turn_number r) (restore_branch_name r);
         match resolved with
         | None => mret (Some (restore_failed ("No snapshots found for conversation=" +:+ fstr_opt id conv_id)))
         | Some turn =>
             snap ← try_except (Some <$> on_disk (sm_load (disk_id conv_id) turn (restore_branch_name r)))
               (fun e => if isinstance e FileNotFoundError || isinstance e ValueError
                         then mret None else reraise e);
             match snap with
             | None => mret (Some (restore_failed (not_found_msg conv_id turn (restore_branch_name r))))
             | Some snap =>
                 if other_model x (VStr (md_model_name snap.2))
                 then mret (Some (restore_failed (model_msg x (VStr (md_model_name snap.2)))))
                 else
                   new_pool_idx ← alloc_slot;
                   match new_pool_idx with
                   | None => mret (Some (restore_failed "No free Mamba pool slots available"))
                   | Some idx => create_with_slot r (disk_id conv_id) new_rid ref idx snap
                   end
             end
         end
     end)
    (fun e => mret (Some (creation_error e))) x.

(** The branch for a finished request: stage the snapshot. *)
Definition restore_staged (now : Z) (r : RestoreSnapshotReqInput) (conv_id : option string) :
    M Sch RestoreSnapshotReqOutput :=
  loaded ← load_snapshot_for_pending_restore now conv_id (restore_turn_number r) (restore_branch_name r);
  match loaded with
  | None => mret (restore_failed (not_found_msg conv_id (restore_turn_number r) (restore_branch_name r)))
  | Some (conv_states, temporal_states, d) =>
      let name := get_default d "model_name" VNone in
      wrong ← gets (fun x => other_model x name);
      if (wrong : bool) then gets (fun x => restore_failed (model_msg x name))
      else
      match as_ids (get_default d "fill_ids" VNone) with
      | None => raise TypeError "fill_ids is not a list of integers"
      | Some ids =>
          modify (fun x => upd_pending (stage_pending_restore now (restore_rid r) (disk_id conv_id) conv_states
            temporal_states ids (pending x)) x) ≫= fun _ =>
          mret (mkRestoreOut true
            ("Snapshot staged for next request (rid=" +:+ fstr_opt id (restore_rid r) +:+
             ", conversation_id=" +:+ fstr_opt id conv_id +:+ ")")
            (get_default d "token_count" VNone) (restore_rid r) None)
      end
  end.

(** The branch for a live request. *)
Definition restore_live (r : RestoreSnapshotReqInput) (conv_id : string) (ref : nat) (req : Req) :
    M Sch RestoreSnapshotReqOutput := fun x =>
  if bool_decide (Exists (fun l => ref ∈ l) (option_list (running_batch x ≫= fun b => sch_batches x !! b)))
  then (Ok (restore_failed
    "Cannot restore snapshot while request is running. Wait until request is idle."), x)
  else match req_mamba_pool_idx req with
  | None => (Ok (restore_failed "Request does not have Mamba state allocated"), x)
  | Some idx =>
      ('(conv_states, temporal_states, m) ←
         on_disk (sm_load conv_id (restore_turn_number r) (restore_branch_name r));
       if other_model x (VStr (md_model_name m))
       then mret (restore_failed (model_msg x (VStr (md_model_name m))))
       else match md_fill_ids m with
       | None => mret (restore_failed no_fill_ids_msg)
       | Some ids =>
           match mamba_pool x with
           | None => mret (restore_failed "Mamba pool not available")
           | Some _ =>
               on_pool (inject_state_to_pool conv_states temporal_states idx) ≫= fun _ =>
               modify (fun x => upd_pending
                 (clear_pending_restore (restore_rid r) (Some conv_id) (pending x)) x) ≫= fun _ =>
               update_req ref (set_ids ids (Some ids)) ≫= fun _ =>
               update_req ref (set_conversation (Some conv_id)) ≫= fun _ =>
               reset_health conv_id ≫= fun _ =>
               mret (mkRestoreOut true "Snapshot restored successfully"
                 (VInt (md_token_count m)) (restore_rid r) (Some idx))
           end
       end) x
  end.

Definition handle_restore_snapshot (now : Z) (new_rid : string) (ref : nat)
    (r : RestoreSnapshotReqInput) : M Sch (option RestoreSnapshotReqOutput) := fun x =>
  if negb (sch_snapshots x) then
    (Ok (Some (restore_failed
       "Snapshot system not enabled. Start server with --enable-mamba-snapshots")), x)
  else
  let conv_id := if truthy (restore_conversation_id r) then restore_conversation_id r
                 else restore_rid r in
  if create_new_request r then restore_create r conv_id new_rid ref x
  else
  try_except
    (match find_request_by_rid (restore_rid r) x with
     | None => Some <$> restore_staged now r conv_id
     | Some live =>
         match req_of x live with
         | Some req => Some <$> restore_live r (disk_id conv_id) live req
         | None => Some <$> restore_staged now r conv_id
         end
     end)
    (fun e => mret (Some (restore_failed ("Error restoring snapshot: " +:+ exn_msg e)))) x.

(** ** Eviction from the device *)

Definition handle_mamba_state_eviction (now : Z) (cid : string) (idx : Z) (metadata : option pydict) :
    M Sch unit := fun x =>
  if negb (sch_tiers x) then (Ok tt, x)
  else match mamba_pool x with
  | None => (Ok tt, x)
  | Some p =>
      try_except
        ('(conv_states, temporal_states) ← lift_res (extract_state_from_pool p idx);
         on_tier (save_to_warm_tier now cid conv_states temporal_states
           (odict_or metadata (Some [])) "log_and_continue") ≫= fun _ =>
         mret tt)
        (fun _ => mret tt) x
  end.

(** The hydration step of request creation ([handle_generate_request] of
    scheduler.py): a failed hydration queues the request marked as aborted;
    [Some req] means that request creation goes on with [req]. *)
Definition hydrate_incoming (ref : nat) (req : Req) : M Sch (option Req) :=
  '(result, req') ← maybe_hydrate_from_pending_restore req;
  if bool_decide (result = Some false) then
    add_request_to_queue ref (set_finish_with_abort
      ("Pending-restore hydration failed for rid=" +:+ rid req +:+
       ": snapshot was staged but could not be applied (pool exhaustion " +:+
       "or inject error). Check server logs and pool capacity.") req') ≫= fun _ => mret None
  else mret (Some req').
End scheduler.
