(* ===== verification/SchedulerFacts.v ===== *)
(** * What the scheduler's snapshot handlers guarantee

    Slots of the device pool are neither lost nor handed out twice by
    hydration and by restores, staged state reaches the request it was staged
    for, and a save followed by a restore brings the saved state back. *)

From Stdlib Require Import SpecFloat.
From S2P Require Import Prelude PyDict PyText Torch Metadata MambaPool Tracker HostPool.
From S2P Require Import SnapshotStore SnapshotFacts SnapshotSpec SnapshotFaults StoreInterface.
From S2P Require Import Policy TierManager TierFacts PendingRestore Health Scheduler.

Section facts.
Context {S T F : Type} `{Torch T} `{!TorchLaws T} `{!SnapshotManager S T}
  `{!SnapshotManagerLaws S T} `{!FloatOps F} `{!TorchNorm T F}.
Implicit Types (x : Scheduler S T F) (p : MambaPool T) (A : gmap (path * string) (snapshot T)).

(** ** Running the parts *)

Definition disk x : S := store (sch_tier x).
Definition with_disk (s : S) x : Scheduler S T F := upd_tier (set_store s (sch_tier x)) x.

Lemma on_disk_run {B} (m : M S B) x r s' : m (disk x) = (r, s') -> on_disk m x = (r, with_disk s' x).
Proof. intros Hm. unfold on_disk, on_tier, on_store, zoom. fold (disk x). by rewrite Hm. Qed.

Lemma on_pool_run {B} (m : M (MambaPool T) B) x p r p' :
  mamba_pool x = Some p -> m p = (r, p') -> on_pool m x = (r, upd_pool (Some p') x).
Proof. intros Hp Hm. unfold on_pool. by rewrite Hp, Hm. Qed.

Lemma upd_pool_id x p : mamba_pool x = Some p -> upd_pool (Some p) x = x.
Proof. intros <-. by destruct x. Qed.

Lemma upd_pool_twice x o o' : upd_pool o (upd_pool o' x) = upd_pool o x.
Proof. done. Qed.

Lemma alloc_slot_some x p i rest :
  mamba_pool x = Some p -> free_slots p = i :: rest ->
  alloc_slot x = (Ok (Some i), upd_pool (Some (set_free rest p)) x).
Proof.
  intros Hp Hf. unfold alloc_slot. eapply on_pool_run; [done|]. unfold alloc.
  rewrite bool_decide_false by (rewrite Hf; simpl; lia). by rewrite Hf.
Qed.

Lemma alloc_slot_none x p :
  mamba_pool x = Some p -> free_slots p = [] -> alloc_slot x = (Ok None, x).
Proof.
  intros Hp Hf. unfold alloc_slot. rewrite (on_pool_run _ x p (Ok None) p); [|done|].
  - by rewrite (upd_pool_id x p).
  - unfold alloc. rewrite bool_decide_true by (rewrite Hf; simpl; lia). done.
Qed.

Lemma free_slot_run x p i :
  mamba_pool x = Some p ->
  free_slot i x = (Ok tt, upd_pool (Some (set_free (free_slots p ++ [i]) p)) x).
Proof. intros Hp. by apply (on_pool_run _ x p). Qed.

(** A pool whose free slots are real slots. *)
Definition pool_ok p : Prop := pool_wf p /\ Forall (fun i => 1 <= i <= pool_size p) (free_slots p).

Lemma set_free_wf l p : pool_wf p -> pool_wf (set_free l p).
Proof. done. Qed.

Lemma injectable_set_free conv temporal i l p :
  injectable conv temporal i (set_free l p) <-> injectable conv temporal i p.
Proof. done. Qed.

(** ** Finding a request *)

Definition has_rid x (r : string) (ref : nat) : Prop := rid <$> req_of x ref = Some r.

Lemma search_reqs_some x r l ref : search_reqs x r l = Some ref -> ref ∈ l /\ has_rid x r ref.
Proof.
  unfold search_reqs. destruct (list_find _ l) as [[i y]|] eqn:E; [|done]. intros [= <-].
  apply list_find_Some in E as (Hi & Hy & _). split; [by eapply list_elem_of_lookup_2|done].
Qed.

Lemma search_reqs_none x r l ref : search_reqs x r l = None -> ref ∈ l -> ~ has_rid x r ref.
Proof.
  unfold search_reqs. destruct (list_find _ l) eqn:E; [done|]. intros _.
  apply list_find_None in E. rewrite Forall_forall in E. exact (E ref).
Qed.

Definition batch_refs x (batch : option nat) : list nat :=
  match batch ≫= (fun b => sch_batches x !! b) with Some l => l | None => [] end.

Lemma search_batch_some x r seen batch ref :
  search_batch x r seen batch = Some ref -> ref ∈ batch_refs x batch /\ has_rid x r ref.
Proof.
  unfold search_batch, batch_refs. destruct batch as [b|]; [|done]. simpl.
  case_bool_decide; [done|]. destruct (sch_batches x !! b); [|done]. apply search_reqs_some.
Qed.

Lemma search_batch_none x r seen batch ref :
  search_batch x r seen batch = None -> ref ∈ batch_refs x batch -> has_rid x r ref ->
  exists b, batch = Some b /\ b ∈ seen.
Proof.
  unfold search_batch, batch_refs. destruct batch as [b|]; [|set_solver]. simpl.
  case_bool_decide as Hb; [eauto|]. destruct (sch_batches x !! b); [|set_solver].
  intros Hn Hin Hr. by destruct (search_reqs_none x r l ref Hn Hin).
Qed.

Lemma find_request_some r x ref :
  find_request_by_rid (Some r) x = Some ref ->
  has_rid x r ref /\
  ref ∈ batch_refs x (running_batch x) ++ batch_refs x (cur_batch x) ++ batch_refs x (last_batch x)
        ++ waiting_queue x.
Proof.
  unfold find_request_by_rid. destruct (search_batch x r [] _) eqn:E1;
    [|destruct (search_batch x r _ (cur_batch x)) eqn:E2;
      [|destruct (search_batch x r _ (last_batch x)) eqn:E3]].
  1-3: intros [= <-]; edestruct search_batch_some; [eassumption|]; set_solver.
  intros Hw. apply search_reqs_some in Hw. set_solver.
Qed.

Lemma find_request_none r x ref :
  find_request_by_rid (Some r) x = None ->
  ref ∈ batch_refs x (running_batch x) ++ batch_refs x (cur_batch x) ++ batch_refs x (last_batch x)
        ++ waiting_queue x -> ~ has_rid x r ref.
Proof.
  unfold find_request_by_rid. destruct (search_batch x r [] _) eqn:E1; [done|].
  destruct (search_batch x r _ (cur_batch x)) eqn:E2; [done|].
  destruct (search_batch x r _ (last_batch x)) eqn:E3; [done|]. intros Hw Hin Hr.
  assert (ref ∉ batch_refs x (running_batch x)) as N1.
  { intros Hi. destruct (search_batch_none _ _ _ _ _ E1 Hi Hr) as (b & _ & Hb). set_solver. }
  assert (ref ∉ batch_refs x (cur_batch x)) as N2.
  { intros Hi. destruct (search_batch_none _ _ _ _ _ E2 Hi Hr) as (b & Hb & Hs).
    rewrite Hb in *. unfold seen_with in Hs. destruct (running_batch x) as [b'|] eqn:Er; [|set_solver].
    apply list_elem_of_singleton in Hs as ->. done. }
  assert (ref ∉ batch_refs x (last_batch x)) as N3.
  { intros Hi. destruct (search_batch_none _ _ _ _ _ E3 Hi Hr) as (b & Hb & Hs). rewrite Hb in *.
    unfold seen_with in Hs. destruct (cur_batch x) as [b1|], (running_batch x) as [b2|];
      set_unfold in Hs; destruct_or? Hs; subst; done. }
  assert (ref ∈ waiting_queue x) as Hq by set_solver.
  by destruct (search_reqs_none x r _ ref Hw Hq).
Qed.

(** [_find_request_by_rid] returns a request of the running, current or
    last batch or of the waiting queue that has the given id, and returns
    [None] only when no request of any of them has it: skipping a batch object
    that was already searched loses nothing.  No request has the id [None]. *)
Theorem find_request_spec r x :
  let all := batch_refs x (running_batch x) ++ batch_refs x (cur_batch x) ++
             batch_refs x (last_batch x) ++ waiting_queue x in
  match find_request_by_rid (Some r) x with
  | Some ref => ref ∈ all /\ has_rid x r ref
  | None => forall ref, ref ∈ all -> ~ has_rid x r ref
  end /\ find_request_by_rid None x = None.
Proof.
  cbv zeta. split; [|done]. destruct (find_request_by_rid (Some r) x) as [ref|] eqn:E.
  - by apply find_request_some in E as [].
  - intros ref. by apply find_request_none.
Qed.

(** ** Hydration *)

Definition entry_for x req : option (string * bool * PendingRestoreEntry T) :=
  match req_mamba_pool_idx req with
  | Some _ => None
  | None =>
      '(canonical, via) ← find_pending (rid req) (req_conversation_id req) (pending x);
      e ← dict_get (registry (pending x)) (Some canonical);
      Some (canonical, via, e)
  end.

(** The scheduler after a hydration from entry [canonical] into a pool [p']. *)
Definition hydrated canonical cid p' x : Scheduler S T F :=
  (reset_health cid (upd_pending (touch (Some canonical) (pending x)) (upd_pool (Some p') x))).2.

Lemma hydrate_miss req x :
  entry_for x req = None -> maybe_hydrate_from_pending_restore req x = (Ok (None, req), x).
Proof.
  unfold entry_for, maybe_hydrate_from_pending_restore.
  destruct (registry (pending x)) eqn:Er; [done|]. rewrite <- Er.
  destruct (req_mamba_pool_idx req); [done|].
  destruct (find_pending _ _ _) as [[canonical via]|]; [|done]. simpl.
  by destruct (dict_get _ _).
Qed.

Lemma hydrate_hit req x canonical via e :
  entry_for x req = Some (canonical, via, e) ->
  maybe_hydrate_from_pending_restore req x =
  match mamba_pool x with
  | None => (Ok (Some false, req), x)
  | Some p =>
      match free_slots p with
      | [] => (Ok (Some false, req), x)
      | i :: rest =>
          match inject_state_to_pool (pe_conv_states e) (pe_temporal_states e) i (set_free rest p) with
          | (Ok _, p') =>
              (Ok (Some true, reconcile via (pe_conversation_id e) (set_pool_idx (Some i) true req)),
               hydrated canonical (pe_conversation_id e) p' x)
          | (Raise _, p') => (Ok (Some false, req), upd_pool (Some (set_free (free_slots p' ++ [i]) p')) x)
          end
      end
  end.
Proof.
  unfold entry_for, maybe_hydrate_from_pending_restore.
  destruct (req_mamba_pool_idx req); [done|].
  destruct (find_pending _ _ _) as [[c v]|]; [|done]. simpl.
  destruct (dict_get (registry (pending x)) (Some c)) as [e'|] eqn:Ee; [|done].
  intros [= -> -> ->]. destruct (registry (pending x)) as [|kv d] eqn:Er; [done|].
  destruct (mamba_pool x) as [p|] eqn:Hp; [|done].
  destruct (free_slots p) as [|i rest] eqn:Hf.
  { by rewrite (bind_ok _ _ _ _ _ (alloc_slot_none x p Hp Hf)). }
  rewrite (bind_ok _ _ _ _ _ (alloc_slot_some x p i rest Hp Hf)). cbv beta iota.
  set (x1 := upd_pool (Some (set_free rest p)) x).
  destruct (inject_state_to_pool _ _ i (set_free rest p)) as [[[]|er] p'] eqn:Ei;
    pose proof (on_pool_run _ x1 (set_free rest p) _ _ eq_refl Ei) as Hrun.
  - erewrite bind_ok; [|apply try_ok; rewrite (bind_ok _ _ _ _ _ Hrun); reflexivity].
    by unfold hydrated.
  - erewrite bind_ok; [|erewrite try_raise by (rewrite (bind_raise _ _ _ _ _ Hrun); reflexivity);
      rewrite (bind_ok _ _ _ _ _ (free_slot_run (upd_pool (Some p') x1) p' i eq_refl)); reflexivity].
    reflexivity.
Qed.

Lemma reset_health_frame cid x :
  let x' := (reset_health cid x).2 in
  mamba_pool x' = mamba_pool x /\ pending x' = pending x /\ sch_tier x' = sch_tier x /\
  sch_reqs x' = sch_reqs x /\ waiting_queue x' = waiting_queue x /\
  (forall m, health_monitor x' = Some m -> exists m0, health_monitor x = Some m0 /\
     m = reset_baseline cid m0 /\ dict_get (health_check_counter x') cid = Some 0).
Proof.
  unfold reset_health, modify. simpl. destruct (health_monitor x) as [m0|] eqn:E; simpl.
  - split_and!; try done. intros m [= <-]. exists m0. by rewrite dict_get_set_eq.
  - split_and!; try done. intros m. by rewrite E.
Qed.

(** The entry's conversation id is the request's afterwards. *)
Lemma reconcile_conversation x req canonical via e i b :
  pending_core (pending x) -> entry_for x req = Some (canonical, via, e) ->
  req_conversation_id (reconcile via (pe_conversation_id e) (set_pool_idx i b req)) =
    Some (pe_conversation_id e).
Proof.
  intros (_ & _ & J2 & _). unfold entry_for, reconcile, find_pending. simpl.
  destruct (req_mamba_pool_idx req); [done|].
  destruct (dict_has (registry (pending x)) (Some (rid req))) eqn:Hh; simpl.
  - rewrite Hh. simpl. destruct (dict_get _ (Some (rid req))); [|done]. intros [= <- <- <-]. simpl.
    destruct (truthy (req_conversation_id req)) eqn:Ht; simpl; [|done].
    case_bool_decide; [|done]. done.
  - destruct (truthy (req_conversation_id req)) eqn:Ht; simpl; [|done].
    destruct (req_conversation_id req) as [c|] eqn:Ec; [|done]. case_bool_decide; [done|]. simpl.
    destruct (dict_get (aliases (pending x)) (Some c)) as [[k|]|] eqn:Ea; [|done..]. simpl.
    destruct (J2 _ _ Ea) as (_ & _ & e0 & He0 & [= ->]).
    destruct (dict_has _ (Some k)); [|done]. simpl. rewrite He0. simpl. intros [= <- <- <-]. simpl.
    done.
Qed.

(** hydration.  Without a staged entry for the request (or with a slot
    already on it) nothing changes.  With one and no free slot, or with a
    state that does not fit the pool, the answer is [False], the request is
    untouched and no slot is lost: the free slots are the same up to order and
    only the slot that was tried can hold other data.  Otherwise the answer is
    [True]: the request gets the first free slot, which leaves the free list
    and holds exactly the staged state, no other slot changes, the request's
    tokens stay as they are, its conversation id is the staged one, and the
    entry stays in the registry for the next request. *)
Theorem hydrate_spec req x p :
  mamba_pool x = Some p -> pool_ok p -> pending_core (pending x) ->
  let '(r, x') := maybe_hydrate_from_pending_restore req x in
  match entry_for x req, free_slots p with
  | None, _ => r = Ok (None, req) /\ x' = x
  | Some _, [] => r = Ok (Some false, req) /\ x' = x
  | Some (canonical, via, e), i :: rest =>
      exists p', mamba_pool x' = Some p' /\ only_slot i (set_free (free_slots p') p) p' /\
      if decide (injectable (pe_conv_states e) (pe_temporal_states e) i p) then
        exists req', r = Ok (Some true, req') /\ rid req' = rid req /\
          req_mamba_pool_idx req' = Some i /\ mamba_has_restored_state req' = true /\
          origin_input_ids req' = origin_input_ids req /\
          req_conversation_id req' = Some (pe_conversation_id e) /\
          free_slots p' = rest /\
          (same_dtypes (pe_conv_states e) (pe_temporal_states e) p ->
           extract_state_from_pool p' i = Ok (pe_conv_states e, pe_temporal_states e)) /\
          (forall k, dict_get (registry (pending x')) k = dict_get (registry (pending x)) k)
      else
        r = Ok (Some false, req) /\ free_slots p' = rest ++ [i] /\ pending x' = pending x
  end.
Proof.
  intros Hp [Hw Hfr] Hcore. destruct (entry_for x req) as [[[canonical via] e]|] eqn:Ee.
  2:{ rewrite (hydrate_miss req x Ee). done. }
  rewrite (hydrate_hit req x canonical via e Ee), Hp.
  destruct (free_slots p) as [|i rest] eqn:Hf; [done|].
  pose proof (inject_frame (pe_conv_states e) (pe_temporal_states e) i (set_free rest p) Hw) as Hfm.
  case_decide as Hi.
  - rewrite (inject_ok _ _ _ (set_free rest p) Hw Hi) in *.
    set (p' := injected _ _ i (set_free rest p)) in *.
    destruct (reset_health_frame (pe_conversation_id e)
      (upd_pending (touch (Some canonical) (pending x)) (upd_pool (Some p') x))) as (F1 & F2 & _).
    exists p'. split; [exact F1|]. split; [done|]. eexists. split; [done|].
    split_and!; try (unfold reconcile; repeat case_match; done).
    + by eapply reconcile_conversation.
    + intros Hd. by apply (extract_injected _ _ i (set_free rest p)).
    + intros k. unfold hydrated. rewrite F2. apply dict_get_move.
  - destruct (inject_not_ok _ _ i (set_free rest p) Hw Hi) as [er Her].
    destruct (inject_state_to_pool _ _ i (set_free rest p)) as [r0 p'] eqn:Einj. simpl in *. subst r0.
    destruct Hfm as (F1 & F2 & F3 & F4). simpl in *.
    eexists. split; [done|]. rewrite F2. by split_and!.
Qed.

(** ** Creating a request from a snapshot *)

Lemma with_disk_id x : with_disk (disk x) x = x.
Proof. by destruct x as [? ? ? []]. Qed.

(** The token ids of the request to create. *)
Definition restored_ids (r : RestoreSnapshotReqInput) (ids : list Z) : list Z :=
  match continuation_ids r with Some c => ids ++ c | None => ids end.

Definition too_long (r : RestoreSnapshotReqInput) (ids : list Z) x : bool :=
  bool_decide (is_Some (continuation_ids r)) &&
  bool_decide (sa_max_req_input_len (server_args x) <= len (restored_ids r ids)).

(** The token ids to run, when slot [i] can take the snapshot. *)
Definition creatable (r : RestoreSnapshotReqInput) (i : Z) (snap : snapshot T) p x : option (list Z) :=
  let '(conv, temporal, m) := snap in
  if decide (injectable conv temporal i p) then
    ids ← md_fill_ids m;
    if too_long r ids x then None else Some (restored_ids r ids)
  else None.

Definition new_request (r : RestoreSnapshotReqInput) (cid new_rid : string) (i : Z) (origin : list Z) : Req :=
  mkReq new_rid (Some cid) (Some i) false origin (Some origin) None
    (match restore_max_new_tokens r with Some n => Some n | None => Some 128 end)
    (bool_decide (is_Some (continuation_ids r))) None.

(** Slot [i], taken from [p], was given back. *)
Definition given_back (i : Z) (rest : list Z) p x (out : res (option RestoreSnapshotReqOutput)) x' : Prop :=
  exists msg p', out = Ok (Some (restore_failed msg)) /\ x' = upd_pool (Some p') x /\
    free_slots p' = rest ++ [i] /\ only_slot i (set_free (rest ++ [i]) p) p'.

Lemma only_slot_free i l l' p p' :
  only_slot i (set_free l p) p' -> only_slot i (set_free l' p) (set_free l' p').
Proof. by intros (? & ? & ? & ?). Qed.

Lemma build_request_run r cid new_rid i rest snap x p :
  mamba_pool x = Some (set_free rest p) -> pool_wf p ->
  match creatable r i snap p x with
  | Some origin => exists p', build_request r cid new_rid i snap x =
      (Ok (inr (new_request r cid new_rid i origin)), upd_pool (Some p') x) /\
      p' = set_free rest (injected snap.1.1 snap.1.2 i p)
  | None => exists o p', build_request r cid new_rid i snap x = (o, upd_pool (Some p') x) /\
      ((exists msg, o = Ok (inl (restore_failed msg)) /\
        free_slots p' = rest ++ [i] /\ only_slot i (set_free (rest ++ [i]) p) p') \/
       (exists e, o = Raise e /\ free_slots p' = rest /\ only_slot i (set_free rest p) p'))
  end.
Proof.
  intros Hp Hw. destruct snap as [[conv temporal] m]. simpl. case_decide as Hi.
  - pose proof (inject_ok conv temporal i (set_free rest p) Hw Hi) as Hrun.
    pose proof (inject_frame conv temporal i (set_free rest p) Hw) as Hfr. rewrite Hrun in Hfr. simpl in Hfr.
    unfold build_request. rewrite (bind_ok _ _ _ _ _ (on_pool_run _ x _ _ _ Hp Hrun)). cbv beta iota.
    set (x1 := upd_pool _ x). set (p1 := injected _ _ i (set_free rest p)) in *.
    pose proof (free_slot_run x1 p1 i eq_refl) as Hfree.
    destruct (md_fill_ids m) as [ids|]; simpl.
    + fold (restored_ids r ids). unfold too_long. erewrite bind_ok by reflexivity. simpl.
      destruct (_ && _) eqn:Hl; simpl; [|eexists; split; reflexivity].
      eexists _, _. split; [by rewrite (bind_ok _ _ _ _ _ Hfree)|].
      left. eexists. split; [done|]. split; [done|]. by eapply only_slot_free.
    + eexists _, _. split; [by rewrite (bind_ok _ _ _ _ _ Hfree)|].
      left. eexists. split; [done|]. split; [done|]. by eapply only_slot_free.
  - destruct (inject_not_ok conv temporal i (set_free rest p) Hw Hi) as [er Her].
    pose proof (inject_frame conv temporal i (set_free rest p) Hw) as Hfr.
    destruct (inject_state_to_pool conv temporal i (set_free rest p)) as [o p'] eqn:E. simpl in *. subst o.
    eexists _, p'. split; [by rewrite (bind_raise _ _ _ _ _ (on_pool_run _ x _ _ _ Hp E))|].
    right. exists er. split; [done|]. split; [by destruct Hfr as (_ & -> & _)|done].
Qed.

Definition queue_full x : bool :=
  match sa_max_queued_requests (server_args x) with
  | Some n => bool_decide (n < len (waiting_queue x) + 1)
  | None => false
  end.

(** The new request holds slot [i] and runs the tokens [origin]; with a full
    queue it is dropped. *)
Definition registered r cid new_rid (ref : nat) (i : Z) (origin : list Z) x
    (out : res (option RestoreSnapshotReqOutput)) x' : Prop :=
  (if bool_decide (is_Some (continuation_ids r)) then out = Ok None
   else exists o, out = Ok (Some o) /\ restore_success o = true /\
          restore_out_rid o = Some new_rid /\ restore_pool_idx o = Some i) /\
  sch_tier x' = sch_tier x /\ pending x' = pending x /\
  if queue_full x then
    sch_reqs x' = sch_reqs x /\ waiting_queue x' = waiting_queue x /\ aborted x' = aborted x ++ [new_rid]
  else
    waiting_queue x' = waiting_queue x ++ [ref] /\
    sch_reqs x' = <[ref := init_req_max_new_tokens (server_args x)
                             (new_request r cid new_rid i origin)]> (sch_reqs x).

Lemma register_run r cid new_rid ref i m origin x :
  let '(out, x') := register_request r cid i m ref (new_request r cid new_rid i origin) x in
  registered r cid new_rid ref i origin x out x' /\ mamba_pool x' = mamba_pool x.
Proof.
  unfold register_request. erewrite bind_ok by reflexivity.
  erewrite bind_ok by reflexivity. erewrite bind_ok by reflexivity. cbv beta.
  fold (queue_full x). unfold new_request at 1. cbn [is_stateful_generate].
  unfold registered.
  destruct (queue_full x), (bool_decide (is_Some (continuation_ids r))) eqn:Hc, (health_monitor x) eqn:Eh;
    simpl; rewrite ?Eh; split_and!; try done; eexists; split_and!; done.
Qed.

Lemma create_with_slot_run r cid new_rid ref i rest snap x p :
  mamba_pool x = Some (set_free rest p) -> pool_wf p ->
  let '(out, x') := create_with_slot r cid new_rid ref i snap x in
  match creatable r i snap p x with
  | Some origin => registered r cid new_rid ref i origin x out x' /\
      mamba_pool x' = Some (set_free rest (injected snap.1.1 snap.1.2 i p))
  | None => given_back i rest p x out x'
  end.
Proof.
  intros Hp Hw. pose proof (build_request_run r cid new_rid i rest snap x p Hp Hw) as Hb.
  unfold create_with_slot. destruct (creatable r i snap p x) as [origin|].
  - destruct Hb as (p' & Hb & ->). erewrite bind_ok by (by apply try_ok). cbv beta iota.
    set (x1 := upd_pool _ x). pose proof (register_run r cid new_rid ref i snap.2 origin x1) as Hreg.
    destruct (register_request _ _ _ _ _ _ x1) as [[o|e] x'] eqn:E.
    + rewrite (try_ok _ _ _ _ _ E). exact Hreg.
    + destruct Hreg as [[Ho _] _]. destruct (bool_decide _); [done|]. by destruct Ho as (? & ? & _).
  - destruct Hb as (o & p' & Hb & [(msg & -> & Hf & Ho)|(e & -> & Hf & Ho)]).
    + erewrite bind_ok by (by apply try_ok). by exists msg, p'.
    + pose proof (free_slot_run (upd_pool (Some p') x) p' i eq_refl) as Hfree. rewrite Hf in Hfree.
      erewrite bind_ok; [|rewrite (try_raise _ _ _ _ _ Hb), (bind_ok _ _ _ _ _ Hfree); reflexivity].
      eexists _, _. split; [reflexivity|]. split; [reflexivity|]. split; [done|].
      by eapply only_slot_free.
Qed.

(** The snapshot a create request asks for: the turn or branch it names, or
    the conversation's latest turn. *)
Definition asked_for A (cid : string) (turn : option Z) (branch : option string) (snap : snapshot T) : Prop :=
  match turn, branch with
  | None, None => component_ok cid = true /\
      exists l n, lists_turns A cid (l ++ [n]) /\ A !! turn_loc cid n = Some snap
  | _, _ => exists loc, snap_loc cid turn branch = Some loc /\ A !! loc = Some snap
  end.

Lemma resolve_run cid turn branch x A :
  represents (disk x) A -> exists r s', resolve_turn cid turn branch x = (r, with_disk s' x) /\
    represents s' A /\
    forall t snap, r = Ok (Some t) ->
      (snap_loc cid t branch ≫= fun loc => A !! loc) = Some snap -> asked_for A cid turn branch snap.
Proof.
  intros Hr. unfold resolve_turn, asked_for.
  assert (forall t snap, (snap_loc cid t branch ≫= fun loc => A !! loc) = Some snap ->
    exists loc, snap_loc cid t branch = Some loc /\ A !! loc = Some snap) as Hbind.
  { intros t snap. destruct (snap_loc cid t branch) as [loc|]; [|done]. simpl. eauto. }
  destruct turn as [n|], branch as [b|];
    try (exists (Ok (Some turn)); eauto; fail);
    try (eexists _, (disk x); rewrite with_disk_id; split; [reflexivity|]; split; [done|];
         intros t snap [= <-]; apply Hbind).
  destruct (sm_latest_any cid (disk x) A Hr) as (r & s' & Hrun & Hr' & Hl).
  apply on_disk_run in Hrun. destruct r as [[[n m]|]|e].
  - eexists _, s'. split; [rewrite (bind_ok _ _ _ _ _ Hrun); reflexivity|]. split; [done|].
    intros t snap [= <-] Hs. destruct (Hl n m eq_refl) as [Hc (l & Hlt)]. split; [done|].
    exists l, n. split; [done|]. rewrite snap_loc_turn in Hs; [done|done|].
    apply lists_turns_nonneg in Hlt. apply Forall_app in Hlt as [_ Hn]. by inversion Hn.
  - eexists _, s'. split; [rewrite (bind_ok _ _ _ _ _ Hrun); reflexivity|]. done.
  - eexists _, s'. split; [rewrite (bind_raise _ _ _ _ _ Hrun); reflexivity|]. done.
Qed.

(** What a refused create request leaves behind. *)
Definition create_refused x p A (out : res (option RestoreSnapshotReqOutput)) x' : Prop :=
  (exists msg, out = Ok (Some (restore_failed msg))) /\ represents (disk x') A /\
  pending x' = pending x /\ sch_reqs x' = sch_reqs x /\ waiting_queue x' = waiting_queue x /\
  exists p', mamba_pool x' = Some p' /\ free_slots p' ≡ₚ free_slots p /\
    exists i, only_slot i (set_free (free_slots p') p) p' /\ (i ∈ free_slots p \/ p' = p).

Lemma create_refused_early x p A msg s' :
  mamba_pool x = Some p -> represents s' A ->
  create_refused x p A (Ok (Some (restore_failed msg))) (with_disk s' x).
Proof.
  intros Hp Hr. split; [eauto|]. split; [done|]. split_and!; [done..|].
  exists p. split; [done|]. split; [done|]. exists 0. split; [|by right].
  destruct p. split_and!; simpl; try done. apply Forall_Forall2_diag, Forall_true. done.
Qed.

Lemma created_slot r i snap p x rest origin :
  pool_wf p -> creatable r i snap p x = Some origin ->
  let p' := set_free rest (injected snap.1.1 snap.1.2 i p) in
  only_slot i (set_free rest p) p' /\
  (same_dtypes snap.1.1 snap.1.2 p -> extract_state_from_pool p' i = Ok snap.1).
Proof.
  intros Hw. destruct snap as [[conv temporal] m]. simpl. case_decide as Hi; [|done]. intros _.
  pose proof (inject_frame conv temporal i (set_free rest p) Hw) as Hfr.
  rewrite (inject_ok conv temporal i (set_free rest p) Hw Hi) in Hfr. split; [exact Hfr|].
  intros Hd. exact (extract_injected conv temporal i (set_free rest p) Hw Hi Hd).
Qed.

(** C26: a restore with [create_new_request] never raises and accounts for
    every slot of the pool.  Either it is refused with a message, and then
    the free slots are the same up to order, no slot in use is written, and
    queue, requests, registry and stored snapshots are unchanged; or the
    snapshot asked for (the latest turn if none was named) exists, is of the
    running model and fits the first free slot, which then leaves the free
    list, holds exactly the snapshot's state, and belongs to a new queued
    request of that conversation whose tokens are the snapshot's followed by
    the continuation.  With a full waiting queue the last part fails: the
    slot is taken and success (or a later answer) is promised, but the request
    is dropped. *)
Theorem restore_create_slots r cid new_rid ref x p A :
  mamba_pool x = Some p -> pool_ok p -> represents (disk x) A ->
  let '(out, x') := restore_create r cid new_rid ref x in
  create_refused x p A out x' \/
  exists i rest snap origin, free_slots p = i :: rest /\
    asked_for A (disk_id cid) (restore_turn_number r) (restore_branch_name r) snap /\
    other_model x (VStr (md_model_name snap.2)) = false /\
    creatable r i snap p x = Some origin /\
    (exists s', represents s' A /\
       registered r (disk_id cid) new_rid ref i origin (with_disk s' x) out x') /\
    exists p', mamba_pool x' = Some p' /\ free_slots p' = rest /\
      only_slot i (set_free rest p) p' /\
      (same_dtypes snap.1.1 snap.1.2 p -> extract_state_from_pool p' i = Ok snap.1).
Proof.
  intros Hp [Hw Hfr] Hr. unfold restore_create. rewrite Hp.
  destruct (resolve_run (disk_id cid) (restore_turn_number r) (restore_branch_name r) x A Hr)
    as (o & s1 & Hres & Hr1 & Hask).
  destruct o as [[t|]|e].
  2:{ rewrite (try_bind_ok _ _ _ _ _ _ Hres). left. by apply create_refused_early. }
  2:{ rewrite (try_bind_raise _ _ _ _ _ _ Hres). left. by apply create_refused_early. }
  rewrite (try_bind_ok _ _ _ _ _ _ Hres). cbv beta iota.
  destruct (sm_load_any (disk_id cid) t (restore_branch_name r) s1 A Hr1) as (o & s2 & Hload & Hr2 & Ho).
  pose proof (on_disk_run (sm_load (disk_id cid) t (restore_branch_name r)) (with_disk s1 x) o s2 Hload)
    as Hrun. change (with_disk s2 (with_disk s1 x)) with (with_disk s2 x) in Hrun.
  destruct (snap_loc (disk_id cid) t (restore_branch_name r) ≫= fun loc => A !! loc)
    as [snap|] eqn:Hsnap; rewrite ?Hsnap in Ho.
  2:{ destruct Ho as (e & -> & He). rewrite (try_bind_ok _ _ _ _ (with_disk s2 x) None);
        [left; by apply create_refused_early|].
      erewrite try_raise by (rewrite fmap_run, Hrun; reflexivity). unfold isinstance, subclass.
      by destruct He as [-> | ->]. }
  subst o. rewrite (try_bind_ok _ _ _ _ (with_disk s2 x) (Some snap))
    by (apply try_ok; rewrite fmap_run, Hrun; reflexivity). cbv beta iota.
  destruct (other_model x (VStr (md_model_name snap.2))) eqn:Hm.
  { left. by apply create_refused_early. }
  destruct (free_slots p) as [|i rest] eqn:Hf.
  { rewrite (try_bind_ok _ _ _ _ _ _ (alloc_slot_none (with_disk s2 x) p Hp Hf)). left.
    by apply create_refused_early. }
  rewrite (try_bind_ok _ _ _ _ _ _ (alloc_slot_some (with_disk s2 x) p i rest Hp Hf)). cbv beta iota.
  pose proof (create_with_slot_run r (disk_id cid) new_rid ref i rest snap
    (upd_pool (Some (set_free rest p)) (with_disk s2 x)) p eq_refl Hw) as Hcr.
  destruct (create_with_slot _ _ _ _ _ _ _) as [o x'] eqn:Ec.
  change (creatable r i snap p _) with (creatable r i snap p x) in Hcr.
  destruct (creatable r i snap p x) as [origin|] eqn:Hcre.
  - destruct Hcr as [Hreg Hp']. assert (exists v, o = Ok v) as [v ->].
    { destruct Hreg as [Ho _]. case_bool_decide; [eauto|]. destruct Ho as (? & ? & _). eauto. }
    rewrite (try_ok _ _ _ _ _ Ec). right. exists i, rest, snap, origin. split; [done|].
    split; [by eapply Hask|]. do 2 (split; [done|]).
    split; [exists s2; by split|]. eexists. split; [exact Hp'|]. split; [done|].
    apply (created_slot r i snap p x rest origin); done.
  - destruct Hcr as (msg & p' & -> & -> & Hf' & Ho'). rewrite (try_ok _ _ _ _ _ Ec). left.
    split; [eauto|]. split; [done|]. split_and!; [done..|]. exists p'. split; [done|].
    rewrite Hf', Hf. split; [solve_Permutation|]. exists i. split; [done|]. left. set_solver.
Qed.

(** ** Restoring a live request *)

Definition is_running x (ref : nat) : bool :=
  bool_decide (Exists (fun l => ref ∈ l) (option_list (running_batch x ≫= fun b => sch_batches x !! b))).

(** The token ids of a snapshot that may be put into slot [i]. *)
Definition restorable (i : Z) (snap : snapshot T) p x : option (list Z) :=
  let '(conv, temporal, m) := snap in
  if other_model x (VStr (md_model_name m)) then None
  else if decide (injectable conv temporal i p) then md_fill_ids m else None.

(** The scheduler after the state of [snap] went into slot [i] of request
    [ref]. *)
Definition restored_into (ref : nat) (i : Z) (rid : option string) (cid : string) (snap : snapshot T)
    (ids : list Z) p x : Scheduler S T F :=
  let x1 := upd_pool (Some (injected snap.1.1 snap.1.2 i p)) x in
  let x2 := upd_pending (clear_pending_restore rid (Some cid) (pending x)) x1 in
  let h := alter (set_conversation (Some cid)) ref (alter (set_ids ids (Some ids)) ref (sch_reqs x)) in
  (reset_health cid (upd_reqs h (waiting_queue x) (aborted x) x2)).2.

Lemma restore_live_run r cid ref req x p i A :
  mamba_pool x = Some p -> pool_wf p -> represents (disk x) A -> is_running x ref = false ->
  req_mamba_pool_idx req = Some i ->
  exists s', represents s' A /\
  let y := with_disk s' x in
  match snap_loc cid (restore_turn_number r) (restore_branch_name r) ≫= fun loc => A !! loc with
  | Some snap =>
      match restorable i snap p x with
      | Some ids => restore_live r cid ref req x =
          (Ok (mkRestoreOut true "Snapshot restored successfully" (VInt (md_token_count snap.2))
                 (restore_rid r) (Some i)),
           restored_into ref i (restore_rid r) cid snap ids p y)
      | None => exists o p', restore_live r cid ref req x = (o, upd_pool (Some p') y) /\
          ((exists e, o = Raise e) \/ exists msg, o = Ok (restore_failed msg)) /\
          only_slot i p p' /\ (injectable snap.1.1 snap.1.2 i p -> p' = p)
      end
  | None => exists e, restore_live r cid ref req x = (Raise e, y)
  end.
Proof.
  intros Hp Hw Hr Hrun Hi.
  destruct (sm_load_any cid (restore_turn_number r) (restore_branch_name r) (disk x) A Hr)
    as (o & s' & Hload & Hr' & Ho). exists s'. split; [done|]. cbv zeta.
  apply on_disk_run in Hload. unfold restore_live. fold (is_running x ref). rewrite Hrun, Hi.
  destruct (snap_loc _ _ _ ≫= _) as [[[conv temporal] m]|].
  2:{ destruct Ho as (e & -> & _). exists e. by rewrite (bind_raise _ _ _ _ _ Hload). }
  subst o. rewrite (bind_ok _ _ _ _ _ Hload). cbv beta iota. unfold restorable. simpl.
  assert (forall msg, exists o p', (mret (restore_failed msg) : M _ _) (with_disk s' x) =
     (o, upd_pool (Some p') (with_disk s' x)) /\
     ((exists e, o = Raise e) \/ exists msg, o = Ok (restore_failed msg)) /\
     only_slot i p p' /\ (injectable conv temporal i p -> p' = p)) as Hearly.
  { intros msg. eexists _, p. split; [by rewrite (upd_pool_id (with_disk s' x) p)|].
    split; [by eauto|]. split; [|done]. split_and!; try done.
    apply Forall_Forall2_diag, Forall_true. done. }
  destruct (other_model x (VStr (md_model_name m))); [by eauto|].
  destruct (md_fill_ids m) as [ids|]; [|case_decide; by eauto]. rewrite Hp.
  case_decide as Hinj.
  - pose proof (on_pool_run _ (with_disk s' x) p _ _ Hp (inject_ok _ _ _ _ Hw Hinj)) as Hin.
    rewrite (bind_ok _ _ _ _ _ Hin). reflexivity.
  - pose proof (inject_frame conv temporal i p Hw) as Hfr.
    destruct (inject_not_ok conv temporal i p Hw Hinj) as [e He].
    destruct (inject_state_to_pool conv temporal i p) as [o p'] eqn:E. simpl in He, Hfr. subst o.
    pose proof (on_pool_run _ (with_disk s' x) p _ _ Hp E) as Hin.
    eexists _, p'. split; [by rewrite (bind_raise _ _ _ _ _ Hin)|]. split; [by eauto|]. by split.
Qed.

Definition effective_id (r : RestoreSnapshotReqInput) : option string :=
  if truthy (restore_conversation_id r) then restore_conversation_id r else restore_rid r.

(** The handler on a live request is [restore_live] with errors turned into
    answers. *)
Lemma handle_restore_live now new_rid nref r x ref req :
  sch_snapshots x = true -> create_new_request r = false ->
  find_request_by_rid (restore_rid r) x = Some ref -> req_of x ref = Some req ->
  handle_restore_snapshot now new_rid nref r x =
    match restore_live r (disk_id (effective_id r)) ref req x with
    | (Ok o, x') => (Ok (Some o), x')
    | (Raise e, x') => (Ok (Some (restore_failed ("Error restoring snapshot: " +:+ exn_msg e))), x')
    end.
Proof.
  intros Hs Hc Hf Hq. unfold handle_restore_snapshot. rewrite Hs, Hc. simpl. rewrite Hf, Hq.
  unfold try_except. rewrite fmap_run. fold (effective_id r).
  by destruct (restore_live _ _ _ _ x) as [[o|e] x'].
Qed.

Lemma restored_into_frame ref i rid0 cid snap ids p x req :
  req_of x ref = Some req -> pool_wf p -> injectable snap.1.1 snap.1.2 i p ->
  let x' := restored_into ref i rid0 cid snap ids p x in
  disk x' = disk x /\ pending x' = clear_pending_restore rid0 (Some cid) (pending x) /\
  waiting_queue x' = waiting_queue x /\
  (exists req', req_of x' ref = Some req' /\ req_conversation_id req' = Some cid /\
     origin_input_ids req' = ids /\ req_fill_ids req' = Some ids /\
     req_mamba_pool_idx req' = req_mamba_pool_idx req /\ rid req' = rid req) /\
  (forall ref', ref' ≠ ref -> req_of x' ref' = req_of x ref') /\
  exists p', mamba_pool x' = Some p' /\ only_slot i p p' /\
    (same_dtypes snap.1.1 snap.1.2 p -> extract_state_from_pool p' i = Ok snap.1).
Proof.
  intros Hq Hw Hi. cbv zeta. unfold restored_into, req_of, disk.
  match goal with |- context [reset_health cid ?y] => set (y0 := y) end.
  destruct (reset_health_frame cid y0) as (F1 & F2 & F3 & F4 & F5 & _).
  rewrite F1, F2, F3, F4, F5. unfold y0. simpl. split_and!; try done.
  - eexists. split; [rewrite !lookup_alter_eq; unfold req_of in Hq; by rewrite Hq|]. done.
  - intros ref' Hne. by rewrite !lookup_alter_ne.
  - eexists. split; [done|]. pose proof (inject_frame snap.1.1 snap.1.2 i p Hw) as Hfr.
    rewrite (inject_ok _ _ _ _ Hw Hi) in Hfr. split; [done|]. intros Hd.
    rewrite (extract_injected _ _ _ _ Hw Hi Hd). by destruct snap as [[? ?] ?].
Qed.

(** C35: a restore of a live request.  A running request is refused and
    nothing changes; so is one without a slot.  Otherwise the handler answers
    with success exactly when the named snapshot is stored, is of the running
    model, has token ids and fits the request's slot.  Then the slot holds the
    snapshot's state and every other slot is as before, the request's token
    ids are the snapshot's, its conversation is the restored one, other
    requests are untouched and the staged entry for it is cleared.  On a
    refusal requests and registry are untouched, and so is the pool, unless
    the shapes do not fit: then the slot itself may have been overwritten in
    part.  Stored snapshots never change. *)
Theorem restore_live_spec now new_rid nref r x ref req p A :
  sch_snapshots x = true -> create_new_request r = false ->
  find_request_by_rid (restore_rid r) x = Some ref -> req_of x ref = Some req ->
  mamba_pool x = Some p -> pool_wf p -> represents (disk x) A ->
  let cid := disk_id (effective_id r) in
  let '(out, x') := handle_restore_snapshot now new_rid nref r x in
  exists o, out = Ok (Some o) /\
  if is_running x ref then restore_success o = false /\ x' = x else
  match req_mamba_pool_idx req with
  | None => restore_success o = false /\ x' = x
  | Some i =>
      represents (disk x') A /\
      exists p', mamba_pool x' = Some p' /\ only_slot i p p' /\
      match (snap_loc cid (restore_turn_number r) (restore_branch_name r) ≫= fun loc => A !! loc)
              ≫= fun snap => (fun ids => (snap, ids)) <$> restorable i snap p x with
      | Some (snap, ids) =>
          restore_success o = true /\
          (same_dtypes snap.1.1 snap.1.2 p -> extract_state_from_pool p' i = Ok snap.1) /\
          pending x' = clear_pending_restore (restore_rid r) (Some cid) (pending x) /\
          (exists req', req_of x' ref = Some req' /\ req_conversation_id req' = Some cid /\
             origin_input_ids req' = ids /\ req_fill_ids req' = Some ids /\
             req_mamba_pool_idx req' = req_mamba_pool_idx req /\ rid req' = rid req) /\
          (forall ref', ref' ≠ ref -> req_of x' ref' = req_of x ref')
      | None => restore_success o = false /\ sch_reqs x' = sch_reqs x /\ pending x' = pending x /\
          (forall snap, (snap_loc cid (restore_turn_number r) (restore_branch_name r)
             ≫= fun loc => A !! loc) = Some snap -> injectable snap.1.1 snap.1.2 i p -> p' = p)
      end
  end.
Proof.
  intros Hs Hc Hf Hq Hp Hw Hr. cbv zeta. rewrite (handle_restore_live _ _ _ _ _ _ _ Hs Hc Hf Hq).
  set (cid := disk_id (effective_id r)).
  destruct (is_running x ref) eqn:Hrun.
  { unfold restore_live. fold (is_running x ref). rewrite Hrun. by eexists. }
  destruct (req_mamba_pool_idx req) as [i|] eqn:Hi.
  2:{ unfold restore_live. fold (is_running x ref). rewrite Hrun, Hi. by eexists. }
  destruct (restore_live_run r cid ref req x p i A Hp Hw Hr Hrun Hi) as (s' & Hr' & Hres). cbv zeta in Hres.
  destruct (snap_loc cid _ _ ≫= _) as [snap|] eqn:Hsnap; simpl.
  2:{ destruct Hres as (e & ->). eexists. split; [done|]. split; [done|]. exists p. split; [done|].
      split; [|done]. split_and!; try done. apply Forall_Forall2_diag, Forall_true. done. }
  destruct (restorable i snap p x) as [ids|] eqn:Hids; simpl.
  - rewrite Hres. eexists. split; [done|].
    assert (injectable snap.1.1 snap.1.2 i p) as Hinj.
    { destruct snap as [[conv temporal] m]. unfold restorable in Hids.
      destruct (other_model _ _); [done|]. by case_decide. }
    destruct (restored_into_frame ref i (restore_rid r) cid snap ids p (with_disk s' x) req Hq Hw Hinj)
      as (F1 & F2 & F3 & F4 & F5 & p' & F6 & F7 & F8).
    rewrite F1. split; [done|]. exists p'. rewrite <- Hi. split_and!; done.
  - destruct Hres as (o & p' & -> & Ho & Honly & Hsame).
    destruct Ho as [(e & ->)|(msg & ->)]; eexists; (split; [done|]); (split; [done|]); exists p';
      (split; [done|]); (split; [done|]); split_and!; try done; by intros ? [= <-].
Qed.

(** ** Saving a live request and restoring it *)

Definition save_id (r : SaveSnapshotReqInput) : string := str_or (save_conversation_id r) (save_rid r).

Definition live_metadata (now : Z) (r : SaveSnapshotReqInput) x (i k : Z) (ids : list Z) :
    MambaSnapshotMetadata :=
  mkMeta (save_id r) (save_turn_number r) now (len ids) (sa_model_path (server_args x)) i k
    (layer_config (num_mamba_layers x)) None (save_branch_name r) None (Some ids).

Lemma handle_save_live now r x ref req i k ids p conv temporal A loc :
  sch_snapshots x = true -> find_request_by_rid (Some (save_rid r)) x = Some ref ->
  req_of x ref = Some req -> req_mamba_pool_idx req = Some i -> req_fill_ids req = Some ids ->
  req_pool_idx req = Some k -> mamba_pool x = Some p -> conv ≠ [] ->
  extract_state_from_pool p i = Ok (conv, temporal) ->
  is_valid (validate_state_tensors conv temporal None false) = true ->
  represents (disk x) A -> snap_loc (save_id r) (save_turn_number r) (save_branch_name r) = Some loc ->
  exists out s', handle_save_snapshot now r x = (Ok out, with_disk s' x) /\ save_success out = true /\
    represents s' (<[loc := (conv, temporal, live_metadata now r x i k ids)]> A).
Proof.
  intros Hs Hf Hq Hi Hids Hk Hp Hne Hex Hv Hr Hl.
  assert (saveable conv temporal (live_metadata now r x i k ids) = true) as Hsv.
  { unfold saveable. rewrite (validate_valid_any (Some _) None), Hv, andb_true_r.
    rewrite bool_decide_false; [done|]. destruct conv; [done|]. unfold len. simpl. lia. }
  destruct (sm_save_spec _ _ _ loc (disk x) A Hr Hsv Hl) as (pr & s' & Hsave & Hr').
  apply on_disk_run in Hsave. unfold handle_save_snapshot. rewrite Hs, Hf. cbn [negb mbind option_bind].
  rewrite Hq. eexists _, s'. split; [|split; [|exact Hr']].
  - apply try_ok. unfold save_live. rewrite Hi, Hp, Hex, Hids, Hk.
    fold (save_id r). fold (live_metadata now r x i k ids).
    rewrite (bind_ok _ _ _ _ _ Hsave). reflexivity.
  - done.
Qed.

(** C23: the round trip of the save and restore endpoints.  Saving a live
    request with a Mamba slot succeeds.  If afterwards the whole pool is
    overwritten by other data of the same layout, then restoring that turn (or
    branch) for the request, once it is idle, succeeds and brings back the
    slot's state and the request's token ids exactly as they were when they
    were saved, and touches no other slot. *)
Theorem save_restore_roundtrip now now' sr rr x ref req i k ids p p2 conv temporal A loc new_rid nref :
  sch_snapshots x = true -> represents (disk x) A ->
  find_request_by_rid (Some (save_rid sr)) x = Some ref -> req_of x ref = Some req ->
  req_mamba_pool_idx req = Some i -> req_fill_ids req = Some ids -> req_pool_idx req = Some k ->
  mamba_pool x = Some p -> pool_wf p -> 1 <= i <= pool_size p -> pool_conv p ≠ [] ->
  extract_state_from_pool p i = Ok (conv, temporal) ->
  snap_loc (save_id sr) (save_turn_number sr) (save_branch_name sr) = Some loc ->
  (** the restore names what was saved, and the request is idle *)
  create_new_request rr = false -> restore_rid rr = Some (save_rid sr) ->
  disk_id (effective_id rr) = save_id sr -> restore_turn_number rr = save_turn_number sr ->
  restore_branch_name rr = save_branch_name sr -> is_running x ref = false ->
  same_layout p p2 ->
  let '(saved, x1) := handle_save_snapshot now sr x in
  let '(back, x2) := handle_restore_snapshot now' new_rid nref rr (upd_pool (Some p2) x1) in
  (exists o, saved = Ok o /\ save_success o = true) /\
  (exists o, back = Ok (Some o) /\ restore_success o = true) /\
  exists p3 req', mamba_pool x2 = Some p3 /\ extract_state_from_pool p3 i = Ok (conv, temporal) /\
    only_slot i p2 p3 /\ req_of x2 ref = Some req' /\ origin_input_ids req' = ids /\
    req_fill_ids req' = Some ids /\ req_conversation_id req' = Some (save_id sr).
Proof.
  intros Hs Hr Hf Hq Hi Hids Hk Hp Hw Hir Hpc Hex Hl Hc Hrid Hcid Hturn Hbr Hrun Hlay.
  destruct (extract_inv _ _ _ _ Hw Hir Hex) as (Hconv & _ & Hv).
  assert (conv ≠ []) as Hne by (subst conv; by destruct (pool_conv p)).
  destruct (handle_save_live now sr x ref req i k ids p conv temporal A loc)
    as (out & s' & Hsave & Hok & Hr'); [done..|]. rewrite Hsave.
  set (m := live_metadata now sr x i k ids) in *. set (y := upd_pool (Some p2) (with_disk s' x)).
  destruct (extracted_injectable p p2 i conv temporal Hw Hir Hex Hlay) as [Hinj Hdt].
  pose proof (same_layout_wf p p2 Hlay Hw) as Hw2.
  assert (restorable i (conv, temporal, m) p2 y = Some ids) as Hrest.
  { unfold restorable. unfold other_model, model_mismatch. simpl.
    rewrite (bool_decide_true (sa_model_path _ = sa_model_path _)) by done. simpl.
    rewrite andb_false_r. by rewrite decide_True. }
  rewrite (handle_restore_live now' new_rid nref rr y ref req); [|done|done|by rewrite Hrid|done].
  rewrite Hcid.
  destruct (restore_live_run rr (save_id sr) ref req y p2 i (<[loc := (conv, temporal, m)]> A))
    as (s2 & Hr2 & Hres); [done..|].
  rewrite Hturn, Hbr, Hl in Hres. cbv zeta in Hres. simpl in Hres. rewrite lookup_insert_eq, Hrest in Hres.
  rewrite Hres. split; [by eauto|]. split; [by eauto|].
  destruct (restored_into_frame ref i (restore_rid rr) (save_id sr) (conv, temporal, m) ids p2
    (with_disk s2 y) req) as (_ & _ & _ & (req' & Q1 & Q2 & Q3 & Q4 & _) & _ & p3 & P1 & P2 & P3);
    [done..|]. exists p3, req'. split_and!; auto.
Qed.

(** Neither restore path for requests accepts a snapshot without token ids. *)
Lemma no_ids_not_restorable m i conv temporal p x r :
  md_fill_ids m = None ->
  restorable i (conv, temporal, m) p x = None /\ creatable r i (conv, temporal, m) p x = None.
Proof.
  intros Hm. unfold restorable, creatable. rewrite Hm.
  destruct (other_model x _); repeat case_decide; done.
Qed.

(** A snapshot that [demote_to_cold_tier] wrote has lost its token ids. *)
Lemma demoted_not_restorable now cid d m i conv temporal p x r :
  demoted_metadata now cid d = Some m ->
  restorable i (conv, temporal, m) p x = None /\ creatable r i (conv, temporal, m) p x = None.
Proof.
  unfold demoted_metadata. intros Hd. apply no_ids_not_restorable.
  repeat (simplify_option_eq; try case_match); done.
Qed.

(** So has a branch that [create_branch] made. *)
Lemma branch_not_restorable now cid branch n m i conv temporal p x r :
  restorable i (conv, temporal, branch_meta now cid branch n m) p x = None /\
  creatable r i (conv, temporal, branch_meta now cid branch n m) p x = None.
Proof. by apply no_ids_not_restorable. Qed.

(** ** Staging a snapshot for the next request *)

Lemma to_dict_model m : get_default (to_dict m) "model_name" VNone = VStr (md_model_name m).
Proof. reflexivity. Qed.

Lemma to_dict_ids m : as_ids (get_default (to_dict m) "fill_ids" VNone) = Some (md_fill_ids m).
Proof. apply as_ids_ids. Qed.

(** A turn or branch that is named is staged from disk. *)
Lemma restore_staged_run now r cid x A snap :
  restore_turn_number r ≠ None \/ restore_branch_name r ≠ None -> represents (disk x) A ->
  (snap_loc (disk_id cid) (restore_turn_number r) (restore_branch_name r) ≫= fun loc => A !! loc) = Some snap ->
  other_model x (VStr (md_model_name snap.2)) = false ->
  exists s' o, represents s' A /\ restore_success o = true /\ restore_staged now r cid x =
    (Ok o, upd_pending (stage_pending_restore now (restore_rid r) (disk_id cid) snap.1.1 snap.1.2
             (md_fill_ids snap.2) (pending x)) (with_disk s' x)).
Proof.
  intros Hnamed Hr Hsnap Hm.
  destruct (sm_load_any (disk_id cid) (restore_turn_number r) (restore_branch_name r) (disk x) A Hr)
    as (o & s' & Hload & Hr' & Ho). rewrite Hsnap in Ho. subst o. apply on_disk_run in Hload.
  destruct snap as [[conv temporal] m]. simpl in Hm. exists s'.
  assert (load_snapshot_for_pending_restore now cid (restore_turn_number r) (restore_branch_name r) x
    = (Ok (Some (conv, temporal, to_dict m)), with_disk s' x)) as Hl.
  { unfold load_snapshot_for_pending_restore. do 2 erewrite bind_ok by reflexivity.
    assert (bool_decide (restore_turn_number r = None) && bool_decide (restore_branch_name r = None) = false)
      as Hb by (destruct (restore_turn_number r), (restore_branch_name r); naive_solver).
    rewrite <- (andb_assoc (sch_tiers x)), Hb, andb_false_r, andb_false_l.
    erewrite bind_ok by reflexivity. apply try_ok. by rewrite (bind_ok _ _ _ _ _ Hload). }
  eexists. split; [done|]. unfold restore_staged.
  rewrite (bind_ok _ _ _ _ _ Hl). cbv beta iota zeta. rewrite to_dict_model, to_dict_ids.
  erewrite bind_ok by reflexivity.
  change (other_model (with_disk s' x) (VStr (md_model_name m))) with (other_model x (VStr (md_model_name m))).
  rewrite Hm. erewrite bind_ok by reflexivity. split; [|reflexivity]. done.
Qed.

(** C25: the staged restore, end to end.  Restoring a named, stored snapshot of
    the running model for a request that has finished succeeds and touches
    neither requests nor pool; the next request with that id then gets the
    first free slot holding exactly the stored state, and the conversation id
    of the snapshot, while all other slots stay as they are. *)
Theorem staged_restore_hydrates now r r0 x p A snap i rest req new_rid nref :
  sch_snapshots x = true -> create_new_request r = false -> restore_rid r = Some r0 ->
  find_request_by_rid (Some r0) x = None ->
  restore_turn_number r ≠ None \/ restore_branch_name r ≠ None -> represents (disk x) A ->
  (snap_loc (disk_id (effective_id r)) (restore_turn_number r) (restore_branch_name r)
     ≫= fun loc => A !! loc) = Some snap ->
  other_model x (VStr (md_model_name snap.2)) = false -> pending_core (pending x) ->
  mamba_pool x = Some p -> pool_wf p -> free_slots p = i :: rest ->
  injectable snap.1.1 snap.1.2 i p -> same_dtypes snap.1.1 snap.1.2 p ->
  rid req = r0 -> req_mamba_pool_idx req = None ->
  let '(out, x1) := handle_restore_snapshot now new_rid nref r x in
  let '(hyd, x2) := maybe_hydrate_from_pending_restore req x1 in
  (exists o, out = Ok (Some o) /\ restore_success o = true) /\
  sch_reqs x1 = sch_reqs x /\ mamba_pool x1 = mamba_pool x /\ represents (disk x1) A /\
  exists req' p', hyd = Ok (Some true, req') /\ req_mamba_pool_idx req' = Some i /\
    req_conversation_id req' = Some (disk_id (effective_id r)) /\
    origin_input_ids req' = origin_input_ids req /\
    mamba_pool x2 = Some p' /\ free_slots p' = rest /\ only_slot i (set_free rest p) p' /\
    extract_state_from_pool p' i = Ok snap.1.
Proof.
  intros Hs Hc Hrid Hf Hnamed Hr Hsnap Hm Hcore Hp Hw Hfree Hinj Hdt Hreq Hslot.
  destruct (restore_staged_run now r (effective_id r) x A snap Hnamed Hr Hsnap Hm)
    as (s' & o & Hr' & Ho & Hst).
  assert (handle_restore_snapshot now new_rid nref r x = (Ok (Some o), (restore_staged now r (effective_id r) x).2))
    as ->.
  { unfold handle_restore_snapshot. rewrite Hs, Hc, Hrid, Hf. cbn [negb]. fold (effective_id r).
    apply try_ok. rewrite fmap_run. rewrite <- Hrid. fold (effective_id r). by rewrite Hst. }
  rewrite Hst. cbn [snd]. set (cid := disk_id (effective_id r)).
  set (e := mkPending snap.1.1 snap.1.2 (md_fill_ids snap.2) cid now).
  set (x1 := upd_pending _ _).
  destruct (stage_spec now (restore_rid r) cid snap.1.1 snap.1.2 (md_fill_ids snap.2) (pending x) Hcore)
    as (Hcore' & _ & Hnew). rewrite Hrid in Hnew, Hcore'.
  assert (pending_core (pending x1)) as Hcore1 by (unfold x1; by rewrite Hrid).
  assert (dict_get (registry (pending x1)) (Some r0) = Some e) as He.
  { unfold x1. rewrite Hrid. apply newest_get; [apply Hcore'|exact Hnew]. }
  assert (entry_for x1 req = Some (r0, true, e)) as Hent.
  { unfold entry_for. rewrite Hslot, Hreq, find_by_rid by (unfold dict_has; by rewrite He).
    cbn [mbind option_bind]. by rewrite He. }
  rewrite (hydrate_hit req x1 r0 true e Hent).
  change (mamba_pool x1) with (mamba_pool x). rewrite Hp, Hfree. simpl pe_conv_states. simpl pe_temporal_states.
  pose proof (inject_frame snap.1.1 snap.1.2 i (set_free rest p) Hw) as Hfr.
  rewrite (inject_ok snap.1.1 snap.1.2 i (set_free rest p) Hw Hinj) in *.
  split; [by eauto|]. do 3 (split; [done|]). eexists _, _. split; [reflexivity|].
  split; [by unfold reconcile; repeat case_match|].
  split; [by apply (reconcile_conversation x1 req r0 true e)|].
  split; [by unfold reconcile; repeat case_match|].
  split; [unfold hydrated; destruct (reset_health_frame (pe_conversation_id e)
    (upd_pending (touch (Some r0) (pending x1)) (upd_pool (Some (injected snap.1.1 snap.1.2 i (set_free rest p))) x1)))
    as [-> _]; reflexivity|].
  split; [done|]. split; [exact Hfr|].
  rewrite (extract_injected snap.1.1 snap.1.2 i (set_free rest p) Hw Hinj Hdt). by destruct snap as [[? ?] ?].
Qed.

(** The delete endpoint removes exactly the snapshot it names: it reports
    success when that snapshot was stored, failure when it was not or when the
    request names no valid place, and afterwards the stored snapshots are
    those of before without that one.  Pool, requests, queue, registry, warm
    tier and tracker are untouched. *)
Theorem delete_handler_spec cid turn branch x A :
  sch_snapshots x = true -> represents (disk x) A ->
  let '(r, x') := handle_delete_snapshot cid turn branch x in
  exists o s', r = Ok o /\ x' = with_disk s' x /\
  match snap_loc cid turn branch with
  | Some loc => (delete_success o = true <-> is_Some (A !! loc)) /\ represents s' (delete loc A)
  | None => delete_success o = false /\ represents s' A
  end.
Proof.
  intros Hs Hr. destruct (sm_refines (ODelete cid turn branch) (disk x) A Hr) as (A' & Hst & Hr').
  cbn [sm_call] in *. rewrite fmap_run in *. unfold handle_delete_snapshot. rewrite Hs. cbn [negb].
  destruct (sm_delete cid turn branch (disk x)) as [[b|e] s'] eqn:E; simpl in Hst, Hr';
    apply on_disk_run in E;
    [rewrite (try_bind_ok _ _ _ _ _ _ E)|rewrite (try_bind_raise _ _ _ _ _ _ E)];
    eexists _, s'; (split; [reflexivity|]); (split; [reflexivity|]);
    inversion Hst as [| | | | |? ? ? loc ? Hl|? ? ? ? Hl| | | | |]; subst; rewrite Hl.
  - split; [|done]. case_bool_decide; naive_solver.
  - done.
Qed.
(** ** The token budget of a request *)

(** [-(-n // page_size) * page_size] *)
Definition ceil_page (n page : Z) : Z := - (- n / page) * page.

Lemma ceil_page_bounds n page :
  0 < page -> n <= ceil_page n page < n + page /\ (page | ceil_page n page).
Proof.
  intros Hp. set (paged := ceil_page n page). pose proof (Z.div_mod (- n) page ltac:(lia)) as Hd.
  pose proof (Z.mod_pos_bound (- n) page Hp). unfold paged, ceil_page. split; [nia|]. by exists (- (- n / page)).
Qed.

(** C40: the budget [init_req_max_new_tokens] sets.  The page-rounded length is
    the least multiple of the page size that covers the input.  The budget is
    never negative and never above what the request asked for; whenever the
    input alone leaves room, input and budget together stay strictly below the
    request limit and rounded input, budget and one page strictly below the
    token pool, which is the condition for the request to be schedulable; and
    an admissible wish is granted in full. *)
Theorem max_new_tokens_bounds args req :
  0 < sa_page_size args ->
  let n := len (origin_input_ids req) in
  let paged := ceil_page n (sa_page_size args) in
  exists k, max_new_tokens (init_req_max_new_tokens args req) = Some k /\
    n <= paged < n + sa_page_size args /\ (sa_page_size args | paged) /\ 0 <= k /\
    (n < sa_max_req_len args -> n + k < sa_max_req_len args) /\
    (paged + sa_page_size args < sa_max_total_num_tokens args ->
       paged + k + sa_page_size args < sa_max_total_num_tokens args) /\
    (forall w, max_new_tokens req = Some w -> 0 <= w -> k <= w /\
       (n + w < sa_max_req_len args ->
        paged + w + sa_page_size args < sa_max_total_num_tokens args -> k = w)).
Proof.
  intros Hp n paged. destruct (ceil_page_bounds n (sa_page_size args) Hp) as [Hb Hd].
  eexists. split; [reflexivity|]. fold n. fold (ceil_page n (sa_page_size args)). fold paged.
  fold paged in Hb, Hd. split; [done|]. split; [done|].
  split_and!; [lia|lia|lia|]. intros w -> Hw. split; [lia|]. intros. lia.
Qed.
End facts.

(** ** Witnesses *)

Definition demo_args : ServerArgs := mkArgs "m" 100 100 1000 1 (Some 2) 0 "log_and_continue".

(** Two slots; the tensors hold one layer of two elements. *)
Definition demo_slots (a b : Z) : ctensor :=
  CPool float32 [[[Fin 0; Fin 1]]; [[Fin a; Fin 1]]; [[Fin b; Fin 1]]].

Definition sched_pool (n : Z) : MambaPool ctensor := mkMPool 2 [demo_slots n 8] (demo_slots 9 n) [2].

(** A request with slot 1 waits; requests with other ids have finished. *)
Definition demo_req : Req :=
  mkReq "r1" None (Some 1) false [4; 5] (Some [4; 5; 6]) (Some 0) (Some 10) false None.

Definition demo_sched (pend : Pending ctensor) : Scheduler (FS ctensor) ctensor spec_float :=
  mkSched demo_args true true demo_tier0 (Some (sched_pool 7)) 1 pend None [] (policy_init demo_cfg)
    {[ 0%nat := demo_req ]} ∅ None None None [0%nat] [].

Definition next_req (r : string) : Req :=
  mkReq r None None false [4] (Some [4]) None (Some 10) false None.

Definition staged_demo : Pending ctensor :=
  stage_pending_restore 1 (Some "r9") "a" [t_of 5] (t_of 6) (Some [7]) pending_init.

Lemma staged_demo_core : pending_core staged_demo.
Proof.
  apply reachable_pending. eapply pend_reach_step; [apply pend_reach_init|apply pend_stage].
Qed.

Lemma sched_pool_ok n : pool_ok (sched_pool n).
Proof. split; [split; [repeat constructor|reflexivity]|]. constructor; [simpl; lia|constructor]. Qed.

(** A finished request's state, staged under its id, is given to the next
    request with that id. *)
Lemma hydrate_spec_witness :
  exists req' x' p', maybe_hydrate_from_pending_restore (next_req "r9") (demo_sched staged_demo) =
    (Ok (Some true, req'), x') /\ req_mamba_pool_idx req' = Some 2 /\
    req_conversation_id req' = Some "a" /\
    mamba_pool x' = Some p' /\ extract_state_from_pool p' 2 = Ok ([t_of 5], t_of 6) /\ free_slots p' = [].
Proof.
  pose proof (hydrate_spec (next_req "r9") (demo_sched staged_demo) (sched_pool 7) eq_refl
    (sched_pool_ok 7) staged_demo_core) as Hx.
  destruct (maybe_hydrate_from_pending_restore _ _) as [r x'].
  assert (entry_for (demo_sched staged_demo) (next_req "r9") =
    Some ("r9", true, mkPending [t_of 5] (t_of 6) (Some [7]) "a" 1)) as He by (vm_compute; reflexivity).
  rewrite He in Hx. cbn [free_slots sched_pool] in Hx. destruct Hx as (p' & Hp & _ & Hx).
  destruct (decide _) as [_|Hn]; [|exfalso; apply Hn; apply (@bool_decide_unpack _ (injectable_dec _ _ _ _)); vm_compute; exact I].
  destruct Hx as (req' & -> & _ & H1 & _ & _ & H2 & H3 & H4 & _).
  exists req', x', p'. split; [reflexivity|]. split; [exact H1|]. split; [exact H2|].
  split; [exact Hp|]. split; [|exact H3]. apply H4. split; [|reflexivity].
  constructor; [reflexivity|constructor].
Defined.

Definition demo_create : RestoreSnapshotReqInput :=
  mkRestoreIn None (Some "a") None None true (Some [50]) (Some 4).

Lemma injectable_demo : injectable [t_of 1] (t_of 9) 2 (sched_pool 7).
Proof. apply (@bool_decide_unpack _ (injectable_dec _ _ _ _)). vm_compute. exact I. Qed.

(** The latest turn of the demo conversation in the free slot of a new
    request. *)
Lemma find_request_spec_witness :
  find_request_by_rid (Some "r1") (demo_sched pending_init) = Some 0%nat /\
  has_rid (demo_sched pending_init) "r1" 0.
Proof.
  pose proof (find_request_spec "r1" (demo_sched pending_init)) as [Hx _].
  assert (find_request_by_rid (Some "r1") (demo_sched pending_init) = Some 0%nat) as E
    by (vm_compute; reflexivity).
  rewrite E in Hx. split; [exact E|exact (proj2 Hx)].
Defined.

Lemma restore_create_slots_witness :
  exists x' p', restore_create demo_create (Some "a") "restored-1" 1 (demo_sched pending_init) =
    (Ok None, x') /\ waiting_queue x' = [0%nat; 1%nat] /\ mamba_pool x' = Some p' /\
    free_slots p' = [] /\ (origin_input_ids <$> req_of x' 1) = Some [1; 2; 3; 50].
Proof.
  pose proof (restore_create_slots demo_create (Some "a") "restored-1" 1 (demo_sched pending_init)
    (sched_pool 7) demo_map eq_refl (sched_pool_ok 7) demo_represents) as Hx.
  assert ((restore_create demo_create (Some "a") "restored-1" 1 (demo_sched pending_init)).1 = Ok None)
    as Hout by (vm_compute; reflexivity).
  destruct (restore_create _ _ _ _ _) as [out x']. cbn [fst] in Hout. subst out. exists x'.
  destruct Hx as [[(msg & Hbad) _]|Hx]; [discriminate Hbad|].
  destruct Hx as (i & rest & snap & origin & Hf & (_ & l & n & Hlt & Hn) & _ & Hc &
    (s' & _ & Hreg) & p' & Hp & Hfp & _).
  exists p'. split; [reflexivity|]. destruct Hreg as (_ & _ & _ & Hq & Hh).
  split; [exact Hq|]. split; [exact Hp|]. injection Hf as <- <-. split; [exact Hfp|].
  pose proof (lists_turns_unique _ _ _ _ Hlt demo_turns) as Hl.
  assert (n = 9) as -> by (apply (f_equal last) in Hl; rewrite last_snoc in Hl; by injection Hl).
  assert (demo_map !! turn_loc "a" 9 = Some ([t_of 1], t_of 9, meta_of "a" 9)) as Hm
    by (vm_compute; reflexivity).
  cbn [disk_id] in Hn. rewrite Hm in Hn. injection Hn as <-.
  unfold creatable in Hc. rewrite decide_True in Hc by exact injectable_demo.
  injection Hc as <-. unfold req_of. rewrite Hh, lookup_insert_eq. reflexivity.
Defined.

(** With a full waiting queue the slot is gone, no request holds it, and the
    answer does not say so. *)
Lemma full_queue_leaks_slot :
  let x := demo_sched pending_init in
  let full := upd_reqs (sch_reqs x) [0%nat; 0%nat] [] x in
  let '(out, x') := restore_create demo_create (Some "a") "restored-1" 1 full in
  out = Ok None /\ (free_slots <$> mamba_pool x') = Some [] /\
  req_of x' 1 = None /\ aborted x' = ["restored-1"].
Proof. vm_compute. repeat split. Qed.

Definition demo_save_req : SaveSnapshotReqInput := mkSaveIn "r1" None (Some "a") (Some 12) None.
Definition demo_restore_req (turn : Z) : RestoreSnapshotReqInput :=
  mkRestoreIn (Some "r1") (Some "a") (Some turn) None false None None.

(** Turn 4 of the demo conversation goes into the waiting request's slot. *)
Lemma restore_live_spec_witness :
  exists o x' p', handle_restore_snapshot 5 "" 9 (demo_restore_req 4) (demo_sched pending_init) =
      (Ok (Some o), x') /\ mamba_pool x' = Some p' /\
    extract_state_from_pool p' 1 = Ok ([t_of 1], t_of 4) /\
    (origin_input_ids <$> req_of x' 0) = Some [1; 2; 3].
Proof.
  pose proof (restore_live_spec 5 "" 9 (demo_restore_req 4) (demo_sched pending_init) 0 demo_req
    (sched_pool 7) demo_map eq_refl eq_refl eq_refl eq_refl eq_refl (proj1 (sched_pool_ok 7))
    demo_represents) as Hx. cbv zeta in Hx.
  destruct (handle_restore_snapshot _ _ _ _ _) as [out x']. destruct Hx as (o & -> & Hx).
  assert (is_running (demo_sched pending_init) 0 = false) as Hr by reflexivity.
  rewrite Hr in Hx. cbn [demo_req req_mamba_pool_idx] in Hx. destruct Hx as (_ & p' & Hp & _ & Hx).
  assert ((snap_loc (disk_id (effective_id (demo_restore_req 4))) (Some 4) None
    ≫= fun loc => demo_map !! loc) = Some ([t_of 1], t_of 4, meta_of "a" 4)) as Hs
    by (vm_compute; reflexivity).
  cbn [demo_restore_req restore_turn_number restore_branch_name] in Hx. rewrite Hs in Hx.
  assert (restorable 1 ([t_of 1], t_of 4, meta_of "a" 4) (sched_pool 7) (demo_sched pending_init) =
    Some [1; 2; 3]) as Hi.
  { unfold restorable. rewrite decide_True; [reflexivity|].
    apply (@bool_decide_unpack _ (injectable_dec _ _ _ _)). vm_compute. exact I. }
  cbn [mbind option_bind] in Hx. rewrite Hi in Hx. cbn [fmap option_fmap option_map] in Hx.
  destruct Hx as (_ & He & _ & (req' & Hq & _ & Ho & _) & _).
  exists o, x', p'. split; [reflexivity|]. split; [exact Hp|]. split.
  - apply He. split; [|reflexivity]. constructor; [reflexivity|constructor].
  - rewrite Hq. cbn. by rewrite Ho.
Defined.

Lemma demo_extract : extract_state_from_pool (sched_pool 7) 1 = Ok ([t_of 7], t_of 9).
Proof. vm_compute. reflexivity. Qed.

Lemma demo_layout : same_layout (sched_pool 7) (sched_pool 1000).
Proof.
  assert (forall a b c d, let t := demo_slots a b in let t' := demo_slots c d in
    num_slots t' = num_slots t /\ tensor_dtype t' = tensor_dtype t /\
    forall j, shape (select_slot t' j) = shape (select_slot t j)) as Hl.
  { intros a b c d. split; [reflexivity|]. split; [reflexivity|]. intros j. simpl.
    destruct (Z.to_nat j) as [|[|[|k]]]; reflexivity. }
  split; [reflexivity|]. split; [|apply Hl]. constructor; [apply Hl|constructor].
Qed.

(** Slot 1 is saved as turn 12, overwritten, and restored. *)
Lemma save_restore_roundtrip_witness :
  let '(saved, x1) := handle_save_snapshot 3 demo_save_req (demo_sched pending_init) in
  let '(back, x2) := handle_restore_snapshot 4 "" 9 (demo_restore_req 12)
                       (upd_pool (Some (sched_pool 1000)) x1) in
  exists p3, mamba_pool x2 = Some p3 /\ extract_state_from_pool p3 1 = Ok ([t_of 7], t_of 9).
Proof.
  pose proof (save_restore_roundtrip 3 4 demo_save_req (demo_restore_req 12) (demo_sched pending_init)
    0 demo_req 1 0 [4; 5; 6] (sched_pool 7) (sched_pool 1000) [t_of 7] (t_of 9) demo_map
    (turn_loc "a" 12) "" 9 eq_refl demo_represents eq_refl eq_refl eq_refl eq_refl eq_refl eq_refl
    (proj1 (sched_pool_ok 7)) ltac:(simpl; lia) ltac:(discriminate) demo_extract eq_refl eq_refl eq_refl
    eq_refl eq_refl eq_refl eq_refl demo_layout) as Hx.
  destruct (handle_save_snapshot _ _ _) as [saved x1].
  destruct (handle_restore_snapshot _ _ _ _ _) as [back x2].
  destruct Hx as (_ & _ & p3 & req' & Hp & He & _). exists p3. split; [exact Hp|exact He].
Defined.

Definition stage_req : RestoreSnapshotReqInput :=
  mkRestoreIn (Some "r5") (Some "a") (Some 4) None false None None.

(** Turn 4 is staged for the finished request r5 and reaches the next one. *)
Lemma staged_restore_hydrates_witness :
  let '(out, x1) := handle_restore_snapshot 3 "" 9 stage_req (demo_sched pending_init) in
  let '(hyd, x2) := maybe_hydrate_from_pending_restore (next_req "r5") x1 in
  exists req' p', hyd = Ok (Some true, req') /\ req_mamba_pool_idx req' = Some 2 /\
    mamba_pool x2 = Some p' /\ extract_state_from_pool p' 2 = Ok ([t_of 1], t_of 4).
Proof.
  assert (restore_turn_number stage_req ≠ None) as Hn by discriminate.
  pose proof (staged_restore_hydrates 3 stage_req "r5" (demo_sched pending_init) (sched_pool 7)
    demo_map ([t_of 1], t_of 4, meta_of "a" 4) 2 [] (next_req "r5") "" 9 eq_refl eq_refl eq_refl eq_refl
    (or_introl Hn) demo_represents ltac:(vm_compute; reflexivity) eq_refl
    (proj1 (reachable_pending _ pend_reach_init)) eq_refl (proj1 (sched_pool_ok 7)) eq_refl) as Hx.
  destruct (handle_restore_snapshot _ _ _ _ _) as [out x1].
  destruct (maybe_hydrate_from_pending_restore _ _) as [hyd x2].
  destruct Hx as (_ & _ & _ & _ & req' & p' & Hh & Hi & _ & _ & Hp & _ & _ & He).
  - apply (@bool_decide_unpack _ (injectable_dec _ _ _ _)). vm_compute. exact I.
  - split; [constructor; [reflexivity|constructor]|reflexivity].
  - reflexivity.
  - reflexivity.
  - exists req', p'. split; [exact Hh|]. split; [exact Hi|]. split; [exact Hp|exact He].
Defined.

Lemma delete_handler_spec_witness :
  exists o x', handle_delete_snapshot "a" (Some 4) None (demo_sched pending_init) = (Ok o, x') /\
    delete_success o = true /\ represents (disk x') (delete (turn_loc "a" 4) demo_map).
Proof.
  pose proof (delete_handler_spec "a" (Some 4) None (demo_sched pending_init) demo_map eq_refl
    demo_represents) as Hx.
  destruct (handle_delete_snapshot _ _ _ _) as [r x']. destruct Hx as (o & s' & -> & -> & Hx).
  assert (snap_loc "a" (Some 4) None = Some (turn_loc "a" 4)) as Hl by reflexivity.
  rewrite Hl in Hx. destruct Hx as [Hiff Hr]. eexists o, _. split; [reflexivity|]. split; [|exact Hr].
  apply Hiff. apply (proj2 demo_turns). set_solver.
Defined.

(** 130 input tokens in pages of 64 take 192; 1000 in all leave 743. *)
Lemma max_new_tokens_bounds_witness :
  exists k, max_new_tokens (init_req_max_new_tokens
      (mkArgs "m" 4096 4096 1000 64 None 0 "log_and_continue")
      (mkReq "r" None None false (replicate 130 0) None None (Some 900) false None)) = Some k /\
    192 + k + 64 < 1000.
Proof.
  destruct (max_new_tokens_bounds (mkArgs "m" 4096 4096 1000 64 None 0 "log_and_continue")
    (mkReq "r" None None false (replicate 130 0) None None (Some 900) false None) ltac:(simpl; lia))
    as (k & Hk & _ & _ & _ & _ & Hb & _).
  exists k. split; [exact Hk|]. apply Hb. vm_compute. reflexivity.
Defined.
