(* ===== verification/System.v ===== *)
(** * The life cycle of the snapshot system
    (managers/scheduler_snapshot_system.py)

    [init_snapshot_system] decides from the server's arguments which parts run
    and builds them; [post_forward_snapshot_callback] is the hook it registers,
    run after every forward pass; [restore_snapshots_on_startup] fills the warm
    tier.  [trigger_snapshot_hooks] is the caller in scheduler.py.

    The hook manager holds closures over the scheduler, so it is a value
    beside the [Scheduler] record and not a field of it, and hooks run on a
    scheduler together with a clock reading: one run of a callback reads the
    clock once. *)

From S2P Require Import Prelude PyDict PyText Torch Metadata MambaPool Tracker HostPool.
From S2P Require Import SnapshotStore SnapshotFacts SnapshotSpec StoreInterface Policy.
From S2P Require Import TierManager PendingRestore Hooks Health Scheduler.

(** The arguments the snapshot system reads at start. *)
Record SnapshotArgs := mkSnapArgs {
  enable_snapshot_persistence : bool;
  arg_retention_count : Z;
  arg_trigger_policy : string;
  arg_every_n_turns : Z;
  arg_min_interval : Z;
  arg_keep_named_branches : bool;
  arg_auto_restore : bool;
  enable_memory_tiers : bool;
  max_warm_conversations : Z;
  max_warm_bytes : Z;                       (** [int(max_warm_memory_gb * 1024**3)] *)
  arg_cross_session_refs : bool;
  conversation_active_timeout : Z;
  conversation_warm_timeout : Z;
  conversation_cold_retention : Z;
  enable_tier_background_cleanup : bool;
  tier_cleanup_interval : Z;
}.

(** [SnapshotTriggerPolicy(value)]; an unknown value means every turn. *)
Definition trigger_policy_of (value : string) : SnapshotTriggerPolicy :=
  if bool_decide (value = "every_n_turns") then EVERY_N_TURNS
  else if bool_decide (value = "on_tool_call") then ON_TOOL_CALL
  else if bool_decide (value = "manual_only") then MANUAL_ONLY
  else EVERY_TURN.

Definition retention_config_of (a : SnapshotArgs) : SnapshotRetentionConfig :=
  mkRetention (arg_retention_count a) (trigger_policy_of (arg_trigger_policy a))
    (arg_every_n_turns a) true (arg_min_interval a) (arg_keep_named_branches a).

Section system.
Context {S T F : Type} `{Torch T} `{!SnapshotManager S T} `{!FloatOps F} `{!TorchNorm T F}.
Abbreviation Sch := (Scheduler S T F).

(** ** The post-forward callback *)

Definition effective_conversation (req : Req) : string :=
  match req_conversation_id req with Some c => c | None => rid req end.

(** The health check: whether the snapshot is to be skipped.  The counter is
    written before the interval is tested; an exception means no skip. *)
Definition health_gate (now : Z) (cid : string) (conv_states : list T) (temporal_states : T)
    (turn_number : Z) : M Sch bool := fun x =>
  match health_monitor x with
  | None => (Ok false, x)
  | Some m =>
      let count := match dict_get (health_check_counter x) cid with Some n => n | None => 0 end + 1 in
      let x1 := upd_health (Some m) (dict_set (health_check_counter x) cid count) x in
      let interval := sa_health_check_interval (server_args x) in
      if bool_decide (interval = 0) then (Ok false, x1)
      else if bool_decide (count mod interval = 0) then
        let '(health, m') := check_state_health now cid conv_states temporal_states turn_number m in
        (Ok (negb (healthy health) &&
             bool_decide (sa_health_failure_policy (server_args x) = "skip_snapshot")),
         upd_health (Some m') (health_check_counter x1) x1)
      else (Ok false, x1)
  end.

Definition callback_metadata (now : Z) (cid : string) (turn_number idx : Z) (req : Req) :
    M Sch MambaSnapshotMetadata := fun x =>
  match req_pool_idx req with
  | None => (Raise (Exn TypeError "int() argument must not be 'NoneType'"), x)
  | Some req_idx =>
      (Ok (mkMeta cid (Some turn_number) now
             (match req_fill_ids req with Some ids => len ids | None => 0 end)
             (sa_model_path (server_args x)) idx req_idx (layer_config (num_mamba_layers x))
             None None None (req_fill_ids req)), x)
  end.

Definition mark_taken (now : Z) (cid : string) : M Sch unit :=
  modify (fun x => upd_policy (mark_snapshot_taken now cid (snapshot_policy x)) x).

(** Warm tier if there is one, disk if there is none or it refuses. *)
Definition save_somewhere (now : Z) (cid : string) (conv_states : list T) (temporal_states : T)
    (m : MambaSnapshotMetadata) : M Sch unit :=
  let to_disk := on_disk (sm_save conv_states temporal_states m) ≫= fun _ => mark_taken now cid in
  tiers ← gets sch_tiers;
  if (tiers : bool) then
    success ← on_tier (save_to_warm_tier now cid conv_states temporal_states (Some (to_dict m))
                         "log_and_continue");
    if (success : bool) then mark_taken now cid else to_disk
  else to_disk.

Definition prune_conversation (cid : string) : M Sch Z := fun x =>
  on_disk (prune_old_snapshots (config (snapshot_policy x)) cid) x.

Definition snapshot_request (now : Z) (cid : string) (turn_number idx : Z) (req : Req)
    (conv_states : list T) (temporal_states : T) : M Sch unit :=
  skip ← health_gate now cid conv_states temporal_states turn_number;
  if (skip : bool) then mret tt
  else
    m ← callback_metadata now cid turn_number idx req;
    try_except
      (save_somewhere now cid conv_states temporal_states m ≫= fun _ =>
       prune_conversation cid ≫= fun _ => mret tt)
      (fun _ => mret tt).

(** The trigger's pool is the scheduler's; the triggers check that it and the
    request's slot are there. *)
Definition post_forward_snapshot_callback (now : Z) (t : SnapshotTrigger nat) : M Sch unit := fun x =>
  match req_of x (tr_req t), mamba_pool x with
  | Some req, Some pool =>
      let cid := effective_conversation req in
      let ctx := match tr_additional_context t with Some d => d | None => [] end in
      match should_snapshot now (mkPolicyReq (req_conversation_id req) (Some (rid req)))
              (tr_turn_number t) (Some cid) (Some ctx) (snapshot_policy x) with
      | Raise e => (Raise e, x)
      | Ok false => (Ok tt, x)
      | Ok true =>
          match req_mamba_pool_idx req with
          | None => (Ok tt, x)
          | Some idx =>
              match extract_state_from_pool pool idx with
              | Raise _ => (Ok tt, x)
              | Ok (conv_states, temporal_states) =>
                  snapshot_request now cid (tr_turn_number t) idx req conv_states temporal_states x
              end
          end
      end
  | _, _ => (Ok tt, x)
  end.

(** Hooks run on the scheduler at a clock reading. *)
Abbreviation HookManager := (SnapshotHookManager (S:=Z * Sch) (R:=nat)).

Definition at_clock {A} (f : Z -> M Sch A) : M (Z * Sch) A := fun nx =>
  let '(r, x') := f nx.1 nx.2 in (r, (nx.1, x')).

(** The slot of a request, as the hook manager looks it up. *)
Definition slot_of (ref : nat) (nx : Z * Sch) : option Z := req_of nx.2 ref ≫= req_mamba_pool_idx.

(** One request of the loop of [_trigger_snapshot_hooks]; [turn] is
    [len(req.output_ids)]. *)
Definition trigger_request (hooks : HookManager) (rt : nat * Z) : M (Z * Sch) unit := fun nx =>
  match slot_of rt.1 nx with
  | None => (Ok tt, nx)
  | Some _ => trigger_post_forward slot_of hooks rt.1 true rt.2 None nx
  end.

(** [_trigger_snapshot_hooks] (scheduler.py) on a batch. *)
Definition trigger_snapshot_hooks (hooks : option HookManager) (batch : list (nat * Z)) :
    M (Z * Sch) unit := fun nx =>
  match hooks, mamba_pool nx.2 with
  | Some h, Some _ => for_each batch (trigger_request h) nx
  | _, _ => (Ok tt, nx)
  end.

(** ** Startup *)

Definition restore_snapshots_on_startup (now : Z) : M Sch unit := fun x =>
  if negb (sch_snapshots x) then (Ok tt, x)
  else if negb (sch_tiers x) then (Ok tt, x)
  else (on_tier (restore_latest_snapshots_to_warm_tier now) ≫= fun _ => mret tt) x.

(** The attributes before anything is enabled. *)
Definition reset_system (x : Sch) : Sch :=
  mkSched (server_args x) false false (sch_tier x) (mamba_pool x) (num_mamba_layers x)
    (mkRegistry [] []) None [] (snapshot_policy x) (sch_reqs x) (sch_batches x)
    (running_batch x) (cur_batch x) (last_batch x) (waiting_queue x) (aborted x).

(** The parts, built from the arguments over the disk [store (sch_tier x)]. *)
Definition activate (a : SnapshotArgs) (window : Z) (sigma : F) (x : Sch) : Sch :=
  let args := server_args x in
  let tier :=
    if enable_memory_tiers a then
      tier_manager_init
        (tracker_init (conversation_active_timeout a) (conversation_warm_timeout a)
           (conversation_cold_retention a))
        (host_pool_init (max_warm_conversations a) (max_warm_bytes a) (arg_cross_session_refs a))
        (store (sch_tier x)) (enable_tier_background_cleanup a) (tier_cleanup_interval a)
        (Some (sa_model_path args))
    else sch_tier x in
  mkSched args true (enable_memory_tiers a) tier (mamba_pool x) (num_mamba_layers x) (pending x)
    (if bool_decide (0 < sa_health_check_interval args) then Some (monitor_init window sigma) else None)
    (health_check_counter x) (policy_init (retention_config_of a)) (sch_reqs x) (sch_batches x)
    (running_batch x) (cur_batch x) (last_batch x) (waiting_queue x) (aborted x).

(** [dir_ok] is whether the snapshot directory could be created; the result
    is the hook manager, if the system is active. *)
Definition init_snapshot_system (now : Z) (a : SnapshotArgs) (dir_ok : bool) (window : Z)
    (sigma : F) : M Sch (option HookManager) := fun x =>
  let x0 := reset_system x in
  if negb (enable_snapshot_persistence a) then (Ok None, x0)
  else match mamba_pool x0 with
  | None => (Ok None, x0)
  | Some _ =>
      if negb dir_ok then (Ok None, x0)
      else
        let x1 := activate a window sigma x0 in
        let hooks := register_post_forward_hook
                       (fun t => at_clock (fun now => post_forward_snapshot_callback now t))
                       (hooks_init true) in
        if arg_auto_restore a
        then (restore_snapshots_on_startup now ≫= fun _ => mret (Some hooks)) x1
        else (Ok (Some hooks), x1)
  end.
End system.
