(* ===== verification/KvAllocator.v ===== *)
(** * The KV slot allocators

    mem_cache/allocator.py: the common part of the allocators (free pages,
    pages waiting to be sorted in, free groups), [TokenToKVPoolAllocator],
    which hands out single slots, and [PagedTokenToKVPoolAllocator], which
    hands out pages, with its three allocation routines: [alloc], and
    [alloc_extend] and [alloc_decode], which run a GPU kernel over the batch.

    A kernel is the list of its stores [(address, value)], program by program,
    in the order of the program text; a block of lanes is a list.  Loads from
    [free_pages] may run past its end, since the check for enough pages comes
    after the launch: [oob] is what they return there.  Lanes of a load that
    are masked off have no defined value: [lane_seq] and [lane_pre] are what
    they hold.  [uninit] is the content of the buffer that [torch.empty]
    returns. *)

From stdpp Require Import sorting.
From S2P Require Import Prelude.

#[export] Instance res_bind : MBind res := fun A B f m =>
  match m with Ok a => f a | Raise e => Raise e end.

(** [BaseTokenToKVPoolAllocator]: the attributes; [num_pages] of the paged class is
    [size // page_size] *)
Record KvAllocator := MkAlloc {
  size_ : nat;
  page_size_ : nat;
  need_sort : bool;
  debug_mode : bool;
  free_pages : list Z;
  release_pages : list Z;
  is_not_in_free_group : bool;
  free_group : list (list Z)
}.

Definition set_pages (f rel : list Z) (a : KvAllocator) : KvAllocator :=
  MkAlloc (size_ a) (page_size_ a) (need_sort a) (debug_mode a) f rel (is_not_in_free_group a) (free_group a).

Definition set_group (out : bool) (g : list (list Z)) (a : KvAllocator) : KvAllocator :=
  MkAlloc (size_ a) (page_size_ a) (need_sort a) (debug_mode a) (free_pages a) (release_pages a) out g.

(** ** Common part *)

Abbreviation MA := (M KvAllocator).

Definition base_available_size (a : KvAllocator) : Z :=
  (len (free_pages a) + len (release_pages a)) * Z.of_nat (page_size_ a).

Definition backup_state (a : KvAllocator) : list Z * list Z := (free_pages a, release_pages a).

Definition restore_state (state : list Z * list Z) : MA unit :=
  modify (set_pages state.1 state.2).

Definition free_group_begin : MA unit := modify (set_group false []).

(** [torch.sort] and [torch.unique] *)
Definition sort_pages (l : list Z) : list Z := merge_sort (≤) l.
Definition unique (l : list Z) : list Z := merge_sort (≤) (remove_dups l).

Definition merge_and_sort_free : MA unit := fun a =>
  (Ok tt, if decide (release_pages a = []) then a
          else set_pages (sort_pages (free_pages a ++ release_pages a)) [] a).

(** [torch.arange(lo, lo + n)] *)
Definition arange_from (lo : Z) (n : nat) : list Z := seqZ lo (Z.of_nat n).

(** ** [TokenToKVPoolAllocator] *)

Module Token.
Definition clear : MA unit :=
  modify (fun a => MkAlloc (size_ a) (page_size_ a) (need_sort a) (debug_mode a)
    (arange_from 1 (size_ a)) [] true []).

Definition init (size : nat) (sort : bool) : KvAllocator :=
  (clear (MkAlloc size 1 sort false [] [] true [])).2.

Definition available_size (a : KvAllocator) : Z := len (free_pages a) + len (release_pages a).

Definition alloc (need_size : nat) : MA (option (list Z)) :=
  srt ← gets (fun a => need_sort a && bool_decide (length (free_pages a) < need_size)%nat);
  (if srt : bool then merge_and_sort_free else mret tt) ≫= fun _ =>
  a ← gets id;
  if decide (length (free_pages a) < need_size)%nat then mret None
  else
    modify (set_pages (drop need_size (free_pages a)) (release_pages a)) ≫= fun _ =>
    mret (Some (take need_size (free_pages a))).

Definition free (free_index : list Z) : MA unit := fun a =>
  (Ok tt,
   if decide (free_index = []) then a
   else if is_not_in_free_group a then
     if need_sort a then set_pages (free_pages a) (release_pages a ++ free_index) a
     else set_pages (free_pages a ++ free_index) (release_pages a) a
   else set_group false (free_group a ++ [free_index]) a).

Definition free_group_end : MA unit :=
  a ← gets id;
  modify (set_group true (free_group a)) ≫= fun _ =>
  if decide (free_group a = []) then mret tt else free (concat (free_group a)).
End Token.

(** ** Pages of a request *)

Section pages.
Context (page_size : Z).

Definition pages_of (n : Z) : Z := (n + page_size - 1) / page_size.

(** [get_num_new_pages] (utils/common.py) *)
Definition get_num_new_pages (seq_lens : list Z) (prefix_lens : option (list Z)) (decode : bool) : res Z :=
  match prefix_lens with
  | Some pre =>
      if decode then Ok (sumZ (fun s => if decide (s mod page_size = 1) then 1 else 0) seq_lens)
      else Ok (sumZ (fun '(s, p) => pages_of s - pages_of p) (zip seq_lens pre))
  | None =>
      if decode then Ok (sumZ (fun s => if decide (s mod page_size = 1) then 1 else 0) seq_lens)
      else Raise (Exn AssertionError "")
  end.
End pages.

(** ** The kernels *)

(** [0, 1, ..., n - 1] *)
Definition lanes (n : Z) : list Z := seqZ 0 n.

Definition nthZ (l : list Z) (other : Z -> Z) (i : Z) : Z := nth (Z.to_nat i) l (other i).

(** A masked load of one lane per program index up to [pid]. *)
Definition load_upto (l : list Z) (masked : Z -> Z) (bs_upper pid : Z) : list Z :=
  (fun j => if decide (j <= pid) then nthZ l masked j else masked j) <$> lanes bs_upper.

Definition next_power_of_2 (n : Z) : Z := if decide (0 < n) then 2 ^ (Z.log2_up n) else 1.

(** Masked stores: the lanes of a block with their values. *)
Definition block_stores (base : Z) (offs : list Z) (mask : Z -> bool) (val : Z -> Z) : list (Z * Z) :=
  (fun o => (base + o, val o)) <$> List.filter mask offs.

Section kernels.
Context (page_size : Z) (oob lane_seq lane_pre : Z -> Z).
Abbreviation pgs := (pages_of page_size).

Definition BLOCK_EXTEND : Z := 4096.

(** [alloc_extend_kernel], program [pid] *)
Definition alloc_extend_kernel (pre_lens_ptr seq_lens_ptr last_loc_ptr free_page_ptr : list Z)
    (bs_upper pid : Z) : list (Z * Z) :=
  let seq_lens := load_upto seq_lens_ptr lane_seq bs_upper pid in
  let pre_lens := load_upto pre_lens_ptr lane_pre bs_upper pid in
  let extend_lens := (fun '(s, p) => s - p) <$> zip seq_lens pre_lens in
  let seq_len := nthZ seq_lens_ptr oob pid in
  let pre_len := nthZ pre_lens_ptr oob pid in
  let extend_len := seq_len - pre_len in
  let sum_extend_lens := sumZ id extend_lens in
  let output_start_loc := sum_extend_lens - extend_len in
  let num_new_pages := (fun '(s, p) => pgs s - pgs p) <$> zip seq_lens pre_lens in
  let num_page_start_loc_self := pgs seq_len - pgs pre_len in
  let sum_num_new_pages := sumZ id num_new_pages in
  let new_page_start_loc := sum_num_new_pages - num_page_start_loc_self in
  let last_loc := nthZ last_loc_ptr oob pid in
  let num_part1 := Z.min seq_len (pgs pre_len * page_size) - pre_len in
  let part1 := block_stores output_start_loc (lanes page_size) (fun o => bool_decide (o < num_part1))
                 (fun o => last_loc + 1 + o) in
  if decide (pre_len + num_part1 = seq_len) then part1
  else
    let num_part2 := seq_len / page_size * page_size - pgs pre_len * page_size in
    let num_blocks := (num_part2 + BLOCK_EXTEND - 1) / BLOCK_EXTEND in
    let part2 := concat ((fun block_id =>
      let offset := (fun o => block_id * BLOCK_EXTEND + o) <$> lanes BLOCK_EXTEND in
      block_stores (output_start_loc + num_part1) offset (fun o => bool_decide (o < num_part2))
        (fun o => nthZ free_page_ptr oob (new_page_start_loc + o / page_size) * page_size + o mod page_size))
      <$> lanes num_blocks) in
    if decide (pre_len + num_part1 + num_part2 = seq_len) then part1 ++ part2
    else
      let num_part3 := seq_len - seq_len / page_size * page_size in
      let start_loc := nthZ free_page_ptr oob (new_page_start_loc + num_page_start_loc_self - 1) in
      part1 ++ part2 ++
      block_stores (output_start_loc + num_part1 + num_part2) (lanes page_size)
        (fun o => bool_decide (o < num_part3)) (fun o => start_loc * page_size + o).

(** [alloc_decode_kernel], program [pid] *)
Definition alloc_decode_kernel (seq_lens_ptr last_loc_ptr free_page_ptr : list Z) (bs_upper pid : Z) :
    list (Z * Z) :=
  let seq_lens := load_upto seq_lens_ptr lane_seq bs_upper pid in
  let pre_lens := (fun '(j, s) => if decide (j <= pid) then s - 1 else s) <$> zip (lanes bs_upper) seq_lens in
  let seq_len := nthZ seq_lens_ptr oob pid in
  let pre_len := seq_len - 1 in
  let num_new_pages := (fun '(s, p) => pgs s - pgs p) <$> zip seq_lens pre_lens in
  let num_page_start_loc_self := pgs seq_len - pgs pre_len in
  let new_page_start_loc := sumZ id num_new_pages - num_page_start_loc_self in
  if decide (num_page_start_loc_self = 0) then [(pid, nthZ last_loc_ptr oob pid + 1)]
  else [(pid, nthZ free_page_ptr oob new_page_start_loc * page_size)].

(** The memory after a list of stores. *)
Definition run_stores (mem : list Z) (stores : list (Z * Z)) : list Z :=
  foldl (fun m '(a, v) => <[Z.to_nat a := v]> m) mem stores.

(** A launch over [bs] programs. *)
Definition launch (bs : Z) (program : Z -> list (Z * Z)) (mem : list Z) : list Z :=
  run_stores mem (concat (program <$> lanes bs)).
End kernels.

(** [alloc_extend_naive], the version without a kernel *)
Section naive.
Context (page_size : Z).
Abbreviation pgs := (pages_of page_size).

(** [out[a:b] = values] *)
Definition assign_slice (a b : Z) (values : list Z) (out : list Z) : res (list Z) :=
  let a' := Z.min a (len out) in
  let b' := Z.min b (len out) in
  if decide (len values = Z.max 0 (b' - a')) then
    Ok (take (Z.to_nat a') out ++ values ++ drop (Z.to_nat a' + length values) out)
  else Raise (Exn RuntimeError "The expanded size of the tensor must match the existing size").

(** [free_pages[i]] and [free_pages[a:b]] *)
Definition sliceZ (a b : Z) (l : list Z) : list Z := take (Z.to_nat b - Z.to_nat a) (drop (Z.to_nat a) l).

Definition item (l : list Z) (i : Z) : res Z :=
  match l !! Z.to_nat i with
  | Some x => Ok x
  | None => Raise (Exn IndexError "index is out of bounds")
  end.

(** One iteration of the loop; [start_pos], [end_pos], [start_new], [end_new] are the
    entries of the cumulative sums. *)
Definition naive_step (free_pages : list Z) (p s last start_pos end_pos start_new end_new : Z)
    (out : list Z) : res (list Z) :=
  let need_page := (pgs s - pgs p) - (s / page_size - pgs p) in
  let num1 := Z.min s (pgs p * page_size) - p in
  out1 ← (if decide (num1 = 0) then Ok out
          else assign_slice start_pos (start_pos + num1) ((fun o => last + 1 + o) <$> take (Z.to_nat num1) (lanes page_size)) out);
  if decide (p + num1 = s) then Ok out1
  else
    let num2 := (s / page_size - pgs p) * page_size in
    out2 ← (if decide (num2 = 0) then Ok out1
            else assign_slice (start_pos + num1) (start_pos + num1 + num2)
                   (sliceZ start_new (end_new - need_page) free_pages ≫=
                      fun pg => (fun o => pg * page_size + o) <$> lanes page_size) out1);
    if decide (p + num1 + num2 = s) then Ok out2
    else
      let num3 := s - s / page_size * page_size in
      if decide (num3 = 0) then Ok out2
      else
        pg ← item free_pages (end_new - 1);
        assign_slice (end_pos - num3) end_pos ((fun o => pg * page_size + o) <$> take (Z.to_nat num3) (lanes page_size)) out2.

(** The loop, with the running sums of [extend_lens] and [num_new_pages]. *)
Fixpoint naive_loop (free_pages prefix_lens seq_lens last_loc : list Z) (pos new : Z) (out : list Z) :
    res (list Z) :=
  match prefix_lens, seq_lens, last_loc with
  | p :: ps', s :: ss', l :: ls' =>
      out' ← naive_step free_pages p s l pos (pos + (s - p)) new (new + (pgs s - pgs p)) out;
      naive_loop free_pages ps' ss' ls' (pos + (s - p)) (new + (pgs s - pgs p)) out'
  | _, _, _ => Ok out
  end.

Definition alloc_extend_naive (prefix_lens seq_lens last_loc free_pages out_indices : list Z) : res (list Z) :=
  naive_loop free_pages prefix_lens seq_lens last_loc 0 0 out_indices.
End naive.

(** ** [PagedTokenToKVPoolAllocator] *)

Module Paged.
Definition clear : MA unit :=
  modify (fun a => MkAlloc (size_ a) (page_size_ a) (need_sort a) (debug_mode a)
    (arange_from 1 (size_ a / page_size_ a)) [] true []).

Definition init (size page_size : nat) (sort debug : bool) : KvAllocator :=
  (clear (MkAlloc size page_size sort debug [] [] true [])).2.

(** The slots of a list of pages. *)
Definition page_slots (page_size : Z) (pages : list Z) : list Z :=
  pages ≫= fun p => (fun o => p * page_size + o) <$> lanes page_size.

Definition alloc (need_size : nat) : MA (option (list Z)) :=
  a0 ← gets id;
  if debug_mode a0 && negb (bool_decide (need_size mod page_size_ a0 = 0)%nat)
  then raise AssertionError "The allocation size should be page-aligned"
  else
    let num_pages := (need_size / page_size_ a0)%nat in
    (if need_sort a0 && bool_decide (length (free_pages a0) < num_pages)%nat
     then merge_and_sort_free else mret tt) ≫= fun _ =>
    a ← gets id;
    if decide (length (free_pages a) < num_pages)%nat then mret None
    else
      modify (set_pages (drop num_pages (free_pages a)) (release_pages a)) ≫= fun _ =>
      mret (Some (page_slots (Z.of_nat (page_size_ a)) (take num_pages (free_pages a)))).

(** What the routines below do with the pages once the kernel has run. *)
Definition take_pages (num_new_pages : Z) (out_indices : list Z) : MA (option (list Z)) :=
  a ← gets id;
  if debug_mode a && negb (bool_decide (length (unique out_indices) = length out_indices))
  then raise AssertionError ""
  else if decide (len (free_pages a) < num_new_pages) then mret None
  else
    modify (set_pages (drop (Z.to_nat num_new_pages) (free_pages a)) (release_pages a)) ≫= fun _ =>
    mret (Some out_indices).

(** [alloc_extend] with [num_new_pages=None] *)
Definition alloc_extend (oob lane_seq lane_pre : Z -> Z) (uninit : list Z)
    (prefix_lens seq_lens last_loc : list Z) (extend_num_tokens : Z) : MA (option (list Z)) :=
  a0 ← gets id;
  let ps := Z.of_nat (page_size_ a0) in
  if debug_mode a0 &&
     negb (forallb (fun '(l, p) => bool_decide ((l + 1) mod ps = p mod ps)) (zip last_loc prefix_lens))
  then raise AssertionError ""
  else
    let bs := len prefix_lens in
    (if need_sort a0 && bool_decide (len (free_pages a0) < extend_num_tokens / ps + bs + 1)
     then merge_and_sort_free else mret tt) ≫= fun _ =>
    a ← gets id;
    let out_indices := launch bs
      (alloc_extend_kernel ps oob lane_seq lane_pre prefix_lens seq_lens last_loc (free_pages a)
        (next_power_of_2 bs)) (take (Z.to_nat extend_num_tokens) uninit) in
    num_new_pages ← lift_res (get_num_new_pages ps seq_lens (Some prefix_lens) false);
    take_pages num_new_pages out_indices.

Definition alloc_decode (oob lane_seq : Z -> Z) (uninit : list Z) (seq_lens last_loc : list Z) :
    MA (option (list Z)) :=
  a0 ← gets id;
  let ps := Z.of_nat (page_size_ a0) in
  if debug_mode a0 &&
     negb (forallb (fun '(l, s) => bool_decide ((l + 2) mod ps = s mod ps)) (zip last_loc seq_lens))
  then raise AssertionError ""
  else
    let bs := len seq_lens in
    (if need_sort a0 && bool_decide (len (free_pages a0) < bs)
     then merge_and_sort_free else mret tt) ≫= fun _ =>
    a ← gets id;
    let out_indices := launch bs
      (alloc_decode_kernel ps oob lane_seq seq_lens last_loc (free_pages a) (next_power_of_2 bs))
      (take (Z.to_nat bs) uninit) in
    num_new_pages ← lift_res (get_num_new_pages ps seq_lens None true);
    take_pages num_new_pages out_indices.

Definition free (free_index : list Z) : MA unit :=
  if decide (free_index = []) then mret tt
  else
    modify (fun a =>
      if is_not_in_free_group a then
        let free_page_indices := unique ((fun i => i / Z.of_nat (page_size_ a)) <$> free_index) in
        if need_sort a then set_pages (free_pages a) (free_page_indices ++ release_pages a) a
        else set_pages (free_page_indices ++ free_pages a) (release_pages a) a
      else set_group false (free_group a ++ [free_index]) a) ≫= fun _ =>
    a ← gets id;
    if debug_mode a && negb (bool_decide (length (unique (free_pages a)) = length (free_pages a)))
    then raise AssertionError "" else mret tt.

Definition free_group_end : MA unit :=
  a ← gets id;
  modify (set_group true (free_group a)) ≫= fun _ =>
  if decide (free_group a = []) then mret tt else free (concat (free_group a)).
End Paged.
