(* ===== verification/KvKernels.v ===== *)
(** * The allocation kernels compute the same slots

    The slot of position [t] of a request whose first [p] positions have
    slots: the next slot of the last, partly filled page, or slot [t mod ps] of
    the new page that covers [t] ([extend_loc]).  Both the kernel and its
    version without a kernel fill the output with these slots, request by
    request ([extend_ref]); the kernel writes every position exactly once, so
    the order in which its programs run does not matter. *)

From stdpp Require Import sorting.
From S2P Require Import Prelude KvAllocator.

(** ** Ranges *)

Lemma lanes_app n m : 0 <= n -> 0 <= m -> lanes (n + m) = lanes n ++ seqZ n m.
Proof. intros Hn Hm. unfold lanes. by rewrite seqZ_app. Qed.

Lemma lanes_shift a n : seqZ a n = (Z.add a) <$> lanes n.
Proof. unfold lanes. by rewrite fmap_add_seqZ, Z.add_0_r. Qed.

Lemma elem_of_lanes i n : i ∈ lanes n <-> 0 <= i < n.
Proof. unfold lanes. rewrite elem_of_seqZ. lia. Qed.

Lemma len_seqZ a n : 0 <= n -> len (seqZ a n) = n.
Proof. intros Hn. unfold len. rewrite length_seqZ. lia. Qed.

(** A range cut into blocks of [B]. *)
Lemma lanes_blocks B k :
  0 < B -> 0 <= k -> lanes (k * B) = lanes k ≫= fun b => (fun o => b * B + o) <$> lanes B.
Proof.
  intros HB Hk. pattern k. apply natlike_ind; [done| |done]. clear k Hk. intros k Hk IH.
  rewrite Z.mul_succ_l, <-Z.add_1_r. rewrite !lanes_app by lia. rewrite IH, bind_app. f_equal.
  change (seqZ k 1) with [k]. rewrite bind_cons. simpl. rewrite app_nil_r. by rewrite lanes_shift.
Qed.

Lemma filter_lanes n m : 0 <= n <= m -> List.filter (fun o => bool_decide (o < n)) (lanes m) = lanes n.
Proof.
  intros Hn. replace m with (n + (m - n)) by lia. rewrite lanes_app by lia. rewrite List.filter_app.
  assert (forall l : list Z, (forall o, o ∈ l -> o < n) -> List.filter (fun o => bool_decide (o < n)) l = l) as Hall.
  { induction l as [|o l IH]; intros Ho; [done|]. simpl.
    rewrite bool_decide_eq_true_2 by (apply Ho; left). rewrite IH; [done|]. intros; apply Ho; by right. }
  assert (forall l : list Z, (forall o, o ∈ l -> n <= o) -> List.filter (fun o => bool_decide (o < n)) l = []) as Hnone.
  { induction l as [|o l IH]; intros Ho; [done|]. simpl.
    rewrite bool_decide_eq_false_2 by (specialize (Ho o ltac:(left)); lia). apply IH. intros; apply Ho; by right. }
  rewrite Hall, Hnone; [by rewrite app_nil_r|intros o Ho%elem_of_seqZ; lia|intros o Ho%elem_of_lanes; lia].
Qed.

Lemma filter_fmap_Z (f : Z -> Z) (P : Z -> bool) l : List.filter P (f <$> l) = f <$> List.filter (fun o => P (f o)) l.
Proof. induction l as [|x l IH]; [done|]. simpl. destruct (P (f x)); [simpl; f_equal; exact IH|exact IH]. Qed.

(** ** Stores *)

(** The values [vals] stored at [base], [base + 1], ... *)
Definition stores_of (base : Z) (vals : list Z) : list (Z * Z) := zip (seqZ base (len vals)) vals.

Lemma stores_of_nil base : stores_of base [] = [].
Proof. done. Qed.

Lemma stores_of_app base l1 l2 : stores_of base (l1 ++ l2) = stores_of base l1 ++ stores_of (base + len l1) l2.
Proof.
  unfold stores_of. rewrite len_app, seqZ_app by apply len_nonneg.
  apply zip_with_app. rewrite length_seqZ. unfold len. lia.
Qed.

Lemma stores_of_fmap base f n : 0 <= n -> stores_of base (f <$> lanes n) = (fun o => (base + o, f o)) <$> lanes n.
Proof.
  intros Hn. unfold stores_of, len. rewrite length_fmap. fold (len (lanes n)). unfold lanes at 1. rewrite len_seqZ by done.
  rewrite lanes_shift, zip_with_fmap_l, zip_with_fmap_r. induction (lanes n) as [|x l IH]; [done|].
  simpl. by rewrite IH.
Qed.

(** Storing at consecutive addresses overwrites that stretch. *)
Lemma run_stores_of d vals r :
  (length vals ≤ length r)%nat ->
  run_stores (d ++ r) (stores_of (len d) vals) = d ++ vals ++ drop (length vals) r.
Proof.
  revert d r. induction vals as [|v vals IH]; intros d r Hr; [by rewrite stores_of_nil|].
  destruct r as [|x r]; [simpl in Hr; lia|].
  change (v :: vals) with ([v] ++ vals). rewrite stores_of_app. unfold run_stores. rewrite foldl_app.
  replace (foldl _ (d ++ x :: r) (stores_of (len d) [v])) with ((d ++ [v]) ++ r); cycle 1.
  { assert (stores_of (len d) [v] = [(len d, v)]) as -> by done. simpl. unfold len. rewrite Nat2Z.id.
    rewrite <-(Nat.add_0_r (length d)), insert_app_r. by rewrite <-app_assoc. }
  fold (run_stores ((d ++ [v]) ++ r) (stores_of (len d + len [v]) vals)).
  replace (len d + len [v]) with (len (d ++ [v])) by (by rewrite len_app).
  rewrite IH by (simpl in Hr; lia). by rewrite <-app_assoc.
Qed.

Lemma stores_of_NoDup base vals : NoDup (stores_of base vals).*1.
Proof.
  unfold stores_of. rewrite fst_zip; [apply NoDup_seqZ|]. rewrite length_seqZ. unfold len. lia.
Qed.

(** ** The reference *)

(** A request of the batch: the length of its prefix, its length and the slot
    of the last position of the prefix. *)
Record breq := BReq { b_pre : Z; b_seq : Z; b_last : Z }.

Definition breq_ok (b : breq) : Prop := 0 <= b_pre b <= b_seq b.

Section ref.
Context (ps : Z) (ps_pos : 0 < ps) (pages : list Z) (oob : Z -> Z).
Abbreviation pgs := (pages_of ps).

(** The slot of position [t] when the request's new pages start at [new]. *)
Definition extend_loc (b : breq) (new t : Z) : Z :=
  if decide (t < pgs (b_pre b) * ps) then b_last b + 1 + (t - b_pre b)
  else nthZ pages oob (new + (t / ps - pgs (b_pre b))) * ps + t mod ps.

Definition extend_slots (b : breq) (new : Z) : list Z :=
  extend_loc b new <$> seqZ (b_pre b) (b_seq b - b_pre b).

Definition new_pages (b : breq) : Z := pgs (b_seq b) - pgs (b_pre b).
Definition extend_len (b : breq) : Z := b_seq b - b_pre b.

Fixpoint extend_ref (batch : list breq) (new : Z) : list Z :=
  match batch with
  | [] => []
  | b :: batch' => extend_slots b new ++ extend_ref batch' (new + new_pages b)
  end.

(** *** Arithmetic of pages *)

Lemma pages_of_spec n : 0 <= n -> n <= pgs n * ps < n + ps /\ 0 <= pgs n.
Proof.
  intros Hn. unfold pages_of. pose proof (Z.div_mod (n + ps - 1) ps ltac:(lia)) as Hd.
  pose proof (Z.mod_pos_bound (n + ps - 1) ps ps_pos) as Hm.
  assert (0 <= (n + ps - 1) / ps) by (apply Z.div_pos; lia). split; [lia|done].
Qed.

Lemma pages_of_mono n m : n <= m -> pgs n <= pgs m.
Proof. intros Hnm. unfold pages_of. apply Z.div_le_mono; lia. Qed.

(** A page boundary at or below [s] is at most the last full page of [s]. *)
Lemma boundary_le a s : a * ps <= s -> a <= s / ps.
Proof. intros Has. apply Z.div_le_lower_bound; lia. Qed.

Lemma full_pages s : 0 <= s -> s / ps * ps <= s < s / ps * ps + ps.
Proof.
  intros Hs. pose proof (Z.div_mod s ps ltac:(lia)). pose proof (Z.mod_pos_bound s ps ps_pos). lia.
Qed.

Lemma pages_of_partial s : 0 <= s -> s / ps * ps < s -> pgs s = s / ps + 1.
Proof.
  intros Hs Hlt. unfold pages_of. pose proof (full_pages s Hs).
  symmetry. apply Z.div_unique with (r := s - s / ps * ps - 1); lia.
Qed.

Lemma pages_of_full s : s / ps * ps = s -> pgs s = s / ps.
Proof.
  intros Hs. unfold pages_of. symmetry. apply Z.div_unique with (r := ps - 1); lia.
Qed.

Lemma new_pages_nonneg b : breq_ok b -> 0 <= new_pages b.
Proof. intros Hb. unfold new_pages. pose proof (pages_of_mono (b_pre b) (b_seq b)). unfold breq_ok in Hb. lia. Qed.

(** *** The three parts of a request's slots *)

Definition part1 (b : breq) (n : Z) : list Z := (fun o => b_last b + 1 + o) <$> lanes n.
Definition part2 (new n : Z) : list Z :=
  (fun o => nthZ pages oob (new + o / ps) * ps + o mod ps) <$> lanes n.
Definition part3 (pg n : Z) : list Z := (fun o => pg * ps + o) <$> lanes n.

Lemma extend_slots_short b new :
  breq_ok b -> b_seq b <= pgs (b_pre b) * ps -> extend_slots b new = part1 b (b_seq b - b_pre b).
Proof.
  intros Hb Hs. unfold extend_slots, part1. rewrite lanes_shift, <-list_fmap_compose.
  apply list_fmap_ext. intros i o Ho. apply list_elem_of_lookup_2, elem_of_lanes in Ho. simpl.
  unfold extend_loc. rewrite decide_True by lia. lia.
Qed.

Lemma extend_slots_parts b new :
  breq_ok b -> pgs (b_pre b) * ps < b_seq b ->
  extend_slots b new =
    part1 b (pgs (b_pre b) * ps - b_pre b) ++
    part2 new (b_seq b / ps * ps - pgs (b_pre b) * ps) ++
    part3 (nthZ pages oob (new + (b_seq b / ps - pgs (b_pre b)))) (b_seq b - b_seq b / ps * ps).
Proof.
  intros Hb Hs. unfold breq_ok in Hb. destruct (pages_of_spec (b_pre b) ltac:(lia)) as [Hp Hp0].
  pose proof (boundary_le (pgs (b_pre b)) (b_seq b) ltac:(lia)) as Hle.
  pose proof (full_pages (b_seq b) ltac:(lia)) as Hf.
  set (A := pgs (b_pre b) * ps) in *. set (B := b_seq b / ps * ps) in *.
  assert (A <= B) as HAB by (unfold A, B; by apply Z.mul_le_mono_nonneg_r; lia).
  unfold extend_slots.
  replace (b_seq b - b_pre b) with ((A - b_pre b) + ((B - A) + (b_seq b - B))) by lia.
  rewrite seqZ_app by lia. rewrite seqZ_app by lia. rewrite !fmap_app.
  replace (b_pre b + (A - b_pre b)) with A by lia. replace (A + (B - A)) with B by lia.
  f_equal; [|f_equal]; unfold part1, part2, part3; rewrite lanes_shift, <-list_fmap_compose;
    apply list_fmap_ext; intros i o Ho; apply list_elem_of_lookup_2, elem_of_lanes in Ho; simpl; unfold extend_loc;
    fold A.
  - rewrite decide_True by lia. lia.
  - rewrite decide_False by lia. replace (A + o) with (o + pgs (b_pre b) * ps) by lia.
    rewrite Z.div_add, Z.mod_add by lia. f_equal. f_equal. f_equal. lia.
  - rewrite decide_False by lia. replace (B + o) with (o + b_seq b / ps * ps) by lia.
    rewrite Z.div_add, Z.mod_add by lia. rewrite Z.div_small, Z.mod_small, Z.add_0_l by lia. done.
Qed.

Lemma len_extend_slots b new : breq_ok b -> len (extend_slots b new) = extend_len b.
Proof.
  intros Hb. unfold breq_ok in Hb. unfold extend_slots, len. rewrite length_fmap, length_seqZ. unfold extend_len. lia.
Qed.

Lemma len_extend_ref batch new : Forall breq_ok batch -> len (extend_ref batch new) = sumZ extend_len batch.
Proof.
  intros Hb. revert new. induction Hb as [|b batch Hb _ IH]; intros new; [done|].
  simpl. by rewrite len_app, IH, len_extend_slots.
Qed.
End ref.

(** ** Running sums *)

Lemma lanes_lookup {A B} (l : list A) (g : Z -> B) (F : A -> B) n :
  (n ≤ length l)%nat -> (forall i x, (i < n)%nat -> l !! i = Some x -> g (Z.of_nat i) = F x) ->
  g <$> lanes (Z.of_nat n) = F <$> take n l.
Proof.
  intros Hn Hg. apply list_eq. intros i. rewrite !list_lookup_fmap. unfold lanes.
  destruct (decide (i < n)%nat) as [Hi|Hi].
  - rewrite lookup_take_lt by done. rewrite (lookup_seqZ_lt _ _ i) by lia.
    destruct (lookup_lt_is_Some_2 l i ltac:(lia)) as [x Hx]. rewrite Hx, Z.add_0_l. cbn. by rewrite (Hg i x).
  - rewrite lookup_take_ge by lia. rewrite (lookup_seqZ_ge _ _ i) by lia. done.
Qed.

Lemma nthZ_lookup l o i x : l !! i = Some x -> nthZ l o (Z.of_nat i) = x.
Proof. intros Hx. unfold nthZ. rewrite Nat2Z.id. by apply nth_lookup_Some. Qed.

Section sums.
Context (lane_seq lane_pre : Z -> Z).

(** What the lanes of a block of [bs_upper] that are masked off for program [i]
    contribute to a sum *)
Definition masked (f : Z * Z -> Z) (bs_upper : Z) (i : nat) : Z :=
  sumZ (fun j => f (lane_seq j, lane_pre j)) (seqZ (Z.of_nat (S i)) (bs_upper - Z.of_nat (S i))).

Lemma load_sum (f : Z * Z -> Z) (batch : list breq) bs_upper (i : nat) :
  (i < length batch)%nat -> len batch <= bs_upper ->
  sumZ id (f <$> zip (load_upto (b_seq <$> batch) lane_seq bs_upper (Z.of_nat i))
                     (load_upto (b_pre <$> batch) lane_pre bs_upper (Z.of_nat i))) =
  sumZ (fun b => f (b_seq b, b_pre b)) (take (S i) batch) + masked f bs_upper i.
Proof.
  intros Hi Hbs. unfold load_upto. rewrite zip_with_fmap_l, zip_with_fmap_r.
  set (h := fun j => f (if decide (j <= Z.of_nat i) then nthZ (b_seq <$> batch) lane_seq j else lane_seq j,
                        if decide (j <= Z.of_nat i) then nthZ (b_pre <$> batch) lane_pre j else lane_pre j)).
  transitivity (sumZ h (lanes bs_upper)).
  { rewrite sumZ_fmap. induction (lanes bs_upper) as [|j l IH]; [done|]. simpl. by rewrite IH. }
  unfold len in Hbs. replace bs_upper with (Z.of_nat (S i) + (bs_upper - Z.of_nat (S i))) at 1 by lia.
  rewrite lanes_app, sumZ_app by lia. f_equal.
  - rewrite <-sumZ_fmap, <-(sumZ_fmap _ (take _ _)). f_equal. apply lanes_lookup; [lia|].
    intros j b Hj Hb. unfold h. rewrite !decide_True by lia.
    by rewrite (nthZ_lookup _ _ j (b_seq b)), (nthZ_lookup _ _ j (b_pre b)) by (by rewrite list_lookup_fmap, Hb).
  - apply sumZ_ext. intros j Hj%elem_of_seqZ. unfold h. by rewrite !decide_False by lia.
Qed.

(** Nothing, if they hold the same in both loads, or if there are none *)
Lemma masked_same f bs_upper i :
  (forall x, f (x, x) = 0) -> (forall j, lane_seq j = lane_pre j) -> masked f bs_upper i = 0.
Proof. intros Hf Hag. apply sumZ_zero. intros j _. by rewrite Hag. Qed.

Lemma masked_none f i : masked f (Z.of_nat (S i)) i = 0.
Proof. unfold masked. by rewrite Z.sub_diag. Qed.

(** What a program subtracts from the sums leaves the sums over the programs
    before it. *)
Lemma sum_before (F : breq -> Z) (batch : list breq) i b m :
  batch !! i = Some b -> sumZ F (take (S i) batch) + m - F b = sumZ F (take i batch) + m.
Proof. intros Hb. rewrite (take_S_r _ _ _ Hb), sumZ_app. simpl. lia. Qed.
End sums.

(** ** A launch whose programs store the slots of their requests *)

Section launch.
Context (ps : Z) (pages : list Z) (oob : Z -> Z) (batch : list breq) (program : Z -> list (Z * Z)).
Hypothesis batch_ok : Forall breq_ok batch.
Hypothesis program_ok : forall i b, batch !! i = Some b ->
  program (Z.of_nat i) =
    stores_of (sumZ extend_len (take i batch)) (extend_slots ps pages oob b (sumZ (new_pages ps) (take i batch))).

(** All the stores, in order: consecutive addresses from 0. *)
Lemma launch_stores b1 b2 :
  batch = b1 ++ b2 ->
  concat (program <$> seqZ (len b1) (len b2)) =
    stores_of (sumZ extend_len b1) (extend_ref ps pages oob b2 (sumZ (new_pages ps) b1)).
Proof.
  revert b1. induction b2 as [|b b2 IH]; intros b1 Hb; [done|].
  assert (batch !! length b1 = Some b) as Hl by (rewrite Hb; by apply list_lookup_middle).
  assert (breq_ok b) as Hok by (by eapply Forall_lookup_1).
  change (len (b :: b2)) with (len ([b] ++ b2)). rewrite len_app, seqZ_app by apply len_nonneg.
  rewrite fmap_app, concat_app. change (seqZ (len b1) (len [b])) with [0 + len b1]. rewrite Z.add_0_l. cbn [fmap list_fmap concat].
  rewrite app_nil_r. unfold len at 1. rewrite (program_ok (length b1) b Hl).
  replace (take (length b1) batch) with b1 by (rewrite Hb; by rewrite take_app_length).
  specialize (IH (b1 ++ [b])). rewrite len_app in IH. rewrite IH by (by rewrite Hb, <-app_assoc).
  rewrite !sumZ_app. simpl. rewrite !Z.add_0_r, stores_of_app, len_extend_slots by done. done.
Qed.

Lemma launch_ref mem :
  len mem = sumZ extend_len batch ->
  launch (len batch) program mem = extend_ref ps pages oob batch 0 /\
  NoDup (concat (program <$> lanes (len batch))).*1.
Proof.
  intros Hm. unfold launch. pose proof (launch_stores [] batch eq_refl) as Hs. simpl in Hs.
  change (len []) with 0 in Hs. unfold lanes. rewrite Hs. split; [|apply stores_of_NoDup].
  pose proof (len_extend_ref ps pages oob batch 0 batch_ok) as Hl. rewrite <-Hm in Hl. unfold len in Hl.
  pose proof (run_stores_of [] (extend_ref ps pages oob batch 0) mem ltac:(lia)) as Hr. simpl in Hr.
  change (len []) with 0 in Hr. rewrite Hr, drop_ge by lia. apply app_nil_r.
Qed.
End launch.

(** ** The extend kernel *)

Lemma block_stores_lanes base n m val :
  0 <= n <= m ->
  block_stores base (lanes m) (fun o => bool_decide (o < n)) val = stores_of base (val <$> lanes n).
Proof. intros Hn. unfold block_stores. rewrite filter_lanes by done. by rewrite stores_of_fmap by lia. Qed.

Lemma blocks_flatten base n val :
  0 <= n ->
  concat ((fun block_id =>
    block_stores base ((fun o => block_id * BLOCK_EXTEND + o) <$> lanes BLOCK_EXTEND)
      (fun o => bool_decide (o < n)) val) <$> lanes ((n + BLOCK_EXTEND - 1) / BLOCK_EXTEND)) =
  stores_of base (val <$> lanes n).
Proof.
  intros Hn. set (nb := (n + BLOCK_EXTEND - 1) / BLOCK_EXTEND).
  assert (0 <= nb /\ n <= nb * BLOCK_EXTEND) as [Hnb0 Hnb].
  { unfold nb. pose proof (Z.div_mod (n + BLOCK_EXTEND - 1) BLOCK_EXTEND ltac:(done)).
    pose proof (Z.mod_pos_bound (n + BLOCK_EXTEND - 1) BLOCK_EXTEND ltac:(done)).
    split; [apply Z.div_pos; unfold BLOCK_EXTEND; lia|]. unfold BLOCK_EXTEND in *. lia. }
  rewrite <-(block_stores_lanes base n (nb * BLOCK_EXTEND)) by lia.
  rewrite (lanes_blocks BLOCK_EXTEND nb) by (done || lia).
  induction (lanes nb) as [|x l IH]; [done|]. rewrite fmap_cons, bind_cons. cbn [concat]. rewrite IH.
  unfold block_stores. by rewrite List.filter_app, fmap_app.
Qed.

Lemma next_power_of_2_le n : n <= next_power_of_2 n.
Proof.
  unfold next_power_of_2. case_decide; [|lia]. apply Z.log2_log2_up_spec. lia.
Qed.

Section extend_kernel.
Context (ps : Z) (ps_pos : 0 < ps) (pages : list Z) (oob lane_seq lane_pre : Z -> Z).
Context (batch : list breq) (batch_ok : Forall breq_ok batch) (bs_upper : Z) (bs_le : len batch <= bs_upper).
Abbreviation pgs := (pages_of ps).

Abbreviation program := (alloc_extend_kernel ps oob lane_seq lane_pre (b_pre <$> batch) (b_seq <$> batch)
  (b_last <$> batch) pages bs_upper).

(** What the masked-off lanes add to the offsets of program [i] *)
Definition masked_len (i : nat) : Z := masked lane_seq lane_pre (fun '(s, p) => s - p) bs_upper i.
Definition masked_pages (i : nat) : Z := masked lane_seq lane_pre (fun '(s, p) => pgs s - pgs p) bs_upper i.

(** Program [i] stores the slots of request [i], in order, behind those of the
    requests before it, up to what the masked-off lanes add. *)
Lemma extend_program i b :
  batch !! i = Some b ->
  program (Z.of_nat i) =
    stores_of (sumZ extend_len (take i batch) + masked_len i)
      (extend_slots ps pages oob b (sumZ (new_pages ps) (take i batch) + masked_pages i)).
Proof.
  intros Hb. assert (breq_ok b) as Hok by (by eapply Forall_lookup_1). pose proof Hok as Hok'. unfold breq_ok in Hok'.
  assert (i < length batch)%nat as Hi by (by eapply lookup_lt_Some).
  unfold alloc_extend_kernel. rewrite !(load_sum lane_seq lane_pre) by done.
  fold (masked_len i) (masked_pages i).
  rewrite (nthZ_lookup (b_seq <$> batch) oob i (b_seq b)), (nthZ_lookup (b_pre <$> batch) oob i (b_pre b)),
    (nthZ_lookup (b_last <$> batch) oob i (b_last b)) by (by rewrite list_lookup_fmap, Hb).
  fold (extend_len b). fold (new_pages ps b).
  change (fun b0 : breq => b_seq b0 - b_pre b0) with extend_len.
  change (fun b0 : breq => pgs (b_seq b0) - pgs (b_pre b0)) with (new_pages ps).
  rewrite !(sum_before _ batch i b _ Hb).
  set (start := sumZ extend_len (take i batch) + masked_len i).
  set (new := sumZ (new_pages ps) (take i batch) + masked_pages i).
  destruct (pages_of_spec ps ps_pos (b_pre b) ltac:(lia)) as [Hp Hp0].
  pose proof (full_pages ps ps_pos (b_seq b) ltac:(lia)) as Hf.
  destruct (decide (b_seq b <= pgs (b_pre b) * ps)) as [Hs|Hs].
  - rewrite Z.min_l by done. rewrite decide_True by lia. rewrite block_stores_lanes by lia.
    by rewrite extend_slots_short.
  - rewrite Z.min_r by lia. rewrite decide_False by lia.
    pose proof (boundary_le ps ps_pos (pgs (b_pre b)) (b_seq b) ltac:(lia)) as Hle.
    assert (pgs (b_pre b) * ps <= b_seq b / ps * ps) by (apply Z.mul_le_mono_nonneg_r; lia).
    rewrite extend_slots_parts by (done || lia). rewrite !stores_of_app.
    rewrite block_stores_lanes, blocks_flatten by lia. unfold part1, part2, part3.
    assert (forall (f : Z -> Z) n, 0 <= n -> len (f <$> lanes n) = n) as Hl
      by (intros f n Hn; unfold len; rewrite length_fmap; unfold lanes; rewrite length_seqZ; lia).
    rewrite !Hl by lia. case_decide as Hd.
    + replace (b_seq b - b_seq b / ps * ps) with 0 by lia. by rewrite app_nil_r.
    + rewrite block_stores_lanes by lia. do 3 f_equal. apply list_fmap_ext. intros j o _. do 3 f_equal.
      unfold new_pages. rewrite pages_of_partial by lia. lia.
Qed.

(** The masked-off lanes cancel out. *)
Definition masked_cancel : Prop := forall i, (i < length batch)%nat -> masked_len i = 0 /\ masked_pages i = 0.

Lemma extend_launch mem :
  masked_cancel -> len mem = sumZ extend_len batch ->
  launch (len batch) program mem = extend_ref ps pages oob batch 0 /\
  NoDup (concat (program <$> lanes (len batch))).*1.
Proof.
  intros Hc. apply launch_ref; [done|]. intros i b Hb. rewrite (extend_program i b Hb).
  destruct (Hc i) as [-> ->]; [by eapply lookup_lt_Some|]. by rewrite !Z.add_0_r.
Qed.
End extend_kernel.

(** They do when both loads leave the same in them, and for a single request,
    for which there are none. *)
Lemma masked_cancel_same ps lane_seq lane_pre batch bs_upper :
  (forall j, lane_seq j = lane_pre j) -> masked_cancel ps lane_seq lane_pre batch bs_upper.
Proof. intros Hag i _. split; apply masked_same; try done; intros x; lia. Qed.

Lemma masked_cancel_one ps lane_seq lane_pre b :
  masked_cancel ps lane_seq lane_pre [b] (next_power_of_2 (len [b])).
Proof. intros i Hi. simpl in Hi. assert (i = O) as -> by lia. split; exact (masked_none lane_seq lane_pre _ 0). Qed.

(** ** Without a kernel *)

Lemma assign_slice_app d r values a b :
  a = len d -> b = len d + len values -> len values <= len r ->
  assign_slice a b values (d ++ r) = Ok (d ++ values ++ drop (length values) r).
Proof.
  intros -> -> Hr. unfold assign_slice. rewrite len_app. pose proof (len_nonneg values). pose proof (len_nonneg r).
  rewrite !Z.min_l by lia. rewrite decide_True by lia. f_equal. unfold len. rewrite Nat2Z.id.
  rewrite take_app_length, drop_app. rewrite (drop_ge d) by lia. simpl. do 3 f_equal. lia.
Qed.

Section naive.
Context (ps : Z) (ps_pos : 0 < ps) (pages : list Z) (oob : Z -> Z).
Abbreviation pgs := (pages_of ps).

Lemma take_lanes n m : 0 <= n <= m -> take (Z.to_nat n) (lanes m) = lanes n.
Proof.
  intros Hn. replace m with (n + (m - n)) by lia. rewrite lanes_app by lia.
  rewrite take_app_le, firstn_all2; [done|..]; unfold lanes; rewrite length_seqZ; lia.
Qed.

(** A stretch of pages, taken by a slice. *)
Lemma slice_pages new k :
  0 <= new -> 0 <= k -> new + k <= len pages ->
  sliceZ new (new + k) pages = (fun j => nthZ pages oob (new + j)) <$> lanes k.
Proof.
  intros Hn Hk Hl. unfold sliceZ. unfold len in Hl.
  replace k with (Z.of_nat (Z.to_nat k)) at 2 by lia.
  rewrite (lanes_lookup (drop (Z.to_nat new) pages) _ id); [|rewrite length_drop; lia|].
  - rewrite list_fmap_id. f_equal. lia.
  - intros i x _ Hx. rewrite lookup_drop in Hx. unfold id.
    replace (new + Z.of_nat i) with (Z.of_nat (Z.to_nat new + i)) by lia. by apply nthZ_lookup.
Qed.

(** The slots of a stretch of pages. *)
Lemma pages_slots new k :
  0 <= k ->
  (((fun j => nthZ pages oob (new + j)) <$> lanes k) ≫= fun pg => (fun o => pg * ps + o) <$> lanes ps) =
  part2 ps pages oob new (k * ps).
Proof.
  intros Hk. unfold part2. rewrite lanes_blocks by lia. induction (lanes k) as [|j l IH]; [done|].
  rewrite fmap_cons, !bind_cons, fmap_app, IH. f_equal. rewrite <-list_fmap_compose. apply list_fmap_ext.
  intros i o Ho. apply list_elem_of_lookup_2, elem_of_lanes in Ho. simpl.
  rewrite (Z.add_comm (j * ps)), Z.div_add, Z.mod_add, Z.div_small, Z.mod_small by lia. done.
Qed.

Lemma len_fmap_lanes (f : Z -> Z) n : 0 <= n -> len (f <$> lanes n) = n.
Proof. intros Hn. unfold len. rewrite length_fmap. unfold lanes. rewrite length_seqZ. lia. Qed.

(** An assignment that is skipped when it is empty. *)
Lemma assign_unless_empty n a b values d r :
  len values = n -> a = len d -> b = a + n -> n <= len r ->
  (if decide (n = 0) then Ok (d ++ r) else assign_slice a b values (d ++ r)) =
  Ok (d ++ values ++ drop (Z.to_nat n) r).
Proof.
  intros Hn -> -> Hr. case_decide as Hz.
  - rewrite Hz in *. destruct values; [done|]. unfold len in Hn. simpl in Hn. lia.
  - rewrite assign_slice_app by lia. do 3 f_equal. unfold len in Hn. f_equal. lia.
Qed.

Lemma naive_step_run b new d r :
  breq_ok b -> 0 <= new -> new + new_pages ps b <= len pages -> extend_len b <= len r ->
  naive_step ps pages (b_pre b) (b_seq b) (b_last b) (len d) (len d + extend_len b) new (new + new_pages ps b)
    (d ++ r) =
  Ok (d ++ extend_slots ps pages oob b new ++ drop (Z.to_nat (extend_len b)) r).
Proof.
  intros Hok Hnew Hpg Hr. pose proof Hok as Hok'. unfold breq_ok in Hok'. unfold extend_len in Hr.
  destruct (pages_of_spec ps ps_pos (b_pre b) ltac:(lia)) as [Hp Hp0].
  pose proof (full_pages ps ps_pos (b_seq b) ltac:(lia)) as Hf. unfold naive_step.
  set (num1 := Z.min (b_seq b) (pgs (b_pre b) * ps) - b_pre b). assert (0 <= num1 <= ps) by lia.
  rewrite (take_lanes num1 ps) by lia. fold (part1 b num1).
  assert (len (part1 b num1) = num1) as Hl1 by (apply len_fmap_lanes; lia).
  rewrite (assign_unless_empty num1) by (done || lia). cbn [mbind res_bind].
  destruct (decide (b_seq b <= pgs (b_pre b) * ps)) as [Hs|Hs].
  { assert (num1 = b_seq b - b_pre b) as Hn1 by lia. rewrite decide_True by lia. f_equal.
    rewrite extend_slots_short by done. unfold extend_len. by rewrite Hn1. }
  assert (num1 = pgs (b_pre b) * ps - b_pre b) as Hn1 by lia. rewrite decide_False by lia.
  pose proof (boundary_le ps ps_pos (pgs (b_pre b)) (b_seq b) ltac:(lia)) as Hle.
  assert (pgs (b_pre b) * ps <= b_seq b / ps * ps) by (apply Z.mul_le_mono_nonneg_r; lia).
  set (k := b_seq b / ps - pgs (b_pre b)). unfold new_pages in *.
  assert (b_seq b / ps <= pgs (b_seq b)) as Hsp by (apply Z.div_le_mono; lia).
  replace (new + (pgs (b_seq b) - pgs (b_pre b)) - (pgs (b_seq b) - pgs (b_pre b) - k)) with (new + k) by lia.
  rewrite slice_pages, pages_slots by lia.
  assert (len (part2 ps pages oob new (k * ps)) = k * ps) as Hl2 by (apply len_fmap_lanes; lia).
  rewrite (app_assoc d (part1 b num1)).
  rewrite (assign_unless_empty (k * ps)); [|done|rewrite len_app; lia|lia|unfold len in *; rewrite length_drop; lia].
  cbn [mbind res_bind]. rewrite extend_slots_parts by (done || lia). rewrite <-Hn1.
  replace (b_seq b / ps * ps - pgs (b_pre b) * ps) with (k * ps) by lia. rewrite drop_drop. fold k.
  case_decide as Hd.
  { replace (b_seq b - b_seq b / ps * ps) with 0 by lia. change (part3 ps _ 0) with (@nil Z).
    f_equal. rewrite app_nil_r, <-!app_assoc. do 4 f_equal. unfold extend_len. lia. }
  rewrite decide_False by lia. unfold item. rewrite (pages_of_partial ps ps_pos (b_seq b)) in * by lia.
  replace (new + (b_seq b / ps + 1 - pgs (b_pre b)) - 1) with (new + k) by lia. unfold len in Hpg.
  destruct (lookup_lt_is_Some_2 pages (Z.to_nat (new + k)) ltac:(lia)) as [pg Hpgk]. rewrite Hpgk. cbn [mbind res_bind].
  assert (nthZ pages oob (new + k) = pg) as -> by (replace (new + k) with (Z.of_nat (Z.to_nat (new + k))) by lia; by apply nthZ_lookup).
  set (num3 := b_seq b - b_seq b / ps * ps). rewrite (take_lanes num3 ps) by lia. fold (part3 ps pg num3).
  assert (len (part3 ps pg num3) = num3) as Hl3 by (apply len_fmap_lanes; lia).
  rewrite app_assoc. rewrite (assign_slice_app _ _ (part3 ps pg num3)).
  - f_equal. rewrite <-!app_assoc. do 4 f_equal. rewrite drop_drop. f_equal. unfold extend_len, len in *. lia.
  - rewrite !len_app. unfold extend_len. lia.
  - rewrite !len_app. unfold extend_len. lia.
  - unfold len in *. rewrite length_drop. lia.
Qed.

Lemma naive_loop_run batch new d r :
  Forall breq_ok batch -> 0 <= new -> new + sumZ (new_pages ps) batch <= len pages ->
  len r = sumZ extend_len batch ->
  naive_loop ps pages (b_pre <$> batch) (b_seq <$> batch) (b_last <$> batch) (len d) new (d ++ r) =
  Ok (d ++ extend_ref ps pages oob batch new).
Proof.
  intros Hok. revert new d r. induction Hok as [|b batch Hb Hok IH]; intros new d r Hnew Hpg Hr.
  { destruct r; [done|]. unfold len in Hr. simpl in Hr. lia. }
  simpl in Hpg, Hr. pose proof (new_pages_nonneg ps ps_pos b Hb).
  assert (0 <= sumZ (new_pages ps) batch) as Hnn
    by (apply sumZ_nonneg; intros x Hx; rewrite Forall_forall in Hok; by apply new_pages_nonneg, Hok).
  assert (0 <= sumZ extend_len batch) as Hne
    by (apply sumZ_nonneg; intros x Hx; rewrite Forall_forall in Hok; specialize (Hok x Hx); unfold breq_ok, extend_len in *; lia).
  rewrite !fmap_cons. cbn [naive_loop].
  fold (extend_len b) (new_pages ps b). rewrite naive_step_run by (done || lia). cbn [mbind res_bind extend_ref].
  pose proof (len_extend_slots ps pages oob b new Hb) as Hle.
  rewrite app_assoc. replace (len d + extend_len b) with (len (d ++ extend_slots ps pages oob b new))
    by (rewrite len_app; lia).
  rewrite IH; [by rewrite <-app_assoc|lia|lia|]. unfold len in *. rewrite length_drop. lia.
Qed.
End naive.

(** C29: The extend kernel against its version without a kernel, for a batch of
    requests with [0 <= prefix <= seq], enough free pages and an output of the
    right length, whatever uninitialised memory and out-of-bounds loads hold.
    Program [i] stores exactly the slots of request [i], starting behind those
    of the requests before it, both in the output and in the free pages, except
    that both places are shifted by what the masked-off lanes of its two loads
    add to its sums.  Where these shifts are zero the kernel and the loop fill
    the output with the same slots, those of [extend_ref], and the kernel writes
    every element exactly once.  The shifts are zero for a single request, and
    for every batch if masked-off lanes hold the same in both loads, which the
    kernel relies on. *)
Theorem alloc_extend_equiv ps pages oob lane_seq lane_pre batch mem mem' :
  0 < ps -> Forall breq_ok batch -> sumZ (new_pages ps) batch <= len pages ->
  len mem = sumZ extend_len batch -> len mem' = sumZ extend_len batch ->
  let bs_upper := next_power_of_2 (len batch) in
  let program := alloc_extend_kernel ps oob lane_seq lane_pre (b_pre <$> batch) (b_seq <$> batch)
    (b_last <$> batch) pages bs_upper in
  (forall i b, batch !! i = Some b -> program (Z.of_nat i) =
    stores_of (sumZ extend_len (take i batch) + masked_len lane_seq lane_pre bs_upper i)
      (extend_slots ps pages oob b (sumZ (new_pages ps) (take i batch) + masked_pages ps lane_seq lane_pre bs_upper i))) /\
  (masked_cancel ps lane_seq lane_pre batch bs_upper ->
    alloc_extend_naive ps (b_pre <$> batch) (b_seq <$> batch) (b_last <$> batch) pages mem =
      Ok (launch (len batch) program mem') /\
    launch (len batch) program mem' = extend_ref ps pages oob batch 0 /\
    NoDup (concat (program <$> lanes (len batch))).*1) /\
  (length batch = 1%nat \/ (forall j, lane_seq j = lane_pre j) -> masked_cancel ps lane_seq lane_pre batch bs_upper).
Proof.
  intros Hps Hok Hpg Hm Hm' bs_upper program. split_and!.
  - intros i b Hb. apply extend_program; [done|done|apply next_power_of_2_le|done].
  - intros Hc. destruct (extend_launch ps Hps pages oob lane_seq lane_pre batch Hok bs_upper
      (next_power_of_2_le _) mem' Hc Hm') as [Hl Hnd].
    split_and!; [|done|done]. unfold program. rewrite Hl. unfold alloc_extend_naive.
    exact (naive_loop_run ps Hps pages oob batch 0 [] mem Hok ltac:(lia) ltac:(lia) Hm).
  - intros [H1|Hag]; [|by apply masked_cancel_same].
    destruct batch as [|b [|]]; try discriminate H1. apply masked_cancel_one.
Qed.

(** two pages, the last of which is partly filled before *)
Lemma alloc_extend_equiv_witness :
  let batch := [BReq 6 11 21; BReq 0 3 (-1); BReq 4 9 35] in
  let program := alloc_extend_kernel 4 (fun _ => -7) (fun _ => 99) (fun _ => 99) (b_pre <$> batch) (b_seq <$> batch)
    (b_last <$> batch) [1; 2; 3; 4; 5] (next_power_of_2 (len batch)) in
  alloc_extend_naive 4 (b_pre <$> batch) (b_seq <$> batch) (b_last <$> batch) [1; 2; 3; 4; 5] (replicate 13 0) =
    Ok (launch (len batch) program (replicate 13 5)) /\
  launch (len batch) program (replicate 13 5) = [22; 23; 4; 5; 6; 8; 9; 10; 12; 13; 14; 15; 16].
Proof.
  intros batch program.
  destruct (alloc_extend_equiv 4 [1; 2; 3; 4; 5] (fun _ => -7) (fun _ => 99) (fun _ => 99) batch (replicate 13 0)
    (replicate 13 5) ltac:(lia) ltac:(repeat constructor; cbn; lia) ltac:(vm_compute; discriminate)
    ltac:(reflexivity) ltac:(reflexivity)) as (_ & Hk & Hc).
  destruct Hk as (Hn & Hl & _); [apply Hc; right; reflexivity|]. split; [exact Hn|]. etransitivity; [exact Hl|]. vm_compute. reflexivity.
Defined.

(** The same batch when one masked-off lane is left 4 by the first load and 0 by
    the second: every program writes four places too far and takes its pages one
    too far, so that the first four entries keep what they held before. *)
Lemma masked_lane_shifts :
  let batch := [BReq 6 11 21; BReq 0 3 (-1); BReq 4 9 35] in
  let stale j := if decide (j = 3) then 4 else 0 in
  launch (len batch) (alloc_extend_kernel 4 (fun _ => -7) stale (fun _ => 0) (b_pre <$> batch) (b_seq <$> batch)
    (b_last <$> batch) [1; 2; 3; 4; 5] (next_power_of_2 (len batch))) (replicate 13 0) =
    [0; 0; 0; 0; 22; 23; 8; 9; 10; 12; 13; 14; 16] /\
  extend_ref 4 [1; 2; 3; 4; 5] (fun _ => -7) batch 0 = [22; 23; 4; 5; 6; 8; 9; 10; 12; 13; 14; 15; 16].
Proof. vm_compute. done. Qed.
