(* ===== verification/KvAllocFacts.v ===== *)
(** * The KV slot allocators: what they promise

    The decode kernel is the extend kernel for one more position; the slots
    the paged allocator hands out; and the ledger of the token allocator: at
    any time every slot from 1 to [size] is free, waiting to be merged, in the
    open free group, or handed out, exactly once. *)

From stdpp Require Import sorting relations.
From S2P Require Import Prelude KvAllocator KvKernels.

(** ** The decode kernel *)

(** A request that has grown to [s] positions, the last of which has no slot. *)
Definition decode_req (s last : Z) : breq := BReq (s - 1) s last.

Section decode.
Context (ps : Z) (ps_pos : 0 < ps) (pages : list Z) (oob lane_seq : Z -> Z).
Context (batch : list breq) (batch_ok : Forall (fun b => 1 <= b_seq b /\ b_pre b = b_seq b - 1) batch).
Context (bs_upper : Z) (bs_le : len batch <= bs_upper).
Abbreviation pgs := (pages_of ps).

Abbreviation program := (alloc_decode_kernel ps oob lane_seq (b_seq <$> batch) (b_last <$> batch) pages bs_upper).

Lemma decode_breq_ok : Forall breq_ok batch.
Proof. eapply Forall_impl; [exact batch_ok|]. intros b [? ?]. unfold breq_ok. lia. Qed.

(** The prefix lengths the kernel computes are those of the batch. *)
Lemma decode_pre_lens i :
  (i < length batch)%nat ->
  (fun '(j, s) => if decide (j <= Z.of_nat i) then s - 1 else s) <$>
    zip (lanes bs_upper) (load_upto (b_seq <$> batch) lane_seq bs_upper (Z.of_nat i)) =
  load_upto (b_pre <$> batch) lane_seq bs_upper (Z.of_nat i).
Proof.
  intros Hi. unfold load_upto. rewrite zip_with_fmap_r.
  assert (forall j, j ∈ lanes bs_upper -> 0 <= j) as Hj by (intros j Hj%elem_of_lanes; lia).
  induction (lanes bs_upper) as [|j l IH]; [done|]. simpl. f_equal; [|apply IH; intros; apply Hj; by right].
  case_decide as Hle; [|done]. assert (0 <= j) by (apply Hj; left).
  destruct (lookup_lt_is_Some_2 batch (Z.to_nat j) ltac:(lia)) as [b Hb].
  replace j with (Z.of_nat (Z.to_nat j)) by lia.
  rewrite (nthZ_lookup (b_seq <$> batch) _ (Z.to_nat j) (b_seq b)), (nthZ_lookup (b_pre <$> batch) _ (Z.to_nat j) (b_pre b))
    by (by rewrite list_lookup_fmap, Hb).
  destruct (proj1 (Forall_lookup _ _) batch_ok _ _ Hb). lia.
Qed.

(** One more position: the next slot of the last page, or a new page. *)
Lemma decode_slots b new :
  1 <= b_seq b -> b_pre b = b_seq b - 1 ->
  extend_slots ps pages oob b new =
    [if decide (new_pages ps b = 0) then b_last b + 1 else nthZ pages oob new * ps].
Proof.
  intros Hs Hp. unfold extend_slots, extend_loc, new_pages. replace (b_seq b - b_pre b) with 1 by lia.
  change (seqZ (b_pre b) 1) with [0 + b_pre b]. rewrite Z.add_0_l. cbn [fmap list_fmap]. f_equal.
  destruct (pages_of_spec ps ps_pos (b_pre b) ltac:(lia)) as [Hb Hb0].
  destruct (pages_of_spec ps ps_pos (b_seq b) ltac:(lia)) as [Hc Hc0].
  destruct (decide (b_pre b < pgs (b_pre b) * ps)) as [Hlt|Hge].
  - rewrite decide_True; [lia|]. assert (pgs (b_seq b) <= pgs (b_pre b)) as H1.
    { apply Z.lt_succ_r. apply (Z.mul_lt_mono_pos_r ps); [done|]. lia. }
    pose proof (pages_of_mono ps ps_pos (b_pre b) (b_seq b) ltac:(lia)). lia.
  - assert (b_pre b = pgs (b_pre b) * ps) as He by lia. rewrite decide_False.
    + rewrite He at 1 3. rewrite Z.div_mul, Z.mod_mul by lia. rewrite Z.sub_diag, !Z.add_0_r. done.
    + intros E. replace (pgs (b_seq b)) with (pgs (b_pre b)) in Hc by lia. lia.
Qed.

Lemma decode_program i b :
  batch !! i = Some b ->
  program (Z.of_nat i) =
    stores_of (sumZ extend_len (take i batch)) (extend_slots ps pages oob b (sumZ (new_pages ps) (take i batch))).
Proof.
  intros Hb. assert (i < length batch)%nat as Hi by (by eapply lookup_lt_Some).
  destruct (proj1 (Forall_lookup _ _) batch_ok _ _ Hb) as [Hs Hp].
  unfold alloc_decode_kernel. rewrite decode_pre_lens by done.
  rewrite (load_sum lane_seq lane_seq), masked_same by (done || (intros x; lia)).
  rewrite (nthZ_lookup (b_seq <$> batch) oob i (b_seq b)), (nthZ_lookup (b_last <$> batch) oob i (b_last b))
    by (by rewrite list_lookup_fmap, Hb).
  rewrite <-Hp. fold (new_pages ps b). change (fun b0 : breq => pgs (b_seq b0) - pgs (b_pre b0)) with (new_pages ps).
  rewrite (sum_before _ batch i b _ Hb), Z.add_0_r, decode_slots by done.
  assert (sumZ extend_len (take i batch) = Z.of_nat i) as ->.
  { transitivity (sumZ (fun _ => 1) (take i batch)).
    - apply sumZ_ext. intros x Hx. apply elem_of_take in Hx as (j & Hj & _).
      destruct (proj1 (Forall_lookup _ _) batch_ok _ _ Hj). unfold extend_len. lia.
    - rewrite sumZ_const, length_take. lia. }
  by case_decide.
Qed.

Lemma decode_launch mem :
  len mem = sumZ extend_len batch ->
  launch (len batch) program mem = extend_ref ps pages oob batch 0 /\
  NoDup (concat (program <$> lanes (len batch))).*1.
Proof. apply launch_ref; [exact decode_breq_ok|]. intros i b Hb. by apply decode_program. Qed.

(** With pages of more than one slot, the decode branch of [get_num_new_pages]
    counts the pages the kernel takes. *)
Lemma decode_num_pages :
  1 < ps -> sumZ (fun s => if decide (s mod ps = 1) then 1 else 0) (b_seq <$> batch) = sumZ (new_pages ps) batch.
Proof.
  intros Hps. rewrite <-(sumZ_fmap (fun s => if decide (s mod ps = 1) then 1 else 0)), <-list_fmap_compose, sumZ_fmap.
  apply sumZ_ext. intros b Hb. destruct (proj1 (Forall_forall _ _) batch_ok b Hb) as [Hs Hp]. simpl.
  unfold new_pages. rewrite Hp.
  pose proof (full_pages ps ps_pos (b_seq b - 1) ltac:(lia)) as Hf.
  pose proof (Z.div_mod (b_seq b) ps ltac:(lia)) as Hd. pose proof (Z.mod_pos_bound (b_seq b) ps ps_pos) as Hm.
  case_decide as Hmod.
  - rewrite Hmod in Hd. assert ((b_seq b - 1) / ps = b_seq b / ps) as Hq
      by (symmetry; apply Z.div_unique with (r := 0); lia).
    rewrite (pages_of_partial ps ps_pos (b_seq b)), (pages_of_full ps ps_pos (b_seq b - 1)); lia.
  - destruct (decide (b_seq b mod ps = 0)) as [Hz|Hz].
    + rewrite (pages_of_full ps ps_pos (b_seq b)) by lia.
      assert ((b_seq b - 1) / ps = b_seq b / ps - 1) as Hq
        by (symmetry; apply Z.div_unique with (r := ps - 1); lia).
      rewrite (pages_of_partial ps ps_pos (b_seq b - 1)); lia.
    + assert ((b_seq b - 1) / ps = b_seq b / ps) as Hq
        by (symmetry; apply Z.div_unique with (r := b_seq b mod ps - 1); lia).
      rewrite (pages_of_partial ps ps_pos (b_seq b)), (pages_of_partial ps ps_pos (b_seq b - 1)); lia.
Qed.
End decode.

(** ** No slot is handed out twice *)

Lemma remove_dups_NoDup (l : list Z) : NoDup l -> remove_dups l = l.
Proof.
  induction 1 as [|x l Hx _ IH]; [done|]. simpl. case_decide; [done|]. by f_equal.
Qed.

Lemma unique_NoDup l : NoDup l -> length (unique l) = length l.
Proof. intros Hl. unfold unique. by rewrite merge_sort_Permutation, remove_dups_NoDup. Qed.

Section fresh.
Context (ps : Z) (ps_pos : 0 < ps) (pages : list Z) (oob : Z -> Z).
Abbreviation pgs := (pages_of ps).

(** The last slot of the prefix is where its position says. *)
Definition last_aligned (b : breq) : Prop := (b_last b + 1) mod ps = b_pre b mod ps.

(** The partly filled page of a request, if it has one. *)
Definition tail_page (b : breq) : list Z := if decide (b_pre b mod ps = 0) then [] else [b_last b / ps].

Lemma nthZ_elem l i : 0 <= i < len l -> nthZ l oob i ∈ l.
Proof.
  intros Hi. unfold len in Hi. destruct (lookup_lt_is_Some_2 l (Z.to_nat i) ltac:(lia)) as [x Hx].
  replace i with (Z.of_nat (Z.to_nat i)) by lia. rewrite (nthZ_lookup l oob _ x Hx). by eapply list_elem_of_lookup_2.
Qed.

(** The page number of position [t]. *)
Definition page_at (b : breq) (new t : Z) : Z :=
  if decide (t < pgs (b_pre b) * ps) then b_last b / ps else nthZ pages oob (new + (t / ps - pgs (b_pre b))).

(** The slot of a position is at the position's offset in its page. *)
Lemma extend_loc_page b new t :
  breq_ok b -> last_aligned b -> b_pre b <= t ->
  extend_loc ps pages oob b new t = page_at b new t * ps + t mod ps.
Proof.
  intros Hok Hal Ht. unfold extend_loc, page_at. unfold breq_ok in Hok. case_decide as Hlt; [|done].
  unfold last_aligned in Hal. destruct (pages_of_spec ps ps_pos (b_pre b) ltac:(lia)) as [Hp _].
  pose proof (full_pages ps ps_pos (b_pre b) ltac:(lia)) as Hf.
  assert (b_pre b / ps * ps < b_pre b) as Hpart.
  { destruct (decide (b_pre b / ps * ps = b_pre b)) as [E|]; [|lia].
    rewrite (pages_of_full ps ps_pos (b_pre b) E) in Hlt. lia. }
  pose proof (pages_of_partial ps ps_pos (b_pre b) ltac:(lia) Hpart) as Hpg. rewrite Hpg in *.
  assert (b_pre b mod ps = b_pre b - b_pre b / ps * ps) as Hpm by (rewrite Z.mod_eq by lia; lia).
  assert (t / ps = b_pre b / ps) as Htq by (symmetry; apply Z.div_unique with (r := t - b_pre b / ps * ps); lia).
  assert (t mod ps = t - b_pre b / ps * ps) as Htm by (rewrite Z.mod_eq by lia; rewrite Htq; lia).
  pose proof (Z.div_mod (b_last b + 1) ps ltac:(lia)) as Hd. rewrite Hal, Hpm in Hd.
  assert (b_last b / ps = (b_last b + 1) / ps) as ->.
  { symmetry. apply Z.div_unique with (r := b_pre b - b_pre b / ps * ps - 1); lia. }
  lia.
Qed.

(** Where the page of a position comes from. *)
Lemma page_at_cases b new t :
  breq_ok b -> b_pre b <= t < b_seq b -> 0 <= new -> new + new_pages ps b <= len pages ->
  (page_at b new t = b_last b / ps /\ tail_page b = [b_last b / ps] /\ t / ps = pgs (b_pre b) - 1) \/
  (exists j, drop (Z.to_nat new) pages !! j = Some (page_at b new t) /\ t / ps = pgs (b_pre b) + Z.of_nat j).
Proof.
  intros Hok Ht Hnew Hpg. unfold breq_ok in Hok. unfold page_at.
  destruct (pages_of_spec ps ps_pos (b_pre b) ltac:(lia)) as [Hp _]. case_decide as Hlt; [left|right].
  - split; [done|]. split.
    + unfold tail_page. rewrite decide_False; [done|]. intros Hz. pose proof (Z.div_mod (b_pre b) ps ltac:(lia)).
      rewrite (pages_of_full ps ps_pos (b_pre b)) in Hlt by lia. lia.
    + symmetry. apply Z.div_unique with (r := t - (pgs (b_pre b) - 1) * ps); lia.
  - assert (pgs (b_pre b) <= t / ps) as H1 by (apply boundary_le; lia).
    assert (t / ps < pgs (b_seq b)) as H2.
    { destruct (pages_of_spec ps ps_pos (b_seq b) ltac:(lia)) as [Hs _]. apply Z.div_lt_upper_bound; lia. }
    unfold new_pages, len in *. exists (Z.to_nat (t / ps - pgs (b_pre b))). split; [|lia].
    destruct (lookup_lt_is_Some_2 pages (Z.to_nat (new + (t / ps - pgs (b_pre b)))) ltac:(lia)) as [y Hy].
    replace (new + (t / ps - pgs (b_pre b))) with (Z.of_nat (Z.to_nat (new + (t / ps - pgs (b_pre b))))) at 1 by lia.
    rewrite (nthZ_lookup pages oob _ y Hy), lookup_drop, <-Hy. f_equal. lia.
Qed.

(** The pages a request's slots lie in: its tail page and its new pages. *)
Lemma extend_slots_page b new x :
  breq_ok b -> last_aligned b -> 0 <= new -> new + new_pages ps b <= len pages ->
  x ∈ extend_slots ps pages oob b new ->
  x / ps ∈ tail_page b ++ take (Z.to_nat (new_pages ps b)) (drop (Z.to_nat new) pages).
Proof.
  intros Hok Hal Hnew Hpg Hx. apply list_elem_of_fmap in Hx as (t & -> & Ht%elem_of_seqZ).
  pose proof Hok as Hok'. unfold breq_ok in Hok'. rewrite extend_loc_page by (done || lia).
  rewrite (Z.add_comm (_ * ps)), Z.div_add, Z.div_small, Z.add_0_l by (lia || by apply Z.mod_pos_bound).
  apply elem_of_app. destruct (page_at_cases b new t) as [(-> & -> & _)|(j & Hj & Hq)]; try (done || lia).
  - left. set_solver.
  - right. apply elem_of_take. exists j. split; [done|]. unfold new_pages in *.
    destruct (pages_of_spec ps ps_pos (b_seq b) ltac:(lia)) as [Hs _].
    assert (t / ps < pgs (b_seq b)) by (apply Z.div_lt_upper_bound; lia). lia.
Qed.

(** A request's slots are distinct if its pages are. *)
Lemma extend_slots_NoDup b new :
  breq_ok b -> last_aligned b -> 0 <= new -> new + new_pages ps b <= len pages ->
  NoDup (tail_page b ++ drop (Z.to_nat new) pages) -> NoDup (extend_slots ps pages oob b new).
Proof.
  intros Hok Hal Hnew Hpg (_ & Hdis & Hnd)%NoDup_app. pose proof Hok as Hok'. unfold breq_ok in Hok'.
  apply NoDup_fmap_2_strong; [|apply NoDup_seqZ].
  intros t1 t2 Ht1%elem_of_seqZ Ht2%elem_of_seqZ Heq.
  rewrite !extend_loc_page in Heq by (done || lia).
  assert (page_at b new t1 = page_at b new t2 /\ t1 mod ps = t2 mod ps) as [Hp Hm].
  { pose proof (Z.mod_pos_bound t1 ps ps_pos). pose proof (Z.mod_pos_bound t2 ps ps_pos).
    apply (Z.div_mod_unique ps); lia. }
  assert (t1 / ps = t2 / ps) as Hq.
  { destruct (page_at_cases b new t1) as [(E1 & Et1 & Q1)|(j1 & E1 & Q1)];
      destruct (page_at_cases b new t2) as [(E2 & Et2 & Q2)|(j2 & E2 & Q2)]; try (done || lia).
    - exfalso. apply (Hdis (b_last b / ps)); [rewrite Et1; by left|]. rewrite <-E1, Hp. by eapply list_elem_of_lookup_2.
    - exfalso. apply (Hdis (b_last b / ps)); [rewrite Et2; by left|]. rewrite <-E2, <-Hp. by eapply list_elem_of_lookup_2.
    - rewrite Hp in E1. rewrite (NoDup_lookup _ _ _ _ Hnd E1 E2) in Q1. lia. }
  pose proof (Z.div_mod t1 ps ltac:(lia)). pose proof (Z.div_mod t2 ps ltac:(lia)). congruence.
Qed.

Lemma extend_ref_page batch new x :
  Forall breq_ok batch -> Forall last_aligned batch -> 0 <= new ->
  new + sumZ (new_pages ps) batch <= len pages -> x ∈ extend_ref ps pages oob batch new ->
  x / ps ∈ (batch ≫= tail_page) ++
    take (Z.to_nat (sumZ (new_pages ps) batch)) (drop (Z.to_nat new) pages).
Proof.
  intros Hok. revert new. induction Hok as [|b batch Hb Hok IH]; intros new Hal Hnew Hpg Hx; [by apply elem_of_nil in Hx|].
  apply Forall_cons in Hal as [Hal Hals]. simpl in Hpg, Hx. pose proof (new_pages_nonneg ps ps_pos b Hb) as Hn0.
  assert (0 <= sumZ (new_pages ps) batch) as Hnn
    by (apply sumZ_nonneg; intros y Hy; rewrite Forall_forall in Hok; by apply new_pages_nonneg, Hok).
  rewrite bind_cons. cbn [sumZ foldr]. fold (sumZ (new_pages ps) batch). rewrite Z2Nat.inj_add by done.
  rewrite <-take_take_drop, drop_drop, <-Z2Nat.inj_add by done.
  apply elem_of_app in Hx as [Hx|Hx].
  - apply extend_slots_page in Hx; [|done|done|done|lia]. set_solver.
  - apply IH in Hx; [|done|lia|lia]. set_solver.
Qed.

Lemma extend_ref_NoDup batch new :
  Forall breq_ok batch -> Forall last_aligned batch -> 0 <= new ->
  new + sumZ (new_pages ps) batch <= len pages ->
  NoDup ((batch ≫= tail_page) ++ drop (Z.to_nat new) pages) -> NoDup (extend_ref ps pages oob batch new).
Proof.
  intros Hok. revert new. induction Hok as [|b batch Hb Hok IH]; intros new Hal Hnew Hpg Hnd; [constructor|].
  apply Forall_cons in Hal as [Hal Hals]. simpl in Hpg. pose proof (new_pages_nonneg ps ps_pos b Hb) as Hn0.
  assert (0 <= sumZ (new_pages ps) batch) as Hnn
    by (apply sumZ_nonneg; intros y Hy; rewrite Forall_forall in Hok; by apply new_pages_nonneg, Hok).
  rewrite bind_cons in Hnd.
  set (own := take (Z.to_nat (new_pages ps b)) (drop (Z.to_nat new) pages)).
  assert (drop (Z.to_nat new) pages = own ++ drop (Z.to_nat (new + new_pages ps b)) pages) as Hsplit
    by (unfold own; rewrite Z2Nat.inj_add, <-drop_drop, take_drop; done).
  assert (NoDup ((tail_page b ++ own) ++ (batch ≫= tail_page) ++ drop (Z.to_nat (new + new_pages ps b)) pages)) as Hnd'.
  { eapply NoDup_Permutation_proper; [|exact Hnd]. rewrite Hsplit. solve_Permutation. }
  apply NoDup_app in Hnd' as (Hnd1 & Hdis & Hnd2). simpl. apply NoDup_app. split_and!.
  - apply extend_slots_NoDup; [done|done|done|lia|]. rewrite <-app_assoc in Hnd.
    apply NoDup_app in Hnd as (Ha & Hb' & (_ & _ & Hc)%NoDup_app).
    apply NoDup_app. split_and!; [done| |done]. intros x Hx Hx'. apply (Hb' x Hx). set_solver.
  - intros x Hx1 Hx2. apply extend_slots_page in Hx1; [|done|done|done|lia].
    apply extend_ref_page in Hx2; [|done|done|lia|lia]. apply (Hdis (x / ps)); [done|].
    apply elem_of_app in Hx2 as [Hx2|Hx2%elem_of_take]; [set_solver|]. apply elem_of_app. right.
    destruct Hx2 as (j & Hj & _). by eapply list_elem_of_lookup_2.
  - apply IH; [done|lia|lia|done].
Qed.
End fresh.

(** ** The paged allocator *)

Definition page_count (a : KvAllocator) : Z := len (free_pages a) + len (release_pages a).

(** Without sorting, nothing waits to be merged. *)
Definition sort_ok (a : KvAllocator) : Prop := need_sort a = false -> release_pages a = [].

Lemma merge_run a :
  exists a1, merge_and_sort_free a = (Ok tt, a1) /\ free_pages a1 ≡ₚ free_pages a ++ release_pages a /\
    release_pages a1 = [] /\ page_size_ a1 = page_size_ a /\ debug_mode a1 = debug_mode a /\
    need_sort a1 = need_sort a /\ size_ a1 = size_ a /\
    is_not_in_free_group a1 = is_not_in_free_group a /\ free_group a1 = free_group a.
Proof.
  unfold merge_and_sort_free. case_decide as Hr.
  - exists a. rewrite Hr, app_nil_r. split_and!; done || (by rewrite Hr).
  - eexists. split; [done|]. split_and!; try done. simpl. apply merge_sort_Permutation.
Qed.

(** The step of every allocation routine before it looks at the free pages:
    when the free list may be too short, what waits is merged in. *)
Lemma maybe_merge a (need : Z) :
  sort_ok a -> exists a1,
    (if need_sort a && bool_decide (len (free_pages a) < need) then merge_and_sort_free else mret tt) a = (Ok tt, a1) /\
    free_pages a1 ++ release_pages a1 ≡ₚ free_pages a ++ release_pages a /\
    (len (free_pages a1) < need -> len (free_pages a1) = page_count a) /\
    sort_ok a1 /\ page_size_ a1 = page_size_ a /\ debug_mode a1 = debug_mode a.
Proof.
  intros Hs. unfold page_count.
  destruct (need_sort a) eqn:En; simpl; [case_bool_decide as Hlt|].
  - destruct (merge_run a) as (a1 & -> & Hp & Hr & Hps & Hd & Hn & _). exists a1. rewrite Hr, app_nil_r.
    split_and!; try done; intros _; [|done]. unfold len. rewrite Hp, length_app. lia.
  - exists a. split_and!; try done.
  - exists a. split_and!; try done. intros _. rewrite (Hs En). unfold len. simpl. lia.
Qed.

Section paged.
Context (oob lane_seq lane_pre : Z -> Z).
Implicit Types (a : KvAllocator) (batch : list breq).

(** [take_pages] when the pages suffice or the debug checks are off. *)
Lemma take_pages_run a n out :
  (debug_mode a = true -> NoDup out) -> 0 <= n ->
  Paged.take_pages n out a =
    if decide (len (free_pages a) < n) then (Ok None, a)
    else (Ok (Some out), set_pages (drop (Z.to_nat n) (free_pages a)) (release_pages a) a).
Proof.
  intros Hnd Hn. unfold Paged.take_pages. erewrite bind_ok by reflexivity. cbv beta. unfold id.
  replace (debug_mode a && negb (bool_decide (length (unique out) = length out))) with false.
  - by case_decide.
  - destruct (debug_mode a); [|done]. rewrite bool_decide_eq_true_2; [done|]. by apply unique_NoDup, Hnd.
Qed.

Lemma extend_len_nonneg batch : Forall breq_ok batch -> 0 <= sumZ extend_len batch.
Proof.
  intros Hok. apply sumZ_nonneg. intros b Hb. destruct (proj1 (Forall_forall _ _) Hok b Hb). unfold extend_len. lia.
Qed.

Lemma zip_new_pages ps batch :
  sumZ (fun '(s, p) => pages_of ps s - pages_of ps p) (zip (b_seq <$> batch) (b_pre <$> batch)) =
  sumZ (new_pages ps) batch.
Proof. induction batch as [|b batch IH]; [done|]. cbn. f_equal. exact IH. Qed.

(** The alignment check of the debug mode. *)
Lemma debug_aligned ps batch :
  Forall (last_aligned ps) batch ->
  negb (forallb (fun '(l, p) => bool_decide ((l + 1) mod ps = p mod ps)) (zip (b_last <$> batch) (b_pre <$> batch))) = false.
Proof.
  induction 1 as [|b batch Hb _ IH]; [done|]. cbn. unfold last_aligned in Hb.
  rewrite bool_decide_eq_true_2 by done. exact IH.
Qed.

(** The number of pages a batch needs is below the estimate that triggers the
    merge. *)
Lemma new_pages_bound ps batch :
  0 < ps -> Forall breq_ok batch -> sumZ (new_pages ps) batch <= sumZ extend_len batch / ps + len batch.
Proof.
  intros Hps Hok. induction Hok as [|b batch Hb _ IH]; [unfold len; simpl; rewrite Z.div_0_l; lia|].
  unfold breq_ok in Hb. cbn [sumZ foldr]. fold (sumZ (new_pages ps) batch) (sumZ extend_len batch).
  change (len (b :: batch)) with (len ([b] ++ batch)). rewrite len_app. change (len [b]) with 1.
  destruct (pages_of_spec ps Hps (b_pre b) ltac:(lia)) as [Hp _].
  destruct (pages_of_spec ps Hps (b_seq b) ltac:(lia)) as [Hs _].
  assert (new_pages ps b <= extend_len b / ps + 1) as H1.
  { apply Z.lt_succ_r. unfold new_pages, extend_len.
    pose proof (full_pages ps Hps (b_seq b - b_pre b) ltac:(lia)).
    apply (Z.mul_lt_mono_pos_r ps); lia. }
  assert (extend_len b / ps + sumZ extend_len batch / ps <= (extend_len b + sumZ extend_len batch) / ps) as H2.
  { apply Z.div_le_lower_bound; [done|].
    pose proof (Z.mul_div_le (extend_len b) ps Hps). pose proof (Z.mul_div_le (sumZ extend_len batch) ps Hps). lia. }
  lia.
Qed.

(** What an allocation for a batch that needs [n] pages gives: nothing if there
    are fewer, or distinct slots in the tail pages and in [n] pages that leave
    the free ones. *)
Definition batch_allocated a (ps n : Z) batch (r : option (list Z)) a' : Prop :=
  match r with
  | None => page_count a < n /\ free_pages a' ++ release_pages a' ≡ₚ free_pages a ++ release_pages a
  | Some out => n <= page_count a /\ exists taken, len taken = n /\
      free_pages a ++ release_pages a ≡ₚ taken ++ free_pages a' ++ release_pages a' /\
      out = extend_ref ps (taken ++ free_pages a') oob batch 0 /\ NoDup out /\
      forall x, x ∈ out -> x / ps ∈ (batch ≫= tail_page ps) ++ taken
  end.

Lemma batch_allocated_intro a a1 ps batch :
  let n := sumZ (new_pages ps) batch in
  let out := extend_ref ps (free_pages a1) oob batch 0 in
  0 < ps -> Forall breq_ok batch -> Forall (last_aligned ps) batch ->
  NoDup ((batch ≫= tail_page ps) ++ free_pages a ++ release_pages a) ->
  free_pages a1 ++ release_pages a1 ≡ₚ free_pages a ++ release_pages a ->
  (len (free_pages a1) < n -> len (free_pages a1) = page_count a) ->
  (n <= len (free_pages a1) -> NoDup out) /\
  if decide (len (free_pages a1) < n) then batch_allocated a ps n batch None a1
  else batch_allocated a ps n batch (Some out) (set_pages (drop (Z.to_nat n) (free_pages a1)) (release_pages a1) a1).
Proof.
  intros n out Hps Hok Hal Hnd Hperm Hshort.
  assert (0 <= n) as Hn0 by (apply sumZ_nonneg; intros y Hy; rewrite Forall_forall in Hok; by apply new_pages_nonneg, Hok).
  assert (n <= len (free_pages a1) -> NoDup out) as Hout.
  { intros Hn. apply extend_ref_NoDup; [done|done|done|lia|done|]. rewrite drop_0.
    rewrite <-Hperm, app_assoc in Hnd. by apply NoDup_app in Hnd as (? & _). }
  split; [done|]. case_decide as Hlt; [split; [rewrite <-Hshort; lia|done]|].
  split.
  { unfold page_count. apply Permutation_length in Hperm. rewrite !length_app in Hperm. unfold len in *. lia. }
  exists (take (Z.to_nat n) (free_pages a1)). simpl. split_and!.
  - unfold len in *. rewrite length_take. lia.
  - by rewrite app_assoc, take_drop.
  - by rewrite take_drop.
  - apply Hout. lia.
  - intros x Hx. apply extend_ref_page in Hx; [|done|done|done|lia|fold n; lia]. by rewrite drop_0 in Hx.
Qed.

(** What is certain of the pages whatever the kernel writes *)
Definition batch_pages a (n : Z) batch (r : option (list Z)) a' : Prop :=
  match r with
  | None => page_count a < n /\ free_pages a' ++ release_pages a' ≡ₚ free_pages a ++ release_pages a
  | Some out => n <= page_count a /\ len out = sumZ extend_len batch /\ exists taken, len taken = n /\
      free_pages a ++ release_pages a ≡ₚ taken ++ free_pages a' ++ release_pages a'
  end.

Lemma run_stores_length stores : forall mem, length (run_stores mem stores) = length mem.
Proof. induction stores as [|[x v] stores IH]; intros mem; [done|]. simpl. rewrite IH. apply length_insert. Qed.

(** C30: [alloc_extend] of the paged allocator, for a batch of requests whose
    last slots are where their lengths say, with distinct pages.  It returns
    [None] exactly when the free pages, including those not yet merged, are
    fewer than the batch needs, and otherwise takes exactly the pages needed.
    If the masked-off lanes of the kernel's two loads cancel out (always
    for a single request), the slots it returns are distinct, and each position
    of each request gets the slot at its offset in its tail page or in one of
    the pages taken.  In debug mode, whose checks compare the slots, this is
    shown for enough pages and lanes that cancel out. *)
Theorem paged_alloc_extend_spec a batch uninit :
  let ps := Z.of_nat (page_size_ a) in
  let n := sumZ (new_pages ps) batch in
  let cancel := masked_cancel ps lane_seq lane_pre batch (next_power_of_2 (len batch)) in
  0 < ps -> sort_ok a -> Forall breq_ok batch -> Forall (last_aligned ps) batch ->
  NoDup ((batch ≫= tail_page ps) ++ free_pages a ++ release_pages a) ->
  sumZ extend_len batch <= len uninit ->
  (debug_mode a = true -> n <= page_count a /\ cancel) ->
  exists r a',
    Paged.alloc_extend oob lane_seq lane_pre uninit (b_pre <$> batch) (b_seq <$> batch) (b_last <$> batch)
      (sumZ extend_len batch) a = (Ok r, a') /\
    batch_pages a n batch r a' /\ (cancel -> batch_allocated a ps n batch r a').
Proof.
  intros ps n cancel Hps Hs Hok Hal Hnd Hun Hdbg.
  set (need := sumZ extend_len batch / ps + len (b_pre <$> batch) + 1).
  destruct (maybe_merge a need Hs) as (a1 & Hm & Hperm & Hshort & _ & Hps1 & Hd1).
  assert (len (b_pre <$> batch) = len batch) as Hlb by (unfold len; by rewrite length_fmap).
  pose proof (new_pages_bound ps batch Hps Hok) as Hbound. fold n in Hbound.
  destruct (batch_allocated_intro a a1 ps batch Hps Hok Hal Hnd Hperm) as [Hout Hres].
  { fold n. intros Hlt. apply Hshort. unfold need. lia. }
  fold n in Hout, Hres. set (out := extend_ref ps (free_pages a1) oob batch 0) in *.
  assert (0 <= n) as Hn0 by (apply sumZ_nonneg; intros y Hy; rewrite Forall_forall in Hok; by apply new_pages_nonneg, Hok).
  set (mem := take (Z.to_nat (sumZ extend_len batch)) uninit).
  assert (len mem = sumZ extend_len batch) as Hlm.
  { unfold mem, len in *. rewrite length_take. pose proof (extend_len_nonneg batch Hok). lia. }
  set (written := launch (len batch) (alloc_extend_kernel ps oob lane_seq lane_pre (b_pre <$> batch) (b_seq <$> batch)
    (b_last <$> batch) (free_pages a1) (next_power_of_2 (len batch))) mem).
  assert (cancel -> written = out) as Hw.
  { intros Hc. exact (proj1 (extend_launch ps Hps (free_pages a1) oob lane_seq lane_pre batch Hok
      (next_power_of_2 (len batch)) (next_power_of_2_le _) mem Hc Hlm)). }
  assert (Paged.alloc_extend oob lane_seq lane_pre uninit (b_pre <$> batch) (b_seq <$> batch) (b_last <$> batch)
    (sumZ extend_len batch) a = Paged.take_pages n written a1) as ->.
  { unfold Paged.alloc_extend. erewrite bind_ok by reflexivity. cbv beta zeta. change (id a) with a. fold ps.
    rewrite (debug_aligned ps batch Hal), andb_false_r. rewrite (bind_ok _ _ _ _ _ Hm). cbv beta.
    erewrite bind_ok by reflexivity. cbv beta. change (id a1) with a1. rewrite Hlb. fold mem. fold written.
    erewrite bind_ok; [reflexivity|]. unfold lift_res, get_num_new_pages. by rewrite zip_new_pages. }
  rewrite take_pages_run; [|intros Hd; destruct (Hdbg ltac:(by rewrite <-Hd1)); rewrite Hw by done; apply Hout; lia|done].
  case_decide as Hlt; eexists _, _; (split; [reflexivity|]).
  - split; [exact Hres|done].
  - split; [|intros Hc; by rewrite Hw]. destruct Hres as (Hle & taken & Ht & Hp & _).
    split; [done|]. split; [|by exists taken]. unfold written, launch, len. by rewrite run_stores_length.
Qed.

Lemma debug_aligned_decode ps batch :
  0 < ps -> Forall (fun b => 1 <= b_seq b /\ b_pre b = b_seq b - 1) batch -> Forall (last_aligned ps) batch ->
  negb (forallb (fun '(l, s) => bool_decide ((l + 2) mod ps = s mod ps)) (zip (b_last <$> batch) (b_seq <$> batch))) = false.
Proof.
  intros Hps Hok. induction Hok as [|b batch [Hs Hp] _ IH]; intros Hal; [done|].
  apply Forall_cons in Hal as [Hb Hal]. cbn. unfold last_aligned in Hb.
  rewrite bool_decide_eq_true_2; [by apply IH|].
  replace (b_last b + 2) with ((b_last b + 1) + 1) by lia. rewrite <-Z.add_mod_idemp_l, Hb, Hp, Z.add_mod_idemp_l by lia.
  f_equal. lia.
Qed.

(** C39: for a batch whose requests each grow by one position, whose last slots
    are where their lengths say and whose partly filled pages are distinct and
    not free, [alloc_decode] is [alloc_extend] by one position, whatever the
    masked lanes of the kernel hold: with pages of more than one slot it returns
    [None] exactly when the free pages are fewer than the requests that start a
    page, and otherwise the distinct slots that continue each request, on its
    partly filled page or on a page taken from the free ones; the pages it
    removes from the free ones are exactly those the kernel used. *)
Theorem paged_alloc_decode_spec a batch uninit :
  let ps := Z.of_nat (page_size_ a) in
  let n := sumZ (new_pages ps) batch in
  1 < ps -> sort_ok a -> Forall (fun b => 1 <= b_seq b /\ b_pre b = b_seq b - 1) batch ->
  Forall (last_aligned ps) batch ->
  NoDup ((batch ≫= tail_page ps) ++ free_pages a ++ release_pages a) ->
  len batch <= len uninit -> (debug_mode a = true -> n <= page_count a) ->
  exists r a', Paged.alloc_decode oob lane_seq uninit (b_seq <$> batch) (b_last <$> batch) a = (Ok r, a') /\
    batch_allocated a ps n batch r a'.
Proof.
  intros ps n Hps1 Hs Hdec Hal Hnd Hun Hdbg. assert (0 < ps) as Hps by lia.
  pose proof (decode_breq_ok batch Hdec) as Hok.
  assert (len (b_seq <$> batch) = len batch) as Hlb by (unfold len; by rewrite length_fmap).
  assert (sumZ extend_len batch = len batch) as Hext.
  { rewrite (sumZ_ext extend_len (fun _ => 1)), sumZ_const; [unfold len; lia|].
    intros b Hb. destruct (proj1 (Forall_forall _ _) Hdec b Hb). unfold extend_len. lia. }
  destruct (maybe_merge a (len (b_seq <$> batch)) Hs) as (a1 & Hm & Hperm & Hshort & _ & Hps' & Hd1).
  assert (n <= len batch) as Hbound.
  { rewrite <-Hext. apply sumZ_le. intros b Hb. destruct (proj1 (Forall_forall _ _) Hdec b Hb) as [Hb1 Hb2].
    unfold new_pages, extend_len.
    destruct (pages_of_spec ps Hps (b_pre b) ltac:(lia)) as [Hp _]. destruct (pages_of_spec ps Hps (b_seq b) ltac:(lia)) as [Hq _].
    assert (pages_of ps (b_seq b) < pages_of ps (b_pre b) + 2); [apply (Z.mul_lt_mono_pos_r ps); lia|lia]. }
  destruct (batch_allocated_intro a a1 ps batch Hps Hok Hal Hnd Hperm) as [Hout Hres].
  { fold n. intros Hlt. apply Hshort. lia. }
  fold n in Hout, Hres. set (out := extend_ref ps (free_pages a1) oob batch 0) in *.
  assert (0 <= n) as Hn0 by (apply sumZ_nonneg; intros y Hy; rewrite Forall_forall in Hok; by apply new_pages_nonneg, Hok).
  assert (Paged.alloc_decode oob lane_seq uninit (b_seq <$> batch) (b_last <$> batch) a =
    Paged.take_pages n out a1) as ->.
  { unfold Paged.alloc_decode. erewrite bind_ok by reflexivity. cbv beta zeta. change (id a) with a. fold ps.
    rewrite (debug_aligned_decode ps batch Hps Hdec Hal), andb_false_r. rewrite (bind_ok _ _ _ _ _ Hm). cbv beta.
    erewrite bind_ok by reflexivity. cbv beta. change (id a1) with a1. rewrite Hlb.
    destruct (decode_launch ps Hps (free_pages a1) oob lane_seq batch Hdec
      (next_power_of_2 (len batch)) (next_power_of_2_le _) (take (Z.to_nat (len batch)) uninit)) as [-> _].
    { unfold len in *. rewrite length_take. lia. }
    fold out. erewrite bind_ok; [reflexivity|]. unfold lift_res, get_num_new_pages.
    by rewrite (decode_num_pages ps Hps batch Hdec Hps1). }
  rewrite take_pages_run; [|intros Hd; apply Hout; specialize (Hdbg ltac:(by rewrite <-Hd1)); lia|done].
  case_decide; eauto.
Qed.
End paged.

(** A paged allocator of 16 pages with 4 slots, in debug mode. *)
Definition demo_paged : KvAllocator := Paged.init 64 4 false true.

Lemma paged_alloc_extend_spec_witness :
  let batch := [BReq 6 11 81; BReq 0 3 (-1); BReq 4 9 75] in
  exists r a',
    Paged.alloc_extend (fun _ => -7) (fun _ => 0) (fun _ => 0) (replicate 13 0) (b_pre <$> batch) (b_seq <$> batch)
      (b_last <$> batch) (sumZ extend_len batch) demo_paged = (Ok r, a') /\
    r = Some [82; 83; 4; 5; 6; 8; 9; 10; 12; 13; 14; 15; 16] /\
    batch_allocated (fun _ => -7) demo_paged 4 4 batch r a'.
Proof.
  intros batch.
  destruct (paged_alloc_extend_spec (fun _ => -7) (fun _ => 0) (fun _ => 0) demo_paged batch
    (replicate 13 0) ltac:(reflexivity) ltac:(intros _; reflexivity) ltac:(repeat constructor; cbn; lia)
    ltac:(repeat constructor) ltac:(apply (bool_decide_eq_true_1 (NoDup _)); vm_compute; reflexivity)
    ltac:(vm_compute; discriminate)
    ltac:(intros _; split; [vm_compute; discriminate|by apply masked_cancel_same])) as (r & a' & Hr & _ & Hb).
  exists r, a'. split; [exact Hr|]. split; [|apply Hb; by apply masked_cancel_same].
  apply (f_equal fst) in Hr. vm_compute in Hr. injection Hr as <-. reflexivity.
Defined.

Lemma paged_alloc_decode_spec_witness :
  let batch := [decode_req 9 79; decode_req 12 86; decode_req 5 103] in
  exists r a',
    Paged.alloc_decode (fun _ => -7) (fun _ => 0) (replicate 3 0) (b_seq <$> batch) (b_last <$> batch) demo_paged =
      (Ok r, a') /\
    r = Some [4; 87; 8] /\ batch_allocated (fun _ => -7) demo_paged 4 2 batch r a'.
Proof.
  intros batch.
  destruct (paged_alloc_decode_spec (fun _ => -7) (fun _ => 0) demo_paged batch
    (replicate 3 0) ltac:(reflexivity) ltac:(intros _; reflexivity) ltac:(repeat constructor; cbn; lia)
    ltac:(repeat constructor) ltac:(apply (bool_decide_eq_true_1 (NoDup _)); vm_compute; reflexivity)
    ltac:(vm_compute; discriminate) ltac:(intros _; vm_compute; discriminate)) as (r & a' & Hr & Hb).
  exists r, a'. split; [exact Hr|]. split; [|exact Hb].
  apply (f_equal fst) in Hr. vm_compute in Hr. injection Hr as <-. reflexivity.
Defined.

(** ** The ledger of slots

    The operations of [TokenToKVPoolAllocator] as a state machine over the
    allocator and the slots its clients hold.  Whatever the order of the
    operations, every slot from 1 to [size] is at any time in exactly one
    place. *)

(** What the allocator itself accounts for: free, waiting, or in the open
    group.  A closed group keeps its list until the next one begins. *)
Definition accounted (a : KvAllocator) : list Z :=
  free_pages a ++ release_pages a ++ (if is_not_in_free_group a then [] else concat (free_group a)).

(** One operation; the second component is what clients hold.  Clients free
    what they hold and do not nest groups. *)
Inductive token_step : KvAllocator * list Z -> KvAllocator * list Z -> Prop :=
  | step_alloc n a a' l out :
      Token.alloc n a = (Ok (Some l), a') -> token_step (a, out) (a', l ++ out)
  | step_alloc_fail n a a' out :
      Token.alloc n a = (Ok None, a') -> token_step (a, out) (a', out)
  | step_free l rest a a' out :
      out ≡ₚ l ++ rest -> Token.free l a = (Ok tt, a') -> token_step (a, out) (a', rest)
  | step_begin a a' out :
      is_not_in_free_group a = true -> free_group_begin a = (Ok tt, a') -> token_step (a, out) (a', out)
  | step_end a a' out :
      is_not_in_free_group a = false -> Token.free_group_end a = (Ok tt, a') -> token_step (a, out) (a', out).

Definition ledger (x : KvAllocator * list Z) : Prop :=
  accounted x.1 ++ x.2 ≡ₚ seqZ 1 (Z.of_nat (size_ x.1)) /\ sort_ok x.1.

(** [alloc]: the slots come from the front of the free list, after a merge if
    it is too short. *)
Lemma alloc_run n a :
  sort_ok a -> exists r a', Token.alloc n a = (Ok r, a') /\ sort_ok a' /\ size_ a' = size_ a /\
    is_not_in_free_group a' = is_not_in_free_group a /\ free_group a' = free_group a /\
    match r with
    | None => Token.available_size a < Z.of_nat n /\
        free_pages a' ++ release_pages a' ≡ₚ free_pages a ++ release_pages a
    | Some l => Z.of_nat n <= Token.available_size a /\ length l = n /\
        free_pages a ++ release_pages a ≡ₚ l ++ free_pages a' ++ release_pages a'
    end.
Proof.
  intros Hs. unfold Token.alloc, Token.available_size. erewrite bind_ok by reflexivity. cbv beta.
  assert (exists a1, (if need_sort a && bool_decide (length (free_pages a) < n)%nat then merge_and_sort_free else mret tt) a
      = (Ok tt, a1) /\ free_pages a1 ++ release_pages a1 ≡ₚ free_pages a ++ release_pages a /\
      ((length (free_pages a1) < n)%nat -> release_pages a1 = []) /\ sort_ok a1 /\ size_ a1 = size_ a /\
      is_not_in_free_group a1 = is_not_in_free_group a /\ free_group a1 = free_group a) as
    (a1 & Hm & Hperm & Hshort & Hs1 & Hsz & Hg1 & Hg2).
  { destruct (need_sort a) eqn:En; simpl; [case_bool_decide as Hlt|].
    - destruct (merge_run a) as (a1 & -> & Hp & Hr & _ & _ & _ & ? & ? & ?). exists a1. rewrite Hr, app_nil_r.
      split_and!; try done; by intros _.
    - exists a. split_and!; try done.
    - exists a. split_and!; try done. intros _. by apply Hs. }
  rewrite (bind_ok _ _ _ _ _ Hm). cbv beta. erewrite bind_ok by reflexivity. cbv beta. change (id a1) with a1.
  pose proof (Permutation_length Hperm) as Hl. rewrite !length_app in Hl. unfold len.
  destruct (decide (length (free_pages a1) < n)%nat) as [Hlt|Hlt].
  - exists None, a1. rewrite (Hshort Hlt) in Hl. simpl in Hl. split_and!; try done. lia.
  - eexists (Some _), _. split; [reflexivity|]. split_and!; try done.
    + lia.
    + rewrite length_take. lia.
    + simpl. by rewrite app_assoc, take_drop.
Qed.

Lemma free_run l a :
  sort_ok a -> exists a', Token.free l a = (Ok tt, a') /\ sort_ok a' /\ size_ a' = size_ a /\
    is_not_in_free_group a' = is_not_in_free_group a /\ accounted a' ≡ₚ accounted a ++ l /\
    (is_not_in_free_group a = true -> Token.available_size a' = Token.available_size a + len l).
Proof.
  intros Hs. unfold Token.free, accounted, Token.available_size. case_decide as Hl.
  { exists a. rewrite Hl, app_nil_r. split_and!; try done. unfold len. simpl. lia. }
  destruct (is_not_in_free_group a) eqn:Eg; [destruct (need_sort a) eqn:En|].
  - eexists. split; [done|]. simpl. rewrite Eg. split_and!; try done.
    + unfold sort_ok. simpl. congruence.
    + solve_Permutation.
    + rewrite len_app. lia.
  - eexists. split; [done|]. simpl. rewrite Eg. split_and!; try done.
    + solve_Permutation.
    + rewrite len_app. lia.
  - eexists. split; [done|]. simpl. split_and!; try done. rewrite concat_app. simpl. rewrite app_nil_r. solve_Permutation.
Qed.

Lemma token_step_ledger x y : token_step x y -> ledger x -> ledger y /\ size_ y.1 = size_ x.1.
Proof.
  intros Hstep [Hled Hs]. unfold ledger in *. destruct Hstep as [n a a' l out Ha|n a a' out Ha|l rest a a' out Hp Hf|a a' out Hg Hb|a a' out Hg He];
    simpl in *.
  - destruct (alloc_run n a Hs) as (r & a1 & Hr & Hs1 & Hsz & Hg1 & Hg2 & Hres). rewrite Ha in Hr. injection Hr as <- <-.
    destruct Hres as (_ & _ & Hperm). rewrite Hsz. split_and!; [|done|done]. rewrite <-Hled. unfold accounted.
    rewrite Hg1, Hg2, !(app_assoc (free_pages _)), Hperm. solve_Permutation.
  - destruct (alloc_run n a Hs) as (r & a1 & Hr & Hs1 & Hsz & Hg1 & Hg2 & Hres). rewrite Ha in Hr. injection Hr as <- <-.
    destruct Hres as (_ & Hperm). rewrite Hsz. split_and!; [|done|done]. rewrite <-Hled. unfold accounted.
    by rewrite Hg1, Hg2, !(app_assoc (free_pages _)), Hperm.
  - destruct (free_run l a Hs) as (a1 & Hr & Hs1 & Hsz & Hg1 & Hacc & _). rewrite Hf in Hr. injection Hr as <-.
    rewrite Hsz. split_and!; [|done|done]. rewrite <-Hled, Hacc, Hp. solve_Permutation.
  - unfold free_group_begin in Hb. injection Hb as <-. simpl. split_and!; [|done|done]. rewrite <-Hled.
    unfold accounted. simpl. by rewrite Hg.
  - unfold Token.free_group_end in He. erewrite bind_ok in He by reflexivity. cbv beta in He. change (id a) with a in He.
    erewrite bind_ok in He by reflexivity. cbv beta in He.
    set (a0 := set_group true (free_group a) a) in *. assert (sort_ok a0) as Hs0 by exact Hs.
    assert (accounted a0 ++ concat (free_group a) ≡ₚ accounted a) as Hacc
      by (unfold accounted, a0; simpl; rewrite Hg; solve_Permutation).
    case_decide as Hn.
    + injection He as <-. split_and!; [|done|done]. change (size_ a0) with (size_ a).
      rewrite <-Hled, <-Hacc, Hn. simpl. by rewrite app_nil_r.
    + destruct (free_run (concat (free_group a)) a0 Hs0) as (a1 & Hr & Hs1 & Hsz & _ & Hacc1 & _).
      rewrite He in Hr. injection Hr as <-. rewrite Hsz. change (size_ a0) with (size_ a).
      split_and!; [|done|done]. by rewrite <-Hled, Hacc1, Hacc.
Qed.

(** C32: the token allocator never loses, duplicates or invents a slot: after
    any sequence of allocations, frees and free groups in which clients free
    only what they hold and do not nest groups, the slots that are free, wait
    to be merged, are in the open group or are held by clients are exactly the
    slots 1 to [size], each once; so nothing is handed out twice and the
    padding slot 0 never. *)
Theorem token_ledger size sort a out :
  rtc token_step (Token.init size sort, []) (a, out) ->
  accounted a ++ out ≡ₚ seqZ 1 (Z.of_nat size) /\ NoDup out /\ 0 ∉ out /\
  forall i, i ∈ out -> i ∉ free_pages a /\ i ∉ release_pages a.
Proof.
  intros Hrun. assert (ledger (a, out) /\ size_ (a, out).1 = size) as [[Hled _] Hsz].
  { remember (Token.init size sort, []) as x eqn:Ex. remember (a, out) as y eqn:Ey. clear a out Ey.
    assert (ledger x /\ size_ x.1 = size) as H0.
    { rewrite Ex. unfold ledger, accounted. simpl. split; [|done]. split; [|done]. by rewrite !app_nil_r. }
    clear Ex. induction Hrun as [x|x y z Hstep _ IH]; [done|]. destruct H0 as [Hl Hs].
    destruct (token_step_ledger x y Hstep Hl) as [Hl' Hs']. apply IH. split; [done|congruence]. }
  simpl in *. rewrite Hsz in Hled. split; [done|].
  assert (NoDup (accounted a ++ out)) as Hnd by (rewrite Hled; apply NoDup_seqZ).
  apply NoDup_app in Hnd as (_ & Hdis & Hnd). split; [done|]. split.
  - intros H0. assert (0 ∈ seqZ 1 (Z.of_nat size)) as Hin by (rewrite <-Hled; apply elem_of_app; by right).
    apply elem_of_seqZ in Hin. lia.
  - intros i Hi. unfold accounted in Hdis. split; intros Hin; apply (Hdis i); set_solver.
Qed.

Lemma token_ledger_witness : exists a,
  rtc token_step (Token.init 3 true, []) (a, [2]) /\ NoDup [2] /\ 0 ∉ [2] /\ accounted a ++ [2] ≡ₚ seqZ 1 (Z.of_nat 3).
Proof.
  eexists. assert (forall a out, rtc token_step (Token.init 3 true, []) (a, out) ->
    NoDup out /\ 0 ∉ out /\ accounted a ++ out ≡ₚ seqZ 1 (Z.of_nat 3)) as Hth.
  { intros a out Hr. destruct (token_ledger 3 true a out Hr) as (H1 & H2 & H3 & _). done. }
  assert (rtc token_step (Token.init 3 true, []) ((set_pages [3] [1] (Token.init 3 true)), [2])) as Hrun.
  { eapply rtc_l; [apply (step_alloc 2 _ (set_pages [3] [] (Token.init 3 true)) [1; 2]); vm_compute; reflexivity|].
    eapply rtc_l; [apply (step_free [1] [2] _ (set_pages [3] [1] (Token.init 3 true)));
      [reflexivity|vm_compute; reflexivity]|]. apply rtc_refl. }
  split; [exact Hrun|]. exact (Hth _ _ Hrun).
Defined.
