(* ===== verification/RadixKey.v ===== *)
(** * Keys of the prefix cache

    [RadixKey] of mem_cache/radix_cache.py: a token sequence with a name space
    ([extra_key]) that is read either token by token or, for EAGLE, as the
    overlapping pairs of neighbouring tokens.  The cache compares, cuts and
    indexes keys in pages of [page_size] units.

    The reference view of a key is the list of its pages ([pages]), each page
    the symbol under which the tree files a child.  The lemmas say what every
    operation does to that list; in particular [match_] computes the length
    of the longest common prefix of the two page lists. *)

From S2P Require Import Prelude.

(** ** The class *)

Record RadixKey := MkKey {
  token_ids : list Z;
  extra_key : option string;
  is_bigram : bool
}.

#[global] Instance RadixKey_eq_dec : EqDecision RadixKey.
Proof. solve_decision. Defined.

(** What iteration over a key yields: a token or a pair of tokens. *)
Inductive kunit :=
  | Tok (t : Z)
  | Pair (a b : Z).

#[global] Instance kunit_eq_dec : EqDecision kunit.
Proof. solve_decision. Defined.

(** [__len__] *)
Definition key_len (k : RadixKey) : nat :=
  if is_bigram k then pred (length (token_ids k)) else length (token_ids k).

Fixpoint bigrams (t : list Z) : list kunit :=
  match t with
  | a :: (b :: _) as t' => Pair a b :: bigrams t'
  | _ => []
  end.

(** [__iter__] *)
Definition units (k : RadixKey) : list kunit :=
  if is_bigram k then bigrams (token_ids k) else Tok <$> token_ids k.

(** [self[start:stop]] for bounds already clamped to [0, len(self)] *)
Definition key_slice (k : RadixKey) (start stop : nat) : RadixKey :=
  if is_bigram k then
    MkKey (if decide (start < stop)%nat
           then take (S stop - start) (drop start (token_ids k)) else [])
      (extra_key k) true
  else MkKey (take (stop - start) (drop start (token_ids k))) (extra_key k) false.

(** Subscripts: an integer, or a slice with optional bounds and step. *)
Inductive subscript :=
  | At (i : Z)
  | Slice (start stop step : option Z).

(** [slice.indices]: one bound of a slice of step 1 over [n] items *)
Definition slice_bound (n : nat) (dflt : nat) (o : option Z) : nat :=
  match o with
  | None => dflt
  | Some i => Z.to_nat (if decide (i < 0) then Z.max 0 (i + Z.of_nat n) else Z.min i (Z.of_nat n))
  end.

(** [__getitem__] *)
Definition key_getitem (k : RadixKey) (ix : subscript) : res RadixKey :=
  match ix with
  | At i =>
      let i' := if decide (i < 0) then i + Z.of_nat (key_len k) else i in
      if decide (i' < 0 \/ Z.of_nat (key_len k) <= i')
      then Raise (Exn IndexError ("RadixKey index out of range: " +:+ pretty i'))
      else Ok (key_slice k (Z.to_nat i') (Z.to_nat i' + 1))
  | Slice start stop step =>
      if decide (step = None \/ step = Some 1)
      then Ok (key_slice k (slice_bound (key_len k) 0 start)
                           (slice_bound (key_len k) (key_len k) stop))
      else Raise (Exn ValueError "RadixKey slice step must be 1")
  end.

(** [self[:n]] and [self[n:]] for [n >= 0] *)
Definition key_take (n : nat) (k : RadixKey) : RadixKey := key_slice k 0 (n `min` key_len k).
Definition key_drop (n : nat) (k : RadixKey) : RadixKey :=
  key_slice k (n `min` key_len k) (key_len k).

Definition page_aligned (page_size : nat) (k : RadixKey) : RadixKey :=
  if decide (page_size = 1%nat) then k
  else key_take (key_len k / page_size * page_size) k.

(** [maybe_to_bigram_view]: the key it returns is the same object with its
    flag flipped; a value is cut to the number of bigrams. *)
Definition maybe_to_bigram_view (is_eagle : bool) (k : RadixKey) (value : option (list Z)) :
    RadixKey * option (list Z) :=
  if is_eagle && negb (is_bigram k) then
    let k' := MkKey (token_ids k) (extra_key k) true in
    (k', take (key_len k') <$> value)
  else (k, value).

(** The length of the longest common prefix: the [zip] loops of [match]. *)
Fixpoint lcp {A} `{EqDecision A} (l1 l2 : list A) : nat :=
  match l1, l2 with
  | a :: l1', b :: l2' => if decide (a = b) then S (lcp l1' l2') else O
  | _, _ => O
  end.

(** The page loop of [match]; [fuel] bounds the iterations. *)
Fixpoint match_pages (fuel page_size min_len i : nat) (t0 t1 : list Z) : nat :=
  match fuel with
  | O => i
  | S fuel' =>
      if decide (i < min_len)%nat then
        if decide (take page_size (drop i t0) = take page_size (drop i t1))
        then match_pages fuel' page_size min_len (i + page_size) t0 t1
        else i
      else i
  end.

(** [match] *)
Definition match_ (self other : RadixKey) (page_size : nat) : res nat :=
  if decide (extra_key self = extra_key other) then
    let t0 := token_ids self in
    let t1 := token_ids other in
    if is_bigram self then
      let matched := (pred (lcp t0 t1) `min` key_len self `min` key_len other)%nat in
      Ok (if decide (1 < page_size)%nat then matched / page_size * page_size else matched)%nat
    else if decide (page_size = 1%nat) then Ok (lcp t0 t1)
    else
      let min_len := (key_len self `min` key_len other)%nat in
      Ok (match_pages min_len page_size min_len 0 t0 t1)
  else Raise (Exn ValueError "RadixKey operations require matching extra_key").

(** The dictionary key of a child: the first page, in its name space.  For
    [page_size = 1] Python uses the unit itself instead of a tuple. *)
Inductive plain_key :=
  | One (u : kunit)
  | Tuple (l : list kunit).

Record child_key_t := CKey { ck_extra : option string; ck_plain : plain_key }.

#[global] Instance plain_key_eq_dec : EqDecision plain_key.
Proof. solve_decision. Defined.
#[global] Instance child_key_t_eq_dec : EqDecision child_key_t.
Proof. solve_decision. Defined.

Definition index_error {A} : res A := Raise (Exn IndexError "list index out of range").

(** [child_key] *)
Definition child_key (page_size : nat) (k : RadixKey) : res child_key_t :=
  let t := token_ids k in
  if is_bigram k then
    if decide (page_size = 1%nat) then
      match t with
      | a :: b :: _ => Ok (CKey (extra_key k) (One (Pair a b)))
      | _ => index_error
      end
    else if decide (page_size < length t)%nat
      then Ok (CKey (extra_key k) (Tuple (take page_size (bigrams t))))
      else index_error
  else if decide (page_size = 1%nat) then
    match t with
    | a :: _ => Ok (CKey (extra_key k) (One (Tok a)))
    | [] => index_error
    end
  else Ok (CKey (extra_key k) (Tuple (Tok <$> take page_size t))).

(** ** Longest common prefixes *)

Section lcp.
Context {A : Type} `{EqDecision A}.
Implicit Types l : list A.

Lemma lcp_le_l l1 l2 : (lcp l1 l2 ≤ length l1)%nat.
Proof.
  revert l2. induction l1 as [|a l1 IH]; intros [|b l2]; simpl; try lia.
  case_decide; [|lia]. specialize (IH l2). lia.
Qed.

Lemma lcp_le_r l1 l2 : (lcp l1 l2 ≤ length l2)%nat.
Proof.
  revert l2. induction l1 as [|a l1 IH]; intros [|b l2]; simpl; try lia.
  case_decide; [|lia]. specialize (IH l2). lia.
Qed.

Lemma lcp_nil_r l : lcp l [] = O.
Proof. by destruct l. Qed.

Lemma lcp_refl l : lcp l l = length l.
Proof. induction l as [|a l IH]; simpl; [done|]. rewrite decide_True by done. by rewrite IH. Qed.

Lemma lcp_comm l1 l2 : lcp l1 l2 = lcp l2 l1.
Proof.
  revert l2. induction l1 as [|a l1 IH]; intros [|b l2]; simpl; try done.
  repeat case_decide; congruence.
Qed.

(** The two lists agree on the common prefix. *)
Lemma lcp_take l1 l2 n : (n ≤ lcp l1 l2)%nat -> take n l1 = take n l2.
Proof.
  revert l2 n. induction l1 as [|a l1 IH]; intros [|b l2] [|n] Hn; simpl in *; try done; try lia.
  case_decide; [|lia]. subst. f_equal. apply IH. lia.
Qed.

Lemma lcp_take_ne l1 l2 n : take n l1 ≠ take n l2 -> (lcp l1 l2 < n)%nat.
Proof.
  intros Hne. destruct (decide (lcp l1 l2 < n)%nat) as [|Hge]; [done|].
  destruct Hne. apply lcp_take. lia.
Qed.

(** A common prefix can be stepped over. *)
Lemma lcp_skip l1 l2 n :
  take n l1 = take n l2 -> (n ≤ length l1)%nat -> (n ≤ length l2)%nat ->
  lcp l1 l2 = (n + lcp (drop n l1) (drop n l2))%nat.
Proof.
  revert l1 l2. induction n as [|n IH]; intros l1 l2 Ht H1 H2; [by rewrite !drop_0|].
  destruct l1 as [|a l1], l2 as [|b l2]; simpl in *; try lia. injection Ht as -> Ht.
  rewrite decide_True by done. rewrite (IH l1 l2 Ht); lia.
Qed.

Lemma lcp_app_l l1 l1' l2 :
  lcp (l1 ++ l1') l2 =
  if decide (lcp l1 l2 < length l1)%nat then lcp l1 l2
  else (length l1 + lcp l1' (drop (length l1) l2))%nat.
Proof.
  revert l2. induction l1 as [|a l1 IH]; intros l2; [by rewrite drop_0|].
  destruct l2 as [|b l2]; cbn [lcp app length drop]; [case_decide; lia|].
  case_decide; [|case_decide; lia]. rewrite IH. repeat case_decide; lia.
Qed.

Lemma lcp_prefix l1 l2 : l1 `prefix_of` l2 -> lcp l1 l2 = length l1.
Proof.
  intros [k ->]. rewrite lcp_comm, lcp_app_l, lcp_refl, decide_False by lia. rewrite drop_all, lcp_nil_r. lia.
Qed.

Lemma lcp_ge_prefix l1 l2 n :
  take n l1 = take n l2 -> (n ≤ length l1)%nat -> (n ≤ length l2)%nat -> (n ≤ lcp l1 l2)%nat.
Proof. intros Ht H1 H2. rewrite (lcp_skip l1 l2 n) by done. lia. Qed.

Lemma lcp_full l1 l2 : lcp l1 l2 = length l1 -> l1 `prefix_of` l2.
Proof.
  intros H. exists (drop (length l1) l2). rewrite <-(take_drop (length l1) l2) at 1. f_equal.
  rewrite <-(lcp_take l1 l2) by lia. by rewrite firstn_all.
Qed.

(** The lists differ right after their common prefix. *)
Lemma lcp_differ l1 l2 a b :
  head (drop (lcp l1 l2) l1) = Some a -> head (drop (lcp l1 l2) l2) = Some b -> a ≠ b.
Proof.
  revert l2. induction l1 as [|x l1 IH]; intros [|y l2]; simpl; try done.
  case_decide; simpl; [by apply IH|]. intros [= <-] [= <-]. done.
Qed.
End lcp.

Lemma lcp_fmap {A B} `{EqDecision A, EqDecision B} (f : A -> B) `{!Inj (=) (=) f} (l1 l2 : list A) :
  lcp (f <$> l1) (f <$> l2) = lcp l1 l2.
Proof.
  revert l2. induction l1 as [|a l1 IH]; intros [|b l2]; simpl; try done.
  destruct (decide (a = b)) as [->|Hne]; [by rewrite decide_True, IH|].
  rewrite decide_False; [done|]. intros E. by apply (inj f) in E.
Qed.

(** ** Pages *)

(** The first [n] pages of [l]. *)
Fixpoint chunks {A} (ps n : nat) (l : list A) : list (list A) :=
  match n with
  | O => []
  | S n' => take ps l :: chunks ps n' (drop ps l)
  end.

Section chunks.
Context {A : Type} `{EqDecision A} (ps : nat).
Implicit Types l : list A.

Lemma chunks_length n l : length (chunks ps n l) = n.
Proof. revert l. induction n as [|n IH]; intros l; simpl; [done|]. by rewrite IH. Qed.

Lemma chunks_take m n l : (m ≤ n)%nat -> take m (chunks ps n l) = chunks ps m l.
Proof.
  revert n l. induction m as [|m IH]; intros n l Hm; [done|]. destruct n as [|n]; [lia|].
  simpl. by rewrite IH by lia.
Qed.

Lemma chunks_drop m n l : drop m (chunks ps n l) = chunks ps (n - m) (drop (m * ps) l).
Proof.
  revert n l. induction m as [|m IH]; intros n l; [by rewrite !drop_0, Nat.sub_0_r|].
  destruct n as [|n]; [done|]. simpl. rewrite IH, drop_drop. by f_equal.
Qed.

Lemma chunks_of_take n m l : (n * ps ≤ m)%nat -> chunks ps n (take m l) = chunks ps n l.
Proof.
  revert m l. induction n as [|n IH]; intros m l Hm; [done|]. simpl. f_equal.
  - rewrite take_take. f_equal. lia.
  - replace m with (ps + (m - ps))%nat by lia. rewrite <-take_drop_commute. apply IH. lia.
Qed.

Lemma chunks_Forall n l : (n * ps ≤ length l)%nat -> Forall (fun c => length c = ps) (chunks ps n l).
Proof.
  revert l. induction n as [|n IH]; intros l Hn; [constructor|]. simpl. constructor.
  - rewrite length_take. lia.
  - apply IH. rewrite length_drop. lia.
Qed.

(** Comparing page by page finds the common prefix rounded down to pages. *)
Lemma lcp_chunks l1 l2 : (0 < ps)%nat ->
  lcp (chunks ps (length l1 / ps) l1) (chunks ps (length l2 / ps) l2) = (lcp l1 l2 / ps)%nat.
Proof.
  intros Hps. remember (length l1 / ps)%nat as n eqn:En. revert l1 l2 En.
  induction n as [|n IH]; intros l1 l2 En.
  { simpl. symmetry. apply Nat.div_small. pose proof (lcp_le_l l1 l2).
    symmetry in En. apply Nat.div_small_iff in En; lia. }
  assert (ps ≤ length l1)%nat as H1.
  { destruct (decide (ps ≤ length l1)%nat) as [|H]; [done|].
    rewrite Nat.div_small in En; lia. }
  destruct (length l2 / ps)%nat as [|m] eqn:Em.
  { simpl. symmetry. apply Nat.div_small. pose proof (lcp_le_r l1 l2).
    apply Nat.div_small_iff in Em; lia. }
  assert (ps ≤ length l2)%nat as H2.
  { destruct (decide (ps ≤ length l2)%nat) as [|H]; [done|].
    rewrite Nat.div_small in Em; lia. }
  assert (forall x, (ps + x) / ps = S (x / ps))%nat as Hadd.
  { intros x. replace (ps + x)%nat with (1 * ps + x)%nat by lia. rewrite Nat.div_add_l; lia. }
  assert (forall k x, S x = (k / ps)%nat -> (ps ≤ k)%nat -> x = ((k - ps) / ps)%nat) as Hdiv.
  { intros k x Hx Hk. replace k with (ps + (k - ps))%nat in Hx by lia. rewrite Hadd in Hx. lia. }
  simpl. case_decide as Ht.
  - rewrite (Hdiv (length l2) m) by done. rewrite <-length_drop.
    rewrite IH by (rewrite length_drop; by apply Hdiv).
    by rewrite (lcp_skip l1 l2 ps), Hadd by done.
  - symmetry. apply Nat.div_small. by apply lcp_take_ne.
Qed.
End chunks.

(** ** The units of a key *)

Lemma bigrams_length t : length (bigrams t) = pred (length t).
Proof. induction t as [|a [|b t] IH]; simpl in *; lia. Qed.

Lemma units_length k : length (units k) = key_len k.
Proof.
  unfold units, key_len. destruct (is_bigram k); [apply bigrams_length|by rewrite length_fmap].
Qed.

Lemma bigrams_drop n t : bigrams (drop n t) = drop n (bigrams t).
Proof.
  revert t. induction n as [|n IH]; intros t; [by rewrite !drop_0|].
  destruct t as [|a [|b t]]; [done|simpl; by rewrite !drop_nil|]. apply (IH (b :: t)).
Qed.

Lemma bigrams_take n t : bigrams (take (S n) t) = take n (bigrams t).
Proof.
  revert t. induction n as [|n IH]; intros [|a [|b t]]; try done.
  change (Pair a b :: bigrams (take (S n) (b :: t)) = Pair a b :: take n (bigrams (b :: t))).
  by rewrite IH.
Qed.

(** A slice has the units in its range. *)
Lemma units_slice k a b :
  (a ≤ b)%nat -> (b ≤ key_len k)%nat -> units (key_slice k a b) = take (b - a) (drop a (units k)).
Proof.
  intros Hab Hb. unfold units, key_slice. destruct (is_bigram k) eqn:E; simpl.
  - case_decide as Hlt.
    + rewrite Nat.sub_succ_l by lia. by rewrite bigrams_take, bigrams_drop.
    + replace (b - a)%nat with O by lia. done.
  - by rewrite fmap_take, fmap_drop.
Qed.

Lemma key_slice_len k a b :
  (a ≤ b)%nat -> (b ≤ key_len k)%nat -> key_len (key_slice k a b) = (b - a)%nat.
Proof.
  intros Hab Hb. rewrite <-!units_length, units_slice, length_take, length_drop, units_length; lia.
Qed.

Lemma key_slice_extra k a b : extra_key (key_slice k a b) = extra_key k.
Proof. unfold key_slice. by destruct (is_bigram k). Qed.

Lemma key_slice_bigram k a b : is_bigram (key_slice k a b) = is_bigram k.
Proof. unfold key_slice. by destruct (is_bigram k) eqn:E. Qed.

(** The subscripts the cache uses. *)
Lemma key_getitem_from k n :
  key_getitem k (Slice (Some (Z.of_nat n)) None None) = Ok (key_drop n k).
Proof.
  unfold key_getitem, key_drop. rewrite decide_True by auto. simpl. do 2 f_equal.
  rewrite decide_False by lia. lia.
Qed.

Lemma key_getitem_upto k n :
  key_getitem k (Slice None (Some (Z.of_nat n)) None) = Ok (key_take n k).
Proof.
  unfold key_getitem, key_take. rewrite decide_True by auto. simpl. do 2 f_equal.
  rewrite decide_False by lia. lia.
Qed.

Lemma key_take_len n k : key_len (key_take n k) = (n `min` key_len k)%nat.
Proof. unfold key_take. rewrite key_slice_len; lia. Qed.

Lemma key_drop_len n k : key_len (key_drop n k) = (key_len k - n)%nat.
Proof. unfold key_drop. rewrite key_slice_len; lia. Qed.

(** The tokens of a suffix; an empty bigram suffix keeps no boundary token. *)
Lemma key_drop_eq n k :
  key_drop n k = MkKey (if decide (is_bigram k = true /\ (key_len k ≤ n)%nat) then []
                        else drop n (token_ids k)) (extra_key k) (is_bigram k).
Proof.
  unfold key_drop, key_slice, key_len. destruct (is_bigram k); simpl; f_equal.
  - repeat case_decide; try lia; try done; [|naive_solver lia..].
    rewrite Nat.min_l by lia. rewrite take_ge; [done|]. rewrite length_drop. lia.
  - destruct (decide (n ≤ length (token_ids k))%nat).
    + rewrite Nat.min_l, take_ge by (rewrite ?length_drop; lia). done.
    + rewrite Nat.min_r, drop_all by lia. rewrite (drop_ge _ n) by lia. by rewrite take_nil.
Qed.

Lemma key_drop_0 k : key_len k ≠ O \/ is_bigram k = false -> key_drop 0 k = k.
Proof.
  intros Hk. rewrite key_drop_eq. destruct k as [t e b]; simpl in *. rewrite decide_False, drop_0; [done|].
  naive_solver lia.
Qed.

Lemma key_drop_drop a b k : key_drop b (key_drop a k) = key_drop (a + b) k.
Proof.
  pose proof (key_drop_len a k) as Hlen. rewrite !key_drop_eq in *. simpl in *. rewrite Hlen. f_equal.
  destruct (is_bigram k) eqn:Eb; repeat case_decide; try done; try (exfalso; naive_solver lia);
    by rewrite ?drop_nil, ?drop_drop.
Qed.

(** ** The pages of a key *)

Section pages.
Context (page_size : nat).

(** The tuple, or for pages of one unit the unit, that Python hashes. *)
Definition mk_plain (u : list kunit) : plain_key :=
  if decide (page_size = 1%nat) then match u with [x] => One x | _ => Tuple u end else Tuple u.

Definition pages (k : RadixKey) : list child_key_t :=
  (fun u => CKey (extra_key k) (mk_plain u)) <$> chunks page_size (key_len k / page_size) (units k).

(** Keys in the tree are whole pages. *)
Definition aligned (k : RadixKey) : Prop := exists n, key_len k = (n * page_size)%nat.

Hypothesis page_pos : (0 < page_size)%nat.

#[local] Instance mk_plain_inj : Inj (=) (=) mk_plain.
Proof.
  intros u1 u2. unfold mk_plain. case_decide; [|congruence].
  destruct u1 as [|x [|y u1]], u2 as [|x' [|y' u2]]; congruence.
Qed.

#[local] Instance ckey_inj e : Inj (=) (=) (fun u => CKey e (mk_plain u)).
Proof. intros u1 u2 [= H]. by apply (inj mk_plain) in H. Qed.

Lemma pages_length k : length (pages k) = (key_len k / page_size)%nat.
Proof. unfold pages. by rewrite length_fmap, chunks_length. Qed.

Lemma aligned_len k : aligned k <-> key_len k = (length (pages k) * page_size)%nat.
Proof.
  rewrite pages_length. split; [|by eexists]. intros [n Hn]. rewrite Hn, Nat.div_mul; lia.
Qed.

Lemma pages_nil k : aligned k -> pages k = [] <-> key_len k = O.
Proof.
  intros Ha%aligned_len. rewrite <-length_zero_iff_nil. nia.
Qed.

(** Cutting a key at a page boundary cuts its page list. *)
Lemma pages_take n k : pages (key_take (n * page_size) k) = take n (pages k).
Proof.
  unfold pages. rewrite key_take_len. unfold key_take at 1. rewrite key_slice_extra, <-fmap_take.
  f_equal. unfold key_take. rewrite units_slice, Nat.sub_0_r, drop_0 by lia.
  destruct (decide (n * page_size ≤ key_len k)%nat) as [Hle|Hgt].
  - assert (n ≤ key_len k / page_size)%nat by (apply Nat.div_le_lower_bound; lia).
    by rewrite Nat.min_l, Nat.div_mul, chunks_of_take, chunks_take by lia.
  - rewrite Nat.min_r by lia. rewrite <-units_length, firstn_all, units_length.
    rewrite take_ge; [done|]. rewrite chunks_length. apply Nat.Div0.div_le_upper_bound. lia.
Qed.

Lemma pages_drop n k : pages (key_drop (n * page_size) k) = drop n (pages k).
Proof.
  unfold pages. rewrite key_drop_len. unfold key_drop at 1. rewrite key_slice_extra, <-fmap_drop.
  f_equal. rewrite chunks_drop. unfold key_drop. rewrite units_slice by lia.
  assert ((key_len k - n * page_size) / page_size = key_len k / page_size - n)%nat as E.
  { destruct (decide (n * page_size ≤ key_len k)%nat) as [Hle|Hgt].
    - replace (key_len k) with (n * page_size + (key_len k - n * page_size))%nat at 2 by lia.
      rewrite Nat.div_add_l by lia. lia.
    - rewrite Nat.div_small by lia. symmetry. apply Nat.sub_0_le.
      apply Nat.Div0.div_le_upper_bound. lia. }
  rewrite E. destruct (decide (n * page_size ≤ key_len k)%nat) as [Hle|Hgt].
  - rewrite Nat.min_l by lia. apply chunks_of_take. rewrite <-E.
    rewrite Nat.mul_comm. etrans; [apply Nat.Div0.mul_div_le|]. lia.
  - rewrite Nat.div_small in E by lia. by rewrite <-E.
Qed.

Lemma aligned_take n k : aligned k -> aligned (key_take (n * page_size) k).
Proof.
  intros [m Hm]. exists (n `min` m)%nat. rewrite key_take_len, Hm. nia.
Qed.

Lemma aligned_drop n k : aligned k -> aligned (key_drop (n * page_size) k).
Proof. intros [m Hm]. exists (m - n)%nat. rewrite key_drop_len, Hm. nia. Qed.

(** [page_aligned] drops the incomplete last page and nothing else. *)
Lemma page_aligned_spec k :
  aligned (page_aligned page_size k) /\ pages (page_aligned page_size k) = pages k /\
  key_len (page_aligned page_size k) = (key_len k / page_size * page_size)%nat.
Proof.
  unfold page_aligned. case_decide as Hp.
  - rewrite Hp, Nat.div_1_r, Nat.mul_1_r. split_and!; [|done..]. exists (key_len k). lia.
  - assert (key_len k / page_size * page_size ≤ key_len k)%nat.
    { rewrite Nat.mul_comm. apply Nat.Div0.mul_div_le. }
    rewrite pages_take, key_take_len, Nat.min_l by done. split_and!; [|by rewrite firstn_all2; rewrite ?pages_length|done].
    exists (key_len k / page_size)%nat. rewrite key_take_len. lia.
Qed.

(** [child_key] is the first page. *)
Lemma child_key_page k :
  (page_size ≤ key_len k)%nat ->
  exists c, child_key page_size k = Ok c /\ head (pages k) = Some c.
Proof.
  intros Hk. unfold pages.
  assert (0 < key_len k / page_size)%nat as Hd by (apply Nat.div_str_pos; lia).
  destruct (key_len k / page_size)%nat as [|n] eqn:En; [lia|]. simpl. eexists. split; [|done].
  unfold child_key, units, key_len, mk_plain in *. destruct (is_bigram k); case_decide as Hp.
  - destruct (token_ids k) as [|a [|b t]]; simpl in *; try lia. subst. done.
  - rewrite decide_True; [done|]. lia.
  - destruct (token_ids k) as [|a t]; simpl in *; try lia. subst. done.
  - by rewrite fmap_take.
Qed.

Lemma pages_head_unit k c :
  aligned k -> head (pages k) = Some c -> (page_size ≤ key_len k)%nat.
Proof.
  intros Ha%aligned_len Hh. destruct (pages k); [done|]. simpl in Ha. nia.
Qed.

(** Keys with the same first page are in one name space and of one kind. *)
Lemma pages_head_compat k1 k2 c :
  (page_size ≤ key_len k1)%nat -> (page_size ≤ key_len k2)%nat ->
  head (pages k1) = Some c -> head (pages k2) = Some c ->
  extra_key k1 = extra_key k2 /\ is_bigram k1 = is_bigram k2.
Proof.
  intros H1 H2 Hh1 Hh2. unfold pages in *.
  assert (0 < key_len k1 / page_size)%nat as Hd1 by (apply Nat.div_str_pos; lia).
  assert (0 < key_len k2 / page_size)%nat as Hd2 by (apply Nat.div_str_pos; lia).
  destruct (key_len k1 / page_size)%nat as [|n1]; [lia|].
  destruct (key_len k2 / page_size)%nat as [|n2]; [lia|]. simpl in *.
  rewrite <-Hh1 in Hh2. injection Hh2 as He Hp. apply (inj mk_plain) in Hp. split; [done|].
  rewrite <-!units_length in *. clear -page_pos H1 H2 Hp. unfold units in *.
  destruct page_size as [|m]; [lia|]. destruct (is_bigram k1), (is_bigram k2); try done.
  - destruct (token_ids k1) as [|a [|b t]], (token_ids k2) as [|a' t']; simpl in *; try lia; done.
  - destruct (token_ids k1) as [|a t], (token_ids k2) as [|a' [|b' t']]; simpl in *; try lia; done.
Qed.

(** ** Matching *)

Lemma lcp_pages k1 k2 :
  extra_key k1 = extra_key k2 ->
  lcp (pages k1) (pages k2) = (lcp (units k1) (units k2) / page_size)%nat.
Proof.
  intros He. unfold pages. rewrite He, lcp_fmap, <-!units_length by apply _.
  by apply lcp_chunks.
Qed.

Lemma lcp_bigrams t0 t1 : lcp (bigrams t0) (bigrams t1) = pred (lcp t0 t1).
Proof.
  revert t1. induction t0 as [|a [|b t0] IH]; intros [|a' t1]; try done.
  - simpl. by case_decide.
  - destruct t1 as [|b' t1]; [simpl; by repeat case_decide|].
    change (lcp (bigrams (a :: b :: t0)) (bigrams (a' :: b' :: t1))) with
      (if decide (Pair a b = Pair a' b') then S (lcp (bigrams (b :: t0)) (bigrams (b' :: t1))) else O).
    rewrite IH. simpl. repeat case_decide; simpl; congruence.
Qed.

(** What the page loop adds up for the rest of two token lists: their common
    pages, and one page more when they end together within a page *)
Definition page_lcp (l0 l1 : list Z) : nat :=
  (if decide (l0 = l1 /\ length l0 mod page_size ≠ 0) then (length l0 / page_size + 1) * page_size
   else lcp l0 l1 / page_size * page_size)%nat.

Lemma page_lcp_small l0 l1 : (lcp l0 l1 < page_size)%nat -> (l0 = l1 -> l0 = []) -> page_lcp l0 l1 = O.
Proof.
  intros Hl He. unfold page_lcp. rewrite decide_False.
  - by rewrite Nat.div_small.
  - intros [E Hm]. rewrite (He E) in Hm. simpl in Hm. by rewrite Nat.Div0.mod_0_l in Hm.
Qed.

Lemma page_lcp_step l0 l1 :
  take page_size l0 = take page_size l1 -> (page_size ≤ length l0)%nat -> (page_size ≤ length l1)%nat ->
  page_lcp l0 l1 = (page_size + page_lcp (drop page_size l0) (drop page_size l1))%nat.
Proof.
  intros Ht H0 H1. unfold page_lcp. rewrite (lcp_skip l0 l1 page_size) by done.
  assert (forall x, (page_size + x) / page_size = 1 + x / page_size)%nat as Hdiv.
  { intros x. replace (page_size + x)%nat with (1 * page_size + x)%nat by lia. rewrite Nat.div_add_l by lia. lia. }
  assert (length l0 = page_size + length (drop page_size l0))%nat as Hl by (rewrite length_drop; lia).
  assert (length l0 mod page_size = length (drop page_size l0) mod page_size)%nat as Hm.
  { rewrite Hl. replace (page_size + length (drop page_size l0))%nat with (length (drop page_size l0) + 1 * page_size)%nat by lia.
    by rewrite Nat.Div0.mod_add. }
  rewrite Hm, Hdiv. destruct (decide (drop page_size l0 = drop page_size l1 /\ _)) as [[E Hn]|Hn].
  - rewrite decide_True; [rewrite Hl, Hdiv; lia|]. split; [|done].
    by rewrite <-(take_drop page_size l0), <-(take_drop page_size l1), Ht, E.
  - rewrite decide_False; [lia|]. intros [-> Hx]. by apply Hn.
Qed.

Lemma page_lcp_short l0 l1 :
  take page_size l0 = take page_size l1 -> l0 ≠ [] -> (length l0 < page_size \/ length l1 < page_size)%nat ->
  l0 = l1 /\ page_lcp l0 l1 = page_size.
Proof.
  intros Ht Hne Hs. assert (length l0 = length l1 /\ length l0 < page_size)%nat as [Hl Hlt].
  { apply (f_equal length) in Ht. rewrite !length_take in Ht. lia. }
  assert (l0 = l1) as <- by (rewrite !take_ge in Ht by lia; done). split; [done|].
  unfold page_lcp. destruct l0 as [|z l0]; [done|]. rewrite Nat.mod_small by done. rewrite decide_True by done.
  rewrite Nat.div_small by done. lia.
Qed.

Lemma match_pages_spec fuel i t0 t1 :
  (i ≤ length t0 `min` length t1)%nat -> (length t0 `min` length t1 - i ≤ fuel)%nat ->
  match_pages fuel page_size (length t0 `min` length t1) i t0 t1 = (i + page_lcp (drop i t0) (drop i t1))%nat.
Proof.
  assert (forall i, (length t0 `min` length t1 ≤ i)%nat -> page_lcp (drop i t0) (drop i t1) = O) as Hend.
  { intros j Hj. pose proof (lcp_le_l (drop j t0) (drop j t1)). pose proof (lcp_le_r (drop j t0) (drop j t1)).
    pose proof (length_drop t0 j). pose proof (length_drop t1 j).
    apply page_lcp_small; [lia|]. intros E. apply length_zero_iff_nil. apply (f_equal length) in E. lia. }
  revert i. induction fuel as [|fuel IH]; intros i Hle Hf; cbn [match_pages]; [rewrite Hend by lia; lia|].
  case_decide as Hlt; [|rewrite Hend by lia; lia]. case_decide as Ht.
  - destruct (decide (i + page_size ≤ length t0 `min` length t1)%nat) as [Hnext|Hshort].
    + rewrite IH by lia. rewrite (page_lcp_step (drop i t0) (drop i t1) Ht); [|rewrite length_drop; lia..].
      rewrite !drop_drop. lia.
    + destruct (page_lcp_short _ _ Ht) as [_ ->]; [intros E%(f_equal length)|rewrite !length_drop; lia|].
      { rewrite length_drop in E. simpl in E. lia. }
      destruct fuel as [|fuel]; cbn [match_pages]; [done|]. by rewrite decide_False by lia.
  - rewrite page_lcp_small; [lia|by apply lcp_take_ne|]. by intros E; rewrite E in Ht.
Qed.

(** Two keys end together within a page: the loop over pages of tokens goes one
    page too far. *)
Definition ends_within_page (k1 k2 : RadixKey) : Prop :=
  is_bigram k1 = false /\ token_ids k1 = token_ids k2 /\ (key_len k1 mod page_size ≠ 0)%nat.

#[local] Instance ends_within_page_dec k1 k2 : Decision (ends_within_page k1 k2).
Proof. unfold ends_within_page. apply _. Defined.

Lemma match_any k1 k2 :
  is_bigram k1 = is_bigram k2 -> extra_key k1 = extra_key k2 ->
  match_ k1 k2 page_size =
    Ok (if decide (ends_within_page k1 k2) then (key_len k1 / page_size + 1) * page_size
        else lcp (pages k1) (pages k2) * page_size)%nat.
Proof.
  intros Hb He. unfold match_. rewrite decide_True by done. rewrite lcp_pages by done.
  destruct (decide (ends_within_page k1 k2)) as [Hw|Hw]; unfold ends_within_page, units, key_len in *;
    rewrite <-Hb in *; destruct (is_bigram k1); try (by destruct Hw as [? _]).
  - destruct Hw as (_ & Ht & Hm). rewrite decide_False by (intros Hp; by rewrite Hp, Nat.mod_1_r in Hm).
    f_equal. rewrite match_pages_spec by lia. rewrite !drop_0. unfold page_lcp. by rewrite decide_True.
  - f_equal. rewrite lcp_bigrams. pose proof (lcp_le_l (token_ids k1) (token_ids k2)).
    pose proof (lcp_le_r (token_ids k1) (token_ids k2)).
    set (x := lcp _ _) in *. rewrite !Nat.min_l by lia. case_decide; [done|].
    replace page_size with 1%nat by lia. rewrite Nat.div_1_r. lia.
  - rewrite lcp_fmap by (intros ?? [=]; done). case_decide as Hp.
    + rewrite Hp, Nat.div_1_r. f_equal. lia.
    + f_equal. rewrite match_pages_spec by lia. rewrite !drop_0. unfold page_lcp. by rewrite decide_False by tauto.
Qed.

(** A key of whole pages against any other. *)
Lemma match_lcp k1 k2 :
  aligned k1 -> is_bigram k1 = is_bigram k2 -> extra_key k1 = extra_key k2 ->
  match_ k1 k2 page_size = Ok (lcp (pages k1) (pages k2) * page_size)%nat.
Proof.
  intros [n1 H1] Hb He. rewrite match_any, decide_False; [done| |done|done].
  intros (_ & _ & Hm). rewrite H1, Nat.Div0.mod_mul in Hm. done.
Qed.

(** The keys a lookup can be given: whole pages, or plain tokens. *)
Definition lookup_key (k : RadixKey) : Prop := aligned k \/ is_bigram k = false.

Lemma lookup_key_drop n k : lookup_key k -> lookup_key (key_drop (n * page_size) k).
Proof. intros [Ha|Hb]; [left; by apply aligned_drop|right; unfold key_drop; by rewrite key_slice_bigram]. Qed.

(** An incomplete page is the first page of no key. *)
Lemma child_key_short k c k' :
  lookup_key k -> key_len k ≠ O -> (key_len k < page_size)%nat -> child_key page_size k = Ok c ->
  (page_size ≤ key_len k')%nat -> head (pages k') ≠ Some c.
Proof.
  intros [[n Hn]|Hb] Hz Hlt Hc Hk' Hh; [destruct n; nia|]. unfold child_key, key_len in *. rewrite Hb in *.
  rewrite decide_False in Hc by lia. injection Hc as <-. unfold pages in Hh.
  assert (0 < key_len k' / page_size)%nat as Hd by (apply Nat.div_str_pos; unfold key_len; lia).
  destruct (key_len k' / page_size)%nat as [|m]; [lia|]. simpl in Hh. injection Hh as _ Hp.
  unfold mk_plain in Hp. rewrite decide_False in Hp by lia. injection Hp as Hp. apply (f_equal length) in Hp.
  rewrite length_take, units_length, length_fmap, length_take in Hp. unfold key_len in Hp. lia.
Qed.

(** The dictionary key of what is left of a key. *)
Lemma child_key_any k :
  lookup_key k -> key_len k ≠ O -> exists c, child_key page_size k = Ok c.
Proof.
  intros Hk Hz. destruct (decide (page_size ≤ key_len k)%nat) as [Hle|Hlt].
  - destruct (child_key_page k Hle) as (c & Hc & _). eauto.
  - destruct Hk as [[n Hn]|Hb]; [destruct n; nia|]. unfold child_key, key_len in *. rewrite Hb in *.
    rewrite decide_False by lia. eauto.
Qed.

(** C31: [RadixKey.match] of two keys of one kind, in its token, bigram and
    page-by-page variants, against the reference definition: it is the number of
    leading pages the keys share, in units, with one exception: for two equal
    lists of tokens that do not end with a page, an incomplete last page counts
    as a whole one.  Keys of different name spaces are refused. *)
Theorem match_is_lcp self other :
  is_bigram self = is_bigram other ->
  match_ self other page_size =
  if decide (extra_key self = extra_key other)
  then Ok (if decide (ends_within_page self other) then (key_len self / page_size + 1) * page_size
           else lcp (pages self) (pages other) * page_size)%nat
  else Raise (Exn ValueError "RadixKey operations require matching extra_key").
Proof.
  intros Hb. case_decide as He; [by apply match_any|].
  unfold match_. by rewrite decide_False.
Qed.
End pages.

Lemma match_is_lcp_witness :
  (0 < 2)%nat /\
  match_ (MkKey [1; 2; 3; 4; 5] None true) (MkKey [1; 2; 3; 4; 9] None true) 2 = Ok 2%nat.
Proof.
  split; [lia|].
  rewrite (match_is_lcp 2 ltac:(lia) (MkKey [1; 2; 3; 4; 5] None true)
    (MkKey [1; 2; 3; 4; 9] None true)).
  - vm_compute. reflexivity.
  - reflexivity.
Defined.

(** Keys that are not whole pages: the page loop counts the incomplete last
    page as a full one and returns more than the length of the keys. *)
Lemma match_unaligned_overshoots :
  match_ (MkKey [1; 2; 3] None false) (MkKey [1; 2; 3] None false) 2 = Ok 4%nat.
Proof. reflexivity. Qed.
