(* ===== verification/KvEvents.v ===== *)
(** * KV cache events (mem_cache/events.py) and page hashes (mem_cache/utils.py)

    The queue of events that tells other processes which KV blocks a prefix
    cache holds: one event per stored and per removed page, named by a chain
    of SHA-256 hashes.  The code is a mixin of the prefix caches, here code
    over any state that provides its attributes ([EventHost]).  SHA-256 is a
    parameter ([Sha256]). *)

From S2P Require Import Prelude PyDict RadixKey.

(** ** Page hashes and events (mem_cache/utils.py, mem_cache/events.py) *)

(** [hashlib.sha256(b).hexdigest()] and [bytes.fromhex] *)
Class Sha256 := {
  sha256_hex : list Z -> string;
  fromhex : string -> list Z
}.

(** [t.to_bytes(4, byteorder='little', signed=False)] *)
Definition to_bytes4 (t : Z) : res (list Z) :=
  if decide (0 <= t < 2 ^ 32)
  then Ok [Z.land t 255; Z.land (Z.shiftr t 8) 255; Z.land (Z.shiftr t 16) 255;
           Z.land (Z.shiftr t 24) 255]
  else Raise (Exn OverflowError "int too big to convert").

Definition unit_tokens (u : kunit) : list Z := match u with Tok t => [t] | Pair a b => [a; b] end.

Fixpoint tokens_bytes (l : list Z) : res (list Z) :=
  match l with
  | [] => Ok []
  | t :: l' =>
      match to_bytes4 t with
      | Raise e => Raise e
      | Ok b => match tokens_bytes l' with Ok r => Ok (b ++ r) | Raise e => Raise e end
      end
  end.

Inductive StorageMedium := GPU | CPU | DISK | EXTERNAL.

Inductive kv_event :=
  | BlockStored (block_hash : Z) (parent_block_hash : option Z) (tokens : list kunit)
      (block_size : nat) (medium : StorageMedium)
  | BlockRemoved (block_hash : Z) (medium : StorageMedium)
  | AllBlocksCleared.

(** [range(0, n, step)] *)
Definition range_step (n step : nat) : list nat :=
  (fun i => i * step)%nat <$> seq 0 ((n + step - 1) / step).

(** The attributes of a node the event code looks at. *)
Record ev_node := EvNode {
  ev_parent : option nat;
  ev_key : RadixKey;
  ev_hash : option (list string)
}.

Section hashing.
Context `{Sha256}.

(** [RadixKey.hash_page] *)
Definition hash_page (k : RadixKey) (start stop : nat) (prior_hash : option string) : res string :=
  let prior := if truthy prior_hash then fromhex (default "" prior_hash) else [] in
  match tokens_bytes (take (stop - start) (drop start (units k)) ≫= unit_tokens) with
  | Raise e => Raise e
  | Ok b => if decide (stop ≤ key_len k)%nat then Ok (sha256_hex (prior ++ b)) else index_error
  end.

Fixpoint hash_from (k : RadixKey) (page_size : nat) (starts : list nat) (prior : option string) :
    res (list string) :=
  match starts with
  | [] => Ok []
  | start :: starts' =>
      match hash_page k start ((start + page_size) `min` key_len k)%nat prior with
      | Raise e => Raise e
      | Ok h =>
          match hash_from k page_size starts' (Some h) with
          | Ok r => Ok (h :: r)
          | Raise e => Raise e
          end
      end
  end.

(** [compute_node_hash_values]; [pn] is the node's parent object *)
Definition compute_node_hash_values (pn : option ev_node) (n : ev_node) (page_size : nat) :
    res (list string) :=
  let parent_hash :=
    match pn with
    | Some q => if decide (0 < key_len (ev_key q))%nat then ev_hash q ≫= last else None
    | None => None
    end in
  hash_from (ev_key n) page_size (range_step (key_len (ev_key n)) page_size) parent_hash.
End hashing.

Definition hex_digit (c : ascii) : option Z :=
  let n := Z.of_nat (nat_of_ascii c) in
  if decide (48 <= n <= 57) then Some (n - 48)
  else if decide (97 <= n <= 102) then Some (n - 87)
  else if decide (65 <= n <= 70) then Some (n - 55)
  else None.

(** [int(s, 16)] of a string of hexadecimal digits *)
Fixpoint hex_value (acc : Z) (s : string) : option Z :=
  match s with
  | EmptyString => Some acc
  | String c s' => d ← hex_digit c; hex_value (acc * 16 + d) s'
  end.

(** [hash_str_to_int64] *)
Definition hash_str_to_int64 (s : string) : res Z :=
  match String.substring 0 16 s with
  | EmptyString => Raise (Exn ValueError "invalid literal for int() with base 16")
  | s' =>
      match hex_value 0 s' with
      | Some u => Ok (if decide (2 ^ 63 <= u) then u - 2 ^ 64 else u)
      | None => Raise (Exn ValueError "invalid literal for int() with base 16")
      end
  end.

(** [split_node_hash_value] *)
Definition split_node_hash_value (child_hash_value : option (list string)) (split_len page_size : nat) :
    option (list string) * option (list string) :=
  match child_hash_value with
  | None => (None, None)
  | Some hv =>
      let split_pages := if decide (page_size = 1%nat) then split_len else (split_len / page_size)%nat in
      (Some (take split_pages hv), Some (drop split_pages hv))
  end.

(** ** The mixin

    [KVCacheEventMixin] is mixed into several caches.  [EventHost] is what it
    uses of the class it is mixed into: the attributes [page_size],
    [enable_kv_cache_events], [root_node] and [kv_event_queue], and the nodes'
    [parent], [key] and [hash_value]. *)

Class EventHost (S : Type) := {
  eh_page_size : S -> nat;
  eh_enabled : S -> bool;
  eh_root : S -> nat;
  eh_node : S -> nat -> option ev_node;
  eh_set_hash : nat -> list string -> S -> S;
  eh_queue : S -> list kv_event;
  eh_set_queue : list kv_event -> S -> S
}.

Section mixin.
Context {S : Type} `{EventHost S} `{Sha256}.
Abbreviation MS := (M S).

Definition ev_node_at (x : nat) : MS ev_node := fun s =>
  match eh_node s x with
  | Some n => (Ok n, s)
  | None => (Raise (Exn AttributeError "dangling reference"), s)
  end.

Definition emit (e : kv_event) : MS unit := modify (fun s => eh_set_queue (eh_queue s ++ [e]) s).

(** [if node.hash_value is None: node.hash_value = compute_node_hash_values(node, page_size)] *)
Definition ensure_hashes (node : nat) : MS (list string) :=
  n ← ev_node_at node;
  match ev_hash n with
  | Some hv => mret hv
  | None =>
      ps ← gets eh_page_size;
      pn ← gets (fun s => ev_parent n ≫= eh_node s);
      hv ← lift_res (compute_node_hash_values pn n ps);
      modify (eh_set_hash node hv) ≫= fun _ => mret hv
  end.

Definition nth_hash (hv : list string) (i : nat) : MS Z :=
  match hv !! i with
  | Some h => lift_res (hash_str_to_int64 h)
  | None => lift_res index_error
  end.

(** One [BlockStored] per page; the loop carries the previous block's hash. *)
Fixpoint store_blocks (k : RadixKey) (ps : nat) (hv : list string) (medium : StorageMedium)
    (starts : list nat) (page_index : nat) (parent_block_hash : option Z) : MS unit :=
  match starts with
  | [] => mret tt
  | start :: starts' =>
      let stop := ((start + ps) `min` key_len k)%nat in
      let page_tokens := take (stop - start) (drop start (units k)) in
      block_hash ← nth_hash hv page_index;
      emit (BlockStored block_hash parent_block_hash page_tokens (length page_tokens) medium)
        ≫= fun _ => store_blocks k ps hv medium starts' (Datatypes.S page_index) (Some block_hash)
  end.

(** [_record_store_event] *)
Definition record_store_event (node : nat) : MS unit :=
  enabled ← gets eh_enabled;
  if (enabled : bool) then
    ps ← gets eh_page_size;
    hv ← ensure_hashes node;
    n ← ev_node_at node;
    root ← gets eh_root;
    pn ← gets (fun s => ev_parent n ≫= fun p => if decide (p = root) then None else eh_node s p);
    parent_block_hash ←
      match pn ≫= fun q => ev_hash q ≫= last with
      | Some h => z ← lift_res (hash_str_to_int64 h); mret (Some z)
      | None => mret None
      end;
    store_blocks (ev_key n) ps hv GPU (range_step (key_len (ev_key n)) ps) 0 parent_block_hash
  else mret tt.

Fixpoint remove_blocks (hv : list string) (medium : StorageMedium) (starts : list nat)
    (page_index : nat) : MS unit :=
  match starts with
  | [] => mret tt
  | _ :: starts' =>
      block_hash ← nth_hash hv page_index;
      emit (BlockRemoved block_hash medium) ≫= fun _ =>
      remove_blocks hv medium starts' (Datatypes.S page_index)
  end.

(** [_record_remove_event] *)
Definition record_remove_event (node : nat) : MS unit :=
  enabled ← gets eh_enabled;
  if (enabled : bool) then
    ps ← gets eh_page_size;
    hv ← ensure_hashes node;
    n ← ev_node_at node;
    remove_blocks hv GPU (range_step (key_len (ev_key n)) ps) 0
  else mret tt.

(** [_record_all_cleared_event] *)
Definition record_all_cleared_event : MS unit :=
  enabled ← gets eh_enabled;
  if (enabled : bool) then emit AllBlocksCleared else mret tt.

(** [take_events] *)
Definition take_events : MS (list kv_event) :=
  enabled ← gets eh_enabled;
  if (enabled : bool) then
    q ← gets eh_queue;
    modify (eh_set_queue []) ≫= fun _ => mret q
  else mret [].
End mixin.
