(* ===== verification/RadixTree.v ===== *)
(** * The prefix cache: nodes, events and eviction order

    The data of mem_cache/radix_cache.py: [TreeNode], the state of
    [RadixCache] and the small operations on one node.  Nodes are shared
    mutable objects (a request keeps a reference to the node its prefix ends
    in), so they live in a heap indexed by their [id]; a node that was cut off
    the tree stays in the heap, as the Python object does while somebody
    refers to it.

    Also here: the eviction orders of mem_cache/evict_policy.py and the
    interfaces to what is outside the cache: the KV allocator ([KvFree]) and
    Python's [heapq] and set iteration ([HeapQ]).  The cache mixes in the
    event queue of KvEvents.v ([radix_events]). *)

From S2P Require Import Prelude PyDict RadixKey KvEvents.

(** ** Nodes *)

Record TreeNode := MkNode {
  children : dict child_key_t nat;
  parent : option nat;
  key : RadixKey;
  value : option (list Z);
  lock_ref : Z;
  last_access_time : Z;
  creation_time : Z;
  hit_count : Z;
  host_ref_counter : Z;
  host_value : option (list Z);
  hash_value : option (list string);
  priority : Z
}.

(** [TreeNode(priority=prio)] with its two clock readings; the key, [None]
    until the caller assigns it in the next statements, is the empty key. *)
Definition TreeNode_init (prio t_access t_creation : Z) : TreeNode :=
  MkNode [] None (MkKey [] None false) None 0 t_access t_creation 0 0 None None prio.

Definition evicted (n : TreeNode) : bool := bool_decide (value n = None).
Definition backuped (n : TreeNode) : bool := negb (bool_decide (host_value n = None)).

(** Assignments to one attribute. *)
Definition set_children d (n : TreeNode) :=
  MkNode d (parent n) (key n) (value n) (lock_ref n) (last_access_time n) (creation_time n)
    (hit_count n) (host_ref_counter n) (host_value n) (hash_value n) (priority n).
Definition set_lock_ref z (n : TreeNode) :=
  MkNode (children n) (parent n) (key n) (value n) z (last_access_time n) (creation_time n)
    (hit_count n) (host_ref_counter n) (host_value n) (hash_value n) (priority n).
Definition set_access t (n : TreeNode) :=
  MkNode (children n) (parent n) (key n) (value n) (lock_ref n) t (creation_time n)
    (hit_count n) (host_ref_counter n) (host_value n) (hash_value n) (priority n).
Definition set_hits z (n : TreeNode) :=
  MkNode (children n) (parent n) (key n) (value n) (lock_ref n) (last_access_time n)
    (creation_time n) z (host_ref_counter n) (host_value n) (hash_value n) (priority n).
Definition set_priority z (n : TreeNode) :=
  MkNode (children n) (parent n) (key n) (value n) (lock_ref n) (last_access_time n)
    (creation_time n) (hit_count n) (host_ref_counter n) (host_value n) (hash_value n) z.
Definition set_hash hv (n : TreeNode) :=
  MkNode (children n) (parent n) (key n) (value n) (lock_ref n) (last_access_time n)
    (creation_time n) (hit_count n) (host_ref_counter n) (host_value n) hv (priority n).
Definition set_host_ref z (n : TreeNode) :=
  MkNode (children n) (parent n) (key n) (value n) (lock_ref n) (last_access_time n)
    (creation_time n) (hit_count n) z (host_value n) (hash_value n) (priority n).
(** [n.parent = p; n.key = k; n.value = v] *)
Definition set_place p k v (n : TreeNode) :=
  MkNode (children n) p k v (lock_ref n) (last_access_time n) (creation_time n) (hit_count n)
    (host_ref_counter n) (host_value n) (hash_value n) (priority n).

Definition protect_host (n : TreeNode) : TreeNode := set_host_ref (host_ref_counter n + 1) n.

Definition release_host (n : TreeNode) : res TreeNode :=
  if decide (0 < host_ref_counter n) then Ok (set_host_ref (host_ref_counter n - 1) n)
  else Raise (Exn RuntimeError "Host reference counter is already zero.").

Definition get_last_hash_value (n : TreeNode) : option string := hash_value n ≫= last.

(** [__lt__] *)
Definition node_lt (n1 n2 : TreeNode) : bool := bool_decide (last_access_time n1 < last_access_time n2).

(** ** Eviction orders (mem_cache/evict_policy.py)

    A priority is a float or a tuple; both compare as the list of their
    components does lexicographically. *)

Inductive EvictionStrategy :=
  | LRUStrategy
  | LFUStrategy
  | FIFOStrategy
  | MRUStrategy
  | FILOStrategy
  | PriorityStrategy
  | SLRUStrategy (protected_threshold : Z).

Definition get_priority (st : EvictionStrategy) (n : TreeNode) : list Z :=
  match st with
  | LRUStrategy => [last_access_time n]
  | LFUStrategy => [hit_count n; last_access_time n]
  | FIFOStrategy => [creation_time n]
  | MRUStrategy => [- last_access_time n]
  | FILOStrategy => [- creation_time n]
  | PriorityStrategy => [priority n; last_access_time n]
  | SLRUStrategy threshold =>
      [if decide (threshold <= hit_count n) then 1 else 0; last_access_time n]
  end.

(** The strategy [RadixCache.__init__] picks for [eviction_policy.lower()]. *)
Definition strategy_of_policy (policy : string) : res EvictionStrategy :=
  if decide (policy = "lru") then Ok LRUStrategy
  else if decide (policy = "lfu") then Ok LFUStrategy
  else if decide (policy = "fifo") then Ok FIFOStrategy
  else if decide (policy = "mru") then Ok MRUStrategy
  else if decide (policy = "filo") then Ok FILOStrategy
  else if decide (policy = "priority") then Ok PriorityStrategy
  else if decide (policy = "slru") then Ok (SLRUStrategy 2)
  else Raise (Exn ValueError ("Unknown eviction policy: " +:+ policy +:+ ". Supported policies: 'lru', 'lfu', 'fifo', 'mru', 'filo', 'priority', 'slru'.")).

Fixpoint lex_lt (l1 l2 : list Z) : bool :=
  match l1, l2 with
  | [], _ :: _ => true
  | x :: l1', y :: l2' => if decide (x = y) then lex_lt l1' l2' else bool_decide (x < y)
  | _, [] => false
  end.

(** An entry [(priority, node)] of the eviction heap.  Ties of the priority
    are broken by [TreeNode.__lt__]; no access time changes during an
    eviction, so the time is part of the entry. *)
Record heap_entry := Entry { e_priority : list Z; e_time : Z; e_node : nat }.

Definition entry_lt (e1 e2 : heap_entry) : bool :=
  if decide (e_priority e1 = e_priority e2)
  then negb (bool_decide (e_node e1 = e_node e2)) && bool_decide (e_time e1 < e_time e2)
  else lex_lt (e_priority e1) (e_priority e2).

(** Python's [heapq] on a list of entries, and the order in which [list(s)]
    lists a set. *)
Class HeapQ := {
  heapify : list heap_entry -> list heap_entry;
  heappush : list heap_entry -> heap_entry -> list heap_entry;
  heappop : list heap_entry -> option (heap_entry * list heap_entry);
  set_order : gset nat -> list nat
}.

(** What the documentation promises: a heap holds what was put in, and [pop]
    takes out an item no other item is smaller than. *)
Class HeapQLaws `{HeapQ} := {
  is_heap : list heap_entry -> Prop;
  heapify_heap l : is_heap (heapify l) /\ heapify l ≡ₚ l;
  heappush_heap l e : is_heap l -> is_heap (heappush l e) /\ heappush l e ≡ₚ e :: l;
  heappop_empty : heappop [] = None;
  heappop_heap l : is_heap l -> l ≠ [] -> exists e l',
    heappop l = Some (e, l') /\ l ≡ₚ e :: l' /\ is_heap l' /\
    forall e', e' ∈ l' -> entry_lt e' e = false;
  set_order_elements X : set_order X ≡ₚ elements X
}.

(** ** The cache *)

(** [CacheInitParams], the fields the cache keeps *)
Record CacheParams := MkParams {
  disable : bool;
  page_size : nat;
  enable_kv_cache_events : bool;
  is_eagle : bool;
  disable_finished_insert : bool;
  eviction_strategy : EvictionStrategy
}.

(** The attributes of [RadixCache].  [counter] is [TreeNode.counter],
    [readings] counts the clock readings made so far and [allocator] is the
    state of [token_to_kv_pool_allocator]. *)
Record RadixCache (A : Type) := MkCache {
  params : CacheParams;
  nodes : gmap nat TreeNode;
  counter : nat;
  root_node : nat;
  evictable_size_ : Z;
  protected_size_ : Z;
  evictable_leaves : gset nat;
  kv_event_queue : list kv_event;
  readings : nat;
  allocator : A
}.
Arguments MkCache {A}.
Arguments params {A}.
Arguments nodes {A}.
Arguments counter {A}.
Arguments root_node {A}.
Arguments evictable_size_ {A}.
Arguments protected_size_ {A}.
Arguments evictable_leaves {A}.
Arguments kv_event_queue {A}.
Arguments readings {A}.
Arguments allocator {A}.

(** [token_to_kv_pool_allocator.free] *)
Class KvFree (A : Type) := kv_free : list Z -> M A unit.

Section updates.
Context {A : Type}.
Implicit Types s : RadixCache A.

Definition upd_nodes (f : gmap nat TreeNode -> gmap nat TreeNode) s : RadixCache A :=
  MkCache (params s) (f (nodes s)) (counter s) (root_node s) (evictable_size_ s)
    (protected_size_ s) (evictable_leaves s) (kv_event_queue s) (readings s) (allocator s).
Definition upd_sizes (de dp : Z) s : RadixCache A :=
  MkCache (params s) (nodes s) (counter s) (root_node s) (evictable_size_ s + de)
    (protected_size_ s + dp) (evictable_leaves s) (kv_event_queue s) (readings s) (allocator s).
Definition upd_leaves (f : gset nat -> gset nat) s : RadixCache A :=
  MkCache (params s) (nodes s) (counter s) (root_node s) (evictable_size_ s)
    (protected_size_ s) (f (evictable_leaves s)) (kv_event_queue s) (readings s) (allocator s).
Definition upd_events (f : list kv_event -> list kv_event) s : RadixCache A :=
  MkCache (params s) (nodes s) (counter s) (root_node s) (evictable_size_ s)
    (protected_size_ s) (evictable_leaves s) (f (kv_event_queue s)) (readings s) (allocator s).
Definition upd_readings (n : nat) s : RadixCache A :=
  MkCache (params s) (nodes s) (counter s) (root_node s) (evictable_size_ s)
    (protected_size_ s) (evictable_leaves s) (kv_event_queue s) n (allocator s).
Definition upd_allocator (a : A) s : RadixCache A :=
  MkCache (params s) (nodes s) (counter s) (root_node s) (evictable_size_ s)
    (protected_size_ s) (evictable_leaves s) (kv_event_queue s) (readings s) a.
(** A new object in the heap. *)
Definition upd_fresh (n : TreeNode) s : RadixCache A :=
  MkCache (params s) (<[counter s := n]> (nodes s)) (S (counter s)) (root_node s)
    (evictable_size_ s) (protected_size_ s) (evictable_leaves s) (kv_event_queue s)
    (readings s) (allocator s).
(** [reset] of the tree attributes to an empty tree with root [r]. *)
Definition upd_root (r : nat) s : RadixCache A :=
  MkCache (params s) (nodes s) (counter s) r 0 0 ∅ (kv_event_queue s) (readings s) (allocator s).

(** Reading and writing attributes through a reference. *)
Definition node_at (x : nat) : M (RadixCache A) TreeNode := fun s =>
  match nodes s !! x with
  | Some n => (Ok n, s)
  | None => (Raise (Exn AttributeError "dangling reference"), s)
  end.

Definition update_node (x : nat) (f : TreeNode -> TreeNode) : M (RadixCache A) unit :=
  modify (upd_nodes (alter f x)).

(** [node.parent], read in order to use an attribute of it *)
Definition parent_at (n : TreeNode) : M (RadixCache A) nat :=
  match parent n with
  | Some p => mret p
  | None => raise AttributeError "'NoneType' object has no attribute 'children'"
  end.

(** [len(node.value)] and the like need a tensor *)
Definition value_at (n : TreeNode) : M (RadixCache A) (list Z) :=
  match value n with
  | Some v => mret v
  | None => raise TypeError "'NoneType' object is not subscriptable"
  end.
End updates.

Section cache.
Context {A : Type} `{KvFree A} (monotonic : nat -> Z).

Abbreviation cache := (RadixCache A).
Abbreviation MC := (M (RadixCache A)).
Implicit Types s : cache.

(** [time.monotonic()]: the readings of the clock, in order *)
Definition time_monotonic : MC Z := fun s =>
  (Ok (monotonic (readings s)), upd_readings (S (readings s)) s).

Definition allocate_node (n : TreeNode) : MC nat := fun s => (Ok (counter s), upd_fresh n s).

(** [TreeNode(priority=prio)]: the reference of the new object *)
Definition new_TreeNode (prio : Z) : MC nat :=
  t1 ← time_monotonic;
  t2 ← time_monotonic;
  allocate_node (TreeNode_init prio t1 t2).

Definition allocator_free (indices : list Z) : MC unit :=
  zoom allocator upd_allocator (kv_free indices).

(** *** Events *)

Definition ev_of (n : TreeNode) : ev_node := EvNode (parent n) (key n) (hash_value n).

#[export] Instance radix_events : EventHost (RadixCache A) := {|
  eh_page_size s := page_size (params s);
  eh_enabled s := enable_kv_cache_events (params s);
  eh_root := root_node;
  eh_node s x := ev_of <$> nodes s !! x;
  eh_set_hash x hv := upd_nodes (alter (set_hash (Some hv)) x);
  eh_queue := kv_event_queue;
  eh_set_queue q := upd_events (fun _ => q)
|}.
End cache.
