(* ===== verification/RadixOps.v ===== *)
(** * The prefix cache: operations

    The methods of [RadixCache] (mem_cache/radix_cache.py) on the state of
    RadixTree.v, statement by statement: [match_prefix], [insert],
    [inc_lock_ref], [dec_lock_ref], [evict], [reset], [total_size],
    [pretty_print] and the helpers they call.  The two entry points for
    requests, [cache_finished_req] and [cache_unfinished_req], are in
    RadixReq.v.

    The [while] loops have fuel.  A descent consumes at least one unit of the
    key per iteration, so the length of the key is enough; a walk to the root
    and an eviction visit each node of the heap at most once, so the number of
    nodes is enough.  The theorems of RadixSpec.v, RadixEvict.v,
    RadixLockOps.v, RadixTotal.v and RadixReqFacts.v show that no run on a
    well-formed cache exhausts it. *)

From S2P Require Import Prelude PyDict RadixKey KvEvents RadixTree.

Section ops.
Context {A : Type} `{KvFree A} `{Sha256} `{HeapQ} (monotonic : nat -> Z).

Abbreviation cache := (RadixCache A).
Abbreviation MC := (M (RadixCache A)).
Implicit Types s : cache.

Definition out_of_fuel {B : Type} : MC B := raise RuntimeError "loop bound exceeded".

(** *** Leaves and sizes *)

(** [self.evictable_leaves.remove(node)] under [if node in ...] *)
Definition leaf_discard (x : nat) : MC unit := modify (upd_leaves (fun l => l ∖ {[x]})).
Definition leaf_add (x : nat) : MC unit := modify (upd_leaves (fun l => {[x]} ∪ l)).

(** the loop over [node.children.values()] of [_update_leaf_status] *)
Definition child_live s (c : nat) : bool :=
  match nodes s !! c with Some m => negb (evicted m) | None => false end.

Definition has_live_child (n : TreeNode) s : bool := existsb (child_live s) (dict_values (children n)).

(** [_update_leaf_status] *)
Definition update_leaf_status (node : nat) : MC unit :=
  n ← node_at node;
  if evicted n || bool_decide (0 < lock_ref n) then leaf_discard node
  else
    gets (has_live_child n) ≫= fun live_child : bool =>
    if live_child then leaf_discard node else leaf_add node.

(** [_delete_leaf] *)
Definition delete_leaf (node : nat) : MC unit :=
  ps ← gets (fun s : cache => page_size (params s));
  n ← node_at node;
  k ← lift_res (child_key ps (key n));
  p ← parent_at n;
  pn ← node_at p;
  update_node p (fun q => set_children (dict_del (children q) k) q) ≫= fun _ =>
  if decide (dict_get (children pn) k = Some node) then
    modify (upd_sizes (- Z.of_nat (key_len (key n))) 0) ≫= fun _ =>
    leaf_discard node ≫= fun _ =>
    update_leaf_status p
  else raise AssertionError "parent does not have child key".

(** *** Splitting and matching *)

(** [_split_node]: the new node takes the first [split_len] units of [child] *)
Definition split_node (k : RadixKey) (child split_len : nat) : MC nat :=
  ps ← gets (fun s : cache => page_size (params s));
  c ← node_at child;
  new_node ← new_TreeNode monotonic (priority c);
  ck ← lift_res (child_key ps (key_drop split_len k));
  v ← value_at c;
  update_node new_node (fun n =>
    set_place (parent c) (key_take split_len (key c)) (Some (take split_len v))
      (set_lock_ref (lock_ref c) (set_children [(ck, child)] (set_hits (hit_count c) n)))) ≫= fun _ =>
  update_node child (set_place (Some new_node) (key_drop split_len (key c)) (Some (drop split_len v)))
    ≫= fun _ =>
  p ← parent_at c;
  pk ← lift_res (child_key ps k);
  update_node p (fun q => set_children (dict_set (children q) pk new_node) q) ≫= fun _ =>
  let '(new_hash, child_hash) := split_node_hash_value (hash_value c) split_len ps in
  update_node new_node (set_hash new_hash) ≫= fun _ =>
  update_node child (set_hash child_hash) ≫= fun _ =>
  mret new_node.

(** The loop of [_match_prefix_helper]; [ck] is the variable [child_key]. *)
Fixpoint match_loop (fuel : nat) (access_time : Z) (node : nat) (k : RadixKey) (ck : child_key_t)
    (acc : list (list Z)) : MC (list (list Z) * nat) :=
  match fuel with
  | O => out_of_fuel
  | S fuel' =>
      n ← node_at node;
      if decide (key_len k = O) then mret (acc, node)
      else
        match dict_get (children n) ck with
        | None => mret (acc, node)
        | Some child =>
            update_node child (set_access access_time) ≫= fun _ =>
            c ← node_at child;
            ps ← gets (fun s : cache => page_size (params s));
            prefix_len ← lift_res (match_ (key c) k ps);
            if decide (prefix_len < key_len (key c))%nat then
              new_node ← split_node (key c) child prefix_len;
              nn ← node_at new_node;
              v ← value_at nn;
              mret (acc ++ [v], new_node)
            else
              v ← value_at c;
              let k' := key_drop prefix_len k in
              ck' ← (if decide (key_len k' = O) then mret ck else lift_res (child_key ps k'));
              match_loop fuel' access_time child k' ck' (acc ++ [v])
        end
  end.

(** [_match_prefix_helper] *)
Definition match_prefix_helper (node : nat) (k : RadixKey) : MC (list (list Z) * nat) :=
  access_time ← time_monotonic monotonic;
  update_node node (set_access access_time) ≫= fun _ =>
  ps ← gets (fun s : cache => page_size (params s));
  ck ← lift_res (child_key ps k);
  match_loop (S (key_len k)) access_time node k ck [].

(** [MatchResult]: the device indices and the last node, which is the device,
    host and best node alike *)
Record MatchResult := MkMatch { device_indices : list Z; last_device_node : nat }.

Definition empty_match_result : MC MatchResult :=
  r ← gets root_node; mret (MkMatch [] r).

(** [match_prefix] *)
Definition match_prefix (k0 : RadixKey) : MC MatchResult :=
  prm ← gets params;
  let k := (maybe_to_bigram_view (is_eagle prm) k0 None).1 in
  if disable prm || bool_decide (key_len k = O) then empty_match_result
  else
    let k' := page_aligned (page_size prm) k in
    if decide (key_len k' = O) then empty_match_result
    else
      root ← gets root_node;
      '(vs, last_node) ← match_prefix_helper root k';
      mret (MkMatch (concat vs) last_node).

(** *** Insertion *)

(** [_inc_hit_count] *)
Definition inc_hit_count (node : nat) (chunked : bool) : MC unit :=
  if chunked then mret tt else update_node node (fun n => set_hits (hit_count n + 1) n).

Definition raise_priority (node : nat) (prio : Z) : MC unit :=
  update_node node (fun n => set_priority (Z.max (priority n) prio) n).

(** The loop of [_insert_helper]: the node, key and value it ends with, the
    variable [child_key] and the total prefix length. *)
Fixpoint insert_loop (fuel : nat) (access_time prio : Z) (chunked : bool) (node : nat) (k : RadixKey)
    (ck : child_key_t) (v : list Z) (total : nat) :
    MC (nat * RadixKey * child_key_t * list Z * nat) :=
  match fuel with
  | O => out_of_fuel
  | S fuel' =>
      n ← node_at node;
      if decide (key_len k = O) then mret (node, k, ck, v, total)
      else
        match dict_get (children n) ck with
        | None => mret (node, k, ck, v, total)
        | Some child =>
            update_node child (set_access access_time) ≫= fun _ =>
            c ← node_at child;
            ps ← gets (fun s : cache => page_size (params s));
            prefix_len ← lift_res (match_ (key c) k ps);
            let total' := (total + prefix_len)%nat in
            let k' := key_drop prefix_len k in
            let v' := drop prefix_len v in
            next ← (if decide (prefix_len < key_len (key c))%nat
                    then split_node (key c) child prefix_len else mret child);
            raise_priority next prio ≫= fun _ =>
            inc_hit_count next chunked ≫= fun _ =>
            ck' ← (if decide (key_len k' = O) then mret ck else lift_res (child_key ps k'));
            insert_loop fuel' access_time prio chunked next k' ck' v' total'
        end
  end.

(** [_insert_helper]; a [None] priority is 0 *)
Definition insert_helper (node : nat) (k : RadixKey) (v : list Z) (priority_ : option Z)
    (chunked : bool) : MC nat :=
  let prio := default 0 priority_ in
  access_time ← time_monotonic monotonic;
  update_node node (set_access access_time) ≫= fun _ =>
  raise_priority node prio ≫= fun _ =>
  if decide (key_len k = O) then mret O
  else
    ps ← gets (fun s : cache => page_size (params s));
    ck ← lift_res (child_key ps k);
    '(node', k', ck', v', total) ← insert_loop (S (key_len k)) access_time prio chunked node k ck v 0;
    if decide (key_len k' = O) then mret total
    else
      new_node ← new_TreeNode monotonic prio;
      update_node new_node (set_place (Some node') k' (Some v')) ≫= fun _ =>
      inc_hit_count new_node chunked ≫= fun _ =>
      update_node node' (fun n => set_children (dict_set (children n) ck' new_node) n) ≫= fun _ =>
      modify (upd_sizes (Z.of_nat (key_len k')) 0) ≫= fun _ =>
      update_leaf_status node' ≫= fun _ =>
      update_leaf_status new_node ≫= fun _ =>
      record_store_event new_node ≫= fun _ =>
      mret total.

(** [insert]: the result is [prefix_len] *)
Definition insert (k0 : RadixKey) (v0 : option (list Z)) (priority_ : option Z) (chunked : bool) :
    MC nat :=
  prm ← gets params;
  if disable prm then mret O
  else
    let '(k, v) := maybe_to_bigram_view (is_eagle prm) k0 v0 in
    let k' := page_aligned (page_size prm) k in
    let v' := match v with
              | Some v => take (key_len k') v
              | None => take (key_len k') (token_ids k')
              end in
    root ← gets root_node;
    insert_helper root k' v' priority_ chunked.

(** *** Locks *)

(** [inc_lock_ref]: the loop returns [delta] *)
Fixpoint inc_lock_loop (fuel : nat) (node : nat) (delta : Z) : MC Z :=
  match fuel with
  | O => out_of_fuel
  | S fuel' =>
      root ← gets root_node;
      if decide (node = root) then mret delta
      else
        n ← node_at node;
        let sz := Z.of_nat (key_len (key n)) in
        (if decide (lock_ref n = 0) then modify (upd_sizes (- sz) sz) else mret tt) ≫= fun _ =>
        update_node node (fun m => set_lock_ref (lock_ref m + 1) m) ≫= fun _ =>
        update_leaf_status node ≫= fun _ =>
        p ← parent_at n;
        inc_lock_loop fuel' p (if decide (lock_ref n = 0) then delta - sz else delta)
  end.

Definition inc_lock_ref (node : nat) : MC Z :=
  prm ← gets params;
  if disable prm then mret 0
  else
    fuel ← gets (fun s : cache => S (size (nodes s)));
    inc_lock_loop fuel node 0.

(** [dec_lock_ref] *)
Fixpoint dec_lock_loop (fuel : nat) (node : nat) (delta : Z) : MC Z :=
  match fuel with
  | O => out_of_fuel
  | S fuel' =>
      root ← gets root_node;
      if decide (node = root) then mret delta
      else
        n ← node_at node;
        let sz := Z.of_nat (key_len (key n)) in
        (if decide (lock_ref n = 1) then modify (upd_sizes sz (- sz)) else mret tt) ≫= fun _ =>
        update_node node (fun m => set_lock_ref (lock_ref m - 1) m) ≫= fun _ =>
        update_leaf_status node ≫= fun _ =>
        match parent n with
        | Some p => dec_lock_loop fuel' p (if decide (lock_ref n = 1) then delta + sz else delta)
        | None => raise AssertionError "This request holds the node from another tree"
        end
  end.

Definition dec_lock_ref (node : nat) : MC Z :=
  prm ← gets params;
  if disable prm then mret 0
  else
    fuel ← gets (fun s : cache => S (size (nodes s)));
    dec_lock_loop fuel node 0.

(** *** Eviction *)

Definition entry_of (x : nat) : MC heap_entry :=
  n ← node_at x;
  prm ← gets params;
  mret (Entry (get_priority (eviction_strategy prm) n) (last_access_time n) x).

Fixpoint entries_of (l : list nat) : MC (list heap_entry) :=
  match l with
  | [] => mret []
  | x :: l' => e ← entry_of x; es ← entries_of l'; mret (e :: es)
  end.

(** The loop of [evict] *)
Fixpoint evict_loop (fuel : nat) (num_tokens : Z) (eviction_heap : list heap_entry)
    (num_evicted : Z) : MC Z :=
  match fuel with
  | O => out_of_fuel
  | S fuel' =>
      if decide (num_evicted < num_tokens) then
        match heappop eviction_heap with
        | None => mret num_evicted
        | Some (e, heap') =>
            let x := e_node e in
            n ← node_at x;
            v ← value_at n;
            allocator_free v ≫= fun _ =>
            delete_leaf x ≫= fun _ =>
            p ← parent_at n;
            pn ← node_at p;
            heap'' ← (if decide (children pn = [] /\ lock_ref pn = 0)
                      then e' ← entry_of p; mret (heappush heap' e') else mret heap');
            record_remove_event x ≫= fun _ =>
            evict_loop fuel' num_tokens heap'' (num_evicted + len v)
        end
      else mret num_evicted
  end.

(** [evict]: the result is [num_tokens_evicted] *)
Definition evict (num_tokens : Z) : MC Z :=
  prm ← gets params;
  if disable prm then mret 0
  else
    leaves ← gets (fun s : cache => set_order (evictable_leaves s));
    es ← entries_of leaves;
    fuel ← gets (fun s : cache => S (size (nodes s)));
    evict_loop fuel num_tokens (heapify es) 0.

(** *** Construction and inspection *)

(** [reset] *)
Definition reset : MC unit :=
  root ← new_TreeNode monotonic (- (2 ^ 63 - 1));
  update_node root (fun n =>
    MkNode (children n) (parent n) (MkKey [] None false) (Some []) 1 (last_access_time n)
      (creation_time n) (hit_count n) (host_ref_counter n) (Some []) (Some []) (priority n)) ≫= fun _ =>
  modify (upd_root root) ≫= fun _ =>
  record_all_cleared_event.

(** [RadixCache.__init__] up to [reset]: [policy] is the requested eviction
    policy, already lower case *)
Definition RadixCache_init (dis : bool) (ps : nat) (events eagle nofinish : bool) (policy : string)
    (a : A) : res cache :=
  match strategy_of_policy policy with
  | Raise e => Raise e
  | Ok st =>
      let s0 := MkCache (MkParams dis ps events eagle nofinish st) ∅ 0 0 0 0 ∅ [] 0 a in
      match reset s0 with
      | (Ok _, s) => Ok s
      | (Raise e, _) => Raise e
      end
  end.

Definition evictable_size s : Z := evictable_size_ s.
Definition protected_size s : Z := protected_size_ s.

(** [_total_size_helper]; the top of the stack is the head of the list *)
Fixpoint total_size_loop (fuel : nat) (stack : list nat) (total : Z) : MC Z :=
  match fuel with
  | O => out_of_fuel
  | S fuel' =>
      match stack with
      | [] => mret total
      | x :: stack' =>
          n ← node_at x;
          v ← value_at n;
          live ← gets (fun s : cache => List.filter (child_live s) (dict_values (children n)));
          total_size_loop fuel' (rev live ++ stack') (total + len v)
      end
  end.

Definition total_size : MC Z :=
  root ← gets root_node;
  fuel ← gets (fun s : cache => S (size (nodes s)));
  total_size_loop fuel [root] 0.

(** the assertions of [_print_helper] about the children of one node *)
Fixpoint check_children (ps : nat) (items : list (child_key_t * nat)) : MC unit :=
  match items with
  | [] => mret tt
  | (k, child) :: items' =>
      m ← node_at child;
      ck ← lift_res (child_key ps (key m));
      if decide (k = ck) then check_children ps items'
      else raise AssertionError "key of the child differs from its first page"
  end.

(** [_print_helper] without its output; the indentation is only printed *)
Fixpoint print_loop (fuel : nat) (stack : list nat) : MC unit :=
  match fuel with
  | O => out_of_fuel
  | S fuel' =>
      match stack with
      | [] => mret tt
      | x :: stack' =>
          ps ← gets (fun s : cache => page_size (params s));
          n ← node_at x;
          check_children ps (children n) ≫= fun _ =>
          print_loop fuel' (rev (dict_values (children n)) ++ stack')
      end
  end.

(** [pretty_print], for what it checks: it runs when an allocation fails *)
Definition pretty_print : MC unit :=
  root ← gets root_node;
  fuel ← gets (fun s : cache => S (size (nodes s)));
  print_loop fuel [root] ≫= fun _ =>
  total_size ≫= fun _ => mret tt.
End ops.
