(* ===== verification/RadixInv.v ===== *)
(** * The prefix cache: the tree in the heap

    What it means that a heap of nodes is a prefix tree, independently of the
    operations.  The invariants do not depend on clocks, hit counts and
    priorities, so they speak about the heap of structural parts ([core]).

    - [up x l w v]: following parent pointers from [x] reaches the root along
      the nodes [l]; the pages on the way spell [w] and the cached indices
      are [v].
    - [shape]: parent and child pointers of the live nodes [L] fit together,
      every live node has whole pages and one index per unit, and every live
      node is below the root.
    - [stored w v]: the abstract content, a page sequence with its indices.
    - [desc]: the descent that matching and insertion perform.  It finds the
      longest stored prefix ([desc_maximal]). *)

From S2P Require Import Prelude PyDict RadixKey KvEvents RadixTree.

Record core_t := Core {
  co_children : dict child_key_t nat;
  co_parent : option nat;
  co_key : RadixKey;
  co_value : option (list Z);
  co_lock : Z;
  co_hash : option (list string)
}.

Definition core (n : TreeNode) : core_t :=
  Core (children n) (parent n) (key n) (value n) (lock_ref n) (hash_value n).

Definition co_val (n : core_t) : list Z := default [] (co_value n).

Abbreviation cores := (gmap nat core_t).

Section tree.
Context (ps : nat) (r : nat).
Implicit Types (g : cores) (L : gset nat) (x y z p : nat) (l : list nat).
Implicit Types (w : list child_key_t) (v : list Z) (n m : core_t).

Abbreviation co_pages n := (pages ps (co_key n)).

(** ** Paths to the root *)

Inductive up g : nat -> list nat -> list child_key_t -> list Z -> Prop :=
  | up_root : up g r [] [] []
  | up_node x n p l w v :
      x ≠ r -> g !! x = Some n -> co_parent n = Some p -> up g p l w v ->
      up g x (x :: l) (w ++ co_pages n) (v ++ co_val n).

Lemma up_fun g x l w v l' w' v' :
  up g x l w v -> up g x l' w' v' -> l = l' /\ w = w' /\ v = v'.
Proof.
  intros Hu. revert l' w' v'. induction Hu as [|x n p l w v Hx Hg Hp Hu IH]; intros l' w' v' Hu'.
  - inversion Hu'; by simplify_eq.
  - inversion Hu' as [|? n' p' l0 w0 v0 ? Hg' Hp' Hu0]; simplify_eq.
    destruct (IH _ _ _ Hu0) as (-> & -> & ->). done.
Qed.

(** The place of a node: what [up] looks at. *)
Definition place n : option nat * RadixKey * option (list Z) := (co_parent n, co_key n, co_value n).

Lemma up_frame g g' x l w v :
  up g x l w v ->
  (forall y n, y ∈ l -> g !! y = Some n -> exists n', g' !! y = Some n' /\ place n' = place n) ->
  up g' x l w v.
Proof.
  induction 1 as [|x n p l w v Hx Hg Hp Hu IH]; intros Hf; [constructor|].
  destruct (Hf x n) as (n' & Hg' & Hpl); [set_solver|done|].
  unfold place in Hpl. injection Hpl as Hp' Hk Hv.
  replace (co_pages n) with (co_pages n') by (by rewrite Hk).
  replace (co_val n) with (co_val n') by (unfold co_val; by rewrite Hv).
  eapply up_node; [done|done|by rewrite Hp'|]. apply IH. intros y m Hy. apply Hf. set_solver.
Qed.

(** Every node on a path has the rest of the path as its own. *)
Lemma up_suffix g x l w v y :
  up g x l w v -> y ∈ l -> exists l1 l2 w' v', l = l1 ++ y :: l2 /\ up g y (y :: l2) w' v'.
Proof.
  induction 1 as [|x n p l w v Hx Hg Hp Hu IH]; intros Hy; [by apply elem_of_nil in Hy|].
  apply elem_of_cons in Hy as [->|Hy].
  - exists [], l. do 2 eexists. split; [done|]. by eapply up_node.
  - destruct (IH Hy) as (l1 & l2 & w' & v' & -> & Hu'). by exists (x :: l1), l2, w', v'.
Qed.

Lemma up_NoDup g x l w v : up g x l w v -> NoDup l.
Proof.
  induction 1 as [|x n p l w v Hx Hg Hp Hu IH]; [constructor|].
  constructor; [|done]. intros Hin. destruct (up_suffix g p l w v x Hu Hin) as (l1 & l2 & w' & v' & E & Hu').
  assert (up g x (x :: l) (w ++ co_pages n) (v ++ co_val n)) as Hu2 by (by eapply up_node).
  destruct (up_fun _ _ _ _ _ _ _ _ Hu' Hu2) as (E2 & _). injection E2 as ->.
  apply (f_equal length) in E. rewrite length_app in E. simpl in E. lia.
Qed.

Lemma up_root_inv g l w v : up g r l w v -> l = [] /\ w = [] /\ v = [].
Proof. intros H. inversion H; by simplify_eq. Qed.

Lemma up_not_root g x l w v : up g x l w v -> r ∉ l.
Proof. induction 1; set_solver. Qed.

Lemma up_self g x l w v : up g x l w v -> x ≠ r -> exists l', l = x :: l'.
Proof. destruct 1; [done|]. intros _. eauto. Qed.

Lemma up_nodes g x l w v y : up g x l w v -> y ∈ l -> is_Some (g !! y).
Proof. induction 1; set_solver. Qed.

(** ** The shape of the tree *)

Definition node_ok n : Prop :=
  aligned ps (co_key n) /\ length (co_val n) = key_len (co_key n) /\ is_Some (co_value n).

Record shape g L : Prop := Shape {
  sh_root : exists n, g !! r = Some n /\ co_parent n = None /\ key_len (co_key n) = O /\
    co_value n = Some [];
  sh_root_in : r ∈ L;
  sh_node x : x ∈ L -> x ≠ r -> exists n p pn c,
    g !! x = Some n /\ node_ok n /\ co_parent n = Some p /\ p ∈ L /\ g !! p = Some pn /\
    head (co_pages n) = Some c /\ dict_get (co_children pn) c = Some x;
  sh_child p pn c x : p ∈ L -> g !! p = Some pn -> dict_get (co_children pn) c = Some x ->
    x ∈ L /\ x ≠ r /\ exists n, g !! x = Some n /\ co_parent n = Some p /\ head (co_pages n) = Some c;
  sh_wf p pn : p ∈ L -> g !! p = Some pn -> dict_wf (co_children pn);
  sh_up x : x ∈ L -> exists l w v, up g x l w v
}.

Lemma shape_lookup g L x : shape g L -> x ∈ L -> is_Some (g !! x).
Proof.
  intros Hs Hx. destruct (decide (x = r)) as [->|Hne].
  - destruct (sh_root _ _ Hs) as (n & Hn & _). eauto.
  - destruct (sh_node _ _ Hs x Hx Hne) as (n & p & pn & c & Hn & _). eauto.
Qed.

Lemma shape_node_ok g L x n :
  shape g L -> x ∈ L -> x ≠ r -> g !! x = Some n -> node_ok n.
Proof.
  intros Hs Hx Hne Hn. destruct (sh_node _ _ Hs x Hx Hne) as (n' & p & pn & c & Hn' & Hok & _).
  by simplify_eq.
Qed.

Lemma shape_up_live g L x l w v : shape g L -> x ∈ L -> up g x l w v -> forall y, y ∈ l -> y ∈ L.
Proof.
  intros Hs Hx Hu. induction Hu as [|x n p l w v Hne Hg Hp Hu IH]; [set_solver|].
  intros y [->|Hy]%elem_of_cons; [done|].
  destruct (sh_node _ _ Hs x Hx Hne) as (n' & p' & pn & c & Hn' & _ & Hp' & HpL & _).
  simplify_eq. by apply IH.
Qed.

(** Two different parents cannot file the same node. *)
Lemma shape_parent g L p1 n1 c1 p2 n2 c2 x :
  shape g L -> p1 ∈ L -> g !! p1 = Some n1 -> dict_get (co_children n1) c1 = Some x ->
  p2 ∈ L -> g !! p2 = Some n2 -> dict_get (co_children n2) c2 = Some x -> p1 = p2 /\ c1 = c2.
Proof.
  intros Hs H1 Hg1 Hc1 H2 Hg2 Hc2.
  destruct (sh_child _ _ Hs _ _ _ _ H1 Hg1 Hc1) as (_ & _ & m1 & Hm1 & Hp1 & Hh1).
  destruct (sh_child _ _ Hs _ _ _ _ H2 Hg2 Hc2) as (_ & _ & m2 & Hm2 & Hp2 & Hh2).
  simplify_eq. done.
Qed.

Hypothesis ps_pos : (0 < ps)%nat.

Lemma node_ok_length n : node_ok n -> length (co_val n) = (length (co_pages n) * ps)%nat.
Proof. intros (Ha & Hl & _). rewrite Hl. by apply aligned_len. Qed.

Lemma up_value_length g L x l w v :
  shape g L -> x ∈ L -> up g x l w v -> length v = (length w * ps)%nat.
Proof.
  intros Hs Hx Hu. induction Hu as [|x n p l w v Hne Hg Hp Hu IH]; [done|].
  destruct (sh_node _ _ Hs x Hx Hne) as (n' & p' & pn & c & Hn' & Hok & Hp' & HpL & _).
  simplify_eq. rewrite !length_app, (IH HpL), (node_ok_length n Hok). lia.
Qed.

(** ** The content *)

(** The page sequence [w] is cached, with the indices [v]. *)
Definition stored g L w v : Prop :=
  exists x l w' v', x ∈ L /\ up g x l w' v' /\ w `prefix_of` w' /\ v = take (length w * ps) v'.

Lemma stored_node g L x l w v :
  shape g L -> x ∈ L -> up g x l w v -> stored g L w v.
Proof.
  intros Hs Hx Hu. exists x, l, w, v. split_and!; [done|done|done|].
  symmetry. apply firstn_all2. by rewrite (up_value_length g L x l w v).
Qed.

Lemma stored_prefix g L w w' v :
  stored g L w v -> w' `prefix_of` w -> stored g L w' (take (length w' * ps) v).
Proof.
  intros (x & l & w0 & v0 & Hx & Hu & Hw & ->) Hp. exists x, l, w0, v0.
  split_and!; [done|done|by etrans|]. rewrite take_take. f_equal.
  apply prefix_length in Hp. nia.
Qed.

(** ** Descents *)

(** [down x z w v]: from [x] the child pointers lead to [z]. *)
Inductive down g : nat -> nat -> list child_key_t -> list Z -> Prop :=
  | down_here x : down g x x [] []
  | down_step x n c y m z w v :
      g !! x = Some n -> dict_get (co_children n) c = Some y -> g !! y = Some m ->
      head (co_pages m) = Some c -> down g y z w v ->
      down g x z (co_pages m ++ w) (co_val m ++ v).

Lemma down_snoc g x y w v n c z m :
  down g x y w v -> g !! y = Some n -> dict_get (co_children n) c = Some z -> g !! z = Some m ->
  head (co_pages m) = Some c -> down g x z (w ++ co_pages m) (v ++ co_val m).
Proof.
  induction 1 as [x|x n' c' y m' z' w v Hx Hc Hy Hh Hd IH]; intros Hn Hz Hm Hhm.
  - rewrite !app_nil_l. rewrite <-(app_nil_r (co_pages m)), <-(app_nil_r (co_val m)).
    eapply down_step; [done..|constructor].
  - rewrite <-!app_assoc. eapply down_step; [done..|by apply IH].
Qed.

Lemma up_down g L x l w v : shape g L -> x ∈ L -> up g x l w v -> down g r x w v.
Proof.
  intros Hs Hx Hu. induction Hu as [|x n p l w v Hne Hg Hp Hu IH]; [constructor|].
  destruct (sh_node _ _ Hs x Hx Hne) as (n' & p' & pn & c & Hn' & Hok & Hp' & HpL & Hpn & Hh & Hc).
  simplify_eq. eapply down_snoc; [by apply IH|done..].
Qed.

(** Where a descent ends: at a node, or [i] pages inside a child. *)
Inductive stop := AtNode (y : nat) | Inside (y i : nat).

(** [desc x w v j st]: looking up [w] from [x] matches [j] pages with the
    indices [v] and ends at [st]. *)
Inductive desc g : nat -> list child_key_t -> list Z -> nat -> stop -> Prop :=
  | desc_end x : desc g x [] [] 0 (AtNode x)
  | desc_miss x n c w :
      g !! x = Some n -> dict_get (co_children n) c = None -> desc g x (c :: w) [] 0 (AtNode x)
  | desc_inside x n c w y m :
      g !! x = Some n -> dict_get (co_children n) c = Some y -> g !! y = Some m ->
      (lcp (co_pages m) (c :: w) < length (co_pages m))%nat ->
      desc g x (c :: w) (take (lcp (co_pages m) (c :: w) * ps) (co_val m))
        (lcp (co_pages m) (c :: w)) (Inside y (lcp (co_pages m) (c :: w)))
  | desc_through x n c w y m v j st :
      g !! x = Some n -> dict_get (co_children n) c = Some y -> g !! y = Some m ->
      lcp (co_pages m) (c :: w) = length (co_pages m) ->
      desc g y (drop (length (co_pages m)) (c :: w)) v j st ->
      desc g x (c :: w) (co_val m ++ v) (length (co_pages m) + j) st.

(** The constructors for a query given by its first page. *)
Lemma desc_miss_at g x n c w :
  head w = Some c -> g !! x = Some n -> dict_get (co_children n) c = None -> desc g x w [] 0 (AtNode x).
Proof. destruct w as [|c0 w]; [done|]. intros [= ->]. apply desc_miss. Qed.

Lemma desc_inside_at g x n c w y m i :
  head w = Some c -> g !! x = Some n -> dict_get (co_children n) c = Some y -> g !! y = Some m ->
  lcp (co_pages m) w = i -> (i < length (co_pages m))%nat ->
  desc g x w (take (i * ps) (co_val m)) i (Inside y i).
Proof.
  destruct w as [|c0 w]; [done|]. intros [= ->] Hn Hc Hm <- Hlt. by eapply desc_inside.
Qed.

Lemma desc_through_at g x n c w y m v j st :
  head w = Some c -> g !! x = Some n -> dict_get (co_children n) c = Some y -> g !! y = Some m ->
  lcp (co_pages m) w = length (co_pages m) ->
  desc g y (drop (length (co_pages m)) w) v j st ->
  desc g x w (co_val m ++ v) (length (co_pages m) + j) st.
Proof. destruct w as [|c0 w]; [done|]. intros [= ->] Hn Hc Hm Hl Hd. by eapply desc_through. Qed.

Lemma desc_length g L x w v j st :
  shape g L -> x ∈ L -> desc g x w v j st -> length v = (j * ps)%nat /\ (j ≤ length w)%nat.
Proof.
  intros Hs Hx Hd. induction Hd as [|x n c w Hn Hc|x n c w y m Hn Hc Hm Hlt|
    x n c w y m v j st Hn Hc Hm Hfull Hd IH]; [simpl; lia|simpl; lia|..];
    destruct (sh_child _ _ Hs _ _ _ _ Hx Hn Hc) as (Hy & Hyr & _);
    pose proof (node_ok_length m (shape_node_ok _ _ _ _ Hs Hy Hyr Hm)) as Hlen.
  - pose proof (lcp_le_r (co_pages m) (c :: w)). rewrite length_take. split; [nia|done].
  - destruct (IH Hy) as [IH1 IH2]. pose proof (lcp_le_r (co_pages m) (c :: w)) as Hle.
    rewrite length_drop in IH2. rewrite length_app, Hlen, IH1. split; [lia|].
    rewrite Hfull in Hle. lia.
Qed.

(** A descent goes as far as any node below shares pages with the query, and
    reads the same indices. *)
Lemma desc_maximal g L x z w' v' w v j st :
  shape g L -> x ∈ L -> down g x z w' v' -> desc g x w v j st ->
  (lcp w' w ≤ j)%nat /\ take (lcp w' w * ps) v' = take (lcp w' w * ps) v.
Proof.
  intros Hs Hx Hd. revert w v j. induction Hd as [x|x n c y m z w' v' Hn Hc Hm Hh Hd IH];
    intros w v j Hdesc; [simpl; split; [lia|done]|].
  destruct (sh_child _ _ Hs _ _ _ _ Hx Hn Hc) as (Hy & Hyr & _).
  pose proof (node_ok_length m (shape_node_ok _ _ _ _ Hs Hy Hyr Hm)) as Hlen.
  destruct w as [|c' w]; [rewrite lcp_nil_r; simpl; split; [lia|by rewrite !take_0]|].
  destruct (decide (c' = c)) as [->|Hne]; cycle 1.
  { assert (lcp (co_pages m ++ w') (c' :: w) = O) as ->; [|simpl; split; [lia|by rewrite !take_0]].
    destruct (co_pages m) as [|c0 l0]; [done|]. injection Hh as ->. simpl. by rewrite decide_False. }
  rewrite lcp_app_l. inversion Hdesc as [|? n' ? ? Hn' Hc'|? n' ? ? y' m' Hn' Hc' Hm' Hlt|
    ? n' ? ? y' m' v0 j0 st0 Hn' Hc' Hm' Hfull Hd']; simplify_eq.
  - rewrite decide_True by done. split; [done|].
    rewrite take_take, Nat.min_l by lia. rewrite take_app_le by (rewrite Hlen; nia). done.
  - rewrite decide_False by lia. destruct (IH Hy _ _ _ Hd') as [IH1 IH2]. split; [lia|].
    rewrite !take_app_ge by (rewrite Hlen; nia). f_equal. rewrite Hlen.
    replace ((length (co_pages m) + lcp w' (drop (length (co_pages m)) (c :: w))) * ps -
      length (co_pages m) * ps)%nat with (lcp w' (drop (length (co_pages m)) (c :: w)) * ps)%nat by nia.
    done.
Qed.

(** A lookup from the root finds the longest stored prefix. *)
Lemma desc_longest g L w v j st w' v' :
  shape g L -> desc g r w v j st -> stored g L w' v' -> w' `prefix_of` w ->
  (length w' ≤ j)%nat /\ v' = take (length w' * ps) v.
Proof.
  intros Hs Hd (z & l & wz & vz & Hz & Hu & Hp & ->) Hpw.
  pose proof (up_down _ _ _ _ _ _ Hs Hz Hu) as Hdown.
  destruct (desc_maximal g L r z wz vz w v j st Hs (sh_root_in _ _ Hs) Hdown Hd) as [Hj Ht].
  assert (length w' ≤ lcp wz w)%nat as Hle.
  { apply lcp_ge_prefix; [|by apply prefix_length..].
    destruct Hp as [k1 ->], Hpw as [k2 ->]. by rewrite !take_app_length. }
  split; [lia|]. apply (f_equal (take (length w' * ps))) in Ht. rewrite !take_take in Ht.
  rewrite !Nat.min_l in Ht by nia. done.
Qed.

(** Where a descent that starts at [x] ends. *)
Lemma desc_at g L x w v j st l0 w0 v0 y :
  shape g L -> x ∈ L -> up g x l0 w0 v0 -> desc g x w v j st -> st = AtNode y ->
  y ∈ L /\ (exists l, up g y l (w0 ++ take j w) (v0 ++ v)) /\
  (j = length w \/ exists n c, w !! j = Some c /\ g !! y = Some n /\ dict_get (co_children n) c = None).
Proof.
  intros Hs Hx Hu Hd. revert l0 w0 v0 Hu. induction Hd as [x|x n c w Hn Hc|x n c w y' m Hn Hc Hm Hlt|
    x n c w y' m v j st Hn Hc Hm Hfull Hd IH]; intros l0 w0 v0 Hu Hst; try (injection Hst as ? ?); try (injection Hst as ?); subst; try done.
  - rewrite take_nil, !app_nil_r. eauto.
  - rewrite take_0, !app_nil_r. split_and!; [done|by eauto|]. right. by exists n, c.
  - destruct (sh_child _ _ Hs _ _ _ _ Hx Hn Hc) as (Hy & Hyr & m0 & Hm0 & Hp & Hh).
    rewrite Hm in Hm0. injection Hm0 as <-.
    destruct (IH Hy (y' :: l0) (w0 ++ co_pages m) (v0 ++ co_val m)) as (HyL & (l & Hl) & Hend);
      [by eapply up_node|done|].
    assert (co_pages m = take (length (co_pages m)) (c :: w)) as Hpre.
    { rewrite <-(lcp_take (co_pages m) (c :: w)) by lia. by rewrite firstn_all. }
    split_and!; [done|exists l|].
    + replace (take (length (co_pages m) + j) (c :: w)) with
        (co_pages m ++ take j (drop (length (co_pages m)) (c :: w))); [by rewrite !app_assoc|].
      rewrite Hpre at 1. rewrite take_take_drop. done.
    + pose proof (lcp_le_r (co_pages m) (c :: w)). rewrite length_drop in Hend.
      rewrite lookup_drop in Hend. destruct Hend as [->|He]; [left; lia|by right].
Qed.

Lemma desc_in g L x w v j st l0 w0 v0 y i :
  shape g L -> x ∈ L -> up g x l0 w0 v0 -> desc g x w v j st -> st = Inside y i ->
  exists m p lp k vp, y ∈ L /\ y ≠ r /\ g !! y = Some m /\ co_parent m = Some p /\ p ∈ L /\
    j = (k + i)%nat /\ (0 < i < length (co_pages m))%nat /\ lcp (co_pages m) (drop k w) = i /\
    up g p lp (w0 ++ take k w) (v0 ++ vp) /\ v = vp ++ take (i * ps) (co_val m).
Proof.
  intros Hs Hx Hu Hd. revert l0 w0 v0 Hu. induction Hd as [x|x n c w Hn Hc|x n c w y' m Hn Hc Hm Hlt|
    x n c w y' m v j st Hn Hc Hm Hfull Hd IH]; intros l0 w0 v0 Hu Hst; try (injection Hst as ? ?); try (injection Hst as ?); subst; try done.
  - destruct (sh_child _ _ Hs _ _ _ _ Hx Hn Hc) as (Hy & Hyr & m0 & Hm0 & Hp & Hh).
    rewrite Hm in Hm0. injection Hm0 as <-.
    exists m, x, l0, O, []. rewrite take_0, drop_0, !app_nil_r, !app_nil_l.
    split_and!; try done. destruct (co_pages m) as [|c0 l1]; [done|]. injection Hh as ->.
    simpl. rewrite decide_True by done. lia.
  - destruct (sh_child _ _ Hs _ _ _ _ Hx Hn Hc) as (Hy & Hyr & m0 & Hm0 & Hp & Hh).
    rewrite Hm in Hm0. injection Hm0 as <-.
    destruct (IH Hy (y' :: l0) (w0 ++ co_pages m) (v0 ++ co_val m)) as
      (my & p & lp & k & vp & HyL & Hyr' & Hg & Hpar & HpL & -> & Hi & Hl & Hup & ->);
      [by eapply up_node|done|].
    assert (co_pages m = take (length (co_pages m)) (c :: w)) as Hpre.
    { rewrite <-(lcp_take (co_pages m) (c :: w)) by lia. by rewrite firstn_all. }
    exists my, p, lp, (length (co_pages m) + k)%nat, (co_val m ++ vp).
    split_and!; try done; [lia|lia|lia|by rewrite <-drop_drop| |by rewrite app_assoc].
    replace (take (length (co_pages m) + k) (c :: w)) with
      (co_pages m ++ take k (drop (length (co_pages m)) (c :: w))); [by rewrite !app_assoc|].
    rewrite Hpre at 1. rewrite take_take_drop. done.
Qed.

(** What a descent from the root finds is stored. *)
Lemma desc_stored g L w v j st :
  shape g L -> desc g r w v j st -> (j ≤ length w)%nat /\ stored g L (take j w) v.
Proof.
  intros Hs Hd. pose proof (sh_root_in _ _ Hs) as Hr. destruct (desc_length _ _ _ _ _ _ _ Hs Hr Hd) as [Hlv Hj].
  split; [done|]. assert (up g r [] [] []) as Hu by constructor. destruct st as [y|y i].
  - destruct (desc_at _ _ _ _ _ _ _ _ _ _ y Hs Hr Hu Hd eq_refl) as (Hy & (l & Hl) & _). by eapply stored_node.
  - destruct (desc_in _ _ _ _ _ _ _ _ _ _ y i Hs Hr Hu Hd eq_refl) as
      (m & p & lp & k & vp & Hy & Hyr & Hm & Hp & HpL & -> & Hi & Hl & Hup & ->).
    simpl in Hup. exists y, (y :: lp), (take k w ++ co_pages m), (vp ++ co_val m).
    pose proof (up_value_length _ _ _ _ _ _ Hs HpL Hup) as Hvp.
    pose proof (node_ok_length _ (shape_node_ok _ _ _ _ Hs Hy Hyr Hm)) as Hmv.
    assert (k ≤ length w)%nat by lia. rewrite length_take, Nat.min_l in Hvp by done.
    split_and!; [done|by eapply up_node| |].
    + rewrite <-take_take_drop. apply prefix_app. rewrite <-(lcp_take (co_pages m) (drop k w)) by lia. apply prefix_take.
    + rewrite length_take, Nat.min_l by lia. rewrite take_app_ge by nia. f_equal. f_equal. rewrite Hvp. nia.
Qed.

(** ** Nodes are determined by what they spell *)

Lemma down_unique g L x z1 w v1 z2 v2 :
  shape g L -> x ∈ L -> down g x z1 w v1 -> down g x z2 w v2 -> z1 = z2 /\ v1 = v2.
Proof.
  intros Hs Hx Hd1. revert z2 v2. induction Hd1 as [x|x n c y m z w v Hn Hc Hm Hh Hd IH]; intros z2 v2 Hd2.
  - inversion Hd2 as [|? n' c' y' m' ? w' v' Hn' Hc' Hm' Hh' Hd' Ez Ew]; [done|]. exfalso.
    destruct (co_pages m'); [done|]. by destruct w'.
  - destruct (sh_child _ _ Hs _ _ _ _ Hx Hn Hc) as (Hy & _).
    remember (co_pages m ++ w) as w0 eqn:Ew. destruct Hd2 as [x|x n' c' y' m' z' w' v' Hn' Hc' Hm' Hh' Hd'].
    { exfalso. destruct (co_pages m); [done|]. by destruct w. }
    simplify_eq. assert (c' = c) as ->.
    { destruct (co_pages m), (co_pages m'); simplify_eq/=. done. }
    simplify_eq. destruct (IH Hy _ _ Hd') as [-> ->]. done.
Qed.

Lemma up_unique g L x l w v x' l' v' :
  shape g L -> x ∈ L -> x' ∈ L -> up g x l w v -> up g x' l' w v' -> x = x' /\ v = v'.
Proof.
  intros Hs Hx Hx' Hu Hu'. eapply down_unique; [done|exact (sh_root_in _ _ Hs)|by eapply up_down..].
Qed.

(** A node that spells a prefix of what another one spells is above it. *)
Lemma down_split g L x z2 w2 v2 z1 w1 v1 :
  shape g L -> x ∈ L -> down g x z2 w2 v2 -> down g x z1 w1 v1 -> w2 `prefix_of` w1 ->
  exists w3 v3, down g z2 z1 w3 v3.
Proof.
  intros Hs Hx Hd2. revert z1 w1 v1. induction Hd2 as [x|x n c y m z w v Hn Hc Hm Hh Hd IH]; intros z1 w1 v1 Hd1 Hpre; [eauto|].
  destruct (sh_child _ _ Hs _ _ _ _ Hx Hn Hc) as (Hy & _).
  destruct Hd1 as [x|x n' c' y' m' z' w' v' Hn' Hc' Hm' Hh' Hd'].
  { apply prefix_nil_inv in Hpre. by destruct (co_pages m), w. }
  destruct Hpre as [k Hk]. assert (c' = c) as ->.
  { destruct (co_pages m), (co_pages m'); try done. simpl in *. congruence. }
  simplify_eq. rewrite <-app_assoc in Hk. apply app_inv_head in Hk. eapply IH; [done|done|by exists k].
Qed.

Lemma down_on_path g L y x w v l w' v' :
  shape g L -> y ∈ L -> down g y x w v -> up g x l w' v' -> y = r \/ y ∈ l.
Proof.
  intros Hs Hy Hd Hu. induction Hd as [x|x n c y m z w v Hn Hc Hm Hh Hd IH].
  - destruct (decide (x = r)) as [|Hne]; [by left|]. destruct (up_self _ _ _ _ _ Hu Hne) as [l' ->]. right. left.
  - destruct (sh_child _ _ Hs _ _ _ _ Hy Hn Hc) as (Hy' & Hyr & m' & Hm' & Hp & _). simplify_eq.
    destruct (IH Hy' Hu) as [?|Hin]; [done|]. destruct (up_suffix _ _ _ _ _ _ Hu Hin) as (l1 & l2 & w2 & v2 & -> & Hu2).
    inversion Hu2; simplify_eq. destruct (decide (x = r)) as [|Hne]; [by left|right].
    match goal with Hu3 : up g x l2 _ _ |- _ => destruct (up_self _ _ _ _ _ Hu3 Hne) as [l' ->] end. set_solver.
Qed.

Lemma up_above g L x l w v y ly w' v' :
  shape g L -> x ∈ L -> y ∈ L -> up g x l w v -> up g y ly w' v' -> w' `prefix_of` w -> y = r \/ y ∈ l.
Proof.
  intros Hs Hx Hy Hu Hu' Hpre.
  destruct (down_split g L r y w' v' x w v) as (w3 & v3 & Hd);
    [done|exact (sh_root_in _ _ Hs)|by eapply up_down|by eapply up_down|done|]. by eapply down_on_path.
Qed.

(** What the nodes of a path spell. *)
Lemma up_prefix g x l w v y ly w' v' :
  up g x l w v -> y ∈ l -> up g y ly w' v' -> w' `prefix_of` w /\ v' `prefix_of` v.
Proof.
  intros Hu Hy Hu'. induction Hu as [|x n p l w v Hx Hg Hp Hu IH]; [by apply elem_of_nil in Hy|].
  apply elem_of_cons in Hy as [->|Hy].
  - assert (up g x (x :: l) (w ++ co_pages n) (v ++ co_val n)) as Hu2 by (by eapply up_node).
    by destruct (up_fun _ _ _ _ _ _ _ _ Hu' Hu2) as (_ & -> & ->).
  - destruct (IH Hy) as [H1 H2]. split; by apply prefix_app_r.
Qed.
End tree.
