(* ===== verification/RadixMoves.v ===== *)
(** * The prefix cache: the three changes of the tree

    Every operation changes the structural heap by splitting a node, adding a
    leaf or cutting a leaf off (and by lock counts, which the tree does not
    see).  For each change: the tree stays well-formed, which paths the nodes
    have afterwards, and what happens to the stored content.  A split leaves
    the content alone. *)

From S2P Require Import Prelude PyDict RadixKey KvEvents RadixTree RadixInv.

(** The path of a node after the split. *)
Definition split_path (y new : nat) (l : list nat) : list nat :=
  l ≫= fun z => if decide (z = y) then [y; new] else [z].

Lemma split_path_elem (y new : nat) (l : list nat) z :
  z ∈ split_path y new l <-> z ∈ l \/ (z = new /\ y ∈ l).
Proof.
  unfold split_path. rewrite list_elem_of_bind. split.
  - intros (z' & Hz & Hz'). case_decide; subst; set_solver.
  - intros [Hz|[-> Hy]].
    + exists z. split; [|done]. case_decide; set_solver.
    + exists y. rewrite decide_True by done. set_solver.
Qed.

Lemma split_path_cons (y new z : nat) (l : list nat) :
  split_path y new (z :: l) = (if decide (z = y) then [y; new] else [z]) ++ split_path y new l.
Proof. done. Qed.

Lemma split_path_notin (y new : nat) (l : list nat) : y ∉ l -> split_path y new l = l.
Proof.
  induction l as [|z l IH]; intros Hy; [done|]. unfold split_path in *. cbn.
  rewrite decide_False by set_solver. cbn. f_equal. apply IH. set_solver.
Qed.

Section moves.
Context (ps r : nat) (ps_pos : (0 < ps)%nat).
Implicit Types (g : cores) (L : gset nat) (x y z p : nat) (l : list nat).

Abbreviation co_pages n := (pages ps (co_key n)).
Abbreviation shape := (shape ps r).
Abbreviation up := (up ps r).
Abbreviation stored := (stored ps r).

(** ** Splitting node [y] after [i] pages *)

Definition split_new (m : core_t) (i y p : nat) (c' : child_key_t) h1 : core_t :=
  Core [(c', y)] (Some p) (key_take (i * ps) (co_key m)) (Some (take (i * ps) (co_val m)))
    (co_lock m) h1.
Definition split_child (m : core_t) (i new : nat) h2 : core_t :=
  Core (co_children m) (Some new) (key_drop (i * ps) (co_key m)) (Some (drop (i * ps) (co_val m)))
    (co_lock m) h2.
Definition refile (pn : core_t) (ck : child_key_t) (new : nat) : core_t :=
  Core (dict_set (co_children pn) ck new) (co_parent pn) (co_key pn) (co_value pn) (co_lock pn)
    (co_hash pn).

Section split.
Context (g : cores) (L : gset nat) (y i new p : nat) (m pn : core_t) (ck c' : child_key_t)
  (h1 h2 : option (list string)).
Hypothesis Hshape : shape g L.
Hypothesis HyL : y ∈ L.
Hypothesis Hyr : y ≠ r.
Hypothesis Hm : g !! y = Some m.
Hypothesis Hp : co_parent m = Some p.
Hypothesis Hpn : g !! p = Some pn.
Hypothesis Hck : head (co_pages m) = Some ck.
Hypothesis Hc' : head (drop i (co_pages m)) = Some c'.
Hypothesis Hi : (0 < i < length (co_pages m))%nat.
Hypothesis Hnew : g !! new = None.

Definition split_cores : cores :=
  <[p := refile pn ck new]> (<[y := split_child m i new h2]> (<[new := split_new m i y p c' h1]> g)).

Lemma split_parent : p ∈ L /\ dict_get (co_children pn) ck = Some y /\ p ≠ y /\ p ≠ new /\ new ≠ y.
Proof.
  destruct (sh_node _ _ _ _ Hshape y HyL Hyr) as (n & p' & pn' & c & H1 & _ & H2 & H3 & H4 & H5 & H6).
  simplify_eq. split_and!; try done; try congruence. intros ->.
  destruct (sh_up _ _ _ _ Hshape y HyL) as (l & w & v & Hu).
  inversion Hu as [|? n0 p0 l0 w0 v0 ? Hg Hp0 Hu0]; simplify_eq.
  destruct (up_self _ _ _ _ _ _ _ Hu0) as [l' ->]; [done|].
  apply up_NoDup in Hu. apply NoDup_cons in Hu as [Hu _]. set_solver.
Qed.

Lemma split_lookup_new : split_cores !! new = Some (split_new m i y p c' h1).
Proof.
  destruct split_parent as (_ & _ & H1 & H2 & H3). unfold split_cores.
  rewrite lookup_insert_ne, lookup_insert_ne, lookup_insert_eq; done.
Qed.

Lemma split_lookup_y : split_cores !! y = Some (split_child m i new h2).
Proof.
  destruct split_parent as (_ & _ & H1 & H2 & H3). unfold split_cores.
  rewrite lookup_insert_ne, lookup_insert_eq; done.
Qed.

Lemma split_lookup_p : split_cores !! p = Some (refile pn ck new).
Proof. unfold split_cores. by rewrite lookup_insert_eq. Qed.

Lemma split_lookup_other x : x ≠ new -> x ≠ y -> x ≠ p -> split_cores !! x = g !! x.
Proof. intros. unfold split_cores. rewrite !lookup_insert_ne; done. Qed.

(** An old node keeps its place (unless it is [y]) and its children (unless
    they are [y]). *)
Lemma split_lookup_old x n :
  g !! x = Some n -> exists n', split_cores !! x = Some n' /\
    (x ≠ y -> place n' = place n) /\ co_lock n' = co_lock n /\
    (forall c z, z ≠ y -> dict_get (co_children n) c = Some z -> dict_get (co_children n') c = Some z) /\
    (x ≠ p -> co_children n' = co_children n).
Proof.
  intros Hx. destruct split_parent as (HpL & Hpy & H1 & H2 & H3).
  destruct (decide (x = p)) as [->|Hxp].
  - rewrite split_lookup_p. eexists. split; [done|]. simplify_eq. split_and!; [done|done| |done].
    intros c z Hz Hc. simpl. rewrite dict_get_set_ne; [done|]. intros ->. congruence.
  - destruct (decide (x = y)) as [->|Hxy].
    + rewrite split_lookup_y. eexists. split; [done|]. simplify_eq. split_and!; done.
    + rewrite split_lookup_other by congruence. exists n. split_and!; done.
Qed.

Lemma split_pages :
  co_pages (split_new m i y p c' h1) = take i (co_pages m) /\
  co_pages (split_child m i new h2) = drop i (co_pages m).
Proof. simpl. by rewrite pages_take, pages_drop by done. Qed.

Lemma split_up_new l w v :
  up g p l w v ->
  up split_cores p l w v ->
  up split_cores new (new :: l) (w ++ take i (co_pages m)) (v ++ take (i * ps) (co_val m)).
Proof.
  intros _ Hu. rewrite <-(proj1 split_pages).
  eapply (up_node _ _ _ _ (split_new m i y p c' h1)); [|apply split_lookup_new|done|done].
  intros ->. destruct (sh_root _ _ _ _ Hshape) as (n & Hn & _). congruence.
Qed.

(** Every old node keeps its pages and indices; paths through [y] now also
    pass the new node. *)
Lemma split_up x l w v :
  up g x l w v -> up split_cores x (split_path y new l) w v.
Proof.
  induction 1 as [|x n q l w v Hx Hn Hq Hu IH]; [constructor|].
  assert (x ≠ new) as Hxn by congruence.
  destruct (decide (x = y)) as [->|Hxy].
  - simplify_eq. rewrite split_path_cons, decide_True by done.
    pose proof (split_up_new l w v Hu) as Hn2.
    replace (split_path y new l) with l in *; cycle 1.
    { assert (y ∉ l) as Hnl.
      { pose proof (up_node ps r g y m p l w v Hyr Hm Hp Hu) as Hnd.
        apply up_NoDup in Hnd. by apply NoDup_cons in Hnd as []. }
      by rewrite split_path_notin. }
    specialize (Hn2 IH).
    replace (w ++ co_pages m) with
      ((w ++ take i (co_pages m)) ++ co_pages (split_child m i new h2))
      by (rewrite (proj2 split_pages), <-app_assoc; by rewrite take_drop).
    replace (v ++ co_val m) with ((v ++ take (i * ps) (co_val m)) ++ co_val (split_child m i new h2))
      by (rewrite <-app_assoc; f_equal; apply take_drop).
    eapply up_node; [done|apply split_lookup_y|reflexivity|]. exact Hn2.
  - rewrite split_path_cons, decide_False by done.
    destruct (split_lookup_old x n Hn) as (n' & Hn' & Hpl & _). specialize (Hpl Hxy).
    injection Hpl as E1 E2 E3. replace (co_pages n) with (co_pages n') by (by rewrite E2).
    replace (co_val n) with (co_val n') by (unfold co_val; by rewrite E3).
    eapply up_node; [done|done|by rewrite E1|done].
Qed.

Lemma split_shape : shape split_cores (L ∪ {[new]}).
Proof.
  destruct split_parent as (HpL & Hpy & H1 & H2 & H3).
  pose proof (shape_node_ok _ _ _ _ _ _ Hshape HyL Hyr Hm) as Hmok.
  destruct Hmok as (Ha & Hlen & Hval). pose proof (aligned_len ps ps_pos (co_key m)) as [Hal _].
  specialize (Hal Ha). destruct split_pages as [Hpg1 Hpg2].
  assert (node_ok ps (split_new m i y p c' h1)).
  { split_and!; [by apply aligned_take| |done]. unfold co_val. simpl.
    rewrite length_take, key_take_len, <-Hlen. done. }
  assert (node_ok ps (split_child m i new h2)).
  { split_and!; [by apply aligned_drop| |done]. unfold co_val. simpl.
    rewrite length_drop, key_drop_len, <-Hlen. done. }
  assert (r ≠ new) as Hrn.
  { intros ->. destruct (sh_root _ _ _ _ Hshape) as (n & Hn & _). congruence. }
  split.
  - destruct (sh_root _ _ _ _ Hshape) as (n & Hn & Hpr & Hk & Hv).
    destruct (split_lookup_old r n Hn) as (n' & Hn' & Hpl & _).
    injection (Hpl (not_eq_sym Hyr)) as E1 E2 E3. exists n'. by rewrite E1, E2, E3.
  - pose proof (sh_root_in _ _ _ _ Hshape). set_solver.
  - intros x Hx Hxr. destruct (decide (x = new)) as [->|Hxn].
    { exists (split_new m i y p c' h1), p, (refile pn ck new), ck.
      split_and!; try done; [apply split_lookup_new|..].
      - set_solver.
      - apply split_lookup_p.
      - rewrite Hpg1. destruct (co_pages m); [done|]. destruct i; [lia|]. done.
      - simpl. apply dict_get_set_eq. }
    destruct (decide (x = y)) as [->|Hxy].
    { exists (split_child m i new h2), new, (split_new m i y p c' h1), c'.
      split_and!; try done; [apply split_lookup_y|..].
      - set_solver.
      - apply split_lookup_new.
      - by rewrite Hpg2.
      - simpl. by rewrite decide_True. }
    destruct (sh_node _ _ _ _ Hshape x) as (n & q & qn & c & Hn & Hok & Hq & HqL & Hqn & Hc & Hqc);
      [set_solver|done|].
    destruct (split_lookup_old x n Hn) as (n' & Hn' & Hpl & _).
    injection (Hpl Hxy) as E1 E2 E3.
    destruct (split_lookup_old q qn Hqn) as (qn' & Hqn' & _ & _ & Hch & _).
    exists n', q, qn', c. split_and!; try done; try congruence.
    + unfold node_ok, co_val in *. by rewrite E2, E3.
    + set_solver.
    + by apply Hch.
  - intros q qn' c x Hq Hqn' Hc. destruct (decide (q = new)) as [->|Hqn].
    { rewrite split_lookup_new in Hqn'. injection Hqn' as <-. simpl in Hc. case_decide; [|done].
      simplify_eq. split_and!; [set_solver|done|].
      exists (split_child m i new h2). rewrite Hpg2. split_and!; [apply split_lookup_y|done|done]. }
    assert (q ∈ L) as HqL by set_solver.
    assert (forall qn, g !! q = Some qn -> dict_get (co_children qn) c = Some x -> x ≠ y ->
      x ∈ L ∪ {[new]} /\ x ≠ r /\ exists n, split_cores !! x = Some n /\ co_parent n = Some q /\
        head (co_pages n) = Some c) as Hold.
    { intros qn Hg Hcx Hxy. destruct (sh_child _ _ _ _ Hshape q qn c x HqL Hg Hcx) as
        (HxL & Hxr & n & Hn & Hpar & Hh).
      destruct (split_lookup_old x n Hn) as (n' & Hn' & Hpl & _). injection (Hpl Hxy) as E1 E2 E3.
      split_and!; [set_solver|done|]. exists n'. by rewrite E1, E2. }
    destruct (decide (q = p)) as [->|Hqp].
    + rewrite split_lookup_p in Hqn'. injection Hqn' as <-. simpl in Hc.
      destruct (decide (c = ck)) as [->|Hcck].
      * rewrite dict_get_set_eq in Hc. injection Hc as <-. split_and!; [set_solver|done|].
        exists (split_new m i y p c' h1). rewrite Hpg1.
        split_and!; [apply split_lookup_new|done|].
        destruct (co_pages m); [done|]. destruct i; [lia|]. done.
      * rewrite dict_get_set_ne in Hc by done. apply (Hold pn Hpn Hc). intros ->.
        destruct (shape_parent _ _ _ _ p pn c p pn ck y Hshape) as [_ ?]; done.
    + destruct (shape_lookup _ _ _ _ q Hshape HqL) as [qn Hqg].
      destruct (split_lookup_old q qn Hqg) as (qn2 & Hqn2 & _ & _ & _ & Hch).
      rewrite Hqn' in Hqn2. injection Hqn2 as <-. rewrite (Hch Hqp) in Hc.
      apply (Hold qn Hqg Hc). intros ->.
      destruct (shape_parent _ _ _ _ q qn c p pn ck y Hshape) as [? _]; done.
  - intros q qn' Hq Hqn'. destruct (decide (q = new)) as [->|Hqn].
    { rewrite split_lookup_new in Hqn'. injection Hqn' as <-. unfold dict_wf. simpl. apply NoDup_singleton. }
    assert (q ∈ L) as HqL by set_solver.
    destruct (shape_lookup _ _ _ _ q Hshape HqL) as [qn Hqg].
    destruct (split_lookup_old q qn Hqg) as (qn2 & Hqn2 & _ & _ & _ & Hch).
    rewrite Hqn' in Hqn2. injection Hqn2 as <-. pose proof (sh_wf _ _ _ _ Hshape q qn HqL Hqg) as Hwf.
    destruct (decide (q = p)) as [->|Hqp]; [|by rewrite (Hch Hqp)].
    rewrite split_lookup_p in Hqn'. injection Hqn' as <-. simplify_eq. simpl. by apply dict_wf_set.
  - intros x Hx. destruct (decide (x = new)) as [->|Hxn].
    + destruct (sh_up _ _ _ _ Hshape p HpL) as (l & w & v & Hu).
      assert (up g y (y :: l) (w ++ co_pages m) (v ++ co_val m)) as Huy by (by eapply up_node).
      assert (y ∉ l) as Hyl by (apply up_NoDup in Huy; by apply NoDup_cons in Huy as []).
      do 3 eexists. apply (split_up_new l w v); [done|].
      rewrite <-(split_path_notin y new l) by done. by apply split_up.
    + destruct (sh_up _ _ _ _ Hshape x) as (l & w & v & Hu); [set_solver|].
      do 3 eexists. by apply split_up.
Qed.

(** The path of the new node. *)
Lemma split_new_path l w v :
  up g p l w v ->
  up split_cores new (new :: l) (w ++ take i (co_pages m)) (v ++ take (i * ps) (co_val m)).
Proof.
  intros Hu. apply split_up_new; [done|].
  assert (up g y (y :: l) (w ++ co_pages m) (v ++ co_val m)) as Huy by (by eapply up_node).
  assert (y ∉ l) as Hyl by (apply up_NoDup in Huy; by apply NoDup_cons in Huy as []).
  rewrite <-(split_path_notin y new l) by done. by apply split_up.
Qed.

(** A split does not change the content. *)
Lemma split_stored w v : stored split_cores (L ∪ {[new]}) w v <-> stored g L w v.
Proof.
  destruct split_parent as (HpL & _). split; intros (x & l & w' & v' & Hx & Hu & Hw & ->).
  - destruct (decide (x = new)) as [->|Hxn].
    + destruct (sh_up _ _ _ _ Hshape p HpL) as (lp & wp & vp & Hup).
      destruct (up_fun _ _ _ _ _ _ _ _ _ _ Hu (split_new_path _ _ _ Hup)) as (_ & -> & ->).
      exists y, (y :: lp), (wp ++ co_pages m), (vp ++ co_val m).
      split_and!; [done|by eapply up_node| |].
      * etrans; [exact Hw|]. apply prefix_app. by apply prefix_take || (exists (drop i (co_pages m)); by rewrite take_drop).
      * pose proof (shape_node_ok _ _ _ _ _ _ Hshape HyL Hyr Hm) as Hok.
        apply (node_ok_length ps ps_pos) in Hok.
        pose proof (up_value_length _ _ ps_pos _ _ _ _ _ _ Hshape HpL Hup) as Hvp.
        apply prefix_length in Hw. rewrite length_app, length_take in Hw.
        rewrite !take_app. f_equal. rewrite take_take. f_equal. rewrite Hvp. nia.
    + destruct (sh_up _ _ _ _ Hshape x) as (l0 & w0 & v0 & Hu0); [set_solver|].
      destruct (up_fun _ _ _ _ _ _ _ _ _ _ Hu (split_up _ _ _ _ Hu0)) as (_ & -> & ->).
      exists x, l0, w0, v0. split_and!; try done. set_solver.
  - exists x, (split_path y new l), w', v'. split_and!; [set_solver|by apply split_up|done|done].
Qed.
End split.

(** ** Adding a leaf under node [q] *)

Section add.
Context (g : cores) (L : gset nat) (q new : nat) (qn : core_t) (c : child_key_t) (k : RadixKey)
  (v0 : list Z) (h : option (list string)).
Hypothesis Hshape : shape g L.
Hypothesis HqL : q ∈ L.
Hypothesis Hqn : g !! q = Some qn.
Hypothesis Hfree : dict_get (co_children qn) c = None.
Hypothesis Hk : aligned ps k.
Hypothesis Hc : head (pages ps k) = Some c.
Hypothesis Hv : length v0 = key_len k.
Hypothesis Hnew : g !! new = None.

Definition leaf_core : core_t := Core [] (Some q) k (Some v0) 0 h.
Definition add_cores : cores := <[q := refile qn c new]> (<[new := leaf_core]> g).

Lemma add_neq : q ≠ new /\ r ≠ new.
Proof.
  split; [congruence|]. intros E. destruct (sh_root _ _ _ _ Hshape) as (n & Hn & _). congruence.
Qed.

Lemma add_lookup_new : add_cores !! new = Some leaf_core.
Proof. destruct add_neq. unfold add_cores. by rewrite lookup_insert_ne, lookup_insert_eq. Qed.

Lemma add_lookup_q : add_cores !! q = Some (refile qn c new).
Proof. unfold add_cores. by rewrite lookup_insert_eq. Qed.

Lemma add_lookup_old x n :
  g !! x = Some n -> exists n', add_cores !! x = Some n' /\ place n' = place n /\
    co_lock n' = co_lock n /\
    (forall c' z, dict_get (co_children n) c' = Some z -> dict_get (co_children n') c' = Some z) /\
    (x ≠ q -> n' = n).
Proof.
  intros Hx. destruct (decide (x = q)) as [->|Hxq].
  - rewrite add_lookup_q. eexists. split; [done|]. simplify_eq. split_and!; try done.
    intros c' z Hz. simpl. rewrite dict_get_set_ne; [done|]. congruence.
  - exists n. split_and!; try done. unfold add_cores. rewrite !lookup_insert_ne; congruence.
Qed.

Lemma add_up x l w v : up g x l w v -> up add_cores x l w v.
Proof.
  intros Hu. eapply up_frame; [done|]. intros y n _ Hy.
  destruct (add_lookup_old y n Hy) as (n' & Hn' & Hpl & _). eauto.
Qed.

Lemma add_new_path l w v :
  up g q l w v -> up add_cores new (new :: l) (w ++ pages ps k) (v ++ v0).
Proof.
  intros Hu. destruct add_neq.
  eapply (up_node _ _ _ _ leaf_core); [done|apply add_lookup_new|done|by apply add_up].
Qed.

Lemma add_shape : shape add_cores (L ∪ {[new]}).
Proof.
  destruct add_neq as [Hqnew Hrnew]. split.
  - destruct (sh_root _ _ _ _ Hshape) as (n & Hn & Hpr & Hkr & Hvr).
    destruct (add_lookup_old r n Hn) as (n' & Hn' & Hpl & _). injection Hpl as E1 E2 E3.
    exists n'. by rewrite E1, E2, E3.
  - pose proof (sh_root_in _ _ _ _ Hshape). set_solver.
  - intros x Hx Hxr. destruct (decide (x = new)) as [->|Hxn].
    { exists leaf_core, q, (refile qn c new), c.
      split_and!; try done; [apply add_lookup_new|set_solver|apply add_lookup_q|apply dict_get_set_eq]. }
    destruct (sh_node _ _ _ _ Hshape x) as (n & p & pn & c' & Hn & Hok & Hp & HpL & Hpn & Hh & Hpc);
      [set_solver|done|].
    destruct (add_lookup_old x n Hn) as (n' & Hn' & Hpl & _). injection Hpl as E1 E2 E3.
    destruct (add_lookup_old p pn Hpn) as (pn' & Hpn' & _ & _ & Hch & _).
    exists n', p, pn', c'. unfold node_ok, co_val in *. rewrite E1, E2, E3.
    split_and!; try done; [naive_solver..|set_solver|by apply Hch].
  - intros p pn' c' x Hp Hpn' Hpc. destruct (decide (p = new)) as [->|Hpn].
    { rewrite add_lookup_new in Hpn'. by simplify_eq. }
    assert (p ∈ L) as HpL by set_solver.
    destruct (decide (x = new)) as [->|Hxn]; cycle 1.
    + destruct (shape_lookup _ _ _ _ p Hshape HpL) as [pn Hpg].
      assert (dict_get (co_children pn) c' = Some x) as Hold.
      { destruct (decide (p = q)) as [->|Hpq].
        - rewrite add_lookup_q in Hpn'. injection Hpn' as <-. simplify_eq. simpl in Hpc.
          destruct (decide (c' = c)) as [->|Hcc]; [rewrite dict_get_set_eq in Hpc; congruence|].
          by rewrite dict_get_set_ne in Hpc.
        - destruct (add_lookup_old p pn Hpg) as (pn2 & Hpn2 & _ & _ & _ & E). rewrite E in Hpn2 by done.
          congruence. }
      destruct (sh_child _ _ _ _ Hshape p pn c' x HpL Hpg Hold) as (HxL & Hxr & n & Hn & Hpar & Hh).
      destruct (add_lookup_old x n Hn) as (n' & Hn' & Hpl & _). injection Hpl as E1 E2 E3.
      split_and!; [set_solver|done|]. exists n'. by rewrite E1, E2.
    + destruct (shape_lookup _ _ _ _ p Hshape HpL) as [pn Hpg].
      destruct (add_lookup_old p pn Hpg) as (pn2 & Hpn2 & _ & _ & _ & E).
      assert (forall c0, dict_get (co_children pn) c0 ≠ Some new) as Hno.
      { intros c0 Hc0. destruct (sh_child _ _ _ _ Hshape p pn c0 new HpL Hpg Hc0) as (_ & _ & n & Hn & _).
        congruence. }
      destruct (decide (p = q)) as [->|Hpq]; [|rewrite E in Hpn2 by done; simplify_eq; by destruct (Hno c')].
      rewrite add_lookup_q in Hpn'. injection Hpn' as <-. simplify_eq. simpl in Hpc.
      destruct (decide (c' = c)) as [->|Hcc]; [|rewrite dict_get_set_ne in Hpc by done; by destruct (Hno c')].
      split_and!; [set_solver|done|]. exists leaf_core. split_and!; [apply add_lookup_new|done|done].
  - intros p pn' Hp Hpn'. destruct (decide (p = new)) as [->|Hpn].
    { rewrite add_lookup_new in Hpn'. simplify_eq. apply dict_wf_nil. }
    destruct (shape_lookup _ _ _ _ p Hshape) as [pn Hpg]; [set_solver|].
    destruct (add_lookup_old p pn Hpg) as (pn2 & Hpn2 & _ & _ & _ & E).
    assert (dict_wf (co_children pn)) by (eapply (sh_wf _ _ _ _ Hshape p); [set_solver|done]).
    destruct (decide (p = q)) as [->|Hpq]; [|rewrite E in Hpn2 by done; by simplify_eq].
    rewrite add_lookup_q in Hpn'. injection Hpn' as <-. simplify_eq. by apply dict_wf_set.
  - intros x Hx. destruct (decide (x = new)) as [->|Hxn].
    + destruct (sh_up _ _ _ _ Hshape q HqL) as (l & w & v & Hu). do 3 eexists. by apply add_new_path.
    + destruct (sh_up _ _ _ _ Hshape x) as (l & w & v & Hu); [set_solver|]. do 3 eexists. by apply add_up.
Qed.

(** The content grows by the prefixes of the new path. *)
Lemma add_stored lq wq vq w v :
  up g q lq wq vq ->
  stored add_cores (L ∪ {[new]}) w v <->
  stored g L w v \/
  (w `prefix_of` wq ++ pages ps k /\ v = take (length w * ps) (vq ++ v0)).
Proof.
  intros Huq. split.
  - intros (x & l & w' & v' & Hx & Hu & Hw & ->). destruct (decide (x = new)) as [->|Hxn].
    + destruct (up_fun _ _ _ _ _ _ _ _ _ _ Hu (add_new_path _ _ _ Huq)) as (_ & -> & ->). by right.
    + left. destruct (sh_up _ _ _ _ Hshape x) as (l0 & w0 & v1 & Hu0); [set_solver|].
      destruct (up_fun _ _ _ _ _ _ _ _ _ _ Hu (add_up _ _ _ _ Hu0)) as (_ & -> & ->).
      exists x, l0, w0, v1. split_and!; try done. set_solver.
  - intros [(x & l & w' & v' & Hx & Hu & Hw & ->)|[Hw ->]].
    + exists x, l, w', v'. split_and!; [set_solver|by apply add_up|done|done].
    + exists new, (new :: lq), (wq ++ pages ps k), (vq ++ v0).
      split_and!; [set_solver|by apply add_new_path|done|done].
Qed.
End add.

(** ** Cutting off leaf [x] *)

(** What is on a path is found when looked up from the root. *)
Lemma desc_path g L z x w' v' w v j st :
  shape g L -> z ∈ L -> down ps g z x w' v' -> desc ps g x w v j st ->
  desc ps g z (w' ++ w) (v' ++ v) (length w' + j) st.
Proof.
  intros Hs Hz Hd. induction Hd as [z|z n c y m x w' v' Hn Hc Hm Hh Hd IH]; intros Hdesc; [done|].
  rewrite <-!app_assoc, length_app, <-Nat.add_assoc.
  destruct (sh_child _ _ _ _ Hs _ _ _ _ Hz Hn Hc) as (Hy & _).
  assert (lcp (co_pages m) (co_pages m ++ w' ++ w) = length (co_pages m)) as Hl
    by (by apply lcp_prefix, prefix_app_r).
  specialize (IH Hy Hdesc). remember (co_pages m) as pg eqn:E. destruct pg as [|c0 pg]; [done|].
  injection Hh as ->. change ((c :: pg) ++ w' ++ w) with (c :: (pg ++ w' ++ w)) in *. rewrite E.
  eapply desc_through; [done|done|done|by rewrite <-E|]. rewrite <-E.
  change (c :: (pg ++ w' ++ w)) with ((c :: pg) ++ w' ++ w). by rewrite drop_app_length.
Qed.

Section cut.
Context (g : cores) (L : gset nat) (x p : nat) (n pn : core_t) (c : child_key_t).
Hypothesis Hshape : shape g L.
Hypothesis HxL : x ∈ L.
Hypothesis Hxr : x ≠ r.
Hypothesis Hn : g !! x = Some n.
Hypothesis Hleaf : co_children n = [].
Hypothesis Hp : co_parent n = Some p.
Hypothesis Hpn : g !! p = Some pn.
Hypothesis Hc : head (co_pages n) = Some c.

Definition unfile : core_t :=
  Core (dict_del (co_children pn) c) (co_parent pn) (co_key pn) (co_value pn) (co_lock pn) (co_hash pn).
Definition cut_cores : cores := <[p := unfile]> g.

Lemma cut_parent : p ∈ L /\ dict_get (co_children pn) c = Some x /\ p ≠ x.
Proof.
  destruct (sh_node _ _ _ _ Hshape x HxL Hxr) as (n' & p' & pn' & c0 & H1 & _ & H2 & H3 & H4 & H5 & H6).
  simplify_eq. split_and!; try done. intros ->. by simplify_eq; rewrite Hleaf in H6.
Qed.

Lemma cut_lookup y m : g !! y = Some m ->
  exists m', cut_cores !! y = Some m' /\ place m' = place m /\ co_lock m' = co_lock m /\
    (forall c' z, z ≠ x -> dict_get (co_children m) c' = Some z -> dict_get (co_children m') c' = Some z) /\
    (forall c' z, dict_get (co_children m') c' = Some z -> dict_get (co_children m) c' = Some z) /\
    (dict_wf (co_children m) -> dict_wf (co_children m')) /\ (y ≠ p -> m' = m).
Proof.
  intros Hy. destruct cut_parent as (HpL & Hpc & Hpx). destruct (decide (y = p)) as [->|Hyp].
  - exists unfile. unfold cut_cores. rewrite lookup_insert_eq. simplify_eq. split_and!; try done; simpl.
    + intros c' z Hz Hg. rewrite dict_get_del_ne; [done|]. congruence.
    + intros c' z Hg. destruct (decide (c' = c)) as [->|Hne]; [by rewrite dict_get_del_eq in Hg|].
      by rewrite dict_get_del_ne in Hg.
    + apply dict_wf_del.
  - exists m. split_and!; try done. unfold cut_cores. by rewrite lookup_insert_ne.
Qed.

Lemma cut_up y l w v : up g y l w v -> up cut_cores y l w v.
Proof.
  intros Hu. eapply up_frame; [done|]. intros z m _ Hz.
  destruct (cut_lookup z m Hz) as (m' & Hm' & Hpl & _). eauto.
Qed.

Lemma cut_shape : shape cut_cores (L ∖ {[x]}).
Proof.
  destruct cut_parent as (HpL & Hpc & Hpx). split.
  - destruct (sh_root _ _ _ _ Hshape) as (m & Hm & Hpr & Hk & Hv).
    destruct (cut_lookup r m Hm) as (m' & Hm' & Hpl & _). injection Hpl as E1 E2 E3.
    exists m'. by rewrite E1, E2, E3.
  - pose proof (sh_root_in _ _ _ _ Hshape). set_solver.
  - intros y [Hy Hyx]%elem_of_difference Hyr. apply not_elem_of_singleton in Hyx.
    destruct (sh_node _ _ _ _ Hshape y Hy Hyr) as
      (m & q & qn & c' & Hm & Hok & Hq & HqL & Hqn & Hh & Hqc).
    destruct (cut_lookup y m Hm) as (m' & Hm' & Hpl & _). injection Hpl as E1 E2 E3.
    destruct (cut_lookup q qn Hqn) as (qn' & Hqn' & _ & _ & Hch & _).
    exists m', q, qn', c'. unfold node_ok, co_val in *. rewrite E1, E2, E3.
    split_and!; try done; [naive_solver..| |by apply Hch].
    apply elem_of_difference. split; [done|]. intros ->%elem_of_singleton. simplify_eq.
    by rewrite Hleaf in Hqc.
  - intros q qn' c' y [Hq Hqx]%elem_of_difference Hqn' Hqc.
    destruct (shape_lookup _ _ _ _ q Hshape Hq) as [qn Hqg].
    destruct (cut_lookup q qn Hqg) as (qn2 & Hqn2 & _ & _ & _ & Hback & _).
    rewrite Hqn' in Hqn2. injection Hqn2 as <-. specialize (Hback _ _ Hqc).
    destruct (sh_child _ _ _ _ Hshape q qn c' y Hq Hqg Hback) as (Hy & Hyr & m & Hm & Hpar & Hh).
    destruct (cut_lookup y m Hm) as (m' & Hm' & Hpl & _). injection Hpl as E1 E2 E3.
    split_and!; [|done|exists m'; by rewrite E1, E2].
    apply elem_of_difference. split; [done|]. intros ->%elem_of_singleton. simplify_eq.
    unfold cut_cores in Hqn'. rewrite lookup_insert_eq in Hqn'. injection Hqn' as <-.
    simpl in Hqc. by rewrite dict_get_del_eq in Hqc.
  - intros q qn' [Hq _]%elem_of_difference Hqn'.
    destruct (shape_lookup _ _ _ _ q Hshape Hq) as [qn Hqg].
    destruct (cut_lookup q qn Hqg) as (qn2 & Hqn2 & _ & _ & _ & _ & Hwf & _).
    rewrite Hqn' in Hqn2. injection Hqn2 as <-. apply Hwf. by eapply (sh_wf _ _ _ _ Hshape q).
  - intros y [Hy _]%elem_of_difference. destruct (sh_up _ _ _ _ Hshape y Hy) as (l & w & v & Hu).
    do 3 eexists. by apply cut_up.
Qed.

(** No other node hangs below a leaf. *)
Lemma cut_path_avoids y l w v : y ∈ L -> y ≠ x -> up g y l w v -> x ∉ l.
Proof.
  intros Hy Hyx Hu. induction Hu as [|y m q l w v Hyr Hm Hq Hu IH]; [set_solver|].
  destruct (sh_node _ _ _ _ Hshape y Hy Hyr) as (m' & q' & qn & c' & Hm' & _ & Hq' & HqL & Hqn & _ & Hqc).
  simplify_eq. apply not_elem_of_cons. split; [done|]. apply IH; [done|]. intros ->. simplify_eq.
  by rewrite Hleaf in Hqc.
Qed.

(** Exactly the prefixes that end inside the leaf are forgotten. *)
Lemma cut_stored lp wp vp w v :
  up g p lp wp vp ->
  stored cut_cores (L ∖ {[x]}) w v <->
  stored g L w v /\ (w `prefix_of` wp ++ co_pages n -> (length w ≤ length wp)%nat).
Proof.
  intros Hup. destruct cut_parent as (HpL & Hpc & Hpx). split.
  - intros Hst. split.
    + destruct Hst as (y & l & w' & v' & Hy & Hu & Hw & ->).
      destruct (sh_up _ _ _ _ Hshape y) as (l0 & w0 & v0 & Hu0); [set_solver|].
      destruct (up_fun _ _ _ _ _ _ _ _ _ _ Hu (cut_up _ _ _ _ Hu0)) as (_ & -> & ->).
      exists y, l0, w0, v0. split_and!; try done. set_solver.
    + intros Hpre.
      assert (desc ps cut_cores r (wp ++ co_pages n) (vp ++ []) (length wp + 0) (AtNode p)) as Hd.
      { eapply (desc_path _ _ _ p); [exact cut_shape|apply (sh_root_in _ _ _ _ cut_shape)| |].
        - eapply up_down; [exact cut_shape|set_solver|by apply cut_up].
        - destruct (co_pages n) as [|c0 pg]; [done|]. injection Hc as ->.
          eapply (desc_miss _ _ _ unfile); [by unfold cut_cores; rewrite lookup_insert_eq|].
          apply dict_get_del_eq. }
      destruct (desc_longest _ _ ps_pos _ _ _ _ _ _ _ _ cut_shape Hd Hst Hpre) as [Hle _]. lia.
  - intros [(y & l & w' & v' & Hy & Hu & Hw & ->) Hlen].
    destruct (decide (y = x)) as [->|Hyx].
    + assert (up g x (x :: lp) (wp ++ co_pages n) (vp ++ co_val n)) as Hux by (by eapply up_node).
      destruct (up_fun _ _ _ _ _ _ _ _ _ _ Hu Hux) as (_ & -> & ->). specialize (Hlen Hw).
      exists p, lp, wp, vp. split_and!; [set_solver|by apply cut_up|..].
      * destruct Hw as [k Hk]. exists (drop (length w) wp).
        apply (f_equal (take (length w))) in Hk. rewrite take_app_length, take_app_le in Hk by done.
        rewrite <-Hk at 1. by rewrite take_drop.
      * pose proof (up_value_length _ _ ps_pos _ _ _ _ _ _ Hshape HpL Hup).
        rewrite take_app_le by nia. done.
    + exists y, l, w', v'. split_and!; [set_solver|by apply cut_up|done|done].
Qed.
End cut.
End moves.
