(* ===== verification/RadixState.v ===== *)
(** * The prefix cache: the invariant of the whole state

    [radix_inv s L H] says that the cache [s] is consistent: the live nodes
    [L] form a tree, the lock count of every node is the number of references
    in [H] (the nodes requests hold) whose path passes it, the two size
    counters are the sums over unlocked and locked nodes, the set of
    evictable leaves is exactly the set of unlocked nodes without children,
    and with events enabled every live node carries one valid hash per page.

    Each change of the tree preserves it. *)

From S2P Require Import Prelude PyDict RadixKey KvEvents RadixTree RadixInv RadixMoves.

(** ** Sums over finite sets of nodes *)

Definition set_sum (f : nat -> Z) (X : gset nat) : Z := sumZ f (elements X).

Section set_sum.
Implicit Types (f : nat -> Z) (X : gset nat).

Lemma set_sum_empty f : set_sum f ∅ = 0.
Proof. unfold set_sum. by rewrite elements_empty. Qed.

Lemma set_sum_add f x X : x ∉ X -> set_sum f (X ∪ {[x]}) = f x + set_sum f X.
Proof.
  intros Hx. unfold set_sum.
  rewrite (sumZ_perm f _ (x :: elements X)); [done|].
  rewrite (union_comm_L X). by apply elements_union_singleton.
Qed.

Lemma set_sum_remove f x X : x ∈ X -> set_sum f X = f x + set_sum f (X ∖ {[x]}).
Proof.
  intros Hx. rewrite <-(set_sum_add f x (X ∖ {[x]})) by set_solver.
  f_equal. apply set_eq. intros y. destruct (decide (y = x)); set_solver.
Qed.

Lemma set_sum_ext f f' X : (forall x, x ∈ X -> f x = f' x) -> set_sum f X = set_sum f' X.
Proof. intros Hf. apply sumZ_ext. intros x Hx. apply Hf. set_solver. Qed.

Lemma set_sum_plus f f' X : set_sum (fun x => f x + f' x) X = set_sum f X + set_sum f' X.
Proof. unfold set_sum. induction (elements X); simpl; lia. Qed.

Lemma set_sum_nonneg f X : (forall x, x ∈ X -> 0 <= f x) -> 0 <= set_sum f X.
Proof. intros Hf. apply sumZ_nonneg. intros x Hx. apply Hf. set_solver. Qed.

Lemma set_sum_le f x X : x ∈ X -> (forall y, y ∈ X -> 0 <= f y) -> f x <= set_sum f X.
Proof.
  intros Hx Hf. rewrite (set_sum_remove f x) by done.
  assert (0 <= set_sum f (X ∖ {[x]})); [|lia]. apply set_sum_nonneg. set_solver.
Qed.
End set_sum.

(** ** The invariant *)

Definition co_len (n : core_t) : Z := Z.of_nat (key_len (co_key n)).

(** The length of node [x] if it satisfies [P]. *)
Definition size_if (P : Z -> bool) (g : cores) (x : nat) : Z :=
  match g !! x with
  | Some n => if P (co_lock n) then co_len n else 0
  | None => 0
  end.

Definition unlocked (z : Z) : bool := bool_decide (z = 0).
Definition is_locked (z : Z) : bool := bool_decide (z ≠ 0).

(** The number of paths in [C] that pass [x]. *)
Definition passing (C : list (list nat)) (x : nat) : Z := len (filter (fun l => x ∈ l) C).

(** A digest that [hash_str_to_int64] accepts. *)
Definition hash_valid (h : string) : Prop := exists z, hash_str_to_int64 h = Ok z.

Definition tokens_fit (k : RadixKey) : Prop := Forall (fun t => 0 <= t < 2 ^ 32) (token_ids k).

Definition hashed (ps : nat) (n : core_t) : Prop :=
  tokens_fit (co_key n) /\
  exists hv, co_hash n = Some hv /\ length hv = length (pages ps (co_key n)) /\ Forall hash_valid hv.

Record inv_at (prm : CacheParams) (g : cores) (cnt r : nat) (ev prot : Z) (E L : gset nat)
    (H : list nat) : Prop := InvAt {
  i_ps : (0 < page_size prm)%nat;
  i_fresh x : is_Some (g !! x) -> (x < cnt)%nat;
  i_shape : shape (page_size prm) r g L;
  i_root n : g !! r = Some n -> co_lock n = 1;
  i_locks : exists C,
    Forall2 (fun y l => y ∈ L /\ exists w v, up (page_size prm) r g y l w v) H C /\
    forall x n, x ∈ L -> x ≠ r -> g !! x = Some n -> co_lock n = passing C x;
  i_ev : ev = set_sum (size_if unlocked g) (L ∖ {[r]});
  i_prot : prot = set_sum (size_if is_locked g) (L ∖ {[r]});
  i_leaves x : x ∈ E <-> x ∈ L /\ x ≠ r /\ exists n, g !! x = Some n /\ co_lock n = 0 /\ co_children n = [];
  i_hash : enable_kv_cache_events prm = true ->
    forall x n, x ∈ L -> x ≠ r -> g !! x = Some n -> hashed (page_size prm) n
}.

Definition heap_cores {A} (s : RadixCache A) : cores := core <$> nodes s.

Definition radix_inv {A} (s : RadixCache A) (L : gset nat) (H : list nat) : Prop :=
  inv_at (params s) (heap_cores s) (counter s) (root_node s) (evictable_size_ s)
    (protected_size_ s) (evictable_leaves s) L H.

Lemma passing_nonneg C x : 0 <= passing C x.
Proof. apply len_nonneg. Qed.

Lemma passing_cons C l x :
  passing (l :: C) x = (if decide (x ∈ l) then 1 else 0) + passing C x.
Proof.
  unfold passing. rewrite filter_cons. case_decide; [|done].
  change (len (l :: filter (fun l => x ∈ l) C)) with (len ([l] ++ filter (fun l => x ∈ l) C)).
  by rewrite len_app.
Qed.

Lemma passing_perm C1 C2 x : C1 ≡ₚ C2 -> passing C1 x = passing C2 x.
Proof. intros Hp. unfold passing, len. by rewrite Hp. Qed.

Lemma passing_pos C l x : l ∈ C -> x ∈ l -> 0 < passing C x.
Proof.
  intros Hl Hx. unfold passing, len.
  assert (l ∈ filter (fun l => x ∈ l) C) as Hin by (by apply list_elem_of_filter).
  destruct (filter _ C); [by apply elem_of_nil in Hin|]. simpl. lia.
Qed.

Lemma passing_zero C x : passing C x = 0 -> forall l, l ∈ C -> x ∉ l.
Proof. intros Hz l Hl Hx. pose proof (passing_pos C l x Hl Hx). lia. Qed.

(** A property of paths that carries over pointwise. *)
Lemma passing_map (f : list nat -> list nat) C x x' :
  (forall l, l ∈ C -> x' ∈ f l <-> x ∈ l) -> passing (f <$> C) x' = passing C x.
Proof.
  induction C as [|l C IH]; intros Hf; [done|]. rewrite fmap_cons, !passing_cons, IH by set_solver.
  specialize (Hf l ltac:(left)). repeat case_decide; try tauto; lia.
Qed.

Lemma passing_mono C x p : (forall l, l ∈ C -> x ∈ l -> p ∈ l) -> passing C x <= passing C p.
Proof.
  induction C as [|l C IH]; intros Hf; [done|]. rewrite !passing_cons.
  pose proof (Hf l ltac:(left)). assert (passing C x <= passing C p) by (apply IH; set_solver).
  repeat case_decide; try lia. tauto.
Qed.

Section derived.
Context {prm : CacheParams} {g : cores} {cnt r : nat} {ev prot : Z} {E L : gset nat} {H : list nat}.
Hypothesis Hinv : inv_at prm g cnt r ev prot E L H.
Abbreviation ps := (page_size prm).

Lemma inv_lock_nonneg x n : x ∈ L -> g !! x = Some n -> 0 <= co_lock n.
Proof.
  intros Hx Hn. destruct (decide (x = r)) as [->|Hne]; [rewrite (i_root _ _ _ _ _ _ _ _ _ Hinv n Hn); lia|].
  destruct (i_locks _ _ _ _ _ _ _ _ _ Hinv) as (C & _ & HC). rewrite (HC x n) by done.
  apply passing_nonneg.
Qed.

(** A locked node's ancestors are locked. *)
Lemma inv_lock_parent x n p pn :
  x ∈ L -> x ≠ r -> g !! x = Some n -> co_parent n = Some p -> p ≠ r -> g !! p = Some pn ->
  co_lock n <= co_lock pn.
Proof.
  intros Hx Hxr Hn Hp Hpr Hpn. destruct (i_locks _ _ _ _ _ _ _ _ _ Hinv) as (C & HF & HC).
  pose proof (i_shape _ _ _ _ _ _ _ _ _ Hinv) as Hs.
  destruct (sh_node _ _ _ _ Hs x Hx Hxr) as (n' & p' & pn' & c & H1 & _ & H2 & HpL & _). simplify_eq.
  rewrite (HC x n), (HC p pn) by done. apply passing_mono. intros l Hl Hxl.
  apply list_elem_of_lookup in Hl as [i Hi].
  destruct (Forall2_lookup_r _ _ _ _ _ HF Hi) as (y & _ & _ & w & v & Hu).
  destruct (up_suffix _ _ _ _ _ _ _ x Hu Hxl) as (l1 & l2 & w' & v' & -> & Hux).
  inversion Hux as [|? n0 p0 l0 w0 v0 ? Hg Hp0 Hup]; simplify_eq.
  destruct (up_self _ _ _ _ _ _ _ Hup Hpr) as [l' ->]. set_solver.
Qed.

Lemma inv_held_live y : y ∈ H -> y ∈ L.
Proof.
  destruct (i_locks _ _ _ _ _ _ _ _ _ Hinv) as (C & HF & _). intros Hy.
  apply list_elem_of_lookup in Hy as [i Hi].
  destruct (Forall2_lookup_l _ _ _ _ _ HF Hi) as (l & _ & HyL & _). done.
Qed.

(** What a request holds, and all of its ancestors, is locked. *)
Lemma inv_held_locked y x n l w v :
  y ∈ H -> up ps r g y l w v -> x ∈ l -> g !! x = Some n -> 0 < co_lock n.
Proof.
  intros Hy Hu Hx Hn. pose proof (inv_held_live y Hy) as HyL.
  destruct (i_locks _ _ _ _ _ _ _ _ _ Hinv) as (C & HF & HC).
  apply list_elem_of_lookup in Hy as [i Hi].
  destruct (Forall2_lookup_l _ _ _ _ _ HF Hi) as (l' & Hl' & _ & w' & v' & Hu').
  destruct (up_fun _ _ _ _ _ _ _ _ _ _ Hu Hu') as (<- & _).
  pose proof (i_shape _ _ _ _ _ _ _ _ _ Hinv) as Hs.
  rewrite (HC x n); [|by eapply shape_up_live|by intros ->; eapply up_not_root in Hu|done].
  eapply passing_pos; [|done]. by eapply list_elem_of_lookup_2.
Qed.
End derived.

(** ** The changes of the tree preserve the invariant *)

Lemma tokens_fit_slice k a b : tokens_fit k -> tokens_fit (key_slice k a b).
Proof.
  unfold tokens_fit, key_slice. intros Hk. destruct (is_bigram k); simpl; [case_decide|].
  - by apply Forall_take, Forall_drop.
  - constructor.
  - by apply Forall_take, Forall_drop.
Qed.

Lemma inv_fresh_none prm g cnt r ev prot E L H :
  inv_at prm g cnt r ev prot E L H -> g !! cnt = None /\ cnt ∉ L.
Proof.
  intros Hinv. assert (g !! cnt = None) as Hn.
  { destruct (g !! cnt) eqn:Eg; [|done].
    pose proof (i_fresh _ _ _ _ _ _ _ _ _ Hinv cnt ltac:(eauto)). lia. }
  split; [done|]. intros Hin. destruct (shape_lookup _ _ _ _ cnt (i_shape _ _ _ _ _ _ _ _ _ Hinv) Hin).
  congruence.
Qed.

Section split.
Context {prm : CacheParams} {g : cores} {cnt r : nat} {ev prot : Z} {E L : gset nat} {H : list nat}.
Context (y i p : nat) (m pn : core_t) (ck c' : child_key_t) (h1 h2 : option (list string)).
Abbreviation ps := (page_size prm).
Hypothesis Hinv : inv_at prm g cnt r ev prot E L H.
Hypothesis HyL : y ∈ L.
Hypothesis Hyr : y ≠ r.
Hypothesis Hm : g !! y = Some m.
Hypothesis Hp : co_parent m = Some p.
Hypothesis Hpn : g !! p = Some pn.
Hypothesis Hck : head (pages ps (co_key m)) = Some ck.
Hypothesis Hc' : head (drop i (pages ps (co_key m))) = Some c'.
Hypothesis Hi : (0 < i < length (pages ps (co_key m)))%nat.
Hypothesis Hh : split_node_hash_value (co_hash m) (i * ps) ps = (h1, h2).

Abbreviation g' := (split_cores ps g y i cnt p m pn ck c' h1 h2).

Let Hps : (0 < ps)%nat := i_ps _ _ _ _ _ _ _ _ _ Hinv.
Let Hs : shape ps r g L := i_shape _ _ _ _ _ _ _ _ _ Hinv.
Let Hnew : g !! cnt = None := proj1 (inv_fresh_none _ _ _ _ _ _ _ _ _ Hinv).
Let HnewL : cnt ∉ L := proj2 (inv_fresh_none _ _ _ _ _ _ _ _ _ Hinv).

Lemma split_facts : p ∈ L /\ dict_get (co_children pn) ck = Some y /\ p ≠ y /\ p ≠ cnt /\ cnt ≠ y.
Proof. by eapply split_parent. Qed.

Lemma split_old x n : g !! x = Some n -> exists n', g' !! x = Some n' /\
  (x ≠ y -> place n' = place n) /\ co_lock n' = co_lock n /\
  (forall c z, z ≠ y -> dict_get (co_children n) c = Some z -> dict_get (co_children n') c = Some z) /\
  (x ≠ p -> co_children n' = co_children n).
Proof. intros Hx. by eapply split_lookup_old. Qed.

Lemma split_get_new : g' !! cnt = Some (split_new ps m i y p c' h1).
Proof. by eapply split_lookup_new. Qed.

Lemma split_get_y : g' !! y = Some (split_child ps m i cnt h2).
Proof. by eapply split_lookup_y. Qed.

Lemma split_locks : exists C,
  Forall2 (fun z l => z ∈ L ∪ {[cnt]} /\ exists w v, up ps r g' z l w v) H C /\
  forall x n, x ∈ L ∪ {[cnt]} -> x ≠ r -> g' !! x = Some n -> co_lock n = passing C x.
Proof.
  destruct split_facts as (HpL & Hpy & H1 & H2 & H3).
  destruct (i_locks _ _ _ _ _ _ _ _ _ Hinv) as (C & HF & HC).
  assert (forall l, l ∈ C -> cnt ∉ l) as Hfresh.
  { intros l Hl Hin. apply list_elem_of_lookup in Hl as [j Hj].
    destruct (Forall2_lookup_r _ _ _ _ _ HF Hj) as (z & _ & _ & w & v & Hu).
    destruct (up_nodes _ _ _ _ _ _ _ cnt Hu Hin). congruence. }
  exists (split_path y cnt <$> C). split.
  - apply Forall2_fmap_r. eapply Forall2_impl; [exact HF|].
    intros z l (Hz & w & v & Hu). split; [set_solver|]. exists w, v. by eapply split_up.
  - intros x n Hx Hxr Hn. destruct (decide (x = cnt)) as [->|Hxn].
    + rewrite split_get_new in Hn. injection Hn as <-. simpl. rewrite (HC y m) by done.
      symmetry. apply passing_map. intros l Hl. rewrite split_path_elem. specialize (Hfresh l Hl). tauto.
    + destruct (shape_lookup _ _ _ _ x Hs) as [n0 Hn0]; [set_solver|].
      destruct (split_old x n0 Hn0) as (n' & Hn' & _ & Hl & _). simplify_eq. rewrite Hl.
      rewrite (HC x n0) by set_solver. symmetry. apply passing_map. intros l _.
      rewrite split_path_elem. tauto.
Qed.

Lemma split_sum P : set_sum (size_if P g') ((L ∪ {[cnt]}) ∖ {[r]}) = set_sum (size_if P g) (L ∖ {[r]}).
Proof.
  destruct split_facts as (HpL & Hpy & H1 & H2 & H3).
  assert (cnt ≠ r) by (intros ->; apply HnewL, (sh_root_in _ _ _ _ Hs)).
  replace ((L ∪ {[cnt]}) ∖ {[r]}) with ((L ∖ {[r]}) ∪ {[cnt]}) by set_solver.
  rewrite set_sum_add by set_solver.
  rewrite !(set_sum_remove _ y (L ∖ {[r]})) by set_solver.
  rewrite (set_sum_ext (size_if P g') (size_if P g)).
  - unfold size_if. rewrite split_get_new, split_get_y, Hm. unfold co_len. simpl.
    rewrite key_take_len, key_drop_len.
    pose proof (shape_node_ok _ _ _ _ _ _ Hs HyL Hyr Hm) as (Ha & _).
    apply (aligned_len ps Hps) in Ha.
    destruct (P (co_lock m)); [|lia]. nia.
  - intros x Hx. unfold size_if. destruct (shape_lookup _ _ _ _ x Hs) as [n Hn]; [set_solver|].
    destruct (split_old x n Hn) as (n' & Hn' & Hpl & Hl & _).
    assert (x ≠ y) as Hxy by set_solver.
    injection (Hpl Hxy) as E1 E2 E3. rewrite Hn, Hn'. unfold co_len. by rewrite Hl, E2.
Qed.

Lemma split_leaves x :
  x ∈ E <-> x ∈ L ∪ {[cnt]} /\ x ≠ r /\
    exists n, g' !! x = Some n /\ co_lock n = 0 /\ co_children n = [].
Proof.
  destruct split_facts as (HpL & Hpy & H1 & H2 & H3). rewrite (i_leaves _ _ _ _ _ _ _ _ _ Hinv x).
  destruct (decide (x = cnt)) as [->|Hxn].
  { split; [intros (Hx & _); done|]. intros (_ & _ & n & Hn & _ & Hch).
    rewrite split_get_new in Hn. by injection Hn as <-. }
  assert (x ∈ L ∪ {[cnt]} <-> x ∈ L) as -> by set_solver.
  split; intros (Hx & Hxr & n & Hn & Hl & Hch); (split_and!; [done|done|]).
  - destruct (split_old x n Hn) as (n' & Hn' & _ & Hl' & _ & Hc).
    exists n'. split_and!; [done|congruence|]. rewrite Hc; [done|]. intros ->. simplify_eq.
    by rewrite Hch in Hpy.
  - destruct (shape_lookup _ _ _ _ x Hs Hx) as [n0 Hn0].
    destruct (split_old x n0 Hn0) as (n' & Hn' & _ & Hl' & _ & Hc). simplify_eq.
    exists n0. split_and!; [done|congruence|]. rewrite <-Hc; [done|]. intros ->.
    erewrite split_lookup_p in Hn; try done. injection Hn as <-. simpl in Hch.
    pose proof (dict_get_set_eq (co_children pn) ck cnt) as Hd. by rewrite Hch in Hd.
Qed.

Lemma split_hashed : enable_kv_cache_events prm = true ->
  forall x n, x ∈ L ∪ {[cnt]} -> x ≠ r -> g' !! x = Some n -> hashed ps n.
Proof.
  intros He x n Hx Hxr Hn. destruct split_facts as (HpL & Hpy & H1 & H2 & H3).
  pose proof (i_hash _ _ _ _ _ _ _ _ _ Hinv He) as Hold.
  destruct (Hold y m HyL Hyr Hm) as (Hfit & hv & Hhv & Hlen & Hval).
  assert (i * ps / ps = i)%nat as Hdiv by (apply Nat.div_mul; lia).
  unfold split_node_hash_value in Hh. rewrite Hhv in Hh.
  replace (if decide (ps = 1%nat) then (i * ps)%nat else (i * ps / ps)%nat) with i in Hh
    by (case_decide; lia). injection Hh as Eh1 Eh2.
  destruct (decide (x = cnt)) as [->|Hxn].
  { rewrite split_get_new in Hn. injection Hn as <-. split; [by apply tokens_fit_slice|].
    exists (take i hv). simpl. rewrite pages_take, !length_take, Hlen by done.
    split_and!; [by rewrite <-Eh1|done|by apply Forall_take]. }
  destruct (decide (x = y)) as [->|Hxy].
  { rewrite split_get_y in Hn. injection Hn as <-. split; [by apply tokens_fit_slice|].
    exists (drop i hv). simpl. rewrite pages_drop, !length_drop, Hlen by done.
    split_and!; [by rewrite <-Eh2|done|by apply Forall_drop]. }
  destruct (shape_lookup _ _ _ _ x Hs) as [n0 Hn0]; [set_solver|].
  destruct (Hold x n0) as (Hfit0 & hv0 & Hhv0 & Hlen0 & Hval0); [set_solver|done|done|].
  destruct (split_old x n0 Hn0) as (n' & Hn' & Hpl & _). simplify_eq.
  injection (Hpl Hxy) as E1 E2 E3. unfold hashed. rewrite E2. split; [done|]. exists hv0.
  split_and!; try done. destruct (decide (x = p)) as [->|Hxp].
  - erewrite split_lookup_p in Hn; try done. injection Hn as <-. by simplify_eq.
  - rewrite split_lookup_other in Hn by congruence. by simplify_eq.
Qed.

Lemma inv_split : inv_at prm g' (S cnt) r ev prot E (L ∪ {[cnt]}) H.
Proof.
  destruct split_facts as (HpL & Hpy & H1 & H2 & H3). split.
  - done.
  - intros x Hx. unfold split_cores in Hx. rewrite !lookup_insert_is_Some in Hx.
    pose proof (i_fresh _ _ _ _ _ _ _ _ _ Hinv) as Hf.
    pose proof (Hf y ltac:(eauto)). pose proof (Hf p ltac:(eauto)).
    destruct Hx as [->|[_ [->|[_ [->|[_ Hx]]]]]]; [lia..|]. specialize (Hf x Hx). lia.
  - by eapply split_shape.
  - intros n Hn. destruct (sh_root _ _ _ _ Hs) as (n0 & Hn0 & _).
    destruct (split_old r n0 Hn0) as (n' & Hn' & _ & Hl & _). simplify_eq. rewrite Hl.
    by apply (i_root _ _ _ _ _ _ _ _ _ Hinv).
  - exact split_locks.
  - rewrite split_sum. exact (i_ev _ _ _ _ _ _ _ _ _ Hinv).
  - rewrite split_sum. exact (i_prot _ _ _ _ _ _ _ _ _ Hinv).
  - exact split_leaves.
  - exact split_hashed.
Qed.
End split.

Section add.
Context {prm : CacheParams} {g : cores} {cnt r : nat} {ev prot : Z} {E L : gset nat} {H : list nat}.
Context (q : nat) (qn : core_t) (c : child_key_t) (k : RadixKey) (v0 : list Z)
  (h : option (list string)).
Abbreviation ps := (page_size prm).
Hypothesis Hinv : inv_at prm g cnt r ev prot E L H.
Hypothesis HqL : q ∈ L.
Hypothesis Hqn : g !! q = Some qn.
Hypothesis Hfree : dict_get (co_children qn) c = None.
Hypothesis Hk : aligned ps k.
Hypothesis Hc : head (pages ps k) = Some c.
Hypothesis Hv : length v0 = key_len k.
Hypothesis Hhash : enable_kv_cache_events prm = true -> hashed ps (leaf_core q k v0 h).

Abbreviation g' := (add_cores g q cnt qn c k v0 h).

Let Hps : (0 < ps)%nat := i_ps _ _ _ _ _ _ _ _ _ Hinv.
Let Hs : shape ps r g L := i_shape _ _ _ _ _ _ _ _ _ Hinv.
Let Hnew : g !! cnt = None := proj1 (inv_fresh_none _ _ _ _ _ _ _ _ _ Hinv).
Let HnewL : cnt ∉ L := proj2 (inv_fresh_none _ _ _ _ _ _ _ _ _ Hinv).

Lemma add_facts : q ≠ cnt /\ r ≠ cnt.
Proof. by eapply add_neq. Qed.

Lemma add_old x n : g !! x = Some n -> exists n', g' !! x = Some n' /\ place n' = place n /\
  co_lock n' = co_lock n /\
  (forall c' z, dict_get (co_children n) c' = Some z -> dict_get (co_children n') c' = Some z) /\
  (x ≠ q -> n' = n).
Proof. intros Hx. by eapply add_lookup_old. Qed.

Lemma add_get_new : g' !! cnt = Some (leaf_core q k v0 h).
Proof. by eapply add_lookup_new. Qed.

Lemma add_sum P :
  set_sum (size_if P g') ((L ∪ {[cnt]}) ∖ {[r]}) =
  (if P 0 then Z.of_nat (key_len k) else 0) + set_sum (size_if P g) (L ∖ {[r]}).
Proof.
  destruct add_facts as [Hqc Hrc].
  replace ((L ∪ {[cnt]}) ∖ {[r]}) with ((L ∖ {[r]}) ∪ {[cnt]}) by set_solver.
  rewrite set_sum_add by set_solver. f_equal.
  - unfold size_if. by rewrite add_get_new.
  - apply set_sum_ext. intros x Hx. unfold size_if.
    destruct (shape_lookup _ _ _ _ x Hs) as [n Hn]; [set_solver|].
    destruct (add_old x n Hn) as (n' & Hn' & Hpl & Hl & _). injection Hpl as E1 E2 E3.
    rewrite Hn, Hn'. unfold co_len. by rewrite Hl, E2.
Qed.

Lemma add_locks : exists C,
  Forall2 (fun z l => z ∈ L ∪ {[cnt]} /\ exists w v, up ps r g' z l w v) H C /\
  forall x n, x ∈ L ∪ {[cnt]} -> x ≠ r -> g' !! x = Some n -> co_lock n = passing C x.
Proof.
  destruct add_facts as [Hqc Hrc]. destruct (i_locks _ _ _ _ _ _ _ _ _ Hinv) as (C & HF & HC).
  exists C. split.
  - eapply Forall2_impl; [exact HF|]. intros z l (Hz & w & v & Hu). split; [set_solver|].
    exists w, v. by eapply add_up.
  - intros x n Hx Hxr Hn. destruct (decide (x = cnt)) as [->|Hxn].
    + rewrite add_get_new in Hn. injection Hn as <-. simpl. symmetry.
      assert (filter (fun l => cnt ∈ l) C = []) as Hnil; [|unfold passing; by rewrite Hnil].
      destruct (filter (fun l => cnt ∈ l) C) as [|l C'] eqn:Ef; [done|].
      assert (l ∈ filter (fun l => cnt ∈ l) C) as [Hin Hl]%list_elem_of_filter by (rewrite Ef; left).
      apply list_elem_of_lookup in Hl as [j Hj].
      destruct (Forall2_lookup_r _ _ _ _ _ HF Hj) as (z & _ & _ & w & v & Hu).
      destruct (up_nodes _ _ _ _ _ _ _ cnt Hu Hin). congruence.
    + destruct (shape_lookup _ _ _ _ x Hs) as [n0 Hn0]; [set_solver|].
      destruct (add_old x n0 Hn0) as (n' & Hn' & _ & Hl & _). simplify_eq. rewrite Hl.
      apply (HC x n0); [set_solver|done|done].
Qed.

Lemma add_leaves x :
  x ∈ {[cnt]} ∪ (E ∖ {[q]}) <-> x ∈ L ∪ {[cnt]} /\ x ≠ r /\
    exists n, g' !! x = Some n /\ co_lock n = 0 /\ co_children n = [].
Proof.
  destruct add_facts as [Hqc Hrc].
  destruct (decide (x = cnt)) as [->|Hxn].
  { split; [|set_solver]. intros _. split_and!; [set_solver|done|].
    eexists. split; [apply add_get_new|done]. }
  assert (x ∈ {[cnt]} ∪ (E ∖ {[q]}) <-> x ∈ E /\ x ≠ q) as -> by set_solver.
  assert (x ∈ L ∪ {[cnt]} <-> x ∈ L) as -> by set_solver.
  rewrite (i_leaves _ _ _ _ _ _ _ _ _ Hinv x). split.
  - intros [(Hx & Hxr & n & Hn & Hl & Hch) Hxq]. split_and!; [done|done|].
    destruct (add_old x n Hn) as (n' & Hn' & _ & _ & _ & Heq). rewrite Heq in Hn' by done. eauto.
  - intros (Hx & Hxr & n & Hn & Hl & Hch). destruct (decide (x = q)) as [->|Hxq].
    + erewrite add_lookup_q in Hn by done. injection Hn as <-. simpl in Hch.
      pose proof (dict_get_set_eq (co_children qn) c cnt) as Hd. by rewrite Hch in Hd.
    + destruct (shape_lookup _ _ _ _ x Hs Hx) as [n0 Hn0].
      destruct (add_old x n0 Hn0) as (n' & Hn' & _ & _ & _ & Heq). rewrite Heq in Hn' by done.
      simplify_eq. split; [|done]. split_and!; eauto.
Qed.

Lemma inv_add :
  inv_at prm g' (S cnt) r (ev + Z.of_nat (key_len k)) prot ({[cnt]} ∪ (E ∖ {[q]})) (L ∪ {[cnt]}) H.
Proof.
  destruct add_facts as [Hqc Hrc]. split.
  - done.
  - intros x Hx. unfold add_cores in Hx. rewrite !lookup_insert_is_Some in Hx.
    pose proof (i_fresh _ _ _ _ _ _ _ _ _ Hinv) as Hf. pose proof (Hf q ltac:(eauto)).
    destruct Hx as [->|[_ [->|[_ Hx]]]]; [lia..|]. specialize (Hf x Hx). lia.
  - by eapply add_shape.
  - intros n Hn. destruct (sh_root _ _ _ _ Hs) as (n0 & Hn0 & _).
    destruct (add_old r n0 Hn0) as (n' & Hn' & _ & Hl & _). simplify_eq. rewrite Hl.
    by apply (i_root _ _ _ _ _ _ _ _ _ Hinv).
  - exact add_locks.
  - rewrite add_sum. simpl. rewrite (i_ev _ _ _ _ _ _ _ _ _ Hinv). lia.
  - rewrite add_sum. exact (i_prot _ _ _ _ _ _ _ _ _ Hinv).
  - exact add_leaves.
  - intros He x n Hx Hxr Hn. destruct (decide (x = cnt)) as [->|Hxn].
    + rewrite add_get_new in Hn. injection Hn as <-. by apply Hhash.
    + destruct (shape_lookup _ _ _ _ x Hs) as [n0 Hn0]; [set_solver|].
      pose proof (i_hash _ _ _ _ _ _ _ _ _ Hinv He x n0 ltac:(set_solver) Hxr Hn0) as Ho.
      destruct (decide (x = q)) as [->|Hxq].
      * erewrite add_lookup_q in Hn by done. injection Hn as <-. by simplify_eq.
      * destruct (add_old x n0 Hn0) as (n' & Hn' & _ & _ & _ & Heq). rewrite Heq in Hn' by done.
        by simplify_eq.
Qed.
End add.

Section cut.
Context {prm : CacheParams} {g : cores} {cnt r : nat} {ev prot : Z} {E L : gset nat} {H : list nat}.
Context (x p : nat) (n pn : core_t) (c : child_key_t).
Abbreviation ps := (page_size prm).
Hypothesis Hinv : inv_at prm g cnt r ev prot E L H.
Hypothesis HxE : x ∈ E.
Hypothesis Hn : g !! x = Some n.
Hypothesis Hp : co_parent n = Some p.
Hypothesis Hpn : g !! p = Some pn.
Hypothesis Hc : head (pages ps (co_key n)) = Some c.

Abbreviation g' := (cut_cores g p pn c).
Abbreviation orphaned := (p ≠ r /\ co_lock pn = 0 /\ dict_del (co_children pn) c = []).

Let Hps : (0 < ps)%nat := i_ps _ _ _ _ _ _ _ _ _ Hinv.
Let Hs : shape ps r g L := i_shape _ _ _ _ _ _ _ _ _ Hinv.

Lemma cut_facts : x ∈ L /\ x ≠ r /\ co_lock n = 0 /\ co_children n = [] /\
  p ∈ L /\ dict_get (co_children pn) c = Some x /\ p ≠ x.
Proof.
  apply (i_leaves _ _ _ _ _ _ _ _ _ Hinv) in HxE as (HxL & Hxr & n' & Hn' & Hl & Hch).
  rewrite Hn in Hn'. injection Hn' as <-.
  destruct (cut_parent ps r g L x p n pn c) as (? & ? & ?); done.
Qed.

Lemma cut_old y m : g !! y = Some m -> exists m', g' !! y = Some m' /\ place m' = place m /\
  co_lock m' = co_lock m /\ (y ≠ p -> m' = m).
Proof.
  destruct cut_facts as (HxL & Hxr & Hl & Hch & HpL & Hpc & Hpx). intros Hy.
  destruct (cut_lookup ps r g L x p n pn c Hs HxL Hxr Hn Hch Hp Hpn Hc y m Hy) as
    (m' & ? & ? & ? & _ & _ & _ & ?). eauto.
Qed.

Lemma cut_sum P :
  set_sum (size_if P g') (L ∖ {[x]} ∖ {[r]}) =
  set_sum (size_if P g) (L ∖ {[r]}) - (if P 0 then co_len n else 0).
Proof.
  destruct cut_facts as (HxL & Hxr & Hl & Hch & HpL & Hpc & Hpx).
  rewrite (set_sum_remove _ x (L ∖ {[r]})) by set_solver.
  replace (L ∖ {[x]} ∖ {[r]}) with (L ∖ {[r]} ∖ {[x]}) by set_solver.
  rewrite (set_sum_ext (size_if P g') (size_if P g)).
  - unfold size_if at 2. rewrite Hn, Hl. lia.
  - intros y Hy. unfold size_if. destruct (shape_lookup _ _ _ _ y Hs) as [m Hm]; [set_solver|].
    destruct (cut_old y m Hm) as (m' & Hm' & Hpl & Hlk & _). injection Hpl as E1 E2 E3.
    rewrite Hm, Hm'. unfold co_len. by rewrite Hlk, E2.
Qed.

(** A leaf that may be evicted is held by nobody. *)
Lemma cut_unheld : x ∉ H.
Proof.
  intros Hx. destruct cut_facts as (HxL & Hxr & Hl & Hch & HpL & Hpc & Hpx).
  destruct (sh_up _ _ _ _ Hs x HxL) as (l & w & v & Hu).
  destruct (up_self _ _ _ _ _ _ _ Hu Hxr) as [l' El].
  pose proof (inv_held_locked Hinv x x n l w v Hx Hu ltac:(set_solver) Hn). lia.
Qed.

Lemma cut_leaves y :
  y ∈ (if decide orphaned then {[p]} ∪ E ∖ {[x]} else E ∖ {[x]} ∖ {[p]}) <->
  y ∈ L ∖ {[x]} /\ y ≠ r /\ exists m, g' !! y = Some m /\ co_lock m = 0 /\ co_children m = [].
Proof.
  destruct cut_facts as (HxL & Hxr & Hl & Hch & HpL & Hpc & Hpx).
  assert (p ∉ E) as HpE.
  { intros (_ & _ & m & Hm & _ & Hmc)%(i_leaves _ _ _ _ _ _ _ _ _ Hinv). simplify_eq.
    by rewrite Hmc in Hpc. }
  assert (g' !! p = Some (unfile pn c)) as Hgp by (unfold cut_cores; by rewrite lookup_insert_eq).
  destruct (decide (y = p)) as [->|Hyp].
  - case_decide as Ho.
    + destruct Ho as (? & ? & ?). split; [|set_solver]. intros _. split_and!; [set_solver|done|].
      exists (unfile pn c). split_and!; done.
    + split; [set_solver|]. intros (_ & Hpr & m & Hm & Hml & Hmc). simplify_eq. by destruct Ho.
  - assert (y ∈ (if decide orphaned then {[p]} ∪ E ∖ {[x]} else E ∖ {[x]} ∖ {[p]}) <->
      y ∈ E /\ y ≠ x) as -> by (case_decide; set_solver).
    rewrite (i_leaves _ _ _ _ _ _ _ _ _ Hinv y). split.
    + intros [(Hy & Hyr & m & Hm & Hml & Hmc) Hyx]. split_and!; [set_solver|done|].
      destruct (cut_old y m Hm) as (m' & Hm' & _ & _ & Heq). rewrite Heq in Hm' by done. eauto.
    + intros ([Hy Hyx]%elem_of_difference & Hyr & m & Hm & Hml & Hmc). split; [|set_solver].
      split_and!; [done|done|]. destruct (shape_lookup _ _ _ _ y Hs Hy) as [m0 Hm0].
      destruct (cut_old y m0 Hm0) as (m' & Hm' & _ & _ & Heq). rewrite Heq in Hm' by done.
      simplify_eq. eauto.
Qed.

Lemma inv_cut :
  inv_at prm g' cnt r (ev - co_len n) prot
    (if decide orphaned then {[p]} ∪ E ∖ {[x]} else E ∖ {[x]} ∖ {[p]}) (L ∖ {[x]}) H.
Proof.
  destruct cut_facts as (HxL & Hxr & Hl & Hch & HpL & Hpc & Hpx). split.
  - done.
  - intros y Hy. unfold cut_cores in Hy. rewrite lookup_insert_is_Some in Hy.
    apply (i_fresh _ _ _ _ _ _ _ _ _ Hinv). destruct Hy as [->|[_ Hy]]; eauto.
  - by eapply cut_shape.
  - intros m Hm. destruct (sh_root _ _ _ _ Hs) as (n0 & Hn0 & _).
    destruct (cut_old r n0 Hn0) as (m' & Hm' & _ & Hlk & _). simplify_eq. rewrite Hlk.
    by apply (i_root _ _ _ _ _ _ _ _ _ Hinv).
  - destruct (i_locks _ _ _ _ _ _ _ _ _ Hinv) as (C & HF & HC). exists C. split.
    + apply Forall2_same_length_lookup. split; [by eapply Forall2_length|]. intros i z l Hz Hzl.
      destruct (Forall2_lookup_lr _ _ _ _ _ _ HF Hz Hzl) as (HzL & w & v & Hu).
      split; [|exists w, v; by eapply (cut_up ps r g L x p n pn c)].
      assert (z ∈ H) as HzH by (by eapply list_elem_of_lookup_2).
      pose proof cut_unheld. set_solver.
    + intros y m [Hy Hyx]%elem_of_difference Hyr Hm.
      destruct (shape_lookup _ _ _ _ y Hs Hy) as [m0 Hm0].
      destruct (cut_old y m0 Hm0) as (m' & Hm' & _ & Hlk & _). rewrite Hm in Hm'.
      injection Hm' as <-. rewrite Hlk. by apply HC.
  - rewrite cut_sum, (i_ev _ _ _ _ _ _ _ _ _ Hinv). done.
  - rewrite cut_sum, (i_prot _ _ _ _ _ _ _ _ _ Hinv). simpl. lia.
  - exact cut_leaves.
  - intros He y m [Hy Hyx]%elem_of_difference Hyr Hm.
    destruct (shape_lookup _ _ _ _ y Hs Hy) as [m0 Hm0].
    pose proof (i_hash _ _ _ _ _ _ _ _ _ Hinv He y m0 Hy Hyr Hm0) as Ho.
    destruct (decide (y = p)) as [->|Hyp].
    + unfold cut_cores in Hm. rewrite lookup_insert_eq in Hm. injection Hm as <-.
      rewrite Hpn in Hm0. by injection Hm0 as <-.
    + destruct (cut_old y m0 Hm0) as (m' & Hm' & _ & _ & Heq). rewrite Heq in Hm' by done.
      rewrite Hm in Hm'. by injection Hm' as ->.
Qed.
End cut.

(** ** A tree without evictable leaves *)

Section idle.
Context {prm : CacheParams} {g : cores} {cnt r : nat} {ev prot : Z} {E L : gset nat} {H : list nat}.
Hypothesis Hinv : inv_at prm g cnt r ev prot E L H.
Hypothesis HE : E = ∅.
Abbreviation ps := (page_size prm).

(** Every node is locked. *)
Lemma inv_no_leaves_locked x n : x ∈ L -> x ≠ r -> g !! x = Some n -> co_lock n ≠ 0.
Proof.
  intros Hx Hxr Hn Hz. pose proof (i_shape _ _ _ _ _ _ _ _ _ Hinv) as Hs.
  destruct (sh_up _ _ _ _ Hs x Hx) as (l & w & v & Hu).
  remember (size L - length l)%nat as k eqn:Ek. revert x n l w v Hx Hxr Hn Hz Hu Ek.
  induction k as [|k IH]; intros x n l w v Hx Hxr Hn Hz Hu Ek.
  all: assert (co_children n ≠ []) as Hch
    by (intros Hch; assert (x ∈ E) by
          (apply (i_leaves _ _ _ _ _ _ _ _ _ Hinv); split_and!; [done|done|by exists n]); set_solver).
  all: pose proof (sh_wf _ _ _ _ Hs x n Hx Hn) as Hwf.
  all: destruct (co_children n) as [|[c y] d] eqn:Ec; [done|].
  all: assert (dict_get (co_children n) c = Some y) as Hc by (rewrite Ec; simpl; by rewrite decide_True).
  all: destruct (sh_child _ _ _ _ Hs x n c y Hx Hn Hc) as (Hy & Hyr & m & Hm & Hpar & _).
  all: assert (up ps r g y (y :: l) (w ++ pages ps (co_key m)) (v ++ co_val m)) as Huy by (by eapply up_node).
  all: assert (length (y :: l) ≤ size L)%nat as Hle
    by (rewrite <-(size_list_to_set (C := gset nat) (y :: l)) by (by eapply up_NoDup); apply subseteq_size;
        intros z Hz'%elem_of_list_to_set; by eapply (shape_up_live _ _ _ _ y)).
  - simpl in Hle. lia.
  - eapply (IH y m); try done; [|simpl in *; lia].
    pose proof (inv_lock_parent Hinv y m x n Hy Hyr Hm Hpar Hxr Hn).
    pose proof (inv_lock_nonneg Hinv y m Hy Hm). lia.
Qed.

(** Nothing is evictable. *)
Lemma inv_no_leaves : ev = 0.
Proof.
  rewrite (i_ev _ _ _ _ _ _ _ _ _ Hinv). transitivity (set_sum (fun _ => 0) (L ∖ {[r]})).
  - apply set_sum_ext. intros x Hx. unfold size_if. destruct (g !! x) as [n|] eqn:Hn; [|done].
    pose proof (inv_no_leaves_locked x n). unfold unlocked. rewrite bool_decide_false; [done|]. set_solver.
  - unfold set_sum. induction (elements _) as [|x l IH]; [done|]. simpl. lia.
Qed.
End idle.
