(* ===== verification/RadixLocks.v ===== *)
(** * The prefix cache: locking a path

    What adding [d] to the lock counts of a path does to the invariant:
    acquiring ([d = 1]) adds a reference to the held ones, releasing
    ([d = -1]) takes one away, and the two size counters move by the lengths
    of the nodes that become locked or unlocked. *)

From S2P Require Import Prelude PyDict RadixKey KvEvents RadixTree RadixInv RadixMoves RadixState.

Definition add_lock (d : Z) (n : core_t) : core_t :=
  Core (co_children n) (co_parent n) (co_key n) (co_value n) (co_lock n + d) (co_hash n).

(** The nodes of [l] with [d] added to their lock counts. *)
Definition relock (d : Z) (l : list nat) (g : cores) : cores := foldr (alter (add_lock d)) g l.

Lemma relock_in d l g x : NoDup l -> x ∈ l -> relock d l g !! x = add_lock d <$> g !! x.
Proof.
  induction l as [|y l IH]; intros Hnd Hx; [by apply elem_of_nil in Hx|].
  apply NoDup_cons in Hnd as [Hy Hnd]. simpl. destruct (decide (x = y)) as [->|Hne].
  - rewrite lookup_alter_eq. f_equal. clear IH Hx Hnd. induction l as [|z l IH]; [done|]. simpl.
    rewrite lookup_alter_ne by set_solver. apply IH. set_solver.
  - rewrite lookup_alter_ne by done. apply IH; [done|set_solver].
Qed.

Lemma relock_out d l g x : x ∉ l -> relock d l g !! x = g !! x.
Proof.
  induction l as [|y l IH]; intros Hx; [done|]. simpl.
  rewrite lookup_alter_ne by set_solver. apply IH. set_solver.
Qed.

Lemma relock_old d l g x n : g !! x = Some n -> NoDup l -> exists n', relock d l g !! x = Some n' /\
  place n' = place n /\ co_children n' = co_children n /\ co_hash n' = co_hash n /\
  co_lock n' = co_lock n + (if decide (x ∈ l) then d else 0).
Proof.
  intros Hn Hnd. case_decide as Hx.
  - exists (add_lock d n). rewrite relock_in, Hn by done. done.
  - exists n. rewrite relock_out by done. split_and!; try done. lia.
Qed.

Section relock.
Context (ps r : nat).

Lemma relock_up d l g x l' w v : NoDup l -> up ps r g x l' w v -> up ps r (relock d l g) x l' w v.
Proof.
  intros Hnd Hu. eapply up_frame; [done|]. intros y n _ Hy.
  destruct (relock_old d l g y n Hy Hnd) as (n' & ? & ? & _). eauto.
Qed.

Lemma relock_shape d l g L : NoDup l -> shape ps r g L -> shape ps r (relock d l g) L.
Proof.
  intros Hnd Hs.
  assert (forall x n, x ∈ L -> relock d l g !! x = Some n -> exists n0, g !! x = Some n0 /\
    place n = place n0 /\ co_children n = co_children n0) as Hback.
  { intros x n Hx Hn. destruct (shape_lookup _ _ _ _ x Hs Hx) as [n0 Hn0].
    destruct (relock_old d l g x n0 Hn0 Hnd) as (n' & Hn' & Hpl & Hch & _).
    rewrite Hn in Hn'. injection Hn' as <-. by exists n0. }
  split.
  - destruct (sh_root _ _ _ _ Hs) as (n & Hn & H1 & H2 & H3).
    destruct (relock_old d l g r n Hn Hnd) as (n' & Hn' & Hpl & _). injection Hpl as E1 E2 E3.
    exists n'. by rewrite E1, E2, E3.
  - apply (sh_root_in _ _ _ _ Hs).
  - intros x Hx Hxr. destruct (sh_node _ _ _ _ Hs x Hx Hxr) as
      (n & p & pn & c & Hn & Hok & Hp & HpL & Hpn & Hh & Hc).
    destruct (relock_old d l g x n Hn Hnd) as (n' & Hn' & Hpl & _). injection Hpl as E1 E2 E3.
    destruct (relock_old d l g p pn Hpn Hnd) as (pn' & Hpn' & _ & Hch & _).
    exists n', p, pn', c. unfold node_ok, co_val in *. rewrite E1, E2, E3, Hch. split_and!; naive_solver.
  - intros p pn c x Hp Hpn Hc. destruct (Hback p pn Hp Hpn) as (pn0 & Hpn0 & _ & Hch).
    rewrite Hch in Hc. destruct (sh_child _ _ _ _ Hs p pn0 c x Hp Hpn0 Hc) as (HxL & Hxr & n & Hn & Hpar & Hh).
    destruct (relock_old d l g x n Hn Hnd) as (n' & Hn' & Hpl & _). injection Hpl as E1 E2 E3.
    split_and!; [done|done|]. exists n'. by rewrite E1, E2.
  - intros p pn Hp Hpn. destruct (Hback p pn Hp Hpn) as (pn0 & Hpn0 & _ & ->).
    by eapply (sh_wf _ _ _ _ Hs p).
  - intros x Hx. destruct (sh_up _ _ _ _ Hs x Hx) as (l' & w & v & Hu). do 3 eexists. by apply relock_up.
Qed.

(** Only lock counts change, so the content does not. *)
Lemma relock_stored d l g L w v :
  NoDup l -> shape ps r g L -> stored ps r (relock d l g) L w v <-> stored ps r g L w v.
Proof.
  intros Hnd Hs. split; intros (x & l' & w' & v' & Hx & Hu & Hw & ->).
  - destruct (sh_up _ _ _ _ Hs x Hx) as (l0 & w0 & v0 & Hu0).
    destruct (up_fun _ _ _ _ _ _ _ _ _ _ Hu (relock_up d l g _ _ _ _ Hnd Hu0)) as (_ & -> & ->).
    by exists x, l0, w0, v0.
  - exists x, l', w', v'. split_and!; try done. by apply relock_up.
Qed.
End relock.

(** The sum over a set that contains the distinct elements of [l]. *)
Lemma set_sum_list f l (X : gset nat) : NoDup l -> (forall x, x ∈ l -> x ∈ X) ->
  set_sum f X = sumZ f l + set_sum f (X ∖ list_to_set l).
Proof.
  revert X. induction l as [|x l IH]; intros X Hnd Hl; simpl.
  - by rewrite difference_empty_L.
  - apply NoDup_cons in Hnd as [Hx Hnd]. rewrite (set_sum_remove f x) by (apply Hl; left).
    rewrite (IH (X ∖ {[x]})); [|done|set_solver]. rewrite Z.add_assoc. f_equal.
    assert (X ∖ {[x]} ∖ list_to_set l = X ∖ ({[x]} ∪ list_to_set l)) as -> by set_solver. done.
Qed.

Section path.
Context {prm : CacheParams} {g : cores} {cnt r : nat} {ev prot : Z} {E L : gset nat} {H : list nat}.
Context (y : nat) (l : list nat) (w : list child_key_t) (v : list Z).
Abbreviation ps := (page_size prm).
Hypothesis Hinv : inv_at prm g cnt r ev prot E L H.
Hypothesis HyL : y ∈ L.
Hypothesis Hu : up ps r g y l w v.

Let Hs : shape ps r g L := i_shape _ _ _ _ _ _ _ _ _ Hinv.
Let Hnd : NoDup l := up_NoDup _ _ _ _ _ _ _ Hu.

Lemma path_live x : x ∈ l -> x ∈ L /\ x ≠ r.
Proof.
  intros Hx. split; [by eapply shape_up_live|]. intros ->. by apply (up_not_root _ _ _ _ _ _ _ Hu).
Qed.

Lemma relock_sum d P :
  set_sum (size_if P (relock d l g)) (L ∖ {[r]}) =
  set_sum (size_if P g) (L ∖ {[r]}) + sumZ (fun x => size_if P (relock d l g) x - size_if P g x) l.
Proof.
  rewrite !(set_sum_list _ l (L ∖ {[r]})); try done; try (intros x Hx; pose proof (path_live x Hx); set_solver).
  rewrite (set_sum_ext (size_if P (relock d l g)) (size_if P g)).
  - assert (sumZ (size_if P (relock d l g)) l = sumZ (size_if P g) l +
      sumZ (fun x => size_if P (relock d l g) x - size_if P g x) l) as ->; [|lia].
    clear. generalize (relock d l g). intros g2. induction l as [|x l' IH]; simpl; lia.
  - intros x Hx. unfold size_if. rewrite relock_out; [done|]. set_solver.
Qed.

(** The total length of the nodes of the path with lock count [z]. *)
Definition path_len (z : Z) : Z := sumZ (size_if (fun k => bool_decide (k = z)) g) l.

Lemma relock_sizes d :
  d ≠ 0 -> (forall x n, x ∈ l -> g !! x = Some n -> 0 <= co_lock n /\ 0 <= co_lock n + d) ->
  set_sum (size_if unlocked (relock d l g)) (L ∖ {[r]}) = ev - path_len 0 + path_len (- d) /\
  set_sum (size_if is_locked (relock d l g)) (L ∖ {[r]}) = prot + path_len 0 - path_len (- d).
Proof.
  intros Hd Hpos. rewrite !relock_sum, <-(i_ev _ _ _ _ _ _ _ _ _ Hinv), <-(i_prot _ _ _ _ _ _ _ _ _ Hinv).
  assert (forall l', (forall x, x ∈ l' -> x ∈ l) ->
    sumZ (fun x => size_if unlocked (relock d l g) x - size_if unlocked g x) l' =
      sumZ (size_if (fun k => bool_decide (k = - d)) g) l' - sumZ (size_if (fun k => bool_decide (k = 0)) g) l' /\
    sumZ (fun x => size_if is_locked (relock d l g) x - size_if is_locked g x) l' =
      sumZ (size_if (fun k => bool_decide (k = 0)) g) l' - sumZ (size_if (fun k => bool_decide (k = - d)) g) l')
    as Haux.
  { induction l' as [|x l' IH]; intros Hl'; [done|]. simpl. destruct IH as [IH1 IH2]; [set_solver|].
    rewrite IH1, IH2. assert (x ∈ l) as Hx by (apply Hl'; left).
    unfold size_if, unlocked, is_locked. rewrite relock_in by done.
    destruct (path_live x Hx) as [HxL _]. destruct (shape_lookup _ _ _ _ x Hs HxL) as [n Hn].
    specialize (Hpos x n Hx Hn). rewrite Hn. simpl. unfold co_len. simpl.
    repeat case_bool_decide; lia. }
  destruct (Haux l) as [-> ->]; [done|]. unfold path_len. lia.
Qed.

Lemma inv_acquire :
  inv_at prm (relock 1 l g) cnt r (ev - path_len 0) (prot + path_len 0) (E ∖ list_to_set l) L (y :: H).
Proof.
  assert (forall x n, x ∈ l -> g !! x = Some n -> 0 <= co_lock n /\ 0 <= co_lock n + 1) as Hpos.
  { intros x n Hx Hn. destruct (path_live x Hx) as [HxL _].
    pose proof (inv_lock_nonneg Hinv x n HxL Hn). lia. }
  assert (path_len (Z.opp 1) = 0) as Hm1.
  { unfold path_len. transitivity (sumZ (fun _ : nat => 0) l); [|clear; induction l; simpl; lia].
    apply sumZ_ext. intros x Hx. unfold size_if. destruct (g !! x) as [n|] eqn:Hn; [|done].
    specialize (Hpos x n Hx Hn). case_bool_decide; [lia|done]. }
  destruct (relock_sizes 1 ltac:(lia) Hpos) as [Hev Hpr]. split.
  - apply (i_ps _ _ _ _ _ _ _ _ _ Hinv).
  - intros x [n Hn]. apply (i_fresh _ _ _ _ _ _ _ _ _ Hinv). destruct (decide (x ∈ l)) as [Hx|Hx].
    + by eapply up_nodes.
    + rewrite relock_out in Hn by done. eauto.
  - by apply relock_shape.
  - intros n Hn. rewrite relock_out in Hn by (by eapply up_not_root).
    by apply (i_root _ _ _ _ _ _ _ _ _ Hinv).
  - destruct (i_locks _ _ _ _ _ _ _ _ _ Hinv) as (C & HF & HC). exists (l :: C). split.
    + constructor; [split; [done|]; exists w, v; by apply relock_up|].
      eapply Forall2_impl; [exact HF|]. intros z l' (Hz & w' & v' & Hu'). split; [done|].
      exists w', v'. by apply relock_up.
    + intros x n Hx Hxr Hn. destruct (shape_lookup _ _ _ _ x Hs Hx) as [n0 Hn0].
      destruct (relock_old 1 l g x n0 Hn0 Hnd) as (n' & Hn' & _ & _ & _ & Hl). simplify_eq.
      rewrite Hl, passing_cons, (HC x n0) by done. lia.
  - lia.
  - lia.
  - intros x. rewrite elem_of_difference, elem_of_list_to_set, (i_leaves _ _ _ _ _ _ _ _ _ Hinv x).
    split.
    + intros [(Hx & Hxr & n & Hn & Hl & Hch) Hxl]. split_and!; [done|done|]. exists n.
      by rewrite relock_out.
    + intros (Hx & Hxr & n & Hn & Hl & Hch). destruct (shape_lookup _ _ _ _ x Hs Hx) as [n0 Hn0].
      destruct (relock_old 1 l g x n0 Hn0 Hnd) as (n' & Hn' & _ & Hc' & _ & Hl'). simplify_eq.
      pose proof (inv_lock_nonneg Hinv x n0 Hx Hn0). case_decide; [lia|].
      split; [|done]. split_and!; [done|done|]. exists n0. split_and!; [done|lia|congruence].
  - intros He x n Hx Hxr Hn. destruct (shape_lookup _ _ _ _ x Hs Hx) as [n0 Hn0].
    pose proof (i_hash _ _ _ _ _ _ _ _ _ Hinv He x n0 Hx Hxr Hn0) as Ho.
    destruct (relock_old 1 l g x n0 Hn0 Hnd) as (n' & Hn' & Hpl & _ & Hh & _).
    rewrite Hn in Hn'. injection Hn' as <-. injection Hpl as E1 E2 E3. unfold hashed in *. by rewrite E2, Hh.
Qed.

(** The leaf a release may expose: the end of the path. *)
Definition exposed (x : nat) : Prop :=
  x ∈ l /\ exists n, g !! x = Some n /\ co_lock n = 1 /\ co_children n = [].

Lemma inv_release H' E' :
  H ≡ₚ y :: H' ->
  (forall x, x ∈ E' <-> x ∈ E \/ exposed x) ->
  inv_at prm (relock (-1) l g) cnt r (ev + path_len 1) (prot - path_len 1) E' L H'.
Proof.
  intros Hperm HE'.
  assert (y ∈ H) as HyH by (rewrite Hperm; left).
  assert (forall x n, x ∈ l -> g !! x = Some n -> 0 <= co_lock n /\ 0 <= co_lock n + (-1)) as Hpos.
  { intros x n Hx Hn. pose proof (inv_held_locked Hinv y x n l w v HyH Hu Hx Hn). lia. }
  assert (path_len 0 = 0) as Hlen0.
  { unfold path_len. transitivity (sumZ (fun _ : nat => 0) l); [|clear; induction l; simpl; lia].
    apply sumZ_ext. intros x Hx. unfold size_if. destruct (g !! x) as [n|] eqn:Hn; [|done].
    specialize (Hpos x n Hx Hn). case_bool_decide; [lia|done]. }
  destruct (relock_sizes (-1) ltac:(lia) Hpos) as [Hev Hpr]. change (- -1) with 1 in *. split.
  - apply (i_ps _ _ _ _ _ _ _ _ _ Hinv).
  - intros x [n Hn]. apply (i_fresh _ _ _ _ _ _ _ _ _ Hinv). destruct (decide (x ∈ l)) as [Hx|Hx].
    + by eapply up_nodes.
    + rewrite relock_out in Hn by done. eauto.
  - by apply relock_shape.
  - intros n Hn. rewrite relock_out in Hn by (by eapply up_not_root).
    by apply (i_root _ _ _ _ _ _ _ _ _ Hinv).
  - destruct (i_locks _ _ _ _ _ _ _ _ _ Hinv) as (C & HF & HC).
    destruct (Permutation_Forall2 Hperm HF) as (C0 & HCp & HF0).
    inversion HF0 as [|? l0 ? C' (_ & w0 & v0 & Hu0) HF' EC1 EC2]; subst.
    destruct (up_fun _ _ _ _ _ _ _ _ _ _ Hu0 Hu) as (-> & _ & _). exists C'. split.
    + eapply Forall2_impl; [exact HF'|]. intros z l' (Hz & w' & v' & Hu'). split; [done|].
      exists w', v'. by apply relock_up.
    + intros x n Hx Hxr Hn. destruct (shape_lookup _ _ _ _ x Hs Hx) as [n0 Hn0].
      destruct (relock_old (-1) l g x n0 Hn0 Hnd) as (n' & Hn' & _ & _ & _ & Hl). simplify_eq.
      rewrite Hl, (HC x n0), (passing_perm _ _ x HCp), passing_cons by done. case_decide; lia.
  - lia.
  - lia.
  - intros x. rewrite HE', (i_leaves _ _ _ _ _ _ _ _ _ Hinv x). split.
    + intros [(Hx & Hxr & n & Hn & Hl & Hch)|(Hxl & n & Hn & Hl & Hch)].
      * split_and!; [done|done|]. exists n. rewrite relock_out; [done|]. intros Hxl.
        specialize (Hpos x n Hxl Hn). lia.
      * destruct (path_live x Hxl) as [Hx Hxr]. split_and!; [done|done|].
        exists (add_lock (-1) n). rewrite relock_in, Hn by done. split_and!; [done|simpl; lia|done].
    + intros (Hx & Hxr & n & Hn & Hl & Hch). destruct (shape_lookup _ _ _ _ x Hs Hx) as [n0 Hn0].
      destruct (relock_old (-1) l g x n0 Hn0 Hnd) as (n' & Hn' & _ & Hc' & _ & Hl'). simplify_eq.
      case_decide as Hxl; [right|left].
      * split; [done|]. exists n0. split_and!; [done|lia|congruence].
      * split_and!; [done|done|]. exists n0. split_and!; [done|lia|congruence].
  - intros He x n Hx Hxr Hn. destruct (shape_lookup _ _ _ _ x Hs Hx) as [n0 Hn0].
    pose proof (i_hash _ _ _ _ _ _ _ _ _ Hinv He x n0 Hx Hxr Hn0) as Ho.
    destruct (relock_old (-1) l g x n0 Hn0 Hnd) as (n' & Hn' & Hpl & _ & Hh & _).
    rewrite Hn in Hn'. injection Hn' as <-. injection Hpl as E1 E2 E3. unfold hashed in *.
    by rewrite E2, Hh.
Qed.
End path.
