(* ===== verification/RadixRun.v ===== *)
(** * The prefix cache: running the operations

    Symbolic runs of the code of RadixOps.v on a consistent cache.  A run is
    described by the [view] of the state it ends in, everything but clocks,
    hit counts and priorities; its structural part is one of the changes of
    RadixMoves.v.  No run raises and none exhausts its fuel. *)

From S2P Require Import Prelude PyDict RadixKey KvEvents RadixTree RadixOps RadixInv RadixMoves.
From S2P Require Import RadixState RadixLocks.

(** ** One step of a descent *)

(** A child whose first page is the query's: its key, and what [_key_match] finds. *)
Lemma core_match ps r g L x n k ck child cn :
  (0 < ps)%nat -> shape ps r g L -> x ∈ L -> g !! x = Some n -> (ps ≤ key_len k)%nat -> head (pages ps k) = Some ck ->
  dict_get (co_children n) ck = Some child -> g !! child = Some cn ->
  child ∈ L /\ child ≠ r /\ aligned ps (co_key cn) /\
  key_len (co_key cn) = (length (pages ps (co_key cn)) * ps)%nat /\
  co_value cn = Some (co_val cn) /\ (0 < lcp (pages ps (co_key cn)) (pages ps k))%nat /\
  match_ (co_key cn) k ps = Ok (lcp (pages ps (co_key cn)) (pages ps k) * ps)%nat.
Proof.
  intros Hps Hs Hx Hn Ha Hck Hd Hcn.
  destruct (sh_child _ _ _ _ Hs x n ck child Hx Hn Hd) as (HcL & Hcr & m & Hm & Hp & Hh).
  rewrite Hcn in Hm. injection Hm as <-.
  destruct (shape_node_ok _ _ _ _ _ _ Hs HcL Hcr Hcn) as (Hca & _ & v & Hv).
  destruct (pages_head_compat ps Hps (co_key cn) k ck) as [He Hb]; try done.
  { by eapply pages_head_unit. }
  split_and!; try done.
  - by apply aligned_len.
  - unfold co_val. by rewrite Hv.
  - destruct (pages ps (co_key cn)) as [|a la], (pages ps k) as [|b lb]; try done.
    injection Hh as ->. injection Hck as ->. simpl. rewrite decide_True by done. lia.
  - by apply match_lcp.
Qed.

(** The first page of what is left of a key. *)
Lemma next_page ps k j :
  (0 < ps)%nat -> aligned ps k -> key_len (key_drop (j * ps) k) ≠ O -> exists c,
  child_key ps (key_drop (j * ps) k) = Ok c /\ head (pages ps (key_drop (j * ps) k)) = Some c.
Proof.
  intros Hps Ha Hz. apply (child_key_page ps Hps).
  pose proof (aligned_drop ps Hps j k Ha) as [m Hm]. rewrite Hm in *. destruct m; [done|]. nia.
Qed.

(** ** Views *)

Record view_t (A : Type) := View {
  v_params : CacheParams;
  v_cores : cores;
  v_counter : nat;
  v_root : nat;
  v_ev : Z;
  v_prot : Z;
  v_leaves : gset nat;
  v_events : list kv_event;
  v_alloc : A
}.
Arguments View {A}.
Arguments v_params {A}.
Arguments v_cores {A}.
Arguments v_counter {A}.
Arguments v_root {A}.
Arguments v_ev {A}.
Arguments v_prot {A}.
Arguments v_leaves {A}.
Arguments v_events {A}.
Arguments v_alloc {A}.

Definition view {A} (s : RadixCache A) : view_t A :=
  View (params s) (heap_cores s) (counter s) (root_node s) (evictable_size_ s) (protected_size_ s)
    (evictable_leaves s) (kv_event_queue s) (allocator s).

(** The invariant depends on the view only. *)
Definition view_inv {A} (u : view_t A) (L : gset nat) (H : list nat) : Prop :=
  inv_at (v_params u) (v_cores u) (v_counter u) (v_root u) (v_ev u) (v_prot u) (v_leaves u) L H.

Lemma radix_inv_view {A} (s : RadixCache A) L H : radix_inv s L H <-> view_inv (view s) L H.
Proof. done. Qed.

Lemma view_eq_inv {A} (s s' : RadixCache A) L H :
  view s' = view s -> radix_inv s L H -> radix_inv s' L H.
Proof. intros E. rewrite !radix_inv_view. by rewrite E. Qed.

Section views.
Context {A : Type}.
Implicit Types s : RadixCache A.

Lemma cores_lookup s x n : nodes s !! x = Some n -> heap_cores s !! x = Some (core n).
Proof. intros Hn. unfold heap_cores. by rewrite lookup_fmap, Hn. Qed.

Lemma cores_lookup_inv s x m :
  heap_cores s !! x = Some m -> exists n, nodes s !! x = Some n /\ core n = m.
Proof.
  unfold heap_cores. rewrite lookup_fmap. destruct (nodes s !! x) as [n|]; [|done].
  intros [= <-]. eauto.
Qed.

(** The live nodes are among the objects of the heap. *)
Lemma live_size s L H' : radix_inv s L H' -> (size L <= size (nodes s))%nat.
Proof.
  intros Hinv. rewrite <-(size_dom (D := gset nat)). apply subseteq_size. intros x Hx.
  apply elem_of_dom. destruct (shape_lookup _ _ _ _ x (i_shape _ _ _ _ _ _ _ _ _ Hinv) Hx) as [m Hm].
  destruct (cores_lookup_inv s x m Hm) as (n & Hn & _). eauto.
Qed.

(** Bookkeeping of clocks, hit counts and priorities. *)
Definition meta_only (f : TreeNode -> TreeNode) : Prop := forall n, core (f n) = core n.

Lemma view_meta f x s : meta_only f -> view (upd_nodes (alter f x) s) = view s.
Proof.
  intros Hf. unfold view, heap_cores. simpl. f_equal. apply map_eq. intros z.
  rewrite !lookup_fmap. destruct (decide (z = x)) as [->|Hne].
  - rewrite lookup_alter_eq. destruct (nodes s !! x) as [n|]; [|done]. simpl. by rewrite Hf.
  - by rewrite lookup_alter_ne.
Qed.

Lemma view_readings n s : view (upd_readings n s) = view s.
Proof. done. Qed.

Lemma meta_access t : meta_only (set_access t).
Proof. done. Qed.

Lemma node_at_run s x n : nodes s !! x = Some n -> node_at x s = (Ok n, s).
Proof. intros Hn. unfold node_at. by rewrite Hn. Qed.

Lemma view_nodes s s' x n :
  view s' = view s -> nodes s !! x = Some n -> exists n', nodes s' !! x = Some n' /\ core n' = core n.
Proof.
  intros E Hn. apply cores_lookup in Hn. apply cores_lookup_inv.
  by replace (heap_cores s') with (heap_cores s) by (by injection E).
Qed.
End views.
#[export] Hint Resolve meta_access : py.
#[export] Hint Rewrite @view_readings : py.

(** *** The changes of a view *)

(** [u'] is [u] with node [y] split after [i] pages. *)
Record split_of {A} (u : view_t A) (L : gset nat) (y i : nat) (m : core_t) (p : nat) (pn : core_t)
    (ck c' : child_key_t) (h1 h2 : option (list string)) (u' : view_t A) : Prop := SplitOf {
  so_live : y ∈ L;
  so_root : y ≠ v_root u;
  so_node : v_cores u !! y = Some m;
  so_parent : co_parent m = Some p;
  so_pnode : v_cores u !! p = Some pn;
  so_head : head (pages (page_size (v_params u)) (co_key m)) = Some ck;
  so_rest : head (drop i (pages (page_size (v_params u)) (co_key m))) = Some c';
  so_pos : (0 < i < length (pages (page_size (v_params u)) (co_key m)))%nat;
  so_hash : split_node_hash_value (co_hash m) (i * page_size (v_params u)) (page_size (v_params u)) = (h1, h2);
  so_view : u' = View (v_params u)
    (split_cores (page_size (v_params u)) (v_cores u) y i (v_counter u) p m pn ck c' h1 h2)
    (S (v_counter u)) (v_root u) (v_ev u) (v_prot u) (v_leaves u) (v_events u) (v_alloc u)
}.

Section split_of.
Context {A : Type} {u u' : view_t A} {L : gset nat} {H : list nat} {y i p : nat} {m pn : core_t}
  {ck c' : child_key_t} {h1 h2 : option (list string)}.
Hypothesis Hinv : view_inv u L H.
Hypothesis Hsp : split_of u L y i m p pn ck c' h1 h2 u'.
Abbreviation ps := (page_size (v_params u)).

Lemma split_of_inv : view_inv u' (L ∪ {[v_counter u]}) H.
Proof. destruct Hsp as [? ? ? ? ? ? ? ? ? ->]. by eapply inv_split. Qed.

Lemma split_of_stored w v :
  stored ps (v_root u) (v_cores u') (L ∪ {[v_counter u]}) w v <->
  stored ps (v_root u) (v_cores u) L w v.
Proof.
  destruct Hsp as [? ? ? ? ? ? ? ? ? ->].
  eapply split_stored; try done; [exact (i_ps _ _ _ _ _ _ _ _ _ Hinv)|
    exact (i_shape _ _ _ _ _ _ _ _ _ Hinv)|exact (proj1 (inv_fresh_none _ _ _ _ _ _ _ _ _ Hinv))].
Qed.

Lemma split_of_path l w v :
  up ps (v_root u) (v_cores u) p l w v ->
  up ps (v_root u) (v_cores u') (v_counter u) (v_counter u :: l)
    (w ++ take i (pages ps (co_key m))) (v ++ take (i * ps) (co_val m)).
Proof.
  destruct Hsp as [? ? ? ? ? ? ? ? ? ->].
  eapply split_new_path; try done; [exact (i_ps _ _ _ _ _ _ _ _ _ Hinv)|
    exact (i_shape _ _ _ _ _ _ _ _ _ Hinv)|exact (proj1 (inv_fresh_none _ _ _ _ _ _ _ _ _ Hinv))].
Qed.

Lemma split_of_old x l w v :
  up ps (v_root u) (v_cores u) x l w v ->
  up ps (v_root u) (v_cores u') x (split_path y (v_counter u) l) w v.
Proof.
  destruct Hsp as [? ? ? ? ? ? ? ? ? ->].
  eapply split_up; try done; [exact (i_ps _ _ _ _ _ _ _ _ _ Hinv)|
    exact (i_shape _ _ _ _ _ _ _ _ _ Hinv)|exact (proj1 (inv_fresh_none _ _ _ _ _ _ _ _ _ Hinv))].
Qed.

(** The new node has one child, the rest of the old node. *)
Lemma split_of_new : v_cores u' !! v_counter u = Some (split_new ps m i y p c' h1).
Proof. destruct Hsp as [? ? ? ? ? ? ? ? ? ->]. by eapply split_get_new. Qed.
End split_of.

Section run.
Context {A : Type} `{KvFree A} `{Sha256} `{HeapQ} (monotonic : nat -> Z).
Implicit Types s : RadixCache A.

Abbreviation psz s := (page_size (params s)).

(** *** Splitting *)

Lemma split_node_run s L H' y i n :
  radix_inv s L H' -> y ∈ L -> y ≠ root_node s -> nodes s !! y = Some n ->
  (0 < i < length (pages (psz s) (key n)))%nat ->
  exists p pn ck c' h1 h2 s' nn,
    split_node monotonic (key n) y (i * psz s) s = (Ok (counter s), s') /\
    split_of (view s) L y i (core n) p pn ck c' h1 h2 (view s') /\
    nodes s' !! counter s = Some nn /\ value nn = Some (take (i * psz s) (co_val (core n))).
Proof.
  intros Hinv HyL Hyr Hn Hi. pose proof (cores_lookup s y n Hn) as Hm.
  pose proof (i_ps _ _ _ _ _ _ _ _ _ Hinv) as Hps. pose proof (i_shape _ _ _ _ _ _ _ _ _ Hinv) as Hs.
  destruct (sh_node _ _ _ _ Hs y HyL Hyr) as (m & p & pn & ck & Hm' & Hok & Hp & HpL & Hpn & Hh & Hck).
  rewrite Hm in Hm'. injection Hm' as <-. destruct Hok as (Ha & Hlen & v & Hv). simpl in *.
  assert (nodes s !! counter s = None) as Hfn.
  { destruct (nodes s !! counter s) eqn:En; [|done]. apply cores_lookup in En.
    destruct (inv_fresh_none _ _ _ _ _ _ _ _ _ Hinv). congruence. }
  destruct (child_key_page (psz s) Hps (key n)) as (ck0 & Hck0 & Hck1).
  { apply (pages_head_unit (psz s) Hps _ ck); done. }
  rewrite Hh in Hck1. injection Hck1 as <-.
  destruct (child_key_page (psz s) Hps (key_drop (i * psz s) (key n))) as (c' & Hc'0 & Hc').
  { rewrite key_drop_len. apply (aligned_len (psz s) Hps) in Ha. nia. }
  rewrite (pages_drop (psz s) Hps) in Hc'.
  destruct (split_node_hash_value (hash_value n) (i * psz s) (psz s)) as [h1 h2] eqn:Ehash.
  destruct (cores_lookup_inv s p pn Hpn) as (pn0 & Hpn0 & Epn).
  destruct (split_facts y i p (core n) pn ck c' Hinv) as (_ & _ & Hpy & Hpc & Hyc); try done.
  unfold split_node, new_TreeNode. run_unfold. cbn.
  rewrite (node_at_run s y n Hn). cbn. rewrite Hc'0. unfold value_at. rewrite Hv. cbn.
  unfold parent_at. rewrite Hp. cbn. rewrite Hck0. cbn. rewrite Ehash.
  do 8 eexists. split; [reflexivity|]. split; [|split].
  - split; try done. unfold view. cbn. f_equal. unfold heap_cores. cbn.
    replace (co_val (core n)) with v by (unfold co_val; simpl; by rewrite Hv).
    apply map_eq. intros x. rewrite lookup_fmap. unfold split_cores.
    destruct (decide (x = p)) as [->|Hxp].
    + rewrite lookup_insert_eq. rewrite !lookup_alter_ne by done. rewrite lookup_alter_eq.
      rewrite !lookup_alter_ne, lookup_insert_ne, Hpn0 by done. by rewrite <-Epn.
    + rewrite lookup_insert_ne by done. destruct (decide (x = y)) as [->|Hxy].
      * rewrite lookup_insert_eq, lookup_alter_eq, !lookup_alter_ne by done. 
        rewrite lookup_alter_eq, !lookup_alter_ne, lookup_insert_ne, Hn by done.
        unfold split_child, core, co_val. cbn. by rewrite Hv.
      * rewrite lookup_insert_ne by done. destruct (decide (x = counter s)) as [->|Hxc].
        -- rewrite lookup_insert_eq, lookup_alter_ne, lookup_alter_eq, !lookup_alter_ne by done.
           rewrite lookup_alter_eq, lookup_insert_eq. unfold split_new, core, co_val. cbn.
           by rewrite Hv.
        -- rewrite lookup_insert_ne, !lookup_alter_ne, lookup_insert_ne by done. by rewrite lookup_fmap.
  - cbn. rewrite lookup_alter_ne, lookup_alter_eq, !lookup_alter_ne, lookup_alter_eq, lookup_insert_eq by done.
    reflexivity.
  - done.
Qed.

(** *** Descending *)

(** The state and node a descent that ends at [st] leaves behind: nothing
    changes unless it ended inside a node, which is then split. *)
Definition landed (u : view_t A) (L : gset nat) (st : stop) (last : nat) (u' : view_t A) : Prop :=
  match st with
  | AtNode y => last = y /\ u' = u
  | Inside y i => last = v_counter u /\
      exists m p pn ck c' h1 h2, split_of u L y i m p pn ck c' h1 h2 u'
  end.

(** What the code computes at a child whose first page is the query's. *)
Lemma child_match s L H' x n k ck child cn :
  radix_inv s L H' -> x ∈ L -> nodes s !! x = Some n -> aligned (psz s) k ->
  head (pages (psz s) k) = Some ck -> dict_get (children n) ck = Some child ->
  nodes s !! child = Some cn ->
  child ∈ L /\ child ≠ root_node s /\ aligned (psz s) (key cn) /\
  key_len (key cn) = (length (pages (psz s) (key cn)) * psz s)%nat /\
  value cn = Some (co_val (core cn)) /\
  (0 < lcp (pages (psz s) (key cn)) (pages (psz s) k))%nat /\
  match_ (key cn) k (psz s) = Ok (lcp (pages (psz s) (key cn)) (pages (psz s) k) * psz s)%nat.
Proof.
  intros Hinv Hx Hn Ha Hck Hd Hcn.
  apply (core_match (psz s) (root_node s) (heap_cores s) L x (core n) k ck child (core cn));
    [exact (i_ps _ _ _ _ _ _ _ _ _ Hinv)|exact (i_shape _ _ _ _ _ _ _ _ _ Hinv)|done|by apply cores_lookup|
    eapply pages_head_unit; [exact (i_ps _ _ _ _ _ _ _ _ _ Hinv)|done..]|done|done|by apply cores_lookup].
Qed.

(** The variable [child_key] after [n] pages have been matched. *)
Lemma next_child_key s k j ck :
  (0 < psz s)%nat -> aligned (psz s) k -> exists ck',
  (if decide (key_len (key_drop (j * psz s) k) = O) then mret ck
   else lift_res (child_key (psz s) (key_drop (j * psz s) k)) : M (RadixCache A) child_key_t) s =
    (Ok ck', s) /\
  (key_len (key_drop (j * psz s) k) ≠ O -> head (pages (psz s) (key_drop (j * psz s) k)) = Some ck').
Proof.
  intros Hps Ha. case_decide as Hz; [by exists ck|].
  destruct (next_page (psz s) k j Hps Ha Hz) as (c & Hc & Hh). exists c. unfold lift_res. by rewrite Hc.
Qed.

(** One iteration of a descent, up to the comparison with the child's key. *)
Lemma enter_child t s L H' x n k ck child :
  radix_inv s L H' -> x ∈ L -> nodes s !! x = Some n -> aligned (psz s) k ->
  head (pages (psz s) k) = Some ck -> dict_get (children n) ck = Some child ->
  exists cn i s1,
    view s1 = view s /\ radix_inv s1 L H' /\ params s1 = params s /\
    nodes s1 !! child = Some cn /\ heap_cores s !! child = Some (core cn) /\
    child ∈ L /\ child ≠ root_node s1 /\ value cn = Some (co_val (core cn)) /\
    i = lcp (pages (psz s) (key cn)) (pages (psz s) k) /\ (0 < i)%nat /\
    (i * psz s ≤ key_len k)%nat /\
    ((i * psz s < key_len (key cn) /\ i < length (pages (psz s) (key cn)) \/
      key_len (key cn) ≤ i * psz s /\ i = length (pages (psz s) (key cn)))%nat) /\
    forall B (f : TreeNode -> nat -> nat -> M (RadixCache A) B),
      (update_node child (set_access t) ≫= fun _ =>
       c ← node_at child;
       ps ← gets (fun s : RadixCache A => page_size (params s));
       prefix_len ← lift_res (match_ (key c) k ps);
       f c ps prefix_len) s = f cn (psz s) (i * psz s)%nat s1.
Proof.
  intros Hinv Hx Hn Ha Hck Hd. pose proof (i_ps _ _ _ _ _ _ _ _ _ Hinv) as Hps.
  pose proof (i_shape _ _ _ _ _ _ _ _ _ Hinv) as Hs.
  set (s1 := upd_nodes (alter (set_access t) child) s).
  assert (view s1 = view s) as Hv1 by (apply view_meta; auto with py).
  assert (radix_inv s1 L H') as Hinv1 by (by eapply view_eq_inv).
  destruct (sh_child _ _ _ _ Hs x (core n) ck child Hx (cores_lookup s x n Hn) Hd) as
    (HcL & Hcr & m & Hm & _ & _).
  destruct (cores_lookup_inv s child m Hm) as (cn0 & Hcn0 & <-).
  destruct (view_nodes s s1 child cn0 Hv1 Hcn0) as (cn & Hcn & Ecn).
  destruct (view_nodes s s1 x n Hv1 Hn) as (n1 & Hn1 & En1).
  assert (dict_get (children n1) ck = Some child) as Hd1 by (by injection En1 as ->).
  destruct (child_match s1 L H' x n1 k ck child cn Hinv1 Hx Hn1 Ha Hck Hd1 Hcn) as
    (_ & _ & Hca & Hlen & Hval & Hpos & Hmatch).
  change (params s1) with (params s) in *.
  exists cn, (lcp (pages (psz s) (key cn)) (pages (psz s) k)), s1. rewrite Ecn.
  pose proof (lcp_le_l (pages (psz s) (key cn)) (pages (psz s) k)) as H1'.
  pose proof (lcp_le_r (pages (psz s) (key cn)) (pages (psz s) k)) as H2'.
  pose proof (proj1 (aligned_len (psz s) Hps k) Ha) as Hklen.
  split_and!; try done.
  - by rewrite <-Ecn.
  - rewrite Hklen. by apply Nat.mul_le_mono_r.
  - rewrite Hlen. destruct (decide (lcp (pages (psz s) (key cn)) (pages (psz s) k) <
      length (pages (psz s) (key cn)))%nat); [left|right].
    + split; [by apply Nat.mul_lt_mono_pos_r|done].
    + split; [apply Nat.mul_le_mono_r|]; lia.
  - intros B f. erewrite bind_ok by reflexivity. fold s1.
    rewrite (bind_ok _ _ _ _ _ (node_at_run s1 child cn Hcn)). cbv beta.
    erewrite bind_ok by reflexivity. change (params s1) with (params s). cbv beta.
    erewrite bind_ok by (unfold lift_res; by rewrite Hmatch). done.
Qed.

Lemma match_loop_run fuel t s L H' x k ck acc :
  radix_inv s L H' -> x ∈ L -> aligned (psz s) k ->
  (key_len k ≠ O -> head (pages (psz s) k) = Some ck) -> (key_len k < fuel)%nat ->
  exists vs j st last s',
    match_loop monotonic fuel t x k ck acc s = (Ok (acc ++ vs, last), s') /\
    desc (psz s) (heap_cores s) x (pages (psz s) k) (concat vs) j st /\
    landed (view s) L st last (view s').
Proof.
  revert s x k ck acc. induction fuel as [|fuel IH]; intros s x k ck acc Hinv Hx Ha Hck Hf; [lia|].
  pose proof (i_ps _ _ _ _ _ _ _ _ _ Hinv) as Hps.
  destruct (shape_lookup _ _ _ _ x (i_shape _ _ _ _ _ _ _ _ _ Hinv) Hx) as [n0 Hn0].
  destruct (cores_lookup_inv s x n0 Hn0) as (n & Hn & <-).
  cbn [match_loop]. rewrite (bind_ok _ _ _ _ _ (node_at_run s x n Hn)). cbv beta iota.
  case_decide as Hz.
  { exists [], O, (AtNode x), x, s. rewrite app_nil_r. split_and!; [done| |done].
    apply (pages_nil (psz s) Hps k Ha) in Hz. rewrite Hz. constructor. }
  specialize (Hck Hz). destruct (dict_get (children n) ck) as [child|] eqn:Hd; cycle 1.
  { exists [], O, (AtNode x), x, s. rewrite app_nil_r. split_and!; [done|by eapply desc_miss_at|done]. }
  destruct (enter_child t s L H' x n k ck child Hinv Hx Hn Ha Hck Hd) as
    (cn & i & s1 & Hv1 & Hinv1 & Hp1 & Hcn & Hgc & HcL & Hcr & Hval & Ei & Hpos & Hik & Hcase & Hrun).
  rewrite Hrun. clear Hrun. destruct Hcase as [[Hlt Hil]|[Hge Hil]].
  - rewrite decide_True by done.
    destruct (split_node_run s1 L H' child i cn Hinv1 HcL Hcr Hcn) as
      (p & pn & ck' & c' & h1 & h2 & s' & nn & Hrun & Hsp & Hnn & Hvn); [by rewrite Hp1|].
    rewrite Hp1 in *. rewrite (bind_ok _ _ _ _ _ Hrun). cbv beta.
    rewrite (bind_ok _ _ _ _ _ (node_at_run s' _ nn Hnn)). cbv beta.
    unfold value_at. rewrite Hvn. erewrite bind_ok by reflexivity.
    exists [take (i * psz s) (co_val (core cn))], i, (Inside child i), (counter s1), s'.
    split; [done|]. split.
    + simpl. rewrite app_nil_r. eapply desc_inside_at; [done..|by rewrite Ei|done].
    + rewrite <-Hv1. split; [done|]. by do 7 eexists.
  - rewrite decide_False by lia. unfold value_at. rewrite Hval. erewrite bind_ok by reflexivity.
    rewrite <-Hp1 in *. destruct (next_child_key s1 k i ck Hps Ha) as (ck' & Hrun & Hck').
    rewrite (bind_ok _ _ _ _ _ Hrun).
    destruct (IH s1 child (key_drop (i * psz s1) k) ck' (acc ++ [co_val (core cn)])) as
      (vs & j & st & last & s' & Hr & Hdesc & Hland); try done.
    { by apply aligned_drop. }
    { rewrite key_drop_len. nia. }
    exists (co_val (core cn) :: vs), (length (pages (psz s1) (key cn)) + j)%nat, st, last, s'.
    split; [by rewrite Hr, <-app_assoc|]. rewrite <-Hv1. split; [|done].
    rewrite (pages_drop (psz s1) Hps) in Hdesc. injection Hv1 as _ Hg _ _ _ _ _ _ _. rewrite Hg in Hdesc.
    eapply desc_through_at; [done|done|done|done|simpl; congruence|]. simpl. by rewrite <-Hil.
Qed.

(** *** Inserting *)

(** Updating priority and hit count of the node a descent has reached. *)
Lemma touch_run prio chunked next s :
  exists s', view s' = view s /\ params s' = params s /\
    forall B (m : M (RadixCache A) B),
      (raise_priority next prio ≫= fun _ => inc_hit_count next chunked ≫= fun _ => m) s = m s'.
Proof.
  destruct chunked.
  - eexists. split_and!; [| |intros B m; reflexivity]; [by apply view_meta|done].
  - eexists. split_and!; [| |intros B m; reflexivity]; [|done].
    rewrite view_meta by done. by apply view_meta.
Qed.

(** The loop stops at a node without a child for the rest of the key. *)
Definition no_child (g : cores) (x : nat) (ck : child_key_t) : Prop :=
  exists n, g !! x = Some n /\ dict_get (co_children n) ck = None.

Lemma insert_stop fuel t prio chunked s x k ck v total n :
  nodes s !! x = Some n -> (key_len k ≠ O -> dict_get (children n) ck = None) ->
  insert_loop monotonic (S fuel) t prio chunked x k ck v total s = (Ok (x, k, ck, v, total), s).
Proof.
  intros Hn Hc. cbn [insert_loop]. rewrite (bind_ok _ _ _ _ _ (node_at_run s x n Hn)). cbv beta.
  case_decide as Hz; [done|]. by rewrite (Hc Hz).
Qed.

Lemma insert_loop_run fuel t prio chunked s L H' x k ck v total :
  radix_inv s L H' -> x ∈ L -> aligned (psz s) k ->
  (key_len k ≠ O -> head (pages (psz s) k) = Some ck) -> (key_len k < fuel)%nat ->
  exists v0 j st last k' ck' s',
    insert_loop monotonic fuel t prio chunked x k ck v total s =
      (Ok (last, k', ck', drop (j * psz s) v, (total + j * psz s)%nat), s') /\
    desc (psz s) (heap_cores s) x (pages (psz s) k) v0 j st /\
    landed (view s) L st last (view s') /\
    key_len k' = (key_len k - j * psz s)%nat /\
    (key_len k' ≠ O -> k' = key_drop (j * psz s) k /\
      head (pages (psz s) k') = Some ck' /\ no_child (heap_cores s') last ck').
Proof.
  revert s x k ck v total. induction fuel as [|fuel IH]; intros s x k ck v total Hinv Hx Ha Hck Hf; [lia|].
  pose proof (i_ps _ _ _ _ _ _ _ _ _ Hinv) as Hps.
  destruct (shape_lookup _ _ _ _ x (i_shape _ _ _ _ _ _ _ _ _ Hinv) Hx) as [n0 Hn0].
  destruct (cores_lookup_inv s x n0 Hn0) as (n & Hn & <-).
  destruct (decide (key_len k = O)) as [Hz|Hz].
  { exists [], O, (AtNode x), x, k, ck, s. rewrite (insert_stop _ _ _ _ _ _ _ _ _ _ n) by done.
    rewrite Nat.mul_0_l, drop_0, Nat.add_0_r, Nat.sub_0_r. split_and!; [done| |done|done|done].
    apply (pages_nil (psz s) Hps k Ha) in Hz. rewrite Hz. constructor. }
  specialize (Hck Hz). destruct (dict_get (children n) ck) as [child|] eqn:Hd; cycle 1.
  { exists [], O, (AtNode x), x, k, ck, s. rewrite (insert_stop _ _ _ _ _ _ _ _ _ _ n) by done.
    rewrite Nat.mul_0_l, drop_0, Nat.add_0_r, Nat.sub_0_r.
    split_and!; [done|by eapply desc_miss_at|done|done|]. intros _.
    split_and!; [by rewrite key_drop_0 by auto|done|by exists (core n)]. }
  cbn [insert_loop]. rewrite (bind_ok _ _ _ _ _ (node_at_run s x n Hn)). cbv beta.
  rewrite decide_False, Hd by done.
  destruct (enter_child t s L H' x n k ck child Hinv Hx Hn Ha Hck Hd) as
    (cn & i & s1 & Hv1 & Hinv1 & Hp1 & Hcn & Hgc & HcL & Hcr & Hval & Ei & Hpos & Hik & Hcase & Hrun).
  rewrite Hrun. clear Hrun. rewrite <-Hp1 in *.
  assert (heap_cores s1 = heap_cores s) as Hg by (by injection Hv1).
  destruct Hcase as [[Hlt Hil]|[Hge Hil]].
  - rewrite (decide_True _ _ Hlt).
    destruct (split_node_run s1 L H' child i cn Hinv1 HcL Hcr Hcn) as
      (p & pn & ck' & c' & h1 & h2 & s2 & nn & Hrun & Hsp & Hnn & Hvn); [done|].
    rewrite (bind_ok _ _ _ _ _ Hrun). cbv beta. clear Hrun.
    destruct (touch_run prio chunked (counter s1) s2) as (s3 & Hv3 & Hp3 & Ht). rewrite Ht. clear Ht.
    assert (params s2 = params s1) as Hp2 by (by destruct Hsp as [? ? ? ? ? ? ? ? ? [=]]).
    rewrite <-Hp3 in Hp2. rewrite <-Hp2 in *.
    destruct (next_child_key s3 k i ck Hps Ha) as (ck3 & Hrun & Hck3).
    rewrite (bind_ok _ _ _ _ _ Hrun). cbv beta. clear Hrun.
    assert (heap_cores s3 !! counter s1 = Some (split_new (psz s3) (core cn) i child p c' h1)) as Hnew.
    { replace (heap_cores s3) with (heap_cores s2) by (by injection Hv3).
      rewrite Hp2. exact (split_of_new (proj1 (radix_inv_view _ _ _) Hinv1) Hsp). }
    destruct (cores_lookup_inv s3 _ _ Hnew) as (n3 & Hn3 & En3).
    assert (key_len (key_drop (i * psz s3) k) ≠ O -> dict_get (children n3) ck3 = None) as Hnone.
    { intros Hr. specialize (Hck3 Hr). injection En3 as -> _ _ _ _ _. simpl.
      rewrite decide_False; [done|]. pose proof (so_rest _ _ _ _ _ _ _ _ _ _ _ _ Hsp) as Hrest.
      simpl in Hrest. rewrite <-Hp2 in Hrest. rewrite (pages_drop (psz s3) Hps) in Hck3.
      rewrite Ei in Hrest, Hck3. by eapply lcp_differ. }
    destruct fuel as [|fuel]; [lia|]. rewrite (insert_stop _ _ _ _ _ _ _ _ _ _ n3) by done.
    do 2 eexists. exists (Inside child i), (counter s1). do 3 eexists. split; [reflexivity|].
    split_and!.
    + eapply desc_inside_at; [done..|by rewrite Ei|done].
    + rewrite <-Hv1, Hv3. split; [done|]. by do 7 eexists.
    + apply key_drop_len.
    + intros Hr. split_and!; [done|by apply Hck3|]. exists (core n3).
      split; [by apply cores_lookup|by apply Hnone].
  - apply Nat.nlt_ge in Hge. rewrite (decide_False _ _ Hge). erewrite bind_ok by reflexivity.
    destruct (touch_run prio chunked child s1) as (s3 & Hv3 & Hp3 & Ht). rewrite Ht. clear Ht.
    rewrite <-Hp3 in *.
    destruct (next_child_key s3 k i ck Hps Ha) as (ck3 & Hrun & Hck3).
    rewrite (bind_ok _ _ _ _ _ Hrun). cbv beta. clear Hrun.
    assert (radix_inv s3 L H') as Hinv3 by (by eapply view_eq_inv).
    destruct (IH s3 child (key_drop (i * psz s3) k) ck3 (drop (i * psz s3) v) (total + i * psz s3)%nat)
      as (v0 & j & st & last & k' & ck' & s' & Hr & Hdesc & Hland & Hlen & Hend); try done.
    { by apply aligned_drop. }
    { rewrite key_drop_len. nia. }
    exists (co_val (core cn) ++ v0), (i + j)%nat, st, last, k', ck', s'.
    assert (heap_cores s3 = heap_cores s1) as Hg3 by (by injection Hv3).
    split_and!.
    + by rewrite Hr, drop_drop, Nat.mul_add_distr_r, Nat.add_assoc.
    + rewrite (pages_drop (psz s3) Hps), Hg3, Hg, Hil in Hdesc. rewrite Hil.
      eapply desc_through_at; [done..|simpl; congruence|done].
    + by rewrite <-Hv1, <-Hv3.
    + rewrite Hlen, key_drop_len. lia.
    + intros Hk'. destruct (Hend Hk') as (-> & Hh & Hno). rewrite key_drop_drop in *.
      by rewrite Nat.mul_add_distr_r.
Qed.
End run.
