(* ===== verification/RadixEvents.v ===== *)
(** * The prefix cache: page hashes and events

    Runs of the event code on a node of the tree: with events disabled it does
    nothing; with events enabled and tokens that fit in 32 bits it never
    raises, gives the node one valid hash per page and appends one event per
    page, whose block ids are the node's hashes. *)

From S2P Require Import Prelude PyDict RadixKey KvEvents RadixTree RadixOps RadixInv RadixMoves.
From S2P Require Import RadixState RadixLocks RadixRun.

(** [hexdigest] yields hexadecimal digits, which [hash_str_to_int64] reads. *)
Class Sha256Laws `{Sha256} := { sha256_hash_valid b : hash_valid (sha256_hex b) }.

(** The block id of a page hash. *)
Definition block_id (h : string) : Z := match hash_str_to_int64 h with Ok z => z | Raise _ => 0 end.

Definition stored_id (e : kv_event) : option Z :=
  match e with BlockStored b _ _ _ _ => Some b | _ => None end.
Definition removed_id (e : kv_event) : option Z :=
  match e with BlockRemoved b _ => Some b | _ => None end.

Lemma hash_valid_id h : hash_valid h -> hash_str_to_int64 h = Ok (block_id h).
Proof. intros [z Hz]. unfold block_id. by rewrite Hz. Qed.

(** ** Computing hashes *)

Lemma tokens_bytes_ok l : Forall (fun t => 0 <= t < 2 ^ 32) l -> exists b, tokens_bytes l = Ok b.
Proof.
  induction 1 as [|t l Ht _ [b IH]]; simpl; [eauto|].
  unfold to_bytes4. rewrite decide_True by done. rewrite IH. eauto.
Qed.

Lemma bigrams_tokens t : Forall (fun u => Forall (fun x => x ∈ t) (unit_tokens u)) (bigrams t).
Proof.
  induction t as [|a [|b t] IH]; [constructor..|].
  change (bigrams (a :: b :: t)) with (Pair a b :: bigrams (b :: t)). constructor.
  - repeat constructor; set_solver.
  - eapply Forall_impl; [exact IH|]. intros u Hu. eapply Forall_impl; [exact Hu|]. set_solver.
Qed.

Lemma units_fit k : tokens_fit k -> Forall (fun t => 0 <= t < 2 ^ 32) (units k ≫= unit_tokens).
Proof.
  unfold tokens_fit. rewrite !Forall_forall. intros Hk t Ht. apply Hk.
  apply list_elem_of_bind in Ht as (u & Ht & Hu). unfold units in Hu. destruct (is_bigram k).
  - pose proof (bigrams_tokens (token_ids k)) as Hb. rewrite Forall_forall in Hb.
    specialize (Hb u Hu). rewrite Forall_forall in Hb. by apply Hb.
  - apply list_elem_of_fmap in Hu as (t' & -> & Ht'). simpl in Ht.
    apply list_elem_of_singleton in Ht as ->. done.
Qed.

Section hashes.
Context `{Sha256} `{!Sha256Laws}.

Lemma hash_page_ok k a b prior :
  tokens_fit k -> (b ≤ key_len k)%nat -> exists h, hash_page k a b prior = Ok h /\ hash_valid h.
Proof.
  intros Hk Hb. unfold hash_page.
  destruct (tokens_bytes_ok (take (b - a) (drop a (units k)) ≫= unit_tokens)) as [bs ->].
  { apply units_fit in Hk. rewrite Forall_forall in *. intros t Ht. apply Hk.
    apply list_elem_of_bind in Ht as (u & Ht & Hu). apply list_elem_of_bind. exists u.
    split; [done|]. by eapply subseteq_drop, subseteq_take. }
  rewrite decide_True by done. eexists. split; [done|apply sha256_hash_valid].
Qed.

Lemma hash_from_ok k ps starts prior :
  tokens_fit k -> exists hv, hash_from k ps starts prior = Ok hv /\
    length hv = length starts /\ Forall hash_valid hv.
Proof.
  intros Hk. revert prior. induction starts as [|a starts IH]; intros prior; simpl; [by exists []|].
  destruct (hash_page_ok k a ((a + ps) `min` key_len k) prior Hk) as (h & -> & Hh); [lia|].
  destruct (IH (Some h)) as (hv & -> & Hl & Hv). exists (h :: hv). simpl. auto.
Qed.
End hashes.

Lemma range_step_length ps k :
  (0 < ps)%nat -> aligned ps k -> length (range_step (key_len k) ps) = length (pages ps k).
Proof.
  intros Hps Ha. unfold range_step. rewrite length_fmap, length_seq.
  apply (aligned_len ps Hps) in Ha. rewrite Ha.
  set (n := length (pages ps k)). replace (n * ps + ps - 1)%nat with (n * ps + (ps - 1))%nat by lia.
  rewrite Nat.div_add_l, (Nat.div_small (ps - 1)) by lia. lia.
Qed.

(** ** Emitting events *)

(** The attributes of the host are independent of each other. *)
Class EventHostLaws (S : Type) `{EventHost S} := {
  eh_set_hash_node x hv s y : eh_node (eh_set_hash x hv s) y =
    (fun n => if decide (y = x) then EvNode (ev_parent n) (ev_key n) (Some hv) else n) <$> eh_node s y;
  eh_set_hash_root x hv s : eh_root (eh_set_hash x hv s) = eh_root s;
  eh_queue_set q s : eh_queue (eh_set_queue q s) = q;
  eh_set_queue_set q q' s : eh_set_queue q (eh_set_queue q' s) = eh_set_queue q s;
  eh_set_queue_id s : eh_set_queue (eh_queue s) s = s
}.

(** The host after a list of events has been queued. *)
Definition emit_all {S} `{EventHost S} (evs : list kv_event) (s : S) : S :=
  eh_set_queue (eh_queue s ++ evs) s.

Section mixin.
Context {S : Type} `{EventHost S} `{!EventHostLaws S} `{Sha256} `{!Sha256Laws}.
Implicit Types s : S.

Lemma emit_all_nil s : emit_all [] s = s.
Proof. unfold emit_all. by rewrite app_nil_r, eh_set_queue_id. Qed.

Lemma emit_all_app evs evs' s : emit_all evs' (emit_all evs s) = emit_all (evs ++ evs') s.
Proof. unfold emit_all. by rewrite eh_queue_set, eh_set_queue_set, <-app_assoc. Qed.

Lemma ev_node_at_run s x n : eh_node s x = Some n -> ev_node_at x s = (Ok n, s).
Proof. intros Hn. unfold ev_node_at. by rewrite Hn. Qed.

Lemma nth_hash_run hv i h s :
  hv !! i = Some h -> hash_valid h -> nth_hash hv i s = (Ok (block_id h), s).
Proof. intros Hi Hh. unfold nth_hash, lift_res. rewrite Hi. by rewrite hash_valid_id. Qed.

Lemma store_blocks_run k ps hv medium starts i parent s :
  Forall hash_valid hv -> length hv = (i + length starts)%nat ->
  exists evs, store_blocks k ps hv medium starts i parent s = (Ok tt, emit_all evs s) /\
    omap stored_id evs = block_id <$> drop i hv /\ omap removed_id evs = [].
Proof.
  intros Hv. revert i parent s. induction starts as [|a starts IH]; intros i parent s Hl; simpl in *.
  - exists []. rewrite drop_ge, emit_all_nil by lia. done.
  - destruct (lookup_lt_is_Some_2 hv i) as [h Hh]; [lia|].
    rewrite (bind_ok _ _ _ _ _ (nth_hash_run hv i h s Hh (Forall_lookup_1 _ _ _ _ Hv Hh))).
    unfold emit. erewrite bind_ok by reflexivity. cbv beta.
    match goal with |- context [eh_set_queue (eh_queue s ++ [?e]) s] =>
      change (eh_set_queue (eh_queue s ++ [e]) s) with (emit_all [e] s) end.
    edestruct (IH (Datatypes.S i)) as (evs & -> & Hs & Hr); [lia|].
    eexists (_ :: evs). split; [by rewrite emit_all_app|].
    split; [|exact Hr]. rewrite (drop_S hv h i Hh), fmap_cons, <-Hs. done.
Qed.

Lemma remove_blocks_run hv medium starts i s :
  Forall hash_valid hv -> length hv = (i + length starts)%nat ->
  exists evs, remove_blocks hv medium starts i s = (Ok tt, emit_all evs s) /\
    omap removed_id evs = block_id <$> drop i hv /\ omap stored_id evs = [].
Proof.
  intros Hv. revert i s. induction starts as [|a starts IH]; intros i s Hl; simpl in *.
  - exists []. rewrite drop_ge, emit_all_nil by lia. done.
  - destruct (lookup_lt_is_Some_2 hv i) as [h Hh]; [lia|].
    rewrite (bind_ok _ _ _ _ _ (nth_hash_run hv i h s Hh (Forall_lookup_1 _ _ _ _ Hv Hh))).
    unfold emit. erewrite bind_ok by reflexivity. cbv beta.
    match goal with |- context [eh_set_queue (eh_queue s ++ [?e]) s] =>
      change (eh_set_queue (eh_queue s ++ [e]) s) with (emit_all [e] s) end.
    edestruct (IH (Datatypes.S i)) as (evs & -> & Hs & Hr); [lia|].
    eexists (_ :: evs). split; [by rewrite emit_all_app|].
    split; [|exact Hr]. rewrite (drop_S hv h i Hh), fmap_cons, <-Hs. done.
Qed.

(** [_record_store_event] on a new node without hashes *)
Lemma mixin_store_run s x n p pn :
  (0 < eh_page_size s)%nat -> eh_node s x = Some n -> ev_hash n = None ->
  aligned (eh_page_size s) (ev_key n) -> ev_parent n = Some p -> eh_node s p = Some pn -> p ≠ x ->
  (eh_enabled s = true -> tokens_fit (ev_key n)) ->
  (eh_enabled s = true -> p ≠ eh_root s -> forall h, ev_hash pn ≫= last = Some h -> hash_valid h) ->
  exists s' evs, record_store_event x s = (Ok tt, s') /\
    if eh_enabled s then
      exists hv, s' = emit_all evs (eh_set_hash x hv s) /\
        length hv = length (pages (eh_page_size s) (ev_key n)) /\ Forall hash_valid hv /\
        omap stored_id evs = block_id <$> hv /\ omap removed_id evs = []
    else s' = s /\ evs = [].
Proof.
  intros Hps Hn Hh Ha Hp Hpn Hpx Hfit Hpv. unfold record_store_event.
  erewrite bind_ok by reflexivity. cbv beta.
  destruct (eh_enabled s) eqn:He; [|by exists s, []]. erewrite bind_ok by reflexivity. cbv beta.
  specialize (Hfit eq_refl). specialize (Hpv eq_refl).
  destruct (hash_from_ok (ev_key n) (eh_page_size s) (range_step (key_len (ev_key n)) (eh_page_size s))
    (if decide (0 < key_len (ev_key pn))%nat then ev_hash pn ≫= last else None) Hfit) as (hv & Hhv & Hlen & Hval).
  set (s1 := eh_set_hash x hv s).
  assert (ensure_hashes x s = (Ok hv, s1)) as Hens.
  { unfold ensure_hashes. rewrite (bind_ok _ _ _ _ _ (ev_node_at_run s x n Hn)). cbv beta. rewrite Hh.
    erewrite bind_ok by reflexivity. erewrite bind_ok by reflexivity. cbv beta. rewrite Hp. simpl.
    rewrite Hpn. unfold compute_node_hash_values. erewrite bind_ok by (unfold lift_res; by rewrite Hhv).
    done. }
  rewrite (bind_ok _ _ _ _ _ Hens). cbv beta.
  assert (eh_node s1 x = Some (EvNode (ev_parent n) (ev_key n) (Some hv))) as Hn1
    by (unfold s1; rewrite eh_set_hash_node, Hn; simpl; by rewrite decide_True).
  rewrite (bind_ok _ _ _ _ _ (ev_node_at_run s1 x _ Hn1)). cbv beta.
  erewrite bind_ok by reflexivity. erewrite bind_ok by reflexivity. cbv beta. simpl ev_parent. rewrite Hp.
  assert (exists o, (match (Some p ≫= (fun p0 => if decide (p0 = eh_root s1) then None else eh_node s1 p0))
      ≫= (fun q => ev_hash q ≫= last) with
    | Some h => z ← lift_res (hash_str_to_int64 h); mret (Some z)
    | None => mret None
    end : M S (option Z)) s1 = (Ok o, s1)) as [o Ho].
  { assert (eh_root s1 = eh_root s) as -> by apply eh_set_hash_root. simpl.
    destruct (decide (p = eh_root s)) as [Hr|Hr]; [by exists None|].
    assert (eh_node s1 p = Some pn) as -> by (unfold s1; rewrite eh_set_hash_node, Hpn; simpl; by rewrite decide_False).
    simpl.
    destruct (ev_hash pn ≫= last) as [h|] eqn:Eh; [|by exists None]. eexists.
    erewrite bind_ok by (unfold lift_res; by rewrite (hash_valid_id h (Hpv Hr h eq_refl))). done. }
  rewrite (bind_ok _ _ _ _ _ Ho). cbv beta. simpl ev_key.
  destruct (store_blocks_run (ev_key n) (eh_page_size s) hv GPU
    (range_step (key_len (ev_key n)) (eh_page_size s)) 0 o s1 Hval) as (evs & Hrun & Hst & Hrm); [done|].
  do 2 eexists. split; [exact Hrun|]. exists hv. split_and!; try done. by rewrite Hlen, range_step_length.
Qed.

(** [_record_remove_event] on a node that carries its hashes *)
Lemma mixin_remove_run s x n :
  (0 < eh_page_size s)%nat -> eh_node s x = Some n -> aligned (eh_page_size s) (ev_key n) ->
  (eh_enabled s = true -> exists hv, ev_hash n = Some hv /\
    length hv = length (pages (eh_page_size s) (ev_key n)) /\ Forall hash_valid hv) ->
  exists evs, record_remove_event x s = (Ok tt, emit_all evs s) /\
    (eh_enabled s = true -> exists hv, ev_hash n = Some hv /\
      omap removed_id evs = block_id <$> hv /\ omap stored_id evs = []).
Proof.
  intros Hps Hn Ha Hhash. unfold record_remove_event. erewrite bind_ok by reflexivity. cbv beta.
  destruct (eh_enabled s) eqn:He; [|exists []; by rewrite emit_all_nil].
  erewrite bind_ok by reflexivity. cbv beta. destruct (Hhash eq_refl) as (hv & Hhv & Hlen & Hval).
  assert (ensure_hashes x s = (Ok hv, s)) as Hens.
  { unfold ensure_hashes. rewrite (bind_ok _ _ _ _ _ (ev_node_at_run s x n Hn)). cbv beta. by rewrite Hhv. }
  rewrite (bind_ok _ _ _ _ _ Hens). cbv beta.
  rewrite (bind_ok _ _ _ _ _ (ev_node_at_run s x n Hn)). cbv beta.
  destruct (remove_blocks_run hv GPU (range_step (key_len (ev_key n)) (eh_page_size s)) 0 s Hval)
    as (evs & Hrun & Hrm & Hst); [by rewrite range_step_length, Hlen|].
  exists evs. split; [exact Hrun|]. intros _. by exists hv.
Qed.
End mixin.

(** ** The events of the prefix cache *)

Definition rehash (h : option (list string)) (m : core_t) : core_t :=
  Core (co_children m) (co_parent m) (co_key m) (co_value m) (co_lock m) h.

Section run.
Context {A : Type} `{Sha256} `{!Sha256Laws}.
Implicit Types s : RadixCache A.

#[export] Instance radix_events_laws : EventHostLaws (RadixCache A).
Proof.
  split; try done.
  - intros x hv s y. simpl. destruct (decide (y = x)) as [->|Hne].
    + rewrite lookup_alter_eq. by destruct (nodes s !! x).
    + rewrite lookup_alter_ne by done. by destruct (nodes s !! y).
  - intros s. by destruct s.
Qed.

Lemma radix_node_lookup s x n : nodes s !! x = Some n -> eh_node s x = Some (ev_of n).
Proof. intros Hn. simpl. by rewrite Hn. Qed.

Lemma record_store_run s x n p pn :
  (0 < page_size (params s))%nat -> nodes s !! x = Some n -> hash_value n = None ->
  aligned (page_size (params s)) (key n) -> parent n = Some p -> nodes s !! p = Some pn -> p ≠ x ->
  (enable_kv_cache_events (params s) = true -> tokens_fit (key n)) ->
  (enable_kv_cache_events (params s) = true -> p ≠ root_node s ->
    forall h, get_last_hash_value pn = Some h -> hash_valid h) ->
  exists s' h evs, record_store_event x s = (Ok tt, s') /\
    view s' = View (params s) (<[x := rehash h (core n)]> (heap_cores s)) (counter s) (root_node s)
      (evictable_size_ s) (protected_size_ s) (evictable_leaves s) (kv_event_queue s ++ evs) (allocator s) /\
    (enable_kv_cache_events (params s) = true -> exists hv, h = Some hv /\
      length hv = length (pages (page_size (params s)) (key n)) /\ Forall hash_valid hv /\
      omap stored_id evs = block_id <$> hv /\ omap removed_id evs = []).
Proof.
  intros Hps Hn Hh Ha Hp Hpn Hpx Hfit Hpv.
  destruct (mixin_store_run s x (ev_of n) p (ev_of pn)) as (s' & evs & Hr & Hs');
    [exact Hps|by apply radix_node_lookup|exact Hh|exact Ha|exact Hp|by apply radix_node_lookup|exact Hpx
    |exact Hfit|exact Hpv|].
  simpl eh_enabled in Hs'. exists s'. destruct (enable_kv_cache_events (params s)).
  - destruct Hs' as (hv & -> & Hlen & Hval & Hst & Hrm). exists (Some hv), evs.
    split; [exact Hr|]. split; [|intros _; by exists hv].
    unfold view, heap_cores. simpl. f_equal. apply map_eq. intros z. rewrite lookup_fmap.
    destruct (decide (z = x)) as [->|Hz].
    + rewrite lookup_insert_eq, lookup_alter_eq, Hn. reflexivity.
    + by rewrite lookup_insert_ne, lookup_alter_ne, lookup_fmap by done.
  - destruct Hs' as [-> ->]. exists None, []. split; [exact Hr|]. split; [|done]. unfold view.
    rewrite app_nil_r. f_equal. symmetry. apply insert_id. rewrite (cores_lookup s x n Hn). f_equal.
    unfold core, rehash. simpl. by rewrite Hh.
Qed.

Lemma record_remove_run s x n :
  (0 < page_size (params s))%nat -> nodes s !! x = Some n ->
  aligned (page_size (params s)) (key n) ->
  (enable_kv_cache_events (params s) = true -> hashed (page_size (params s)) (core n)) ->
  exists evs, record_remove_event x s = (Ok tt, upd_events (fun q => q ++ evs) s) /\
    (enable_kv_cache_events (params s) = true -> exists hv, hash_value n = Some hv /\
      omap removed_id evs = block_id <$> hv /\ omap stored_id evs = []).
Proof.
  intros Hps Hn Ha Hhash.
  destruct (mixin_remove_run s x (ev_of n)) as (evs & Hr & He);
    [exact Hps|by apply radix_node_lookup|exact Ha|intros Hen; by destruct (Hhash Hen)|by exists evs].
Qed.
End run.
