(* ===== verification/RadixInsert.v ===== *)
(** * The prefix cache: lookup and insertion

    [match_prefix] returns the longest cached prefix of the query and does
    not change the content; [insert] reports how much of the key was cached
    and adds the rest, leaving everything cached before as it was; so what was
    inserted is found.  Both keep the invariant. *)

From S2P Require Import Prelude PyDict RadixKey KvEvents RadixTree RadixOps RadixInv RadixMoves.
From S2P Require Import RadixState RadixLocks RadixRun RadixEvents.

Lemma dict_get_value {K V} `{EqDecision K} (d : dict K V) k x : dict_get d k = Some x -> x ∈ dict_values d.
Proof. intros Hg%dict_get_elem. apply list_elem_of_fmap. by exists (k, x). Qed.

Lemma alter_insert_same (F : TreeNode -> TreeNode) x m (g : gmap nat TreeNode) :
  alter F x (<[x := m]> g) = <[x := F m]> g.
Proof.
  apply map_eq. intros z. destruct (decide (z = x)) as [->|Hz].
  - by rewrite lookup_alter_eq, !lookup_insert_eq.
  - by rewrite lookup_alter_ne, !lookup_insert_ne.
Qed.

Section leaves.
Context {A : Type} `{KvFree A} `{HeapQ}.
Implicit Types s : RadixCache A.

(** [_update_leaf_status], given that a node with children has a live one *)
Lemma update_leaf_status_run s x n :
  nodes s !! x = Some n -> evicted n = false -> (children n ≠ [] -> has_live_child n s = true) ->
  update_leaf_status x s =
  (Ok tt, upd_leaves (if decide (lock_ref n <= 0 /\ children n = []) then (fun E => {[x]} ∪ E)
                      else (fun E => E ∖ {[x]})) s).
Proof.
  intros Hn Hev Hch. unfold update_leaf_status. rewrite (bind_ok _ _ _ _ _ (node_at_run s x n Hn)).
  cbv beta. rewrite Hev. simpl. case_bool_decide as Hl.
  - rewrite decide_False by lia. done.
  - erewrite bind_ok by reflexivity. destruct (children n) as [|c d] eqn:Ec.
    + rewrite decide_True by (split; [lia|done]). unfold has_live_child. rewrite Ec. done.
    + rewrite decide_False by naive_solver. rewrite Hch by done. done.
Qed.

Lemma has_live_child_intro s n c x m :
  dict_get (children n) c = Some x -> nodes s !! x = Some m -> evicted m = false ->
  has_live_child n s = true.
Proof.
  intros Hc Hm Hev. apply existsb_exists. exists x. split.
  - apply list_elem_of_In. by eapply dict_get_value.
  - unfold child_live. by rewrite Hm, Hev.
Qed.
End leaves.

Section attach.
Context {A : Type} `{KvFree A} `{Sha256} `{!Sha256Laws} `{HeapQ} (monotonic : nat -> Z).
Implicit Types s : RadixCache A.
Abbreviation psz s := (page_size (params s)).

(** The part of [_insert_helper] that adds the new leaf. *)
Definition attach (prio : Z) (chunked : bool) (node' : nat) (k' : RadixKey) (ck' : child_key_t)
    (v' : list Z) (total : nat) : M (RadixCache A) nat :=
  new_node ← new_TreeNode monotonic prio;
  update_node new_node (set_place (Some node') k' (Some v')) ≫= fun _ =>
  inc_hit_count new_node chunked ≫= fun _ =>
  update_node node' (fun n => set_children (dict_set (children n) ck' new_node) n) ≫= fun _ =>
  modify (upd_sizes (Z.of_nat (key_len k')) 0) ≫= fun _ =>
  update_leaf_status node' ≫= fun _ =>
  update_leaf_status new_node ≫= fun _ =>
  record_store_event new_node ≫= fun _ =>
  mret total.

Lemma attach_heap prio chunked q k ck v s qn :
  heap_cores s !! counter s = None -> heap_cores s !! q = Some qn ->
  exists s1 nn qn1, nodes s1 !! counter s = Some nn /\ core nn = leaf_core q k v None /\
    nodes s1 !! q = Some qn1 /\ core qn1 = refile qn ck (counter s) /\
    view s1 = View (params s) (add_cores (heap_cores s) q (counter s) qn ck k v None) (S (counter s))
      (root_node s) (evictable_size_ s + Z.of_nat (key_len k)) (protected_size_ s) (evictable_leaves s)
      (kv_event_queue s) (allocator s) /\
    forall B (f : nat -> M (RadixCache A) B),
      (new_TreeNode monotonic prio ≫= fun new_node =>
       update_node new_node (set_place (Some q) k (Some v)) ≫= fun _ =>
       inc_hit_count new_node chunked ≫= fun _ =>
       update_node q (fun n => set_children (dict_set (children n) ck new_node) n) ≫= fun _ =>
       modify (upd_sizes (Z.of_nat (key_len k)) 0) ≫= fun _ => f new_node) s = f (counter s) s1.
Proof.
  intros Hnew Hq. assert (q ≠ counter s) as Hqc by congruence.
  destruct (cores_lookup_inv s q qn Hq) as (qn0 & Hqn0 & <-).
  set (n0 := TreeNode_init prio (monotonic (readings s)) (monotonic (S (readings s)))).
  set (n1 := set_place (Some q) k (Some v) n0).
  set (n2 := if chunked then n1 else set_hits (hit_count n1 + 1) n1).
  set (h := alter (fun n => set_children (dict_set (children n) ck (counter s)) n) q
    (<[counter s := n2]> (nodes s))).
  set (s1 := MkCache (params s) h (S (counter s)) (root_node s) (evictable_size_ s + Z.of_nat (key_len k))
    (protected_size_ s + 0) (evictable_leaves s) (kv_event_queue s) (S (S (readings s))) (allocator s)).
  exists s1, n2, (set_children (dict_set (children qn0) ck (counter s)) qn0). simpl. unfold h.
  split_and!.
  - by rewrite lookup_alter_ne, lookup_insert_eq.
  - unfold n2. by destruct chunked.
  - by rewrite lookup_alter_eq, lookup_insert_ne, Hqn0.
  - done.
  - unfold view, s1. simpl. rewrite Z.add_0_r. f_equal. unfold heap_cores. simpl.
    apply map_eq. intros x. rewrite lookup_fmap. unfold add_cores, h.
    destruct (decide (x = q)) as [->|Hxq].
    + by rewrite lookup_insert_eq, lookup_alter_eq, lookup_insert_ne, Hqn0.
    + rewrite lookup_insert_ne, lookup_alter_ne by done. destruct (decide (x = counter s)) as [->|Hxc].
      * rewrite !lookup_insert_eq. unfold n2. by destruct chunked.
      * by rewrite !lookup_insert_ne, lookup_fmap.
  - intros B f. unfold new_TreeNode, inc_hit_count, update_node.
    unfold s1, h, n2. destruct chunked; run_unfold; cbn; unfold upd_sizes, upd_nodes, upd_fresh; cbn;
      rewrite !alter_insert_same; done.
Qed.

(** The view after the leaf for [k] has been added below [q]. *)
Definition added (s : RadixCache A) (q : nat) (qn : core_t) ck k v h evs : view_t A :=
  View (params s) (add_cores (heap_cores s) q (counter s) qn ck k v h) (S (counter s))
    (root_node s) (evictable_size_ s + Z.of_nat (key_len k)) (protected_size_ s)
    ({[counter s]} ∪ evictable_leaves s ∖ {[q]}) (kv_event_queue s ++ evs) (allocator s).

Lemma attach_run prio chunked q k ck v total s L H' :
  radix_inv s L H' -> q ∈ L -> aligned (psz s) k -> head (pages (psz s) k) = Some ck ->
  no_child (heap_cores s) q ck -> length v = key_len k ->
  (enable_kv_cache_events (params s) = true -> tokens_fit k) ->
  exists qn h evs s', attach prio chunked q k ck v total s = (Ok total, s') /\
    heap_cores s !! q = Some qn /\ dict_get (co_children qn) ck = None /\
    view s' = added s q qn ck k v h evs /\
    (enable_kv_cache_events (params s) = true -> hashed (psz s) (leaf_core q k v h) /\
      exists hv, h = Some hv /\ omap stored_id evs = block_id <$> hv /\ omap removed_id evs = []).
Proof.
  intros Hinv Hq Ha Hck (qn & Hqn & Hfree) Hlen Hfit.
  pose proof (i_ps _ _ _ _ _ _ _ _ _ Hinv) as Hps. pose proof (i_shape _ _ _ _ _ _ _ _ _ Hinv) as Hs.
  destruct (inv_fresh_none _ _ _ _ _ _ _ _ _ Hinv) as [Hnew HnewL].
  destruct (attach_heap prio chunked q k ck v s qn Hnew Hqn) as
    (s1 & nn & qn1 & Hnn & Enn & Hqn1 & Eqn1 & Hv1 & Hrun1).
  assert (q ≠ counter s) as Hqc by congruence.
  assert (exists qv, co_value qn = Some qv) as [qv Hqv].
  { destruct (decide (q = root_node s)) as [->|Hqr].
    - destruct (sh_root _ _ _ _ Hs) as (rn & Hrn & _ & _ & Hrv). simplify_eq. eauto.
    - destruct (shape_node_ok _ _ _ _ _ _ Hs Hq Hqr Hqn) as (_ & _ & qv & Hv). eauto. }
  injection Enn as En1 En2 En3 En4 En5 En6. injection Eqn1 as Eq1 Eq2 Eq3 Eq4 Eq5 Eq6.
  unfold attach. rewrite Hrun1. clear Hrun1.
  assert (children qn1 ≠ []) as Hqch.
  { rewrite Eq1. intros E. pose proof (dict_get_set_eq (co_children qn) ck (counter s)) as Hd.
    by rewrite E in Hd. }
  erewrite bind_ok; cycle 1.
  { apply (update_leaf_status_run s1 q qn1 Hqn1).
    - unfold evicted. by rewrite Eq4, Hqv.
    - intros _. apply (has_live_child_intro s1 qn1 ck (counter s) nn); [|done|].
      + rewrite Eq1. apply dict_get_set_eq.
      + unfold evicted. by rewrite En4. }
  rewrite decide_False by naive_solver.
  set (s2 := upd_leaves _ s1).
  erewrite bind_ok; cycle 1.
  { apply (update_leaf_status_run s2 (counter s) nn Hnn); [unfold evicted; by rewrite En4|].
    by rewrite En1. }
  rewrite decide_True by (rewrite En1, En5; done). set (s3 := upd_leaves _ s2).
  assert (params s1 = params s) as Hp1 by (by injection Hv1).
  assert (root_node s1 = root_node s) as Hr1 by (by injection Hv1).
  destruct (record_store_run s3 (counter s) nn q qn1) as (s4 & h & evs & Hrun & Hv4 & Hh);
    try done; simpl; rewrite ?Hp1, ?En3; try done.
  { intros He Hqr h Hh. rewrite Hr1 in Hqr. unfold get_last_hash_value in Hh. rewrite Eq6 in Hh.
    destruct (i_hash _ _ _ _ _ _ _ _ _ Hinv He q qn Hq Hqr Hqn) as (_ & hv & Ehv & _ & Hval).
    rewrite Ehv in Hh. simpl in Hh. apply last_Some_elem_of in Hh. rewrite Forall_forall in Hval.
    by apply Hval. }
  rewrite (bind_ok _ _ _ _ _ Hrun). cbv beta. exists qn, h, evs, s4. simpl in Hh. rewrite Hp1, En3 in Hh.
  split_and!; [done|done|done| |].
  - rewrite Hv4. unfold added. simpl. injection Hv1 as -> Hg1 -> -> -> -> -> -> ->. f_equal. change (heap_cores s3) with (heap_cores s1). rewrite Hg1.
    unfold add_cores. rewrite insert_insert_ne by done. rewrite insert_insert_eq. f_equal. f_equal.
    unfold rehash, leaf_core, core. simpl. by rewrite En1, En2, En3, En4, En5.
  - intros He. destruct (Hh He) as (hv & -> & Hl & Hval & Hst & Hrm). split; [|by exists hv].
    split; [by apply Hfit|]. by exists hv.
Qed.

Lemma added_inv s q qn ck k v h evs L H' :
  radix_inv s L H' -> q ∈ L -> aligned (psz s) k -> head (pages (psz s) k) = Some ck ->
  heap_cores s !! q = Some qn -> dict_get (co_children qn) ck = None -> length v = key_len k ->
  (enable_kv_cache_events (params s) = true -> hashed (psz s) (leaf_core q k v h)) ->
  view_inv (added s q qn ck k v h evs) (L ∪ {[counter s]}) H'.
Proof. intros Hinv Hq Ha Hck Hqn Hfree Hl Hh. by apply inv_add. Qed.
End attach.
