(* ===== verification/RadixSpec.v ===== *)
(** * The prefix cache: what lookup and insertion promise

    The abstract content of the cache is the set of page sequences it holds,
    each with its KV indices ([content]); a node stands for a page sequence
    ([spells]).  The theorems say what [match_prefix] and [insert] do to
    both. *)

From S2P Require Import Prelude PyDict RadixKey KvEvents RadixTree RadixOps RadixInv RadixMoves.
From S2P Require Import RadixState RadixLocks RadixRun RadixEvents RadixInsert.

Section spec.
Context {A : Type}.
Implicit Types (s : RadixCache A) (L : gset nat).
Abbreviation psz s := (page_size (params s)).

(** The page sequence [w] is cached with the indices [v]. *)
Definition content s L w v : Prop := stored (psz s) (root_node s) (heap_cores s) L w v.

(** Node [x] ends the cached page sequence [w], whose indices are [v]. *)
Definition spells s x w v : Prop := exists l, up (psz s) (root_node s) (heap_cores s) x l w v.

(** Nothing a request may hold on to is disturbed. *)
Definition keeps s L s' L' : Prop :=
  L ⊆ L' /\ params s' = params s /\ root_node s' = root_node s /\
  forall x w v, x ∈ L -> spells s x w v -> spells s' x w v.

(** The key that is looked up or inserted, cut to whole pages. *)
Definition query_key (prm : CacheParams) (k0 : RadixKey) : RadixKey :=
  page_aligned (page_size prm) (maybe_to_bigram_view (is_eagle prm) k0 None).1.

(** The pages of a query. *)
Definition query (prm : CacheParams) (k0 : RadixKey) : list child_key_t :=
  pages (page_size prm) (query_key prm k0).

(** The longest prefix of [w] in the cache has [n] pages and the indices [v]. *)
Definition longest s L w n v : Prop :=
  (n ≤ length w)%nat /\ content s L (take n w) v /\
  forall w' v', content s L w' v' -> w' `prefix_of` w ->
    (length w' ≤ n)%nat /\ v' = take (length w' * psz s) v.

Lemma keeps_refl s L : keeps s L s L.
Proof. split_and!; naive_solver. Qed.

Lemma keeps_trans s1 L1 s2 L2 s3 L3 : keeps s1 L1 s2 L2 -> keeps s2 L2 s3 L3 -> keeps s1 L1 s3 L3.
Proof.
  intros (H1 & H2 & H3 & H4) (H1' & H2' & H3' & H4'). split_and!; [set_solver|congruence..|].
  intros x w v Hx Hs. apply H4'; [set_solver|by apply H4].
Qed.

Lemma content_view s s' L w v : view s' = view s -> content s' L w v <-> content s L w v.
Proof. intros [= E1 E2 _ E3]. unfold content. by rewrite E1, E2, E3. Qed.

Lemma keeps_view s s' L : view s' = view s -> keeps s L s' L.
Proof. intros [= E1 E2 _ E3]. split_and!; try done. intros x w v _. unfold spells. by rewrite E1, E2, E3. Qed.

Lemma longest_unique s L w n v n' v' :
  longest s L w n v -> longest s L w n' v' -> n = n' /\ v = v'.
Proof.
  intros (Hn & Hc & Hmax) (Hn' & Hc' & Hmax').
  destruct (Hmax _ _ Hc') as [H1 H2]; [by apply prefix_take|].
  destruct (Hmax' _ _ Hc) as [H3 H4]; [by apply prefix_take|].
  rewrite !length_take in *. assert (n = n') as -> by lia. split; [done|].
  rewrite Nat.min_l in H2, H4 by lia. rewrite H4 at 1. rewrite H2. by rewrite take_take, Nat.min_id.
Qed.

(** ** Where a descent from the root leads *)

(** A descent finds the longest cached prefix. *)
Lemma desc_is_longest s L H' w v j st :
  radix_inv s L H' -> desc (psz s) (heap_cores s) (root_node s) w v j st -> longest s L w j v.
Proof.
  intros Hinv Hd. pose proof (i_ps _ _ _ _ _ _ _ _ _ Hinv) as Hps.
  pose proof (i_shape _ _ _ _ _ _ _ _ _ Hinv) as Hs. destruct (desc_stored _ _ Hps _ _ _ _ _ _ Hs Hd) as [Hj Hst].
  split_and!; [done|exact Hst|intros w' v' Hc Hw; by eapply desc_longest].
Qed.

(** The state after a descent and the node it returns. *)
Lemma landed_spec s L H' w v j st last u' :
  radix_inv s L H' -> desc (psz s) (heap_cores s) (root_node s) w v j st ->
  landed (view s) L st last u' ->
  exists L' l, view_inv u' L' H' /\ L ⊆ L' /\ last ∈ L' /\
    v_params u' = params s /\ v_root u' = root_node s /\ v_ev u' = evictable_size_ s /\
    v_prot u' = protected_size_ s /\ v_events u' = kv_event_queue s /\ v_alloc u' = allocator s /\
    up (psz s) (root_node s) (v_cores u') last l (take j w) v /\
    (forall w' v', stored (psz s) (root_node s) (v_cores u') L' w' v' <-> content s L w' v') /\
    (forall x w' v', x ∈ L -> spells s x w' v' ->
      exists l', up (psz s) (root_node s) (v_cores u') x l' w' v').
Proof.
  intros Hinv Hd Hland. pose proof (i_ps _ _ _ _ _ _ _ _ _ Hinv) as Hps.
  pose proof (i_shape _ _ _ _ _ _ _ _ _ Hinv) as Hs. pose proof (sh_root_in _ _ _ _ Hs) as Hr.
  assert (up (psz s) (root_node s) (heap_cores s) (root_node s) [] [] []) as Hu by constructor.
  destruct st as [y|y i].
  - destruct Hland as [-> ->].
    destruct (desc_at _ _ Hps _ _ _ _ _ _ _ _ _ _ y Hs Hr Hu Hd eq_refl) as (Hy & (l & Hl) & _).
    exists L, l. split_and!; done.
  - pose proof (proj1 (radix_inv_view _ _ _) Hinv) as Hvi. destruct Hland as (-> & m & p & pn & ck & c' & h1 & h2 & Hsp).
    destruct (desc_in _ _ Hps _ _ _ _ _ _ _ _ _ _ y i Hs Hr Hu Hd eq_refl) as
      (m' & p' & lp & k & vp & Hy & Hyr & Hm & Hp & HpL & -> & Hi & Hl & Hup & ->).
    pose proof (so_node _ _ _ _ _ _ _ _ _ _ _ _ Hsp) as Em. simpl in Em. rewrite Hm in Em. injection Em as <-.
    pose proof (so_parent _ _ _ _ _ _ _ _ _ _ _ _ Hsp) as Ep. rewrite Hp in Ep. injection Ep as <-.
    simpl in Hup. exists (L ∪ {[counter s]}), (counter s :: lp).
    pose proof (so_view _ _ _ _ _ _ _ _ _ _ _ _ Hsp) as Eu'.
    split_and!; try (by rewrite Eu'); [exact (split_of_inv Hvi Hsp)|set_solver|set_solver| |
      exact (split_of_stored Hvi Hsp)|].
    + rewrite <-take_take_drop, <-(lcp_take (pages (psz s) (co_key m')) (drop k w)) by lia.
      exact (split_of_path Hvi Hsp _ _ _ Hup).
    + intros x w' v' Hx [l' Hl']. eexists. exact (split_of_old Hvi Hsp _ _ _ _ Hl').
Qed.
End spec.

Section ops.
Context {A : Type} `{KvFree A} `{Sha256} `{HeapQ} (monotonic : nat -> Z).
Implicit Types (s : RadixCache A) (L : gset nat).
Abbreviation psz s := (page_size (params s)).

Lemma query_key_spec prm k0 :
  (0 < page_size prm)%nat -> aligned (page_size prm) (query_key prm k0) /\
  key_len (query_key prm k0) = (length (query prm k0) * page_size prm)%nat.
Proof.
  intros Hps. unfold query, query_key. destruct (page_aligned_spec (page_size prm) Hps
    (maybe_to_bigram_view (is_eagle prm) k0 None).1) as (Ha & _ & _).
  split; [done|]. by apply aligned_len.
Qed.

Lemma longest_nil s L H' : radix_inv s L H' -> longest s L [] 0 [].
Proof.
  intros Hinv. eapply (desc_is_longest s L H' [] [] 0 (AtNode (root_node s))); [done|constructor].
Qed.

(** A lookup of a key that is cut to nothing returns the root. *)
Lemma match_prefix_disabled s k0 :
  disable (params s) = true -> match_prefix monotonic k0 s = (Ok (MkMatch [] (root_node s)), s).
Proof.
  intros Hd. unfold match_prefix. erewrite bind_ok by reflexivity. by rewrite Hd.
Qed.

Lemma match_prefix_run s L H' k0 :
  radix_inv s L H' -> disable (params s) = false ->
  exists v n st last s',
    match_prefix monotonic k0 s = (Ok (MkMatch v last), s') /\
    desc (psz s) (heap_cores s) (root_node s) (query (params s) k0) v n st /\
    landed (view s) L st last (view s').
Proof.
  intros Hinv Hd. pose proof (i_ps _ _ _ _ _ _ _ _ _ Hinv) as Hps.
  destruct (query_key_spec (params s) k0 Hps) as [Ha Hlen].
  unfold match_prefix. erewrite bind_ok by reflexivity. cbv beta zeta. rewrite Hd. simpl orb.
  fold (query_key (params s) k0).
  assert (key_len (query_key (params s) k0) = O ->
    exists v n st last s', empty_match_result s = (Ok (MkMatch v last), s') /\
    desc (psz s) (heap_cores s) (root_node s) (query (params s) k0) v n st /\
    landed (view s) L st last (view s')) as Hempty.
  { intros Hz. exists [], O, (AtNode (root_node s)), (root_node s), s. split; [done|].
    split; [|done]. unfold query. apply (pages_nil _ Hps _ Ha) in Hz. rewrite Hz. constructor. }
  case_bool_decide as Hz1.
  { apply Hempty. unfold query_key. destruct (page_aligned_spec (psz s) Hps
      (maybe_to_bigram_view (is_eagle (params s)) k0 None).1) as (_ & _ & ->).
    rewrite Hz1, Nat.Div0.div_0_l. done. }
  case_decide as Hz2; [by apply Hempty|]. clear Hempty.
  change (false || false) with false. cbv iota. erewrite bind_ok by reflexivity.
  destruct (child_key_page (psz s) Hps (query_key (params s) k0)) as (ck & Hck & Hh).
  { rewrite Hlen in *. destruct (length (query (params s) k0)); [done|]. nia. }
  set (t := monotonic (readings s)).
  set (s1 := upd_nodes (alter (set_access t) (root_node s)) (upd_readings (S (readings s)) s)).
  assert (view s1 = view s) as Hv1 by (unfold s1; by rewrite view_meta by auto with py).
  assert (radix_inv s1 L H') as Hinv1 by (by eapply view_eq_inv).
  destruct (match_loop_run monotonic (S (key_len (query_key (params s) k0))) t s1 L H' (root_node s)
    (query_key (params s) k0) ck []) as (vs & n & st & last & s' & Hrun & Hdesc & Hland); try done.
  { exact (sh_root_in _ _ _ _ (i_shape _ _ _ _ _ _ _ _ _ Hinv)). } { simpl. lia. }
  exists (concat vs), n, st, last, s'. rewrite Hv1 in Hland. split; [|split; [|done]].
  - assert (match_prefix_helper monotonic (root_node s) (query_key (params s) k0) s = (Ok (vs, last), s'))
      as Hhelp; [|by rewrite (bind_ok _ _ _ _ _ Hhelp)].
    unfold match_prefix_helper. erewrite bind_ok by reflexivity.
    erewrite bind_ok by reflexivity. erewrite bind_ok by reflexivity.
    erewrite bind_ok by (unfold lift_res; cbn [params upd_nodes upd_readings]; by rewrite Hck). exact Hrun.
  - by injection Hv1 as <-.
Qed.

(** What a lookup returns and leaves behind. *)
Lemma radix_lookup_run s L H' k0 :
  radix_inv s L H' -> disable (params s) = false ->
  exists v n st last s' L',
    match_prefix monotonic k0 s = (Ok (MkMatch v last), s') /\ landed (view s) L st last (view s') /\
    longest s L (query (params s) k0) n v /\
    last ∈ L' /\ spells s' last (take n (query (params s) k0)) v /\
    radix_inv s' L' H' /\ keeps s L s' L' /\
    (forall w' v', content s' L' w' v' <-> content s L w' v') /\
    evictable_size s' = evictable_size s /\ protected_size s' = protected_size s /\
    allocator s' = allocator s.
Proof.
  intros Hinv Hd. destruct (match_prefix_run s L H' k0 Hinv Hd) as (v & n & st & last & s' & Hrun & Hdesc & Hland).
  destruct (landed_spec s L H' _ _ _ _ _ _ Hinv Hdesc Hland) as
    (L' & l & Hi & HL & Hlast & Hp & Hr & He & Hpr & _ & Ha & Hu & Hst & Hk). simpl in *.
  exists v, n, st, last, s', L'. split_and!; try done.
  - by eapply desc_is_longest.
  - exists l. by rewrite Hp, Hr.
  - split_and!; try done. intros x w v' Hx Hsp. destruct (Hk x w v' Hx Hsp) as [l' Hl'].
    exists l'. by rewrite Hp, Hr.
  - intros w' v'. unfold content at 1. rewrite Hp, Hr. apply Hst.
Qed.

(** C16: [match_prefix] never raises, returns the KV indices of the longest
    cached prefix of the query (in whole pages) and the node that ends it,
    and changes neither what is cached, nor the sizes, nor what any node
    stands for; the invariant is kept. *)
Theorem match_prefix_spec s L H' k0 :
  radix_inv s L H' -> disable (params s) = false ->
  exists v n last s' L',
    match_prefix monotonic k0 s = (Ok (MkMatch v last), s') /\
    longest s L (query (params s) k0) n v /\
    last ∈ L' /\ spells s' last (take n (query (params s) k0)) v /\
    radix_inv s' L' H' /\ keeps s L s' L' /\
    (forall w' v', content s' L' w' v' <-> content s L w' v') /\
    evictable_size s' = evictable_size s /\ protected_size s' = protected_size s /\
    allocator s' = allocator s.
Proof.
  intros Hinv Hd. destruct (radix_lookup_run s L H' k0 Hinv Hd) as (v & n & st & last & s' & L' & Hrun & _ & Hrest).
  exists v, n, last, s', L'. by split.
Qed.

Context `{!Sha256Laws}.

(** The indices [insert] files under the key: the given ones, or the tokens
    themselves, cut to the length of the key. *)
Definition insert_value (prm : CacheParams) (k0 : RadixKey) (v0 : option (list Z)) : list Z :=
  take (key_len (query_key prm k0))
    match (maybe_to_bigram_view (is_eagle prm) k0 v0).2 with
    | Some v => v
    | None => token_ids (query_key prm k0)
    end.

Lemma bigram_view_key e k0 v0 : (maybe_to_bigram_view e k0 v0).1 = (maybe_to_bigram_view e k0 None).1.
Proof. unfold maybe_to_bigram_view. by destruct (e && negb (is_bigram k0)). Qed.

(** How [insert] ends: nothing to add, or a new leaf below the node the
    descent has reached. *)
Inductive inserted s L (w : list child_key_t) (v : list Z) (n : nat) (s' : RadixCache A) : Prop :=
  | Found v0 st last :
      desc (psz s) (heap_cores s) (root_node s) w v0 n st -> n = length w ->
      landed (view s) L st last (view s') -> inserted s L w v n s'
  | Extended v0 st q s1 qn ck k h evs :
      desc (psz s) (heap_cores s) (root_node s) w v0 n st -> (n < length w)%nat ->
      landed (view s) L st q (view s1) -> heap_cores s1 !! q = Some qn ->
      dict_get (co_children qn) ck = None -> aligned (psz s) k -> pages (psz s) k = drop n w ->
      head (pages (psz s) k) = Some ck -> length (drop (n * psz s) v) = key_len k ->
      view s' = added s1 q qn ck k (drop (n * psz s) v) h evs ->
      (enable_kv_cache_events (params s) = true -> hashed (psz s) (leaf_core q k (drop (n * psz s) v) h) /\
        exists hv, h = Some hv /\ omap stored_id evs = block_id <$> hv /\ omap removed_id evs = []) ->
      inserted s L w v n s'.

Lemma insert_run s L H' k0 v0 prio chunked :
  radix_inv s L H' -> disable (params s) = false ->
  length (insert_value (params s) k0 v0) = key_len (query_key (params s) k0) ->
  (enable_kv_cache_events (params s) = true -> tokens_fit (query_key (params s) k0)) ->
  exists n s', insert monotonic k0 v0 prio chunked s = (Ok (n * psz s)%nat, s') /\
    inserted s L (query (params s) k0) (insert_value (params s) k0 v0) n s'.
Proof.
  intros Hinv Hd Hlen Hfit. pose proof (i_ps _ _ _ _ _ _ _ _ _ Hinv) as Hps.
  destruct (query_key_spec (params s) k0 Hps) as [Ha Hql].
  set (k := query_key (params s) k0) in *. set (v := insert_value (params s) k0 v0) in *.
  assert (insert monotonic k0 v0 prio chunked s = insert_helper monotonic (root_node s) k v prio chunked s) as ->.
  { unfold insert. erewrite bind_ok by reflexivity. cbv beta. rewrite Hd. unfold v, insert_value, k, query_key.
    rewrite <-(bigram_view_key _ _ v0). destruct (maybe_to_bigram_view (is_eagle (params s)) k0 v0) as [k1 v1].
    erewrite bind_ok by reflexivity. cbn. by destruct v1. }
  unfold insert_helper.
  set (t := monotonic (readings s)). set (pr := default 0 prio).
  set (s1 := upd_nodes (alter (fun n => set_priority (Z.max (priority n) pr) n) (root_node s))
    (upd_nodes (alter (set_access t) (root_node s)) (upd_readings (S (readings s)) s))).
  assert (view s1 = view s) as Hv1 by (unfold s1; by rewrite !view_meta).
  assert (radix_inv s1 L H') as Hinv1 by (by eapply view_eq_inv).
  erewrite bind_ok by reflexivity. erewrite bind_ok by reflexivity. erewrite bind_ok by reflexivity.
  fold t pr. fold s1. case_decide as Hz.
  { exists O, s1. split; [done|]. apply (Found _ _ _ _ _ _ [] (AtNode (root_node s)) (root_node s)).
    - apply (pages_nil _ Hps _ Ha) in Hz. unfold query. fold k. rewrite Hz. constructor.
    - apply (pages_nil _ Hps _ Ha) in Hz. unfold query. fold k. by rewrite Hz.
    - done. }
  destruct (child_key_page (psz s) Hps k) as (ck & Hck & Hh).
  { rewrite Hql in *. destruct (length (query (params s) k0)); [done|]. nia. }
  erewrite bind_ok by reflexivity. cbv beta. change (params s1) with (params s).
  erewrite bind_ok by (unfold lift_res; by rewrite Hck). cbv beta.
  destruct (insert_loop_run monotonic (S (key_len k)) t pr chunked s1 L H' (root_node s) k ck v 0)
    as (v1 & n & st & last & k' & ck' & s2 & Hrun & Hdesc & Hland & Hk' & Hend); try done.
  { exact (sh_root_in _ _ _ _ (i_shape _ _ _ _ _ _ _ _ _ Hinv)). } { lia. }
  rewrite (bind_ok _ _ _ _ _ Hrun). cbv beta iota. clear Hrun.
  change (params s1) with (params s) in *. rewrite Nat.add_0_l. rewrite Hv1 in Hland.
  replace (heap_cores s1) with (heap_cores s) in Hdesc by (by injection Hv1).
  change (pages (psz s) k) with (query (params s) k0) in Hdesc.
  assert (n ≤ length (query (params s) k0))%nat as Hn.
  { by eapply desc_length; [..|exact Hdesc]; [|apply (i_shape _ _ _ _ _ _ _ _ _ Hinv)|
      exact (sh_root_in _ _ _ _ (i_shape _ _ _ _ _ _ _ _ _ Hinv))]. }
  case_decide as Hz'.
  { exists n, s2. split; [done|]. apply (Found _ _ _ _ _ _ v1 st last); [done| |done]. nia. }
  destruct (Hend Hz') as (-> & Hh' & Hno).
  destruct (landed_spec s L H' _ _ _ _ _ _ Hinv Hdesc Hland) as
    (L' & l & Hi & HL & Hlast & Hp & Hr & _). simpl in Hp, Hr.
  destruct (attach_run monotonic pr chunked last (key_drop (n * psz s) k) ck' (drop (n * psz s) v)
    (n * psz s)%nat s2 L' H') as (qn & h & evs & s' & Hat & Hqn & Hfree & Hv' & Hhash);
    rewrite ?Hp; try done.
  { by apply aligned_drop. }
  { by rewrite length_drop, key_drop_len, Hlen. }
  { intros He. by apply tokens_fit_slice, Hfit. }
  exists n, s'. split; [exact Hat|]. rewrite Hp in Hhash.
  eapply (Extended _ _ _ _ _ _ v1 st last s2 qn ck' (key_drop (n * psz s) k) h evs); try done.
  - rewrite key_drop_len in Hz'. nia.
  - by apply aligned_drop.
  - unfold query. fold k. by rewrite pages_drop.
  - by rewrite length_drop, key_drop_len, Hlen.
Qed.

(** The content after an insertion. *)
Definition content_plus s L w n vs v w' v' : Prop :=
  content s L w' v' \/
  (w' `prefix_of` w /\ (n < length w')%nat /\ v' = take (length w' * psz s) (vs ++ drop (n * psz s) v)).

Lemma inserted_spec s L H' w v n s' :
  radix_inv s L H' -> inserted s L w v n s' ->
  exists L' vs, radix_inv s' L' H' /\ keeps s L s' L' /\ longest s L w n vs /\
    (forall w' v', content s' L' w' v' <-> content_plus s L w n vs v w' v') /\
    evictable_size_ s' = evictable_size_ s + Z.of_nat ((length w - n) * psz s) /\
    protected_size_ s' = protected_size_ s /\ allocator s' = allocator s.
Proof.
  intros Hinv Hins. pose proof (i_ps _ _ _ _ _ _ _ _ _ Hinv) as Hps.
  destruct Hins as [v0 st last Hdesc Hn Hland|v0 st q s1 qn ck k h evs Hdesc Hn Hland Hqn Hfree Ha Hpk Hck Hlv Hv' Hh];
    destruct (landed_spec s L H' _ _ _ _ _ _ Hinv Hdesc Hland) as
      (L' & l & Hi & HL & Hlast & Hp & Hr & He & Hpr & _ & Hal & Hu & Hst & Hk);
    pose proof (desc_is_longest s L H' _ _ _ _ Hinv Hdesc) as Hlong; simpl in *.
  - exists L', v0. split_and!; try done.
    + split_and!; try done. intros x w' v' Hx Hsp. destruct (Hk x w' v' Hx Hsp) as [l' Hl'].
      exists l'. by rewrite Hp, Hr.
    + intros w' v'. unfold content_plus, content at 1. rewrite Hp, Hr, Hst. split; [by left|].
      intros [?|(Hw & Hlt & _)]; [done|]. apply prefix_length in Hw. lia.
    + rewrite He. replace (length w - n)%nat with O by lia. lia.
  - assert (radix_inv s1 L' H') as Hinv1 by done.
    destruct (inv_fresh_none _ _ _ _ _ _ _ _ _ Hinv1) as [Hnew HnewL].
    pose proof (i_shape _ _ _ _ _ _ _ _ _ Hinv1) as Hs1. rewrite Hp, Hr in Hs1.
    rewrite <-Hp in Hh, Ha, Hck.
    injection Hv' as Ep Eg Ec Er Ee Epr El _ Ea.
    exists (L' ∪ {[counter s1]}), v0. split_and!.
    + unfold radix_inv. rewrite Ep, Eg, Ec, Er, Ee, Epr, El.
      apply inv_add; try done. intros Hen. by apply Hh.
    + split_and!; [set_solver|congruence|congruence|]. intros x w' v' Hx Hsp.
      destruct (Hk x w' v' Hx Hsp) as [l' Hl']. exists l'. rewrite Ep, Er, Eg, Hp, Hr.
      by eapply add_up.
    + done.
    + intros w' v'. unfold content at 1. rewrite Ep, Er, Eg, Hp, Hr. rewrite Hp in Ha, Hck.
      rewrite (add_stored (psz s) (root_node s) Hps (heap_cores s1) L' q (counter s1) qn ck k
        (drop (n * psz s) v) h Hs1 Hlast Hqn Hfree Ha Hck Hlv Hnew l (take n w) v0 w' v' Hu).
      rewrite Hst, Hpk, take_drop. unfold content_plus. split; [|naive_solver].
      intros [?|[Hw ->]]; [by left|]. destruct (decide (n < length w')%nat) as [Hlt|Hge]; [by right|left].
      destruct Hlong as (_ & Hc & _).
      pose proof (up_value_length _ _ Hps _ _ _ _ _ _ Hs1 Hlast Hu) as Hlen. rewrite length_take in Hlen.
      rewrite take_app_le by nia. apply (stored_prefix _ _ Hps _ _ _ _ _ Hc).
      destruct Hw as [k' ->]. exists (take (n - length w') k'). rewrite take_app, take_ge by lia. done.
    + rewrite Ee, He. f_equal. rewrite Hp in Ha. apply (aligned_len _ Hps) in Ha.
      rewrite Ha, Hpk, length_drop. done.
    + congruence.
    + congruence.
Qed.

(** C17: [insert] never raises; its result is the length of the longest prefix
    of the key that was cached; afterwards exactly the remaining prefixes of
    the key are cached in addition, under the given indices, the evictable
    size has grown by the length added, and nothing that was cached, nor any
    node a request may hold, is disturbed; the invariant is kept. *)
Theorem insert_spec s L H' k0 v0 prio chunked :
  radix_inv s L H' -> disable (params s) = false ->
  let k := query_key (params s) k0 in
  let w := query (params s) k0 in
  let v := insert_value (params s) k0 v0 in
  length v = key_len k ->
  (enable_kv_cache_events (params s) = true -> tokens_fit k) ->
  exists n vs s' L',
    insert monotonic k0 v0 prio chunked s = (Ok (n * psz s)%nat, s') /\
    longest s L w n vs /\ radix_inv s' L' H' /\ keeps s L s' L' /\
    (forall w' v', content s' L' w' v' <->
      content s L w' v' \/
      (w' `prefix_of` w /\ (n < length w')%nat /\ v' = take (length w' * psz s) (vs ++ drop (n * psz s) v))) /\
    evictable_size s' = evictable_size s + Z.of_nat (key_len k - n * psz s) /\
    protected_size s' = protected_size s.
Proof.
  intros Hinv Hd k w v Hlen Hfit. pose proof (i_ps _ _ _ _ _ _ _ _ _ Hinv) as Hps.
  destruct (insert_run s L H' k0 v0 prio chunked Hinv Hd Hlen Hfit) as (n & s' & Hrun & Hins).
  destruct (inserted_spec s L H' w v n s' Hinv Hins) as (L' & vs & Hi & Hk & Hl & Hc & He & Hp & _).
  exists n, vs, s', L'. split_and!; try done. unfold evictable_size. rewrite He.
  destruct (query_key_spec (params s) k0 Hps) as [_ Hq]. fold k w in Hq. rewrite Hq, Nat.mul_sub_distr_r. done.
Qed.

(** After an insertion the whole key is cached. *)
Lemma inserted_longest s L H' w v n s' L' vs :
  (0 < psz s)%nat -> length v = (length w * psz s)%nat -> keeps s L s' L' ->
  radix_inv s' L' H' -> longest s L w n vs ->
  (forall w' v', content s' L' w' v' <-> content_plus s L w n vs v w' v') ->
  longest s' L' w (length w) (vs ++ drop (n * psz s) v) /\ length vs = (n * psz s)%nat.
Proof.
  intros Hps Hlv (_ & Hp & Hr & _) Hinv' (Hn & Hc & Hmax) Hcont.
  assert (length vs = n * psz s)%nat as Hvs.
  { assert (content s' L' (take n w) vs) as (x & l & w0 & v0 & Hx & Hu & Hpre & ->)
      by (apply Hcont; by left).
    pose proof (i_ps _ _ _ _ _ _ _ _ _ Hinv') as Hps'.
    pose proof (up_value_length _ _ Hps' _ _ _ _ _ _ (i_shape _ _ _ _ _ _ _ _ _ Hinv') Hx Hu) as Hlen.
    apply prefix_length in Hpre. rewrite Hp in *. rewrite !length_take in *. nia. }
  split; [|done].
  assert (length (vs ++ drop (n * psz s) v) = length w * psz s)%nat as Htot
    by (rewrite length_app, length_drop, Hvs, Hlv; nia).
  split_and!; [done| |].
  - rewrite firstn_all. apply Hcont. destruct (decide (n = length w)) as [->|Hne].
    + left. rewrite firstn_all in Hc. rewrite drop_ge by lia. by rewrite app_nil_r.
    + right. split_and!; [done|lia|]. symmetry. apply firstn_all2. lia.
  - intros w' v' Hc' Hw. split; [by apply prefix_length|]. rewrite Hp.
    apply Hcont in Hc' as [Hold|(_ & _ & ->)]; [|done].
    destruct (Hmax w' v' Hold Hw) as [Hle ->]. by rewrite take_app_le by (rewrite Hvs; nia).
Qed.

Lemma insert_then_match s L H' k0 v0 prio chunked :
  radix_inv s L H' -> disable (params s) = false ->
  length (insert_value (params s) k0 v0) = key_len (query_key (params s) k0) ->
  (enable_kv_cache_events (params s) = true -> tokens_fit (query_key (params s) k0)) ->
  exists n vs s' L', insert monotonic k0 v0 prio chunked s = (Ok (n * psz s)%nat, s') /\
    longest s L (query (params s) k0) n vs /\ length vs = (n * psz s)%nat /\
    radix_inv s' L' H' /\ keeps s L s' L' /\ allocator s' = allocator s /\
    (forall w' v', content s' L' w' v' <->
      content_plus s L (query (params s) k0) n vs (insert_value (params s) k0 v0) w' v') /\
    longest s' L' (query (params s) k0) (length (query (params s) k0))
      (vs ++ drop (n * psz s) (insert_value (params s) k0 v0)).
Proof.
  intros Hinv Hd Hlen Hfit. pose proof (i_ps _ _ _ _ _ _ _ _ _ Hinv) as Hps.
  destruct (insert_run s L H' k0 v0 prio chunked Hinv Hd Hlen Hfit) as (n & s' & Hrun & Hins).
  destruct (inserted_spec s L H' _ _ n s' Hinv Hins) as (L' & vs & Hi & Hk & Hl & Hc & _ & _ & Ha).
  destruct (query_key_spec (params s) k0 Hps) as [_ Hq]. rewrite Hq in Hlen.
  destruct (inserted_longest s L H' _ _ n s' L' vs Hps Hlen Hk Hi Hl Hc) as [Hl' Hvs].
  exists n, vs, s', L'. split_and!; done.
Qed.

(** What is inserted is found: a lookup of the same key right after an
    insertion matches all of it, and the indices it returns are those of the
    prefix that was cached before followed by the given ones. *)
Theorem insert_match_roundtrip s L H' k0 v0 prio chunked :
  radix_inv s L H' -> disable (params s) = false ->
  length (insert_value (params s) k0 v0) = key_len (query_key (params s) k0) ->
  (enable_kv_cache_events (params s) = true -> tokens_fit (query_key (params s) k0)) ->
  exists n vs s' last s'',
    insert monotonic k0 v0 prio chunked s = (Ok (n * psz s)%nat, s') /\
    longest s L (query (params s) k0) n vs /\
    match_prefix monotonic k0 s' =
      (Ok (MkMatch (vs ++ drop (n * psz s) (insert_value (params s) k0 v0)) last), s'') /\
    spells s'' last (query (params s) k0) (vs ++ drop (n * psz s) (insert_value (params s) k0 v0)).
Proof.
  intros Hinv Hd Hlen Hfit.
  destruct (insert_then_match s L H' k0 v0 prio chunked Hinv Hd Hlen Hfit) as
    (n & vs & s' & L' & Hrun & Hl & Hvs & Hi & Hk & _ & _ & Hl').
  destruct Hk as (HL & Hp & Hr & Hk).
  assert (disable (params s') = false) as Hd' by (by rewrite Hp).
  destruct (match_prefix_run s' L' H' k0 Hi Hd') as (v & m & st & last & s'' & Hm & Hdesc & Hland).
  rewrite Hp in Hdesc. rewrite <-Hp in Hdesc at 1.
  pose proof (desc_is_longest s' L' H' _ _ _ _ Hi Hdesc) as Hl2.
  destruct (longest_unique _ _ _ _ _ _ _ Hl2 Hl') as [-> ->].
  destruct (landed_spec s' L' H' _ _ _ _ _ _ Hi Hdesc Hland) as
    (L'' & l & _ & _ & _ & Hp2 & Hr2 & _ & _ & _ & _ & Hu & _). simpl in *.
  exists n, vs, s', last, s''. split_and!; try done. exists l. rewrite Hp2, Hr2.
  by rewrite firstn_all in Hu.
Qed.
End ops.
