(* ===== verification/RadixEvict.v ===== *)
(** * The prefix cache: locks and eviction

    [inc_lock_ref] and [dec_lock_ref] add and remove one holder of a path;
    [evict] repeatedly cuts off the unlocked leaf that comes first in the
    eviction order, returns its indices to the allocator and stops as soon as
    enough tokens are freed.  Nothing a request holds is ever evicted, and
    eviction frees what was asked for or everything that is not locked. *)

From S2P Require Import Prelude PyDict RadixKey KvEvents RadixTree RadixOps RadixInv RadixMoves.
From S2P Require Import RadixState RadixLocks RadixRun RadixEvents RadixInsert RadixSpec.

(** An allocator whose [free] does not raise in the states it is used in. *)
Class KvFreeTotal (A : Type) `{KvFree A} := {
  alloc_ok : A -> Prop;
  kv_free_total l a : alloc_ok a -> exists a', kv_free l a = (Ok tt, a') /\ alloc_ok a'
}.

(** The allocator after a series of calls of [free]. *)
Definition free_all {A} `{KvFree A} (ls : list (list Z)) (a : A) : A :=
  foldl (fun a l => (kv_free l a).2) a ls.

Section evict.
Context {A : Type} `{KvFree A} `{!KvFreeTotal A} `{Sha256} `{HeapQ}.
Implicit Types (s : RadixCache A) (L : gset nat).
Abbreviation psz s := (page_size (params s)).

Lemma allocator_free_run v s :
  alloc_ok (allocator s) ->
  allocator_free v s = (Ok tt, upd_allocator (kv_free v (allocator s)).2 s) /\
  alloc_ok (kv_free v (allocator s)).2.
Proof.
  intros Ha. destruct (kv_free_total v _ Ha) as (a' & Hf & Ha'). unfold allocator_free, zoom.
  by rewrite Hf.
Qed.

(** Every child of a live node counts as live. *)
Lemma live_children s L H' x n :
  radix_inv s L H' -> x ∈ L -> nodes s !! x = Some n -> children n ≠ [] -> has_live_child n s = true.
Proof.
  intros Hinv Hx Hn Hch. pose proof (i_shape _ _ _ _ _ _ _ _ _ Hinv) as Hs.
  pose proof (cores_lookup s x n Hn) as Hg. pose proof (sh_wf _ _ _ _ Hs x _ Hx Hg) as Hwf. simpl in Hwf.
  destruct (children n) as [|[c y] d] eqn:Ec; [done|].
  assert (dict_get (children n) c = Some y) as Hc by (rewrite Ec; simpl; by rewrite decide_True).
  destruct (sh_child _ _ _ _ Hs x (core n) c y Hx Hg Hc) as (Hy & Hyr & m & Hm & _).
  destruct (shape_node_ok _ _ _ _ _ _ Hs Hy Hyr Hm) as (_ & _ & v & Hv).
  destruct (cores_lookup_inv s y m Hm) as (m0 & Hm0 & <-).
  apply (has_live_child_intro s n c y m0 Hc Hm0). unfold evicted. simpl in Hv. by rewrite Hv.
Qed.

(** *** Cutting off a leaf *)

(** The view after leaf [x] has been removed. *)
Definition cut_view (u : view_t A) (x : nat) (n : core_t) (p : nat) (pn : core_t) (c : child_key_t) : view_t A :=
  View (v_params u) (cut_cores (v_cores u) p pn c) (v_counter u) (v_root u) (v_ev u - co_len n) (v_prot u)
    (if decide (p ≠ v_root u /\ co_lock pn = 0 /\ dict_del (co_children pn) c = [])
     then {[p]} ∪ v_leaves u ∖ {[x]} else v_leaves u ∖ {[x]} ∖ {[p]}) (v_events u) (v_alloc u).

(** What is known about an evictable leaf. *)
Lemma leaf_facts s L H' x :
  radix_inv s L H' -> x ∈ evictable_leaves s ->
  exists n p pn c, nodes s !! x = Some n /\ nodes s !! p = Some pn /\ parent n = Some p /\ p ∈ L /\ x ∈ L /\
    p ≠ x /\ x ≠ root_node s /\ lock_ref n = 0 /\ children n = [] /\
    aligned (psz s) (key n) /\ value n = Some (co_val (core n)) /\
    length (co_val (core n)) = key_len (key n) /\
    child_key (psz s) (key n) = Ok c /\ head (pages (psz s) (key n)) = Some c /\
    dict_get (children pn) c = Some x /\ (0 < key_len (key n))%nat.
Proof.
  intros Hinv Hx. pose proof (i_ps _ _ _ _ _ _ _ _ _ Hinv) as Hps.
  pose proof (i_shape _ _ _ _ _ _ _ _ _ Hinv) as Hs.
  pose proof (proj1 (i_leaves _ _ _ _ _ _ _ _ _ Hinv x) Hx) as (HxL & Hxr & m & Hm & Hl & Hch).
  destruct (sh_node _ _ _ _ Hs x HxL Hxr) as (m' & p & pm & c & Hm' & (Ha & Hlen & v & Hv) & Hp & HpL & Hpm & Hh & Hc).
  rewrite Hm in Hm'. injection Hm' as <-.
  destruct (cores_lookup_inv s x m Hm) as (n & Hn & <-). destruct (cores_lookup_inv s p pm Hpm) as (pn & Hpn & <-).
  destruct (cut_parent (psz s) (root_node s) (heap_cores s) L x p (core n) (core pn) c) as (_ & _ & Hpx); try done.
  simpl in *. pose proof (pages_head_unit (psz s) Hps (key n) c Ha Hh) as Hge.
  destruct (child_key_page (psz s) Hps (key n) Hge) as (c' & Hck & Hh').
  rewrite Hh in Hh'. injection Hh' as <-. exists n, p, pn, c.
  split_and!; try done; [|lia]. unfold co_val. simpl. by rewrite Hv.
Qed.

Lemma delete_leaf_run s L H' x n p pn c :
  radix_inv s L H' -> x ∈ evictable_leaves s -> nodes s !! x = Some n -> nodes s !! p = Some pn ->
  parent n = Some p -> child_key (psz s) (key n) = Ok c -> dict_get (children pn) c = Some x ->
  head (pages (psz s) (key n)) = Some c -> p ∈ L -> p ≠ x ->
  exists s', delete_leaf x s = (Ok tt, s') /\ view s' = cut_view (view s) x (core n) p (core pn) c /\
    nodes s' = alter (fun q => set_children (dict_del (children q) c) q) p (nodes s).
Proof.
  intros Hinv Hx Hn Hpn Hp Hck Hc Hh HpL Hpx.
  pose proof (i_shape _ _ _ _ _ _ _ _ _ Hinv) as Hs.
  set (pn' := set_children (dict_del (children pn) c) pn).
  set (s1 := upd_leaves (fun E => E ∖ {[x]}) (upd_sizes (- Z.of_nat (key_len (key n))) 0
    (upd_nodes (alter (fun q => set_children (dict_del (children q) c) q) p) s))).
  assert (nodes s1 !! p = Some pn') as Hp1 by (simpl; by rewrite lookup_alter_eq, Hpn).
  assert (heap_cores s1 = cut_cores (heap_cores s) p (core pn) c) as Hg1.
  { unfold heap_cores, cut_cores. simpl. apply map_eq. intros z. rewrite lookup_fmap.
    destruct (decide (z = p)) as [->|Hz].
    - by rewrite lookup_alter_eq, lookup_insert_eq, Hpn.
    - by rewrite lookup_alter_ne, lookup_insert_ne, lookup_fmap. }
  assert (radix_inv (upd_leaves (fun _ => v_leaves (cut_view (view s) x (core n) p (core pn) c)) s1)
    (L ∖ {[x]}) H') as Hinv1.
  { pose proof (inv_cut x p (core n) (core pn) c Hinv Hx (cores_lookup _ _ _ Hn) Hp (cores_lookup _ _ _ Hpn) Hh) as Hi.
    unfold radix_inv. change (heap_cores (upd_leaves _ s1)) with (heap_cores s1). rewrite Hg1.
    simpl. rewrite Z.add_0_r. exact Hi. }
  assert (exists pv, value pn = Some pv) as [pv Hpv].
  { destruct (decide (p = root_node s)) as [->|Hpr].
    - destruct (sh_root _ _ _ _ Hs) as (rn & Hrn & _ & _ & Hrv).
      rewrite (cores_lookup _ _ _ Hpn) in Hrn. injection Hrn as <-. eauto.
    - destruct (shape_node_ok _ _ _ _ _ _ Hs HpL Hpr (cores_lookup _ _ _ Hpn)) as (_ & _ & pv & Hv). eauto. }
  eexists. split_and!.
  - unfold delete_leaf. erewrite bind_ok by reflexivity.
    rewrite (bind_ok _ _ _ _ _ (node_at_run s x n Hn)). cbv beta.
    erewrite bind_ok by (unfold lift_res; by rewrite Hck). cbv beta.
    erewrite bind_ok by (unfold parent_at; by rewrite Hp). cbv beta.
    rewrite (bind_ok _ _ _ _ _ (node_at_run s p pn Hpn)). cbv beta.
    erewrite bind_ok by reflexivity. rewrite decide_True by done.
    erewrite bind_ok by reflexivity. erewrite bind_ok by reflexivity. fold s1.
    apply (update_leaf_status_run s1 p pn' Hp1); [unfold evicted; simpl; by rewrite Hpv|].
    intros Hch. exact (live_children _ _ _ p pn' Hinv1 ltac:(set_solver) Hp1 Hch).
  - unfold view, cut_view. simpl. change (heap_cores (upd_leaves _ s1)) with (heap_cores s1).
    rewrite Hg1, Z.add_0_r. f_equal.
    pose proof (inv_lock_nonneg Hinv p (core pn) HpL (cores_lookup _ _ _ Hpn)) as Hnn. simpl in Hnn.
    pose proof (i_root _ _ _ _ _ _ _ _ _ Hinv) as Hroot.
    destruct (decide (lock_ref pn <= 0 /\ dict_del (children pn) c = [])) as [[H1' H2']|Hno].
    + rewrite decide_True; [done|]. split_and!; [|lia|done]. intros ->.
      specialize (Hroot _ (cores_lookup _ _ _ Hpn)). simpl in Hroot. lia.
    + rewrite decide_False; [done|]. intros (_ & ? & ?). apply Hno. split; [lia|done].
  - done.
Qed.

(** *** One eviction *)

(** The heap entry of a node: its place in the eviction order. *)
Definition entry_at s (x : nat) : heap_entry :=
  match nodes s !! x with
  | Some n => Entry (get_priority (eviction_strategy (params s)) n) (last_access_time n) x
  | None => Entry [] 0 x
  end.

(** [x] is an evictable leaf and no other comes before it. *)
Definition first_victim s (x : nat) : Prop :=
  x ∈ evictable_leaves s /\
  forall y, y ∈ evictable_leaves s -> y ≠ x -> entry_lt (entry_at s y) (entry_at s x) = false.

(** [s1] is [s] after the eviction of [x], whose indices [v] are freed. *)
Record evict_step s L (x : nat) (v : list Z) s1 : Prop := EvictStep {
  es_first : first_victim s x;
  es_live : x ∈ L;
  es_value : exists n, nodes s !! x = Some n /\ value n = Some v /\ length v = key_len (key n);
  es_alloc : allocator s1 = (kv_free v (allocator s)).2;
  es_view : exists n p pn c evs,
    heap_cores s !! x = Some n /\ co_parent n = Some p /\ heap_cores s !! p = Some pn /\
    head (pages (psz s) (co_key n)) = Some c /\
    (enable_kv_cache_events (params s) = true -> exists hv, co_hash n = Some hv /\
      omap removed_id evs = block_id <$> hv /\ omap stored_id evs = []) /\
    view s1 = View (params s) (v_cores (cut_view (view s) x n p pn c)) (counter s) (root_node s)
      (evictable_size_ s - co_len n) (protected_size_ s) (v_leaves (cut_view (view s) x n p pn c))
      (kv_event_queue s ++ evs) (allocator s1)
}.

Inductive evictions : RadixCache A -> gset nat -> list (list Z) -> RadixCache A -> gset nat -> Prop :=
  | evictions_nil s L : evictions s L [] s L
  | evictions_cons s L x v s1 ls s' L' :
      evict_step s L x v s1 -> evictions s1 (L ∖ {[x]}) ls s' L' -> evictions s L (v :: ls) s' L'.

Lemma evict_step_inv s L H' x v s1 :
  radix_inv s L H' -> evict_step s L x v s1 -> radix_inv s1 (L ∖ {[x]}) H'.
Proof.
  intros Hinv [[Hx _] _ _ _ (n & p & pn & c & evs & Hn & Hp & Hpn & Hc & _ & Hv)].
  apply radix_inv_view. rewrite Hv. by apply inv_cut.
Qed.

(** What the next iteration sees. *)
Lemma entry_at_step s s1 p f y :
  params s1 = params s -> nodes s1 = alter f p (nodes s) ->
  (forall n, get_priority (eviction_strategy (params s)) (f n) = get_priority (eviction_strategy (params s)) n /\
    last_access_time (f n) = last_access_time n) ->
  entry_at s1 y = entry_at s y.
Proof.
  intros Hp Hn Hf. unfold entry_at. rewrite Hn, Hp. destruct (decide (y = p)) as [->|Hne].
  - rewrite lookup_alter_eq. destruct (nodes s !! p) as [m|]; [|done]. simpl.
    by destruct (Hf m) as [-> ->].
  - by rewrite lookup_alter_ne.
Qed.

Context `{!Sha256Laws}.

(** The body of the loop, up to the next iteration. *)
Lemma evict_body_run s L H' x :
  radix_inv s L H' -> alloc_ok (allocator s) -> first_victim s x ->
  exists n v p pn s1, nodes s !! x = Some n /\ value n = Some v /\ evict_step s L x v s1 /\
    alloc_ok (allocator s1) /\ p ∉ evictable_leaves s /\ p ≠ x /\
    evictable_leaves s1 = (if decide (children pn = [] /\ lock_ref pn = 0)
      then {[p]} ∪ evictable_leaves s ∖ {[x]} else evictable_leaves s ∖ {[x]}) /\
    (forall y, entry_at s1 y = entry_at s y) /\
    forall B (f : list Z -> list heap_entry -> M (RadixCache A) B) heap',
      (n ← node_at x;
       v ← value_at n;
       allocator_free v ≫= fun _ =>
       delete_leaf x ≫= fun _ =>
       p ← parent_at n;
       pn ← node_at p;
       heap'' ← (if decide (children pn = [] /\ lock_ref pn = 0)
                 then e' ← entry_of p; mret (heappush heap' e') else mret heap');
       record_remove_event x ≫= fun _ => f v heap'') s =
      f v (if decide (children pn = [] /\ lock_ref pn = 0) then heappush heap' (entry_at s p) else heap') s1.
Proof.
  intros Hinv Ha Hfirst. pose proof (i_ps _ _ _ _ _ _ _ _ _ Hinv) as Hps.
  destruct (leaf_facts s L H' x Hinv (proj1 Hfirst)) as
    (n & p & pn & c & Hn & Hpn & Hp & HpL & HxL & Hpx & Hxr & Hl & Hch & Hal & Hv & Hlv & Hck & Hh & Hc & Hpos).
  destruct (allocator_free_run (co_val (core n)) s Ha) as [Hfree Ha1].
  set (a1 := (kv_free (co_val (core n)) (allocator s)).2) in *. set (s0 := upd_allocator a1 s).
  destruct (delete_leaf_run s0 L H' x n p pn c) as (s2 & Hdel & Hv2 & Hn2); try done; [exact (proj1 Hfirst)|].
  change (nodes s0) with (nodes s) in Hn2.
  set (pn2 := set_children (dict_del (children pn) c) pn).
  assert (nodes s2 !! p = Some pn2) as Hp2 by (rewrite Hn2; by rewrite lookup_alter_eq, Hpn).
  assert (nodes s2 !! x = Some n) as Hx2 by (rewrite Hn2; by rewrite lookup_alter_ne).
  assert (params s2 = params s) as Hpar2 by (by injection Hv2).
  assert (forall y, entry_at s2 y = entry_at s y) as Hent.
  { intros y. apply (entry_at_step s s2 p (fun q => set_children (dict_del (children q) c) q)); try done. }
  destruct (record_remove_run s2 x n) as (evs & Hrem & Hevs); [by rewrite Hpar2|done|by rewrite Hpar2| |].
  { rewrite Hpar2. intros He. exact (i_hash _ _ _ _ _ _ _ _ _ Hinv He x (core n) HxL Hxr (cores_lookup _ _ _ Hn)). }
  rewrite Hpar2 in Hevs.
  assert (p ∉ evictable_leaves s) as HpE.
  { intros (_ & _ & m & Hm & _ & Hmc)%(i_leaves _ _ _ _ _ _ _ _ _ Hinv).
    rewrite (cores_lookup _ _ _ Hpn) in Hm. injection Hm as <-. simpl in Hmc. by rewrite Hmc in Hc. }
  set (s1 := upd_events (fun q => q ++ evs) s2).
  exists n, (co_val (core n)), p, pn2, s1.
  assert (evict_step s L x (co_val (core n)) s1) as Hstep.
  { split; [done|done|by exists n|by injection Hv2|].
    exists (core n), p, (core pn), c, evs.
    split_and!; [by apply cores_lookup|done|by apply cores_lookup|done|done|].
    change (view s1) with (View (params s2) (heap_cores s2) (counter s2) (root_node s2) (evictable_size_ s2)
      (protected_size_ s2) (evictable_leaves s2) (kv_event_queue s2 ++ evs) (allocator s1)).
    by injection Hv2 as -> -> -> -> -> -> -> -> _. }
  split_and!; try done.
  - change (allocator s1) with (allocator s2). by injection Hv2 as _ _ _ _ _ _ _ _ ->.
  - change (evictable_leaves s1) with (evictable_leaves s2). injection Hv2 as _ _ _ _ _ _ -> _ _. simpl.
    pose proof (i_root _ _ _ _ _ _ _ _ _ Hinv) as Hroot.
    destruct (decide (dict_del (children pn) c = [] /\ lock_ref pn = 0)) as [[E1 E2]|Hno].
    + rewrite decide_True; [done|]. split_and!; [|done|done]. intros ->.
      specialize (Hroot _ (cores_lookup _ _ _ Hpn)). simpl in Hroot. lia.
    + rewrite decide_False by tauto. set_solver.
  - intros B f heap'. rewrite (bind_ok _ _ _ _ _ (node_at_run s x n Hn)). cbv beta.
    erewrite bind_ok by (unfold value_at; by rewrite Hv). cbv beta. rewrite (bind_ok _ _ _ _ _ Hfree).
    fold s0. rewrite (bind_ok _ _ _ _ _ Hdel). erewrite bind_ok by (unfold parent_at; by rewrite Hp).
    cbv beta. rewrite (bind_ok _ _ _ _ _ (node_at_run s2 p pn2 Hp2)). cbv beta.
    case_decide as Ho.
    + assert (entry_of p s2 = (Ok (entry_at s p), s2)) as Hen.
      { unfold entry_of. rewrite (bind_ok _ _ _ _ _ (node_at_run s2 p pn2 Hp2)). erewrite bind_ok by reflexivity.
        rewrite <-Hent. unfold entry_at. by rewrite Hp2. }
      erewrite bind_ok by (rewrite (bind_ok _ _ _ _ _ Hen); reflexivity). cbv beta.
      by rewrite (bind_ok _ _ _ _ _ Hrem).
    + erewrite bind_ok by reflexivity. cbv beta. by rewrite (bind_ok _ _ _ _ _ Hrem).
Qed.

(** *** The loop *)

Context `{!HeapQLaws}.

(** The heap holds exactly the evictable leaves. *)
Definition heap_of s (heap : list heap_entry) : Prop :=
  is_heap heap /\ heap ≡ₚ (entry_at s <$> elements (evictable_leaves s)).

Lemma entry_at_node s x : e_node (entry_at s x) = x.
Proof. unfold entry_at. by destruct (nodes s !! x). Qed.

Lemma heap_pop s heap e heap' :
  heap_of s heap -> heappop heap = Some (e, heap') ->
  first_victim s (e_node e) /\ is_heap heap' /\
  heap' ≡ₚ (entry_at s <$> elements (evictable_leaves s ∖ {[e_node e]})).
Proof.
  intros [Hh Hp] Hpop. destruct (decide (heap = [])) as [->|Hne]; [by rewrite heappop_empty in Hpop|].
  destruct (heappop_heap heap Hh Hne) as (e0 & h0 & Hpop0 & Hperm & Hh0 & Hmin).
  rewrite Hpop in Hpop0. injection Hpop0 as <- <-.
  assert (e ∈ entry_at s <$> elements (evictable_leaves s)) as Hin by (rewrite <-Hp, Hperm; left).
  apply list_elem_of_fmap in Hin as (x & -> & Hx). apply elem_of_elements in Hx. rewrite entry_at_node.
  assert (elements (evictable_leaves s) ≡ₚ x :: elements (evictable_leaves s ∖ {[x]})) as Hel.
  { assert (evictable_leaves s = {[x]} ∪ evictable_leaves s ∖ {[x]}) as E.
    { apply set_eq. intros z. destruct (decide (z = x)); set_solver. }
    rewrite E at 1. apply elements_union_singleton. set_solver. }
  assert (heap' ≡ₚ (entry_at s <$> elements (evictable_leaves s ∖ {[x]}))) as Hrest.
  { apply (Permutation_cons_inv (a := entry_at s x)). by rewrite <-Hperm, Hp, Hel. }
  split_and!; [split; [done|]|done|done]. intros y Hy Hyx. apply Hmin. rewrite Hrest.
  apply list_elem_of_fmap. exists y. split; [done|]. apply elem_of_elements. set_solver.
Qed.

(** The loop stops with enough tokens or without leaves, and takes no leaf
    more than needed. *)
Lemma evict_loop_run fuel num heap s L H' got :
  radix_inv s L H' -> alloc_ok (allocator s) -> heap_of s heap -> (size L < fuel)%nat ->
  exists ls s' L', evict_loop fuel num heap got s = (Ok (got + len (concat ls)), s') /\
    evictions s L ls s' L' /\ alloc_ok (allocator s') /\
    (num <= got + len (concat ls) \/ evictable_leaves s' = ∅) /\
    (forall ls' v, ls = ls' ++ [v] -> got + len (concat ls') < num).
Proof.
  revert heap s L got. induction fuel as [|fuel IH]; intros heap s L got Hinv Ha Hheap Hf; [lia|].
  cbn [evict_loop]. case_decide as Hlt; cycle 1.
  { exists [], s, L. rewrite Z.add_0_r. split_and!; [done|constructor|done|left; lia|].
    intros ls' v E. by destruct ls'. }
  destruct (heappop heap) as [[e heap']|] eqn:Hpop; cycle 1.
  { exists [], s, L. rewrite Z.add_0_r. split_and!; [done|constructor|done|right|intros ls' v E; by destruct ls'].
    destruct Hheap as [Hh Hp]. destruct (decide (heap = [])) as [->|Hne]; cycle 1.
    { destruct (heappop_heap heap Hh Hne) as (? & ? & ? & _). congruence. }
    apply Permutation_nil_l in Hp. symmetry in Hp. apply fmap_nil_inv, elements_empty_inv in Hp.
    by apply leibniz_equiv. }
  destruct (heap_pop s heap e heap' Hheap Hpop) as (Hfirst & Hh' & Hp').
  set (x := e_node e) in *.
  destruct (evict_body_run s L H' x Hinv Ha Hfirst) as
    (n & v & p & pn & s1 & Hn & Hv & Hstep & Ha1 & HpE & Hpx & HE1 & Hent & Hrun).
  pose proof (evict_step_inv s L H' x v s1 Hinv Hstep) as Hinv1.
  rewrite (Hrun _ (fun v h => evict_loop fuel num h (got + len v))). clear Hrun.
  destruct (IH (if decide (children pn = [] /\ lock_ref pn = 0) then heappush heap' (entry_at s p) else heap')
    s1 (L ∖ {[x]}) (got + len v) Hinv1 Ha1) as (ls & s' & L' & Hr & Hevs & Ha' & Hend & Hmin).
  { unfold heap_of. rewrite HE1. rewrite (list_fmap_ext (entry_at s1) (entry_at s)) by (intros; apply Hent).
    case_decide; [|done]. destruct (heappush_heap heap' (entry_at s p) Hh') as [Hpush Hpp]. split; [done|].
    rewrite Hpp, Hp'. rewrite elements_union_singleton by set_solver. done. }
  { pose proof (es_live _ _ _ _ _ Hstep) as HxL.
    assert (size (L ∖ {[x]}) < size L)%nat by (apply subset_size; set_solver). lia. }
  exists (v :: ls), s', L'. simpl. rewrite len_app, Z.add_assoc. split_and!; try done.
  - by econstructor.
  - intros ls' v' E. destruct ls' as [|v0 ls']; simpl in E; injection E as <- E.
    + simpl. unfold len at 1. simpl. lia.
    + simpl. rewrite len_app, Z.add_assoc. by eapply Hmin.
Qed.

(** *** What a series of evictions does *)

Lemma evict_step_frame s L H' x v s1 :
  radix_inv s L H' -> evict_step s L x v s1 ->
  params s1 = params s /\ root_node s1 = root_node s /\
  evictable_size_ s1 = evictable_size_ s - len v /\ protected_size_ s1 = protected_size_ s /\
  (forall y w u, spells s y w u -> spells s1 y w u) /\
  (forall w u, content s1 (L ∖ {[x]}) w u -> content s L w u).
Proof.
  intros Hinv [[Hx _] HxL (n0 & Hn0 & Hv0 & Hlv) _ (n & p & pn & c & evs & Hn & Hp & Hpn & Hc & _ & Hview)].
  pose proof (i_ps _ _ _ _ _ _ _ _ _ Hinv) as Hps. pose proof (i_shape _ _ _ _ _ _ _ _ _ Hinv) as Hs.
  rewrite (cores_lookup _ _ _ Hn0) in Hn. injection Hn as <-.
  destruct (cut_facts x p (core n0) pn c Hinv Hx (cores_lookup _ _ _ Hn0) Hp Hpn Hc) as
    (_ & Hxr & Hl & Hch & HpL & Hpc & Hpx).
  injection Hview as Ep Eg _ Er Ee Epr _ _.
  split_and!; try done.
  - rewrite Ee. unfold co_len, len. rewrite Hlv. done.
  - intros y w u [l Hu]. exists l. rewrite Ep, Er, Eg. simpl.
    eapply (cut_up (psz s) (root_node s) (heap_cores s) L x p (core n0) pn c); try done. by apply cores_lookup.
  - intros w u Hst. unfold content in *. rewrite Ep, Er, Eg in Hst. simpl in Hst.
    destruct (sh_up _ _ _ _ Hs p HpL) as (lp & wp & vp & Hup).
    eapply (cut_stored (psz s) (root_node s) Hps (heap_cores s) L x p (core n0) pn c); try done.
    by apply cores_lookup.
Qed.

Lemma evictions_spec s L H' ls s' L' :
  evictions s L ls s' L' -> radix_inv s L H' ->
  radix_inv s' L' H' /\ L' ⊆ L /\ params s' = params s /\ root_node s' = root_node s /\
  allocator s' = free_all ls (allocator s) /\
  evictable_size_ s' = evictable_size_ s - len (concat ls) /\ protected_size_ s' = protected_size_ s /\
  (forall y w u, spells s y w u -> spells s' y w u) /\
  (forall w u, content s' L' w u -> content s L w u).
Proof.
  induction 1 as [s L|s L x v s1 ls s' L' Hstep Hrest IH]; intros Hinv.
  - split_and!; try done. simpl. rewrite Z.sub_0_r. done.
  - destruct (evict_step_frame s L H' x v s1 Hinv Hstep) as (Hp & Hr & He & Hpr & Hsp & Hc).
    destruct (IH (evict_step_inv s L H' x v s1 Hinv Hstep)) as (Hi & HL & Hp' & Hr' & Ha' & He' & Hpr' & Hsp' & Hc').
    simpl. rewrite len_app. split_and!; [done|set_solver|congruence|congruence| |lia|congruence|naive_solver|].
    + rewrite Ha'. by rewrite (es_alloc _ _ _ _ _ Hstep).
    + intros w u Hu. by apply Hc, Hc'.
Qed.

Lemma no_leaves_evictable s L H' :
  radix_inv s L H' -> evictable_leaves s = ∅ -> evictable_size_ s = 0.
Proof. intros Hinv HE. by eapply inv_no_leaves. Qed.

Lemma entries_of_run s l :
  (forall x, x ∈ l -> is_Some (nodes s !! x)) -> entries_of l s = (Ok (entry_at s <$> l), s).
Proof.
  induction l as [|x l IH]; intros Hl; [done|]. simpl. destruct (Hl x ltac:(left)) as [n Hn].
  assert (entry_of x s = (Ok (entry_at s x), s)) as Hx.
  { unfold entry_of. rewrite (bind_ok _ _ _ _ _ (node_at_run s x n Hn)). erewrite bind_ok by reflexivity.
    unfold entry_at. by rewrite Hn. }
  rewrite (bind_ok _ _ _ _ _ Hx). cbv beta. erewrite bind_ok by (apply IH; set_solver). done.
Qed.

Lemma evict_run s L H' num :
  radix_inv s L H' -> disable (params s) = false -> alloc_ok (allocator s) ->
  exists ls s' L', evict num s = (Ok (len (concat ls)), s') /\ evictions s L ls s' L' /\
    alloc_ok (allocator s') /\
    (num <= len (concat ls) \/ evictable_leaves s' = ∅) /\
    (forall ls' v, ls = ls' ++ [v] -> len (concat ls') < num).
Proof.
  intros Hinv Hd Ha. unfold evict. erewrite bind_ok by reflexivity. cbv beta. rewrite Hd.
  erewrite bind_ok by reflexivity. cbv beta. pose proof (i_shape _ _ _ _ _ _ _ _ _ Hinv) as Hs.
  assert (entries_of (set_order (evictable_leaves s)) s =
    (Ok (entry_at s <$> set_order (evictable_leaves s)), s)) as Hent.
  { apply entries_of_run. intros x Hx. rewrite set_order_elements in Hx. apply elem_of_elements in Hx.
    destruct (leaf_facts s L H' x Hinv Hx) as (n & _ & _ & _ & Hn & _). eauto. }
  rewrite (bind_ok _ _ _ _ _ Hent). cbv beta. erewrite bind_ok by reflexivity. cbv beta.
  destruct (heapify_heap (entry_at s <$> set_order (evictable_leaves s))) as [Hh Hp].
  destruct (evict_loop_run (S (size (nodes s))) num (heapify (entry_at s <$> set_order (evictable_leaves s)))
    s L H' 0 Hinv Ha) as (ls & s' & L' & Hr & Hev & Ha' & Hend & Hmin).
  - split; [done|]. by rewrite Hp, set_order_elements.
  - apply Nat.lt_succ_r. by eapply live_size.
  - exists ls, s', L'. rewrite Z.add_0_l in *. split_and!; done.
Qed.

(** [evict] terminates without raising and frees enough: at least the
    requested number of tokens, or everything that is not locked; it stops
    before the first leaf it does not need; the evictable size shrinks by
    exactly the number it returns, the indices of the victims are handed to
    the allocator, each victim once, and the invariant is kept. *)
Theorem evict_spec s L H' num :
  radix_inv s L H' -> disable (params s) = false -> alloc_ok (allocator s) ->
  exists ls s' L',
    evict num s = (Ok (len (concat ls)), s') /\ radix_inv s' L' H' /\
    Z.min num (evictable_size s) <= len (concat ls) /\
    (forall ls' v, ls = ls' ++ [v] -> len (concat ls') < num) /\
    evictable_size s' = evictable_size s - len (concat ls) /\
    protected_size s' = protected_size s /\
    allocator s' = free_all ls (allocator s).
Proof.
  intros Hinv Hd Ha. destruct (evict_run s L H' num Hinv Hd Ha) as (ls & s' & L' & Hr & Hev & _ & Hend & Hmin).
  destruct (evictions_spec _ _ _ _ _ _ Hev Hinv) as (Hi & HL & Hp & Hrt & Hal & He & Hpr & _).
  exists ls, s', L'. split_and!; try done. unfold evictable_size. destruct Hend as [Hge|HE]; [lia|].
  pose proof (no_leaves_evictable s' L' H' Hi HE). lia.
Qed.

(** C3: eviction is safe: it is a series of steps each of which removes an
    unlocked leaf that no other evictable leaf precedes in the configured
    order; no node a request holds is removed, every held prefix keeps its
    indices, and nothing new appears in the cache. *)
Theorem evict_safe s L H' num :
  radix_inv s L H' -> disable (params s) = false -> alloc_ok (allocator s) ->
  exists n ls s' L',
    evict num s = (Ok n, s') /\ evictions s L ls s' L' /\
    (forall y w v, y ∈ H' -> spells s y w v -> y ∈ L' /\ spells s' y w v /\ content s' L' w v) /\
    (forall w v, content s' L' w v -> content s L w v).
Proof.
  intros Hinv Hd Ha. destruct (evict_run s L H' num Hinv Hd Ha) as (ls & s' & L' & Hr & Hev & _).
  destruct (evictions_spec _ _ _ _ _ _ Hev Hinv) as (Hi & HL & Hp & Hrt & _ & _ & _ & Hsp & Hc).
  do 2 eexists. exists s', L'. split_and!; [exact Hr|done| |done]. intros y w v Hy Hs.
  pose proof (inv_held_live Hi y Hy) as HyL. specialize (Hsp y w v Hs). split_and!; [done|done|].
  destruct Hsp as [l Hl]. eapply stored_node; [exact (i_ps _ _ _ _ _ _ _ _ _ Hi)|
    exact (i_shape _ _ _ _ _ _ _ _ _ Hi)|done|exact Hl].
Qed.
End evict.
