(* ===== verification/RadixLockOps.v ===== *)
(** * The prefix cache: acquiring and releasing a node

    Runs of [inc_lock_ref] and [dec_lock_ref]: they walk from a node to the
    root, so every lock protects the whole prefix; acquiring adds one holder,
    releasing removes it, the returned delta is the change of the evictable
    size, and a release undoes an acquisition. *)

From S2P Require Import Prelude PyDict RadixKey KvEvents RadixTree RadixOps RadixInv RadixMoves.
From S2P Require Import RadixState RadixLocks RadixRun RadixEvents RadixInsert RadixSpec RadixEvict.

Lemma relock_alter d l (f : core_t -> core_t) y g :
  y ∉ l -> relock d l (alter f y g) = alter f y (relock d l g).
Proof.
  induction l as [|z l IH]; intros Hy; [done|]. simpl. rewrite IH by set_solver.
  apply alter_alter_ne. set_solver.
Qed.

(** The total length of the nodes of [l] whose lock count is [z]. *)
Abbreviation lock_len z g l := (sumZ (size_if (fun k => bool_decide (k = z)) g) l).

Lemma lock_len_alter z f y g l : y ∉ l -> lock_len z (alter f y g) l = lock_len z g l.
Proof.
  intros Hy. apply sumZ_ext. intros x Hx. unfold size_if. rewrite lookup_alter_ne; [done|]. set_solver.
Qed.

Section lock.
Context {A : Type} `{KvFree A} `{Sha256} `{HeapQ}.
Implicit Types (s : RadixCache A) (L : gset nat).
Abbreviation psz s := (page_size (params s)).

(** What the loops need to know about the nodes of the path. *)
Definition walkable s (l : list nat) : Prop :=
  forall x n, x ∈ l -> nodes s !! x = Some n ->
    evicted n = false /\ (children n ≠ [] -> has_live_child n s = true).

(** One node has its lock count changed and is put in or out of the leaves. *)
Definition relocked (d : Z) (y : nat) (de : Z) (leaf : bool) s : RadixCache A :=
  upd_leaves (if leaf then (fun E => {[y]} ∪ E) else (fun E => E ∖ {[y]}))
    (upd_nodes (alter (fun m => set_lock_ref (lock_ref m + d) m) y) (upd_sizes de (- de) s)).

Lemma relocked_cores d y de leaf s :
  heap_cores (relocked d y de leaf s) = alter (add_lock d) y (heap_cores s).
Proof.
  unfold heap_cores. simpl. apply map_eq. intros z. rewrite lookup_fmap.
  destruct (decide (z = y)) as [->|Hz].
  - rewrite !lookup_alter_eq, lookup_fmap. by destruct (nodes s !! y).
  - by rewrite !lookup_alter_ne, lookup_fmap by done.
Qed.

Lemma relocked_walkable d y de leaf s l :
  walkable s l -> walkable (relocked d y de leaf s) l.
Proof.
  intros Hw x n' Hx Hn'. simpl in Hn'.
  assert (exists n, nodes s !! x = Some n /\ evicted n' = evicted n /\ children n' = children n) as
    (n & Hn & -> & Ec).
  { destruct (decide (x = y)) as [->|Hxy].
    - rewrite lookup_alter_eq in Hn'. destruct (nodes s !! y) as [n|]; [|done].
      injection Hn' as <-. by exists n.
    - rewrite lookup_alter_ne in Hn' by done. by exists n'. }
  destruct (Hw x n Hx Hn) as [He Hc]. split; [done|]. rewrite Ec. intros Hne. specialize (Hc Hne).
  unfold has_live_child in *. rewrite Ec. apply existsb_exists in Hc as (c & Hin & Hl).
  apply existsb_exists. exists c. split; [done|]. unfold child_live in *. simpl.
  destruct (decide (c = y)) as [->|Hcy].
  - rewrite lookup_alter_eq. by destruct (nodes s !! y).
  - by rewrite lookup_alter_ne.
Qed.

Lemma relocked_up d y de leaf s p l w v :
  up (psz s) (root_node s) (heap_cores s) p l w v ->
  up (psz s) (root_node s) (heap_cores (relocked d y de leaf s)) p l w v.
Proof.
  intros Hu. rewrite relocked_cores. apply (relock_up _ _ d [y]); [apply NoDup_singleton|done].
Qed.

Lemma inc_loop_run l : forall fuel y s w v delta,
  up (psz s) (root_node s) (heap_cores s) y l w v -> walkable s l ->
  (forall x n, x ∈ l -> heap_cores s !! x = Some n -> 0 <= co_lock n) -> (length l < fuel)%nat ->
  exists s', inc_lock_loop fuel y delta s = (Ok (delta - lock_len 0 (heap_cores s) l), s') /\
    view s' = View (params s) (relock 1 l (heap_cores s)) (counter s) (root_node s)
      (evictable_size_ s - lock_len 0 (heap_cores s) l) (protected_size_ s + lock_len 0 (heap_cores s) l)
      (evictable_leaves s ∖ list_to_set l) (kv_event_queue s) (allocator s).
Proof.
  induction l as [|y0 l IH]; intros fuel y s w v delta Hu Hw Hnn Hf; (destruct fuel as [|fuel]; [simpl in Hf; lia|]);
    cbn [inc_lock_loop]; erewrite bind_ok by reflexivity; cbv beta.
  { inversion Hu; simplify_eq. rewrite decide_True by done. exists s. simpl.
    rewrite !Z.sub_0_r. split; [done|]. unfold view. rewrite Z.add_0_r, difference_empty_L. done. }
  pose proof (up_NoDup _ _ _ _ _ _ _ Hu) as [Hnin Hnd]%NoDup_cons.
  inversion Hu as [|? n0 p l0 w0 v0 Hyr Hg Hp Hu0]; subst.
  destruct (cores_lookup_inv s y0 n0 Hg) as (n & Hn & <-). simpl in Hp.
  rewrite decide_False by done. rewrite (bind_ok _ _ _ _ _ (node_at_run s y0 n Hn)). cbv beta zeta.
  set (sz := Z.of_nat (key_len (key n))). set (de := if decide (lock_ref n = 0) then - sz else 0).
  pose proof (Hnn y0 (core n) ltac:(left) Hg) as Hlk. simpl in Hlk.
  set (s1 := relocked 1 y0 de false s).
  assert (forall B (f : M (RadixCache A) B),
    ((if decide (lock_ref n = 0) then modify (upd_sizes (- sz) sz) else mret tt) ≫= fun _ =>
     update_node y0 (fun m => set_lock_ref (lock_ref m + 1) m) ≫= fun _ =>
     update_leaf_status y0 ≫= fun _ => f) s = f s1) as Hstep.
  { intros B f. transitivity ((update_leaf_status y0 ≫= fun _ => f)
      (upd_nodes (alter (fun m => set_lock_ref (lock_ref m + 1) m) y0) (upd_sizes de (- de) s))).
    - unfold de. case_decide; erewrite bind_ok by reflexivity; erewrite bind_ok by reflexivity; [|destruct s];
        unfold upd_sizes; simpl; by rewrite ?Z.opp_involutive, ?Z.add_0_r.
    - erewrite bind_ok; [reflexivity|]. unfold update_leaf_status.
      erewrite bind_ok by (apply node_at_run; simpl; by rewrite lookup_alter_eq, Hn).
      destruct (Hw y0 n ltac:(left) Hn) as [He _]. unfold evicted in *. simpl. rewrite He.
      rewrite bool_decide_true by lia. done. }
  rewrite Hstep. clear Hstep. erewrite bind_ok by (unfold parent_at; by rewrite Hp). cbv beta.
  destruct (IH fuel p s1 w0 v0 (if decide (lock_ref n = 0) then delta - sz else delta)) as (s' & Hr & Hv).
  - exact (relocked_up _ _ _ _ _ _ _ _ _ Hu0).
  - apply relocked_walkable. intros x m Hx. apply Hw. by right.
  - intros x m Hx Hm. unfold s1 in Hm. rewrite relocked_cores, lookup_alter_ne in Hm by set_solver.
    apply (Hnn x m); [by right|done].
  - simpl in Hf. lia.
  - exists s'. assert (heap_cores s1 = alter (add_lock 1) y0 (heap_cores s)) as Hg1 by apply relocked_cores.
    rewrite Hg1 in Hr, Hv.
    rewrite lock_len_alter in Hr, Hv by done. rewrite relock_alter in Hv by done.
    assert (size_if (fun k => bool_decide (k = 0)) (heap_cores s) y0 = - de) as Hsz.
    { unfold size_if, de. rewrite Hg. simpl. unfold co_len, sz. case_decide; case_bool_decide; simpl; lia. }
    split.
    + rewrite Hr. do 2 f_equal. simpl. rewrite Hsz. unfold de. case_decide; lia.
    + rewrite Hv. simpl. rewrite Hsz. f_equal; [lia|lia|]. set_solver.
Qed.

Lemma dec_loop_run l : forall fuel y s w v delta,
  up (psz s) (root_node s) (heap_cores s) y l w v -> walkable s l ->
  (forall x n, x ∈ l -> heap_cores s !! x = Some n -> 0 < co_lock n) -> (length l < fuel)%nat ->
  exists s' E', dec_lock_loop fuel y delta s = (Ok (delta + lock_len 1 (heap_cores s) l), s') /\
    (forall x, x ∈ E' <-> (x ∈ evictable_leaves s /\ x ∉ l) \/ exposed (g := heap_cores s) l x) /\
    view s' = View (params s) (relock (-1) l (heap_cores s)) (counter s) (root_node s)
      (evictable_size_ s + lock_len 1 (heap_cores s) l) (protected_size_ s - lock_len 1 (heap_cores s) l)
      E' (kv_event_queue s) (allocator s).
Proof.
  induction l as [|y0 l IH]; intros fuel y s w v delta Hu Hw Hnn Hf; (destruct fuel as [|fuel]; [simpl in Hf; lia|]);
    cbn [dec_lock_loop]; erewrite bind_ok by reflexivity; cbv beta.
  { inversion Hu; simplify_eq. rewrite decide_True by done. exists s, (evictable_leaves s). simpl.
    rewrite !Z.add_0_r, !Z.sub_0_r. split_and!; [done| |done]. intros x. unfold exposed. set_solver. }
  pose proof (up_NoDup _ _ _ _ _ _ _ Hu) as [Hnin Hnd]%NoDup_cons.
  inversion Hu as [|? n0 p l0 w0 v0 Hyr Hg Hp Hu0]; subst.
  destruct (cores_lookup_inv s y0 n0 Hg) as (n & Hn & <-). simpl in Hp.
  rewrite decide_False by done. rewrite (bind_ok _ _ _ _ _ (node_at_run s y0 n Hn)). cbv beta zeta.
  set (sz := Z.of_nat (key_len (key n))). set (de := if decide (lock_ref n = 1) then sz else 0).
  set (leaf := bool_decide (lock_ref n = 1 /\ children n = [])).
  pose proof (Hnn y0 (core n) ltac:(left) Hg) as Hlk. simpl in Hlk.
  set (s1 := relocked (-1) y0 de leaf s).
  assert (forall B (f : M (RadixCache A) B),
    ((if decide (lock_ref n = 1) then modify (upd_sizes sz (- sz)) else mret tt) ≫= fun _ =>
     update_node y0 (fun m => set_lock_ref (lock_ref m - 1) m) ≫= fun _ =>
     update_leaf_status y0 ≫= fun _ => f) s = f s1) as Hstep.
  { intros B f. set (s0 := upd_nodes (alter (fun m => set_lock_ref (lock_ref m + -1) m) y0) (upd_sizes de (- de) s)).
    transitivity ((update_leaf_status y0 ≫= fun _ => f) s0).
    - unfold s0, de. case_decide; erewrite bind_ok by reflexivity; erewrite bind_ok by reflexivity; [done|].
      destruct s. unfold upd_sizes. simpl. by rewrite !Z.add_0_r.
    - assert (nodes s0 !! y0 = Some (set_lock_ref (lock_ref n + -1) n)) as Hn0
        by (simpl; by rewrite lookup_alter_eq, Hn).
      destruct (relocked_walkable (-1) y0 de true s _ Hw y0 _ ltac:(left) Hn0) as [He Hc].
      erewrite bind_ok; [|apply (update_leaf_status_run s0 y0 _ Hn0 He Hc)].
      unfold s1, relocked, leaf. fold s0. f_equal. f_equal. simpl.
      case_decide; case_bool_decide; try done; exfalso; naive_solver lia. }
  rewrite Hstep. clear Hstep. rewrite Hp.
  destruct (IH fuel p s1 w0 v0 (if decide (lock_ref n = 1) then delta + sz else delta)) as (s' & E' & Hr & HE & Hv).
  - exact (relocked_up _ _ _ _ _ _ _ _ _ Hu0).
  - apply relocked_walkable. intros x m Hx. apply Hw. by right.
  - intros x m Hx Hm. unfold s1 in Hm. rewrite relocked_cores, lookup_alter_ne in Hm by set_solver.
    apply (Hnn x m); [by right|done].
  - simpl in Hf. lia.
  - exists s', E'. assert (heap_cores s1 = alter (add_lock (-1)) y0 (heap_cores s)) as Hg1 by apply relocked_cores.
    rewrite Hg1 in Hr, Hv, HE. rewrite lock_len_alter in Hr, Hv by done. rewrite relock_alter in Hv by done.
    assert (size_if (fun k => bool_decide (k = 1)) (heap_cores s) y0 = de) as Hsz.
    { unfold size_if, de. rewrite Hg. simpl. unfold co_len, sz. case_decide; case_bool_decide; simpl; lia. }
    split_and!.
    + rewrite Hr. do 2 f_equal. simpl. rewrite Hsz. unfold de. case_decide; lia.
    + intros x. rewrite HE. unfold exposed. destruct (decide (x = y0)) as [->|Hxy].
      * simpl. unfold leaf. case_bool_decide as Hl; [set_solver|].
        split; [set_solver|]. intros [[_ Hx]|(_ & m & Hm & E1 & E2)]; [set_solver|]. exfalso.
        rewrite Hg in Hm. injection Hm as <-. by apply Hl.
      * rewrite lookup_alter_ne by done. simpl. unfold leaf. case_bool_decide; set_solver.
    + rewrite Hv. simpl. rewrite Hsz. f_equal; lia.
Qed.

(** *** The operations *)

Lemma walkable_inv s L H' y l w v :
  radix_inv s L H' -> y ∈ L -> up (psz s) (root_node s) (heap_cores s) y l w v -> walkable s l.
Proof.
  intros Hinv Hy Hu x n Hx Hn. pose proof (i_shape _ _ _ _ _ _ _ _ _ Hinv) as Hs.
  pose proof (shape_up_live _ _ _ _ _ _ _ _ Hs Hy Hu x Hx) as HxL.
  split; [|intros Hc; by eapply live_children].
  assert (x ≠ root_node s) as Hxr by (intros ->; by apply (up_not_root _ _ _ _ _ _ _ Hu)).
  destruct (shape_node_ok _ _ _ _ _ _ Hs HxL Hxr (cores_lookup _ _ _ Hn)) as (_ & _ & u & Hv).
  unfold evicted. simpl in Hv. by rewrite Hv.
Qed.

Lemma path_fuel s L H' y l w v :
  radix_inv s L H' -> y ∈ L -> up (psz s) (root_node s) (heap_cores s) y l w v ->
  (length l < S (size (nodes s)))%nat.
Proof.
  intros Hinv Hy Hu. apply Nat.lt_succ_r. rewrite <-(size_dom (D := gset nat)).
  rewrite <-(size_list_to_set (C := gset nat) l) by (by eapply up_NoDup). apply subseteq_size.
  intros x Hx%elem_of_list_to_set. apply elem_of_dom. destruct (up_nodes _ _ _ _ _ _ _ x Hu Hx) as [m Hm].
  destruct (cores_lookup_inv s x m Hm) as (n & Hn & _). eauto.
Qed.

Lemma inc_lock_ref_run s L H' y :
  radix_inv s L H' -> disable (params s) = false -> y ∈ L ->
  exists l w v s', up (psz s) (root_node s) (heap_cores s) y l w v /\
    inc_lock_ref y s = (Ok (- lock_len 0 (heap_cores s) l), s') /\ radix_inv s' L (y :: H') /\
    view s' = View (params s) (relock 1 l (heap_cores s)) (counter s) (root_node s)
      (evictable_size_ s - lock_len 0 (heap_cores s) l) (protected_size_ s + lock_len 0 (heap_cores s) l)
      (evictable_leaves s ∖ list_to_set l) (kv_event_queue s) (allocator s).
Proof.
  intros Hinv Hd Hy. pose proof (i_shape _ _ _ _ _ _ _ _ _ Hinv) as Hs.
  destruct (sh_up _ _ _ _ Hs y Hy) as (l & w & v & Hu).
  destruct (inc_loop_run l (S (size (nodes s))) y s w v 0 Hu) as (s' & Hr & Hv).
  - by eapply walkable_inv.
  - intros x n Hx Hn. eapply inv_lock_nonneg; [exact Hinv| |done]. by eapply shape_up_live.
  - by eapply path_fuel.
  - exists l, w, v, s'. split_and!; [done| | |done].
    + unfold inc_lock_ref. erewrite bind_ok by reflexivity. cbv beta. rewrite Hd.
      erewrite bind_ok by reflexivity. cbv beta. rewrite Hr. by rewrite Z.sub_0_l.
    + apply radix_inv_view. rewrite Hv. by eapply inv_acquire.
Qed.

Lemma dec_lock_ref_run s L H' H0' y :
  radix_inv s L H0' -> disable (params s) = false -> H0' ≡ₚ y :: H' ->
  exists l w v s' E', up (psz s) (root_node s) (heap_cores s) y l w v /\
    dec_lock_ref y s = (Ok (lock_len 1 (heap_cores s) l), s') /\ radix_inv s' L H' /\
    view s' = View (params s) (relock (-1) l (heap_cores s)) (counter s) (root_node s)
      (evictable_size_ s + lock_len 1 (heap_cores s) l) (protected_size_ s - lock_len 1 (heap_cores s) l)
      E' (kv_event_queue s) (allocator s).
Proof.
  intros Hinv Hd Hperm. pose proof (i_shape _ _ _ _ _ _ _ _ _ Hinv) as Hs.
  assert (y ∈ H0') as HyH by (rewrite Hperm; left). pose proof (inv_held_live Hinv y HyH) as Hy.
  destruct (sh_up _ _ _ _ Hs y Hy) as (l & w & v & Hu).
  assert (forall x n, x ∈ l -> heap_cores s !! x = Some n -> 0 < co_lock n) as Hpos
    by (intros x n Hx Hn; by eapply (inv_held_locked Hinv y x n l)).
  destruct (dec_loop_run l (S (size (nodes s))) y s w v 0 Hu) as (s' & E' & Hr & HE & Hv).
  - by eapply walkable_inv.
  - done.
  - by eapply path_fuel.
  - exists l, w, v, s', E'. split_and!; [done| | |done].
    + unfold dec_lock_ref. erewrite bind_ok by reflexivity. cbv beta. rewrite Hd.
      erewrite bind_ok by reflexivity. cbv beta. by rewrite Hr.
    + apply radix_inv_view. rewrite Hv. eapply (inv_release y l w v Hinv Hy Hu H' E' Hperm).
      intros x. rewrite HE. split; [naive_solver|]. intros [Hx|?]; [left|by right]. split; [done|].
      intros Hxl. apply (i_leaves _ _ _ _ _ _ _ _ _ Hinv) in Hx as (_ & _ & n & Hn & Hl & _).
      specialize (Hpos x n Hxl Hn). lia.
Qed.

Lemma relock_content s s' L d l :
  params s' = params s -> root_node s' = root_node s -> heap_cores s' = relock d l (heap_cores s) ->
  NoDup l -> shape (psz s) (root_node s) (heap_cores s) L ->
  keeps s L s' L /\ forall w v, content s' L w v <-> content s L w v.
Proof.
  intros Hp Hr Hg Hnd Hs. split.
  - split_and!; try done. intros x w v _ [l' Hl']. exists l'. rewrite Hp, Hr, Hg. by apply relock_up.
  - intros w v. unfold content. rewrite Hp, Hr, Hg. by apply relock_stored.
Qed.

(** The two size counters never lose track of the tree. *)
Lemma inv_sizes_nonneg s L H' :
  radix_inv s L H' -> 0 <= evictable_size_ s /\ 0 <= protected_size_ s.
Proof.
  intros Hinv. rewrite (i_ev _ _ _ _ _ _ _ _ _ Hinv), (i_prot _ _ _ _ _ _ _ _ _ Hinv).
  split; apply set_sum_nonneg; intros x _; unfold size_if, co_len; destruct (heap_cores s !! x) as [n|]; try done;
    case_match; lia.
Qed.

(** Acquiring a live node never raises, makes the caller one more holder
    of the node's whole prefix, and moves exactly the returned amount from
    the evictable to the protected size; neither size is ever negative, and
    their sum and the content of the cache do not change. *)
Lemma inc_lock_ref_spec s L H' y :
  radix_inv s L H' -> disable (params s) = false -> y ∈ L ->
  exists d s', inc_lock_ref y s = (Ok (- d), s') /\ 0 <= d /\ radix_inv s' L (y :: H') /\
    evictable_size s' = evictable_size s - d /\ protected_size s' = protected_size s + d /\
    0 <= evictable_size s' /\ 0 <= protected_size s' /\
    keeps s L s' L /\ (forall w v, content s' L w v <-> content s L w v).
Proof.
  intros Hinv Hd Hy. destruct (inc_lock_ref_run s L H' y Hinv Hd Hy) as (l & w & v & s' & Hu & Hr & Hi & Hv).
  exists (lock_len 0 (heap_cores s) l), s'. destruct (inv_sizes_nonneg s' L _ Hi) as [He Hp].
  injection Hv as Ep Eg _ Er Ee Epr _ _ _.
  destruct (relock_content s s' L 1 l Ep Er Eg (up_NoDup _ _ _ _ _ _ _ Hu) (i_shape _ _ _ _ _ _ _ _ _ Hinv)) as [Hk Hc].
  split_and!; try done. apply sumZ_nonneg. intros x _. unfold size_if, co_len.
  destruct (heap_cores s !! x) as [n|]; [|done]. case_match; lia.
Qed.

(** Releasing a held node never raises (the assertion about nodes of
    another tree holds), removes that holder and moves exactly the returned
    amount back to the evictable size. *)
Lemma dec_lock_ref_spec s L H' H0' y :
  radix_inv s L H0' -> disable (params s) = false -> H0' ≡ₚ y :: H' ->
  exists d s', dec_lock_ref y s = (Ok d, s') /\ 0 <= d /\ radix_inv s' L H' /\
    evictable_size s' = evictable_size s + d /\ protected_size s' = protected_size s - d /\
    keeps s L s' L /\ (forall w v, content s' L w v <-> content s L w v).
Proof.
  intros Hinv Hd Hperm.
  destruct (dec_lock_ref_run s L H' H0' y Hinv Hd Hperm) as (l & w & v & s' & E' & Hu & Hr & Hi & Hv).
  exists (lock_len 1 (heap_cores s) l), s'. injection Hv as Ep Eg _ Er Ee Epr _ _ _.
  destruct (relock_content s s' L (-1) l Ep Er Eg (up_NoDup _ _ _ _ _ _ _ Hu) (i_shape _ _ _ _ _ _ _ _ _ Hinv)) as [Hk Hc].
  split_and!; try done. apply sumZ_nonneg. intros x _. unfold size_if, co_len.
  destruct (heap_cores s !! x) as [n|]; [|done]. case_match; lia.
Qed.

Lemma relock_undo l g : NoDup l -> relock (-1) l (relock 1 l g) = g.
Proof.
  intros Hnd. apply map_eq. intros x. destruct (decide (x ∈ l)) as [Hx|Hx].
  - rewrite !relock_in by done. destruct (g !! x) as [n|]; [|done]. simpl. f_equal. destruct n.
    unfold add_lock. simpl. f_equal. lia.
  - by rewrite !relock_out.
Qed.

(** A release undoes an acquisition: it returns the opposite delta and
    the tree, the sizes and the evictable leaves are what they were. *)
Lemma lock_roundtrip s L H' y :
  radix_inv s L H' -> disable (params s) = false -> y ∈ L ->
  exists d s1 s2, inc_lock_ref y s = (Ok (- d), s1) /\ dec_lock_ref y s1 = (Ok d, s2) /\
    view s2 = view s.
Proof.
  intros Hinv Hd Hy. destruct (inc_lock_ref_run s L H' y Hinv Hd Hy) as (l & w & v & s1 & Hu & Hr & Hi & Hv).
  assert (params s1 = params s) as Hp1 by (by injection Hv).
  assert (disable (params s1) = false) as Hd1 by (by rewrite Hp1).
  destruct (dec_lock_ref_run s1 L H' _ y Hi Hd1 ltac:(reflexivity)) as (l2 & w2 & v2 & s2 & E2 & Hu2 & Hr2 & Hi2 & Hv2).
  pose proof (up_NoDup _ _ _ _ _ _ _ Hu) as Hnd.
  injection Hv as _ Eg1 Ec1 Er1 Ee1 Epr1 _ Eq1 Ea1.
  rewrite Hp1, Er1, Eg1 in Hu2.
  destruct (up_fun _ _ _ _ _ _ _ _ _ _ Hu2 (relock_up _ _ 1 l _ _ _ _ _ Hnd Hu)) as (-> & _ & _).
  assert (lock_len 1 (heap_cores s1) l = lock_len 0 (heap_cores s) l) as Hlen.
  { apply sumZ_ext. intros x Hx. unfold size_if. rewrite Eg1, relock_in by done.
    destruct (heap_cores s !! x) as [n|]; [|done]. simpl. unfold co_len. simpl.
    repeat case_bool_decide; try done; lia. }
  exists (lock_len 0 (heap_cores s) l), s1, s2. split_and!; [done|by rewrite Hr2, Hlen|].
  assert (heap_cores s2 = heap_cores s) as Hg2.
  { injection Hv2 as _ -> _. rewrite Eg1. by apply relock_undo. }
  assert (evictable_leaves s2 = evictable_leaves s) as HE.
  { assert (root_node s2 = root_node s) as Hr2' by (injection Hv2 as _ _ _ -> _; done).
    apply set_eq. intros x.
    rewrite (i_leaves _ _ _ _ _ _ _ _ _ Hi2 x), (i_leaves _ _ _ _ _ _ _ _ _ Hinv x). by rewrite Hr2', Hg2. }
  unfold view in *. rewrite HE, Hg2. injection Hv2 as -> _ -> -> -> -> _ -> ->.
  rewrite Hlen, Hp1, Ec1, Er1, Ee1, Epr1, Eq1, Ea1. f_equal; lia.
Qed.

(** C27: locks. Acquiring a live node never raises and makes the caller one
    more holder of the node's whole prefix; the returned amount moves from the
    evictable to the protected size, neither of which is ever negative, and
    the content of the cache does not change. Releasing a held node, whenever
    that is, never raises (the assertion about nodes of another tree holds),
    removes that holder and moves the returned amount back. A release right
    after an acquisition undoes it: the opposite amount is returned, and the
    tree, the sizes, the evictable leaves, the events and the allocator are
    what they were. *)
Theorem lock_ref_spec s L H' y :
  radix_inv s L H' -> disable (params s) = false ->
  (y ∈ L -> exists d s1 s2, inc_lock_ref y s = (Ok (- d), s1) /\ 0 <= d /\ radix_inv s1 L (y :: H') /\
    evictable_size s1 = evictable_size s - d /\ protected_size s1 = protected_size s + d /\
    0 <= evictable_size s1 /\ 0 <= protected_size s1 /\
    keeps s L s1 L /\ (forall w v, content s1 L w v <-> content s L w v) /\
    dec_lock_ref y s1 = (Ok d, s2) /\ view s2 = view s) /\
  (forall H1', H' ≡ₚ y :: H1' -> exists d s', dec_lock_ref y s = (Ok d, s') /\ 0 <= d /\
    radix_inv s' L H1' /\ evictable_size s' = evictable_size s + d /\
    protected_size s' = protected_size s - d /\ 0 <= protected_size s' /\
    keeps s L s' L /\ (forall w v, content s' L w v <-> content s L w v)).
Proof.
  intros Hinv Hd. split.
  - intros Hy. destruct (inc_lock_ref_spec s L H' y Hinv Hd Hy) as (d & s1 & Hr & ?).
    destruct (lock_roundtrip s L H' y Hinv Hd Hy) as (d' & s1' & s2 & Hr' & Hdec & Hview).
    rewrite Hr in Hr'. injection Hr' as Ed <-. assert (d' = d) as -> by lia.
    exists d, s1, s2. split_and!; tauto.
  - intros H1' Hperm. destruct (dec_lock_ref_spec s L H1' H' y Hinv Hd Hperm) as (d & s' & Hr & Hn & Hi & ?).
    exists d, s'. destruct (inv_sizes_nonneg s' L _ Hi). split_and!; tauto.
Qed.
End lock.
