(* ===== verification/RadixTotal.v ===== *)
(** * The prefix cache: construction and sizes

    [reset] and the constructor produce a consistent empty cache, and the
    traversal [total_size] agrees with the two incrementally maintained
    counters. *)

From S2P Require Import Prelude PyDict RadixKey KvEvents RadixTree RadixOps RadixInv RadixMoves.
From S2P Require Import RadixState RadixLocks RadixRun RadixEvents RadixInsert RadixSpec RadixEvict.

(** *** The empty tree *)

Definition root_core : core_t := Core [] None (MkKey [] None false) (Some []) 1 (Some []).

Lemma inv_empty prm (g : cores) cnt r :
  (0 < page_size prm)%nat -> g !! r = Some root_core -> (forall x, is_Some (g !! x) -> (x < cnt)%nat) ->
  inv_at prm g cnt r 0 0 ∅ {[r]} [].
Proof.
  intros Hps Hr Hfresh. assert (forall x : nat, x ∈ ({[r]} : gset nat) -> x = r) as Hsing by set_solver.
  split; try done.
  - split.
    + exists root_core. by split_and!.
    + set_solver.
    + intros x Hx Hxr. by apply Hsing in Hx.
    + intros p pn c x Hp Hpn Hc. apply Hsing in Hp as ->. rewrite Hr in Hpn. by injection Hpn as <-.
    + intros p pn Hp Hpn. apply Hsing in Hp as ->. rewrite Hr in Hpn. injection Hpn as <-. apply dict_wf_nil.
    + intros x Hx. apply Hsing in Hx as ->. do 3 eexists. constructor.
  - intros n Hn. rewrite Hr in Hn. by injection Hn as <-.
  - exists []. split; [constructor|]. intros x n Hx Hxr. by apply Hsing in Hx.
  - by rewrite difference_diag_L.
  - by rewrite difference_diag_L.
  - intros x. split; [set_solver|]. intros (Hx & Hxr & _). by apply Hsing in Hx.
  - intros _ x n Hx Hxr. by apply Hsing in Hx.
Qed.

Section total.
Context {A : Type} `{KvFree A} `{Sha256} `{HeapQ} (monotonic : nat -> Z).
Implicit Types (s : RadixCache A) (L : gset nat).
Abbreviation psz s := (page_size (params s)).

(** *** The empty cache *)

Lemma reset_run s :
  (0 < psz s)%nat -> (forall x, is_Some (nodes s !! x) -> (x < counter s)%nat) ->
  exists s', reset monotonic s = (Ok tt, s') /\ radix_inv s' {[root_node s']} [] /\
    params s' = params s /\ allocator s' = allocator s /\ root_node s' = counter s /\
    evictable_size_ s' = 0 /\ protected_size_ s' = 0.
Proof.
  intros Hps Hfresh.
  set (rn := fun n => MkNode (children n) (parent n) (MkKey [] None false) (Some []) 1 (last_access_time n)
    (creation_time n) (hit_count n) (host_ref_counter n) (Some []) (Some []) (priority n)).
  set (n0 := TreeNode_init (- (2 ^ 63 - 1)) (monotonic (readings s)) (monotonic (S (readings s)))).
  set (s1 := upd_root (counter s) (upd_nodes (alter rn (counter s))
    (upd_fresh n0 (upd_readings (S (S (readings s))) s)))).
  assert (nodes s1 = <[counter s := rn n0]> (nodes s)) as Hn1 by apply alter_insert_same.
  assert (heap_cores s1 = <[counter s := Core [] None (MkKey [] None false) (Some []) 1 (Some [])]> (heap_cores s))
    as Hg1 by (unfold heap_cores; rewrite Hn1; by rewrite fmap_insert).
  assert (forall q, radix_inv (upd_events q s1) {[counter s]} []) as Hinv.
  { intros q. unfold radix_inv. change (heap_cores (upd_events q s1)) with (heap_cores s1). rewrite Hg1.
    change (params (upd_events q s1)) with (params s). change (root_node (upd_events q s1)) with (counter s).
    apply inv_empty; [done|by rewrite lookup_insert_eq|].
    intros x Hx. rewrite lookup_insert_is_Some in Hx. simpl. destruct Hx as [->|[_ Hx]]; [lia|].
    unfold heap_cores in Hx. rewrite lookup_fmap, fmap_is_Some in Hx. specialize (Hfresh x Hx). lia. }
  assert (exists q, reset monotonic s = (Ok tt, upd_events q s1)) as [q Hr].
  { unfold reset, record_all_cleared_event. unfold s1. destruct s as [prm ? ? ? ? ? ? evs ? ?].
    destruct (enable_kv_cache_events prm) eqn:He.
    - exists (fun q => q ++ [AllBlocksCleared]). run_unfold. simpl. rewrite He. done.
    - exists (fun q => q). run_unfold. simpl. rewrite He. done. }
  exists (upd_events q s1). split_and!; done.
Qed.

(** The constructor, for a known eviction policy, and [reset], on a cache
    in any consistent state, give a consistent empty cache: only the root is
    live, nothing is held, both sizes are 0 and nothing but the empty prefix
    is cached; an unknown policy is refused. *)
Theorem reset_spec :
  (forall dis ps ev eagle nofin policy (a : A), (0 < ps)%nat ->
    match RadixCache_init monotonic dis ps ev eagle nofin policy a with
    | Ok s => radix_inv s {[root_node s]} [] /\ evictable_size s = 0 /\ protected_size s = 0 /\
        allocator s = a /\ strategy_of_policy policy = Ok (eviction_strategy (params s))
    | Raise e => exn_type e = ValueError /\
        policy ∉ ["lru"; "lfu"; "fifo"; "mru"; "filo"; "priority"; "slru"]
    end) /\
  forall s L H', radix_inv s L H' ->
    exists s', reset monotonic s = (Ok tt, s') /\ radix_inv s' {[root_node s']} [] /\
      params s' = params s /\ allocator s' = allocator s /\
      evictable_size s' = 0 /\ protected_size s' = 0 /\
      forall w v, content s' {[root_node s']} w v <-> w = [] /\ v = [].
Proof.
  split.
  - intros dis ps ev eagle nofin policy a Hps. unfold RadixCache_init.
    destruct (strategy_of_policy policy) as [st|e] eqn:Est; cycle 1.
    { unfold strategy_of_policy in Est. repeat case_decide; simplify_eq. split; [done|]. set_solver. }
    set (s0 := MkCache (MkParams dis ps ev eagle nofin st) ∅ 0 0 0 0 ∅ [] 0 a).
    destruct (reset_run s0 Hps) as (s' & Hr & Hi & Hp & Ha & _ & He & Hpr).
    { intros x [n Hn]. simpl in Hn. by rewrite lookup_empty in Hn. }
    rewrite Hr. split_and!; try done. by rewrite Hp.
  - intros s L H' Hinv. destruct (reset_run s) as (s' & Hr & Hi & Hp & Ha & Hrt & He & Hpr).
    { exact (i_ps _ _ _ _ _ _ _ _ _ Hinv). }
    { intros x [n Hn]. apply (i_fresh _ _ _ _ _ _ _ _ _ Hinv). rewrite (cores_lookup _ _ _ Hn). eauto. }
    exists s'. split_and!; try done. intros w v. split.
    + intros (x & l & w' & v' & Hx & Hu & Hw & ->). apply elem_of_singleton in Hx as ->.
      apply up_root_inv in Hu as (-> & -> & ->). apply prefix_nil_inv in Hw as ->. by rewrite take_nil.
    + intros [-> ->]. exists (root_node s'), [], [], []. split_and!; [set_solver|constructor|done|done].
Qed.

End total.

(** *** Traversals *)

(** A depth-first traversal of a tree, as the code of both prefix caches
    writes it: a stack of nodes, from which the last one is taken and replaced
    by its children. *)
Section walk.
Context {ps r : nat} {g : cores} {L : gset nat}.

(** The traversal after the nodes of [V] have been visited. *)
Record traversed (V : gset nat) (stack : list nat) : Prop := Traversed {
  tr_nodup : NoDup stack;
  tr_live x : x ∈ stack -> x ∈ L;
  tr_visited x : x ∈ V -> x ∈ L /\ x ∉ stack;
  tr_root : r ∈ V \/ r ∈ stack;
  tr_parent x n p : x ∈ V \/ x ∈ stack -> x ≠ r -> g !! x = Some n -> co_parent n = Some p -> p ∈ V;
  tr_children x n c y : x ∈ V -> g !! x = Some n -> dict_get (co_children n) c = Some y -> y ∈ V \/ y ∈ stack
}.

Hypothesis Hs : shape ps r g L.

(** The children of a live node are all live objects, and distinct. *)
Lemma walk_live_children (live : nat -> bool) x n :
  (forall y m, g !! y = Some m -> is_Some (co_value m) -> live y = true) -> x ∈ L -> g !! x = Some n ->
  List.filter live (dict_values (co_children n)) = dict_values (co_children n) /\ NoDup (dict_values (co_children n)).
Proof.
  intros Hl Hx Hg. pose proof (sh_wf _ _ _ _ Hs x _ Hx Hg) as Hwf.
  assert (forall c y, (c, y) ∈ co_children n -> dict_get (co_children n) c = Some y) as Hget
    by (intros; by apply dict_elem_get).
  assert (forall c y, (c, y) ∈ co_children n -> live y = true /\
    exists m, g !! y = Some m /\ head (pages ps (co_key m)) = Some c) as Hlive.
  { intros c y Hc. destruct (sh_child _ _ _ _ Hs x n c y Hx Hg (Hget c y Hc)) as (Hy & Hyr & m & Hm & _ & Hh).
    destruct (shape_node_ok _ _ _ _ _ _ Hs Hy Hyr Hm) as (_ & _ & Hu). split; [by eapply Hl|by exists m]. }
  clear Hget. unfold dict_values, dict_wf, dict_keys in *. induction (co_children n) as [|[c y] d IH];
    [split; [done|constructor]|].
  simpl in *. apply NoDup_cons in Hwf as [Hc Hwf].
  destruct IH as [IH1 IH2]; [done|intros c' y' Hin; apply Hlive; by right|].
  destruct (Hlive c y ltac:(left)) as (Hcl & m & Hm & Hh).
  split; [cbn; rewrite Hcl; by f_equal|].
  constructor; [|done]. intros Hin. apply list_elem_of_fmap in Hin as ([c' y'] & Ey & Hin). simpl in Ey. subst y'.
  destruct (Hlive c' y ltac:(by right)) as (_ & m' & Hm' & Hh'). rewrite Hm in Hm'. injection Hm' as <-.
  rewrite Hh in Hh'. injection Hh' as <-. apply Hc. apply list_elem_of_fmap. by exists (c, y).
Qed.

Lemma traversed_step V x stack n :
  traversed V (x :: stack) -> g !! x = Some n -> traversed (V ∪ {[x]}) (rev (dict_values (co_children n)) ++ stack).
Proof.
  intros [Hnd Hlive Hvis Hroot Hpar Hch] Hg.
  assert (x ∈ L) as Hx by (apply Hlive; left).
  apply NoDup_cons in Hnd as [Hxs Hnd].
  destruct (walk_live_children (fun _ => true) x n) as [_ Hndv]; [done..|].
  pose proof (sh_wf _ _ _ _ Hs x _ Hx Hg) as Hwf.
  assert (x ∉ V) as HxV by (intros HxV; destruct (Hvis x HxV); set_solver).
  assert (forall y, y ∈ rev (dict_values (co_children n)) <-> y ∈ dict_values (co_children n)) as Hrev
    by (intros y; by rewrite !list_elem_of_In, <-in_rev).
  assert (forall y, y ∈ dict_values (co_children n) -> y ∈ L /\ y ≠ r /\ y ∉ V /\ y ≠ x /\ y ∉ stack /\
    exists m, g !! y = Some m /\ co_parent m = Some x) as Hkid.
  { intros y Hy. apply list_elem_of_fmap in Hy as ([c y'] & -> & Hin). simpl.
    apply dict_elem_get in Hin; [|done].
    destruct (sh_child _ _ _ _ Hs x n c y' Hx Hg Hin) as (HyL & Hyr & m & Hm & Hp & _).
    assert (y' ∉ V) as HyV by (intros HyV; by apply HxV, (Hpar y' m x (or_introl HyV) Hyr Hm Hp)).
    assert (y' ∉ x :: stack) as Hys by (intros Hys; by apply HxV, (Hpar y' m x (or_intror Hys) Hyr Hm Hp)).
    apply not_elem_of_cons in Hys as [Hyx Hys]. split_and!; try done. by exists m. }
  split.
  - apply NoDup_app. split_and!; [by rewrite <-Permutation_rev| |done]. intros y Hy. apply Hrev, Hkid in Hy. naive_solver.
  - intros y [Hy|Hy]%elem_of_app; [apply Hrev, Hkid in Hy; naive_solver|apply Hlive; by right].
  - intros y [Hy| ->%elem_of_singleton]%elem_of_union.
    + destruct (Hvis y Hy) as [HyL Hys]. split; [done|]. rewrite not_elem_of_app. split; [|set_solver].
      intros Hy'. apply Hrev, Hkid in Hy'. naive_solver.
    + split; [done|]. rewrite not_elem_of_app. split; [|done]. intros Hy'. apply Hrev, Hkid in Hy'. naive_solver.
  - set_solver.
  - intros y m p Hy Hyr Hm Hp. rewrite elem_of_union, elem_of_singleton.
    destruct Hy as [[Hy| ->%elem_of_singleton]%elem_of_union|[Hy|Hy]%elem_of_app].
    + left. by apply (Hpar y m p); [left|..].
    + left. by apply (Hpar x m p); [right; left|..].
    + right. apply Hrev, Hkid in Hy as (_ & _ & _ & _ & _ & m' & Hm' & Hp'). congruence.
    + left. by apply (Hpar y m p); [right; right|..].
  - intros y m c z [Hy| ->%elem_of_singleton]%elem_of_union Hm Hc.
    + destruct (Hch y m c z Hy Hm Hc) as [Hz|Hz]; [set_solver|].
      apply elem_of_cons in Hz as [->|Hz]; set_solver.
    + rewrite Hg in Hm. injection Hm as <-. right. apply elem_of_app. left. apply Hrev.
      by eapply dict_get_value.
Qed.

(** A traversal whose stack is empty has visited the whole tree. *)
Lemma traversed_all V : traversed V [] -> V = L.
Proof.
  intros [_ _ Hvis Hroot _ Hch].
  apply set_eq. intros x. split; [by intros [? _]%Hvis|]. intros Hx.
  destruct (sh_up _ _ _ _ Hs x Hx) as (l & w & v & Hu).
  induction Hu as [|x n p l w v Hne Hn Hp Hu IH]; [by destruct Hroot as [?|?%elem_of_nil]|].
  destruct (sh_node _ _ _ _ Hs x Hx Hne) as (n' & p' & pn & c & Hn' & _ & Hp' & HpL & Hpn & _ & Hc).
  simplify_eq. by destruct (Hch p pn c x (IH HpL) Hpn Hc) as [?|?%elem_of_nil].
Qed.

(** The root alone on the stack. *)
Lemma traversed_start : traversed ∅ [r].
Proof.
  split; try set_solver.
  - apply NoDup_singleton.
  - intros x ->%list_elem_of_singleton. apply (sh_root_in _ _ _ _ Hs).
Qed.

(** What one more visited node costs. *)
Lemma traversed_size V x stack :
  traversed V (x :: stack) -> (size L - size (V ∪ {[x]}) < size L - size V)%nat.
Proof.
  intros Htr. assert (x ∉ V) as HxV by (intros HxV; destruct (tr_visited _ _ Htr x HxV); set_solver).
  assert (size (V ∪ {[x]}) <= size L)%nat.
  { apply subseteq_size. intros y [Hy| ->%elem_of_singleton]%elem_of_union; [by apply (tr_visited _ _ Htr)|].
    apply (tr_live _ _ Htr). left. }
  rewrite size_union in * by set_solver. rewrite size_singleton in *. lia.
Qed.
End walk.
Arguments traversed : clear implicits.

Section traversal.
Context {A : Type}.
Implicit Types (s : RadixCache A) (L : gset nat).
Abbreviation psz s := (page_size (params s)).
Abbreviation walked s L := (traversed (root_node s) (heap_cores s) L).

Definition value_len s (x : nat) : Z :=
  match heap_cores s !! x with Some n => len (co_val n) | None => 0 end.

Lemma live_filter s L H' x n :
  radix_inv s L H' -> x ∈ L -> nodes s !! x = Some n ->
  List.filter (child_live s) (dict_values (children n)) = dict_values (children n).
Proof.
  intros Hinv Hx Hn. apply (walk_live_children (i_shape _ _ _ _ _ _ _ _ _ Hinv) (child_live s) x (core n));
    [|done|by apply cores_lookup].
  intros y m Hm [v Hv]. destruct (cores_lookup_inv s y m Hm) as (m0 & Hm0 & <-).
  unfold child_live, evicted. rewrite Hm0. simpl in Hv. by rewrite Hv.
Qed.

Lemma total_size_loop_run s L H' fuel V stack :
  radix_inv s L H' -> walked s L V stack -> (size L - size V < fuel)%nat ->
  total_size_loop fuel stack (set_sum (value_len s) V) s = (Ok (set_sum (value_len s) L), s).
Proof.
  intros Hinv. revert V stack. induction fuel as [|fuel IH]; [lia|]. intros V stack Htr Hfuel.
  destruct stack as [|x stack]; simpl.
  { by rewrite (traversed_all (i_shape _ _ _ _ _ _ _ _ _ Hinv) V Htr). }
  assert (x ∈ L) as Hx by (apply (tr_live _ _ Htr); left).
  assert (x ∉ V) as HxV by (intros HxV; destruct (tr_visited _ _ Htr x HxV); set_solver).
  pose proof (i_shape _ _ _ _ _ _ _ _ _ Hinv) as Hs.
  destruct (shape_lookup _ _ _ _ x Hs Hx) as [m Hm]. destruct (cores_lookup_inv s x m Hm) as (n & Hn & <-).
  assert (exists v, value n = Some v) as [v Hv].
  { destruct (decide (x = root_node s)) as [->|Hne].
    - destruct (sh_root _ _ _ _ Hs) as (rc & Hrc & _ & _ & Hrv). rewrite Hm in Hrc. injection Hrc as <-. eauto.
    - by destruct (shape_node_ok _ _ _ _ _ _ Hs Hx Hne Hm) as (_ & _ & ?). }
  rewrite (bind_ok _ _ _ _ _ (node_at_run s x n Hn)). cbv beta.
  rewrite (bind_ok _ _ s s v) by (unfold value_at; by rewrite Hv). cbv beta.
  erewrite bind_ok by reflexivity. cbv beta.
  rewrite (live_filter s L H' x n Hinv Hx Hn).
  replace (set_sum (value_len s) V + len v) with (set_sum (value_len s) (V ∪ {[x]})).
  - pose proof (traversed_size Hs _ _ _ Htr). apply IH; [exact (traversed_step Hs _ _ _ _ Htr Hm)|lia].
  - rewrite set_sum_add by done. unfold value_len at 1. rewrite Hm. unfold co_val. simpl. rewrite Hv. simpl. lia.
Qed.

(** The lengths of the values of the live nodes add up to the two counters. *)
Lemma value_len_sizes s L H' :
  radix_inv s L H' -> set_sum (value_len s) L = evictable_size s + protected_size s.
Proof.
  intros Hinv. pose proof (i_shape _ _ _ _ _ _ _ _ _ Hinv) as Hs.
  unfold evictable_size, protected_size. rewrite (i_ev _ _ _ _ _ _ _ _ _ Hinv), (i_prot _ _ _ _ _ _ _ _ _ Hinv).
  rewrite (set_sum_remove _ (root_node s)) by apply (sh_root_in _ _ _ _ Hs).
  destruct (sh_root _ _ _ _ Hs) as (rc & Hrc & _ & _ & Hrv).
  replace (value_len s (root_node s)) with 0 by (unfold value_len, co_val; by rewrite Hrc, Hrv).
  rewrite <-set_sum_plus, Z.add_0_l. apply set_sum_ext. intros x [Hx Hxr]%elem_of_difference.
  assert (x ≠ root_node s) as Hne by set_solver. destruct (shape_lookup _ _ _ _ x Hs Hx) as [n Hn].
  destruct (shape_node_ok _ _ _ _ _ _ Hs Hx Hne Hn) as (_ & Hlen & _).
  unfold value_len, size_if, unlocked, is_locked, len, co_len. rewrite Hn, Hlen.
  destruct (decide (co_lock n = 0)); repeat case_bool_decide; try done; lia.
Qed.

(** Every child of a live node is filed under the first page of its key. *)
Lemma check_children_run s L H' x n :
  radix_inv s L H' -> x ∈ L -> nodes s !! x = Some n ->
  check_children (psz s) (children n) s = (Ok tt, s).
Proof.
  intros Hinv Hx Hn. pose proof (i_shape _ _ _ _ _ _ _ _ _ Hinv) as Hs.
  pose proof (cores_lookup _ _ _ Hn) as Hg. pose proof (sh_wf _ _ _ _ Hs x _ Hx Hg) as Hwf. simpl in Hwf.
  assert (forall c y, (c, y) ∈ children n -> exists m, nodes s !! y = Some m /\ child_key (psz s) (key m) = Ok c) as Hc.
  { intros c y Hin%dict_elem_get; [|done].
    destruct (sh_child _ _ _ _ Hs x (core n) c y Hx Hg Hin) as (Hy & Hyr & m & Hm & _ & Hh).
    destruct (shape_node_ok _ _ _ _ _ _ Hs Hy Hyr Hm) as (Hal & _).
    destruct (cores_lookup_inv s y m Hm) as (m0 & Hm0 & <-). exists m0. split; [done|]. simpl in Hh.
    pose proof (i_ps _ _ _ _ _ _ _ _ _ Hinv) as Hps.
    destruct (child_key_page (psz s) Hps (key m0) (pages_head_unit (psz s) Hps _ c Hal Hh)) as (c' & Hc' & Hh').
    rewrite Hh in Hh'. by injection Hh' as <-. }
  clear Hwf Hg. induction (children n) as [|[c y] d IH]; [done|]. simpl.
  destruct (Hc c y ltac:(left)) as (m & Hm & Hk).
  rewrite (bind_ok _ _ _ _ _ (node_at_run s y m Hm)). cbv beta. rewrite Hk.
  erewrite bind_ok by reflexivity. cbv beta. rewrite decide_True by done.
  apply IH. intros c' y' Hin. apply Hc. by right.
Qed.

Lemma print_loop_run s L H' fuel V stack :
  radix_inv s L H' -> walked s L V stack -> (size L - size V < fuel)%nat ->
  print_loop fuel stack s = (Ok tt, s).
Proof.
  intros Hinv. revert V stack. induction fuel as [|fuel IH]; [lia|]. intros V stack Htr Hfuel.
  destruct stack as [|x stack]; [done|]. simpl. erewrite bind_ok by reflexivity. cbv beta.
  assert (x ∈ L) as Hx by (apply (tr_live _ _ Htr); left).
  pose proof (i_shape _ _ _ _ _ _ _ _ _ Hinv) as Hs.
  destruct (shape_lookup _ _ _ _ x Hs Hx) as [m Hm]. destruct (cores_lookup_inv s x m Hm) as (n & Hn & <-).
  rewrite (bind_ok _ _ _ _ _ (node_at_run s x n Hn)). cbv beta.
  rewrite (bind_ok _ _ _ _ _ (check_children_run s L H' x n Hinv Hx Hn)).
  pose proof (traversed_size Hs _ _ _ Htr). eapply IH; [exact (traversed_step Hs _ _ _ _ Htr Hm)|lia].
Qed.

Lemma total_size_run s L H' :
  radix_inv s L H' -> total_size s = (Ok (evictable_size s + protected_size s), s).
Proof.
  intros Hinv. assert (size L <= size (nodes s))%nat as Hsz by (by eapply live_size).
  unfold total_size. erewrite bind_ok by reflexivity. cbv beta. erewrite bind_ok by reflexivity. cbv beta.
  rewrite <-(value_len_sizes s L H' Hinv), <-(total_size_loop_run s L H' (S (size (nodes s))) ∅ [root_node s]);
    [by rewrite set_sum_empty|done|exact (traversed_start (i_shape _ _ _ _ _ _ _ _ _ Hinv))|rewrite size_empty; lia].
Qed.

Lemma pretty_print_run s L H' : radix_inv s L H' -> pretty_print s = (Ok tt, s).
Proof.
  intros Hinv. assert (size L <= size (nodes s))%nat as Hsz by (by eapply live_size).
  unfold pretty_print. erewrite bind_ok by reflexivity. cbv beta. erewrite bind_ok by reflexivity. cbv beta.
  erewrite bind_ok; [|eapply print_loop_run; [done|exact (traversed_start (i_shape _ _ _ _ _ _ _ _ _ Hinv))|rewrite size_empty; lia]].
  by rewrite (bind_ok _ _ _ _ _ (total_size_run s L H' Hinv)).
Qed.

(** on a consistent cache [total_size] visits every live node exactly
    once and returns, without error and without changing the cache, the sum
    of [evictable_size] and [protected_size]: the two counters, maintained
    incrementally by insertion, locking and eviction, never drift from the
    tree.  The assertion of [pretty_print], that every child is filed under
    the first page of its key, never fails. *)
Theorem total_size_spec s L H' :
  radix_inv s L H' ->
  total_size s = (Ok (evictable_size s + protected_size s), s) /\ pretty_print s = (Ok tt, s).
Proof. split; [by eapply total_size_run|by eapply pretty_print_run]. Qed.
End traversal.
