(* ===== verification/RadixSlots.v ===== *)
(** * The prefix cache: where the slots are

    The KV slots the tree holds, counted per slot: [tree_occ s L i] is the
    number of times slot [i] occurs in the values of the live nodes.  A split
    moves slots between two nodes, an insertion adds the slots of its new
    leaf, an eviction removes the slots of its victims, and locking moves
    nothing.  These laws carry the conservation theorems of RadixReqFacts.v. *)

From S2P Require Import Prelude PyDict RadixKey KvEvents RadixTree RadixOps RadixInv RadixMoves.
From S2P Require Import RadixState RadixLocks RadixRun RadixEvents RadixInsert RadixSpec RadixEvict.
From S2P Require Import RadixLockOps.

(** ** Occurrences in a list *)

Definition occ (i : Z) (l : list Z) : Z := len (filter (fun j => j = i) l).

Lemma occ_app i l1 l2 : occ i (l1 ++ l2) = occ i l1 + occ i l2.
Proof. unfold occ. by rewrite filter_app, len_app. Qed.

Lemma occ_take_drop i n l : occ i (take n l) + occ i (drop n l) = occ i l.
Proof. by rewrite <-occ_app, take_drop. Qed.

Lemma occ_perm i l1 l2 : l1 ≡ₚ l2 -> occ i l1 = occ i l2.
Proof. intros Hp. unfold occ, len. by rewrite Hp. Qed.

Lemma occ_nil i : occ i [] = 0.
Proof. done. Qed.

Lemma occ_nonneg i l : 0 <= occ i l.
Proof. apply len_nonneg. Qed.

Lemma occ_elem i l : 0 < occ i l <-> i ∈ l.
Proof.
  unfold occ. split.
  - intros Hp. destruct (filter (fun j => j = i) l) as [|j l'] eqn:E; [done|].
    assert (j ∈ filter (fun j => j = i) l) as [-> Hj]%list_elem_of_filter by (rewrite E; left). done.
  - intros Hi. assert (i ∈ filter (fun j => j = i) l) as Hf by (by apply list_elem_of_filter).
    destruct (filter (fun j => j = i) l); [by apply elem_of_nil in Hf|]. unfold len. simpl. lia.
Qed.

#[export] Hint Rewrite occ_app occ_nil : occ.

(** ** Live nodes are determined by the heap *)

Lemma shape_unique ps r g L1 L2 : shape ps r g L1 -> shape ps r g L2 -> L1 = L2.
Proof.
  assert (forall L L', shape ps r g L -> shape ps r g L' -> L ⊆ L') as Hsub.
  { intros L L' Hs Hs' x Hx. destruct (sh_up _ _ _ _ Hs x Hx) as (l & w & v & Hu).
    induction Hu as [|x n p l w v Hne Hn Hp Hu IH]; [apply (sh_root_in _ _ _ _ Hs')|].
    destruct (sh_node _ _ _ _ Hs x Hx Hne) as (n' & p' & pn & c & Hn' & _ & Hp' & HpL & Hpn & _ & Hc).
    simplify_eq. by destruct (sh_child _ _ _ _ Hs' p pn c x (IH HpL) Hpn Hc). }
  intros H1 H2. apply set_eq. intros x. split; by apply Hsub.
Qed.

(** ** The slots of a heap *)

Definition core_occ (i : Z) (g : cores) (x : nat) : Z :=
  match g !! x with Some n => occ i (co_val n) | None => 0 end.

Lemma core_occ_place i g g' x n n' :
  g !! x = Some n -> g' !! x = Some n' -> place n' = place n -> core_occ i g' x = core_occ i g x.
Proof.
  intros Hn Hn' [= _ _ Ev]. unfold core_occ. rewrite Hn, Hn'. unfold co_val. by rewrite Ev.
Qed.

Lemma split_occ {A} {u u' : view_t A} {L H y i m p pn ck c' h1 h2} j :
  view_inv u L H -> split_of u L y i m p pn ck c' h1 h2 u' ->
  set_sum (core_occ j (v_cores u')) (L ∪ {[v_counter u]}) = set_sum (core_occ j (v_cores u)) L.
Proof.
  intros Hinv Hsp. destruct Hsp as [HyL Hyr Hm Hp Hpn Hh Hr Hi Hhash ->]. simpl.
  pose proof (i_shape _ _ _ _ _ _ _ _ _ Hinv) as Hs.
  destruct (inv_fresh_none _ _ _ _ _ _ _ _ _ Hinv) as [Hnew HnewL].
  rewrite set_sum_add by done. rewrite !(set_sum_remove _ y L) by done.
  rewrite (set_sum_ext _ (core_occ j (v_cores u)) (L ∖ {[y]})).
  - unfold core_occ at 1 2 4. rewrite (split_get_new y i p m pn ck c' h1 h2 Hinv) by done.
    rewrite (split_get_y y i p m pn ck c' h1 h2 Hinv), Hm by done. unfold co_val at 1 2. simpl.
    rewrite <-(occ_take_drop j (i * page_size (v_params u)) (co_val m)). lia.
  - intros x [Hx Hxy]%elem_of_difference. destruct (shape_lookup _ _ _ _ x Hs Hx) as [n Hn].
    destruct (split_old y i p m pn ck c' h1 h2 Hinv HyL Hyr Hm Hp Hpn Hh Hr Hi x n Hn) as (n' & Hn' & Hpl & _).
    eapply core_occ_place; [done..|]. apply Hpl. set_solver.
Qed.

Lemma add_occ {prm g cnt r ev prot E L H} q qn c k v0 h j :
  inv_at prm g cnt r ev prot E L H -> g !! q = Some qn -> dict_get (co_children qn) c = None ->
  set_sum (core_occ j (add_cores g q cnt qn c k v0 h)) (L ∪ {[cnt]}) =
  set_sum (core_occ j g) L + occ j v0.
Proof.
  intros Hinv Hq Hc. pose proof (i_shape _ _ _ _ _ _ _ _ _ Hinv) as Hs.
  destruct (inv_fresh_none _ _ _ _ _ _ _ _ _ Hinv) as [Hnew HnewL].
  rewrite set_sum_add by done. rewrite (set_sum_ext _ (core_occ j g) L).
  - unfold core_occ at 1. rewrite (add_get_new q qn c k v0 h Hinv Hq). unfold leaf_core, co_val. simpl. lia.
  - intros x Hx. destruct (shape_lookup _ _ _ _ x Hs Hx) as [n Hn].
    destruct (add_old q qn c k v0 h Hinv Hq Hc x n Hn) as (n' & Hn' & Hpl & _).
    by eapply core_occ_place.
Qed.

Lemma cut_occ {prm g cnt r ev prot E L H} x p n pn c j :
  inv_at prm g cnt r ev prot E L H -> x ∈ E -> g !! x = Some n -> co_parent n = Some p ->
  g !! p = Some pn -> head (pages (page_size prm) (co_key n)) = Some c ->
  set_sum (core_occ j (cut_cores g p pn c)) (L ∖ {[x]}) + occ j (co_val n) = set_sum (core_occ j g) L.
Proof.
  intros Hinv HxE Hn Hp Hpn Hc. pose proof (i_shape _ _ _ _ _ _ _ _ _ Hinv) as Hs.
  destruct (cut_facts x p n pn c Hinv HxE Hn Hp Hpn Hc) as (HxL & _).
  rewrite (set_sum_remove _ x L) by done. rewrite (set_sum_ext _ (core_occ j g) (L ∖ {[x]})).
  - unfold core_occ at 2. rewrite Hn. lia.
  - intros y [Hy _]%elem_of_difference. destruct (shape_lookup _ _ _ _ y Hs Hy) as [m Hm].
    destruct (cut_old x p n pn c Hinv HxE Hn Hp Hpn Hc y m Hm) as (m' & Hm' & Hpl & _).
    by eapply core_occ_place.
Qed.

Lemma relock_occ d l g x j : core_occ j (relock d l g) x = core_occ j g x.
Proof.
  induction l as [|y l IH]; [done|]. rewrite <-IH. unfold core_occ at 1. simpl.
  destruct (decide (x = y)) as [->|Hne].
  - rewrite lookup_alter_eq. unfold core_occ. by destruct (relock d l g !! y).
  - by rewrite lookup_alter_ne.
Qed.

(** ** The slots of a cache *)

Section slots.
Context {A : Type}.
Implicit Types (s : RadixCache A) (L : gset nat).
Abbreviation psz s := (page_size (params s)).

Definition tree_occ s L (i : Z) : Z := set_sum (core_occ i (heap_cores s)) L.

Lemma tree_occ_nonneg s L i : 0 <= tree_occ s L i.
Proof.
  apply set_sum_nonneg. intros x _. unfold core_occ. destruct (heap_cores s !! x); [apply occ_nonneg|lia].
Qed.

Lemma live_unique s L1 L2 H1 H2 : radix_inv s L1 H1 -> radix_inv s L2 H2 -> L1 = L2.
Proof.
  intros Hi1 Hi2. eapply shape_unique; [exact (i_shape _ _ _ _ _ _ _ _ _ Hi1)|
    exact (i_shape _ _ _ _ _ _ _ _ _ Hi2)].
Qed.

Lemma landed_occ s L H' st last s' L' i :
  radix_inv s L H' -> landed (view s) L st last (view s') -> radix_inv s' L' H' ->
  tree_occ s' L' i = tree_occ s L i.
Proof.
  intros Hinv Hland Hinv'. unfold tree_occ. destruct st as [y|y k].
  - destruct Hland as [_ Hv]. assert (radix_inv s' L H') as Hi by (by eapply view_eq_inv).
    rewrite (live_unique _ _ _ _ _ Hinv' Hi). by injection Hv as _ -> _.
  - destruct Hland as (_ & m & p & pn & ck & c' & h1 & h2 & Hsp).
    pose proof (split_of_inv (proj1 (radix_inv_view _ _ _) Hinv) Hsp) as Hi.
    apply radix_inv_view in Hi. rewrite (live_unique _ _ _ _ _ Hinv' Hi).
    exact (split_occ i (proj1 (radix_inv_view _ _ _) Hinv) Hsp).
Qed.

Lemma inserted_occ s L H' w v n s' L' i :
  radix_inv s L H' -> inserted s L w v n s' -> radix_inv s' L' H' -> length v = (length w * psz s)%nat ->
  tree_occ s' L' i = tree_occ s L i + occ i (drop (n * psz s) v).
Proof.
  intros Hinv Hins Hinv' Hlv.
  destruct Hins as [v0 st last Hdesc Hn Hland|v0 st q s1 qn ck k h evs Hdesc Hn Hland Hqn Hfree Ha Hpk Hck Hl Hv' Hh].
  - rewrite (landed_occ s L H' st last s' L' i) by done. rewrite drop_ge by lia. rewrite occ_nil. lia.
  - destruct (landed_spec s L H' _ _ _ _ _ _ Hinv Hdesc Hland) as (L1 & l & Hi & _ & Hq & Hp & _).
    simpl in Hp. assert (radix_inv s1 L1 H') as Hi1 by done.
    rewrite <-(landed_occ s L H' st q s1 L1 i) by done.
    assert (view_inv (view s') (L1 ∪ {[counter s1]}) H') as Hi'.
    { rewrite <-Hp in Ha, Hck, Hh. rewrite Hv'. apply added_inv; try done. intros He. by apply Hh. }
    apply radix_inv_view in Hi'. rewrite (live_unique _ _ _ _ _ Hinv' Hi'). unfold tree_occ.
    injection Hv' as _ -> _. by apply (add_occ q qn ck k _ h i Hi1).
Qed.

Lemma relocked_occ s s' L d l i :
  heap_cores s' = relock d l (heap_cores s) -> tree_occ s' L i = tree_occ s L i.
Proof. intros E. unfold tree_occ. rewrite E. apply set_sum_ext. intros x _. apply relock_occ. Qed.

Lemma view_occ s s' L i : view s' = view s -> tree_occ s' L i = tree_occ s L i.
Proof. intros Hv. unfold tree_occ. by injection Hv as _ -> _. Qed.

Context `{KvFree A}.

Lemma evict_step_occ s L H' x v s1 i :
  radix_inv s L H' -> evict_step s L x v s1 -> tree_occ s1 (L ∖ {[x]}) i + occ i v = tree_occ s L i.
Proof.
  intros Hinv [Hfirst HxL (n & Hn & Hv & _) _ (m & p & pn & c & evs & Hm & Hp & Hpn & Hc & _ & Hview)].
  rewrite (cores_lookup _ _ _ Hn) in Hm. injection Hm as <-.
  unfold tree_occ. injection Hview as _ -> _. simpl.
  replace v with (co_val (core n)) by (unfold co_val; simpl; by rewrite Hv).
  eapply (cut_occ x p (core n) pn c i Hinv); try done; [apply Hfirst|by apply cores_lookup].
Qed.

Lemma evictions_occ s L H' ls s' L' i :
  evictions s L ls s' L' -> radix_inv s L H' ->
  tree_occ s' L' i + occ i (concat ls) = tree_occ s L i.
Proof.
  induction 1 as [s L|s L x v s1 ls s' L' Hstep Hrest IH]; intros Hinv; simpl.
  - rewrite occ_nil. lia.
  - rewrite <-(evict_step_occ s L H' x v s1 i Hinv Hstep), <-IH by (by eapply evict_step_inv).
    rewrite occ_app. lia.
Qed.
End slots.
