(* ===== verification/RadixReq.v ===== *)
(** * The prefix cache: requests

    The entry points through which the scheduler hands a request's KV slots to
    the prefix cache: [cache_finished_req] and [cache_unfinished_req] of
    mem_cache/radix_cache.py, [release_kv_cache] and
    [maybe_cache_unfinished_req] of mem_cache/common.py, the bookkeeping of
    [Req] (managers/schedule_batch.py) they use, and [ReqToTokenPool]
    (mem_cache/memory_pool.py), the table of slots per request.

    [req_to_token] has 32-bit entries, the cache has 64-bit indices: a write
    wraps.  [kv_indices] is a view of the request's row, so it is read again
    after the row has been written.  [free] gets the values at the time of the
    call, which is what the allocator stores outside of a free group. *)

From S2P Require Import Prelude PyDict RadixKey KvEvents RadixTree RadixOps.

(** [Req]: the fields the cache reads and writes *)
Record Req := MkReq {
  origin_input_ids : list Z;
  output_ids : list Z;
  fill_ids : list Z;
  req_extra_key : option string;
  req_priority : option Z;
  req_pool_idx : option nat;
  prefix_indices : list Z;
  cache_protected_len : nat;
  last_node : option nat;
  kv_committed_len : nat;
  kv_allocated_len : nat;
  kv_committed_freed : bool;
  kv_overallocated_freed : bool;
  reasoning_tokens : Z;
  inflight_middle_chunks : Z;
  skip_radix_cache_insert : bool
}.

Definition set_pool_idx (i : option nat) (r : Req) : Req :=
  MkReq (origin_input_ids r) (output_ids r) (fill_ids r) (req_extra_key r) (req_priority r) i
    (prefix_indices r) (cache_protected_len r) (last_node r) (kv_committed_len r) (kv_allocated_len r)
    (kv_committed_freed r) (kv_overallocated_freed r) (reasoning_tokens r) (inflight_middle_chunks r)
    (skip_radix_cache_insert r).

Definition set_freed (c o : bool) (r : Req) : Req :=
  MkReq (origin_input_ids r) (output_ids r) (fill_ids r) (req_extra_key r) (req_priority r)
    (req_pool_idx r) (prefix_indices r) (cache_protected_len r) (last_node r) (kv_committed_len r)
    (kv_allocated_len r) c o (reasoning_tokens r) (inflight_middle_chunks r) (skip_radix_cache_insert r).

Definition set_cached (prefix : list Z) (protected : nat) (node : option nat) (r : Req) : Req :=
  MkReq (origin_input_ids r) (output_ids r) (fill_ids r) (req_extra_key r) (req_priority r)
    (req_pool_idx r) prefix protected node (kv_committed_len r) (kv_allocated_len r)
    (kv_committed_freed r) (kv_overallocated_freed r) (reasoning_tokens r) (inflight_middle_chunks r)
    (skip_radix_cache_insert r).

(** ** [ReqToTokenPool] *)

Record ReqToTokenPool := MkPool {
  pool_size : nat;
  max_context_len : nat;
  req_to_token : list (list Z);
  free_slots : list nat
}.

(** Row 0 is padding. *)
Definition pool_init (size max_context_len : nat) : ReqToTokenPool :=
  MkPool size max_context_len (replicate (S size) (replicate max_context_len 0)) (seq 1 size).

Definition pool_available (p : ReqToTokenPool) : nat := length (free_slots p).

Definition pool_clear (p : ReqToTokenPool) : ReqToTokenPool :=
  MkPool (pool_size p) (max_context_len p) (req_to_token p) (seq 1 (pool_size p)).

Definition has_row (r : Req) : bool := bool_decide (is_Some (req_pool_idx r)).

(** the loop of [alloc] that hands out [select_index] *)
Fixpoint assign_rows (reqs : list Req) (select_index : list nat) : list Req :=
  match reqs, select_index with
  | [], _ => []
  | r :: reqs', _ =>
      match req_pool_idx r, select_index with
      | None, i :: rest => set_pool_idx (Some i) r :: assign_rows reqs' rest
      | _, _ => r :: assign_rows reqs' select_index
      end
  end.

(** [ReqToTokenPool.alloc]: [None] when there are not enough rows; otherwise the
    requests with their rows *)
Definition pool_alloc (reqs : list Req) : M ReqToTokenPool (option (list Req)) := fun p =>
  let reusing := List.filter has_row reqs in
  if forallb (fun r => bool_decide (0 < inflight_middle_chunks r) || bool_decide (0 < kv_committed_len r)%nat)
       reusing
  then
    let need_size := (length reqs - length reusing)%nat in
    if decide (length (free_slots p) < need_size)%nat then (Ok None, p)
    else
      (Ok (Some (assign_rows reqs (take need_size (free_slots p)))),
       MkPool (pool_size p) (max_context_len p) (req_to_token p) (drop need_size (free_slots p)))
  else (Raise (Exn AssertionError "reusing request must be chunked or have committed KV"), p).

(** ** The state an entry point works on: the cache, the table, the request

    [T] is the state of the prefix cache: [RadixCache] here, [MambaRadixCache]
    in MambaReq.v. *)

Record ReqEnv (T : Type) := MkEnv { tree : T; pool : ReqToTokenPool; req : Req }.
Arguments MkEnv {T}.
Arguments tree {T}.
Arguments pool {T}.
Arguments req {T}.

(** A 64-bit index stored in a 32-bit table. *)
Definition to_int32 (z : Z) : Z := (z + 2 ^ 31) mod 2 ^ 32 - 2 ^ 31.

(** [l[a:b]] for [0 <= a] and [0 <= b] *)
Definition slice (a b : nat) (l : list Z) : list Z := take (b - a) (drop a l).

(** What the command line fixes. *)
Record ServerArgs := MkArgs {
  sa_page_size : nat;
  sa_speculative : bool;
  strip_thinking_cache : bool
}.

Definition ceil_align (x y : nat) : nat := ((x + y - 1) / y * y)%nat.

Section env.
Context {T : Type} (args : ServerArgs).
Abbreviation ME := (M (ReqEnv T)).
Implicit Types e : ReqEnv T.

Definition on_tree {B} (m : M T B) : ME B :=
  zoom tree (fun t e => MkEnv t (pool e) (req e)) m.

Definition upd_req (f : Req -> Req) : ME unit :=
  modify (fun e : ReqEnv T => MkEnv (tree e) (pool e) (f (req e))).

Definition upd_pool (f : ReqToTokenPool -> ReqToTokenPool) : ME unit :=
  modify (fun e : ReqEnv T => MkEnv (tree e) (f (pool e)) (req e)).

(** The request's row.  The entry points run on requests that own one. *)
Definition row_index : ME nat :=
  r ← gets (fun e : ReqEnv T => req e);
  match req_pool_idx r with
  | Some i => mret i
  | None => raise IndexError "request has no row"
  end.

Definition row_at (i : nat) : ME (list Z) :=
  rows ← gets (fun e : ReqEnv T => req_to_token (pool e));
  match rows !! i with
  | Some row => mret row
  | None => raise IndexError "index is out of bounds for dimension 0"
  end.

Definition set_row (i : nat) (row : list Z) : ME unit :=
  upd_pool (fun p => MkPool (pool_size p) (max_context_len p) (<[i := row]> (req_to_token p)) (free_slots p)).

(** [req_to_token_pool.write((i, slice(a, b)), values)]: one value is
    broadcast, otherwise the lengths must agree *)
Definition write_row (i a b : nat) (values : list Z) : ME unit :=
  row ← row_at i;
  let n := length (slice a b row) in
  if decide (length values = n) then set_row i (take a row ++ (to_int32 <$> values) ++ drop (a + n) row)
  else
    match values with
    | [x] => set_row i (take a row ++ replicate n (to_int32 x) ++ drop (a + n) row)
    | _ => raise RuntimeError "The expanded size of the tensor must match the existing size"
    end.

(** [Req._cache_commit_len] *)
Definition cache_commit_len (r : Req) : nat :=
  if strip_thinking_cache args && bool_decide (0 < reasoning_tokens r)
  then min (kv_committed_len r) (length (origin_input_ids r))
  else kv_committed_len r.

(** [Req.pop_committed_kv_cache] *)
Definition pop_committed_kv_cache : ME nat :=
  r ← gets (fun e : ReqEnv T => req e);
  if kv_committed_freed r then raise AssertionError "Committed KV cache already freed"
  else
    upd_req (fun r => set_freed true (kv_overallocated_freed r) r) ≫= fun _ =>
    mret (cache_commit_len r).

(** [Req.pop_overallocated_kv_cache] *)
Definition pop_overallocated_kv_cache : ME (nat * nat) :=
  r ← gets (fun e : ReqEnv T => req e);
  if kv_overallocated_freed r then raise AssertionError "Overallocated KV cache already freed"
  else
    upd_req (fun r => set_freed (kv_committed_freed r) true r) ≫= fun _ =>
    mret (cache_commit_len r, kv_allocated_len r).

(** [ReqToTokenPool.free] *)
Definition pool_free : ME unit :=
  r ← gets (fun e : ReqEnv T => req e);
  match req_pool_idx r with
  | None => raise AssertionError "request must have req_pool_idx"
  | Some i =>
      upd_pool (fun p => MkPool (pool_size p) (max_context_len p) (req_to_token p) (free_slots p ++ [i]))
        ≫= fun _ =>
      upd_req (set_pool_idx None)
  end.

(** The end of [release_kv_cache]: what is allocated beyond the committed part
    is freed and the row [i] goes back to the pool *)
Definition release_tail (free : list Z -> ME unit) (i : nat) : ME unit :=
  '(start_p, end_p) ← pop_overallocated_kv_cache;
  (if negb (sa_speculative args) && negb (strip_thinking_cache args) && negb (bool_decide (start_p = end_p))
   then raise AssertionError "Unexpected overallocated KV cache" else mret tt) ≫= fun _ =>
  let start_p' := if decide (1 < sa_page_size args)%nat then ceil_align start_p (sa_page_size args)
                  else start_p in
  (if decide (start_p' < end_p)%nat then row ← row_at i; free (slice start_p' end_p row) else mret tt)
    ≫= fun _ =>
  pool_free.
End env.

Section req.
Context {A : Type} `{KvFree A} `{Sha256} `{HeapQ} (monotonic : nat -> Z) (args : ServerArgs).
Abbreviation ME := (M (ReqEnv (RadixCache A))).
Implicit Types e : ReqEnv (RadixCache A).

Definition free (indices : list Z) : ME unit := on_tree (allocator_free indices).

(** [getattr(req, 'priority', 0) or 0] *)
Definition priority_or_0 (r : Req) : Z := default 0 (req_priority r).

(** The key under which the tokens of a request are cached. *)
Definition radix_key_of (prm : CacheParams) (r : Req) (tokens : list Z) : RadixKey :=
  page_aligned (page_size prm) (MkKey tokens (req_extra_key r) (is_eagle prm)).

(** [cache_finished_req] *)
Definition cache_finished_req (is_insert0 : bool) : ME unit :=
  prm ← gets (fun e : ReqEnv (RadixCache A) => params (tree e));
  let is_insert := if disable_finished_insert prm then false else is_insert0 in
  kv_committed_len ← pop_committed_kv_cache args;
  r ← gets (fun e : ReqEnv (RadixCache A) => req e);
  i ← row_index;
  row ← row_at i;
  if disable prm then free (take kv_committed_len row)
  else
    let token_ids := take kv_committed_len (origin_input_ids r ++ output_ids r) in
    let kv_indices := take (length token_ids) row in
    let radix_key := radix_key_of prm r token_ids in
    let klen := key_len radix_key in
    let values := take klen kv_indices in
    (if is_insert then
       prefix_len ← on_tree (insert monotonic radix_key (Some values) (Some (priority_or_0 r)) false);
       free (slice (cache_protected_len r) prefix_len kv_indices)
     else free (slice (cache_protected_len r) klen kv_indices)) ≫= fun _ =>
    free (drop klen kv_indices) ≫= fun _ =>
    match last_node r with
    | Some node => on_tree (dec_lock_ref node) ≫= fun _ => mret tt
    | None => mret tt
    end.

(** [cache_unfinished_req] *)
Definition cache_unfinished_req (chunked : bool) : ME unit :=
  prm ← gets (fun e : ReqEnv (RadixCache A) => params (tree e));
  if disable prm then mret tt
  else
    r ← gets (fun e : ReqEnv (RadixCache A) => req e);
    let token_ids := fill_ids r in
    i ← row_index;
    row ← row_at i;
    let kv_indices := take (length token_ids) row in
    let radix_key := radix_key_of prm r token_ids in
    let values := take (key_len radix_key) kv_indices in
    new_prefix_len ← on_tree (insert monotonic radix_key (Some values) (Some (priority_or_0 r)) chunked);
    free (slice (cache_protected_len r) new_prefix_len kv_indices) ≫= fun _ =>
    m ← on_tree (match_prefix monotonic radix_key);
    let new_indices := device_indices m in
    let new_last_node := last_device_node m in
    if decide (length new_indices = key_len radix_key) then
      write_row i (cache_protected_len r) (length new_indices) (drop (cache_protected_len r) new_indices)
        ≫= fun _ =>
      match last_node r with
      | None => raise AttributeError "'NoneType' object has no attribute 'lock_ref'"
      | Some node =>
          on_tree (dec_lock_ref node) ≫= fun _ =>
          on_tree (inc_lock_ref new_last_node) ≫= fun _ =>
          row' ← row_at i;
          let kv_indices' := take (length token_ids) row' in
          let prefix := if decide (length new_indices < length kv_indices')%nat
                        then new_indices ++ drop (length new_indices) kv_indices' else new_indices in
          upd_req (set_cached prefix (length new_indices) (Some new_last_node))
      end
    else raise AssertionError "len(new_indices) == len(radix_key)".

(** [maybe_cache_unfinished_req] *)
Definition maybe_cache_unfinished_req (chunked : bool) : ME unit :=
  r ← gets (fun e : ReqEnv (RadixCache A) => req e);
  if skip_radix_cache_insert r then mret tt else cache_unfinished_req chunked.

(** [release_kv_cache] for a [RadixCache], which does not manage mamba states,
    and a [ReqToTokenPool] without any *)
Definition release_kv_cache (is_insert : bool) : ME unit :=
  r ← gets (fun e : ReqEnv (RadixCache A) => req e);
  match req_pool_idx r with
  | None => raise AssertionError "Only MambaRadixCache allow freeing before alloc"
  | Some i =>
      cache_finished_req (is_insert && negb (skip_radix_cache_insert r)) ≫= fun _ =>
      release_tail args free i
  end.
End req.
