(* ===== verification/RadixReqFacts.v ===== *)
(** * The prefix cache: slot conservation

    A request owns the KV slots of its row beyond the prefix the tree protects
    for it.  The theorems of this file say that the entry points of RadixReq.v
    lose no slot and duplicate none: every slot the request owned is
    afterwards owned by the tree, still owned by the request, or freed, each
    exactly once; and that a request is handed back in the state the next
    call expects. *)

From S2P Require Import Prelude PyDict RadixKey KvEvents RadixTree RadixOps RadixInv RadixMoves.
From S2P Require Import RadixState RadixLocks RadixRun RadixEvents RadixInsert RadixSpec RadixEvict.
From S2P Require Import RadixLockOps RadixSlots RadixReq.

(** ** Slices and 32-bit indices *)

Lemma slices_split (a b c : nat) (l : list Z) :
  (a ≤ b)%nat -> (b ≤ c)%nat -> drop a l = slice a b l ++ drop b (take c l) ++ drop c l.
Proof.
  intros Hab Hbc. unfold slice. rewrite <-(take_drop (b - a) (drop a l)) at 1. f_equal.
  rewrite drop_drop. replace (a + (b - a))%nat with b by lia.
  rewrite <-(take_drop (c - b) (drop b l)) at 1. f_equal.
  - by rewrite skipn_firstn_comm.
  - rewrite drop_drop. f_equal. lia.
Qed.

Lemma length_slice a b (l : list Z) : (a ≤ b)%nat -> (b ≤ length l)%nat -> length (slice a b l) = (b - a)%nat.
Proof. intros Ha Hb. unfold slice. rewrite length_take, length_drop. lia. Qed.

Definition int32_range (z : Z) : Prop := - 2 ^ 31 <= z < 2 ^ 31.

Lemma to_int32_id z : int32_range z -> to_int32 z = z.
Proof. unfold int32_range, to_int32. intros Hz. rewrite Z.mod_small by lia. lia. Qed.

Lemma to_int32_list l : Forall int32_range l -> to_int32 <$> l = l.
Proof.
  intros Hl. transitivity (id <$> l); [|by rewrite list_fmap_id].
  apply list_fmap_ext. intros i x Hx. apply to_int32_id. by eapply Forall_lookup_1.
Qed.

(** ** The key of a request *)

Section key.
Context (prm : CacheParams) (Hps : (0 < page_size prm)%nat).
Implicit Types (r : Req) (tokens : list Z).

Lemma key_take_flag n k : is_bigram (key_take n k) = is_bigram k.
Proof. unfold key_take, key_slice. by destruct (is_bigram k). Qed.

Lemma key_take_idem n k : (n ≤ key_len k)%nat -> key_take n (key_take n k) = key_take n k.
Proof.
  intros Hn. assert (key_len (key_take n k) = n) as El by (rewrite key_take_len; lia).
  change (key_slice (key_take n k) 0 (n `min` key_len (key_take n k)) = key_take n k).
  rewrite El, Nat.min_id. unfold key_take. rewrite Nat.min_l by lia. unfold key_slice. destruct (is_bigram k) eqn:Eb; simpl.
  - f_equal. rewrite !drop_0. case_decide; [|done]. by rewrite take_take, Nat.min_id.
  - f_equal. by rewrite !drop_0, take_take, Nat.min_id.
Qed.

Lemma page_aligned_idem k : page_aligned (page_size prm) (page_aligned (page_size prm) k) =
  page_aligned (page_size prm) k.
Proof.
  unfold page_aligned. case_decide as H1; [done|].
  assert (key_len k / page_size prm * page_size prm ≤ key_len k)%nat as Hle
    by (rewrite Nat.mul_comm; apply Nat.Div0.mul_div_le).
  rewrite key_take_len, Nat.min_l, Nat.div_mul by lia. by apply key_take_idem.
Qed.

(** The key is already cut to whole pages, and has the right flag. *)
Lemma radix_key_query r tokens : query_key prm (radix_key_of prm r tokens) = radix_key_of prm r tokens.
Proof.
  unfold query_key, maybe_to_bigram_view.
  assert (is_bigram (radix_key_of prm r tokens) = is_eagle prm) as ->.
  { unfold radix_key_of, page_aligned. case_decide; [done|]. by rewrite key_take_flag. }
  rewrite andb_negb_r. simpl. unfold radix_key_of. apply page_aligned_idem.
Qed.

Lemma radix_key_value r tokens v :
  insert_value prm (radix_key_of prm r tokens) (Some v) = take (key_len (radix_key_of prm r tokens)) v.
Proof.
  unfold insert_value. rewrite radix_key_query. unfold maybe_to_bigram_view.
  assert (is_bigram (radix_key_of prm r tokens) = is_eagle prm) as ->.
  { unfold radix_key_of, page_aligned. case_decide; [done|]. by rewrite key_take_flag. }
  by rewrite andb_negb_r.
Qed.

Lemma radix_key_len r tokens :
  (key_len (radix_key_of prm r tokens) ≤ length tokens)%nat /\
  key_len (radix_key_of prm r tokens) = (length (pages (page_size prm) (radix_key_of prm r tokens)) * page_size prm)%nat.
Proof.
  destruct (page_aligned_spec _ Hps (MkKey tokens (req_extra_key r) (is_eagle prm))) as (Ha & _ & Hl).
  fold (radix_key_of prm r tokens) in *. split; [|by apply aligned_len].
  rewrite Hl. etransitivity; [rewrite Nat.mul_comm; apply Nat.Div0.mul_div_le|].
  unfold key_len. simpl. destruct (is_eagle prm); lia.
Qed.

Lemma radix_key_fit r tokens :
  Forall (fun t => 0 <= t < 2 ^ 32) tokens -> tokens_fit (radix_key_of prm r tokens).
Proof.
  intros Hf. unfold radix_key_of, page_aligned. case_decide; [done|]. by apply tokens_fit_slice.
Qed.
End key.

(** ** Requests, rows and the part beyond the committed one *)

Section env.
Context {T : Type} (args : ServerArgs).
Implicit Types e : ReqEnv T.

Lemma on_tree_run {B} (m : M T B) e b t :
  m (tree e) = (Ok b, t) -> on_tree m e = (Ok b, MkEnv t (pool e) (req e)).
Proof. intros Hm. unfold on_tree, zoom. by rewrite Hm. Qed.

Lemma row_run e i row :
  req_to_token (pool e) !! i = Some row -> row_at i e = (Ok row, e).
Proof. intros Hr. unfold row_at. erewrite bind_ok by reflexivity. cbv beta. by rewrite Hr. Qed.

Lemma row_index_run e i : req_pool_idx (req e) = Some i -> row_index e = (Ok i, e).
Proof. intros Hr. unfold row_index. erewrite bind_ok by reflexivity. cbv beta. by rewrite Hr. Qed.

Definition with_row (i : nat) (row : list Z) (p : ReqToTokenPool) : ReqToTokenPool :=
  MkPool (pool_size p) (max_context_len p) (<[i := row]> (req_to_token p)) (free_slots p).

Lemma write_row_run e i (a b : nat) values row :
  req_to_token (pool e) !! i = Some row -> (a ≤ b)%nat -> (b ≤ length row)%nat ->
  length values = (b - a)%nat -> Forall int32_range values ->
  write_row i a b values e =
    (Ok tt, MkEnv (tree e) (with_row i (take a row ++ values ++ drop b row) (pool e)) (req e)).
Proof.
  intros Hrow Hab Hb Hv Hfit. unfold write_row. rewrite (bind_ok _ _ _ _ _ (row_run e i row Hrow)). cbv beta.
  rewrite length_slice by done. rewrite decide_True by done. rewrite to_int32_list by done.
  unfold set_row, upd_pool, modify, with_row. replace (a + (b - a))%nat with b by lia. done.
Qed.

(** The indices the row holds after the write. *)
Lemma spliced (cp : nat) (row new : list Z) :
  take cp row = take cp new -> (cp ≤ length new)%nat ->
  take cp row ++ drop cp new ++ drop (length new) row = new ++ drop (length new) row.
Proof. intros -> Hcp. by rewrite app_assoc, take_drop. Qed.

(** The end of [release_kv_cache]: what is allocated beyond the committed part
    is freed and the row goes back to the pool. *)
Definition overallocated (r : Req) (row : list Z) : list (list Z) :=
  let start_p := cache_commit_len args r in
  let start_p' := if decide (1 < sa_page_size args)%nat then ceil_align start_p (sa_page_size args) else start_p in
  if decide (start_p' < kv_allocated_len r)%nat then [slice start_p' (kv_allocated_len r) row] else [].

Definition row_returned (i : nat) (p : ReqToTokenPool) : ReqToTokenPool :=
  MkPool (pool_size p) (max_context_len p) (req_to_token p) (free_slots p ++ [i]).

Definition req_released (r : Req) : Req := set_pool_idx None (set_freed true true r).

Lemma slice_empty (a b : nat) (l : list Z) : (b ≤ a)%nat -> slice a b l = [].
Proof. intros Hab. unfold slice. by replace (b - a)%nat with O by lia. Qed.

Lemma release_tail_run e (free_ : list Z -> M (ReqEnv T) unit) (g : list Z -> T -> T) i row :
  let r := req e in
  kv_overallocated_freed r = false -> req_pool_idx r = Some i -> req_to_token (pool e) !! i = Some row ->
  kv_committed_freed r = true ->
  (forall l p r', free_ l (MkEnv (tree e) p r') = (Ok tt, MkEnv (g l (tree e)) p r')) ->
  (sa_speculative args = false -> strip_thinking_cache args = false ->
    kv_committed_len r = kv_allocated_len r) ->
  release_tail args free_ i e =
    (Ok tt, MkEnv (foldl (fun t l => g l t) (tree e) (overallocated r row)) (row_returned i (pool e)) (req_released r)).
Proof.
  intros r Hfo Hidx Hrow Hfr Hfree Hover. set (r1 := set_freed true true r). unfold release_tail.
  rewrite (bind_ok _ _ e (MkEnv (tree e) (pool e) r1) (cache_commit_len args r, kv_allocated_len r)); cycle 1.
  { unfold pop_overallocated_kv_cache. erewrite bind_ok by reflexivity. cbv beta. fold r. rewrite Hfo.
    unfold upd_req. erewrite bind_ok by reflexivity. unfold r1. by rewrite <-Hfr. }
  cbv beta iota. rewrite (bind_ok _ _ _ (MkEnv (tree e) (pool e) r1) tt); cycle 1.
  { unfold cache_commit_len. destruct (sa_speculative args), (strip_thinking_cache args); try done.
    simpl. by rewrite Hover, bool_decide_eq_true_2. }
  cbv beta zeta. unfold overallocated.
  set (start := if decide (1 < sa_page_size args)%nat then _ else _).
  assert (forall t : T, pool_free (MkEnv t (pool e) r1) =
    (Ok tt, MkEnv t (row_returned i (pool e)) (req_released r))) as Hpf.
  { intros t. unfold pool_free. erewrite bind_ok by reflexivity. cbv beta. cbn [req]. unfold r1 at 1. cbn.
    rewrite Hidx. done. }
  destruct (decide (start < kv_allocated_len r)%nat) as [Hlt|Hge].
  - rewrite (bind_ok _ _ _ (MkEnv (g (slice start (kv_allocated_len r) row) (tree e)) (pool e) r1) tt); [apply Hpf|].
    by rewrite (bind_ok _ _ _ _ _ (row_run (MkEnv (tree e) (pool e) r1) i row Hrow)).
  - erewrite bind_ok by reflexivity. cbv beta. by rewrite Hpf.
Qed.

(** The positions below [n] of a row whose page of [ps] slots is one page of
    the allocator, as the paged allocators hand them out. *)
Definition row_paged (ps n : nat) (row : list Z) : Prop :=
  forall p q x y, (p < n)%nat -> (q < n)%nat -> (p / ps = q / ps)%nat ->
    row !! p = Some x -> row !! q = Some y -> x / Z.of_nat ps = y / Z.of_nat ps.

(** Every slot at the positions from [a] to [n] of the row lies on a page with a
    slot in [freed]: the paged allocators free the pages of the slots they are
    given. *)
Definition pages_freed (ps a n : nat) (row freed : list Z) : Prop :=
  forall p x, (a ≤ p < n)%nat -> row !! p = Some x ->
    exists x', x' ∈ freed /\ x' / Z.of_nat ps = x / Z.of_nat ps.

Lemma pages_freed_mono (ps a n : nat) row freed freed' :
  freed ⊆ freed' -> pages_freed ps a n row freed -> pages_freed ps a n row freed'.
Proof. intros Hs Hf p x Hp Hx. destruct (Hf p x Hp Hx) as (x' & Hx' & E). exists x'. by split; [apply Hs|]. Qed.

(** The positions that the rounding of the start of the over-allocated part
    skips are on the page of the last committed token. *)
Lemma ceil_align_page (ps c p : nat) :
  (0 < ps)%nat -> (c ≤ p < ceil_align c ps)%nat -> (0 < c)%nat /\ (p / ps = (c - 1) / ps)%nat /\ (c mod ps ≠ 0)%nat.
Proof.
  intros Hps Hp. unfold ceil_align in Hp.
  pose proof (Nat.div_mod_eq (c + ps - 1) ps) as E1. pose proof (Nat.mod_upper_bound (c + ps - 1) ps ltac:(lia)) as B1.
  destruct (decide (c = O)) as [->|Hc]; [rewrite Nat.div_small in Hp by lia; lia|].
  assert ((c + ps - 1) / ps = (c - 1) / ps + 1)%nat as E2.
  { replace (c + ps - 1)%nat with (c - 1 + 1 * ps)%nat by lia. by rewrite Nat.div_add by lia. }
  pose proof (Nat.div_mod_eq (c - 1) ps) as E3. pose proof (Nat.mod_upper_bound (c - 1) ps ltac:(lia)) as B3.
  split; [lia|]. split.
  - symmetry. apply (Nat.div_unique _ _ _ (p - (c - 1) / ps * ps)%nat); nia.
  - intros Hm. pose proof (Nat.div_mod_eq c ps) as E4. rewrite Hm in E4.
    assert ((c - 1) / ps + 1 ≤ c / ps)%nat; nia.
Qed.

(** What [release_kv_cache] frees of a row behind position [a], given that it
    frees the committed part from there on. *)
Lemma rest_freed (ps a : nat) r row :
  let c := cache_commit_len args r in
  (0 < ps)%nat -> sa_page_size args = ps -> (a ≤ c)%nat -> (a mod ps = 0)%nat -> row_paged ps (kv_allocated_len r) row ->
  pages_freed ps a (kv_allocated_len r) row (drop a (take c row) ++ concat (overallocated r row)).
Proof.
  intros c Hps Eps Hac Ha Hpaged p x Hp Hx. set (n := kv_allocated_len r) in *.
  assert (forall q y, (a ≤ q < c)%nat -> row !! q = Some y -> y ∈ drop a (take c row)) as Hcom.
  { intros q y Hq Hy. apply list_elem_of_lookup. exists (q - a)%nat. rewrite lookup_drop, lookup_take_lt by lia.
    by replace (a + (q - a))%nat with q by lia. }
  destruct (decide (p < c)%nat) as [Hpc|Hpc]; [exists x; split; [apply elem_of_app; left; apply (Hcom p); [lia|exact Hx]|done]|].
  unfold overallocated. fold c n. rewrite Eps.
  set (start := if decide (1 < ps)%nat then ceil_align c ps else c).
  destruct (decide (start ≤ p)%nat) as [Hs|Hs].
  - exists x. split; [|done]. apply elem_of_app. right. rewrite decide_True by lia. simpl. rewrite app_nil_r.
    apply list_elem_of_lookup. exists (p - start)%nat. unfold slice. rewrite lookup_take_lt, lookup_drop by lia.
    by replace (start + (p - start))%nat with p by lia.
  - assert (start = ceil_align c ps) as Es.
    { unfold start in *. case_decide; [done|lia]. }
    destruct (ceil_align_page ps c p Hps ltac:(lia)) as (Hc0 & Hpg & Hcm).
    assert (a ≠ c) as Hne by (intros ->; done).
    destruct (lookup_lt_is_Some_2 row (c - 1)) as [x' Hx']; [apply lookup_lt_Some in Hx; lia|].
    exists x'. split; [apply elem_of_app; left; apply (Hcom (c - 1)%nat); [lia|done]|].
    apply (Hpaged (c - 1)%nat p); [lia|lia|by symmetry|exact Hx'|exact Hx].
Qed.
End env.

(** ** What the tree holds for a request *)

(** [y] ends the prefix that the tree protects for request [r] with row [row]:
    whole pages of the key of [tokens], with the indices at the start of the
    row. *)
Record req_held {A} (s : RadixCache A) (y : nat) (r : Req) (row tokens : list Z) : Prop := ReqHeld {
  rh_node : last_node r = Some y;
  rh_pages : exists m, cache_protected_len r = (m * page_size (params s))%nat /\
    (m ≤ length (pages (page_size (params s)) (radix_key_of (params s) r tokens)))%nat /\
    spells s y (take m (pages (page_size (params s)) (radix_key_of (params s) r tokens)))
      (take (cache_protected_len r) row)
}.

(** Every cached index fits the table. *)
Definition indices_fit {A} (s : RadixCache A) (L : gset nat) : Prop :=
  forall w v, content s L w v -> Forall int32_range v.

Section req.
Context {A : Type} `{KvFree A} `{Sha256} `{HeapQ} `{!Sha256Laws} (monotonic : nat -> Z).
Implicit Types (s : RadixCache A) (L : gset nat) (r : Req).
Abbreviation psz s := (page_size (params s)).

(** The insertion both entry points perform. *)
Lemma cache_tokens s L Hh y r row tokens prio chunked :
  let k := radix_key_of (params s) r tokens in
  let w := pages (psz s) k in
  let values := take (key_len k) (take (length tokens) row) in
  radix_inv s L Hh -> disable (params s) = false -> y ∈ L -> (length tokens ≤ length row)%nat ->
  Forall (fun t => 0 <= t < 2 ^ 32) tokens -> req_held s y r row tokens ->
  exists n vs s' L', insert monotonic k (Some values) prio chunked s = (Ok (n * psz s)%nat, s') /\
    (cache_protected_len r ≤ n * psz s)%nat /\ (n * psz s ≤ key_len k)%nat /\
    radix_inv s' L' Hh /\ keeps s L s' L' /\ allocator s' = allocator s /\
    longest s L w n vs /\ length vs = (n * psz s)%nat /\
    take (cache_protected_len r) row = take (cache_protected_len r) vs /\
    (forall w' v', content s' L' w' v' <-> content_plus s L w n vs values w' v') /\
    longest s' L' w (length w) (vs ++ drop (n * psz s) values) /\
    forall i, tree_occ s' L' i = tree_occ s L i + occ i (drop (n * psz s) values).
Proof.
  intros k w values Hinv Hd Hy Hrow Hfit [_ (m & Hcp & Hm & l & Hup)].
  pose proof (i_ps _ _ _ _ _ _ _ _ _ Hinv) as Hps.
  destruct (radix_key_len (params s) Hps r tokens) as [Hk1 Hk2]. fold k w in Hk1, Hk2, Hm, Hup.
  assert (query_key (params s) k = k) as Hq by (by apply radix_key_query).
  assert (insert_value (params s) k (Some values) = values) as Hv.
  { unfold k. rewrite radix_key_value by done. fold k. unfold values. by rewrite take_take, Nat.min_id. }
  assert (length values = key_len k) as Hlv by (unfold values; rewrite !length_take; lia).
  destruct (insert_run monotonic s L Hh k (Some values) prio chunked Hinv Hd) as (n & s' & Hr & Hins);
    [by rewrite Hv, Hq|intros _; rewrite Hq; by apply radix_key_fit|].
  assert (query (params s) k = w) as Hw by (unfold query; by rewrite Hq). rewrite Hv, Hw in Hins.
  rewrite Hk2 in Hlv.
  destruct (inserted_spec monotonic s L Hh w values n s' Hinv Hins) as (L' & vs & Hi & Hk & Hl & Hc & _ & _ & Ha).
  destruct (inserted_longest s L Hh w values n s' L' vs Hps Hlv Hk Hi Hl Hc) as [Hl' Hvs].
  pose proof Hl as (Hnw & _ & Hmax).
  destruct (Hmax (take m w) (take (cache_protected_len r) row)) as [Hmn Htake].
  { eapply stored_node; [exact Hps|exact (i_shape _ _ _ _ _ _ _ _ _ Hinv)|done|exact Hup]. }
  { apply prefix_take. }
  rewrite length_take, Nat.min_l in Hmn, Htake by done.
  exists n, vs, s', L'. split_and!; try done.
  - rewrite Hcp. by apply Nat.mul_le_mono_r.
  - rewrite Hk2. by apply Nat.mul_le_mono_r.
  - by rewrite Hcp in *.
  - intros i. by eapply inserted_occ.
Qed.

(** What a change of locks leaves alone. *)
Definition same_tree s L s' : Prop :=
  keeps s L s' L /\ (forall w v, content s' L w v <-> content s L w v) /\
  (forall i, tree_occ s' L i = tree_occ s L i) /\ allocator s' = allocator s.

Lemma release_node s L Hh H' y :
  radix_inv s L Hh -> disable (params s) = false -> Hh ≡ₚ y :: H' ->
  exists d s', dec_lock_ref y s = (Ok d, s') /\ radix_inv s' L H' /\ same_tree s L s'.
Proof.
  intros Hinv Hd Hperm.
  destruct (dec_lock_ref_run s L H' Hh y Hinv Hd Hperm) as (l & w & v & s' & E' & Hu & Hr & Hi & Hv).
  do 2 eexists. split_and!; [exact Hr|done|]. injection Hv as Ep Eg _ Er _ _ _ _ Ea.
  destruct (relock_content s s' L (-1) l Ep Er Eg (up_NoDup _ _ _ _ _ _ _ Hu) (i_shape _ _ _ _ _ _ _ _ _ Hinv))
    as [Hk Hc].
  split_and!; try done. intros i. by eapply relocked_occ.
Qed.

Lemma acquire_node s L H' y :
  radix_inv s L H' -> disable (params s) = false -> y ∈ L ->
  exists d s', inc_lock_ref y s = (Ok d, s') /\ radix_inv s' L (y :: H') /\ same_tree s L s'.
Proof.
  intros Hinv Hd Hy. destruct (inc_lock_ref_run s L H' y Hinv Hd Hy) as (l & w & v & s' & Hu & Hr & Hi & Hv).
  do 2 eexists. split_and!; [exact Hr|done|]. injection Hv as Ep Eg _ Er _ _ _ _ Ea.
  destruct (relock_content s s' L 1 l Ep Er Eg (up_NoDup _ _ _ _ _ _ _ Hu) (i_shape _ _ _ _ _ _ _ _ _ Hinv))
    as [Hk Hc].
  split_and!; try done. intros i. by eapply relocked_occ.
Qed.

Context `{!KvFreeTotal A} (args : ServerArgs).
Implicit Types e : ReqEnv (RadixCache A).

Lemma req_free_run e l :
  alloc_ok (allocator (tree e)) ->
  free l e = (Ok tt, MkEnv (upd_allocator (kv_free l (allocator (tree e))).2 (tree e)) (pool e) (req e)) /\
  alloc_ok (kv_free l (allocator (tree e))).2.
Proof.
  intros Ha. destruct (allocator_free_run l (tree e) Ha) as [Hf Ha']. split; [|done].
  unfold free, on_tree, zoom. by rewrite Hf.
Qed.

(** The last two steps of [cache_finished_req]. *)
Lemma finish_run e L Hh H' y tail :
  radix_inv (tree e) L Hh -> disable (params (tree e)) = false -> Hh ≡ₚ y :: H' ->
  alloc_ok (allocator (tree e)) ->
  exists t', (free tail ≫= fun _ => on_tree (dec_lock_ref y) ≫= fun _ => mret tt) e =
      (Ok tt, MkEnv t' (pool e) (req e)) /\
    radix_inv t' L H' /\ allocator t' = (kv_free tail (allocator (tree e))).2 /\ alloc_ok (allocator t') /\
    keeps (tree e) L t' L /\ (forall w v, content t' L w v <-> content (tree e) L w v) /\
    forall i, tree_occ t' L i = tree_occ (tree e) L i.
Proof.
  intros Hinv Hd Hperm Ha. destruct (req_free_run e tail Ha) as [Hf Ha'].
  rewrite (bind_ok _ _ _ _ _ Hf). cbv beta.
  set (s1 := upd_allocator (kv_free tail (allocator (tree e))).2 (tree e)).
  assert (radix_inv s1 L Hh) as Hinv1 by exact Hinv.
  destruct (release_node s1 L Hh H' y Hinv1 Hd Hperm) as (d & t' & Hr & Hi & Hk & Hc & Ho & Hal).
  rewrite (bind_ok _ _ _ _ _ (on_tree_run (dec_lock_ref y) (MkEnv s1 (pool e) (req e)) d t' Hr)).
  exists t'. split_and!; try done. by rewrite Hal.
Qed.

(** What storing the tokens [tokens] of a finished request in the tree
    achieves, when [dup] are the slots freed on the way. *)
Definition stored_for s L s' L' (b : bool) (w : list child_key_t) (dup tail own : list Z) : Prop :=
  keeps s L s' L' /\
  (forall w' v', content s L w' v' -> content s' L' w' v') /\
  (if b then exists v, content s' L' w v else forall w' v', content s' L' w' v' -> content s L w' v') /\
  forall i, tree_occ s' L' i + occ i dup + occ i tail = tree_occ s L i + occ i own.

Lemma finished_store e L Hh y row tokens (b : bool) :
  let s := tree e in
  let r := req e in
  let k := radix_key_of (params s) r tokens in
  let kv := take (length tokens) row in
  radix_inv s L Hh -> disable (params s) = false -> y ∈ L -> alloc_ok (allocator s) ->
  (length tokens ≤ length row)%nat -> Forall (fun t => 0 <= t < 2 ^ 32) tokens -> req_held s y r row tokens ->
  exists t' L' dup,
    (if b then
       prefix_len ← on_tree (insert monotonic k (Some (take (key_len k) kv)) (Some (priority_or_0 r)) false);
       free (slice (cache_protected_len r) prefix_len kv)
     else free (slice (cache_protected_len r) (key_len k) kv)) e = (Ok tt, MkEnv t' (pool e) (req e)) /\
    radix_inv t' L' Hh /\ allocator t' = (kv_free dup (allocator s)).2 /\ alloc_ok (allocator t') /\
    stored_for s L t' L' b (pages (psz s) k) dup (drop (key_len k) kv) (drop (cache_protected_len r) kv).
Proof.
  intros s r k kv Hinv Hd Hy Ha Hrow Hfit Hheld. destruct b.
  - destruct (cache_tokens s L Hh y r row tokens (Some (priority_or_0 r)) false Hinv Hd Hy Hrow Hfit Hheld) as
      (n & vs & s' & L' & Hr & Hcp & Hnk & Hi & Hk & Hal & _ & _ & _ & Hc & Hl & Ho). fold k kv in Hr, Hnk, Hc, Hl, Ho.
    rewrite (bind_ok _ _ _ _ _ (on_tree_run _ e _ _ Hr)). cbv beta. rewrite <-Hal in Ha.
    destruct (req_free_run (MkEnv s' (pool e) (req e)) (slice (cache_protected_len r) (n * psz s) kv) Ha) as [Hf Ha'].
    set (dup := slice (cache_protected_len r) (n * psz s) kv) in *.
    exists (upd_allocator (kv_free dup (allocator s')).2 s'), L', dup.
    split; [exact Hf|]. split; [exact Hi|]. split; [simpl; by rewrite Hal|]. split; [done|].
    split; [exact Hk|]. split; [intros w' v' Hw'; apply Hc; by left|]. split.
    + eexists. destruct Hl as (_ & Hl & _). by rewrite firstn_all in Hl.
    + intros i. change (tree_occ (upd_allocator _ s') L' i) with (tree_occ s' L' i). rewrite Ho.
      rewrite (slices_split (cache_protected_len r) (n * psz s) (key_len k) kv) by done.
      fold dup. rewrite !occ_app. lia.
  - destruct (req_free_run e (slice (cache_protected_len r) (key_len k) kv) Ha) as [Hf Ha'].
    exists (upd_allocator (kv_free (slice (cache_protected_len r) (key_len k) kv) (allocator s)).2 s), L.
    eexists. split; [exact Hf|]. split; [exact Hinv|]. split; [done|]. split; [done|].
    split; [exact (keeps_refl s L)|]. split_and!; [done|done|]. intros i.
    destruct Hheld as [_ (m & Hcp & Hm & _)]. pose proof (i_ps _ _ _ _ _ _ _ _ _ Hinv) as Hps.
    destruct (radix_key_len (params s) Hps r tokens) as [_ Hk2]. fold k in Hm, Hk2.
    rewrite (slices_split (cache_protected_len r) (key_len k) (key_len k) kv) by (rewrite ?Hcp, ?Hk2; nia).
    rewrite !occ_app, (drop_ge (take (key_len k) kv) (key_len k)) by (rewrite length_take; lia).
    change (tree_occ (upd_allocator _ s) L i) with (tree_occ s L i). rewrite occ_nil. lia.
Qed.

(** [cache_finished_req] never raises, and every slot the request owned, those
    of its row behind the protected prefix, is afterwards in the tree or among
    the freed ones, exactly as often as it was owned before; the request's
    hold on its prefix is released, what was cached stays cached, and with
    insertion enabled the request's whole pages are cached. *)
Lemma cache_finished_req_run e L Hh H' y i row (is_insert : bool) :
  let s := tree e in
  let r := req e in
  let tokens := take (cache_commit_len args r) (origin_input_ids r ++ output_ids r) in
  let kv := take (length tokens) row in
  let b := is_insert && negb (disable_finished_insert (params s)) in
  radix_inv s L Hh -> Hh ≡ₚ y :: H' -> disable (params s) = false -> alloc_ok (allocator s) ->
  kv_committed_freed r = false -> req_pool_idx r = Some i -> req_to_token (pool e) !! i = Some row ->
  (length tokens ≤ length row)%nat -> Forall (fun t => 0 <= t < 2 ^ 32) tokens -> req_held s y r row tokens ->
  exists t' L' dup,
    let tail := drop (key_len (radix_key_of (params s) r tokens)) kv in
    cache_finished_req monotonic args is_insert e =
      (Ok tt, MkEnv t' (pool e) (set_freed true (kv_overallocated_freed r) r)) /\
    radix_inv t' L' H' /\ allocator t' = free_all [dup; tail] (allocator s) /\ alloc_ok (allocator t') /\
    stored_for s L t' L' b (pages (psz s) (radix_key_of (params s) r tokens)) dup tail
      (drop (cache_protected_len r) kv).
Proof.
  intros s r tokens kv b Hinv Hperm Hd Ha Hfr Hidx Hrow Hlen Hfit Hheld.
  assert (y ∈ L) as Hy by (apply (inv_held_live Hinv); rewrite Hperm; left).
  set (r1 := set_freed true (kv_overallocated_freed r) r). set (e1 := MkEnv s (pool e) r1).
  destruct (finished_store e1 L Hh y row tokens b Hinv Hd Hy Ha Hlen Hfit) as
    (t1 & L1 & dup & Hst & Hi1 & Hal1 & Ha1 & Hk1 & Hmono & Hb & Ho1); [by destruct Hheld|].
  destruct (finish_run (MkEnv t1 (pool e) r1) L1 Hh H' y (drop (key_len (radix_key_of (params s) r tokens)) kv))
    as (t' & Hfin & Hi' & Hal' & Ha' & Hk' & Hc' & Ho'); try done.
  { simpl. destruct Hk1 as (_ & -> & _). done. }
  simpl in Hal', Hk', Hc', Ho'. exists t', L1, dup. split.
  - unfold cache_finished_req. erewrite bind_ok by reflexivity. cbv beta zeta.
    rewrite (bind_ok _ _ e e1 (cache_commit_len args r)); cycle 1.
    { unfold pop_committed_kv_cache. erewrite bind_ok by reflexivity. cbv beta. fold r. by rewrite Hfr. }
    cbv beta. erewrite bind_ok by reflexivity. cbv beta.
    rewrite (bind_ok _ _ _ _ _ (row_index_run e1 i Hidx)). cbv beta.
    rewrite (bind_ok _ _ _ _ _ (row_run e1 i row Hrow)). cbv beta. fold s. rewrite Hd.
    change (req e1) with r1.
    replace (if disable_finished_insert (params s) then false else is_insert) with b
      by (unfold b; destruct (disable_finished_insert (params s)), is_insert; done).
    rewrite (bind_ok _ _ _ _ _ Hst). cbv beta.
    change (last_node r1) with (last_node r). rewrite (rh_node _ _ _ _ _ Hheld). exact Hfin.
  - split_and!; [done| |done|]; [by rewrite Hal', Hal1|].
    split_and!; [by eapply keeps_trans|intros w' v' Hw; by apply Hc', Hmono| |intros j; by rewrite Ho'].
    destruct b; [|intros w' v' Hw; by apply Hb, Hc']. destruct Hb as [v Hv]. exists v. by apply Hc'.
Qed.

(** Looking up a key all of which is cached. *)
Lemma rematch s L Hh k w v :
  radix_inv s L Hh -> disable (params s) = false -> query (params s) k = w -> longest s L w (length w) v ->
  exists last s' L', match_prefix monotonic k s = (Ok (MkMatch v last), s') /\ last ∈ L' /\
    spells s' last w v /\ radix_inv s' L' Hh /\ keeps s L s' L' /\
    (forall w' v', content s' L' w' v' <-> content s L w' v') /\ allocator s' = allocator s /\
    forall i, tree_occ s' L' i = tree_occ s L i.
Proof.
  intros Hinv Hd Hw Hl.
  destruct (radix_lookup_run monotonic s L Hh k Hinv Hd) as
    (v' & m & st & last & s' & L' & Hm & Hland & Hl' & Hlast & Hsp & Hi & Hk & Hc & _ & _ & Ha).
  rewrite Hw in Hl', Hsp. destruct (longest_unique _ _ _ _ _ _ _ Hl' Hl) as [-> ->]. rewrite firstn_all in Hsp.
  exists last, s', L'. split_and!; try done. intros i. by eapply landed_occ.
Qed.

(** The indices cached by an insertion fit the table if those of the row and
    of the tree do. *)
Lemma content_plus_fit s L w n vs values w' v' :
  indices_fit s L -> longest s L w n vs -> Forall int32_range values ->
  content_plus s L w n vs values w' v' -> Forall int32_range v'.
Proof.
  intros Hfit (_ & Hvs & _) Hval [Hc|(_ & _ & ->)]; [by eapply Hfit|].
  apply Forall_take, Forall_app. split; [by eapply Hfit|by apply Forall_drop].
Qed.

Lemma same_tree_trans s1 L s2 s3 : same_tree s1 L s2 -> same_tree s2 L s3 -> same_tree s1 L s3.
Proof.
  intros (Hk1 & Hc1 & Ho1 & Ha1) (Hk2 & Hc2 & Ho2 & Ha2). split_and!.
  - by eapply keeps_trans.
  - intros w v. by rewrite Hc2.
  - intros i. by rewrite Ho2.
  - congruence.
Qed.

(** The steps of [cache_unfinished_req] after the lookup. *)
Definition rehold (i last : nat) (r : Req) (token_ids new_indices : list Z) : M (ReqEnv (RadixCache A)) unit :=
  write_row i (cache_protected_len r) (length new_indices) (drop (cache_protected_len r) new_indices)
    ≫= fun _ =>
  match last_node r with
  | None => raise AttributeError "'NoneType' object has no attribute 'lock_ref'"
  | Some node =>
      on_tree (dec_lock_ref node) ≫= fun _ =>
      on_tree (inc_lock_ref last) ≫= fun _ =>
      row' ← row_at i;
      let kv_indices' := take (length token_ids) row' in
      let prefix := if decide (length new_indices < length kv_indices')%nat
                    then new_indices ++ drop (length new_indices) kv_indices' else new_indices in
      upd_req (set_cached prefix (length new_indices) (Some last))
  end.

Lemma rehold_run e L Hh H' y last i row tokens new :
  radix_inv (tree e) L Hh -> disable (params (tree e)) = false -> Hh ≡ₚ y :: H' -> last ∈ L ->
  req_to_token (pool e) !! i = Some row -> last_node (req e) = Some y ->
  (cache_protected_len (req e) ≤ length new)%nat -> (length new ≤ length tokens)%nat ->
  (length tokens ≤ length row)%nat ->
  take (cache_protected_len (req e)) row = take (cache_protected_len (req e)) new -> Forall int32_range new ->
  let row' := new ++ drop (length new) row in
  exists t', rehold i last (req e) tokens new e =
      (Ok tt, MkEnv t' (with_row i row' (pool e))
        (set_cached (take (length tokens) row') (length new) (Some last) (req e))) /\
    radix_inv t' L (last :: H') /\ same_tree (tree e) L t'.
Proof.
  intros Hinv Hd Hperm Hlast Hrow Hy Hcp Hnt Htr Htake Hfit row'.
  set (e1 := MkEnv (tree e) (with_row i row' (pool e)) (req e)).
  destruct (release_node (tree e) L Hh H' y Hinv Hd Hperm) as (d1 & t1 & Hr1 & Hi1 & Hs1).
  assert (disable (params t1) = false) as Hd1 by (destruct Hs1 as ((_ & -> & _) & _); done).
  destruct (acquire_node t1 L H' last Hi1 Hd1 Hlast) as (d2 & t2 & Hr2 & Hi2 & Hs2).
  exists t2. split; [|split; [done|by eapply same_tree_trans]].
  unfold rehold. rewrite (bind_ok _ _ e e1 tt); cycle 1.
  { rewrite (write_row_run e i (cache_protected_len (req e)) (length new) (drop (cache_protected_len (req e)) new) row)
      by (done || lia || (by rewrite length_drop) || (by apply Forall_drop)).
    unfold e1, row'. by rewrite spliced. }
  cbv beta. rewrite Hy. rewrite (bind_ok _ _ _ _ _ (on_tree_run (dec_lock_ref y) e1 d1 t1 Hr1)). cbv beta.
  rewrite (bind_ok _ _ _ _ _ (on_tree_run (inc_lock_ref last) (MkEnv t1 (pool e1) (req e1)) d2 t2 Hr2)). cbv beta.
  rewrite (bind_ok _ _ _ _ _ (row_run (MkEnv t2 (pool e1) (req e1)) i row'
    ltac:(simpl; rewrite list_lookup_insert_eq; [done|by eapply lookup_lt_Some]))). cbv beta zeta.
  unfold upd_req, modify. do 2 f_equal. simpl. f_equal.
  assert (length row' = length row) as Hlr by (unfold row'; rewrite length_app, length_drop; lia).
  rewrite length_take, Hlr, Nat.min_l by lia. case_decide as Hlt.
  - unfold row'. rewrite skipn_firstn_comm, skipn_app, drop_ge, Nat.sub_diag by lia. simpl. rewrite drop_0.
    rewrite take_app_ge by lia. done.
  - unfold row'. rewrite take_app_le by lia. symmetry. apply firstn_all2. lia.
Qed.

(** C1: [cache_unfinished_req] conserves slots and hands the request back ready
    for the next call: it never raises (the assertion that the lookup finds
    the whole key holds), the tree, the request and the freed duplicates share
    out exactly the slots the tree and the request had, the row of the request
    now starts with the indices the tree holds for its pages and keeps its
    other entries, and the request holds the node of its new prefix instead of
    the old one. *)
Theorem cache_unfinished_req_spec e L Hh H' y i row chunked :
  let s := tree e in
  let r := req e in
  let tokens := fill_ids r in
  let kv := take (length tokens) row in
  let k := radix_key_of (params s) r tokens in
  radix_inv s L Hh -> Hh ≡ₚ y :: H' -> disable (params s) = false -> alloc_ok (allocator s) ->
  req_pool_idx r = Some i -> req_to_token (pool e) !! i = Some row ->
  (length tokens ≤ length row)%nat -> Forall (fun t => 0 <= t < 2 ^ 32) tokens ->
  Forall int32_range row -> indices_fit s L -> req_held s y r row tokens ->
  exists t' L' last dup row',
    let r' := set_cached (take (length tokens) row') (key_len k) (Some last) r in
    cache_unfinished_req monotonic chunked e = (Ok tt, MkEnv t' (with_row i row' (pool e)) r') /\
    radix_inv t' L' (last :: H') /\ allocator t' = free_all [dup] (allocator s) /\ alloc_ok (allocator t') /\
    stored_for s L t' L' true (pages (psz s) k) dup (drop (key_len k) kv) (drop (cache_protected_len r) kv) /\
    req_held t' last r' row' tokens /\ indices_fit t' L' /\
    length row' = length row /\ drop (key_len k) row' = drop (key_len k) row.
Proof.
  intros s r tokens kv k Hinv Hperm Hd Ha Hidx Hrow Hlen Htok Hrfit Hsfit Hheld.
  assert (y ∈ L) as Hy by (apply (inv_held_live Hinv); rewrite Hperm; left).
  destruct (cache_tokens s L Hh y r row tokens (Some (priority_or_0 r)) chunked Hinv Hd Hy Hlen Htok Hheld) as
    (n & vs & s1 & L1 & Hr1 & Hcp & Hnk & Hi1 & Hk1 & Hal1 & Hl & Hvs & Htake & Hc1 & Hl1 & Ho1).
  fold k kv in Hr1, Hnk, Hl, Hc1, Hl1, Ho1. set (w := pages (psz s) k) in *.
  set (values := take (key_len k) kv) in *. set (new := vs ++ drop (n * psz s) values) in *.
  pose proof (i_ps _ _ _ _ _ _ _ _ _ Hinv) as Hps.
  destruct (radix_key_len (params s) Hps r tokens) as [Hkt Hkw]. fold k w in Hkt, Hkw.
  assert (Forall int32_range values) as Hvfit by (by apply Forall_take, Forall_take).
  assert (Forall int32_range new) as Hnfit.
  { apply Forall_app. split; [by eapply Hsfit, Hl|by apply Forall_drop]. }
  assert (length new = key_len k) as Hnew.
  { unfold new, values, kv. rewrite length_app, length_drop, !length_take, Hvs. lia. }
  assert (params s1 = params s) as Hp1 by apply Hk1.
  set (dup := slice (cache_protected_len r) (n * psz s) kv).
  assert (alloc_ok (allocator s1)) as Ha1 by (by rewrite Hal1).
  destruct (req_free_run (MkEnv s1 (pool e) r) dup Ha1) as [Hf Ha2]. simpl in Hf, Ha2.
  set (s2 := upd_allocator (kv_free dup (allocator s1)).2 s1) in *.
  destruct (rematch s2 L1 Hh k w new Hi1) as (last & s3 & L3 & Hr3 & Hlast & Hsp & Hi3 & Hk3 & Hc3 & Hal3 & Ho3).
  { change (params s2) with (params s1). by rewrite Hp1. }
  { change (params s2) with (params s1). rewrite Hp1. unfold query.
    by rewrite (radix_key_query (params s) Hps r tokens : query_key (params s) k = k). }
  { exact Hl1. }
  assert (params s3 = params s) as Hp3 by (destruct Hk3 as (_ & -> & _); exact Hp1).
  destruct (rehold_run (MkEnv s3 (pool e) r) L3 Hh H' y last i row tokens new) as (t' & Hre & Hi' & Hk' & Hc' & Ho' & Hal');
    try done; simpl; rewrite ?Hp3, ?Hnew; try done; try lia.
  { by destruct Hheld. }
  { unfold new. by rewrite take_app_le by lia. }
  cbn [tree pool req] in Hre, Hk', Hc', Ho', Hal'. rewrite Hnew in Hre.
  exists t', L3, last, dup, (new ++ drop (key_len k) row). cbv zeta.
  assert (params t' = params s) as Hp' by (destruct Hk' as (_ & -> & _); exact Hp3).
  split_and!.
  - unfold cache_unfinished_req. erewrite bind_ok by reflexivity. cbv beta. fold s. rewrite Hd.
    erewrite bind_ok by reflexivity. cbv beta zeta. rewrite (bind_ok _ _ _ _ _ (row_index_run e i Hidx)). cbv beta.
    rewrite (bind_ok _ _ _ _ _ (row_run e i row Hrow)). cbv beta. fold r tokens k kv values.
    rewrite (bind_ok _ _ _ _ _ (on_tree_run _ e _ _ Hr1)). cbv beta. fold dup r.
    rewrite (bind_ok _ _ _ _ _ Hf). cbv beta.
    rewrite (bind_ok _ _ _ _ _ (on_tree_run (match_prefix monotonic k) (MkEnv s2 (pool e) r) _ s3 Hr3)). cbv beta.
    cbn [device_indices last_device_node]. rewrite decide_True by done. exact Hre.
  - exact Hi'.
  - rewrite Hal', Hal3. simpl. by rewrite Hal1.
  - rewrite Hal', Hal3. exact Ha2.
  - split_and!.
    + eapply keeps_trans; [exact Hk1|]. by eapply keeps_trans.
    + intros w' v' Hw. apply Hc', Hc3, Hc1. by left.
    + exists new. apply Hc', Hc3. destruct Hl1 as (_ & Hl1 & _). by rewrite firstn_all in Hl1.
    + intros j. rewrite Ho', Ho3. change (tree_occ s2 L1 j) with (tree_occ s1 L1 j). rewrite Ho1.
      rewrite (slices_split (cache_protected_len r) (n * psz s) (key_len k) kv) by done.
      fold dup values. rewrite !occ_app. lia.
  - split; [done|]. exists (length w). rewrite Hp'. cbn [cache_protected_len set_cached].
    change (radix_key_of (params s) (set_cached _ _ _ r) tokens) with k. fold w.
    split_and!; [done|done|]. rewrite firstn_all, take_app_le, firstn_all2 by lia. by apply Hk'.
  - intros w' v' Hw'. apply Hc', Hc3, Hc1 in Hw'. exact (content_plus_fit s L w n vs values w' v' Hsfit Hl Hvfit Hw').
  - rewrite length_app, length_drop. lia.
  - by rewrite drop_app_length' by done.
Qed.

(** With the cache disabled, [cache_finished_req] frees the committed part of
    the row and leaves the tree alone. *)
Lemma cache_finished_disabled e i row (is_insert : bool) :
  let r := req e in
  disable (params (tree e)) = true -> alloc_ok (allocator (tree e)) -> kv_committed_freed r = false ->
  req_pool_idx r = Some i -> req_to_token (pool e) !! i = Some row ->
  cache_finished_req monotonic args is_insert e =
    (Ok tt, MkEnv (upd_allocator (free_all [take (cache_commit_len args r) row] (allocator (tree e))) (tree e))
      (pool e) (set_freed true (kv_overallocated_freed r) r)).
Proof.
  intros r Hd Ha Hfr Hidx Hrow. set (r1 := set_freed true (kv_overallocated_freed r) r). set (e1 := MkEnv (tree e) (pool e) r1).
  unfold cache_finished_req. erewrite bind_ok by reflexivity. cbv beta zeta.
  rewrite (bind_ok _ _ e e1 (cache_commit_len args r)); cycle 1.
  { unfold pop_committed_kv_cache. erewrite bind_ok by reflexivity. cbv beta. fold r. by rewrite Hfr. }
  cbv beta. erewrite bind_ok by reflexivity. cbv beta.
  rewrite (bind_ok _ _ _ _ _ (row_index_run e1 i Hidx)). cbv beta.
  rewrite (bind_ok _ _ _ _ _ (row_run e1 i row Hrow)). cbv beta. rewrite Hd.
  exact (proj1 (req_free_run e1 _ Ha)).
Qed.

Lemma overallocated_kv_freed r (row : list Z) (t : RadixCache A) :
  foldl (fun t l => upd_allocator (kv_free l (allocator t)).2 t) t (overallocated args r row) =
  upd_allocator (free_all (overallocated args r row) (allocator t)) t.
Proof. unfold overallocated. case_match; [done|by destruct t]. Qed.

(** [release_kv_cache] once [cache_finished_req] has run. *)
Lemma release_run e i row (is_insert : bool) t :
  let r := req e in
  let e1 := MkEnv t (pool e) (set_freed true (kv_overallocated_freed r) r) in
  cache_finished_req monotonic args (is_insert && negb (skip_radix_cache_insert r)) e = (Ok tt, e1) ->
  alloc_ok (allocator t) -> kv_overallocated_freed r = false -> req_pool_idx r = Some i ->
  req_to_token (pool e) !! i = Some row ->
  (sa_speculative args = false -> strip_thinking_cache args = false -> kv_committed_len r = kv_allocated_len r) ->
  release_kv_cache monotonic args is_insert e =
    (Ok tt, MkEnv (upd_allocator (free_all (overallocated args r row) (allocator t)) t) (row_returned i (pool e))
      (req_released r)).
Proof.
  intros r e1 Hrun Ha Hfo Hidx Hrow Hover.
  pose proof (release_tail_run args e1 free (fun l t => upd_allocator (kv_free l (allocator t)).2 t) i row Hfo Hidx Hrow eq_refl
    (fun l p r' => proj1 (req_free_run (MkEnv t p r') l Ha)) Hover) as Htail.
  change (overallocated args (req e1) row) with (overallocated args r row) in Htail.
  rewrite overallocated_kv_freed in Htail.
  unfold release_kv_cache. erewrite bind_ok by reflexivity. cbv beta. fold r. rewrite Hidx.
  rewrite (bind_ok _ _ _ _ _ Hrun). exact Htail.
Qed.

(** C2: [release_kv_cache] gives everything back, for a request that has not
    been released and is over-allocated only where the configuration allows it
    (speculative decoding, stripped thinking).
    With the cache disabled it frees the committed part of the row and the
    over-allocated part behind it, and leaves the tree alone.
    With the cache enabled, for a request whose protected prefix lies within
    the part to be cached, it never raises either: each slot of the tokens the
    request owned ends up in the tree or is freed exactly as often as it was
    owned, what was cached stays cached, with insertion enabled the request's
    whole pages are cached, and the hold on the prefix is dropped.
    In both cases the row returns to the pool, a second release raises and
    changes nothing, and where the row consists of pages, no page is lost: the
    slots between the committed length and the next page boundary, which the
    code does not name, are on a page of which a slot is freed. *)
Theorem release_kv_cache_spec e L Hh H' y i row (is_insert : bool) :
  let s := tree e in
  let r := req e in
  let c := cache_commit_len args r in
  let tokens := take c (origin_input_ids r ++ output_ids r) in
  let k := radix_key_of (params s) r tokens in
  let kv := take (length tokens) row in
  let b := is_insert && negb (skip_radix_cache_insert r) && negb (disable_finished_insert (params s)) in
  let released t := MkEnv t (row_returned i (pool e)) (req_released r) in
  alloc_ok (allocator s) -> kv_committed_freed r = false -> kv_overallocated_freed r = false ->
  req_pool_idx r = Some i -> req_to_token (pool e) !! i = Some row ->
  (sa_speculative args = false -> strip_thinking_cache args = false ->
    kv_committed_len r = kv_allocated_len r) ->
  (disable (params s) = true ->
    let freed := take c row :: overallocated args r row in
    release_kv_cache monotonic args is_insert e = (Ok tt, released (upd_allocator (free_all freed (allocator s)) s)) /\
    forall ps, (0 < ps)%nat -> sa_page_size args = ps -> row_paged ps (kv_allocated_len r) row ->
      pages_freed ps 0 (kv_allocated_len r) row (concat freed)) /\
  (disable (params s) = false -> radix_inv s L Hh -> Hh ≡ₚ y :: H' -> (length tokens ≤ length row)%nat ->
    Forall (fun t => 0 <= t < 2 ^ 32) tokens -> req_held s y r row tokens ->
    exists t' L' dup,
      let tail := drop (key_len k) kv in
      release_kv_cache monotonic args is_insert e = (Ok tt, released t') /\ radix_inv t' L' H' /\
      stored_for s L t' L' b (pages (psz s) k) dup tail (drop (cache_protected_len r) kv) /\
      allocator t' = free_all ([dup; tail] ++ overallocated args r row) (allocator s) /\
      (length tokens = c -> sa_page_size args = psz s -> row_paged (psz s) (kv_allocated_len r) row ->
        pages_freed (psz s) (key_len k) (kv_allocated_len r) row (tail ++ concat (overallocated args r row)))) /\
  exists msg, forall t, release_kv_cache monotonic args is_insert (released t) = (Raise (Exn AssertionError msg), released t).
Proof.
  intros s r c tokens k kv b released Ha Hfr Hfo Hidx Hrow Hover. split_and!; [| |by eexists].
  - intros Hd freed. split.
    + apply (release_run e i row is_insert _ (cache_finished_disabled e i row _ Hd Ha Hfr Hidx Hrow)); try done.
      exact (proj2 (req_free_run e _ Ha)).
    + intros ps Hps Eps Hpaged. pose proof (rest_freed args ps 0 r row Hps Eps (Nat.le_0_l _) (Nat.Div0.mod_0_l _) Hpaged) as Hx.
      by rewrite drop_0 in Hx.
  - intros Hd Hinv Hperm Hlen Htok Hheld.
    destruct (cache_finished_req_run e L Hh H' y i row (is_insert && negb (skip_radix_cache_insert r))
      Hinv Hperm Hd Ha Hfr Hidx Hrow Hlen Htok Hheld) as (t1 & L1 & dup & Hrun & Hi1 & Hal1 & Ha1 & Hst).
    exists (upd_allocator (free_all (overallocated args r row) (allocator t1)) t1), L1, dup.
    split; [by apply (release_run e i row is_insert t1)|]. split; [exact Hi1|]. split; [exact Hst|].
    split; [simpl; by rewrite Hal1|]. intros Hlc Eps Hpaged. pose proof (i_ps _ _ _ _ _ _ _ _ _ Hinv) as Hps.
    destruct (radix_key_len (params s) Hps r tokens) as [Hk1 Hk2]. fold k in Hk1, Hk2. unfold kv. rewrite Hlc in *.
    apply rest_freed; [exact Hps|exact Eps|exact Hk1| |exact Hpaged]. rewrite Hk2. apply Nat.Div0.mod_mul.
Qed.
End req.
