(* ===== verification/RadixDemo.v ===== *)
(** * The prefix cache: a concrete cache

    Concrete stand-ins for the parts the cache takes as parameters (an
    allocator that remembers what was freed, a fixed digest, a priority queue
    that selects the minimum, a clock that counts its readings), a small cache
    built with the operations themselves, and the theorems of the previous
    files at that cache. *)

From S2P Require Import Prelude PyDict RadixKey KvEvents RadixTree RadixOps RadixInv RadixMoves.
From S2P Require Import RadixState RadixLocks RadixRun RadixEvents RadixInsert RadixSpec RadixEvict.
From S2P Require Import RadixLockOps RadixTotal.

(** *** The parameters *)

#[export] Instance demo_free : KvFree (list Z) := fun l a => (Ok tt, a ++ l).
#[export] Instance demo_free_total : KvFreeTotal (list Z).
Proof. refine {| alloc_ok _ := True |}. intros l a _. by exists (a ++ l). Defined.

#[export] Instance demo_sha : Sha256 :=
  {| sha256_hex _ := "0123456789abcdef00"; fromhex _ := [1; 35; 69] |}.
#[export] Instance demo_sha_laws : Sha256Laws.
Proof. split. intros b. by eexists. Defined.

(** The order of the entries: by priority, then by access time. *)
Definition before (e1 e2 : heap_entry) : bool :=
  if decide (e_priority e1 = e_priority e2) then bool_decide (e_time e1 < e_time e2)
  else lex_lt (e_priority e1) (e_priority e2).

Lemma lex_lt_irrefl l : lex_lt l l = false.
Proof. induction l as [|x l IH]; simpl; [done|]. by rewrite decide_True. Qed.

Lemma lex_lt_total l1 l2 : lex_lt l1 l2 = false -> l1 ≠ l2 -> lex_lt l2 l1 = true.
Proof.
  revert l2. induction l1 as [|x l1 IH]; intros [|y l2]; simpl; try done.
  repeat case_decide; subst; try done; [intros; apply IH; congruence|].
  repeat case_bool_decide; done || lia.
Qed.

Lemma lex_lt_trans l1 l2 l3 : lex_lt l1 l2 = true -> lex_lt l2 l3 = true -> lex_lt l1 l3 = true.
Proof.
  revert l2 l3. induction l1 as [|x l1 IH]; intros [|y l2] [|z l3]; simpl; try done.
  repeat case_decide; subst; try done; [by apply IH|..]; repeat case_bool_decide; done || lia.
Qed.

Lemma before_entry e1 e2 : before e1 e2 = false -> entry_lt e1 e2 = false.
Proof. unfold before, entry_lt. case_decide; [|done]. intros ->. by rewrite andb_false_r. Qed.

Lemma before_irrefl e : before e e = false.
Proof. unfold before. rewrite decide_True by done. case_bool_decide; [lia|done]. Qed.

Lemma before_asym e1 e2 : before e1 e2 = true -> before e2 e1 = false.
Proof.
  unfold before. destruct (decide (e_priority e1 = e_priority e2)) as [E|E].
  - rewrite (decide_True _ _ (eq_sym E)), bool_decide_eq_true, bool_decide_eq_false. lia.
  - rewrite (decide_False _ _ (not_eq_sym E)). intros Hl1.
    destruct (lex_lt (e_priority e2) (e_priority e1)) eqn:Hl2; [|done].
    pose proof (lex_lt_trans _ _ _ Hl1 Hl2) as Hl3. by rewrite lex_lt_irrefl in Hl3.
Qed.

Lemma before_neg_trans e m x : before e m = false -> before m x = false -> before e x = false.
Proof.
  unfold before. destruct (decide (e_priority e = e_priority m)) as [E1|E1];
    destruct (decide (e_priority m = e_priority x)) as [E2|E2].
  - rewrite decide_True by congruence. rewrite !bool_decide_eq_false. lia.
  - rewrite E1. by rewrite decide_False.
  - rewrite <-E2. by rewrite decide_False.
  - intros Hl1 Hl2. apply lex_lt_total in Hl1; [|done]. apply lex_lt_total in Hl2; [|done].
    pose proof (lex_lt_trans _ _ _ Hl2 Hl1) as Hl3. case_decide as E3.
    + rewrite E3 in Hl3. by rewrite lex_lt_irrefl in Hl3.
    + destruct (lex_lt (e_priority e) (e_priority x)) eqn:Hl4; [|done].
      pose proof (lex_lt_trans _ _ _ Hl3 Hl4) as Hl5. by rewrite lex_lt_irrefl in Hl5.
Qed.

(** Selection of the smallest entry. *)
Fixpoint select_min (l : list heap_entry) : option (heap_entry * list heap_entry) :=
  match l with
  | [] => None
  | e :: l' =>
      match select_min l' with
      | None => Some (e, [])
      | Some (m, rest) => if before m e then Some (m, e :: rest) else Some (e, m :: rest)
      end
  end.

Lemma select_min_spec l : l ≠ [] -> exists m rest,
  select_min l = Some (m, rest) /\ l ≡ₚ m :: rest /\ forall e, e ∈ rest -> before e m = false.
Proof.
  induction l as [|e l IH]; [done|]. intros _. destruct l as [|e' l].
  { exists e, []. split_and!; [done|done|]. intros x Hx. by apply elem_of_nil in Hx. }
  destruct IH as (m & rest & Hsel & Hperm & Hmin); [done|]. cbn [select_min]. 
  cbn [select_min] in Hsel. rewrite Hsel. destruct (before m e) eqn:Eb.
  - exists m, (e :: rest). split_and!; [done|rewrite Hperm; constructor|].
    intros x [->|Hx]%elem_of_cons; [by apply before_asym|by apply Hmin].
  - exists e, (m :: rest). split_and!; [done|by rewrite Hperm|].
    intros x [->|Hx]%elem_of_cons; [done|]. eapply before_neg_trans; [by apply Hmin|done].
Qed.

#[export] Instance demo_heap : HeapQ :=
  {| heapify l := l; heappush l e := e :: l; heappop := select_min; set_order := elements |}.

#[export] Instance demo_heap_laws : HeapQLaws.
Proof.
  refine {| is_heap _ := True |}; [done|done|done| |done].
  intros l _ Hl. destruct (select_min_spec l Hl) as (m & rest & Hsel & Hperm & Hmin).
  exists m, rest. split_and!; [done|done|done|]. intros e He. by apply before_entry, Hmin.
Defined.

Definition demo_clock (n : nat) : Z := Z.of_nat n.

(** *** The cache *)

Definition demo_params : CacheParams := MkParams false 1 true false false LRUStrategy.

(** A cache without any node: what the constructor starts from. *)
Definition demo_blank : RadixCache (list Z) := MkCache demo_params ∅ 0 0 0 0 ∅ [] 0 [].

Definition demo_empty : RadixCache (list Z) := (reset demo_clock demo_blank).2.

Definition plain (l : list Z) : RadixKey := MkKey l None false.

Definition demo_insert (l : list Z) (s : RadixCache (list Z)) : RadixCache (list Z) :=
  (insert demo_clock (plain l) None None false s).2.

(** Two prompts with a common prefix and one of their own. *)
Definition demo_cache : RadixCache (list Z) :=
  demo_insert [8; 9; 10] (demo_insert [1; 2; 4; 5] (demo_insert [1; 2; 3] demo_empty)).

Lemma demo_empty_inv : radix_inv demo_empty {[0%nat]} [] /\ params demo_empty = demo_params.
Proof.
  destruct (reset_run demo_clock demo_blank) as (s' & Hr & Hi & Hp & _ & Hrt & _).
  - simpl. lia.
  - intros x [n Hn]. simpl in Hn. by rewrite lookup_empty in Hn.
  - unfold demo_empty. rewrite Hr. simpl. rewrite Hrt in Hi. done.
Qed.

Lemma demo_insert_inv l s L H' :
  Forall (fun t => 0 <= t < 2 ^ 32) l ->
  radix_inv s L H' -> params s = demo_params ->
  exists L', radix_inv (demo_insert l s) L' H' /\ params (demo_insert l s) = demo_params.
Proof.
  intros Hfit Hinv Hp.
  destruct (insert_then_match demo_clock s L H' (plain l) None None false) as
    (n & vs & s' & L' & Hr & _ & _ & Hi & (_ & Hp' & _) & _); try done; rewrite ?Hp; try done.
  - change (length (take (length l) l) = length l). by rewrite firstn_all.
  - exists L'. unfold demo_insert. rewrite Hr. simpl. by rewrite Hp', Hp.
Qed.

Lemma demo_cache_inv : exists L, radix_inv demo_cache L [] /\ params demo_cache = demo_params.
Proof.
  destruct demo_empty_inv as [Hi0 Hp0].
  destruct (demo_insert_inv [1; 2; 3] _ _ _ ltac:(repeat constructor; lia) Hi0 Hp0) as (L1 & Hi1 & Hp1).
  destruct (demo_insert_inv [1; 2; 4; 5] _ _ _ ltac:(repeat constructor; lia) Hi1 Hp1) as (L2 & Hi2 & Hp2).
  exact (demo_insert_inv [8; 9; 10] _ _ _ ltac:(repeat constructor; lia) Hi2 Hp2).
Qed.

(** The node of the second prompt is a leaf nobody holds. *)
Definition demo_leaf : nat := 3.

Lemma demo_leaf_live L : radix_inv demo_cache L [] -> demo_leaf ∈ L.
Proof.
  intros Hinv. assert (demo_leaf ∈ evictable_leaves demo_cache) as Hl
    by (apply (bool_decide_eq_true_1 (demo_leaf ∈ evictable_leaves demo_cache)); vm_compute; reflexivity).
  apply (i_leaves _ _ _ _ _ _ _ _ _ Hinv) in Hl. naive_solver.
Qed.

(** The cache while a request holds that node. *)
Definition demo_locked : RadixCache (list Z) := (inc_lock_ref demo_leaf demo_cache).2.

Lemma demo_locked_inv : exists L, radix_inv demo_locked L [demo_leaf] /\ params demo_locked = demo_params.
Proof.
  destruct demo_cache_inv as (L & Hi & Hp).
  destruct (inc_lock_ref_run demo_cache L [] demo_leaf Hi) as (l & w & v & s' & _ & Hr & Hi' & Hv);
    [by rewrite Hp|by apply demo_leaf_live|].
  unfold demo_locked. rewrite Hr. exists L. split; [exact Hi'|]. rewrite <-Hp. exact (f_equal v_params Hv).
Qed.

(** *** The theorems at this cache *)

#[local] Opaque demo_cache demo_locked.

(** The side conditions of an insertion into this cache. *)
Lemma demo_insert_ready : params demo_cache = demo_params ->
  disable (params demo_cache) = false /\
  length (insert_value (params demo_cache) (plain [1; 2; 6]) (Some [50; 51; 52])) =
    key_len (query_key (params demo_cache) (plain [1; 2; 6])) /\
  (enable_kv_cache_events (params demo_cache) = true ->
    tokens_fit (query_key (params demo_cache) (plain [1; 2; 6]))).
Proof. intros ->. split_and!; [reflexivity..|]. intros _. repeat constructor; lia. Qed.

(** a lookup of [1; 2; 3; 13; 14] finds [1; 2; 3] *)
Lemma match_prefix_spec_witness : exists L, radix_inv demo_cache L [] /\
  (match_prefix demo_clock (plain [1; 2; 3; 13; 14]) demo_cache).1 = Ok (MkMatch [1; 2; 3] 1) /\
  exists v n last s' L',
    match_prefix demo_clock (plain [1; 2; 3; 13; 14]) demo_cache = (Ok (MkMatch v last), s') /\
    longest demo_cache L (query (params demo_cache) (plain [1; 2; 3; 13; 14])) n v /\
    radix_inv s' L' [].
Proof.
  destruct demo_cache_inv as (L & Hi & Hp). exists L. split; [exact Hi|]. split; [vm_compute; reflexivity|].
  destruct (match_prefix_spec demo_clock demo_cache L [] (plain [1; 2; 3; 13; 14]) Hi ltac:(rewrite Hp; reflexivity))
    as (v & n & last & s' & L' & Hr & Hl & _ & _ & Hi' & _).
  exists v, n, last, s', L'. split_and!; assumption.
Defined.

(** an insertion of [1; 2; 6] shares [1; 2] *)
Lemma insert_spec_witness : exists L, radix_inv demo_cache L [] /\
  (insert demo_clock (plain [1; 2; 6]) (Some [50; 51; 52]) None false demo_cache).1 = Ok 2%nat /\
  exists n vs s' L',
    insert demo_clock (plain [1; 2; 6]) (Some [50; 51; 52]) None false demo_cache =
      (Ok (n * page_size (params demo_cache))%nat, s') /\
    longest demo_cache L (query (params demo_cache) (plain [1; 2; 6])) n vs /\ radix_inv s' L' [].
Proof.
  destruct demo_cache_inv as (L & Hi & Hp). exists L. split; [exact Hi|]. split; [vm_compute; reflexivity|].
  destruct (demo_insert_ready Hp) as (Hd & Hlen & Hfit).
  destruct (insert_spec demo_clock demo_cache L [] (plain [1; 2; 6]) (Some [50; 51; 52]) None false Hi Hd Hlen Hfit)
    as (n & vs & s' & L' & Hr & Hl & Hi' & _).
  exists n, vs, s', L'. split_and!; assumption.
Defined.

Lemma insert_match_roundtrip_witness : exists L n vs s' last s'',
  radix_inv demo_cache L [] /\
  insert demo_clock (plain [1; 2; 6]) (Some [50; 51; 52]) None false demo_cache =
    (Ok (n * page_size (params demo_cache))%nat, s') /\
  longest demo_cache L (query (params demo_cache) (plain [1; 2; 6])) n vs /\
  match_prefix demo_clock (plain [1; 2; 6]) s' =
    (Ok (MkMatch (vs ++ drop (n * page_size (params demo_cache))
      (insert_value (params demo_cache) (plain [1; 2; 6]) (Some [50; 51; 52]))) last), s'').
Proof.
  destruct demo_cache_inv as (L & Hi & Hp). exists L.
  destruct (demo_insert_ready Hp) as (Hd & Hlen & Hfit).
  destruct (insert_match_roundtrip demo_clock demo_cache L [] (plain [1; 2; 6]) (Some [50; 51; 52]) None false
    Hi Hd Hlen Hfit) as (n & vs & s' & last & s'' & Hr & Hl & Hm & _).
  exists n, vs, s', last, s''. split_and!; assumption.
Defined.

(** an eviction of four tokens takes whole nodes, five tokens *)
Lemma evict_spec_witness : exists L, radix_inv demo_cache L [] /\
  (evict 4 demo_cache).1 = Ok 5 /\
  exists ls s' L', evict 4 demo_cache = (Ok (len (concat ls)), s') /\ radix_inv s' L' [] /\
    Z.min 4 (evictable_size demo_cache) <= len (concat ls) /\
    allocator s' = free_all ls (allocator demo_cache).
Proof.
  destruct demo_cache_inv as (L & Hi & Hp). exists L. split; [exact Hi|]. split; [vm_compute; reflexivity|].
  destruct (evict_spec demo_cache L [] 4 Hi ltac:(rewrite Hp; reflexivity) I) as
    (ls & s' & L' & Hr & Hi' & Hmin & _ & _ & _ & Ha).
  exists ls, s', L'. split_and!; assumption.
Defined.

(** while the node of [1; 2; 4; 5] is held, an eviction of everything spares it *)
Lemma evict_safe_witness : exists L n ls s' L', radix_inv demo_locked L [demo_leaf] /\
  evict 100 demo_locked = (Ok n, s') /\ evictions demo_locked L ls s' L' /\
  (forall w v, spells demo_locked demo_leaf w v -> demo_leaf ∈ L' /\ spells s' demo_leaf w v).
Proof.
  destruct demo_locked_inv as (L & Hi & Hp).
  destruct (evict_safe demo_locked L [demo_leaf] 100 Hi ltac:(rewrite Hp; reflexivity) I) as
    (n & ls & s' & L' & Hr & He & Hh & _).
  exists L, n, ls, s', L'. split_and!; [assumption..|]. intros w v Hs.
  destruct (Hh demo_leaf w v ltac:(left) Hs) as (H1 & H2 & _). split; assumption.
Defined.

(** taking the node of [1; 2; 4; 5] and giving it back, in the cache where
    nobody holds it and in the one where a request does *)
Lemma lock_ref_spec_witness : (exists L d s1 s2, radix_inv demo_cache L [] /\
    inc_lock_ref demo_leaf demo_cache = (Ok (- d), s1) /\ radix_inv s1 L [demo_leaf] /\
    dec_lock_ref demo_leaf s1 = (Ok d, s2) /\ view s2 = view demo_cache) /\
  (exists L d s', radix_inv demo_locked L [demo_leaf] /\
    dec_lock_ref demo_leaf demo_locked = (Ok d, s') /\ radix_inv s' L [] /\
    evictable_size s' = evictable_size demo_locked + d).
Proof.
  split.
  - destruct demo_cache_inv as (L & Hi & Hp).
    destruct (proj1 (lock_ref_spec demo_cache L [] demo_leaf Hi ltac:(rewrite Hp; reflexivity)) (demo_leaf_live L Hi))
      as (d & s1 & s2 & Hr & _ & Hi' & _ & _ & _ & _ & _ & _ & Hdec & Hv).
    exists L, d, s1, s2. split_and!; assumption.
  - destruct demo_locked_inv as (L & Hi & Hp).
    destruct (proj2 (lock_ref_spec demo_locked L [demo_leaf] demo_leaf Hi ltac:(rewrite Hp; reflexivity)) []
      ltac:(reflexivity)) as (d & s' & Hr & _ & Hi' & He & _).
    exists L, d, s'. split_and!; assumption.
Defined.

Lemma reset_spec_witness : exists L s', radix_inv demo_cache L [] /\
  reset demo_clock demo_cache = (Ok tt, s') /\ evictable_size s' = 0.
Proof.
  destruct demo_cache_inv as (L & Hi & Hp).
  destruct (proj2 (reset_spec demo_clock) demo_cache L [] Hi) as (s' & Hr & _ & _ & _ & He & _).
  exists L, s'. split_and!; assumption.
Defined.

Lemma total_size_spec_witness : (exists L, radix_inv demo_cache L []) /\
  (total_size demo_cache).1 = Ok 8 /\
  total_size demo_cache = (Ok (evictable_size demo_cache + protected_size demo_cache), demo_cache).
Proof.
  destruct demo_cache_inv as (L & Hi & Hp). split; [exists L; exact Hi|]. split; [vm_compute; reflexivity|].
  exact (proj1 (total_size_spec demo_cache L [] Hi)).
Defined.
