(* ===== verification/RadixReqDemo.v ===== *)
(** * The prefix cache: a concrete request

    A request on the cache of RadixDemo.v, the theorems of RadixReqFacts.v at
    that request, and a run in which [release_kv_cache] frees slots the tree
    still hands out. *)

From S2P Require Import Prelude PyDict RadixKey KvEvents RadixTree RadixOps RadixInv RadixMoves.
From S2P Require Import RadixState RadixLocks RadixRun RadixEvents RadixInsert RadixSpec RadixEvict.
From S2P Require Import RadixLockOps RadixTotal RadixSlots RadixReq RadixReqFacts RadixDemo.

(** *** Paths, computed *)

(** The path from [x] to the root, if the fuel is enough. *)
Fixpoint path_of (fuel ps r : nat) (g : cores) (x : nat) : option (list nat * list child_key_t * list Z) :=
  if decide (x = r) then Some ([], [], [])
  else
    match fuel with
    | O => None
    | S fuel' =>
        match g !! x with
        | Some n =>
            match co_parent n with
            | Some p =>
                match path_of fuel' ps r g p with
                | Some (l, w, v) => Some (x :: l, w ++ pages ps (co_key n), v ++ co_val n)
                | None => None
                end
            | None => None
            end
        | None => None
        end
    end.

Lemma path_of_up fuel ps r g x l w v : path_of fuel ps r g x = Some (l, w, v) -> up ps r g x l w v.
Proof.
  revert x l w v. induction fuel as [|fuel IH]; intros x l w v; simpl.
  - case_decide; [|done]. intros [= <- <- <-]. subst. constructor.
  - case_decide as Hx; [intros [= <- <- <-]; subst; constructor|].
    destruct (g !! x) as [n|] eqn:Hn; [|done]. destruct (co_parent n) as [p|] eqn:Hp; [|done].
    destruct (path_of fuel ps r g p) as [[[l' w'] v']|] eqn:Hpath; [|done]. intros [= <- <- <-].
    eapply up_node; [done..|by apply IH].
Qed.

(** The indices fit if those of every node do. *)
Lemma indices_fit_nodes {A} (s : RadixCache A) L :
  map_Forall (fun _ n => Forall int32_range (co_val n)) (heap_cores s) -> indices_fit s L.
Proof.
  intros Hall w v (x & l & w' & v' & _ & Hu & _ & ->). apply Forall_take. clear w L.
  induction Hu as [|x n p l w v Hx Hg Hp Hu IH]; [constructor|].
  apply Forall_app. split; [done|]. exact (Hall x n Hg).
Qed.

#[export] Instance int32_range_dec z : Decision (int32_range z).
Proof. unfold int32_range. apply _. Defined.

(** *** The request *)

(** It has been matched to the node of [1; 2; 4; 5] and has computed two more
    tokens. *)
Definition demo_req : Req :=
  MkReq [1; 2; 4; 5; 7] [8] [1; 2; 4; 5; 7; 8] None None (Some 1%nat) [] 4 (Some demo_leaf) 6 6 false false 0 0 false.

Definition demo_row : list Z := [1; 2; 4; 5; 60; 61; 0; 0].

Definition demo_pool : ReqToTokenPool :=
  with_row 1 demo_row (MkPool 2 8 (req_to_token (pool_init 2 8)) [2%nat]).

Definition demo_env : ReqEnv (RadixCache (list Z)) := MkEnv demo_locked demo_pool demo_req.

Definition demo_args : ServerArgs := MkArgs 1 false false.

Lemma demo_req_held : params demo_locked = demo_params -> req_held demo_locked demo_leaf demo_req demo_row [1; 2; 4; 5; 7; 8].
Proof.
  intros Hp. split; [reflexivity|]. exists 4%nat. rewrite Hp. split; [reflexivity|]. split; [vm_compute; lia|].
  eexists. rewrite Hp. apply (path_of_up 8). vm_compute. reflexivity.
Qed.

Lemma demo_row_fit : Forall int32_range demo_row.
Proof. apply (bool_decide_eq_true_1 (Forall int32_range demo_row)). vm_compute. reflexivity. Qed.

Lemma demo_locked_fit L : indices_fit demo_locked L.
Proof.
  apply indices_fit_nodes.
  apply (bool_decide_eq_true_1 (map_Forall (fun _ n => Forall int32_range (co_val n)) (heap_cores demo_locked))).
  vm_compute. reflexivity.
Qed.

#[local] Opaque demo_locked demo_cache.

Lemma cache_unfinished_req_spec_witness : exists L t' L' last dup row',
  radix_inv demo_locked L [demo_leaf] /\
  cache_unfinished_req demo_clock false demo_env =
    (Ok tt, MkEnv t' (with_row 1 row' demo_pool) (set_cached (take 6 row') 6 (Some last) demo_req)) /\
  radix_inv t' L' [last] /\
  req_held t' last (set_cached (take 6 row') 6 (Some last) demo_req) row' [1; 2; 4; 5; 7; 8] /\
  (forall i, tree_occ t' L' i + occ i dup + occ i [] = tree_occ demo_locked L i + occ i [60; 61]).
Proof.
  destruct demo_locked_inv as (L & Hi & Hp). exists L.
  destruct (cache_unfinished_req_spec demo_clock demo_env L [demo_leaf] [] demo_leaf 1 demo_row false Hi
    ltac:(reflexivity) ltac:(cbn [tree demo_env]; rewrite Hp; reflexivity) I ltac:(reflexivity) ltac:(reflexivity)
    ltac:(cbn; lia) ltac:(repeat constructor; lia) demo_row_fit (demo_locked_fit L) (demo_req_held Hp)) as
    (t' & L' & last & dup & row' & Hr & Hi' & _ & _ & (_ & _ & _ & Ho) & Hh & _).
  cbn [tree req pool demo_env] in *. rewrite Hp in *.
  exists t', L', last, dup, row'. split_and!; assumption.
Defined.

(** A disabled cache with pages of four slots and speculative decoding: six
    tokens are committed, nine are allocated, the row has the pages 3, 5 and 2
    of the allocator. *)
Definition off_env : ReqEnv (RadixCache (list Z)) :=
  MkEnv (MkCache (MkParams true 4 false false false LRUStrategy) ∅ 0 0 0 0 ∅ [] 0 [])
    (with_row 1 [12; 13; 14; 15; 20; 21; 22; 23; 8; 0; 0; 0] (MkPool 2 12 (req_to_token (pool_init 2 12)) [2%nat]))
    (MkReq [1; 2; 4; 5; 7] [8] [1; 2; 4; 5; 7; 8] None None (Some 1%nat) [] 0 None 6 9 false false 0 0 false).

Lemma off_row_paged : row_paged 4 9 [12; 13; 14; 15; 20; 21; 22; 23; 8; 0; 0; 0].
Proof.
  assert (forall p x, (p < 9)%nat -> [12; 13; 14; 15; 20; 21; 22; 23; 8; 0; 0; 0] !! p = Some x ->
    Some (x / 4) = [3; 5; 2] !! (p / 4)%nat) as Hpage.
  { intros p x Hp. do 9 (destruct p as [|p]; [intros [= <-]; reflexivity|]). lia. }
  intros p q x y Hp Hq Hpq Hx Hy. apply Hpage in Hx, Hy; [|done..]. rewrite Hpq in Hx. change (Z.of_nat 4) with 4. congruence.
Qed.

Lemma release_kv_cache_spec_witness :
  (exists L t' L' dup,
    radix_inv demo_locked L [demo_leaf] /\
    release_kv_cache demo_clock demo_args true demo_env =
      (Ok tt, MkEnv t' (row_returned 1 demo_pool) (req_released demo_req)) /\
    radix_inv t' L' [] /\
    (forall i, tree_occ t' L' i + occ i dup + occ i [] = tree_occ demo_locked L i + occ i [60; 61])) /\
  (release_kv_cache demo_clock (MkArgs 4 true false) true off_env).1 = Ok tt /\
  pages_freed 4 0 9 [12; 13; 14; 15; 20; 21; 22; 23; 8; 0; 0; 0] [12; 13; 14; 15; 20; 21; 8].
Proof.
  split.
  - destruct demo_locked_inv as (L & Hi & Hp). exists L.
    destruct (release_kv_cache_spec demo_clock demo_args demo_env L [demo_leaf] [] demo_leaf 1 demo_row true
      ltac:(exact I) ltac:(reflexivity) ltac:(reflexivity) ltac:(reflexivity) ltac:(reflexivity) ltac:(reflexivity)) as (_ & Hen & _).
    destruct Hen as (t' & L' & dup & Hr & Hi' & (_ & _ & _ & Ho) & _);
      [cbn [tree demo_env]; rewrite Hp; reflexivity|exact Hi|reflexivity|cbn; lia|repeat constructor; lia|exact (demo_req_held Hp)|].
    cbn [tree req pool demo_env] in *. rewrite Hp in *.
    exists t', L', dup. split_and!; assumption.
  - destruct (release_kv_cache_spec demo_clock (MkArgs 4 true false) off_env ∅ [] [] 0 1
      [12; 13; 14; 15; 20; 21; 22; 23; 8; 0; 0; 0] true
      ltac:(exact I) ltac:(reflexivity) ltac:(reflexivity) ltac:(reflexivity) ltac:(reflexivity) ltac:(discriminate)) as (Hoff & _).
    destruct (Hoff eq_refl) as [Hr Hp]. split; [by rewrite Hr|].
    exact (Hp 4%nat ltac:(lia) eq_refl off_row_paged).
Defined.

(** *** Thinking tokens and retraction *)

(** A request with two prompt tokens that had generated two thinking tokens
    when it was retracted: [reset_for_retract] keeps its output and its count
    of reasoning tokens, so the second prefill covers prompt and output. *)
Definition think_req : Req :=
  MkReq [1; 2] [3; 4] [1; 2; 3; 4] None None (Some 1%nat) [] 0 (Some 0%nat) 4 4 false false 2 0 false.

Definition think_row : list Z := [11; 12; 13; 14; 15; 0].

Definition think_env : ReqEnv (RadixCache (list Z)) :=
  MkEnv demo_empty (with_row 1 think_row (MkPool 1 6 (req_to_token (pool_init 1 6)) [])) think_req.

(** After the second prefill has been cached, one more token is decoded. *)
Definition think_decoded : ReqEnv (RadixCache (list Z)) :=
  let e := (cache_unfinished_req demo_clock false think_env).2 in
  let r := req e in
  MkEnv (tree e) (pool e)
    (MkReq [1; 2] [3; 4; 5] (fill_ids r) None None (req_pool_idx r) (prefix_indices r) (cache_protected_len r)
      (last_node r) 5 5 false false 3 0 false).

Definition think_args : ServerArgs := MkArgs 1 false true.

Definition think_released : ReqEnv (RadixCache (list Z)) :=
  (release_kv_cache demo_clock think_args true think_decoded).2.

(** With [strip_thinking_cache], the release of a request that was retracted
    while it was thinking succeeds and frees the slots 13 and 14, which the
    tree still holds: a later request with the same tokens is handed freed
    slots. *)
Lemma strip_thinking_frees_cached :
  (release_kv_cache demo_clock think_args true think_decoded).1 = Ok tt /\
  allocator (tree think_released) = [13; 14; 15] /\
  (match_prefix demo_clock (plain [1; 2; 3; 4]) (tree think_released)).1 = Ok (MkMatch [11; 12; 13; 14] 1).
Proof. vm_compute. repeat split. Qed.
