(* ===== verification/RadixAlloc.v ===== *)
(** * Allocation under memory pressure

    [alloc_token_slots] and [evict_from_tree_cache] of mem_cache/common.py on a
    [RadixCache] whose allocator is a [TokenToKVPoolAllocator]: when the free
    slots do not suffice, cached prefixes nobody holds are evicted first.  The
    allocator discharges the interface ([KvFree], [KvFreeTotal]) the cache's
    theorems are stated against. *)

From S2P Require Import Prelude PyDict KvAllocator KvAllocFacts.
From S2P Require Import RadixKey KvEvents RadixTree RadixOps RadixInv RadixMoves RadixState RadixLocks RadixRun.
From S2P Require Import RadixEvents RadixInsert RadixSpec RadixEvict RadixLockOps RadixSlots RadixTotal RadixDemo.

(** *** The allocator behind the cache *)

#[export] Instance token_free : KvFree KvAllocator := Token.free.

#[export] Instance token_free_total : KvFreeTotal KvAllocator.
Proof.
  refine {| alloc_ok a := sort_ok a /\ is_not_in_free_group a = true |}.
  intros l a [Hs Hg]. destruct (free_run l a Hs) as (a' & Hr & Hs' & _ & Hg' & _).
  exists a'. split; [exact Hr|]. split; [done|congruence].
Defined.

Abbreviation Cache := (RadixCache KvAllocator).

(** The slots the allocator can hand out. *)
Definition pool_slots (s : Cache) : list Z := free_pages (allocator s) ++ release_pages (allocator s).

Section alloc.
Context `{Sha256} `{HeapQ}.

(** [evict_from_tree_cache], for an allocator with one pool *)
Definition evict_from_tree_cache (num_tokens : nat) : M Cache unit :=
  a ← gets (fun s : Cache => allocator s);
  if decide (Token.available_size a < Z.of_nat num_tokens)
  then evict (Z.of_nat num_tokens) ≫= fun _ => mret tt
  else mret tt.

(** [alloc_token_slots]; the second result is [state] *)
Definition alloc_token_slots (num_tokens : nat) (backup : bool) : M Cache (list Z * option (list Z * list Z)) :=
  evict_from_tree_cache num_tokens ≫= fun _ =>
  state ← gets (fun s : Cache => if backup then Some (backup_state (allocator s)) else None);
  out_cache_loc ← zoom allocator upd_allocator (Token.alloc num_tokens);
  match out_cache_loc with
  | None =>
      pretty_print ≫= fun _ => raise RuntimeError "Out of memory. Try to lower your batch size."
  | Some l => mret (l, state)
  end.

Context `{!Sha256Laws} `{!HeapQLaws}.

(** The allocator after a series of frees outside of a group. *)
Lemma free_all_token ls a :
  sort_ok a -> is_not_in_free_group a = true ->
  let a' := free_all ls a in
  sort_ok a' /\ is_not_in_free_group a' = true /\
  Token.available_size a' = Token.available_size a + len (concat ls) /\
  free_pages a' ++ release_pages a' ≡ₚ (free_pages a ++ release_pages a) ++ concat ls.
Proof.
  revert a. induction ls as [|l ls IH]; intros a Hs Hg.
  { change (free_all [] a) with a. cbn [concat]. rewrite app_nil_r. split_and!; try done. unfold len at 1. simpl. lia. }
  destruct (free_run l a Hs) as (a1 & Hr & Hs1 & _ & Hg1 & Hacc & Hav).
  change (free_all (l :: ls) a) with (free_all ls (Token.free l a).2). rewrite Hr. cbn [snd].
  destruct (IH a1 Hs1 ltac:(congruence)) as (I1 & I2 & I3 & I4).
  unfold accounted in Hacc. rewrite Hg1, Hg, !app_nil_r in Hacc.
  change (concat (l :: ls)) with (l ++ concat ls).
  split_and!; [done|done|rewrite I3, (Hav Hg), len_app; lia|rewrite I4, Hacc; by rewrite <-app_assoc].
Qed.

(** What an eviction followed by an allocation keeps. *)
Definition evicted_for (s : Cache) (L : gset nat) (H' : list nat) (s' : Cache) (L' : gset nat) : Prop :=
  radix_inv s' L' H' /\ params s' = params s /\
  (forall y w v, y ∈ H' -> spells s y w v -> y ∈ L' /\ spells s' y w v) /\
  (forall w v, content s' L' w v -> content s L w v).

Lemma evict_from_tree_cache_run s L H' n :
  radix_inv s L H' -> disable (params s) = false -> alloc_ok (allocator s) ->
  exists s' L', evict_from_tree_cache n s = (Ok tt, s') /\ evicted_for s L H' s' L' /\ alloc_ok (allocator s') /\
    Z.min (Z.of_nat n) (Token.available_size (allocator s) + evictable_size s) <=
      Token.available_size (allocator s') <=
      Z.max (Token.available_size (allocator s)) (Token.available_size (allocator s) + evictable_size s) /\
    forall i, tree_occ s' L' i + occ i (pool_slots s') = tree_occ s L i + occ i (pool_slots s).
Proof.
  intros Hinv Hd Ha. unfold evict_from_tree_cache. erewrite bind_ok by reflexivity. cbv beta. case_decide as Hlt.
  - destruct (evict_run s L H' (Z.of_nat n) Hinv Hd Ha) as (ls & s' & L' & Hr & Hev & Ha' & Hend & _).
    destruct (evictions_spec s L H' ls s' L' Hev Hinv) as (Hi & HL & Hp & Hrt & Hal & Hsz & Hpr & Hsp & Hc).
    destruct Ha as [Hs Hg]. destruct (free_all_token ls (allocator s) Hs Hg) as (Hs' & Hg' & Hav & Hperm).
    rewrite <-Hal in Hs', Hg', Hav, Hperm.
    exists s', L'. rewrite (bind_ok _ _ _ _ _ Hr). split; [done|]. split.
    { split_and!; try done. intros y w v Hy Hs0. split; [by apply (inv_held_live Hi)|by apply Hsp]. }
    split; [done|]. destruct (inv_sizes_nonneg s' L' H' Hi) as [He' _].
    assert (0 <= Token.available_size (allocator s)) as Hav0.
    { unfold Token.available_size. pose proof (len_nonneg (free_pages (allocator s))).
      pose proof (len_nonneg (release_pages (allocator s))). lia. }
    split; [unfold evictable_size; rewrite Hav; split; [|lia]|].
    + destruct Hend as [Hge|HE]; [lia|]. pose proof (no_leaves_evictable s' L' H' Hi HE). lia.
    + intros i. rewrite <-(evictions_occ s L H' ls s' L' i Hev Hinv). unfold pool_slots.
      rewrite (occ_perm i _ _ Hperm), occ_app. lia.
  - exists s, L. destruct (inv_sizes_nonneg s L H' Hinv) as [He _]. unfold evictable_size. split; [done|]. split.
    { split_and!; try done. intros y w v Hy Hs0. split; [by apply (inv_held_live Hinv)|done]. }
    split_and!; try done; lia.
Qed.

(** What an allocation under memory pressure does *)
Lemma alloc_token_slots_run s L H' n backup :
  radix_inv s L H' -> disable (params s) = false -> alloc_ok (allocator s) ->
  exists r s' L', alloc_token_slots n backup s = (r, s') /\ evicted_for s L H' s' L' /\ alloc_ok (allocator s') /\
    match r with
    | Ok (l, _) => Z.of_nat n <= Token.available_size (allocator s) + evictable_size s /\ length l = n /\
        forall i, tree_occ s' L' i + occ i (pool_slots s') + occ i l = tree_occ s L i + occ i (pool_slots s)
    | Raise e => Token.available_size (allocator s) + evictable_size s < Z.of_nat n /\
        exn_type e = RuntimeError /\
        forall i, tree_occ s' L' i + occ i (pool_slots s') = tree_occ s L i + occ i (pool_slots s)
    end.
Proof.
  intros Hinv Hd Ha.
  destruct (evict_from_tree_cache_run s L H' n Hinv Hd Ha) as (s1 & L1 & Hr & (Hi & Hp & Hh & Hc) & [Hs Hg] & Hb & Ho).
  destruct (alloc_run n (allocator s1) Hs) as (r & a' & Hal & Hs' & _ & Hg' & _ & Hres).
  destruct (inv_sizes_nonneg s L H' Hinv) as [He _]. unfold evictable_size in *.
  unfold alloc_token_slots. rewrite (bind_ok _ _ _ _ _ Hr). cbv beta. erewrite bind_ok by reflexivity. cbv beta.
  rewrite (bind_ok _ _ s1 (upd_allocator a' s1) r) by (unfold zoom; by rewrite Hal). cbv beta.
  assert (alloc_ok (allocator (upd_allocator a' s1))) as Ha' by (split; [done|simpl; congruence]).
  assert (evicted_for s L H' (upd_allocator a' s1) L1) as Hev by (split_and!; [exact Hi|exact Hp|exact Hh|exact Hc]).
  pose proof (pretty_print_run (upd_allocator a' s1) L1 H' Hi) as Hpp.
  destruct r as [l|]; [|rewrite (bind_ok _ _ _ _ _ Hpp)];
    eexists _, (upd_allocator a' s1), L1; (split; [reflexivity|]); (split; [exact Hev|]); (split; [exact Ha'|]).
  - destruct Hres as (Hn & Hl & Hperm). split; [lia|]. split; [done|]. intros i. rewrite <-Ho. unfold pool_slots at 2.
    rewrite (occ_perm i _ _ Hperm), occ_app. unfold pool_slots. simpl.
    change (tree_occ (upd_allocator a' s1) L1 i) with (tree_occ s1 L1 i). lia.
  - destruct Hres as (Hn & Hperm). split; [lia|]. split; [done|]. intros i. rewrite <-Ho. unfold pool_slots. simpl.
    rewrite (occ_perm i _ _ Hperm). done.
Qed.

(** C4: allocation under memory pressure succeeds exactly when it can: with the
    free slots and the evictable ones at least [n], [alloc_token_slots] returns
    [n] slots, evicting as needed; otherwise it raises [RuntimeError].  Either
    way every prefix a request holds stays cached with its slots, the cache
    stays consistent, nothing new is cached, and every slot is afterwards in
    the tree, free, or handed out exactly as often as it was before. *)
Theorem alloc_token_slots_spec s L H' n backup :
  radix_inv s L H' -> disable (params s) = false -> alloc_ok (allocator s) ->
  exists r s' L', alloc_token_slots n backup s = (r, s') /\ evicted_for s L H' s' L' /\ alloc_ok (allocator s') /\
    match r with
    | Ok (l, _) => Z.of_nat n <= Token.available_size (allocator s) + evictable_size s /\ length l = n /\
        forall i, tree_occ s' L' i + occ i (pool_slots s') + occ i l = tree_occ s L i + occ i (pool_slots s)
    | Raise e => Token.available_size (allocator s) + evictable_size s < Z.of_nat n /\
        exn_type e = RuntimeError /\
        forall i, tree_occ s' L' i + occ i (pool_slots s') = tree_occ s L i + occ i (pool_slots s)
    end.
Proof. apply alloc_token_slots_run. Qed.
End alloc.

(** *** A full pool *)

(** Three slots, all of them cached under [1; 2; 3], none held. *)
Definition full_cache : Cache :=
  (insert demo_clock (plain [1; 2; 3]) (Some [1; 2; 3]) None false
    (reset demo_clock (MkCache demo_params ∅ 0 0 0 0 ∅ [] 0 (set_pages [] [] (Token.init 3 false)))).2).2.

Lemma full_cache_inv : exists L, radix_inv full_cache L [] /\ params full_cache = demo_params /\
  alloc_ok (allocator full_cache).
Proof.
  destruct (reset_run demo_clock (MkCache demo_params ∅ 0 0 0 0 ∅ [] 0 (set_pages [] [] (Token.init 3 false))))
    as (s0 & Hr & Hi & Hp & Ha & _).
  { simpl. lia. } { intros x [n Hn]. simpl in Hn. by rewrite lookup_empty in Hn. }
  destruct (insert_then_match demo_clock s0 _ [] (plain [1; 2; 3]) (Some [1; 2; 3]) None false Hi) as
    (n & vs & s' & L' & Hins & _ & _ & Hi' & (_ & Hp' & _) & Ha' & _); rewrite ?Hp; try done.
  { intros _. repeat constructor; lia. }
  exists L'. unfold full_cache. rewrite Hr. cbn [snd]. rewrite Hins. cbn [snd]. rewrite Hp', Hp, Ha', Ha.
  split_and!; [done|done|split; done].
Qed.

#[local] Opaque full_cache.

Lemma alloc_token_slots_spec_witness : exists L r s' L',
  radix_inv full_cache L [] /\ alloc_token_slots 2 false full_cache = (r, s') /\
  r = Ok ([1; 2], None) /\ evicted_for full_cache L [] s' L'.
Proof.
  destruct full_cache_inv as (L & Hi & Hp & Ha).
  destruct (alloc_token_slots_spec full_cache L [] 2 false Hi ltac:(rewrite Hp; reflexivity) Ha) as
    (r & s' & L' & Hr & Hev & _).
  exists L, r, s', L'. split; [exact Hi|]. split; [exact Hr|]. split; [|exact Hev].
  apply (f_equal fst) in Hr. cbn [fst] in Hr. rewrite <-Hr. vm_compute. reflexivity.
Defined.
