(* ===== verification/PySort.v ===== *)
(** * [list.sort]

    Keys are numbers, [float("inf")], strings and tuples of them, compared as
    Python compares them; [sort_by] is the stable sort by a key.

    [stable_sorted key l l'] describes the result without an algorithm: [l']
    has the elements of [l], no key is smaller than an earlier one, and
    elements with the same key are in the order they had in [l]. *)

From S2P Require Import Prelude.
From Stdlib Require Import Sorting.Sorted.

(** ** Comparing and sorting *)

(** The [<] of a type of keys *)
Class PyOrd (K : Type) := py_lt : K -> K -> bool.

#[export] Instance Z_ord : PyOrd Z := fun x y => bool_decide (x < y).
#[export] Instance string_ord : PyOrd string := String.ltb.

(** A number or [float("inf")] *)
Inductive xnum := Num (z : Z) | PosInf.

#[export] Instance xnum_eq_dec : EqDecision xnum.
Proof. solve_decision. Defined.

#[export] Instance xnum_ord : PyOrd xnum := fun x y =>
  match x, y with
  | Num a, Num b => bool_decide (a < b)
  | Num _, PosInf => true
  | PosInf, _ => false
  end.

(** Tuples: the first components that differ decide. *)
#[export] Instance prod_ord {K1 K2} `{EqDecision K1} `{PyOrd K1} `{PyOrd K2} : PyOrd (K1 * K2) := fun x y =>
  if decide (x.1 = y.1) then py_lt x.2 y.2 else py_lt x.1 y.1.

Section sort.
Context {E K : Type} `{PyOrd K} (key : E -> K).

Fixpoint insert_by (x : E) (l : list E) : list E :=
  match l with
  | [] => [x]
  | y :: l' => if py_lt (key y) (key x) then y :: insert_by x l' else x :: l
  end.

(** [l.sort(key=key)] *)
Definition sort_by (l : list E) : list E := foldr insert_by [] l.
End sort.

(** ** The orders are strict and total *)

Class PyOrdLaws (K : Type) `{PyOrd K} := {
  py_lt_irrefl x : py_lt x x = false;
  py_lt_trans x y z : py_lt x y = true -> py_lt y z = true -> py_lt x z = true;
  py_lt_total x y : py_lt x y = true \/ x = y \/ py_lt y x = true
}.

#[export] Instance Z_ord_laws : PyOrdLaws Z.
Proof. split; unfold py_lt, Z_ord; intros; rewrite ?bool_decide_eq_true, ?bool_decide_eq_false in *; lia. Qed.

#[export] Instance xnum_ord_laws : PyOrdLaws xnum.
Proof.
  split; unfold py_lt, xnum_ord.
  - intros []; [apply bool_decide_eq_false; lia|done].
  - intros [] [] []; rewrite ?bool_decide_eq_true; try done. lia.
  - intros [a|] [b|]; auto. rewrite !bool_decide_eq_true.
    destruct (Z.lt_trichotomy a b) as [?|[->|?]]; auto.
Qed.

Lemma ascii_compare_lt a b : Ascii.compare a b = Lt <-> (N_of_ascii a < N_of_ascii b)%N.
Proof. unfold Ascii.compare. by rewrite N.compare_lt_iff. Qed.

Lemma ascii_compare_eq a b : Ascii.compare a b = Eq <-> a = b.
Proof.
  unfold Ascii.compare. rewrite N.compare_eq_iff. split; [|by intros ->].
  intros E. by rewrite <-(ascii_N_embedding a), E, ascii_N_embedding.
Qed.

Lemma string_compare_lt s1 s2 s3 :
  String.compare s1 s2 = Lt -> String.compare s2 s3 = Lt -> String.compare s1 s3 = Lt.
Proof.
  revert s2 s3. induction s1 as [|a s1 IH]; intros [|b s2] [|c s3]; simpl; try done.
  destruct (Ascii.compare a b) eqn:Eab; [|intros _|done].
  - apply ascii_compare_eq in Eab as ->. intros H12. destruct (Ascii.compare b c); [by apply IH|done|done].
  - apply ascii_compare_lt in Eab. destruct (Ascii.compare b c) eqn:Ebc; [intros _|intros _|done].
    + apply ascii_compare_eq in Ebc as <-. apply ascii_compare_lt in Eab. by rewrite Eab.
    + apply ascii_compare_lt in Ebc. assert (Ascii.compare a c = Lt) as -> by (apply ascii_compare_lt; by etrans). done.
Qed.

#[export] Instance string_ord_laws : PyOrdLaws string.
Proof.
  split; unfold py_lt, string_ord, String.ltb.
  - intros x. assert (String.compare x x = Eq) as ->; [|done].
    induction x as [|a x IH]; [done|]. simpl. by rewrite (proj2 (ascii_compare_eq a a) eq_refl).
  - intros x y z. destruct (String.compare x y) eqn:E1; try done. destruct (String.compare y z) eqn:E2; try done.
    by rewrite (string_compare_lt x y z).
  - intros x y. rewrite (String.compare_antisym y x). destruct (String.compare x y) eqn:E; simpl; auto.
    right. left. by apply String.compare_eq_iff.
Qed.

Lemma pair_lt {K1 K2} `{EqDecision K1} `{PyOrd K1} `{PyOrd K2} (x1 y1 : K1) (x2 y2 : K2) :
  py_lt (x1, x2) (y1, y2) = if decide (x1 = y1) then py_lt x2 y2 else py_lt x1 y1.
Proof. reflexivity. Qed.

#[export] Instance prod_ord_laws {K1 K2} `{EqDecision K1} `{PyOrdLaws K1} `{PyOrdLaws K2} : PyOrdLaws (K1 * K2).
Proof.
  split.
  - intros []. rewrite pair_lt, decide_True by done. apply py_lt_irrefl.
  - intros [x1 x2] [y1 y2] [z1 z2]. rewrite !pair_lt.
    destruct (decide (x1 = y1)) as [->|Hxy], (decide (y1 = z1)) as [->|Hyz].
    + apply py_lt_trans.
    + done.
    + rewrite decide_False by done. by intros.
    + intros Ha Hb. destruct (decide (x1 = z1)) as [->|]; [|by eapply py_lt_trans].
      pose proof (py_lt_trans _ _ _ Ha Hb) as Hc. by rewrite py_lt_irrefl in Hc.
  - intros [x1 x2] [y1 y2]. rewrite !pair_lt. destruct (decide (x1 = y1)) as [->|Hne].
    + rewrite decide_True by done. destruct (py_lt_total x2 y2) as [?|[->|?]]; auto.
    + rewrite decide_False by done. destruct (py_lt_total x1 y1) as [?|[->|?]]; auto.
Qed.

(** ** What sorting does *)

Section sorted.
Context {E K : Type} `{PyOrdLaws K} `{EqDecision K} (key : E -> K).
Implicit Types (x y : E) (l : list E).

(** [x] may come before [y]. *)
Definition key_le x y : Prop := py_lt (key y) (key x) = false.

Definition stable_sorted l l' : Prop :=
  l' ≡ₚ l /\ StronglySorted key_le l' /\ forall k, filter (fun x => key x = k) l' = filter (fun x => key x = k) l.

Lemma key_le_total x y : key_le x y \/ key_le y x.
Proof.
  unfold key_le. destruct (py_lt (key y) (key x)) eqn:E1; [|by left]. right.
  destruct (py_lt (key x) (key y)) eqn:E2; [|done].
  pose proof (py_lt_trans _ _ _ E1 E2) as Hc. by rewrite py_lt_irrefl in Hc.
Qed.

Lemma key_le_trans x y z : key_le x y -> key_le y z -> key_le x z.
Proof.
  unfold key_le. intros H1 H2. destruct (py_lt (key z) (key x)) eqn:E1; [|done].
  destruct (py_lt_total (key y) (key z)) as [Hc|[Hc|Hc]].
  - pose proof (py_lt_trans _ _ _ Hc E1). congruence.
  - rewrite Hc in *. congruence.
  - congruence.
Qed.

Lemma insert_by_perm x l : insert_by key x l ≡ₚ x :: l.
Proof. induction l as [|y l IH]; simpl; [done|]. destruct (py_lt (key y) (key x)); [|done]. rewrite IH. constructor. Qed.

Lemma insert_by_sorted x l : StronglySorted key_le l -> StronglySorted key_le (insert_by key x l).
Proof.
  induction 1 as [|y l Hl IH Hy]; simpl; [repeat constructor|]. destruct (py_lt (key y) (key x)) eqn:Eyx.
  - constructor; [done|]. rewrite (insert_by_perm x l). constructor; [|done].
    destruct (key_le_total y x) as [?|Hc]; [done|]. unfold key_le in Hc. congruence.
  - constructor; [by constructor|]. constructor; [done|]. eapply Forall_impl; [exact Hy|].
    intros z. by apply key_le_trans.
Qed.

Lemma insert_by_filter x l k :
  filter (fun y => key y = k) (insert_by key x l) = filter (fun y => key y = k) (x :: l).
Proof.
  induction l as [|y l IH]; simpl; [done|]. destruct (py_lt (key y) (key x)) eqn:Eyx; [|done].
  rewrite (filter_cons _ y), IH, !filter_cons. repeat case_decide; try done.
  subst k. rewrite H2, py_lt_irrefl in Eyx. done.
Qed.

Lemma sort_by_stable l : stable_sorted l (sort_by key l).
Proof.
  unfold stable_sorted. induction l as [|x l (IHp & IHs & IHf)]; simpl; [split_and!; constructor|].
  split_and!.
  - by rewrite insert_by_perm, IHp.
  - by apply insert_by_sorted.
  - intros k. rewrite insert_by_filter, !filter_cons. by rewrite IHf.
Qed.

Lemma sort_by_perm l : sort_by key l ≡ₚ l.
Proof. apply sort_by_stable. Qed.

(** Of two elements, the one that comes first has the smaller key, or one
    that is not greater. *)
Lemma stable_sorted_lookup l l' i j x y :
  stable_sorted l l' -> (i < j)%nat -> l' !! i = Some x -> l' !! j = Some y -> key_le x y.
Proof.
  intros (_ & Hs & _). revert i j. induction Hs as [|z l0 Hs IH Hz]; intros [|i] [|j] Hij Hi Hj; try done; try lia.
  - injection Hi as <-. eapply Forall_lookup_1; [exact Hz|exact Hj].
  - apply (IH i j); [lia|done|done].
Qed.
End sorted.

(** Sorting commutes with a map that keeps the keys. *)
Lemma sort_by_fmap {E F K} `{PyOrd K} (f : E -> F) (key : F -> K) (key' : E -> K) (l : list E) :
  (forall x, x ∈ l -> key' x = key (f x)) -> f <$> sort_by key' l = sort_by key (f <$> l).
Proof.
  intros Hk. assert (forall x l, key' x = key (f x) -> (forall y, y ∈ l -> key' y = key (f y)) ->
    f <$> insert_by key' x l = insert_by key (f x) (f <$> l)) as Hins.
  { intros x l0 Hx. induction l0 as [|y l0 IH]; intros Hl; [done|]. simpl. rewrite Hx, (Hl y) by (by left).
    destruct (py_lt (key (f y)) (key (f x))); [|done]. simpl. f_equal. apply IH. intros z Hz. apply Hl. by right. }
  assert (forall l x, x ∈ sort_by key' l -> x ∈ l) as Hin.
  { intros l0. induction l0 as [|y l0 IH]; intros x; simpl; [done|].
    assert (forall l1, x ∈ insert_by key' y l1 -> x = y \/ x ∈ l1) as Hi.
    { intros l1. induction l1 as [|z l1 IH1]; simpl; [set_solver|]. destruct (py_lt (key' z) (key' y)); set_solver. }
    intros [->|Hx]%Hi; [by left|]. right. by apply IH. }
  induction l as [|x l IH]; [done|]. simpl. rewrite Hins.
  - f_equal. apply IH. intros y Hy. apply Hk. by right.
  - apply Hk. by left.
  - intros y Hy%Hin. apply Hk. by right.
Qed.
