(* ===== verification/SchedPolicy.v ===== *)
(** * The order of the waiting queue

    [SchedulePolicy] of managers/schedule_policy.py: which policy is active and
    how it sorts the requests that wait.  The cache-aware policies look every
    request up in the prefix cache ([RadixCache], RadixOps.v) and, to prefer
    one of several requests with a common prefix, in a second tree of the
    requests seen so far; [dfs-weight] walks the prefix cache.

    The queue is part of the state, since lookups write their result to the
    requests.  [random.shuffle] is a parameter; sorting is PySort.v. *)

From S2P Require Import Prelude PyDict PySort RadixKey KvEvents RadixTree RadixOps.

(** ** Requests and policies *)

(** The attributes of [Req] the policies use; the scheduler gives every request
    a priority when priorities are in use *)
Record WReq := MkWReq {
  w_rid : string;
  w_origin_input_ids : list Z;
  w_output_ids : list Z;
  w_extra_key : option string;
  w_priority : Z;
  w_routing_key : option string;
  w_max_new_tokens : Z;
  w_entry_time : Z;
  w_prefix_indices : list Z;
  w_last_node : nat
}.

Definition set_match (v : list Z) (x : nat) (r : WReq) : WReq :=
  MkWReq (w_rid r) (w_origin_input_ids r) (w_output_ids r) (w_extra_key r) (w_priority r) (w_routing_key r)
    (w_max_new_tokens r) (w_entry_time r) v x.

(** [CacheAwarePolicy] and [CacheAgnosticPolicy] *)
Inductive Policy := LPM | DFS_WEIGHT | FCFS | LOF | RANDOM | ROUTING_KEY.

#[export] Instance policy_eq_dec : EqDecision Policy.
Proof. solve_decision. Defined.

Definition CacheAwarePolicy (policy : string) : option Policy :=
  if decide (policy = "lpm") then Some LPM
  else if decide (policy = "dfs-weight") then Some DFS_WEIGHT else None.

Definition CacheAgnosticPolicy (policy : string) : option Policy :=
  if decide (policy = "fcfs") then Some FCFS
  else if decide (policy = "lof") then Some LOF
  else if decide (policy = "random") then Some RANDOM
  else if decide (policy = "routing-key") then Some ROUTING_KEY else None.

(** [_validate_and_adjust_policy] for a cache with the attribute [disable] *)
Definition validate_and_adjust_policy (policy : string) (disable_ : bool) : res Policy :=
  match CacheAwarePolicy policy with
  | Some p => if disable_ then Ok FCFS else Ok p
  | None =>
      match CacheAgnosticPolicy policy with
      | Some p => Ok p
      | None => Raise (Exn ValueError ("Unknown schedule_policy: policy='" +:+ policy +:+ "'"))
      end
  end.

Record SchedulePolicy := MkSP {
  sp_policy : Policy;
  enable_priority_scheduling : bool;
  priority_sign : Z
}.

(** [__init__] *)
Definition SchedulePolicy_init (policy : string) (disable_ enable_priority low_priority_values_first : bool) :
    res SchedulePolicy :=
  match validate_and_adjust_policy policy disable_ with
  | Ok p => Ok (MkSP p enable_priority (if low_priority_values_first then 1 else -1))
  | Raise e => Raise e
  end.

(** [RadixCache.create_simulated], for [waiting_queue_radix_tree] *)
Definition create_simulated {B} (monotonic : nat -> Z) (mock_allocator : B) : res (RadixCache B) :=
  RadixCache_init monotonic false 1 false false false "lru" mock_allocator.

(** [_determine_active_policy] *)
Definition determine_active_policy (sp : SchedulePolicy) (waiting_queue : list WReq) : Policy :=
  if decide (sp_policy sp = LPM /\ (128 < length waiting_queue)%nat) then FCFS else sp_policy sp.

(** ** Sorting *)

Definition prefix_key (temporary_deprioritized : gset string) (r : WReq) : xnum :=
  if decide (w_rid r ∈ temporary_deprioritized) then PosInf else Num (- len (w_prefix_indices r)).

Definition sort_by_longest_prefix (temporary_deprioritized : gset string) : list WReq -> list WReq :=
  sort_by (prefix_key temporary_deprioritized).

Definition sort_by_longest_output (enable_priority : bool) (sign : Z) : list WReq -> list WReq :=
  if enable_priority then sort_by (fun r => (w_priority r * sign, - w_max_new_tokens r))
  else sort_by (fun r => - w_max_new_tokens r).

Definition sort_by_priority_and_fcfs (sign : Z) : list WReq -> list WReq :=
  sort_by (fun r => (w_priority r * sign, w_entry_time r)).

(** [if key] for a routing key *)
Definition truthy_key (k : option string) : option string :=
  match k with Some s => if decide (s = "") then None else Some s | None => None end.

(** The [Counter] of routing keys *)
Definition routing_key_counts (running : list WReq) : list string := omap (fun r => truthy_key (w_routing_key r)) running.

Definition key_count (counts : list string) (k : string) : Z := len (filter (fun k' => k' = k) counts).

Definition routing_sort_key (counts : list string) (r : WReq) : Z * (Z * string) :=
  match truthy_key (w_routing_key r) with
  | Some k => if decide (k ∈ counts) then (0, (- key_count counts k, k)) else (1, (0, k))
  | None => (1, (0, ""))
  end.

Definition sort_by_routing_key (running : list WReq) (waiting_queue : list WReq) : list WReq :=
  let counts := routing_key_counts running in
  if decide (counts = []) then waiting_queue else sort_by (routing_sort_key counts) waiting_queue.

(** ** Depth-first order

    The two recursions over the tree; [fuel] bounds their depth. *)

(** A loop over a list that may raise. *)
Fixpoint fold_res {X R} (f : R -> X -> res R) (acc : R) (l : list X) : res R :=
  match l with
  | [] => Ok acc
  | x :: l' => match f acc x with Ok acc' => fold_res f acc' l' | Raise e => Raise e end
  end.

Section dfs.
Context {A : Type} (s : RadixCache A).

Definition child_nodes (x : nat) : res (list nat) :=
  match nodes s !! x with
  | Some n => Ok (dict_values (children n))
  | None => Raise (Exn AttributeError "dangling reference")
  end.

(** [node_to_weight[x]] of the defaultdict *)
Definition weight (w : gmap nat Z) (x : nat) : Z := default 0 (w !! x).

(** [_calc_weight] *)
Fixpoint calc_weight (fuel : nat) (cur : nat) (w : gmap nat Z) : res (gmap nat Z) :=
  match fuel with
  | O => Raise (Exn RuntimeError "recursion bound exceeded")
  | S fuel' =>
      match child_nodes cur with
      | Raise e => Raise e
      | Ok cs =>
          fold_res (fun w c =>
            match calc_weight fuel' c w with
            | Raise e => Raise e
            | Ok w' => Ok (<[cur := weight w' cur + weight w' c]> w')
            end) w cs
      end
  end.

(** [last_node_to_reqs[x]] *)
Definition reqs_at (waiting_queue : list WReq) (x : nat) : list WReq := filter (fun r => w_last_node r = x) waiting_queue.

(** [_get_dfs_priority], which appends to [q] *)
Fixpoint get_dfs_priority (fuel : nat) (cur : nat) (w : gmap nat Z) (reqs : nat -> list WReq) (q : list WReq) :
    res (list WReq) :=
  match fuel with
  | O => Raise (Exn RuntimeError "recursion bound exceeded")
  | S fuel' =>
      match child_nodes cur with
      | Raise e => Raise e
      | Ok cs =>
          match fold_res (fun q c => get_dfs_priority fuel' c w reqs q) q (sort_by (fun c => - weight w c) cs) with
          | Raise e => Raise e
          | Ok q' => Ok (q' ++ reqs cur)
          end
      end
  end.

(** [node_to_weight] before the recursion *)
Definition initial_weights (waiting_queue : list WReq) : gmap nat Z :=
  list_to_map ((fun x => (x, len (reqs_at waiting_queue x))) <$> (w_last_node <$> waiting_queue)).

(** [_sort_by_dfs_weight] *)
Definition sort_by_dfs_weight (waiting_queue : list WReq) : res (list WReq) :=
  let fuel := S (size (nodes s)) in
  match calc_weight fuel (root_node s) (initial_weights waiting_queue) with
  | Raise e => Raise e
  | Ok w => get_dfs_priority fuel (root_node s) w (reqs_at waiting_queue) []
  end.
End dfs.

(** ** [calc_priority] *)

Record PolicyEnv (A B : Type) := MkPE {
  pe_tree : RadixCache A;
  pe_queue_tree : RadixCache B;
  pe_queue : list WReq
}.
Arguments MkPE {A B}.
Arguments pe_tree {A B}.
Arguments pe_queue_tree {A B}.
Arguments pe_queue {A B}.

Section policy.
Context {A B : Type} `{KvFree A} `{KvFree B} `{Sha256} `{HeapQ} (monotonic : nat -> Z).
Context (shuffle : list WReq -> list WReq).
(** [SGLANG_RADIX_FORCE_MISS], [IN_BATCH_PREFIX_CACHING_CHECK_THRESHOLD] and
    [IN_BATCH_PREFIX_CACHING_DEPRIORITIZE_THRESHOLD] *)
Context (force_miss : bool) (check_threshold deprioritize_threshold : Z).
Abbreviation MP := (M (PolicyEnv A B)).

Definition on_main {C} (m : M (RadixCache A) C) : MP C :=
  zoom pe_tree (fun t e => MkPE t (pe_queue_tree e) (pe_queue e)) m.
Definition on_queue_tree {C} (m : M (RadixCache B) C) : MP C :=
  zoom pe_queue_tree (fun t e => MkPE (pe_tree e) t (pe_queue e)) m.
Definition set_queue (l : list WReq) : MP unit := modify (fun e : PolicyEnv A B => MkPE (pe_tree e) (pe_queue_tree e) l).

(** [zero_match_result] *)
Definition zero_match_result {X} (t : RadixCache X) (m : MatchResult) : MatchResult :=
  MkMatch (take 0 (device_indices m)) (root_node t).

(** [match_prefix_for_req], for the [i]-th request of the queue; the attributes
    for the host cache and for hybrid models are left out *)
Definition match_prefix_for_req (i : nat) (k : RadixKey) : MP unit :=
  m ← on_main (match_prefix monotonic k);
  t ← gets pe_tree;
  let m := if force_miss then zero_match_result t m else m in
  q ← gets pe_queue;
  set_queue (alter (set_match (device_indices m) (last_device_node m)) i q).

(** One iteration of the loop of [_compute_prefix_matches] *)
Definition compute_prefix_match (i : nat) (temporary_deprioritized : gset string) : MP (gset string) :=
  q ← gets pe_queue;
  match q !! i with
  | None => mret temporary_deprioritized
  | Some r =>
      let prefix_ids := w_origin_input_ids r ++ w_output_ids r in
      let k := MkKey prefix_ids (w_extra_key r) false in
      match_prefix_for_req i k ≫= fun _ =>
      q ← gets pe_queue;
      if decide (len (default [] (w_prefix_indices <$> q !! i)) <= check_threshold) then
        m ← on_queue_tree (match_prefix monotonic k);
        t ← gets pe_queue_tree;
        let m := if force_miss then zero_match_result t m else m in
        if decide (deprioritize_threshold <= len (device_indices m)) then
          mret (temporary_deprioritized ∪ {[w_rid r]})
        else
          on_queue_tree (insert monotonic k (Some (replicate (length prefix_ids) 0)) (Some 0) false) ≫= fun _ =>
          mret temporary_deprioritized
      else mret temporary_deprioritized
  end.

Fixpoint compute_prefix_loop (n i : nat) (temporary_deprioritized : gset string) : MP (gset string) :=
  match n with
  | O => mret temporary_deprioritized
  | S n' => compute_prefix_match i temporary_deprioritized ≫= fun d => compute_prefix_loop n' (S i) d
  end.

(** [_compute_prefix_matches] *)
Definition compute_prefix_matches : MP (gset string) :=
  on_queue_tree (reset monotonic) ≫= fun _ =>
  q ← gets pe_queue;
  compute_prefix_loop (length q) 0 ∅.

Definition upd_queue (f : list WReq -> list WReq) : MP unit := q ← gets pe_queue; set_queue (f q).

(** [calc_priority] *)
Definition calc_priority (sp : SchedulePolicy) (running_batch : option (list WReq)) : MP unit :=
  if decide (sp_policy sp = FCFS) then
    if enable_priority_scheduling sp then upd_queue (sort_by_priority_and_fcfs (priority_sign sp)) else mret tt
  else
    q ← gets pe_queue;
    match determine_active_policy sp q with
    | LPM =>
        d ← compute_prefix_matches;
        upd_queue (sort_by_longest_prefix d)
    | DFS_WEIGHT =>
        compute_prefix_matches ≫= fun _ =>
        q ← gets pe_queue;
        t ← gets pe_tree;
        q' ← lift_res (sort_by_dfs_weight t q);
        set_queue q'
    | FCFS => mret tt
    | LOF => upd_queue (sort_by_longest_output (enable_priority_scheduling sp) (priority_sign sp))
    | RANDOM => upd_queue shuffle
    | ROUTING_KEY => match running_batch with Some l => upd_queue (sort_by_routing_key l) | None => mret tt end
    end.
End policy.
