(* ===== verification/SchedDfs.v ===== *)
(** * The depth-first order

    The nodes below a node of the prefix cache as a finite tree ([spans]); on
    it, the two recursions of [sort_by_dfs_weight] are structural.  The weight
    of a node comes out as the number of requests in its subtree, and the
    order as [dfs_order]: below every node, the blocks of the children one
    after the other, the larger ones first, then the requests of the node. *)

From S2P Require Import Prelude PyDict PySort RadixKey KvEvents RadixTree RadixOps RadixInv RadixMoves.
From S2P Require Import RadixState RadixLocks RadixRun RadixEvents RadixInsert RadixSpec RadixTotal SchedPolicy.
From Stdlib Require Import Sorting.Sorted.

(** ** Finite trees of nodes *)

Inductive tree := Node (x : nat) (cs : list tree).

Definition node_of (T : tree) : nat := let 'Node x _ := T in x.

Section tree_ind.
Context (P : tree -> Prop) (HP : forall x cs, (forall T, T ∈ cs -> P T) -> P (Node x cs)).

Fixpoint tree_strong_ind (T : tree) : P T :=
  let 'Node x cs := T in
  HP x cs (fun T' HT => proj1 (Forall_forall P cs)
    ((fix go cs : Forall P cs :=
      match cs with [] => Forall_nil_2 P | T :: cs => Forall_cons_2 P T cs (tree_strong_ind T) (go cs) end) cs) T' HT).
End tree_ind.

(** The nodes, each one after its descendants *)
Fixpoint flatten (T : tree) : list nat := let 'Node x cs := T in (cs ≫= flatten) ++ [x].

Fixpoint depth (T : tree) : nat := let 'Node _ cs := T in S (max_list (depth <$> cs)).

Section order.
Context {E : Type} (at_node : nat -> list E).

(** What is filed below a node *)
Definition below (T : tree) : list E := flatten T ≫= at_node.

Inductive dfs_order : tree -> list E -> Prop :=
  | Dfs x cs cs' bs :
      stable_sorted (fun T => - len (below T)) cs cs' -> Forall2 dfs_order cs' bs ->
      dfs_order (Node x cs) (concat bs ++ at_node x).

Lemma below_node x cs : below (Node x cs) = (cs ≫= below) ++ at_node x.
Proof.
  change (((cs ≫= flatten) ++ [x]) ≫= at_node = (cs ≫= below) ++ at_node x). rewrite bind_app. f_equal.
  - induction cs as [|T cs IH]; [done|].
    change ((flatten T ++ (cs ≫= flatten)) ≫= at_node = below T ++ (cs ≫= below)). by rewrite bind_app, IH.
  - apply app_nil_r.
Qed.

Lemma dfs_order_perm T q : dfs_order T q -> q ≡ₚ below T.
Proof.
  revert q. induction T as [x cs IH] using tree_strong_ind. intros q Hq.
  inversion Hq as [? ? cs' bs (Hp & _ & _) Hbs]; subst. rewrite below_node. apply Permutation_app; [|done].
  trans (cs' ≫= below); [|by rewrite Hp].
  assert (forall T, T ∈ cs' -> forall q, dfs_order T q -> q ≡ₚ below T) as IH'
    by (intros T HT; apply IH; by rewrite <-Hp).
  clear IH Hp Hq. induction Hbs as [|T b cs'' bs HT Hbs IHb]; [done|].
  change (b ++ concat bs ≡ₚ below T ++ (cs'' ≫= below)). apply Permutation_app.
  - apply IH'; [by left|done].
  - apply IHb. intros T' HT'. apply IH'. by right.
Qed.
End order.

(** ** The tree below a node of the cache *)

Section spans.
Context {ps r : nat} (g : cores) {L : gset nat}.

(** [T] has the nodes below its root, with their children in order. *)
Inductive spans : tree -> Prop :=
  | Spans x n cs : g !! x = Some n -> dict_values (co_children n) = node_of <$> cs -> Forall spans cs -> spans (Node x cs).

Hypothesis Hs : shape ps r g L.

(** The nodes on the way from [y] to the root, both included, contain [x]. *)
Definition above x y : Prop := exists l w v, up ps r g y l w v /\ x ∈ l ++ [r].

Lemma child_of x n c : x ∈ L -> g !! x = Some n -> c ∈ dict_values (co_children n) ->
  c ∈ L /\ c ≠ r /\ exists m, g !! c = Some m /\ co_parent m = Some x.
Proof.
  intros Hx Hg (p & -> & Hp)%list_elem_of_fmap. destruct p as [k c].
  destruct (sh_child _ _ _ _ Hs x n k c Hx Hg) as (Hc & Hr & m & Hm & Hpm & _);
    [by apply dict_elem_get; [exact (sh_wf _ _ _ _ Hs x n Hx Hg)|]|]. eauto.
Qed.

Lemma above_self x : x ∈ L -> above x x.
Proof.
  intros Hx. destruct (sh_up _ _ _ _ Hs x Hx) as (l & w & v & Hu). exists l, w, v. split; [done|].
  destruct Hu; set_solver.
Qed.

(** The path from [y] enters [x] through the child [c]. *)
Lemma above_child x n c y : x ∈ L -> g !! x = Some n -> c ∈ dict_values (co_children n) -> above c y ->
  exists l1 l2 w v w' v', up ps r g y (l1 ++ c :: l2) w v /\ up ps r g x l2 w' v'.
Proof.
  intros Hx Hg Hc (l & w & v & Hu & Hin). destruct (child_of x n c Hx Hg Hc) as (HcL & Hcr & m & Hm & Hp).
  apply elem_of_app in Hin as [Hin|Hin]; [|set_solver].
  destruct (up_suffix _ _ _ _ _ _ _ _ Hu Hin) as (l1 & l2 & w' & v' & -> & Hu').
  inversion Hu' as [|? m' p l0 w0 v0 ? Hm' Hp' Hu0]; simplify_eq. by do 6 eexists.
Qed.

Lemma above_parent x n c y : x ∈ L -> g !! x = Some n -> c ∈ dict_values (co_children n) -> above c y -> above x y.
Proof.
  intros Hx Hg Hc Ha. destruct (above_child x n c y Hx Hg Hc Ha) as (l1 & l2 & w & v & w' & v' & Hu & Hux).
  exists (l1 ++ c :: l2), w, v. split; [done|]. destruct Hux; set_solver.
Qed.

Lemma above_not_back x n c : x ∈ L -> g !! x = Some n -> c ∈ dict_values (co_children n) -> ~ above c x.
Proof.
  intros Hx Hg Hc Ha. destruct (above_child x n c x Hx Hg Hc Ha) as (l1 & l2 & w & v & w' & v' & Hu & Hux).
  destruct (up_fun _ _ _ _ _ _ _ _ _ _ Hu Hux) as (E & _). apply (f_equal length) in E.
  rewrite length_app in E. simpl in E. lia.
Qed.

Lemma above_one_child x n c1 c2 y : x ∈ L -> g !! x = Some n -> c1 ∈ dict_values (co_children n) ->
  c2 ∈ dict_values (co_children n) -> above c1 y -> above c2 y -> c1 = c2.
Proof.
  intros Hx Hg H1 H2 Ha1 Ha2.
  destruct (above_child x n c1 y Hx Hg H1 Ha1) as (l1 & l2 & w & v & w' & v' & Hu & Hux).
  destruct (above_child x n c2 y Hx Hg H2 Ha2) as (k1 & k2 & ? & ? & ? & ? & Hu2 & Hux2).
  destruct (up_fun _ _ _ _ _ _ _ _ _ _ Hux Hux2) as (-> & _).
  destruct (up_fun _ _ _ _ _ _ _ _ _ _ Hu Hu2) as (E & _). apply app_inj_2 in E as [_ E]; [|done].
  by injection E.
Qed.

(** ** The nodes of the tree below [x] *)

Lemma flatten_node x cs y : y ∈ flatten (Node x cs) <-> y = x \/ exists T, T ∈ cs /\ y ∈ flatten T.
Proof.
  change (y ∈ (cs ≫= flatten) ++ [x] <-> y = x \/ exists T, T ∈ cs /\ y ∈ flatten T).
  rewrite elem_of_app, list_elem_of_bind, list_elem_of_singleton. naive_solver.
Qed.

Lemma spans_inv x cs : spans (Node x cs) -> exists n, g !! x = Some n /\
  (forall T, T ∈ cs -> spans T /\ node_of T ∈ dict_values (co_children n)) /\
  (forall c, c ∈ dict_values (co_children n) -> exists T, T ∈ cs /\ node_of T = c) /\ dict_values (co_children n) = node_of <$> cs.
Proof.
  intros Hsp. inversion Hsp as [? n ? Hg Hc Hf]; subst. exists n. split_and!; [done| | |done].
  - intros T HT. split; [by eapply Forall_forall|]. rewrite Hc. by apply list_elem_of_fmap_2.
  - intros c. rewrite Hc. intros (T & -> & HT)%list_elem_of_fmap. eauto.
Qed.

Lemma flatten_above T : spans T -> node_of T ∈ L -> forall y, y ∈ flatten T -> y ∈ L /\ above (node_of T) y.
Proof.
  induction T as [x cs IH] using tree_strong_ind. simpl node_of. intros Hsp Hx y Hy.
  destruct (spans_inv x cs Hsp) as (n & Hg & Hcs & _). apply flatten_node in Hy as [->|(T & HT & Hy)].
  { split; [done|by apply above_self]. }
  destruct (Hcs T HT) as [HspT HcT]. destruct (child_of x n _ Hx Hg HcT) as (HcL & _).
  destruct (IH T HT HspT HcL y Hy) as [HyL Ha]. split; [done|]. by eapply above_parent.
Qed.

Lemma flatten_NoDup T : spans T -> node_of T ∈ L -> NoDup (flatten T).
Proof.
  induction T as [x cs IH] using tree_strong_ind. simpl node_of. intros Hsp Hx.
  destruct (spans_inv x cs Hsp) as (n & Hg & Hcs & _ & Hv).
  destruct (walk_live_children Hs (fun _ => true) x n ltac:(done) Hx Hg) as [_ Hnd]. rewrite Hv in Hnd.
  assert (forall T, T ∈ cs -> spans T /\ node_of T ∈ L) as Hlive.
  { intros T HT. destruct (Hcs T HT) as [HspT HcT]. by destruct (child_of x n _ Hx Hg HcT). }
  assert (forall T y, T ∈ cs -> y ∈ flatten T -> above (node_of T) y) as Hab
    by (intros T y HT Hy; apply flatten_above; naive_solver).
  change (NoDup ((cs ≫= flatten) ++ [x])). apply NoDup_app. split_and!; [| |apply NoDup_singleton].
  - apply NoDup_bind; [|intros T HT; apply IH; naive_solver|by apply NoDup_fmap_1 in Hnd].
    intros T1 T2 y H1 H2 Hy1 Hy2.
    assert (node_of T1 = node_of T2) as E by (eapply (above_one_child x n); naive_solver).
    apply list_elem_of_lookup in H1 as [i Hi]. apply list_elem_of_lookup in H2 as [j Hj].
    assert (i = j) as ->; [|congruence].
    eapply (NoDup_lookup _ i j (node_of T1) Hnd); rewrite list_lookup_fmap; [by rewrite Hi|by rewrite Hj, E].
  - intros y (T & Hy & HT)%list_elem_of_bind ->%list_elem_of_singleton.
    apply (above_not_back x n (node_of T) Hx Hg); [by apply Hcs|by apply Hab].
Qed.

Lemma flatten_child T x n c : spans T -> x ∈ flatten T -> g !! x = Some n ->
  c ∈ dict_values (co_children n) -> c ∈ flatten T.
Proof.
  induction T as [z cs IH] using tree_strong_ind. intros Hsp Hx Hg Hc.
  destruct (spans_inv z cs Hsp) as (m & Hm & Hcs & Hall & _). apply flatten_node. right.
  apply flatten_node in Hx as [->|(T & HT & Hx)].
  - rewrite Hg in Hm. injection Hm as <-. destruct (Hall c Hc) as (T & HT & <-). exists T. split; [done|].
    destruct T. apply flatten_node. by left.
  - exists T. split; [done|]. apply IH; try done. by apply Hcs.
Qed.

(** The tree below the root has the live nodes. *)
Lemma flatten_live T : spans T -> node_of T = r -> forall x, x ∈ flatten T <-> x ∈ L.
Proof.
  intros Hsp Hr x. pose proof (sh_root_in _ _ _ _ Hs) as HrL. split.
  { intros Hx. eapply (flatten_above T); [done|by rewrite Hr|done]. }
  intros Hx. destruct (sh_up _ _ _ _ Hs x Hx) as (l & w & v & Hu).
  induction Hu as [|x n p l w v Hxr Hg Hp Hu IH].
  - rewrite <-Hr. destruct T. apply flatten_node. by left.
  - destruct (sh_node _ _ _ _ Hs x Hx Hxr) as (n' & p' & pn & c & Hn' & _ & Hp' & HpL & Hpn & _ & Hc). simplify_eq.
    eapply flatten_child; [done|by apply IH|done|by eapply dict_get_value].
Qed.

(** Paths are shorter than the number of live nodes. *)
Lemma path_bound x l w v : x ∈ L -> up ps r g x l w v -> (length l < size L)%nat.
Proof.
  intros Hx Hu. rewrite <-(size_list_to_set (C := gset nat) l (up_NoDup _ _ _ _ _ _ _ Hu)). apply subset_size.
  split; [intros y Hy%elem_of_list_to_set; by eapply shape_up_live|].
  intros Hsub. apply (up_not_root _ _ _ _ _ _ _ Hu). apply (elem_of_list_to_set (C := gset nat)), Hsub.
  exact (sh_root_in _ _ _ _ Hs).
Qed.

Lemma spans_exists_at k x l w v : x ∈ L -> up ps r g x l w v -> (size L - length l <= k)%nat ->
  exists T, spans T /\ node_of T = x /\ (depth T <= k)%nat.
Proof.
  revert x l w v. induction k as [|k IH]; intros x l w v Hx Hu Hk.
  { pose proof (path_bound x l w v Hx Hu). lia. }
  destruct (shape_lookup _ _ _ _ x Hs Hx) as [n Hg].
  assert (exists cs, dict_values (co_children n) = node_of <$> cs /\ Forall spans cs /\
    (max_list (depth <$> cs) <= k)%nat) as (cs & Hv & Hcs & Hd).
  { assert (forall c, c ∈ dict_values (co_children n) -> exists T, spans T /\ node_of T = c /\ (depth T <= k)%nat) as Hc.
    { intros c Hc. destruct (child_of x n c Hx Hg Hc) as (HcL & Hcr & m & Hm & Hp).
      eapply (IH c (c :: l)); [done|by eapply up_node|simpl; lia]. }
    induction (dict_values (co_children n)) as [|c d IHd]; [exists []; split_and!; [done|constructor|simpl; lia]|].
    destruct IHd as (cs & -> & Hcs & Hd); [intros c' Hc'; apply Hc; by right|].
    destruct (Hc c ltac:(left)) as (T & HT & <- & HdT). exists (T :: cs). split_and!; [done|by constructor|].
    change (depth T `max` max_list (depth <$> cs) <= k)%nat. lia. }
  exists (Node x cs). split_and!; [by econstructor|done|].
  change (S (max_list (depth <$> cs)) <= S k)%nat. lia.
Qed.

Lemma spans_exists : exists T, spans T /\ node_of T = r /\ (depth T <= size L)%nat.
Proof.
  eapply (spans_exists_at _ r []); [exact (sh_root_in _ _ _ _ Hs)|constructor|simpl; lia].
Qed.
End spans.

(** ** The two recursions *)

Fixpoint subtrees (T : tree) : list tree := let 'Node _ cs := T in T :: (cs ≫= subtrees).

Lemma subtrees_node x cs T : T ∈ subtrees (Node x cs) <-> T = Node x cs \/ exists T', T' ∈ cs /\ T ∈ subtrees T'.
Proof.
  change (T ∈ Node x cs :: (cs ≫= subtrees) <-> T = Node x cs \/ exists T', T' ∈ cs /\ T ∈ subtrees T').
  rewrite elem_of_cons, list_elem_of_bind. naive_solver.
Qed.

Lemma subtrees_self T : T ∈ subtrees T.
Proof. destruct T. apply subtrees_node. by left. Qed.

Lemma node_of_flatten T : node_of T ∈ flatten T.
Proof. destruct T. apply flatten_node. by left. Qed.

Lemma subtrees_incl T T' y : T' ∈ subtrees T -> y ∈ flatten T' -> y ∈ flatten T.
Proof.
  induction T as [x cs IH] using tree_strong_ind. intros [->|(T1 & H1 & H2)]%subtrees_node Hy; [done|].
  apply flatten_node. right. exists T1. split; [done|]. by apply IH.
Qed.

Lemma weight_set w x z y : weight (<[x := z]> w) y = if decide (y = x) then z else weight w y.
Proof. unfold weight. case_decide as E; [subst; by rewrite lookup_insert_eq|by rewrite lookup_insert_ne]. Qed.

Section recursion.
Context {A : Type} (s : RadixCache A).

Lemma child_nodes_run x cs : spans (heap_cores s) (Node x cs) -> child_nodes s x = Ok (node_of <$> cs).
Proof.
  intros (n & Hg & _ & _ & Hv)%spans_inv. destruct (cores_lookup_inv s x n Hg) as (m & Hm & <-).
  unfold child_nodes. rewrite Hm. f_equal. exact Hv.
Qed.

(** [w'] gives every node below [T] what [w] gives to its descendants. *)
Definition summed (w w' : gmap nat Z) (T : tree) : Prop :=
  forall T', T' ∈ subtrees T -> weight w' (node_of T') = sumZ (weight w) (flatten T').

Definition same_outside (l : list nat) (w w' : gmap nat Z) : Prop :=
  forall y, y ∉ l -> weight w' y = weight w y.

(** The loop over the children of [x], the recursive calls being right *)
Section children.
Context (x : nat) (rec : nat -> gmap nat Z -> res (gmap nat Z)).

Definition add_child (w : gmap nat Z) (c : nat) : res (gmap nat Z) :=
  match rec c w with
  | Raise e => Raise e
  | Ok w' => Ok (<[x := weight w' x + weight w' c]> w')
  end.

Lemma add_children_run cs w :
  (forall T w, T ∈ cs -> NoDup (flatten T) ->
    exists w', rec (node_of T) w = Ok w' /\ same_outside (flatten T) w w' /\ summed w w' T) ->
  NoDup ((cs ≫= flatten) ++ [x]) ->
  exists w', fold_res add_child w (node_of <$> cs) = Ok w' /\ same_outside ((cs ≫= flatten) ++ [x]) w w' /\
    weight w' x = weight w x + sumZ (weight w) (cs ≫= flatten) /\ forall T, T ∈ cs -> summed w w' T.
Proof.
  revert w. induction cs as [|T cs IH]; intros w Hrec Hnd.
  { exists w. split_and!; [done|done|simpl; lia|set_solver]. }
  change (NoDup ((flatten T ++ (cs ≫= flatten)) ++ [x])) in Hnd. rewrite <-app_assoc in Hnd.
  apply NoDup_app in Hnd as (HndT & Hdis & Hnd).
  destruct (Hrec T w ltac:(left) HndT) as (w1 & Hr1 & Hout1 & Hsum1).
  set (w2 := <[x := weight w1 x + weight w1 (node_of T)]> w1).
  destruct (IH w2) as (w' & Hr & Hout & Hx & Hsum); [intros; apply Hrec; [by right|done]|done|].
  apply NoDup_app in Hnd as (_ & Hxc & _).
  assert (x ∉ flatten T) as HxT by (intros ?; eapply Hdis; [done|set_solver]).
  assert (forall y, y ∈ cs ≫= flatten -> weight w2 y = weight w y) as Hrest.
  { intros y Hy. unfold w2. rewrite weight_set, decide_False by (intros ->; by eapply Hxc; [done|left]).
    apply Hout1. intros HyT. eapply (Hdis y HyT). set_solver. }
  exists w'. split_and!.
  - simpl. unfold add_child at 1. rewrite Hr1. exact Hr.
  - intros y Hy. change (y ∉ (flatten T ++ (cs ≫= flatten)) ++ [x]) in Hy. rewrite Hout by set_solver.
    unfold w2. rewrite weight_set, decide_False by set_solver. apply Hout1. set_solver.
  - change (weight w' x = weight w x + sumZ (weight w) (flatten T ++ (cs ≫= flatten))).
    rewrite sumZ_app, Hx, (sumZ_ext (weight w2) (weight w)) by done. unfold w2. rewrite weight_set, decide_True by done.
    rewrite (Hout1 x HxT), (Hsum1 T (subtrees_self T)). lia.
  - intros T' [->|HT']%elem_of_cons T2 HT2.
    + assert (node_of T2 ∈ flatten T) as Hin by (eapply subtrees_incl; [done|apply node_of_flatten]).
      rewrite (Hout _ (Hdis _ Hin)). unfold w2. rewrite weight_set, decide_False by congruence. by apply Hsum1.
    + rewrite (Hsum T' HT' T2 HT2). apply sumZ_ext. intros y Hy. apply Hrest. apply list_elem_of_bind.
      exists T'. split; [by eapply subtrees_incl|done].
Qed.
End children.

Lemma calc_weight_step fuel x w :
  calc_weight s (S fuel) x w =
  match child_nodes s x with Raise e => Raise e | Ok cs => fold_res (add_child x (calc_weight s fuel)) w cs end.
Proof. reflexivity. Qed.

Lemma depth_child x cs T : T ∈ cs -> (S (depth T) <= depth (Node x cs))%nat.
Proof.
  intros HT. change (S (depth T) <= S (max_list (depth <$> cs)))%nat.
  apply le_n_S, max_list_elem_of_le. by apply list_elem_of_fmap_2.
Qed.

Lemma calc_weight_run fuel T w :
  spans (heap_cores s) T -> NoDup (flatten T) -> (depth T <= fuel)%nat ->
  exists w', calc_weight s fuel (node_of T) w = Ok w' /\ same_outside (flatten T) w w' /\ summed w w' T.
Proof.
  revert T w. induction fuel as [|fuel IH]; intros [x cs] w Hsp Hnd Hd; [simpl in Hd; lia|].
  simpl node_of. rewrite calc_weight_step, (child_nodes_run x cs Hsp).
  destruct (spans_inv _ x cs Hsp) as (n & _ & Hcs & _).
  destruct (add_children_run x (calc_weight s fuel) cs w) as (w' & Hr & Hout & Hx & Hsum); [|done|].
  { intros T w1 HT HndT. apply IH; [by apply Hcs|done|]. pose proof (depth_child x cs T HT). lia. }
  exists w'. split_and!; [done|exact Hout|]. intros T' [->|(T1 & HT1 & HT')]%subtrees_node; [|by eapply Hsum].
  change (weight w' x = sumZ (weight w) ((cs ≫= flatten) ++ [x])). rewrite sumZ_app, Hx. simpl. lia.
Qed.

(** The blocks of the children, appended one after the other *)
Lemma blocks_run (reqs : nat -> list WReq) (rec : list WReq -> nat -> res (list WReq)) cs q :
  (forall T q, T ∈ cs -> exists b, rec q (node_of T) = Ok (q ++ b) /\ dfs_order reqs T b) ->
  exists bs, fold_res rec q (node_of <$> cs) = Ok (q ++ concat bs) /\ Forall2 (dfs_order reqs) cs bs.
Proof.
  revert q. induction cs as [|T cs IH]; intros q Hrec.
  { exists []. split; [simpl; by rewrite app_nil_r|constructor]. }
  destruct (Hrec T q ltac:(left)) as (b & Hr & Hb).
  destruct (IH (q ++ b)) as (bs & Hrs & Hbs); [intros; apply Hrec; by right|].
  exists (b :: bs). split; [|by constructor]. simpl. rewrite Hr. etrans; [exact Hrs|]. by rewrite <-app_assoc.
Qed.

Lemma dfs_step fuel x w reqs q :
  get_dfs_priority s (S fuel) x w reqs q =
  match child_nodes s x with
  | Raise e => Raise e
  | Ok cs =>
      match fold_res (fun q c => get_dfs_priority s fuel c w reqs q) q (sort_by (fun c => - weight w c) cs) with
      | Raise e => Raise e
      | Ok q' => Ok (q' ++ reqs x)
      end
  end.
Proof. reflexivity. Qed.

Lemma dfs_priority_run fuel T w reqs q :
  spans (heap_cores s) T -> (depth T <= fuel)%nat ->
  (forall T', T' ∈ subtrees T -> weight w (node_of T') = len (below reqs T')) ->
  exists b, get_dfs_priority s fuel (node_of T) w reqs q = Ok (q ++ b) /\ dfs_order reqs T b.
Proof.
  revert T q. induction fuel as [|fuel IH]; intros [x cs] q Hsp Hd Hw; [simpl in Hd; lia|].
  simpl node_of. rewrite dfs_step, (child_nodes_run x cs Hsp).
  destruct (spans_inv _ x cs Hsp) as (n & _ & Hcs & _).
  rewrite <-(sort_by_fmap node_of (fun c => - weight w c) (fun T => - len (below reqs T))).
  2:{ intros T HT. rewrite Hw; [done|]. apply subtrees_node. right. exists T. split; [done|apply subtrees_self]. }
  set (cs' := sort_by (fun T => - len (below reqs T)) cs).
  pose proof (sort_by_stable (fun T => - len (below reqs T)) cs) as Hst.
  destruct (blocks_run reqs (fun q c => get_dfs_priority s fuel c w reqs q) cs' q) as (bs & Hr & Hbs).
  { intros T q' HT. assert (T ∈ cs) as HTc by (unfold cs' in HT; by rewrite sort_by_perm in HT).
    apply IH; [by apply Hcs|pose proof (depth_child x cs T HTc); lia|].
    intros T' HT'. apply Hw, subtrees_node. right. eauto. }
  exists (concat bs ++ reqs x). rewrite Hr. split; [by rewrite app_assoc|]. by econstructor.
Qed.
End recursion.

(** The requests below a node are next to each other. *)
Lemma dfs_order_block {E} (at_node : nat -> list E) T q T' :
  dfs_order at_node T q -> T' ∈ subtrees T -> exists pre b post, q = pre ++ b ++ post /\ dfs_order at_node T' b.
Proof.
  revert q. induction T as [x cs IH] using tree_strong_ind. intros q Hq [->|(T1 & HT1 & HT')]%subtrees_node.
  { exists [], q, []. split; [by rewrite app_nil_r|done]. }
  inversion Hq as [? ? cs' bs (Hp & _ & _) Hbs]; subst. rewrite <-Hp in HT1.
  apply list_elem_of_lookup in HT1 as [i Hi]. destruct (Forall2_lookup_l _ _ _ _ _ Hbs Hi) as (b1 & Hb1 & Ho).
  destruct (IH T1) with (q := b1) as (pre & b & post & -> & Hb); [|done|done|].
  { rewrite <-Hp. by eapply list_elem_of_lookup_2. }
  exists (concat (take i bs) ++ pre), b, (post ++ concat (drop (S i) bs) ++ at_node x). split; [|done].
  rewrite <-(take_drop_middle bs i _ Hb1) at 1. rewrite concat_app. simpl. by rewrite <-!app_assoc.
Qed.

(** ** The whole pass *)

Lemma initial_weight q x : weight (initial_weights q) x = len (reqs_at q x).
Proof.
  unfold weight, initial_weights. destruct (decide (x ∈ w_last_node <$> q)) as [Hin|Hout].
  - assert (list_to_map ((fun x => (x, len (reqs_at q x))) <$> (w_last_node <$> q)) !! x =
      Some (len (reqs_at q x)) :> option Z) as ->; [|done].
    induction (w_last_node <$> q) as [|y l IH]; [by apply elem_of_nil in Hin|].
    rewrite fmap_cons. simpl. destruct (decide (x = y)) as [->|Hne]; [by rewrite lookup_insert_eq|].
    rewrite lookup_insert_ne by done. apply IH. set_solver.
  - rewrite not_elem_of_list_to_map_1.
    + unfold reqs_at. destruct (filter (fun r => w_last_node r = x) q) as [|r l] eqn:E; [done|].
      destruct Hout. assert (r ∈ filter (fun r => w_last_node r = x) q) as Hr by (rewrite E; left).
      apply list_elem_of_filter in Hr as [<- Hr]. by apply list_elem_of_fmap_2.
    + by rewrite <-list_fmap_compose, list_fmap_id.
Qed.

Lemma sum_len {E} (f : nat -> list E) l : sumZ (fun x => len (f x)) l = len (l ≫= f).
Proof.
  induction l as [|x l IH]; [done|]. change (len (f x) + sumZ (fun x => len (f x)) l = len (f x ++ (l ≫= f))).
  by rewrite len_app, IH.
Qed.

(** Every request is filed at exactly one of the nodes. *)
Lemma reqs_at_all q l : NoDup l -> (forall r, r ∈ q -> w_last_node r ∈ l) -> l ≫= reqs_at q ≡ₚ q.
Proof.
  revert q. induction l as [|x l IH]; intros q Hnd Hq.
  { destruct q as [|r q]; [done|]. exfalso. by eapply elem_of_nil, (Hq r ltac:(left)). }
  apply NoDup_cons in Hnd as [Hx Hnd]. set (q' := filter (fun r => w_last_node r ≠ x) q).
  assert (reqs_at q x ++ q' ≡ₚ q) as Hsplit.
  { unfold reqs_at, q'. clear. induction q as [|r q IH]; [done|]. rewrite !filter_cons.
    destruct (decide (w_last_node r = x)).
    - rewrite (decide_False (P := w_last_node r ≠ x)) by tauto. simpl. by rewrite IH.
    - rewrite (decide_True (P := w_last_node r ≠ x)) by done. by rewrite <-Permutation_middle, IH. }
  change (reqs_at q x ++ (l ≫= reqs_at q) ≡ₚ q). rewrite <-Hsplit at 3. apply Permutation_app_head.
  etrans; [|apply (IH q' Hnd)].
  - apply Permutation_refl'. clear -Hx. induction l as [|y l IH]; [done|].
    change (reqs_at q y ++ (l ≫= reqs_at q) = reqs_at q' y ++ (l ≫= reqs_at q')). f_equal; [|apply IH; set_solver].
    unfold reqs_at, q'. rewrite list_filter_filter. apply list_filter_iff. intros r. set_solver.
  - intros r [Hr Hrq]%list_elem_of_filter. apply Hq in Hrq. set_solver.
Qed.

(** The pass ends, keeps every request whose node is live and orders them
    depth first. *)
Lemma sort_by_dfs_weight_run {A} (s : RadixCache A) L H' q :
  radix_inv s L H' -> (forall r, r ∈ q -> w_last_node r ∈ L) ->
  exists T q', sort_by_dfs_weight s q = Ok q' /\ spans (heap_cores s) T /\ node_of T = root_node s /\
    (forall x, x ∈ flatten T <-> x ∈ L) /\ NoDup (flatten T) /\ dfs_order (reqs_at q) T q' /\ q' ≡ₚ q.
Proof.
  intros Hinv Hq. pose proof (i_shape _ _ _ _ _ _ _ _ _ Hinv) as Hs. pose proof (live_size s L H' Hinv) as Hsz.
  destruct (spans_exists (heap_cores s) Hs) as (T & Hsp & Hr & Hd).
  pose proof (flatten_live _ Hs T Hsp Hr) as Hlive.
  assert (NoDup (flatten T)) as Hnd by (eapply flatten_NoDup; [done..|rewrite Hr; exact (sh_root_in _ _ _ _ Hs)]).
  unfold sort_by_dfs_weight. rewrite <-Hr.
  destruct (calc_weight_run s (S (size (nodes s))) T (initial_weights q) Hsp Hnd) as (w & Hw & _ & Hsum); [lia|].
  rewrite Hw. destruct (dfs_priority_run s (S (size (nodes s))) T w (reqs_at q) [] Hsp) as (b & Hb & Ho); [lia| |].
  { intros T' HT'. rewrite (Hsum T' HT'). unfold below. rewrite <-sum_len. apply sumZ_ext. intros x _. apply initial_weight. }
  rewrite Hb. exists T, b. split_and!; try done. rewrite (dfs_order_perm _ _ _ Ho). apply reqs_at_all; [done|].
  intros r Hrq. by apply Hlive, Hq.
Qed.
