(* ===== verification/SchedPolicyFacts.v ===== *)
(** * The order of the waiting queue: what the policies promise

    - [prefix_matches]: what the lookups of a cache-aware policy write to the
      requests, and which of them it deprioritizes ([deprioritized], against
      the page sequences of the requests seen before);
    - [calc_priority_lpm], [calc_priority_dfs] and [calc_priority_agnostic]: no
      policy raises or loses a request, and the order of each. *)

From S2P Require Import Prelude PyDict PySort RadixKey KvEvents RadixTree RadixOps RadixInv RadixMoves.
From S2P Require Import RadixState RadixLocks RadixRun RadixEvents RadixInsert RadixSpec RadixTotal SchedPolicy SchedDfs.

(** ** Requests seen before *)

(** The key a request is looked up with *)
Definition queue_key (r : WReq) : RadixKey := MkKey (w_origin_input_ids r ++ w_output_ids r) (w_extra_key r) false.

(** The longest prefix that [w] shares with one of [seen] *)
Definition shared (seen : list (list child_key_t)) (w : list child_key_t) : nat := max_list (lcp w <$> seen).

(** The parameters of [create_simulated] *)
Definition simulated (prm : CacheParams) : Prop :=
  disable prm = false /\ page_size prm = 1%nat /\ enable_kv_cache_events prm = false /\ is_eagle prm = false.

Section deprioritized.
Context (force_miss : bool) (check_threshold deprioritize_threshold : Z).

(** The requests [_compute_prefix_matches] deprioritizes, in the order of the
    queue: those with a short match in the cache that share enough with one
    before, which was itself not deprioritized. *)
Fixpoint deprioritized (seen : list (list child_key_t)) (l : list WReq) : list string :=
  match l with
  | [] => []
  | r :: l' =>
      let w := pages 1 (queue_key r) in
      if decide (len (w_prefix_indices r) <= check_threshold) then
        if decide (deprioritize_threshold <= if force_miss then 0 else Z.of_nat (shared seen w))
        then w_rid r :: deprioritized seen l'
        else deprioritized (w :: seen) l'
      else deprioritized seen l'
  end.
End deprioritized.

(** The tree [t] holds the sequences of [seen] and their prefixes. *)
Definition holds_seqs {B} (t : RadixCache B) (L : gset nat) (seen : list (list child_key_t)) : Prop :=
  forall w, (exists v, content t L w v) <-> w = [] \/ exists w0, w0 ∈ seen /\ w `prefix_of` w0.

Lemma shared_spec seen w n :
  (n <= length w)%nat -> (take n w = [] \/ exists w0, w0 ∈ seen /\ take n w `prefix_of` w0) ->
  (forall w0 m, w0 ∈ seen -> take m w `prefix_of` w0 -> (m <= length w)%nat -> (m <= n)%nat) -> n = shared seen w.
Proof.
  intros Hn Hin Hmax. apply Nat.le_antisymm.
  - destruct Hin as [E|(w0 & Hw0 & Hp)]; [destruct n; [lia|]; by destruct w; simpl in *; [lia|]|].
    etrans; [|apply max_list_elem_of_le, list_elem_of_fmap_2, Hw0].
    rewrite <-(take_drop n w), lcp_app_l, (lcp_prefix _ _ Hp), length_take. case_decide; lia.
  - unfold shared. destruct (decide (seen = [])) as [->|Hne]; [simpl; lia|].
    assert (max_list (lcp w <$> seen) ∈ lcp w <$> seen) as (w0 & -> & Hw0)%list_elem_of_fmap
      by (apply max_list_elem_of; by destruct seen).
    apply (Hmax w0); [done| |apply lcp_le_l].
    rewrite (lcp_take w w0 (lcp w w0)) by done. apply prefix_take.
Qed.

Lemma simulated_query prm r : simulated prm ->
  query_key prm (queue_key r) = queue_key r /\ query prm (queue_key r) = pages 1 (queue_key r).
Proof.
  intros (_ & Hp & _ & He). unfold query, query_key. rewrite Hp, He. unfold maybe_to_bigram_view, page_aligned.
  done.
Qed.

(** [t'] is [t] after some lookups. *)
Definition only_split {A} (t : RadixCache A) L (t' : RadixCache A) L' : Prop :=
  keeps t L t' L' /\ forall w v, content t' L' w v <-> content t L w v.

Lemma only_split_refl {A} (t : RadixCache A) L : only_split t L t L.
Proof. split; [apply keeps_refl|done]. Qed.

Lemma only_split_trans {A} (t1 : RadixCache A) L1 t2 L2 t3 L3 :
  only_split t1 L1 t2 L2 -> only_split t2 L2 t3 L3 -> only_split t1 L1 t3 L3.
Proof. intros [H1 H2] [H3 H4]. split; [by eapply keeps_trans|]. intros w v. by rewrite H4, H2. Qed.

Lemma longest_split {A} (t : RadixCache A) L t' L' w n v :
  only_split t L t' L' -> longest t' L' w n v <-> longest t L w n v.
Proof.
  intros [(_ & Hp & _) Hc]. unfold longest. rewrite Hp. by setoid_rewrite Hc.
Qed.

Section facts.
Context {A B : Type} `{KvFree A} `{KvFree B} `{Sha256} `{HeapQ} `{!Sha256Laws} (monotonic : nat -> Z).
Context (shuffle : list WReq -> list WReq).
Context (force_miss : bool) (check_threshold deprioritize_threshold : Z).
Implicit Types (t : RadixCache A) (qt : RadixCache B) (L : gset nat) (e : PolicyEnv A B).

(** The queue's tree is ready for use. *)
Definition queue_tree_ok qt seen : Prop :=
  exists L, radix_inv qt L [] /\ simulated (params qt) /\ holds_seqs qt L seen.

Lemma reset_holds qt L Hq : radix_inv qt L Hq -> simulated (params qt) ->
  exists qt', reset monotonic qt = (Ok tt, qt') /\ queue_tree_ok qt' [].
Proof.
  intros Hinv Hsim. destruct (reset_run monotonic qt) as (qt' & Hr & Hi & Hp & _).
  { exact (i_ps _ _ _ _ _ _ _ _ _ Hinv). }
  { intros x [n Hn]. apply (i_fresh _ _ _ _ _ _ _ _ _ Hinv). rewrite (cores_lookup _ _ _ Hn). eauto. }
  exists qt'. split; [done|]. exists {[root_node qt']}. split_and!; [done|by rewrite Hp|]. intros w. split.
  - intros (v & x & l & w' & v' & Hx & Hu & Hw & _). apply elem_of_singleton in Hx as ->.
    apply up_root_inv in Hu as (_ & -> & _). left. by apply prefix_nil_inv.
  - intros [->|(w0 & Hw0 & _)]; [|by apply elem_of_nil in Hw0].
    exists [], (root_node qt'), [], [], []. split_and!; [set_solver|constructor|done|done].
Qed.

(** Looking a request up in the queue's tree *)
Lemma queue_lookup_run qt seen r : queue_tree_ok qt seen ->
  exists v x qt', match_prefix monotonic (queue_key r) qt = (Ok (MkMatch v x), qt') /\
    len v = Z.of_nat (shared seen (pages 1 (queue_key r))) /\ queue_tree_ok qt' seen.
Proof.
  intros (L & Hinv & Hsim & Hh). destruct (simulated_query _ r Hsim) as [_ Eq]. pose proof Hsim as (Hd & Hps & _).
  destruct (radix_lookup_run monotonic qt L [] (queue_key r) Hinv Hd) as
    (v & n & st & x & qt' & L' & Hrun & _ & Hl & _ & _ & Hi & Hk & Hc & _).
  rewrite Eq in Hl. set (w := pages 1 (queue_key r)) in *. destruct Hl as (Hn & Hst & Hmax).
  exists v, x, qt'. split_and!; [done| |].
  - destruct Hst as (y & l & w' & v' & Hy & Hu & Hw' & Ev).
    pose proof (up_value_length _ _ (i_ps _ _ _ _ _ _ _ _ _ Hinv) _ _ _ _ _ _ (i_shape _ _ _ _ _ _ _ _ _ Hinv) Hy Hu) as Hlv.
    assert (length v = n) as Ev'.
    { rewrite Ev, length_take, Hlv, Hps, length_take. apply prefix_length in Hw'. rewrite length_take in Hw'. lia. }
    unfold len. rewrite Ev'. f_equal. apply shared_spec; [done| |].
    + apply Hh. exists v. by exists y, l, w', v'.
    + intros w0 m Hw0 Hm Hlm. destruct (proj2 (Hh (take m w))) as [v0 Hv0]; [right; eauto|].
      destruct (Hmax _ _ Hv0) as [Hle _]; [apply prefix_take|]. rewrite length_take in Hle. lia.
  - exists L'. destruct Hk as (_ & Hp & _). split_and!; [done|by rewrite Hp|]. intros w0. rewrite <-(Hh w0).
    by setoid_rewrite Hc.
Qed.

(** Adding a request to it *)
Lemma queue_insert_run qt seen r : queue_tree_ok qt seen ->
  exists n qt', insert monotonic (queue_key r) (Some (replicate (length (token_ids (queue_key r))) 0)) (Some 0) false qt =
    (Ok n, qt') /\ queue_tree_ok qt' (pages 1 (queue_key r) :: seen).
Proof.
  intros (L & Hinv & Hsim & Hh). destruct (simulated_query _ r Hsim) as [Ek Eq]. pose proof Hsim as (Hd & Hps & Hev & He).
  destruct (insert_run monotonic qt L [] (queue_key r) (Some (replicate (length (token_ids (queue_key r))) 0)) (Some 0)
    false Hinv Hd) as (n & qt' & Hrun & Hins).
  { unfold insert_value. rewrite Ek, He. unfold maybe_to_bigram_view. simpl andb. cbv iota. simpl snd.
    rewrite length_take, length_replicate. unfold key_len. simpl. lia. }
  { by rewrite Hev. }
  rewrite Eq in Hins. destruct (inserted_spec monotonic qt L [] _ _ n qt' Hinv Hins) as (L' & vs & Hi & Hk & Hl & Hc & _).
  eexists _, qt'. split; [exact Hrun|]. exists L'. pose proof Hk as (_ & Hp & _).
  split_and!; [done|by rewrite Hp|]. intros w0. set (w := pages 1 (queue_key r)) in *. destruct Hl as (Hn & Hst & _).
  split.
  - intros [v [Hv|(Hw & _)]%Hc].
    + destruct (proj1 (Hh w0)) as [->|(w1 & Hw1 & Hpre)]; [eauto|by left|]. right. exists w1. split; [by right|done].
    + right. exists w. split; [by left|done].
  - intros Hw0. destruct (decide (w0 `prefix_of` w /\ n < length w0)%nat) as [[Hw Hlt]|Hno].
    { eexists. apply Hc. right. split_and!; done. }
    assert (exists v, content qt L w0 v) as [v Hv]; [|exists v; apply Hc; by left].
    destruct Hw0 as [->|(w1 & [->|Hw1]%elem_of_cons & Hpre)]; [apply Hh; by left| |apply Hh; right; eauto].
    eexists. eapply stored_prefix; [exact (i_ps _ _ _ _ _ _ _ _ _ Hinv)|exact Hst|].
    assert (length w0 <= n)%nat as Hle by (destruct (decide (n < length w0)%nat); [by destruct Hno|lia]).
    destruct Hpre as [k ->]. rewrite take_app_ge by done. by apply prefix_app_r.
Qed.

(** ** One request *)

(** [r'] is [r] with the result of its lookup. *)
Definition matched t L t' L' (r r' : WReq) : Prop :=
  exists n v x, longest t L (query (params t) (queue_key r)) n v /\ x ∈ L' /\
    spells t' x (take n (query (params t) (queue_key r))) v /\
    r' = if force_miss then set_match [] (root_node t) r else set_match v x r.

Lemma matched_later t L t1 L1 t' L' r r' :
  matched t L t1 L1 r r' -> only_split t1 L1 t' L' -> matched t L t' L' r r'.
Proof.
  intros (n & v & x & Hl & Hx & Hsp & Hr) [(HL & _ & _ & Hk) _]. exists n, v, x. split_and!; try done.
  - set_solver.
  - by apply Hk.
Qed.

Lemma matched_earlier t L t1 L1 t' L' r r' :
  only_split t L t1 L1 -> matched t1 L1 t' L' r r' -> matched t L t' L' r r'.
Proof.
  intros Ho (n & v & x & Hl & Hx & Hsp & Hr). pose proof Ho as [(_ & Hp & Hroot & _) _]. rewrite Hp in Hl, Hsp.
  rewrite Hroot in Hr. exists n, v, x. split_and!; [|done..]. by apply (longest_split t L t1 L1).
Qed.

Lemma matched_live t L Hh t' L' r r' : radix_inv t L Hh -> only_split t L t' L' -> matched t L t' L' r r' ->
  w_last_node r' ∈ L' /\ queue_key r' = queue_key r /\ w_rid r' = w_rid r.
Proof.
  intros Hinv [(HL & _) _] (n & v & x & _ & Hx & _ & ->). destruct force_miss; split_and!; try done.
  apply HL. exact (sh_root_in _ _ _ _ (i_shape _ _ _ _ _ _ _ _ _ Hinv)).
Qed.

Lemma on_main_run {C} (m : M (RadixCache A) C) e c t : m (pe_tree e) = (c, t) ->
  on_main m e = (c, MkPE t (pe_queue_tree e) (pe_queue e)).
Proof. intros E. unfold on_main, zoom. by rewrite E. Qed.

Lemma on_queue_tree_run {C} (m : M (RadixCache B) C) e c qt : m (pe_queue_tree e) = (c, qt) ->
  on_queue_tree m e = (c, MkPE (pe_tree e) qt (pe_queue e)).
Proof. intros E. unfold on_queue_tree, zoom. by rewrite E. Qed.

Lemma match_prefix_for_req_run t qt L Hh pre r todo :
  radix_inv t L Hh -> disable (params t) = false ->
  exists t' L' r', match_prefix_for_req monotonic force_miss (length pre) (queue_key r) (MkPE t qt (pre ++ r :: todo)) =
    (Ok tt, MkPE t' qt (pre ++ r' :: todo)) /\ matched t L t' L' r r' /\ only_split t L t' L' /\ radix_inv t' L' Hh.
Proof.
  intros Hinv Hd. destruct (radix_lookup_run monotonic t L Hh (queue_key r) Hinv Hd) as
    (v & n & st & x & t' & L' & Hrun & _ & Hl & Hx & Hsp & Hi & Hk & Hc & _).
  exists t', L', (if force_miss then set_match [] (root_node t) r else set_match v x r).
  split_and!; [|by exists n, v, x|by split|done].
  unfold match_prefix_for_req. erewrite bind_ok by (apply on_main_run; exact Hrun). cbv beta.
  erewrite bind_ok by reflexivity. erewrite bind_ok by reflexivity. unfold set_queue, modify. cbn [pe_queue].
  rewrite (alter_app_r_alt _ pre), Nat.sub_diag by done. cbn [pe_tree]. destruct Hk as (_ & _ & Hr & _).
  by destruct force_miss; simpl; rewrite ?Hr.
Qed.

(** What one iteration adds to the deprioritized requests and to those seen *)
Lemma compute_prefix_match_run t qt L Hh pre r todo seen d :
  radix_inv t L Hh -> disable (params t) = false -> queue_tree_ok qt seen ->
  exists t' qt' L' r' seen' dd,
    compute_prefix_match monotonic force_miss check_threshold deprioritize_threshold (length pre) d (MkPE t qt (pre ++ r :: todo)) =
      (Ok (d ∪ list_to_set dd), MkPE t' qt' (pre ++ r' :: todo)) /\
    matched t L t' L' r r' /\ only_split t L t' L' /\ radix_inv t' L' Hh /\ queue_tree_ok qt' seen' /\
    forall l, deprioritized force_miss check_threshold deprioritize_threshold seen (r' :: l) =
      dd ++ deprioritized force_miss check_threshold deprioritize_threshold seen' l.
Proof.
  intros Hinv Hd Hqt. destruct (match_prefix_for_req_run t qt L Hh pre r todo Hinv Hd) as (t' & L' & r' & Hrun & Hm & Ho & Hi).
  destruct (matched_live t L Hh t' L' r r' Hinv Ho Hm) as (_ & Ek & Er).
  exists t'. unfold compute_prefix_match. erewrite bind_ok by reflexivity. cbv beta. cbn [pe_queue].
  rewrite list_lookup_middle by done. fold (queue_key r). cbv zeta. rewrite (bind_ok _ _ _ _ _ Hrun). cbv beta.
  erewrite bind_ok by reflexivity. cbv beta. cbn [pe_queue]. rewrite list_lookup_middle by done. simpl (default _ _).
  case_decide as Hchk; cycle 1.
  { exists qt, L', r', seen, []. split_and!; try done.
    - unfold mret, M_ret. repeat f_equal. set_solver.
    - intros l. simpl. by rewrite decide_False. }
  destruct (queue_lookup_run qt seen r Hqt) as (v & x & qt' & Hrq & Hlen & Hqt').
  erewrite bind_ok by (apply on_queue_tree_run; exact Hrq). cbv beta. erewrite bind_ok by reflexivity. cbv beta. cbn [pe_queue_tree].
  set (m := if force_miss then zero_match_result qt' (MkMatch v x) else MkMatch v x).
  assert (len (device_indices m) = if force_miss then 0 else Z.of_nat (shared seen (pages 1 (queue_key r)))) as Em
    by (unfold m; by destruct force_miss).
  rewrite Em. case_decide as Hdep.
  - exists qt', L', r', seen, [w_rid r]. split_and!; try done.
    + unfold mret, M_ret. repeat f_equal. set_solver.
    + intros l. simpl. rewrite Ek, Er, decide_True, decide_True by done. done.
  - destruct (queue_insert_run qt' seen r Hqt') as (n & qt2 & Hri & Hqt2).
    erewrite bind_ok by (apply on_queue_tree_run; exact Hri). cbv beta.
    exists qt2, L', r', (pages 1 (queue_key r) :: seen), []. split_and!; try done.
    + unfold mret, M_ret. repeat f_equal. set_solver.
    + intros l. simpl. rewrite Ek, decide_True, decide_False by done. done.
Qed.

Lemma compute_prefix_loop_run todo : forall t qt L Hh pre seen d,
  radix_inv t L Hh -> disable (params t) = false -> queue_tree_ok qt seen ->
  exists t' qt' L' todo' seen',
    compute_prefix_loop monotonic force_miss check_threshold deprioritize_threshold (length todo) (length pre) d
      (MkPE t qt (pre ++ todo)) =
      (Ok (d ∪ list_to_set (deprioritized force_miss check_threshold deprioritize_threshold seen todo')),
       MkPE t' qt' (pre ++ todo')) /\
    Forall2 (matched t L t' L') todo todo' /\ only_split t L t' L' /\ radix_inv t' L' Hh /\ queue_tree_ok qt' seen'.
Proof.
  induction todo as [|r todo IH]; intros t qt L Hh pre seen d Hinv Hd Hqt.
  { exists t, qt, L, [], seen. split_and!; try done.
    simpl. unfold mret, M_ret. repeat f_equal. set_solver. }
  destruct (compute_prefix_match_run t qt L Hh pre r todo seen d Hinv Hd Hqt) as
    (t1 & qt1 & L1 & r' & seen1 & dd & Hrun & Hm & Ho1 & Hi1 & Hqt1 & Hdd).
  pose proof Ho1 as [(_ & Hp1 & _) _].
  destruct (IH t1 qt1 L1 Hh (pre ++ [r']) seen1 (d ∪ list_to_set dd) Hi1) as
    (t' & qt' & L' & todo' & seen' & Hr & Hf & Ho & Hi & Hqt'); [by rewrite Hp1|done|].
  exists t', qt', L', (r' :: todo'), seen'. split_and!; try done.
  - cbn [compute_prefix_loop length]. rewrite (bind_ok _ _ _ _ _ Hrun). rewrite length_app, <-!app_assoc in Hr.
    simpl in Hr. rewrite Nat.add_1_r in Hr. rewrite Hr, Hdd, list_to_set_app_L. by rewrite (assoc_L (∪)).
  - constructor; [by eapply matched_later|]. eapply Forall2_impl; [exact Hf|]. intros. by eapply matched_earlier.
  - by eapply only_split_trans.
Qed.

(** The pass over the queue *)
Lemma compute_prefix_matches_run t qt L Hh Lq Hq q :
  radix_inv t L Hh -> disable (params t) = false -> radix_inv qt Lq Hq -> simulated (params qt) ->
  exists t' qt' L' q' seen',
    compute_prefix_matches monotonic force_miss check_threshold deprioritize_threshold (MkPE t qt q) =
      (Ok (list_to_set (deprioritized force_miss check_threshold deprioritize_threshold [] q')), MkPE t' qt' q') /\
    Forall2 (matched t L t' L') q q' /\ only_split t L t' L' /\ radix_inv t' L' Hh /\ queue_tree_ok qt' seen'.
Proof.
  intros Hinv Hd Hqi Hsim. destruct (reset_holds qt Lq Hq Hqi Hsim) as (qt0 & Hr0 & Hqt0).
  unfold compute_prefix_matches. erewrite bind_ok by (apply on_queue_tree_run; exact Hr0). cbv beta.
  erewrite bind_ok by reflexivity. simpl.
  destruct (compute_prefix_loop_run q t qt0 L Hh [] [] ∅ Hinv Hd Hqt0) as (t' & qt' & L' & q' & seen' & Hr & Hrest).
  exists t', qt', L', q', seen'. split; [|done]. simpl in Hr. rewrite Hr. by rewrite (left_id_L ∅ (∪)).
Qed.

(** ** The claims *)

Abbreviation run_policy sp running e :=
  (calc_priority monotonic shuffle force_miss check_threshold deprioritize_threshold sp running e).
Abbreviation deprioritized_ids q :=
  (list_to_set (deprioritized force_miss check_threshold deprioritize_threshold [] q) : gset string).

Lemma queue_tree_inv qt seen : queue_tree_ok qt seen -> exists L, radix_inv qt L [] /\ simulated (params qt).
Proof. intros (L & Hi & Hs & _). eauto. Qed.

Lemma calc_priority_lpm_run sp running t qt L Hh Lq Hq q :
  sp_policy sp = LPM -> (length q <= 128)%nat ->
  radix_inv t L Hh -> disable (params t) = false -> radix_inv qt Lq Hq -> simulated (params qt) ->
  exists t' qt' L' Lq' q' qs,
    run_policy sp running (MkPE t qt q) = (Ok tt, MkPE t' qt' qs) /\
    Forall2 (matched t L t' L') q q' /\ stable_sorted (prefix_key (deprioritized_ids q')) q' qs /\
    only_split t L t' L' /\ radix_inv t' L' Hh /\ radix_inv qt' Lq' [] /\ simulated (params qt').
Proof.
  intros Hsp Hlen Hinv Hd Hqi Hsim.
  destruct (compute_prefix_matches_run t qt L Hh Lq Hq q Hinv Hd Hqi Hsim) as (t' & qt' & L' & q' & seen & Hr & Hf & Ho & Hi & Hqt).
  destruct (queue_tree_inv qt' seen Hqt) as (Lq' & Hqi' & Hsim').
  exists t', qt', L', Lq', q', (sort_by_longest_prefix (deprioritized_ids q') q').
  split_and!; try done; [|apply sort_by_stable].
  unfold calc_priority. rewrite decide_False by (by rewrite Hsp). erewrite bind_ok by reflexivity. cbv beta.
  unfold determine_active_policy. rewrite decide_False by (cbn [pe_queue]; intros [_ ?]; lia). rewrite Hsp.
  rewrite (bind_ok _ _ _ _ _ Hr). reflexivity.
Qed.

Lemma calc_priority_dfs_run sp running t qt L Hh Lq Hq q :
  sp_policy sp = DFS_WEIGHT ->
  radix_inv t L Hh -> disable (params t) = false -> radix_inv qt Lq Hq -> simulated (params qt) ->
  exists t' qt' L' Lq' q' qs T,
    run_policy sp running (MkPE t qt q) = (Ok tt, MkPE t' qt' qs) /\
    Forall2 (matched t L t' L') q q' /\ qs ≡ₚ q' /\
    spans (heap_cores t') T /\ node_of T = root_node t' /\ (forall x, x ∈ flatten T <-> x ∈ L') /\
    dfs_order (reqs_at q') T qs /\
    only_split t L t' L' /\ radix_inv t' L' Hh /\ radix_inv qt' Lq' [] /\ simulated (params qt').
Proof.
  intros Hsp Hinv Hd Hqi Hsim.
  destruct (compute_prefix_matches_run t qt L Hh Lq Hq q Hinv Hd Hqi Hsim) as (t' & qt' & L' & q' & seen & Hr & Hf & Ho & Hi & Hqt).
  destruct (queue_tree_inv qt' seen Hqt) as (Lq' & Hqi' & Hsim').
  destruct (sort_by_dfs_weight_run t' L' Hh q' Hi) as (T & qs & Hs & Hspan & Hroot & Hlive & _ & Hord & Hperm).
  { intros r' (i & Hi')%list_elem_of_lookup. destruct (Forall2_lookup_r _ _ _ _ _ Hf Hi') as (r & _ & Hm).
    by destruct (matched_live t L Hh t' L' r r' Hinv Ho Hm). }
  exists t', qt', L', Lq', q', qs, T. split_and!; try done.
  unfold calc_priority. rewrite decide_False by (by rewrite Hsp). erewrite bind_ok by reflexivity. cbv beta.
  unfold determine_active_policy. rewrite decide_False by (by rewrite Hsp; intros [? _]). rewrite Hsp.
  rewrite (bind_ok _ _ _ _ _ Hr). cbv beta. erewrite bind_ok by reflexivity. cbv beta. erewrite bind_ok by reflexivity.
  cbv beta. unfold lift_res. cbn [pe_tree pe_queue]. erewrite bind_ok by (by rewrite Hs). reflexivity.
Qed.

(** C14: [dfs-weight]: the queue holds the same requests, each with the longest
    cached prefix of its tokens, in a depth-first order of the cache's tree:
    the requests below any node are next to each other, the subtrees of a
    node with more requests first, and the requests that end at the node
    last.  What is cached does not change. *)
Theorem calc_priority_dfs sp running t qt L Hh Lq Hq q :
  sp_policy sp = DFS_WEIGHT ->
  radix_inv t L Hh -> disable (params t) = false -> radix_inv qt Lq Hq -> simulated (params qt) ->
  exists t' qt' L' Lq' q' qs T,
    run_policy sp running (MkPE t qt q) = (Ok tt, MkPE t' qt' qs) /\
    Forall2 (matched t L t' L') q q' /\ qs ≡ₚ q' /\
    spans (heap_cores t') T /\ node_of T = root_node t' /\ (forall x, x ∈ flatten T <-> x ∈ L') /\
    dfs_order (reqs_at q') T qs /\
    (forall T', T' ∈ subtrees T -> exists pre b post, qs = pre ++ b ++ post /\ b ≡ₚ below (reqs_at q') T') /\
    only_split t L t' L' /\ radix_inv t' L' Hh /\ radix_inv qt' Lq' [] /\ simulated (params qt').
Proof.
  intros Hsp Hinv Hd Hqi Hsim.
  destruct (calc_priority_dfs_run sp running t qt L Hh Lq Hq q Hsp Hinv Hd Hqi Hsim) as
    (t' & qt' & L' & Lq' & q' & qs & T & Hr & Hf & Hp & Hspan & Hroot & Hlive & Hord & Hrest).
  exists t', qt', L', Lq', q', qs, T. do 7 (split; [done|]). split; [|done].
  intros T' HT'. destruct (dfs_order_block _ T qs T' Hord HT') as (pre & b & post & E & Hb).
  exists pre, b, post. split; [done|by apply dfs_order_perm].
Qed.

(** The order of the policies that do not look at the cache *)
Definition agnostic_order (sp : SchedulePolicy) (running : option (list WReq)) (q qs : list WReq) : Prop :=
  match sp_policy sp with
  | FCFS =>
      if enable_priority_scheduling sp
      then stable_sorted (fun r => (w_priority r * priority_sign sp, w_entry_time r)) q qs
      else qs = q
  | LPM => (128 < length q)%nat /\ qs = q
  | DFS_WEIGHT => False
  | LOF =>
      if enable_priority_scheduling sp
      then stable_sorted (fun r => (w_priority r * priority_sign sp, - w_max_new_tokens r)) q qs
      else stable_sorted (fun r => - w_max_new_tokens r) q qs
  | RANDOM => qs = shuffle q
  | ROUTING_KEY =>
      match routing_key_counts (default [] running) with
      | [] => qs = q
      | counts => stable_sorted (routing_sort_key counts) q qs
      end
  end.

Lemma calc_priority_agnostic_run sp running t qt q :
  sp_policy sp ≠ DFS_WEIGHT -> (sp_policy sp = LPM -> (128 < length q)%nat) ->
  exists qs, run_policy sp running (MkPE t qt q) = (Ok tt, MkPE t qt qs) /\ agnostic_order sp running q qs.
Proof.
  intros Hdfs Hlpm. unfold calc_priority, agnostic_order.
  destruct (decide (sp_policy sp = FCFS)) as [->|Hf].
  { destruct (enable_priority_scheduling sp); eexists; (split; [reflexivity|]); [apply sort_by_stable|done]. }
  erewrite bind_ok by reflexivity. cbv beta. unfold determine_active_policy. cbn [pe_queue].
  case_decide as Hb.
  { destruct Hb as [-> Hb]. exists q. done. }
  destruct (sp_policy sp) eqn:Esp; try done.
  - destruct Hb. split; [done|by apply Hlpm].
  - destruct (enable_priority_scheduling sp); eexists; (split; [reflexivity|]); apply sort_by_stable.
  - eexists. split; reflexivity.
  - destruct running as [l|]; [|exists q; done]. eexists. split; [reflexivity|].
    unfold sort_by_routing_key. simpl. destruct (routing_key_counts l) as [|k ks]; [done|].
    rewrite decide_False by done. apply sort_by_stable.
Qed.

(** C13: [lpm] with at most 128 requests: the queue holds the same requests,
    each with the longest cached prefix of its tokens; a request that is
    deprioritized comes after all that are not, of the others the longer
    matches come first, and requests that compare equal keep their order.
    What is cached does not change.  With more than 128 requests the policy is
    switched off: nothing is looked up and the queue stays as it is. *)
Theorem calc_priority_lpm sp running t qt L Hh Lq Hq q :
  sp_policy sp = LPM ->
  radix_inv t L Hh -> disable (params t) = false -> radix_inv qt Lq Hq -> simulated (params qt) ->
  if decide (length q <= 128)%nat then
    exists t' qt' L' Lq' q' qs,
      run_policy sp running (MkPE t qt q) = (Ok tt, MkPE t' qt' qs) /\
      Forall2 (matched t L t' L') q q' /\ qs ≡ₚ q' /\
      (forall i j a b, (i < j)%nat -> qs !! i = Some a -> qs !! j = Some b -> w_rid b ∉ deprioritized_ids q' ->
        w_rid a ∉ deprioritized_ids q' /\ len (w_prefix_indices b) <= len (w_prefix_indices a)) /\
      (forall k, filter (fun r => prefix_key (deprioritized_ids q') r = k) qs =
        filter (fun r => prefix_key (deprioritized_ids q') r = k) q') /\
      only_split t L t' L' /\ radix_inv t' L' Hh /\ radix_inv qt' Lq' [] /\ simulated (params qt')
  else run_policy sp running (MkPE t qt q) = (Ok tt, MkPE t qt q).
Proof.
  intros Hsp Hinv Hd Hqi Hsim. case_decide as Hlen.
  - destruct (calc_priority_lpm_run sp running t qt L Hh Lq Hq q Hsp Hlen Hinv Hd Hqi Hsim) as
      (t' & qt' & L' & Lq' & q' & qs & Hr & Hf & Hst & Ho & Hi & Hqi' & Hsim').
    exists t', qt', L', Lq', q', qs. split_and!; try done; [apply Hst| |apply Hst].
    intros i j a b Hij Ha Hb Hnb. pose proof (stable_sorted_lookup _ _ _ _ _ _ _ Hst Hij Ha Hb) as Hle.
    unfold key_le, prefix_key in Hle. rewrite (decide_False (P := w_rid b ∈ _)) in Hle by done.
    case_decide as Hda; [done|]. split; [done|]. unfold py_lt, xnum_ord in Hle. apply bool_decide_eq_false in Hle. lia.
  - destruct (calc_priority_agnostic_run sp running t qt q) as (qs & Hr & Ho); [by rewrite Hsp|lia|].
    unfold agnostic_order in Ho. rewrite Hsp in Ho. destruct Ho as [_ ->]. exact Hr.
Qed.

Lemma agnostic_order_perm sp running q qs : (forall l, shuffle l ≡ₚ l) -> agnostic_order sp running q qs -> qs ≡ₚ q.
Proof.
  intros Hsh. unfold agnostic_order. destruct (sp_policy sp); try done.
  - by intros [_ ->].
  - destruct (enable_priority_scheduling sp); [by intros (Hp & _)|by intros ->].
  - by destruct (enable_priority_scheduling sp); intros (Hp & _).
  - by intros ->.
  - destruct (routing_key_counts _); [by intros ->|by intros (Hp & _)].
Qed.

(** A cache-aware policy is only chosen for a cache that is in use. *)
Lemma SchedulePolicy_init_aware name dis ep lf sp :
  SchedulePolicy_init name dis ep lf = Ok sp -> sp_policy sp = LPM \/ sp_policy sp = DFS_WEIGHT -> dis = false.
Proof.
  unfold SchedulePolicy_init, validate_and_adjust_policy, CacheAwarePolicy, CacheAgnosticPolicy.
  repeat case_decide; destruct dis; intros [= <-] [Hsp|Hsp]; simpl in Hsp; congruence.
Qed.

Lemma active_other sp q : sp_policy sp ≠ LPM -> determine_active_policy sp q = sp_policy sp.
Proof. intros Hne. unfold determine_active_policy. by rewrite decide_False by tauto. Qed.

(** The policies that look at the cache *)
Definition cache_aware (p : Policy) : bool := match p with LPM | DFS_WEIGHT => true | _ => false end.

(** C15: Whatever the policy, for a scheduler policy made for this cache:
    ordering the queue never raises and neither loses nor duplicates a
    request, and does not change what is cached.  If the active policy looks at
    the cache, each request changes only by the result of its lookup.  If it
    does not (fcfs, lof, random, routing-key, and lpm for more than 128
    requests), no lookup is made: requests and caches stay as they are, and the
    order is the one of the policy. *)
Theorem calc_priority_total name ep lf sp running t qt L Hh Lq Hq q :
  SchedulePolicy_init name (disable (params t)) ep lf = Ok sp -> (forall l, shuffle l ≡ₚ l) ->
  radix_inv t L Hh -> radix_inv qt Lq Hq -> simulated (params qt) ->
  exists t' qt' L' Lq' Hq' q' qs,
    run_policy sp running (MkPE t qt q) = (Ok tt, MkPE t' qt' qs) /\ qs ≡ₚ q' /\
    (if cache_aware (determine_active_policy sp q) then Forall2 (matched t L t' L') q q'
     else q' = q /\ t' = t /\ qt' = qt /\ agnostic_order sp running q qs) /\
    only_split t L t' L' /\ radix_inv t' L' Hh /\ radix_inv qt' Lq' Hq' /\ simulated (params qt').
Proof.
  intros Hini Hsh Hinv Hqi Hsim.
  destruct (decide (sp_policy sp = DFS_WEIGHT)) as [Hdfs|Hdfs].
  { assert (disable (params t) = false) as Hd by (eapply SchedulePolicy_init_aware; [exact Hini|by right]).
    destruct (calc_priority_dfs_run sp running t qt L Hh Lq Hq q Hdfs Hinv Hd Hqi Hsim) as
      (t' & qt' & L' & Lq' & q' & qs & T & Hr & Hf & Hp & _ & _ & _ & _ & Hrest).
    exists t', qt', L', Lq', [], q', qs. do 2 (split; [done|]).
    split; [by rewrite active_other, Hdfs by (by rewrite Hdfs)|done]. }
  destruct (decide (sp_policy sp = LPM /\ (length q <= 128)%nat)) as [[Hl Hlen]|Hno].
  { assert (disable (params t) = false) as Hd by (eapply SchedulePolicy_init_aware; [exact Hini|by left]).
    destruct (calc_priority_lpm_run sp running t qt L Hh Lq Hq q Hl Hlen Hinv Hd Hqi Hsim) as
      (t' & qt' & L' & Lq' & q' & qs & Hr & Hf & (Hp & _) & Hrest).
    exists t', qt', L', Lq', [], q', qs. do 2 (split; [done|]).
    split; [unfold determine_active_policy; rewrite decide_False by lia; by rewrite Hl|done]. }
  destruct (calc_priority_agnostic_run sp running t qt q Hdfs) as (qs & Hr & Ho).
  { intros Hl. destruct (decide (length q <= 128)%nat); [by destruct Hno|lia]. }
  exists t, qt, L, Lq, Hq, q, qs. split_and!; try done.
  - by eapply agnostic_order_perm.
  - assert (cache_aware (determine_active_policy sp q) = false) as ->; [|done]. unfold determine_active_policy.
    case_decide as Hact; [done|]. destruct (sp_policy sp) eqn:E; try done. destruct Hact. split; [done|].
    destruct (decide (length q <= 128)%nat); [by destruct Hno|lia].
Qed.
End facts.
