(* ===== verification/SchedDemo.v ===== *)
(** * The order of the waiting queue: a concrete queue

    Five requests over the cache of RadixDemo.v, the orders the policies give
    them, and the theorems of SchedPolicyFacts.v there. *)

From S2P Require Import Prelude PyDict PySort RadixKey KvEvents RadixTree RadixOps RadixInv RadixMoves.
From S2P Require Import RadixState RadixLocks RadixRun RadixEvents RadixInsert RadixSpec RadixEvict.
From S2P Require Import RadixLockOps RadixTotal RadixDemo SchedPolicy SchedDfs SchedPolicyFacts.

Definition demo_wreq (rid : string) (ids : list Z) (prio : Z) (rkey : option string) (max_new entry : Z) : WReq :=
  MkWReq rid ids [] None prio rkey max_new entry [] 0.

(** The cache holds 1 2 3, 1 2 4 5 and 8 9 10. *)
Definition demo_queue : list WReq := [
  demo_wreq "new" [20; 21; 22] 0 (Some "a") 10 0;
  demo_wreq "same" [20; 21; 23] 1 (Some "b") 20 1;
  demo_wreq "eight" [8; 9; 11] 0 (Some "b") 30 2;
  demo_wreq "three" [1; 2; 3; 7] 2 None 40 3;
  demo_wreq "four" [1; 2; 4; 6] 0 None 50 4].

Definition demo_queue_tree : RadixCache (list Z) :=
  match create_simulated demo_clock [] with Ok s => s | Raise _ => demo_blank end.

Lemma demo_queue_tree_inv : exists L Hq, radix_inv demo_queue_tree L Hq /\ simulated (params demo_queue_tree).
Proof.
  set (s0 := MkCache (MkParams false 1 false false false LRUStrategy) ∅ 0 0 0 0 ∅ [] 0 [] : RadixCache (list Z)).
  destruct (reset_run demo_clock s0) as (s' & Hr & Hi & Hp & _); [simpl; lia| |].
  { intros x [n Hn]. simpl in Hn. by rewrite lookup_empty in Hn. }
  assert (demo_queue_tree = s') as ->.
  { unfold demo_queue_tree, create_simulated, RadixCache_init. 
    change (strategy_of_policy "lru") with (Ok LRUStrategy : res EvictionStrategy). cbv iota zeta. fold s0. by rewrite Hr. }
  exists {[root_node s']}, []. split; [done|]. rewrite Hp. done.
Qed.

Definition demo_sp (p : Policy) : SchedulePolicy := MkSP p true (-1).

Definition demo_order (p : Policy) (running : option (list WReq)) : list string :=
  w_rid <$> pe_queue (calc_priority demo_clock reverse false 1 2 (demo_sp p) running (MkPE demo_cache demo_queue_tree demo_queue)).2.

(** [same] shares two tokens with [new] and is put off; the longest match is
    first. *)
Example lpm_order : demo_order LPM None = ["three"; "four"; "eight"; "new"; "same"].
Proof. vm_compute. reflexivity. Qed.

(** The two requests below the node of 1 2 come before the one below 8 9; those
    without a match are last. *)
Example dfs_order_demo : demo_order DFS_WEIGHT None = ["three"; "four"; "eight"; "new"; "same"].
Proof. vm_compute. reflexivity. Qed.

Example other_orders :
  demo_order FCFS None = ["three"; "same"; "new"; "eight"; "four"] /\
  demo_order LOF None = ["three"; "same"; "four"; "eight"; "new"] /\
  demo_order ROUTING_KEY (Some (drop 1 demo_queue)) = ["same"; "eight"; "three"; "four"; "new"].
Proof. vm_compute. done. Qed.

(** *** Witnesses *)

Definition demo_policy_env : PolicyEnv (list Z) (list Z) := MkPE demo_cache demo_queue_tree demo_queue.

Lemma calc_priority_lpm_witness :
  exists t' qt' qs, calc_priority demo_clock reverse false 1 2 (demo_sp LPM) None demo_policy_env = (Ok tt, MkPE t' qt' qs).
Proof.
  destruct demo_cache_inv as (L & Hi & Hp). destruct demo_queue_tree_inv as (Lq & Hq & Hqi & Hsim).
  assert (disable (params demo_cache) = false) as Hd by (rewrite Hp; reflexivity).
  pose proof (calc_priority_lpm demo_clock reverse false 1 2 (demo_sp LPM) None demo_cache demo_queue_tree L [] Lq Hq demo_queue
    eq_refl Hi Hd Hqi Hsim) as H. rewrite decide_True in H by (simpl; lia).
  destruct H as (t' & qt' & L' & Lq' & q' & qs & Hr & _). exists t', qt', qs. exact Hr.
Defined.

Lemma calc_priority_dfs_witness :
  exists t' qt' qs, calc_priority demo_clock reverse false 1 2 (demo_sp DFS_WEIGHT) None demo_policy_env = (Ok tt, MkPE t' qt' qs).
Proof.
  destruct demo_cache_inv as (L & Hi & Hp). destruct demo_queue_tree_inv as (Lq & Hq & Hqi & Hsim).
  destruct (calc_priority_dfs demo_clock reverse false 1 2 (demo_sp DFS_WEIGHT) None demo_cache demo_queue_tree L [] Lq Hq demo_queue)
    as (t' & qt' & L' & Lq' & q' & qs & T & Hr & _).
  - reflexivity.
  - exact Hi.
  - rewrite Hp. reflexivity.
  - exact Hqi.
  - exact Hsim.
  - exists t', qt', qs. exact Hr.
Defined.

Lemma calc_priority_total_witness :
  exists t' qt' qs, calc_priority demo_clock reverse false 1 2 (MkSP RANDOM true (-1)) None demo_policy_env =
    (Ok tt, MkPE t' qt' qs).
Proof.
  destruct demo_cache_inv as (L & Hi & Hp). destruct demo_queue_tree_inv as (Lq & Hq & Hqi & Hsim).
  destruct (calc_priority_total demo_clock reverse false 1 2 "random" true false (MkSP RANDOM true (-1)) None
    demo_cache demo_queue_tree L [] Lq Hq demo_queue) as (t' & qt' & L' & Lq' & Hq' & q' & qs & Hr & _).
  - rewrite Hp. reflexivity.
  - intros l. apply reverse_Permutation.
  - exact Hi.
  - exact Hqi.
  - exact Hsim.
  - exists t', qt', qs. exact Hr.
Defined.
