(* ===== verification/PrefillAdder.v ===== *)
(** * Admission of requests to a prefill batch

    [PrefillAdder] of managers/schedule_policy.py over a [RadixCache]: the token
    budget, [add_one_req], [add_one_req_ignore_eos] and [add_chunked_req]; with
    [Req.init_next_round_input] and the loop of
    [Scheduler._get_new_batch_prefill_raw] that feeds the waiting queue to it.

    A request is added by value: the entry of [can_run_list] is the request as
    the adder has changed it.  [new_token_ratio] is a float; the estimates made
    with it are taken as exact rationals.  [allow_prefill] is the answer of the
    prefill delayer, [lora_allows] the answers of the LoRA check for the requests
    of the queue.  Left out are the branches for other caches and models (sliding
    windows, the host cache with its storage and prefetching, diffusion models),
    preemption, and the fields for log probabilities. *)

From S2P Require Import Prelude PyDict RadixKey KvEvents RadixTree RadixOps SchedPolicy.
From Stdlib Require Import QArith.
Open Scope Z_scope.

(** ** Numbers *)

(** [int(x)] *)
Definition py_int (x : Q) : Z := Z.quot (Qnum x) (Zpos (Qden x)).

(** [l[:n]], from the end for a negative [n] *)
Definition slice_to {X} (n : Z) (l : list X) : list X := take (Z.to_nat (if decide (n < 0) then len l + n else n)) l.

(** [available_size] of the allocator *)
Class KvAvailable (A : Type) := kv_available : A -> Z.

(** ** Requests and the adder *)

(** What the adder uses of a request in addition *)
Record PReq := MkPReq {
  p_req : WReq;
  p_fill_ids : list Z;
  p_extend_input_len : Z;
  p_ignore_eos : bool
}.

Definition p_max_new (r : PReq) : Z := w_max_new_tokens (p_req r).
Definition p_prefix_len (r : PReq) : Z := len (w_prefix_indices (p_req r)).
Definition p_output_len (r : PReq) : Z := len (w_output_ids (p_req r)).

(** Cutting a request to the first [n] tokens that are not cached *)
Definition set_extend (n : Z) (fill : list Z) (r : PReq) : PReq := MkPReq (p_req r) fill n (p_ignore_eos r).

Inductive AddReqResult := CONTINUE | NO_TOKEN | OTHER.

#[export] Instance add_result_eq_dec : EqDecision AddReqResult.
Proof. solve_decision. Defined.

(** The attributes of [PrefillAdder]; [one_request_only] is
    [dsa_prefill_cp_in_seq_split or prefill_context_parallel_enabled]. *)
Record PrefillAdder := MkAdder {
  pa_page_size : Z;
  new_token_ratio : Q;
  running_reqs : list PReq;
  rem_input_tokens : Z;
  rem_chunk_tokens : option Z;
  rem_total_token_offset : Q;
  cur_rem_token_offset : Z;
  req_states : option (list (Q * Z));
  can_run_list : list PReq;
  new_chunked_req : option PReq;
  log_hit_tokens : Z;
  log_input_tokens : Z;
  one_request_only : bool;
  prefill_max_requests : option Z
}.

Definition set_req_states (l : list (Q * Z)) (a : PrefillAdder) : PrefillAdder :=
  MkAdder (pa_page_size a) (new_token_ratio a) (running_reqs a) (rem_input_tokens a) (rem_chunk_tokens a)
    (rem_total_token_offset a) (cur_rem_token_offset a) (Some l) (can_run_list a) (new_chunked_req a)
    (log_hit_tokens a) (log_input_tokens a) (one_request_only a) (prefill_max_requests a).

Definition append_req (r : PReq) (a : PrefillAdder) : PrefillAdder :=
  MkAdder (pa_page_size a) (new_token_ratio a) (running_reqs a) (rem_input_tokens a) (rem_chunk_tokens a)
    (rem_total_token_offset a) (cur_rem_token_offset a) (req_states a) (can_run_list a ++ [r]) (new_chunked_req a)
    (log_hit_tokens a) (log_input_tokens a) (one_request_only a) (prefill_max_requests a).

Definition set_new_chunked (r : PReq) (a : PrefillAdder) : PrefillAdder :=
  MkAdder (pa_page_size a) (new_token_ratio a) (running_reqs a) (rem_input_tokens a) (rem_chunk_tokens a)
    (rem_total_token_offset a) (cur_rem_token_offset a) (req_states a) (can_run_list a) (Some r)
    (log_hit_tokens a) (log_input_tokens a) (one_request_only a) (prefill_max_requests a).

Record AdderEnv (A : Type) := MkAE { ae_adder : PrefillAdder; ae_tree : RadixCache A }.
Arguments MkAE {A}.
Arguments ae_adder {A}.
Arguments ae_tree {A}.

(** [ceil_paged_tokens] *)
Definition ceil_paged_tokens (page_size tokens : Z) : Z := - (- tokens / page_size) * page_size.

Section adder.
Context {A : Type} `{KvFree A} `{KvAvailable A} `{Sha256} `{HeapQ} (monotonic : nat -> Z).
Context (CLIP_MAX_NEW_TOKENS : Z) (force_miss : bool) (allow_prefill : bool).
Abbreviation ME := (M (AdderEnv A)).
Implicit Types (a : PrefillAdder) (t : RadixCache A) (r : PReq).

(** [_get_running_request_total_token_offset] *)
Definition running_request_offset (ratio : Q) r : Q :=
  (inject_Z (Z.min (p_max_new r - p_output_len r) CLIP_MAX_NEW_TOKENS) * ratio)%Q.

Definition sumQ {X} (f : X -> Q) (l : list X) : Q := foldr (fun x acc => (f x + acc)%Q) 0%Q l.

(** [__init__] *)
Definition PrefillAdder_init (page_size : Z) (running : list PReq) (ratio : Q) (rem_input : Z) (rem_chunk : option Z)
    (num_mixed_decode_tokens : Z) (one_only : bool) (max_requests : option Z) : PrefillAdder :=
  MkAdder page_size ratio running (rem_input - num_mixed_decode_tokens)
    ((fun c => c - num_mixed_decode_tokens) <$> rem_chunk)
    (inject_Z num_mixed_decode_tokens + sumQ (running_request_offset ratio) running)%Q num_mixed_decode_tokens
    None [] None 0 0 one_only max_requests.

Definition available_and_evictable t : Z := kv_available (allocator t) + evictable_size t.

Definition rem_total_tokens a t : Q := (inject_Z (available_and_evictable t) - rem_total_token_offset a)%Q.
Definition cur_rem_tokens a t : Z := available_and_evictable t - cur_rem_token_offset a.

Definition budget_state a t : AddReqResult :=
  if Qle_bool (rem_total_tokens a t) 0 || bool_decide (cur_rem_tokens a t <= 0) then NO_TOKEN
  else if decide (rem_input_tokens a <= 0) then OTHER
  else
    match rem_chunk_tokens a with
    | Some c => if decide (c <= 0) then OTHER else CONTINUE
    | None => CONTINUE
    end.

(** [_update_prefill_budget] *)
Definition update_prefill_budget (prefix_len extend_input_len max_new_tokens : Z) a : PrefillAdder :=
  let extend_input_len := ceil_paged_tokens (pa_page_size a) extend_input_len in
  let page_overhead := pa_page_size a in
  MkAdder (pa_page_size a) (new_token_ratio a) (running_reqs a) (rem_input_tokens a - extend_input_len)
    ((fun c => c - extend_input_len) <$> rem_chunk_tokens a)
    (rem_total_token_offset a + inject_Z (extend_input_len + max_new_tokens + page_overhead))%Q
    (cur_rem_token_offset a + (extend_input_len + page_overhead))
    (req_states a) (can_run_list a) (new_chunked_req a)
    (log_hit_tokens a + prefix_len) (log_input_tokens a + extend_input_len) (one_request_only a) (prefill_max_requests a).

Definition on_adder (f : PrefillAdder -> PrefillAdder) : ME unit :=
  modify (fun e : AdderEnv A => MkAE (f (ae_adder e)) (ae_tree e)).
Definition on_cache {C} (m : M (RadixCache A) C) : ME C := zoom ae_tree (fun t e => MkAE (ae_adder e) t) m.

(** [_req_inc_lock_ref] *)
Definition req_inc_lock_ref r : ME unit := on_cache (inc_lock_ref (w_last_node (p_req r))) ≫= fun _ => mret tt.

(** ** [add_chunked_req]: the result is the request when it is not finished *)
Definition add_chunked_req r : ME (option PReq) :=
  a ← gets ae_adder;
  t ← gets ae_tree;
  match rem_chunk_tokens a with
  | None => raise TypeError "'<' not supported between instances of 'int' and 'NoneType'"
  | Some chunk =>
      let rem_tokens := Z.min chunk (py_int (rem_total_tokens a t)) in
      let rem_tokens := if decide (rem_tokens <= 0) then chunk else rem_tokens in
      let truncated := bool_decide (rem_tokens < p_extend_input_len r) in
      let n := Z.min (p_extend_input_len r) rem_tokens in
      let r' := set_extend n (slice_to (p_prefix_len r + n) (p_fill_ids r)) r in
      on_adder (append_req r') ≫= fun _ =>
      on_adder (update_prefill_budget 0 n
        (if truncated then 0 else Z.min (p_max_new r) CLIP_MAX_NEW_TOKENS)) ≫= fun _ =>
      mret (if truncated then Some r' else None)
  end.

(** ** [add_one_req_ignore_eos] *)

(** [add_req_state]: nothing is added for a request that is about to end *)
Definition req_state a r : option (Q * Z) :=
  let ratio := if p_ignore_eos r then 1%Q else new_token_ratio a in
  let tokens_left := (inject_Z (p_max_new r) * ratio - inject_Z (p_output_len r))%Q in
  let tokens_occupied := len (w_origin_input_ids (p_req r)) + p_output_len r in
  if Qle_bool tokens_left 0 then None else Some (tokens_left, tokens_occupied).

(** The index the loop over [req_states] ends with *)
Fixpoint insert_index (tokens_left : Q) (i : nat) (l : list (Q * Z)) : nat :=
  match l with
  | [] => i
  | (left_, _) :: l' =>
      if Qle_bool tokens_left left_ then i
      else match l' with [] => i | _ => insert_index tokens_left (S i) l' end
  end.

(** [l.sort(key=lambda x: x[0])] *)
Fixpoint insert_state (x : Q * Z) (l : list (Q * Z)) : list (Q * Z) :=
  match l with
  | [] => [x]
  | y :: l' => if Qle_bool x.1 y.1 then x :: l else y :: insert_state x l'
  end.
Definition sort_states (l : list (Q * Z)) : list (Q * Z) := foldr insert_state [] l.

(** [req_states] with the request *)
Definition next_req_states a r : list (Q * Z) :=
  match req_states a with
  | None => sort_states (omap (req_state a) (r :: running_reqs a ++ can_run_list a))
  | Some l =>
      match req_state a r with
      | None => l
      | Some x => let i := insert_index x.1 0 l in take i l ++ x :: drop i l
      end
  end.

Definition IGNORE_EOS_RESERVE_TOKENS : Z := 1.

(** The loop over [req_states]: is there room until all have ended? *)
Fixpoint enough_until_end (cur_rem_tokens tokens_freed : Z) (l : list (Q * Z)) : bool :=
  match l with
  | [] => true
  | (tokens_left, tokens_occupied) :: l' =>
      let bs := len l in
      let min_free_tokens := (inject_Z (cur_rem_tokens + tokens_freed) - tokens_left * inject_Z bs)%Q in
      if Qle_bool min_free_tokens (inject_Z (IGNORE_EOS_RESERVE_TOKENS * bs)) then false
      else enough_until_end cur_rem_tokens (tokens_freed + tokens_occupied) l'
  end.

Definition add_one_req_ignore_eos r : ME AddReqResult :=
  a ← gets ae_adder;
  t ← gets ae_tree;
  let paged_input := ceil_paged_tokens (pa_page_size a) (p_extend_input_len r) in
  if negb (Qle_bool (inject_Z paged_input) (inject_Z (cur_rem_tokens a t))) ||
     negb (Qle_bool (inject_Z paged_input) (rem_total_tokens a t)) then mret NO_TOKEN
  else
    on_adder (fun a => set_req_states (next_req_states a r) a) ≫= fun _ =>
    if negb (enough_until_end (cur_rem_tokens a t - paged_input) 0 (next_req_states a r)) then mret NO_TOKEN
    else if negb allow_prefill then mret OTHER
    else
      let done : ME AddReqResult := gets (fun e => budget_state (ae_adder e) (ae_tree e)) in
      match rem_chunk_tokens a with
      | Some chunk =>
          if decide (p_extend_input_len r <= chunk) then
            on_adder (append_req r) ≫= fun _ =>
            on_adder (update_prefill_budget 0 (p_extend_input_len r) (Z.min (p_max_new r) CLIP_MAX_NEW_TOKENS)) ≫= fun _ =>
            done
          else if decide (chunk <= 0) then mret OTHER
          else
            let r' := set_extend chunk (slice_to chunk (p_fill_ids r)) r in
            on_adder (append_req r') ≫= fun _ =>
            on_adder (set_new_chunked r') ≫= fun _ =>
            on_adder (update_prefill_budget 0 chunk 0) ≫= fun _ =>
            done
      | None =>
          on_adder (append_req r) ≫= fun _ =>
          on_adder (update_prefill_budget 0 (p_extend_input_len r) (Z.min (p_max_new r) CLIP_MAX_NEW_TOKENS)) ≫= fun _ =>
          done
      end.

(** ** [add_one_req] *)

(** [with self._lock_node(node): body] *)
Definition lock_node {C} (node : nat) (body : ME C) : ME C := fun e =>
  let '(c, e1) := (on_cache (inc_lock_ref node) ≫= fun _ => body) e in
  match on_cache (dec_lock_ref node) e1 with
  | (Ok _, e2) => (c, e2)
  | (Raise ex, e2) => (Raise ex, e2)
  end.

(** The length a request is cut to, [None] when not even a page fits *)
Definition trunc_len (page_size chunk prefix_len : Z) (truncation_align_size : option Z) : option Z :=
  let n := chunk / page_size * page_size in
  if decide (n <= 0) then None
  else
    let aligned :=
      match truncation_align_size with
      | None => Some n
      | Some al => if decide (n < al) then None else Some (al * (n / al))
      end in
    match aligned with
    | None => None
    | Some n =>
        let now_input_len := (n + prefix_len) / page_size * page_size in
        let n := now_input_len - prefix_len in
        if decide (n <= 0) then None else Some n
    end.

(** The body of the [with] statement; [Some] is an early return *)
Definition add_locked (total_tokens : Z) (truncation_align_size : option Z) r : ME (option AddReqResult) :=
  a ← gets ae_adder;
  t ← gets ae_tree;
  if Qle_bool (rem_total_tokens a t) (inject_Z total_tokens) then mret (Some NO_TOKEN)
  else
    let prefix_len := p_prefix_len r in
    let input_tokens := ceil_paged_tokens (pa_page_size a) (p_extend_input_len r) in
    let whole : ME (option AddReqResult) :=
      on_adder (append_req r) ≫= fun _ =>
      req_inc_lock_ref r ≫= fun _ =>
      on_adder (update_prefill_budget prefix_len input_tokens (Z.min (p_max_new r) CLIP_MAX_NEW_TOKENS)) ≫= fun _ =>
      mret None in
    match rem_chunk_tokens a with
    | None =>
        if decide (can_run_list a ≠ [] /\ rem_input_tokens a <= input_tokens) then mret (Some OTHER) else whole
    | Some chunk =>
        if decide (input_tokens <= chunk) then whole
        else
          match trunc_len (pa_page_size a) chunk prefix_len truncation_align_size with
          | None => mret (Some OTHER)
          | Some n =>
              let r' := set_extend n (slice_to (prefix_len + n) (p_fill_ids r)) r in
              on_adder (append_req r') ≫= fun _ =>
              on_adder (set_new_chunked r') ≫= fun _ =>
              req_inc_lock_ref r' ≫= fun _ =>
              on_adder (update_prefill_budget prefix_len n 0) ≫= fun _ =>
              mret None
          end
    end.

Definition add_one_req (truncation_align_size : option Z) r : ME AddReqResult :=
  a ← gets ae_adder;
  t ← gets ae_tree;
  if negb allow_prefill then mret OTHER
  else if decide (one_request_only a = true /\ can_run_list a ≠ []) then mret OTHER
  else if match prefill_max_requests a with Some x => bool_decide (x <= len (can_run_list a)) | None => false end
  then mret OTHER
  else if p_ignore_eos r && disable (params t) then add_one_req_ignore_eos r
  else
    let max_new := Z.min (Z.max (p_max_new r - p_output_len r) 0) CLIP_MAX_NEW_TOKENS in
    let total_tokens := p_extend_input_len r + max_new + pa_page_size a in
    let real_input_tokens := ceil_paged_tokens (pa_page_size a) (p_extend_input_len r) in
    if Qle_bool (rem_total_tokens a t) (inject_Z total_tokens) then mret NO_TOKEN
    else if decide (rem_chunk_tokens a = None /\ can_run_list a ≠ [] /\ rem_input_tokens a <= real_input_tokens)
    then mret OTHER
    else
      early ← lock_node (w_last_node (p_req r)) (add_locked total_tokens truncation_align_size r);
      match early with
      | Some res => mret res
      | None => gets (fun e => budget_state (ae_adder e) (ae_tree e))
      end.

(** ** The loop over the waiting queue *)

(** [init_next_round_input] with [_compute_max_prefix_len], for a request without
    log probabilities, session, images and embedding overrides *)
Definition init_next_round_input r : ME PReq :=
  let fill := w_origin_input_ids (p_req r) ++ w_output_ids (p_req r) in
  let max_prefix_len := Z.max (len fill - 1) 0 in
  let k := MkKey (slice_to max_prefix_len fill) (w_extra_key (p_req r)) false in
  m ← on_cache (match_prefix monotonic k);
  t ← gets ae_tree;
  let m := if force_miss then zero_match_result t m else m in
  let w := set_match (device_indices m) (last_device_node m) (p_req r) in
  mret (MkPReq w fill (len fill - len (w_prefix_indices w)) (p_ignore_eos r)).

(** The loop of [_get_new_batch_prefill_raw], at place [i] of the queue; [limit]
    is [get_num_allocatable_reqs], [free_rows] is [available_size] of the table
    of slots if disaggregated serving makes the loop check it again.
    [lora_allows i r] stands for
    [not enable_lora or _can_schedule_lora_req(r, running_loras)]: a request that
    may not be scheduled is skipped.  The result is whether the loop sets
    [batch_is_full]. *)
Fixpoint prefill_loop (lora_allows : nat -> PReq -> bool) (limit : Z) (free_rows : option Z)
    (truncation_align_size : option Z) (i : nat) (waiting_queue : list PReq) : ME bool :=
  match waiting_queue with
  | [] => mret false
  | r :: waiting_queue' =>
      if negb (lora_allows i r) then prefill_loop lora_allows limit free_rows truncation_align_size (S i) waiting_queue'
      else
        a ← gets ae_adder;
        if decide (limit <= len (can_run_list a)) then mret true
        else if match free_rows with Some n => bool_decide (n <= len (can_run_list a)) | None => false end then mret true
        else
          r ← init_next_round_input r;
          res ← add_one_req truncation_align_size r;
          match res with
          | CONTINUE => prefill_loop lora_allows limit free_rows truncation_align_size (S i) waiting_queue'
          | NO_TOKEN => mret true
          | OTHER => mret false
          end
  end.
End adder.
