(* ===== verification/PrefillFacts.v ===== *)
(** * Admission of requests: what the adder promises

    [adder_ok] ties the budget to the memory: the tokens set aside for the
    admitted requests are there, in free slots or in cached prefixes nobody
    holds.  [add_one_req_run] says that a request is either refused, with
    nothing changed, or admitted, with a lock on its prefix and within the
    budget; [prefill_pass_spec] says it of the loop over the waiting queue. *)

From S2P Require Import Prelude PyDict PySort RadixKey KvEvents RadixTree RadixOps RadixInv RadixMoves.
From S2P Require Import RadixState RadixLocks RadixRun RadixEvents RadixInsert RadixSpec RadixLockOps RadixTotal.
From S2P Require Import SchedPolicy SchedDfs SchedPolicyFacts PrefillAdder.
From Stdlib Require Import QArith Lqa.
Open Scope Z_scope.

(** ** Pages *)

Section pages.
Context (p : Z) (p_pos : 0 < p).
Abbreviation ceil := (ceil_paged_tokens p).

Lemma ceil_bounds x : x <= ceil x < x + p.
Proof. unfold ceil_paged_tokens. pose proof (Z.div_mod (- x) p). pose proof (Z.mod_pos_bound (- x) p). nia. Qed.

Lemma ceil_divide x : (p | ceil x).
Proof. unfold ceil_paged_tokens. exists (- (- x / p)). lia. Qed.

(** [ceil x] is the only multiple of [p] in its range. *)
Lemma ceil_unique x y : (p | y) -> x <= y < x + p -> ceil x = y.
Proof.
  intros [k ->] Hy. pose proof (ceil_bounds x). destruct (ceil_divide x) as [j Hj]. rewrite Hj in *.
  assert (j = k) as -> by nia. done.
Qed.

Lemma ceil_mono x y : x <= y -> ceil x <= ceil y.
Proof.
  intros Hxy. pose proof (ceil_bounds x). pose proof (ceil_bounds y). destruct (ceil_divide x) as [j Hj].
  destruct (ceil_divide y) as [k Hk]. rewrite Hj, Hk in *.
  apply Z.mul_le_mono_nonneg_r; [lia|]. apply Z.lt_succ_r. nia.
Qed.

Lemma ceil_idem x : ceil (ceil x) = ceil x.
Proof. apply ceil_unique; [apply ceil_divide|lia]. Qed.

Lemma floor_bounds x : x - p < x / p * p <= x.
Proof. pose proof (Z.div_mod x p). pose proof (Z.mod_pos_bound x p). nia. Qed.

(** A chunk budget below a page, or below the size chunks are aligned to *)
Definition spent (align : option Z) (c : Z) : Prop := c < p \/ exists al, align = Some al /\ c < al.

Lemma spent_none align c prefix_len : spent align c -> trunc_len p c prefix_len align = None.
Proof.
  intros Hs. unfold trunc_len. pose proof (floor_bounds c). case_decide as Hn; [done|].
  destruct Hs as [Hs|(al & -> & Hs)].
  - destruct (Z.lt_trichotomy 0 (c / p)) as [Hc|[Hc|Hc]]; nia.
  - by rewrite decide_True by lia.
Qed.

Lemma spent_le align c c' : spent align c -> c' <= c -> spent align c'.
Proof. intros [?|(al & ? & ?)] ?; [left; lia|right; exists al; split; [done|lia]]. Qed.

(** A cut is positive and leaves less than another one would need. *)
Lemma trunc_len_spec align c prefix_len n :
  (forall al, align = Some al -> 0 < al /\ (p | al)) -> 0 <= prefix_len ->
  trunc_len p c prefix_len align = Some n ->
  0 < n /\ ceil n <= c / p * p /\ spent align (c - ceil n).
Proof.
  intros Hal Hpl. unfold trunc_len. case_decide as Hn; [done|]. pose proof (floor_bounds c) as Hc.
  set (n0 := c / p * p) in *. assert (p | n0) as Hn0 by (by exists (c / p)).
  assert (forall n1, (p | n1) -> n1 <= n0 -> 0 < (n1 + prefix_len) / p * p - prefix_len ->
    ceil ((n1 + prefix_len) / p * p - prefix_len) = n1) as Hceil.
  { intros n1 Hd1 Hle Hpos. apply ceil_unique; [done|]. pose proof (floor_bounds (n1 + prefix_len)). lia. }
  destruct align as [al|]; cycle 1.
  - case_decide as Hz; [done|]. intros [= <-]. rewrite Hceil by (done || lia).
    split_and!; [lia|lia|]. left. lia.
  - destruct (Hal al eq_refl) as [Hpos Hdiv]. case_decide as Hlt; [done|]. case_decide as Hz; [done|]. intros [= <-].
    pose proof (Z.mul_div_le n0 al Hpos). pose proof (Z.mul_succ_div_gt n0 al Hpos).
    assert (p | al * (n0 / al)) as Hd1 by (by apply Z.divide_mul_l).
    rewrite Hceil by (done || lia). split_and!; [lia|lia|]. right. exists al. split; [done|].
    destruct Hn0 as [i Hi]. destruct Hdiv as [j Hj]. set (q := n0 / al) in *. clearbody q n0. subst n0 al.
    assert (i < j * Z.succ q) as Hij by (apply (Z.mul_lt_mono_pos_r p); [done|nia]).
    assert ((i + 1) * p <= j * Z.succ q * p) by (apply Z.mul_le_mono_nonneg_r; lia). nia.
Qed.
End pages.

(** ** The budget *)

Section facts.
Context {A : Type} `{KvFree A} `{KvAvailable A} `{Sha256} `{HeapQ} (monotonic : nat -> Z).
Context (CLIP : Z) (CLIP_nonneg : 0 <= CLIP) (force_miss allow_prefill : bool).
(** The tokens the running requests decode in the same batch, and the size
    chunks are aligned to *)
Context (mixed : Z) (align : option Z).
Implicit Types (a : PrefillAdder) (t : RadixCache A) (r : PReq) (L : gset nat).

Abbreviation page_ceil a := (ceil_paged_tokens (pa_page_size a)).

(** What is set aside for the admitted requests *)
Definition set_aside a : Z :=
  mixed + sumZ (fun r => page_ceil a (p_extend_input_len r) + pa_page_size a) (can_run_list a).

Record adder_ok a t : Prop := AdderOk {
  ok_page : 0 < pa_page_size a;
  ok_align al : align = Some al -> 0 < al /\ (pa_page_size a | al);
  ok_cur : cur_rem_token_offset a = set_aside a;
  ok_total : (inject_Z (cur_rem_token_offset a) <= rem_total_token_offset a)%Q;
  ok_fits : can_run_list a ≠ [] -> cur_rem_token_offset a - pa_page_size a < available_and_evictable t;
  ok_chunk : is_Some (new_chunked_req a) -> exists c, rem_chunk_tokens a = Some c /\ spent (pa_page_size a) align c
}.

Lemma adder_ok_tree a t t' : available_and_evictable t' = available_and_evictable t -> adder_ok a t -> adder_ok a t'.
Proof. intros E []. split; try done. by rewrite E. Qed.

(** A request fits in what is left, in whole tokens. *)
Lemma rem_total_lt a t n :
  (inject_Z (cur_rem_token_offset a) <= rem_total_token_offset a)%Q ->
  Qle_bool (rem_total_tokens a t) (inject_Z n) = false -> cur_rem_token_offset a + n < available_and_evictable t.
Proof.
  intros Hc Hq. apply not_true_iff_false in Hq. rewrite Qle_bool_iff in Hq. apply Qnot_le_lt in Hq.
  unfold rem_total_tokens in Hq. rewrite Zlt_Qlt, inject_Z_plus. lra.
Qed.

(** [a'] is [a] after it has taken [r] as [r']: whole, or cut to a chunk. *)
Inductive takes a r : PReq -> PrefillAdder -> Prop :=
  | Whole :
      (forall c, rem_chunk_tokens a = Some c -> page_ceil a (p_extend_input_len r) <= c) ->
      takes a r r (update_prefill_budget (p_prefix_len r) (page_ceil a (p_extend_input_len r))
        (Z.min (p_max_new r) CLIP) (append_req r a))
  | Cut c n :
      rem_chunk_tokens a = Some c -> c < page_ceil a (p_extend_input_len r) ->
      trunc_len (pa_page_size a) c (p_prefix_len r) align = Some n ->
      let r' := set_extend n (slice_to (p_prefix_len r + n) (p_fill_ids r)) r in
      takes a r r' (update_prefill_budget (p_prefix_len r) n 0 (set_new_chunked r' (append_req r' a))).

Lemma set_aside_app a r l : can_run_list a = l ++ [r] ->
  set_aside a = mixed + sumZ (fun r => page_ceil a (p_extend_input_len r) + pa_page_size a) l +
    (page_ceil a (p_extend_input_len r) + pa_page_size a).
Proof. intros E. unfold set_aside. rewrite E, sumZ_app. simpl. lia. Qed.

Lemma prefix_len_nonneg r : 0 <= p_prefix_len r.
Proof. apply len_nonneg. Qed.

(** [r'] is the first chunk of [r]. *)
Definition cut_of r r' : Prop :=
  0 < p_extend_input_len r' < p_extend_input_len r /\
  r' = set_extend (p_extend_input_len r') (slice_to (p_prefix_len r + p_extend_input_len r') (p_fill_ids r)) r.

Lemma takes_ok a t t1 r r' a' new :
  adder_ok a t -> takes a r r' a' -> 0 <= p_extend_input_len r -> 0 <= p_max_new r -> 0 <= new ->
  Qle_bool (rem_total_tokens a t1) (inject_Z (p_extend_input_len r + new + pa_page_size a)) = false ->
  adder_ok a' t1 /\ pa_page_size a' = pa_page_size a /\ can_run_list a' = can_run_list a ++ [r'] /\ p_req r' = p_req r /\
  0 <= p_extend_input_len r' <= p_extend_input_len r /\
  ((r' = r /\ new_chunked_req a' = new_chunked_req a) \/
   (new_chunked_req a = None /\ new_chunked_req a' = Some r' /\ cut_of r r')).
Proof.
  intros [Hp Hal Hcur Htot Hfit Hch] Htk Hext Hmax Hnew Hrem.
  pose proof (rem_total_lt a t1 _ Htot Hrem) as Hlt. pose proof (ceil_bounds _ Hp (p_extend_input_len r)) as Hce.
  destruct Htk as [Hc|c n Hc Hcut Htr r'].
  - split; [|split_and!; try done; by left]. split; simpl; try done.
    + rewrite Hcur, ceil_idem by done. unfold set_aside. simpl. rewrite sumZ_app. simpl. lia.
    + rewrite !ceil_idem, !inject_Z_plus in * by done. assert (0 <= inject_Z (Z.min (p_max_new r) CLIP))%Q
        by (change 0%Q with (inject_Z 0); rewrite <-Zle_Qle; lia). lra.
    + intros _. rewrite ceil_idem by done. lia.
    + intros Hs. destruct (Hch Hs) as (c & Ec & Hsp). rewrite Ec. simpl. eexists. split; [done|].
      eapply spent_le; [exact Hsp|]. rewrite ceil_idem by done. lia.
  - destruct (trunc_len_spec _ Hp align c (p_prefix_len r) n Hal (prefix_len_nonneg r) Htr) as (Hn & Hle & Hsp).
    pose proof (ceil_bounds _ Hp n) as Hcn. pose proof (floor_bounds _ Hp c) as Hfl.
    assert (page_ceil a n <= page_ceil a (p_extend_input_len r) - pa_page_size a) as Hless.
    { destruct (ceil_divide (pa_page_size a) n) as [i Hi]. destruct (ceil_divide (pa_page_size a) (p_extend_input_len r)) as [j Hj].
      rewrite Hi, Hj in *. assert (i < j) by nia. nia. }
    assert (new_chunked_req a = None) as Hno.
    { destruct (new_chunked_req a) as [r0|] eqn:E; [|done]. destruct (Hch ltac:(eauto)) as (c0 & Ec & Hs0).
      rewrite Hc in Ec. injection Ec as <-. by rewrite (spent_none _ Hp _ _ _ Hs0) in Htr. }
    split; [|split_and!; simpl; try done; [lia|lia|right; split_and!; [done|done|]; split; [simpl; lia|done]]].
    split; simpl; try done.
    + rewrite Hcur. unfold set_aside. simpl. rewrite sumZ_app. simpl. lia.
    + rewrite !inject_Z_plus in *. change (inject_Z 0) with 0%Q. lra.
    + intros _. lia.
    + intros _. rewrite Hc. simpl. eauto.
Qed.

(** ** Locks *)

Lemma on_cache_step {C} (m : M (RadixCache A) C) a t t' c : m t = (c, t') -> on_cache m (MkAE a t) = (c, MkAE a t').
Proof. intros E. unfold on_cache, zoom. simpl. by rewrite E. Qed.

Lemma view_available t t' : view t' = view t -> available_and_evictable t' = available_and_evictable t.
Proof. intros [= _ _ _ _ Ee _ _ _ Ea]. unfold available_and_evictable, evictable_size. by rewrite Ee, Ea. Qed.

Lemma lock_node_run {C} a t y (body : M (AdderEnv A) C) d t1 c a' t2 d' t3 :
  inc_lock_ref y t = (Ok d, t1) -> body (MkAE a t1) = (c, MkAE a' t2) -> dec_lock_ref y t2 = (Ok d', t3) ->
  lock_node y body (MkAE a t) = (c, MkAE a' t3).
Proof.
  intros Hinc Hb Hdec. unfold lock_node. rewrite (bind_ok _ _ _ _ _ (on_cache_step _ a _ _ _ Hinc)), Hb.
  by rewrite (on_cache_step _ a' _ _ _ Hdec).
Qed.

Lemma req_inc_lock_ref_run a t r d t' :
  inc_lock_ref (w_last_node (p_req r)) t = (Ok d, t') -> req_inc_lock_ref r (MkAE a t) = (Ok tt, MkAE a t').
Proof. intros E. unfold req_inc_lock_ref. by erewrite bind_ok by (apply on_cache_step; exact E). Qed.

(** The body of the [with] statement: refused, or taken with a second lock *)
Lemma add_locked_run a t1 r total :
  (exists res, res ≠ CONTINUE /\
    add_locked CLIP total align r (MkAE a t1) = (Ok (Some res), MkAE a t1)) \/
  (exists r' a', takes a r r' a' /\ w_last_node (p_req r') = w_last_node (p_req r) /\
    Qle_bool (rem_total_tokens a t1) (inject_Z total) = false /\
    forall d t2, inc_lock_ref (w_last_node (p_req r)) t1 = (Ok d, t2) ->
      add_locked CLIP total align r (MkAE a t1) = (Ok None, MkAE a' t2)).
Proof.
  unfold add_locked. change ((gets ae_adder ≫= ?f) ?e) with (f (ae_adder e) e). cbv beta.
  change ((gets ae_tree ≫= ?f) ?e) with (f (ae_tree e) e). cbv beta zeta. cbn [ae_adder ae_tree].
  destruct (Qle_bool (rem_total_tokens a t1) (inject_Z total)) eqn:Hq; [left; by exists NO_TOKEN|].
  assert ((forall c, rem_chunk_tokens a = Some c -> page_ceil a (p_extend_input_len r) <= c) ->
    exists r' a', takes a r r' a' /\ w_last_node (p_req r') = w_last_node (p_req r) /\ false = false /\
    forall d t2, inc_lock_ref (w_last_node (p_req r)) t1 = (Ok d, t2) ->
      (on_adder (append_req r) ≫= fun _ => req_inc_lock_ref r ≫= fun _ =>
       on_adder (update_prefill_budget (p_prefix_len r) (page_ceil a (p_extend_input_len r)) (Z.min (p_max_new r) CLIP)) ≫= fun _ =>
       mret (None : option AddReqResult)) (MkAE a t1) = (Ok None, MkAE a' t2)) as Hwhole.
  { intros Hc. eexists r, _. split_and!; [by apply Whole|done|done|]. intros d t2 Hinc.
    erewrite bind_ok by reflexivity. cbv beta. cbn [ae_adder ae_tree].
    rewrite (bind_ok _ _ _ _ _ (req_inc_lock_ref_run _ _ _ _ _ Hinc)). reflexivity. }
  destruct (rem_chunk_tokens a) as [c|] eqn:Hc; cycle 1.
  { case_decide; [left; by exists OTHER|]. right. by apply Hwhole. }
  case_decide as Hle; [right; apply Hwhole; by intros ? [= <-]|]. clear Hwhole.
  destruct (trunc_len (pa_page_size a) c (p_prefix_len r) align) as [n|] eqn:Htr; [|left; by exists OTHER].
  right. eexists _, _. split_and!; [by eapply Cut; [done|lia|]|done|done|]. intros d t2 Hinc.
  erewrite bind_ok by reflexivity. cbv beta. erewrite bind_ok by reflexivity. cbv beta. cbn [ae_adder ae_tree].
  erewrite bind_ok by (eapply req_inc_lock_ref_run; exact Hinc). reflexivity.
Qed.

(** A request is refused and nothing has changed, or it is taken and its
    prefix is held. *)
Lemma add_one_req_run a t L Hh r :
  adder_ok a t -> radix_inv t L Hh -> disable (params t) = false -> w_last_node (p_req r) ∈ L ->
  0 <= p_extend_input_len r -> 0 <= p_max_new r ->
  (exists res t', add_one_req CLIP allow_prefill align r (MkAE a t) = (Ok res, MkAE a t') /\ res ≠ CONTINUE /\ view t' = view t) \/
  (exists r' a' d t1 t', add_one_req CLIP allow_prefill align r (MkAE a t) = (Ok (budget_state a' t'), MkAE a' t') /\
    inc_lock_ref (w_last_node (p_req r)) t = (Ok d, t1) /\ view t' = view t1 /\ adder_ok a' t' /\
    pa_page_size a' = pa_page_size a /\ can_run_list a' = can_run_list a ++ [r'] /\ p_req r' = p_req r /\
    0 <= p_extend_input_len r' <= p_extend_input_len r /\
    ((r' = r /\ new_chunked_req a' = new_chunked_req a) \/
     (new_chunked_req a = None /\ new_chunked_req a' = Some r' /\ cut_of r r'))).
Proof.
  intros Hok Hinv Hd Hy Hext Hmax. unfold add_one_req. erewrite bind_ok by reflexivity. cbv beta.
  erewrite bind_ok by reflexivity. cbv beta zeta. cbn [ae_adder ae_tree].
  assert (forall res, res ≠ CONTINUE -> exists res' t', (mret res : M (AdderEnv A) AddReqResult) (MkAE a t) =
    (Ok res', MkAE a t') /\ res' ≠ CONTINUE /\ view t' = view t) as Hrefuse by (intros res Hr; by exists res, t).
  destruct (negb allow_prefill); [left; by apply Hrefuse|]. case_decide; [left; by apply Hrefuse|].
  destruct (match prefill_max_requests a with Some x => _ | None => _ end); [left; by apply Hrefuse|].
  rewrite Hd, andb_false_r. destruct (Qle_bool (rem_total_tokens a t) _); [left; by apply Hrefuse|].
  case_decide; [left; by apply Hrefuse|]. clear Hrefuse.
  set (total := p_extend_input_len r + _ + pa_page_size a).
  destruct (lock_roundtrip t L Hh _ Hinv Hd Hy) as (d & t1 & t2 & Hinc & Hdec & Hv).
  destruct (add_locked_run a t1 r total) as [(res & Hres & Hb)|(r' & a' & Htk & Hln & Hq & Hb)].
  - left. exists res, t2. split_and!; [|done|done].
    by rewrite (bind_ok _ _ _ _ _ (lock_node_run _ _ _ _ _ _ _ _ _ _ _ Hinc Hb Hdec)).
  - right.
    destruct (inc_lock_ref_run t L Hh _ Hinv Hd Hy) as (? & ? & ? & t1' & _ & Hinc' & Hi1 & Hv1).
    rewrite Hinc in Hinc'. injection Hinc' as _ <-.
    assert (disable (params t1) = false) as Hd1 by (injection Hv1 as -> _; exact Hd).
    destruct (lock_roundtrip t1 L _ _ Hi1 Hd1 Hy) as (d2 & t3 & t' & Hinc2 & Hdec2 & Hv2).
    destruct (takes_ok a t t1 r r' a' (Z.min (Z.max (p_max_new r - p_output_len r) 0) CLIP) Hok Htk Hext Hmax) as
      (Hok' & Hrest); [lia|exact Hq|].
    exists r', a', (- d)%Z, t1, t'. split_and!; try apply Hrest; try done.
    + by rewrite (bind_ok _ _ _ _ _ (lock_node_run _ _ _ _ _ _ _ _ _ _ _ Hinc (Hb _ _ Hinc2) Hdec2)).
    + eapply adder_ok_tree; [|exact Hok']. by apply view_available.
Qed.

(** The request that was cut in the round before is always added, with at
    least a token and at most what is left of the chunk; the result says
    whether it is finished. *)
Lemma add_chunked_req_run a t r c :
  rem_chunk_tokens a = Some c -> 0 < c -> 0 < p_extend_input_len r ->
  exists r' a', add_chunked_req CLIP r (MkAE a t) =
      (Ok (if bool_decide (p_extend_input_len r' < p_extend_input_len r) then Some r' else None), MkAE a' t) /\
    can_run_list a' = can_run_list a ++ [r'] /\ p_req r' = p_req r /\
    0 < p_extend_input_len r' <= Z.min c (p_extend_input_len r) /\
    p_fill_ids r' = slice_to (p_prefix_len r + p_extend_input_len r') (p_fill_ids r) /\
    cur_rem_token_offset a' = cur_rem_token_offset a + (page_ceil a (p_extend_input_len r') + pa_page_size a).
Proof.
  intros Hc Hpos Hext. unfold add_chunked_req. erewrite bind_ok by reflexivity. cbv beta. erewrite bind_ok by reflexivity.
  cbv beta zeta. cbn [ae_adder ae_tree]. rewrite Hc.
  set (m := if decide (Z.min c (py_int (rem_total_tokens a t)) <= 0) then c else Z.min c (py_int (rem_total_tokens a t))).
  assert (0 < m <= c) as Hm by (unfold m; case_decide; lia).
  set (n := Z.min (p_extend_input_len r) m).
  exists (set_extend n (slice_to (p_prefix_len r + n) (p_fill_ids r)) r). eexists. split.
  { erewrite bind_ok by reflexivity. cbv beta. erewrite bind_ok by reflexivity. simpl.
    assert (bool_decide (m < p_extend_input_len r) = bool_decide (n < p_extend_input_len r)) as ->
      by (apply bool_decide_ext; unfold n; lia).
    reflexivity. }
  simpl. split_and!; try done; unfold n; lia.
Qed.

(** ** The loop over the waiting queue *)

Lemma only_split_view t t' L : view t' = view t -> only_split t L t' L.
Proof. intros Hv. split; [by apply keeps_view|]. intros w v. by apply content_view. Qed.

Definition round_key r : RadixKey :=
  let fill := w_origin_input_ids (p_req r) ++ w_output_ids (p_req r) in
  MkKey (take (length fill - 1) fill) (w_extra_key (p_req r)) false.

(** [r1] is [r] ready for another round: all its tokens, and the longest cached
    prefix of all but the last. *)
Definition ready t L t' L' r r1 : Prop :=
  exists n v x, longest t L (query (params t) (round_key r)) n v /\ x ∈ L' /\
    spells t' x (take n (query (params t) (round_key r))) v /\
    p_req r1 = (if force_miss then set_match [] (root_node t) (p_req r) else set_match v x (p_req r)) /\
    p_fill_ids r1 = w_origin_input_ids (p_req r) ++ w_output_ids (p_req r) /\
    p_extend_input_len r1 = len (p_fill_ids r1) - p_prefix_len r1 /\
    0 <= p_extend_input_len r1 /\ (p_fill_ids r1 ≠ [] -> 0 < p_extend_input_len r1).

Lemma ready_later t L t1 L1 t' L' r r1 : ready t L t1 L1 r r1 -> only_split t1 L1 t' L' -> ready t L t' L' r r1.
Proof.
  intros (n & v & x & Hl & Hx & Hsp & Hr) [(HL & _ & _ & Hk) _]. exists n, v, x. split_and!; try apply Hr; try done.
  - set_solver.
  - by apply Hk.
Qed.

Lemma ready_earlier t L t1 L1 t' L' r r1 : only_split t L t1 L1 -> ready t1 L1 t' L' r r1 -> ready t L t' L' r r1.
Proof.
  intros Ho (n & v & x & Hl & Hx & Hsp & Hr). pose proof Ho as [(_ & Hp & Hroot & _) _]. rewrite Hp in Hl, Hsp.
  rewrite Hroot in Hr. exists n, v, x. split_and!; try apply Hr; try done. by apply (longest_split t L t1 L1).
Qed.

Lemma ready_live t L Hh t' L' r r1 : radix_inv t L Hh -> only_split t L t' L' -> ready t L t' L' r r1 ->
  w_last_node (p_req r1) ∈ L' /\ p_max_new r1 = p_max_new r /\ p_ignore_eos r1 = p_ignore_eos r1.
Proof.
  intros Hinv [(HL & _) _] (n & v & x & _ & Hx & _ & Hr & _). unfold p_max_new. rewrite Hr.
  destruct force_miss; split_and!; try done.
  apply HL. exact (sh_root_in _ _ _ _ (i_shape _ _ _ _ _ _ _ _ _ Hinv)).
Qed.

(** A match is no longer than what was looked up. *)
Lemma longest_len t L Hh k n v : radix_inv t L Hh -> is_bigram k = false ->
  longest t L (query (params t) k) n v -> (length v <= length (token_ids k))%nat.
Proof.
  intros Hinv Hb (Hn & (y & l & w' & v' & Hy & Hu & Hw & ->) & _). pose proof (i_ps _ _ _ _ _ _ _ _ _ Hinv) as Hps.
  destruct (query_key_spec (params t) k Hps) as [_ Hlen].
  assert (key_len (query_key (params t) k) <= length (token_ids k))%nat as Hk.
  { unfold query_key. destruct (page_aligned_spec (page_size (params t)) Hps
      (maybe_to_bigram_view (is_eagle (params t)) k None).1) as (_ & _ & ->).
    etrans; [rewrite Nat.mul_comm; apply Nat.Div0.mul_div_le|].
    unfold maybe_to_bigram_view. rewrite Hb. destruct (is_eagle (params t)); unfold key_len; simpl; rewrite ?Hb; lia. }
  rewrite length_take. etrans; [apply Nat.le_min_l|]. rewrite length_take.
  pose proof (Nat.le_min_r n (length (query (params t) k))). nia.
Qed.

Lemma init_next_round_input_run a t L Hh r :
  radix_inv t L Hh -> disable (params t) = false ->
  exists r1 t1 L1, init_next_round_input monotonic force_miss r (MkAE a t) = (Ok r1, MkAE a t1) /\
    ready t L t1 L1 r r1 /\ 0 <= p_extend_input_len r1 /\ only_split t L t1 L1 /\ radix_inv t1 L1 Hh /\
    available_and_evictable t1 = available_and_evictable t /\ allocator t1 = allocator t.
Proof.
  intros Hinv Hd. set (fill := w_origin_input_ids (p_req r) ++ w_output_ids (p_req r)).
  destruct (radix_lookup_run monotonic t L Hh (round_key r) Hinv Hd) as
    (v & n & st & x & t1 & L1 & Hrun & _ & Hl & Hx & Hsp & Hi & Hk & Hc & He & _ & Ha).
  set (w := if force_miss then set_match [] (root_node t) (p_req r) else set_match v x (p_req r)).
  pose proof (longest_len t L Hh (round_key r) n v Hinv eq_refl Hl) as Hlen. simpl in Hlen. fold fill in Hlen.
  rewrite length_take in Hlen.
  assert (0 <= len fill - len (w_prefix_indices w) /\ (fill ≠ [] -> 0 < len fill - len (w_prefix_indices w))) as [Hge Hgt].
  { unfold w, len. split; [destruct force_miss; simpl; lia|]. intros Hf. destruct fill; [done|].
    destruct force_miss; simpl in *; lia. }
  exists (MkPReq w fill (len fill - len (w_prefix_indices w)) (p_ignore_eos r)), t1, L1. split_and!.
  - unfold init_next_round_input. fold fill.
    assert (slice_to (Z.max (len fill - 1) 0) fill = take (length fill - 1) fill) as ->.
    { unfold slice_to, len. rewrite decide_False by lia. f_equal. lia. }
    fold (round_key r). erewrite bind_ok by (apply on_cache_step; exact Hrun). cbv beta. erewrite bind_ok by reflexivity.
    destruct Hk as (_ & _ & Hr & _). unfold w. cbn [ae_tree]. by destruct force_miss; simpl; rewrite ?Hr.
  - exists n, v, x. split_and!; done.
  - done.
  - by split.
  - done.
  - unfold available_and_evictable. by rewrite He, Ha.
  - done.
Qed.

(** How a waiting request enters the batch: whole, except for one that may be
    cut to a chunk *)
Definition enters t L t' L' a' r r' : Prop :=
  exists r1, ready t L t' L' r r1 /\ (r' = r1 \/ (new_chunked_req a' = Some r' /\ cut_of r1 r')).

(** What a part of the loop does: it takes the first requests of [q]. *)
Record passed (limit : Z) (q : list PReq) a t L (Hh : list nat) a' t' L' (new : list PReq) : Prop := Passed {
  pd_list : can_run_list a' = can_run_list a ++ new;
  pd_len : (length new <= length q)%nat;
  pd_enter : Forall2 (enters t L t' L' a') (take (length new) q) new;
  pd_inv : radix_inv t' L' (reverse ((fun r => w_last_node (p_req r)) <$> new) ++ Hh);
  pd_split : only_split t L t' L';
  pd_ok : adder_ok a' t';
  pd_alloc : allocator t' = allocator t;
  pd_page : pa_page_size a' = pa_page_size a;
  pd_chunked : is_Some (new_chunked_req a) -> new_chunked_req a' = new_chunked_req a;
  pd_limit : len (can_run_list a') <= Z.max limit (len (can_run_list a))
}.

Lemma passed_nil limit q a t L Hh t' L' :
  adder_ok a t' -> radix_inv t' L' Hh -> only_split t L t' L' -> allocator t' = allocator t ->
  passed limit q a t L Hh a t' L' [].
Proof. intros. split; try done; [by rewrite app_nil_r|simpl; lia|lia]. Qed.

(** One request, then the rest *)
Lemma passed_cons limit r q a t L Hh r1 r' a1 t1 L1 a' t' L' new :
  ready t L t1 L1 r r1 -> (r' = r1 /\ new_chunked_req a1 = new_chunked_req a \/
    new_chunked_req a = None /\ new_chunked_req a1 = Some r' /\ cut_of r1 r') ->
  p_req r' = p_req r1 -> can_run_list a1 = can_run_list a ++ [r'] -> only_split t L t1 L1 ->
  allocator t1 = allocator t -> pa_page_size a1 = pa_page_size a -> len (can_run_list a) < limit ->
  passed limit q a1 t1 L1 (w_last_node (p_req r') :: Hh) a' t' L' new ->
  passed limit (r :: q) a t L Hh a' t' L' (r' :: new).
Proof.
  intros Hrd Hr' Ep Hc Ho Ha Hpg Hlim [Pl Pn Pe Pi Ps Po Pa Pp Pc Pm]. split; simpl; try done.
  - by rewrite Pl, Hc, <-app_assoc.
  - lia.
  - constructor.
    + exists r1. split; [by eapply ready_later|]. destruct Hr' as [[-> _]|(_ & E & Hcut)]; [by left|right].
      split; [|done]. rewrite Pc; [done|]. by rewrite E.
    + eapply Forall2_impl; [exact Pe|]. intros r2 r2' (r3 & Hrd3 & H3). exists r3. split; [by eapply ready_earlier|done].
  - rewrite reverse_cons, <-app_assoc. exact Pi.
  - by eapply only_split_trans.
  - congruence.
  - congruence.
  - intros Hs. destruct Hr' as [[_ E]|(E & _)]; [rewrite Pc; congruence|]. rewrite E in Hs. by destruct Hs.
  - rewrite Hc, len_app in Pm. unfold len in *. simpl in Pm. lia.
Qed.

(** The tree with the prefix of a request held *)
Lemma held_run t L Hh y d t1 t' :
  radix_inv t L Hh -> disable (params t) = false -> y ∈ L -> inc_lock_ref y t = (Ok d, t1) -> view t' = view t1 ->
  radix_inv t' L (y :: Hh) /\ only_split t L t' L /\ allocator t' = allocator t.
Proof.
  intros Hinv Hd Hy Hinc Hv. destruct (inc_lock_ref_spec t L Hh y Hinv Hd Hy) as (d1 & t2 & Hr & _ & Hi & _ & _ & _ & _ & Hk & Hc).
  destruct (inc_lock_ref_run t L Hh y Hinv Hd Hy) as (? & ? & ? & t3 & _ & Hr3 & _ & Hv3).
  rewrite Hinc in Hr, Hr3. injection Hr as _ <-. injection Hr3 as _ <-. split_and!.
  - by eapply view_eq_inv.
  - eapply only_split_trans; [by split|by apply only_split_view].
  - rewrite Hv3 in Hv. by injection Hv.
Qed.

(** The requests that the LoRA check lets pass, from place [i] of the queue on *)
Fixpoint passing (lora_allows : nat -> PReq -> bool) (i : nat) (q : list PReq) : list PReq :=
  match q with
  | [] => []
  | r :: q' => if lora_allows i r then r :: passing lora_allows (S i) q' else passing lora_allows (S i) q'
  end.

Lemma prefill_loop_run lora_allows limit free_rows q : forall i a t L Hh,
  adder_ok a t -> radix_inv t L Hh -> disable (params t) = false -> Forall (fun r => 0 <= p_max_new r) q ->
  exists full a' t' L' new,
    prefill_loop monotonic CLIP force_miss allow_prefill lora_allows limit free_rows align i q (MkAE a t) =
      (Ok full, MkAE a' t') /\
    passed limit (passing lora_allows i q) a t L Hh a' t' L' new.
Proof.
  induction q as [|r q IH]; intros i a t L Hh Hok Hinv Hd Hq.
  { exists false, a, t, L, []. split; [done|]. by apply passed_nil. }
  apply Forall_cons in Hq as [Hr Hq]. cbn [prefill_loop passing]. destruct (lora_allows i r); [|by apply IH]. cbn [negb].
  erewrite bind_ok by reflexivity. cbv beta. cbn [ae_adder].
  case_decide as Hlim; [exists true, a, t, L, []; split; [done|by apply passed_nil]|].
  destruct (match free_rows with Some n => bool_decide (n <= len (can_run_list a)) | None => false end);
    [exists true, a, t, L, []; split; [done|by apply passed_nil]|].
  destruct (init_next_round_input_run a t L Hh r Hinv Hd) as (r1 & t1 & L1 & Hrun & Hrd & Hext & Ho1 & Hi1 & Hav1 & Hal1).
  rewrite (bind_ok _ _ _ _ _ Hrun). cbv beta.
  destruct (ready_live t L Hh t1 L1 r r1 Hinv Ho1 Hrd) as (Hln & Hmx & _). rewrite <-Hmx in Hr.
  assert (disable (params t1) = false) as Hd1 by (pose proof Ho1 as [(_ & -> & _) _]; exact Hd).
  assert (adder_ok a t1) as Hok1 by (by eapply adder_ok_tree).
  destruct (add_one_req_run a t1 L1 Hh r1 Hok1 Hi1 Hd1 Hln Hext Hr) as
    [(res & t2 & Hadd & Hres & Hv)|(r' & a2 & d & t2 & t3 & Hadd & Hinc & Hv & Hok3 & Hpg & Hcan & Hreq & Hext' & Hcut)].
  - rewrite (bind_ok _ _ _ _ _ Hadd). cbv beta.
    assert (passed limit (r :: passing lora_allows (S i) q) a t L Hh a t2 L1 []) as Hp.
    { apply passed_nil.
      - eapply adder_ok_tree; [by apply view_available|exact Hok1].
      - by eapply view_eq_inv.
      - eapply only_split_trans; [exact Ho1|by apply only_split_view].
      - injection Hv as _ _ _ _ _ _ _ _ ->. exact Hal1. }
    destruct res; [done|exists true, a, t2, L1, []; done|exists false, a, t2, L1, []; done].
  - rewrite (bind_ok _ _ _ _ _ Hadd). cbv beta.
    destruct (held_run t1 L1 Hh _ d t2 t3 Hi1 Hd1 Hln Hinc Hv) as (Hi3 & Ho3 & Hal3). rewrite <-Hreq in Hi3.
    assert (forall a' t' L' new, passed limit (passing lora_allows (S i) q) a2 t3 L1 (w_last_node (p_req r') :: Hh) a' t' L' new ->
      passed limit (r :: passing lora_allows (S i) q) a t L Hh a' t' L' (r' :: new)) as Hcons.
    { intros a' t' L' new. eapply passed_cons; [by eapply ready_later|exact Hcut|done|done| | |done|lia].
      - by eapply only_split_trans.
      - congruence. }
    assert (passed limit (passing lora_allows (S i) q) a2 t3 L1 (w_last_node (p_req r') :: Hh) a2 t3 L1 []) as Hend by (by apply passed_nil).
    destruct (budget_state a2 t3) eqn:Eb.
    + destruct (IH (S i) a2 t3 L1 _ Hok3 Hi3) as (full & a' & t' & L' & new & Hloop & Hp); [|done|].
      { pose proof Ho3 as [(_ & -> & _) _]. exact Hd1. }
      exists full, a', t', L', (r' :: new). split; [exact Hloop|by apply Hcons].
    + exists true, a2, t3, L1, [r']. split; [done|by apply Hcons].
    + exists false, a2, t3, L1, [r']. split; [done|by apply Hcons].
Qed.

(** ** The claims *)

Lemma sumQ_nonneg {X} (f : X -> Q) l : (forall x, x ∈ l -> (0 <= f x)%Q) -> (0 <= sumQ f l)%Q.
Proof.
  induction l as [|x l IH]; intros Hf; simpl; [lra|]. assert (0 <= f x)%Q by (apply Hf; left).
  assert (0 <= sumQ f l)%Q by (apply IH; intros; apply Hf; by right). lra.
Qed.

Definition fresh_adder page_size running ratio rem_input rem_chunk one_only max_requests : PrefillAdder :=
  PrefillAdder_init CLIP page_size running ratio rem_input rem_chunk mixed one_only max_requests.

Lemma fresh_adder_ok page_size running ratio rem_input rem_chunk one_only max_requests t :
  0 < page_size -> (forall al, align = Some al -> 0 < al /\ (page_size | al)) -> (0 <= ratio)%Q ->
  Forall (fun r => p_output_len r <= p_max_new r) running ->
  adder_ok (fresh_adder page_size running ratio rem_input rem_chunk one_only max_requests) t.
Proof.
  intros Hp Hal Hra Hrun. split; simpl; try done.
  - unfold set_aside. simpl. lia.
  - assert (0 <= sumQ (running_request_offset CLIP ratio) running)%Q; [|lra]. apply sumQ_nonneg. intros r Hr.
    rewrite Forall_forall in Hrun. specialize (Hrun r Hr). apply Qmult_le_0_compat; [|done].
    change 0%Q with (inject_Z 0). rewrite <-Zle_Qle. lia.
Qed.

(** What the loop over the waiting queue leaves behind: [q] are the requests of
    the queue that it may schedule *)
Record pass_result page_size limit q t L (Hh : list nat) a' t' L' : Prop := PassResult {
  pr_len : (length (can_run_list a') <= length q)%nat /\ len (can_run_list a') <= Z.max limit 0;
  pr_enter : Forall2 (enters t L t' L' a') (take (length (can_run_list a')) q) (can_run_list a');
  pr_held : radix_inv t' L' (reverse ((fun r => w_last_node (p_req r)) <$> can_run_list a') ++ Hh);
  pr_split : only_split t L t' L';
  pr_alloc : allocator t' = allocator t;
  pr_fits : can_run_list a' ≠ [] ->
    mixed + sumZ (fun r => ceil_paged_tokens page_size (p_extend_input_len r)) (can_run_list a') +
      page_size * (len (can_run_list a') - 1) < available_and_evictable t'
}.

Lemma set_aside_pages a : set_aside a =
  mixed + sumZ (fun r => page_ceil a (p_extend_input_len r)) (can_run_list a) + pa_page_size a * len (can_run_list a).
Proof.
  unfold set_aside, len. induction (can_run_list a) as [|r l IH]; simpl; [lia|]. simpl in IH. nia.
Qed.

Lemma enters_extend t L t' L' a' r r' : enters t L t' L' a' r r' -> 0 <= p_extend_input_len r'.
Proof.
  intros (r1 & (n & v & x & _ & _ & _ & _ & _ & _ & Hge & _) & [->|(_ & [Hcut _])]); [done|lia].
Qed.

Lemma prefill_pass_run lora_allows free_rows page_size running ratio rem_input rem_chunk one_only max_requests
    limit q t L Hh :
  0 < page_size -> (forall al, align = Some al -> 0 < al /\ (page_size | al)) -> (0 <= ratio)%Q ->
  Forall (fun r => p_output_len r <= p_max_new r) running -> Forall (fun r => 0 <= p_max_new r) q ->
  radix_inv t L Hh -> disable (params t) = false ->
  exists full a' t' L',
    prefill_loop monotonic CLIP force_miss allow_prefill lora_allows limit free_rows align 0 q
      (MkAE (fresh_adder page_size running ratio rem_input rem_chunk one_only max_requests) t) = (Ok full, MkAE a' t') /\
    pass_result page_size limit (passing lora_allows 0 q) t L Hh a' t' L'.
Proof.
  intros Hp Hal Hra Hrun Hq Hinv Hd.
  set (a := fresh_adder page_size running ratio rem_input rem_chunk one_only max_requests).
  assert (adder_ok a t) as Hok by (by apply fresh_adder_ok).
  destruct (prefill_loop_run lora_allows limit free_rows q 0 a t L Hh Hok Hinv Hd Hq) as (full & a' & t' & L' & new & Hr & [Pl Pn Pe Pi Ps Po Pa Pp _ Pm]).
  exists full, a', t', L'. split; [done|]. simpl in Pl, Pm, Pp. subst new. split; try done.
  intros Hne. pose proof (ok_fits _ _ Po Hne) as Hfit. rewrite (ok_cur _ _ Po), set_aside_pages, Pp in Hfit. lia.
Qed.

(** C9: One pass over the waiting queue, with an enabled cache and a fresh
    adder, never raises.  The batch is made of the first requests of the queue,
    not counting those that the LoRA check makes it skip, at most [limit] of
    them, each with the longest cached prefix of its tokens and whole, except
    that one may be cut to a chunk; each of them, and nobody else, has got a
    lock on its prefix; what is cached does not change.  The batch fits: for any
    page size its tokens, rounded up to whole pages for each request, with a
    spare page for each request but one, and the tokens of the running requests
    that are decoded in the same pass are there in free slots and in cached
    prefixes that nobody holds.  (The adder reckons with a spare page for the
    last request too; the check before it is added does not round its tokens up,
    so that page may be missing.) *)
Theorem prefill_pass_fits lora_allows free_rows page_size running ratio rem_input rem_chunk one_only max_requests
    limit q t L Hh :
  0 < page_size -> (forall al, align = Some al -> 0 < al /\ (page_size | al)) -> (0 <= ratio)%Q ->
  Forall (fun r => p_output_len r <= p_max_new r) running -> Forall (fun r => 0 <= p_max_new r) q ->
  radix_inv t L Hh -> disable (params t) = false ->
  exists full a' t' L',
    prefill_loop monotonic CLIP force_miss allow_prefill lora_allows limit free_rows align 0 q
      (MkAE (fresh_adder page_size running ratio rem_input rem_chunk one_only max_requests) t) = (Ok full, MkAE a' t') /\
    pass_result page_size limit (passing lora_allows 0 q) t L Hh a' t' L'.
Proof. apply prefill_pass_run. Qed.
End facts.
