(* ===== verification/PrefillAlloc.v ===== *)
(** * From admission to memory

    The budget of [PrefillAdder] meets the allocator: with a
    [TokenToKVPoolAllocator] behind the prefix cache, the slots of an admitted
    batch can be allocated.  Then the theorems at a concrete cache, and two
    corners of the code where the budget goes wrong. *)

From S2P Require Import Prelude PyDict PySort KvAllocator KvAllocFacts RadixKey KvEvents RadixTree RadixOps.
From S2P Require Import RadixInv RadixMoves RadixState RadixLocks RadixRun RadixEvents RadixInsert RadixSpec RadixEvict.
From S2P Require Import RadixLockOps RadixSlots RadixTotal RadixDemo RadixAlloc SchedPolicy SchedDfs SchedPolicyFacts.
From S2P Require Import PrefillAdder PrefillFacts.
From Stdlib Require Import QArith.
Open Scope Z_scope.

#[export] Instance token_available : KvAvailable KvAllocator := Token.available_size.

Lemma ceil_one x : ceil_paged_tokens 1 x = x.
Proof. unfold ceil_paged_tokens. rewrite Z.div_1_r. lia. Qed.

Section alloc.
Context `{Sha256} `{HeapQ} `{!Sha256Laws} `{!HeapQLaws} (monotonic : nat -> Z).
Context (CLIP : Z) (CLIP_nonneg : 0 <= CLIP) (force_miss allow_prefill : bool) (mixed : Z) (align : option Z).

(** The number of slots a batch needs *)
Definition extend_num_tokens (a : PrefillAdder) : Z := sumZ p_extend_input_len (can_run_list a).

(** C8: A batch the adder has put together never runs out of memory: with a page
    size of 1, [alloc_token_slots] for the tokens of the batch succeeds, if need
    be by evicting prefixes nobody holds; the prefixes of the batch, which it
    holds, and those of everybody else who holds one, stay cached. *)
Theorem prefill_batch_allocates lora_allows free_rows running ratio rem_input rem_chunk one_only max_requests limit q (t : Cache) L Hh :
  (forall al, align = Some al -> 0 < al) -> (0 <= ratio)%Q -> 0 <= mixed ->
  Forall (fun r => p_output_len r <= p_max_new r) running -> Forall (fun r => 0 <= p_max_new r) q ->
  radix_inv t L Hh -> disable (params t) = false -> alloc_ok (allocator t) ->
  exists full a' t' L' slots state t2 L2,
    prefill_loop monotonic CLIP force_miss allow_prefill lora_allows limit free_rows align 0 q
      (MkAE (fresh_adder CLIP mixed 1 running ratio rem_input rem_chunk one_only max_requests) t) = (Ok full, MkAE a' t') /\
    alloc_token_slots (Z.to_nat (extend_num_tokens a')) false t' = (Ok (slots, state), t2) /\
    len slots = extend_num_tokens a' /\ alloc_ok (allocator t2) /\
    evicted_for t' L' (reverse ((fun r => w_last_node (p_req r)) <$> can_run_list a') ++ Hh) t2 L2.
Proof.
  intros Hal Hra Hmix Hrun Hq Hinv Hd Ha.
  destruct (prefill_pass_run monotonic CLIP CLIP_nonneg force_miss allow_prefill mixed align lora_allows free_rows 1 running ratio rem_input rem_chunk
    one_only max_requests limit q t L Hh) as (full & a' & t' & L' & Hr & [Hlen Hent Hheld Hsplit Hal' Hfit]); try done.
  { intros al E. split; [by apply (Hal al)|apply Z.divide_1_l]. }
  assert (0 <= extend_num_tokens a') as Hpos.
  { apply sumZ_nonneg. intros r' (i & Hi)%list_elem_of_lookup. destruct (Forall2_lookup_r _ _ _ _ _ Hent Hi) as (r & _ & He).
    by eapply enters_extend. }
  destruct Hsplit as [(_ & Hp & _) _].
  destruct (alloc_token_slots_run t' L' _ (Z.to_nat (extend_num_tokens a')) false Hheld) as (res & t2 & L2 & Hres & Hev & Ha2 & Hout);
    [by rewrite Hp|by rewrite Hal'|].
  assert (extend_num_tokens a' <= available_and_evictable t') as Hle.
  { destruct (decide (can_run_list a' = [])) as [E|E].
    - unfold extend_num_tokens. rewrite E. destruct (inv_sizes_nonneg t' L' _ Hheld). simpl.
      unfold available_and_evictable, kv_available, token_available, Token.available_size, evictable_size.
      pose proof (len_nonneg (free_pages (allocator t'))). pose proof (len_nonneg (release_pages (allocator t'))). lia.
    - specialize (Hfit E). rewrite (sumZ_ext _ p_extend_input_len) in Hfit by (intros; apply ceil_one).
      fold (extend_num_tokens a') in Hfit. destruct (can_run_list a'); [done|]. unfold len in Hfit. simpl in Hfit. lia. }
  unfold available_and_evictable, kv_available, token_available in Hle.
  destruct res as [[slots state]|e]; [|destruct Hout as (Hlt & _); lia]. destruct Hout as (_ & Hls & _).
  exists full, a', t', L', slots, state, t2, L2. split_and!; try done. unfold len. rewrite Hls. lia.
Qed.
End alloc.

(** *** A concrete pool *)

(** Ten slots; three of them are cached under 1 2 3. *)
Definition ten_cache : Cache :=
  (insert demo_clock (plain [1; 2; 3]) (Some [1; 2; 3]) None false
    (reset demo_clock (MkCache demo_params ∅ 0 0 0 0 ∅ [] 0 (set_pages [4; 5; 6; 7; 8; 9; 10] [] (Token.init 10 false)))).2).2.

Lemma ten_cache_inv : exists L, radix_inv ten_cache L [] /\ params ten_cache = demo_params /\ alloc_ok (allocator ten_cache).
Proof.
  destruct (reset_run demo_clock (MkCache demo_params ∅ 0 0 0 0 ∅ [] 0
    (set_pages [4; 5; 6; 7; 8; 9; 10] [] (Token.init 10 false)))) as (s0 & Hr & Hi & Hp & Ha & _).
  { simpl. lia. } { intros x [n Hn]. simpl in Hn. by rewrite lookup_empty in Hn. }
  destruct (insert_then_match demo_clock s0 _ [] (plain [1; 2; 3]) (Some [1; 2; 3]) None false Hi) as
    (n & vs & s' & L' & Hins & _ & _ & Hi' & (_ & Hp' & _) & Ha' & _); rewrite ?Hp; try done.
  { intros _. repeat constructor; lia. }
  exists L'. unfold ten_cache. rewrite Hr. cbn [snd]. rewrite Hins. cbn [snd]. rewrite Hp', Hp, Ha', Ha.
  split_and!; [done|done|split; done].
Qed.

Definition demo_preq (rid : string) (ids : list Z) : PReq :=
  MkPReq (MkWReq rid ids [] None 0 None 1 0 [] 0) [] 0 false.

Definition demo_prefill_queue : list PReq :=
  [demo_preq "hit" [1; 2; 3; 4; 5]; demo_preq "miss" [7; 8; 9]; demo_preq "late" [7; 8]].

Definition demo_adder (chunk : option Z) : PrefillAdder := fresh_adder 4096 0 1 [] 1%Q 100 chunk false None.

(** No request is skipped; the first one is. *)
Definition all_allowed (i : nat) (r : PReq) : bool := true.
Definition not_the_first (i : nat) (r : PReq) : bool := bool_decide (i ≠ 0%nat).

Definition demo_pass (lora_allows : nat -> PReq -> bool) (chunk : option Z) : res bool * list (string * Z) :=
  let '(r, e) := prefill_loop demo_clock 4096 false true lora_allows 8 None None 0 demo_prefill_queue
    (MkAE (demo_adder chunk) ten_cache) in
  (r, (fun r => (w_rid (p_req r), p_extend_input_len r)) <$> can_run_list (ae_adder e)).

(** The first request needs two slots of its own, one token of output and one
    page; with its prefix held, three slots are left for the others. *)
Example pass_without_chunks : demo_pass all_allowed None = (Ok true, [("hit", 2)]).
Proof. vm_compute. reflexivity. Qed.

Example pass_with_chunks : demo_pass all_allowed (Some 1) = (Ok false, [("hit", 1)]).
Proof. vm_compute. reflexivity. Qed.

Example pass_with_lora : demo_pass not_the_first None = (Ok false, [("miss", 3); ("late", 2)]).
Proof. vm_compute. reflexivity. Qed.

#[local] Opaque ten_cache.

Lemma prefill_pass_fits_witness : exists full a' t',
  prefill_loop demo_clock 4096 false true all_allowed 8 None None 0 demo_prefill_queue (MkAE (demo_adder (Some 1)) ten_cache) =
    (Ok full, MkAE a' t').
Proof.
  destruct ten_cache_inv as (L & Hi & Hp & _).
  destruct (prefill_pass_fits demo_clock 4096 ltac:(lia) false true 0 None all_allowed None 1 [] 1%Q 100 (Some 1) false None 8
    demo_prefill_queue ten_cache L []) as (full & a' & t' & L' & Hr & _).
  - lia.
  - intros al E. discriminate E.
  - discriminate.
  - constructor.
  - repeat constructor; discriminate.
  - exact Hi.
  - rewrite Hp. reflexivity.
  - exists full, a', t'. exact Hr.
Defined.

Lemma prefill_batch_allocates_witness : exists full a' t' r t2,
  prefill_loop demo_clock 4096 false true all_allowed 8 None None 0 demo_prefill_queue (MkAE (demo_adder None) ten_cache) =
    (Ok full, MkAE a' t') /\
  alloc_token_slots (Z.to_nat (extend_num_tokens a')) false t' = (Ok r, t2).
Proof.
  destruct ten_cache_inv as (L & Hi & Hp & Ha).
  destruct (prefill_batch_allocates demo_clock 4096 ltac:(lia) false true 0 None all_allowed None [] 1%Q 100 None false None 8
    demo_prefill_queue ten_cache L []) as (full & a' & t' & L' & slots & state & t2 & L2 & Hr & Hal & _).
  - intros al E. discriminate E.
  - discriminate.
  - lia.
  - constructor.
  - repeat constructor; discriminate.
  - exact Hi.
  - rewrite Hp. reflexivity.
  - exact Ha.
  - exists full, a', t', (slots, state), t2. split; [exact Hr|exact Hal].
Defined.

(** *** Two corners *)

(** With more running requests in a mixed batch than tokens in a chunk, the
    chunk budget is negative, and [add_chunked_req] gives the request a negative
    number of tokens. *)
Lemma chunk_budget_negative t :
  let a := PrefillAdder_init 4096 1 [] 1%Q 100 (Some 2) 3 false None in
  let r := MkPReq (p_req (demo_preq "long" [])) [1; 2; 3; 4; 5] 5 false in
  p_extend_input_len <$> can_run_list (ae_adder (add_chunked_req 4096 r (MkAE a t : AdderEnv KvAllocator)).2) = [-1].
Proof.
  intros a r. unfold add_chunked_req. erewrite bind_ok by reflexivity. cbv beta. erewrite bind_ok by reflexivity.
  cbn [ae_adder ae_tree a PrefillAdder_init rem_chunk_tokens fmap option_fmap option_map].
  change (2 - 3) with (-1).
  assert (Z.min (-1) (py_int (rem_total_tokens a t)) <= 0) as Hle by lia.
  rewrite (decide_True (P := Z.min (-1) _ <= 0)) by exact Hle. reflexivity.
Qed.

(** Once [req_states] exists, a request that will run longer than all in it is
    inserted before the last one, so that the list is no longer sorted. *)
Lemma req_states_unsorted :
  let a := set_req_states [(1%Q, 0); (2%Q, 0)] (demo_adder None) in
  let r := MkPReq (MkWReq "r" [] [] None 0 None 5 0 [] 0) [] 0 true in
  (fun x => Qnum (Qred x.1)) <$> next_req_states a r = [1; 5; 2].
Proof. vm_compute. reflexivity. Qed.
