(* ===== verification/MambaTree.v ===== *)
(** * The prefix cache of hybrid models: nodes and LRU lists

    The data of mem_cache/mamba_radix_cache.py: its [TreeNode], the state of
    [MambaRadixCache] and [LRUList].  The nodes are a radix tree as in
    RadixTree.v; in addition a node may carry a checkpoint of the recurrent
    state at the end of its prefix ([mamba_value], a slot of the Mamba pool),
    and it is a member of two doubly linked lists, which keep the nodes, and
    the nodes with a checkpoint, in the order of their last use.

    The links are attributes of the nodes, as in the source: [LRUList] is
    written once for both lists and picks the attributes by a flag.  The two
    sentinels of a list are nodes of the heap, too.

    Access times are float64 values that are only compared and moved by 1 and
    by 0.00001; here they are integers in units of 0.00001. *)

From S2P Require Import Prelude PyDict RadixKey KvEvents RadixTree.

(** ** Nodes *)

(** [TreeNode]; the attributes of the host tier's list are not used here *)
Record MambaNode := MkMNode {
  n_children : dict child_key_t nat;
  n_parent : option nat;
  n_key : RadixKey;
  n_value : option (list Z);
  mamba_value : option (list Z);
  mamba_host_value : option (list Z);
  full_lock_ref : Z;
  mamba_lock_ref : Z;
  n_access : Z;
  n_hits : Z;
  n_host_ref : Z;
  host_mamba_ref_counter : Z;
  n_host_value : option (list Z);
  n_hash : option (list string);
  prev : option nat;
  next : option nat;
  mamba_prev : option nat;
  mamba_next : option nat
}.

(** [TreeNode()]; the key, [None] until the caller assigns it, is the empty key *)
Definition MambaNode_init (t_access : Z) : MambaNode :=
  MkMNode [] None (MkKey [] None false) None None None 0 0 t_access 0 0 0 None None None None None None.

Definition n_evicted (n : MambaNode) : bool := bool_decide (n_value n = None).
Definition mamba_evicted (n : MambaNode) : bool := bool_decide (mamba_value n = None).
Definition n_backuped (n : MambaNode) : bool := negb (bool_decide (n_host_value n = None)).
Definition mamba_backuped (n : MambaNode) : bool := negb (bool_decide (mamba_host_value n = None)).

(** Assignments to attributes. *)
Definition n_set_children d (n : MambaNode) :=
  MkMNode d (n_parent n) (n_key n) (n_value n) (mamba_value n) (mamba_host_value n) (full_lock_ref n)
    (mamba_lock_ref n) (n_access n) (n_hits n) (n_host_ref n) (host_mamba_ref_counter n) (n_host_value n)
    (n_hash n) (prev n) (next n) (mamba_prev n) (mamba_next n).
(** [n.parent = p; n.key = k; n.value = v] *)
Definition n_set_place p k v (n : MambaNode) :=
  MkMNode (n_children n) p k v (mamba_value n) (mamba_host_value n) (full_lock_ref n) (mamba_lock_ref n)
    (n_access n) (n_hits n) (n_host_ref n) (host_mamba_ref_counter n) (n_host_value n) (n_hash n)
    (prev n) (next n) (mamba_prev n) (mamba_next n).
Definition n_set_mamba mv (n : MambaNode) :=
  MkMNode (n_children n) (n_parent n) (n_key n) (n_value n) mv (mamba_host_value n) (full_lock_ref n)
    (mamba_lock_ref n) (n_access n) (n_hits n) (n_host_ref n) (host_mamba_ref_counter n) (n_host_value n)
    (n_hash n) (prev n) (next n) (mamba_prev n) (mamba_next n).
Definition n_set_locks zf zm (n : MambaNode) :=
  MkMNode (n_children n) (n_parent n) (n_key n) (n_value n) (mamba_value n) (mamba_host_value n) zf zm
    (n_access n) (n_hits n) (n_host_ref n) (host_mamba_ref_counter n) (n_host_value n) (n_hash n)
    (prev n) (next n) (mamba_prev n) (mamba_next n).
Definition n_set_access t (n : MambaNode) :=
  MkMNode (n_children n) (n_parent n) (n_key n) (n_value n) (mamba_value n) (mamba_host_value n)
    (full_lock_ref n) (mamba_lock_ref n) t (n_hits n) (n_host_ref n) (host_mamba_ref_counter n)
    (n_host_value n) (n_hash n) (prev n) (next n) (mamba_prev n) (mamba_next n).
Definition n_set_host_refs zf zm (n : MambaNode) :=
  MkMNode (n_children n) (n_parent n) (n_key n) (n_value n) (mamba_value n) (mamba_host_value n)
    (full_lock_ref n) (mamba_lock_ref n) (n_access n) (n_hits n) zf zm (n_host_value n) (n_hash n)
    (prev n) (next n) (mamba_prev n) (mamba_next n).
Definition n_set_hash hv (n : MambaNode) :=
  MkMNode (n_children n) (n_parent n) (n_key n) (n_value n) (mamba_value n) (mamba_host_value n)
    (full_lock_ref n) (mamba_lock_ref n) (n_access n) (n_hits n) (n_host_ref n) (host_mamba_ref_counter n)
    (n_host_value n) hv (prev n) (next n) (mamba_prev n) (mamba_next n).

(** The links of the list a flag stands for. *)
Definition get_prv (mamba : bool) (n : MambaNode) : option nat := if mamba then mamba_prev n else prev n.
Definition get_nxt (mamba : bool) (n : MambaNode) : option nat := if mamba then mamba_next n else next n.
Definition get_lock (mamba : bool) (n : MambaNode) : Z := if mamba then mamba_lock_ref n else full_lock_ref n.

Definition set_links (mamba : bool) (p q : option nat) (n : MambaNode) : MambaNode :=
  if mamba then
    MkMNode (n_children n) (n_parent n) (n_key n) (n_value n) (mamba_value n) (mamba_host_value n)
      (full_lock_ref n) (mamba_lock_ref n) (n_access n) (n_hits n) (n_host_ref n)
      (host_mamba_ref_counter n) (n_host_value n) (n_hash n) (prev n) (next n) p q
  else
    MkMNode (n_children n) (n_parent n) (n_key n) (n_value n) (mamba_value n) (mamba_host_value n)
      (full_lock_ref n) (mamba_lock_ref n) (n_access n) (n_hits n) (n_host_ref n)
      (host_mamba_ref_counter n) (n_host_value n) (n_hash n) p q (mamba_prev n) (mamba_next n).

Definition set_prv (mamba : bool) (o : option nat) (n : MambaNode) : MambaNode :=
  set_links mamba o (get_nxt mamba n) n.
Definition set_nxt (mamba : bool) (o : option nat) (n : MambaNode) : MambaNode :=
  set_links mamba (get_prv mamba n) o n.

Definition n_protect_host (n : MambaNode) : MambaNode :=
  n_set_host_refs (n_host_ref n + 1) (host_mamba_ref_counter n) n.
Definition n_release_host (n : MambaNode) : res MambaNode :=
  if decide (0 < n_host_ref n) then Ok (n_set_host_refs (n_host_ref n - 1) (host_mamba_ref_counter n) n)
  else Raise (Exn RuntimeError "Host reference counter is already zero.").
Definition protect_host_mamba (n : MambaNode) : MambaNode :=
  n_set_host_refs (n_host_ref n) (host_mamba_ref_counter n + 1) n.
Definition release_host_mamba (n : MambaNode) : res MambaNode :=
  if decide (0 < host_mamba_ref_counter n)
  then Ok (n_set_host_refs (n_host_ref n) (host_mamba_ref_counter n - 1) n)
  else Raise (Exn RuntimeError "Host mamba reference counter is already zero.").

(** ** The cache *)

(** [LRUList]: the sentinels and the ids of the members ([cache]) *)
Record LRUList := MkLRU { lru_head : nat; lru_tail : nat; lru_cache : gset nat }.

(** The attributes of [MambaRadixCache].  [m_counter] and [access_counter] are
    the class attributes of [TreeNode]; [m_alloc] is the state of
    [token_to_kv_pool_allocator], [m_pool] that of
    [req_to_token_pool.mamba_pool]. *)
Record MambaRadixCache (A P : Type) := MkMCache {
  m_params : CacheParams;
  enable_mamba_extra_buffer : bool;
  m_nodes : gmap nat MambaNode;
  m_counter : nat;
  access_counter : Z;
  m_root : nat;
  full_evictable_size_ : Z;
  mamba_evictable_size_ : Z;
  full_protected_size_ : Z;
  mamba_protected_size_ : Z;
  full_lru_list : LRUList;
  mamba_lru_list : LRUList;
  hit_tokens : Z;
  miss_tokens : Z;
  m_queue : list kv_event;
  m_alloc : A;
  m_pool : P
}.
Arguments MkMCache {A P}.
Arguments m_params {A P}.
Arguments enable_mamba_extra_buffer {A P}.
Arguments m_nodes {A P}.
Arguments m_counter {A P}.
Arguments access_counter {A P}.
Arguments m_root {A P}.
Arguments full_evictable_size_ {A P}.
Arguments mamba_evictable_size_ {A P}.
Arguments full_protected_size_ {A P}.
Arguments mamba_protected_size_ {A P}.
Arguments full_lru_list {A P}.
Arguments mamba_lru_list {A P}.
Arguments hit_tokens {A P}.
Arguments miss_tokens {A P}.
Arguments m_queue {A P}.
Arguments m_alloc {A P}.
Arguments m_pool {A P}.

(** What the cache and its clients use of the pool of recurrent states: the
    methods [alloc], [free], [copy_from] and [available_size] of [MambaPool]. *)
Class MambaSlots (P : Type) := {
  ms_alloc : nat -> P -> option (list Z) * P;
  ms_free : list Z -> P -> P;
  ms_copy : list Z -> list Z -> M P unit;
  ms_available : P -> Z
}.

Section updates.
Context {A P : Type}.
Implicit Types s : MambaRadixCache A P.

Definition mu_nodes (f : gmap nat MambaNode -> gmap nat MambaNode) s : MambaRadixCache A P :=
  MkMCache (m_params s) (enable_mamba_extra_buffer s) (f (m_nodes s)) (m_counter s) (access_counter s) (m_root s)
    (full_evictable_size_ s) (mamba_evictable_size_ s) (full_protected_size_ s) (mamba_protected_size_ s)
    (full_lru_list s) (mamba_lru_list s) (hit_tokens s) (miss_tokens s) (m_queue s) (m_alloc s) (m_pool s).
Definition mu_full (de dp : Z) s : MambaRadixCache A P :=
  MkMCache (m_params s) (enable_mamba_extra_buffer s) (m_nodes s) (m_counter s) (access_counter s) (m_root s)
    (full_evictable_size_ s + de) (mamba_evictable_size_ s) (full_protected_size_ s + dp) (mamba_protected_size_ s)
    (full_lru_list s) (mamba_lru_list s) (hit_tokens s) (miss_tokens s) (m_queue s) (m_alloc s) (m_pool s).
Definition mu_mamba (de dp : Z) s : MambaRadixCache A P :=
  MkMCache (m_params s) (enable_mamba_extra_buffer s) (m_nodes s) (m_counter s) (access_counter s) (m_root s)
    (full_evictable_size_ s) (mamba_evictable_size_ s + de) (full_protected_size_ s) (mamba_protected_size_ s + dp)
    (full_lru_list s) (mamba_lru_list s) (hit_tokens s) (miss_tokens s) (m_queue s) (m_alloc s) (m_pool s).
Definition mu_lru (mamba : bool) (q : LRUList) s : MambaRadixCache A P :=
  MkMCache (m_params s) (enable_mamba_extra_buffer s) (m_nodes s) (m_counter s) (access_counter s) (m_root s)
    (full_evictable_size_ s) (mamba_evictable_size_ s) (full_protected_size_ s) (mamba_protected_size_ s)
    (if mamba then full_lru_list s else q) (if mamba then q else mamba_lru_list s)
    (hit_tokens s) (miss_tokens s) (m_queue s) (m_alloc s) (m_pool s).
Definition mu_counts (h m : Z) s : MambaRadixCache A P :=
  MkMCache (m_params s) (enable_mamba_extra_buffer s) (m_nodes s) (m_counter s) (access_counter s) (m_root s)
    (full_evictable_size_ s) (mamba_evictable_size_ s) (full_protected_size_ s) (mamba_protected_size_ s)
    (full_lru_list s) (mamba_lru_list s) h m (m_queue s) (m_alloc s) (m_pool s).
Definition mu_queue (q : list kv_event) s : MambaRadixCache A P :=
  MkMCache (m_params s) (enable_mamba_extra_buffer s) (m_nodes s) (m_counter s) (access_counter s) (m_root s)
    (full_evictable_size_ s) (mamba_evictable_size_ s) (full_protected_size_ s) (mamba_protected_size_ s)
    (full_lru_list s) (mamba_lru_list s) (hit_tokens s) (miss_tokens s) q (m_alloc s) (m_pool s).
Definition mu_alloc (a : A) s : MambaRadixCache A P :=
  MkMCache (m_params s) (enable_mamba_extra_buffer s) (m_nodes s) (m_counter s) (access_counter s) (m_root s)
    (full_evictable_size_ s) (mamba_evictable_size_ s) (full_protected_size_ s) (mamba_protected_size_ s)
    (full_lru_list s) (mamba_lru_list s) (hit_tokens s) (miss_tokens s) (m_queue s) a (m_pool s).
Definition mu_pool (p : P) s : MambaRadixCache A P :=
  MkMCache (m_params s) (enable_mamba_extra_buffer s) (m_nodes s) (m_counter s) (access_counter s) (m_root s)
    (full_evictable_size_ s) (mamba_evictable_size_ s) (full_protected_size_ s) (mamba_protected_size_ s)
    (full_lru_list s) (mamba_lru_list s) (hit_tokens s) (miss_tokens s) (m_queue s) (m_alloc s) p.
Definition mu_access (t : Z) s : MambaRadixCache A P :=
  MkMCache (m_params s) (enable_mamba_extra_buffer s) (m_nodes s) (m_counter s) t (m_root s)
    (full_evictable_size_ s) (mamba_evictable_size_ s) (full_protected_size_ s) (mamba_protected_size_ s)
    (full_lru_list s) (mamba_lru_list s) (hit_tokens s) (miss_tokens s) (m_queue s) (m_alloc s) (m_pool s).
(** A new object in the heap. *)
Definition mu_fresh (n : MambaNode) s : MambaRadixCache A P :=
  MkMCache (m_params s) (enable_mamba_extra_buffer s) (<[m_counter s := n]> (m_nodes s)) (S (m_counter s))
    (access_counter s) (m_root s) (full_evictable_size_ s) (mamba_evictable_size_ s) (full_protected_size_ s)
    (mamba_protected_size_ s) (full_lru_list s) (mamba_lru_list s) (hit_tokens s) (miss_tokens s) (m_queue s)
    (m_alloc s) (m_pool s).
(** The tree attributes of an empty tree with root [r]. *)
Definition mu_root (r : nat) s : MambaRadixCache A P :=
  MkMCache (m_params s) (enable_mamba_extra_buffer s) (m_nodes s) (m_counter s) (access_counter s) r 0 0 0 0
    (full_lru_list s) (mamba_lru_list s) (hit_tokens s) (miss_tokens s) (m_queue s) (m_alloc s) (m_pool s).

Definition lru (mamba : bool) s : LRUList := if mamba then mamba_lru_list s else full_lru_list s.

Abbreviation MM := (M (MambaRadixCache A P)).

(** Reading and writing attributes through a reference. *)
Definition mnode_at (x : nat) : MM MambaNode := fun s =>
  match m_nodes s !! x with
  | Some n => (Ok n, s)
  | None => (Raise (Exn AttributeError "dangling reference"), s)
  end.

Definition mset (x : nat) (f : MambaNode -> MambaNode) : MM unit := modify (mu_nodes (alter f x)).

(** An attribute of what a reference that may be [None] refers to. *)
Definition deref (o : option nat) : MM nat :=
  match o with
  | Some x => mret x
  | None => raise AttributeError "'NoneType' object has no attribute"
  end.

Definition tensor (o : option (list Z)) : MM (list Z) :=
  match o with
  | Some v => mret v
  | None => raise TypeError "object of type 'NoneType' has no len()"
  end.

Definition massert (b : bool) (msg : string) : MM unit :=
  if b then mret tt else raise AssertionError msg.

(** [get_last_access_time()]; 1.0 is 100000 units *)
Definition get_last_access_time : MM Z := fun s =>
  (Ok (access_counter s), mu_access (access_counter s + 100000) s).

Definition allocate_mnode (n : MambaNode) : MM nat := fun s => (Ok (m_counter s), mu_fresh n s).

(** [TreeNode()]: the reference of the new object *)
Definition new_MambaNode : MM nat :=
  t ← get_last_access_time;
  allocate_mnode (MambaNode_init t).

(** ** [LRUList] *)

(** [LRUList(mamba)], without its assignment to the cache's attribute *)
Definition LRUList_init (mamba : bool) : MM LRUList :=
  h ← new_MambaNode;
  t ← new_MambaNode;
  mset h (set_nxt mamba (Some t)) ≫= fun _ =>
  mset t (set_prv mamba (Some h)) ≫= fun _ =>
  mret (MkLRU h t ∅).

(** [_add_node_after] *)
Definition add_node_after (mamba : bool) (old_node new_node : nat) : MM unit :=
  mset new_node (set_prv mamba (Some old_node)) ≫= fun _ =>
  o ← mnode_at old_node;
  mset new_node (set_nxt mamba (get_nxt mamba o)) ≫= fun _ =>
  o ← mnode_at old_node;
  x ← deref (get_nxt mamba o);
  mset x (set_prv mamba (Some new_node)) ≫= fun _ =>
  mset old_node (set_nxt mamba (Some new_node)).

(** [_add_node] *)
Definition add_node (mamba : bool) (node : nat) : MM unit :=
  q ← gets (lru mamba);
  add_node_after mamba (lru_head q) node.

(** [_remove_node] *)
Definition remove_node_links (mamba : bool) (node : nat) : MM unit :=
  n ← mnode_at node;
  p ← deref (get_prv mamba n);
  mset p (set_nxt mamba (get_nxt mamba n)) ≫= fun _ =>
  n ← mnode_at node;
  x ← deref (get_nxt mamba n);
  mset x (set_prv mamba (get_prv mamba n)) ≫= fun _ =>
  mset node (set_prv mamba None) ≫= fun _ =>
  mset node (set_nxt mamba None).

Definition member (mamba : bool) (node : nat) : MM bool :=
  gets (fun s => bool_decide (node ∈ lru_cache (lru mamba s))).

(** [not self.mamba or node.mamba_value is not None] *)
Definition not_tombstone (mamba : bool) (n : MambaNode) : bool := negb mamba || negb (mamba_evicted n).

(** [reset_node_mru] *)
Definition reset_node_mru (mamba : bool) (node : nat) : MM unit :=
  b ← member mamba node;
  massert b "Resetting node not in lru list" ≫= fun _ =>
  n ← mnode_at node;
  massert (not_tombstone mamba n) "Resetting mamba tombstone node in mamba lru list" ≫= fun _ =>
  remove_node_links mamba node ≫= fun _ =>
  add_node mamba node.

(** The loop of [reset_node_and_parents_mru]; each iteration moves to the parent *)
Fixpoint reset_path_loop (fuel : nat) (mamba : bool) (node root_node prev_node : nat) : MM unit :=
  match fuel with
  | O => raise RuntimeError "loop bound exceeded"
  | S fuel' =>
      if decide (node = root_node) then mret tt
      else
        n ← mnode_at node;
        prev' ← (if not_tombstone mamba n then
                   b ← member mamba node;
                   massert b "Resetting node not in lru list when resetting node and parents mru" ≫= fun _ =>
                   remove_node_links mamba node ≫= fun _ =>
                   add_node_after mamba prev_node node ≫= fun _ =>
                   mret node
                 else mret prev_node);
        p ← deref (n_parent n);
        reset_path_loop fuel' mamba p root_node prev'
  end.

Definition reset_node_and_parents_mru (mamba : bool) (node root_node : nat) : MM unit :=
  q ← gets (lru mamba);
  fuel ← gets (fun s => S (size (m_nodes s)));
  reset_path_loop fuel mamba node root_node (lru_head q).

(** [insert_mru] *)
Definition insert_mru (mamba : bool) (node : nat) : MM unit :=
  n ← mnode_at node;
  massert (not_tombstone mamba n) "Inserting mamba tombstone node in mamba lru list" ≫= fun _ =>
  b ← member mamba node;
  massert (negb b) "Inserting node already in lru list" ≫= fun _ =>
  modify (fun s => mu_lru mamba (MkLRU (lru_head (lru mamba s)) (lru_tail (lru mamba s))
    ({[node]} ∪ lru_cache (lru mamba s))) s) ≫= fun _ =>
  add_node mamba node.

(** [remove_node] *)
Definition remove_node (mamba : bool) (node : nat) : MM unit :=
  b ← member mamba node;
  massert b "Removing node not in lru list" ≫= fun _ =>
  n ← mnode_at node;
  massert (not_tombstone mamba n) "Removing mamba tombstone node from mamba lru list" ≫= fun _ =>
  modify (fun s => mu_lru mamba (MkLRU (lru_head (lru mamba s)) (lru_tail (lru mamba s))
    (lru_cache (lru mamba s) ∖ {[node]})) s) ≫= fun _ =>
  remove_node_links mamba node.

(** The loops of [get_prev_no_lock] and [get_prev_leaf_no_lock]: towards the
    most recently used end past the nodes to [skip] *)
Fixpoint prev_loop (fuel : nat) (mamba : bool) (skip : MambaNode -> bool) (x : option nat) : MM nat :=
  match fuel with
  | O => raise RuntimeError "loop bound exceeded"
  | S fuel' =>
      x' ← deref x;
      n ← mnode_at x';
      if skip n then prev_loop fuel' mamba skip (get_prv mamba n) else mret x'
  end.

Definition prev_search (mamba : bool) (skip : MambaNode -> bool) (node : nat) (check_id : bool) :
    MM (option nat) :=
  b ← member mamba node;
  massert (negb check_id || b) "Getting prev of node not in lru list" ≫= fun _ =>
  n ← mnode_at node;
  fuel ← gets (fun s => S (size (m_nodes s)));
  x ← prev_loop fuel mamba skip (get_prv mamba n);
  q ← gets (lru mamba);
  mret (if decide (x = lru_head q) then None else Some x).

Definition locked (mamba : bool) (n : MambaNode) : bool := bool_decide (0 < get_lock mamba n).
Definition locked_or_internal (mamba : bool) (n : MambaNode) : bool :=
  locked mamba n || bool_decide (0 < length (n_children n))%nat.

(** [get_prev_no_lock] *)
Definition get_prev_no_lock (mamba : bool) (node : nat) (check_id : bool) : MM (option nat) :=
  prev_search mamba (locked mamba) node check_id.

(** [get_prev_leaf_no_lock] *)
Definition get_prev_leaf_no_lock (mamba : bool) (node : nat) (check_id : bool) : MM (option nat) :=
  prev_search mamba (locked_or_internal mamba) node check_id.

(** [get_lru_no_lock] and [get_leaf_lru_no_lock] *)
Definition get_lru_no_lock (mamba : bool) : MM (option nat) :=
  q ← gets (lru mamba);
  get_prev_no_lock mamba (lru_tail q) false.

Definition get_leaf_lru_no_lock (mamba : bool) : MM (option nat) :=
  q ← gets (lru mamba);
  get_prev_leaf_no_lock mamba (lru_tail q) false.

(** [in_list] *)
Definition in_list (mamba : bool) (node : option nat) : MM bool :=
  match node with
  | Some x => member mamba x
  | None => mret false
  end.

(** *** The mixed-in events *)

Definition mev_of (n : MambaNode) : ev_node := EvNode (n_parent n) (n_key n) (n_hash n).

#[export] Instance mamba_events : EventHost (MambaRadixCache A P) := {|
  eh_page_size s := page_size (m_params s);
  eh_enabled s := enable_kv_cache_events (m_params s);
  eh_root := m_root;
  eh_node s x := mev_of <$> m_nodes s !! x;
  eh_set_hash x hv := mu_nodes (alter (n_set_hash (Some hv)) x);
  eh_queue := m_queue;
  eh_set_queue := mu_queue
|}.
End updates.
