(* ===== verification/MambaOps.v ===== *)
(** * The prefix cache of hybrid models: operations

    The methods of [MambaRadixCache] (mem_cache/mamba_radix_cache.py) on the
    state of MambaTree.v, statement by statement: [match_prefix], [insert],
    [evict], [inc_lock_ref], [dec_lock_ref], [reset], [total_size] and the
    helpers they call.  The entry points for requests are in MambaReq.v.

    The [while] loops have fuel: a descent consumes at least one unit of the
    key per iteration, the other loops visit each node of the heap at most
    once.  The theorems of the following files show that no run on a
    consistent cache exhausts it. *)

From S2P Require Import Prelude PyDict RadixKey KvEvents RadixTree MambaTree.

Section ops.
Context {A P : Type} `{KvFree A} `{MambaSlots P} `{Sha256}.

Abbreviation cache := (MambaRadixCache A P).
Abbreviation MM := (M (MambaRadixCache A P)).
Implicit Types s : cache.

Definition m_out_of_fuel {B : Type} : MM B := raise RuntimeError "loop bound exceeded".

(** [token_to_kv_pool_allocator.free], [mamba_pool.free], [mamba_pool.alloc] *)
Definition full_free (indices : list Z) : MM unit := zoom m_alloc mu_alloc (kv_free indices).
Definition mamba_free (indices : list Z) : MM unit :=
  modify (fun s => mu_pool (ms_free indices (m_pool s)) s).
Definition mamba_alloc (need_size : nat) : MM (option (list Z)) := fun s =>
  let '(r, p) := ms_alloc need_size (m_pool s) in (Ok r, mu_pool p s).

(** *** Splitting and matching *)

(** [_split_node]: the new node takes the first [split_len] units of [child];
    a checkpoint stays with the child *)
Definition m_split_node (k : RadixKey) (child split_len : nat) : MM nat :=
  ps ← gets (fun s : cache => page_size (m_params s));
  new_node ← new_MambaNode;
  ck ← lift_res (child_key ps (key_drop split_len k));
  c ← mnode_at child;
  v ← tensor (n_value c);
  mset new_node (fun n =>
    n_set_place (n_parent c) (key_take split_len (n_key c)) (Some (take split_len v))
      (n_set_locks (full_lock_ref c) 0 (n_set_mamba None (n_set_children [(ck, child)] n)))) ≫= fun _ =>
  t ← get_last_access_time;
  mset child (n_set_access t) ≫= fun _ =>
  remove_node false child ≫= fun _ =>
  (if mamba_evicted c then mret tt else remove_node true child) ≫= fun _ =>
  mset child (n_set_place (Some new_node) (key_drop split_len (n_key c)) (Some (drop split_len v))) ≫= fun _ =>
  p ← deref (n_parent c);
  pk ← lift_res (child_key ps k);
  mset p (fun q => n_set_children (dict_set (n_children q) pk new_node) q) ≫= fun _ =>
  let '(new_hash, child_hash) := split_node_hash_value (n_hash c) split_len ps in
  mset new_node (n_set_hash new_hash) ≫= fun _ =>
  mset child (n_set_hash child_hash) ≫= fun _ =>
  insert_mru false new_node ≫= fun _ =>
  insert_mru false child ≫= fun _ =>
  (if mamba_evicted c then mret tt else insert_mru true child) ≫= fun _ =>
  mret new_node.

(** The loop of [_match_prefix_helper]: the values and the node it ends with,
    [best_value_len] and [best_last_node] *)
Fixpoint m_match_loop (fuel : nat) (node : nat) (k : RadixKey) (ck : child_key_t)
    (value : list (list Z)) (best_value_len best_last_node : nat) :
    MM (list (list Z) * nat * nat * nat) :=
  match fuel with
  | O => m_out_of_fuel
  | S fuel' =>
      n ← mnode_at node;
      if decide (key_len k = O) then mret (value, node, best_value_len, best_last_node)
      else
        match dict_get (n_children n) ck with
        | None => mret (value, node, best_value_len, best_last_node)
        | Some child =>
            let best_len' := if mamba_evicted n then best_value_len else length value in
            let best_node' := if mamba_evicted n then best_last_node else node in
            c ← mnode_at child;
            ps ← gets (fun s : cache => page_size (m_params s));
            prefix_len ← lift_res (match_ (n_key c) k ps);
            if decide (prefix_len < key_len (n_key c))%nat then
              new_node ← m_split_node (n_key c) child prefix_len;
              nn ← mnode_at new_node;
              v ← tensor (n_value nn);
              mret (value ++ [v], new_node, best_len', best_node')
            else
              v ← tensor (n_value c);
              let k' := key_drop prefix_len k in
              ck' ← (if decide (key_len k' = O) then mret ck else lift_res (child_key ps k'));
              m_match_loop fuel' child k' ck' (value ++ [v]) best_len' best_node'
        end
  end.

(** [_match_prefix_helper] *)
Definition m_match_prefix_helper (k : RadixKey) : MM (list (list Z) * nat * nat) :=
  root ← gets m_root;
  ps ← gets (fun s : cache => page_size (m_params s));
  ck ← lift_res (child_key ps k);
  '(value, node, best_value_len, best_last_node) ← m_match_loop (S (key_len k)) root k ck [] 0 root;
  n ← mnode_at node;
  if mamba_evicted n then mret (value, best_last_node, best_value_len)
  else mret (value, node, length value).

(** [_match_pre_processor] *)
Definition match_pre_processor (k : RadixKey) : MM (option RadixKey) :=
  prm ← gets m_params;
  mret (if disable prm || bool_decide (key_len k = O) then None else Some k).

(** *** Locks *)

Fixpoint m_inc_lock_loop (fuel : nat) (node : nat) : MM unit :=
  match fuel with
  | O => m_out_of_fuel
  | S fuel' =>
      root ← gets m_root;
      if decide (node = root) then mret tt
      else
        n ← mnode_at node;
        massert (bool_decide (0 <= full_lock_ref n)) "inc_lock_ref on node" ≫= fun _ =>
        (if decide (full_lock_ref n = 0) then v ← tensor (n_value n); modify (mu_full (- len v) (len v))
         else mret tt) ≫= fun _ =>
        mset node (fun m => n_set_locks (full_lock_ref m + 1) (mamba_lock_ref m) m) ≫= fun _ =>
        p ← deref (n_parent n);
        m_inc_lock_loop fuel' p
  end.

(** [inc_lock_ref]: the prefix up to the root, and the node's own checkpoint *)
Definition m_inc_lock_ref (node : nat) : MM unit :=
  prm ← gets m_params;
  if disable prm then mret tt
  else
    n ← mnode_at node;
    match mamba_value n with
    | Some mv =>
        (if decide (mamba_lock_ref n = 0) then modify (mu_mamba (- len mv) (len mv)) else mret tt) ≫= fun _ =>
        mset node (fun m => n_set_locks (full_lock_ref m) (mamba_lock_ref m + 1) m)
    | None => mret tt
    end ≫= fun _ =>
    fuel ← gets (fun s : cache => S (size (m_nodes s)));
    m_inc_lock_loop fuel node.

Fixpoint m_dec_lock_loop (fuel : nat) (node : nat) : MM unit :=
  match fuel with
  | O => m_out_of_fuel
  | S fuel' =>
      root ← gets m_root;
      if decide (node = root) then mret tt
      else
        n ← mnode_at node;
        massert (bool_decide (0 < full_lock_ref n)) "dec_lock_ref on node" ≫= fun _ =>
        (if decide (full_lock_ref n = 1) then v ← tensor (n_value n); modify (mu_full (len v) (- len v))
         else mret tt) ≫= fun _ =>
        mset node (fun m => n_set_locks (full_lock_ref m - 1) (mamba_lock_ref m) m) ≫= fun _ =>
        p ← deref (n_parent n);
        m_dec_lock_loop fuel' p
  end.

(** [dec_lock_ref] *)
Definition m_dec_lock_ref (node : nat) : MM unit :=
  prm ← gets m_params;
  if disable prm then mret tt
  else
    n ← mnode_at node;
    match mamba_value n with
    | Some mv =>
        massert (bool_decide (0 < mamba_lock_ref n)) "dec_lock_ref on node" ≫= fun _ =>
        (if decide (mamba_lock_ref n = 1) then modify (mu_mamba (len mv) (- len mv)) else mret tt) ≫= fun _ =>
        mset node (fun m => n_set_locks (full_lock_ref m) (mamba_lock_ref m - 1) m)
    | None => mret tt
    end ≫= fun _ =>
    fuel ← gets (fun s : cache => S (size (m_nodes s)));
    m_dec_lock_loop fuel node.

(** *** Eviction *)

(** [node.parent.children.pop(key, None)] with its assertion *)
Definition unfile_node (node : nat) (n : MambaNode) : MM unit :=
  ps ← gets (fun s : cache => page_size (m_params s));
  k ← lift_res (child_key ps (n_key n));
  p ← deref (n_parent n);
  pn ← mnode_at p;
  mset p (fun q => n_set_children (dict_del (n_children q) k) q) ≫= fun _ =>
  massert (bool_decide (dict_get (n_children pn) k = Some node)) "parent does not have child key".

(** [_delete_leaf] *)
Definition m_delete_leaf (node : nat) : MM unit :=
  n ← mnode_at node;
  massert (negb (mamba_evicted n)) "Invariant violated: leaf node is a tombstone" ≫= fun _ =>
  massert (bool_decide (n_children n = [])) "leaf node has children" ≫= fun _ =>
  unfile_node node n ≫= fun _ =>
  mv ← tensor (mamba_value n);
  modify (mu_full (- Z.of_nat (key_len (n_key n))) 0) ≫= fun _ =>
  modify (mu_mamba (- len mv) 0).

(** [_tombstone_internal_node] *)
Definition tombstone_internal_node (node : nat) : MM unit :=
  n ← mnode_at node;
  massert (negb (bool_decide (n_children n = []))) "Cannot tombstone a leaf node" ≫= fun _ =>
  mv ← tensor (mamba_value n);
  modify (mu_mamba (- len mv) 0) ≫= fun _ =>
  mset node (n_set_mamba None).

(** [_delete_tombstone_leaf] *)
Definition delete_tombstone_leaf (node : nat) : MM unit :=
  n ← mnode_at node;
  massert (mamba_evicted n) "Deleting a unexpected non-tombstone leaf node" ≫= fun _ =>
  massert (bool_decide (n_children n = [])) "leaf node has children" ≫= fun _ =>
  unfile_node node n ≫= fun _ =>
  modify (mu_full (- Z.of_nat (key_len (n_key n))) 0).

(** [_iteratively_delete_tombstone_leaf] *)
Fixpoint delete_tombstones (fuel : nat) (node : nat) (full_num_evicted : Z) : MM (nat * Z) :=
  match fuel with
  | O => m_out_of_fuel
  | S fuel' =>
      n ← mnode_at node;
      p ← deref (n_parent n);
      pn ← mnode_at p;
      if mamba_evicted pn && bool_decide (n_children pn = []) then
        root ← gets m_root;
        if decide (p = root) then mret (node, full_num_evicted)
        else if decide (0 < full_lock_ref pn) then mret (node, full_num_evicted)
        else
          massert (bool_decide (mamba_lock_ref pn = 0)) "tombstone mamba_lock_ref should always be 0" ≫= fun _ =>
          record_remove_event p ≫= fun _ =>
          v ← tensor (n_value pn);
          full_free v ≫= fun _ =>
          remove_node false p ≫= fun _ =>
          delete_tombstone_leaf p ≫= fun _ =>
          delete_tombstones fuel' p (full_num_evicted + len v)
      else mret (node, full_num_evicted)
  end.

(** [_evict_leaf_node]: the tokens and checkpoints evicted, the last node
    deleted, and the next candidate *)
Definition evict_leaf_node (x : nat) (is_evict_mamba : bool) : MM (Z * Z * nat * option nat) :=
  n ← mnode_at x;
  massert (bool_decide (full_lock_ref n = 0 /\ mamba_lock_ref n = 0)) "evict leaf node invalid" ≫= fun _ =>
  massert (negb (mamba_evicted n)) "leaf node mamba value is not None" ≫= fun _ =>
  record_remove_event x ≫= fun _ =>
  v ← tensor (n_value n);
  full_free v ≫= fun _ =>
  mv ← tensor (mamba_value n);
  mamba_free mv ≫= fun _ =>
  x_next ← (if is_evict_mamba then get_prev_no_lock true x true else get_prev_leaf_no_lock false x true);
  remove_node false x ≫= fun _ =>
  remove_node true x ≫= fun _ =>
  m_delete_leaf x ≫= fun _ =>
  fuel ← gets (fun s : cache => S (size (m_nodes s)));
  '(x', leaf_full_num_evicted) ← delete_tombstones fuel x 0;
  mret (len v + leaf_full_num_evicted, len mv, x', x_next).

Fixpoint evict_mamba_loop (fuel : nat) (mamba_num : Z) (x : option nat) (mamba_num_evicted : Z) : MM Z :=
  match fuel with
  | O => m_out_of_fuel
  | S fuel' =>
      if decide (mamba_num_evicted < mamba_num) then
        b ← in_list true x;
        match x with
        | Some x' =>
            if (b : bool) then
              n ← mnode_at x';
              massert (negb (mamba_evicted n)) "node has no mamba value" ≫= fun _ =>
              mv ← tensor (mamba_value n);
              massert (bool_decide (length mv = 1%nat)) "node has abnormal mamba length" ≫= fun _ =>
              root ← gets m_root;
              massert (negb (bool_decide (x' = root))) "root node is not evictable" ≫= fun _ =>
              massert (bool_decide (mamba_lock_ref n = 0)) "node is in use by mamba kv indices" ≫= fun _ =>
              if decide (0 < length (n_children n))%nat then
                mamba_free mv ≫= fun _ =>
                x_next ← get_prev_no_lock true x' true;
                remove_node true x' ≫= fun _ =>
                tombstone_internal_node x' ≫= fun _ =>
                evict_mamba_loop fuel' mamba_num x_next (mamba_num_evicted + len mv)
              else
                '(_, mamba_evicted_delta, _, x_next) ← evict_leaf_node x' true;
                evict_mamba_loop fuel' mamba_num x_next (mamba_num_evicted + mamba_evicted_delta)
            else mret mamba_num_evicted
        | None => mret mamba_num_evicted
        end
      else mret mamba_num_evicted
  end.

(** [evict_mamba] *)
Definition evict_mamba (mamba_num : Z) : MM Z :=
  prm ← gets m_params;
  if disable prm || bool_decide (mamba_num <= 0) then mret 0
  else
    x ← get_lru_no_lock true;
    fuel ← gets (fun s : cache => S (size (m_nodes s)));
    evict_mamba_loop fuel mamba_num x 0.

Fixpoint evict_full_loop (fuel : nat) (full_num_tokens : Z) (x : option nat) (full_num_evicted : Z) : MM Z :=
  match fuel with
  | O => m_out_of_fuel
  | S fuel' =>
      if decide (full_num_evicted < full_num_tokens) then
        b ← in_list false x;
        match x with
        | Some x' =>
            if (b : bool) then
              root ← gets m_root;
              massert (negb (bool_decide (x' = root))) "root node should not exist in full lru list" ≫= fun _ =>
              '(full_num_evicted_delta, _, x1, x_next) ← evict_leaf_node x' false;
              n1 ← mnode_at x1;
              p ← deref (n_parent n1);
              pn ← mnode_at p;
              x_next' ← (if decide (n_children pn = []) then get_leaf_lru_no_lock false else mret x_next);
              evict_full_loop fuel' full_num_tokens x_next' (full_num_evicted + full_num_evicted_delta)
            else mret full_num_evicted
        | None => mret full_num_evicted
        end
      else mret full_num_evicted
  end.

(** [evict_full] *)
Definition evict_full (full_num_tokens : Z) : MM Z :=
  prm ← gets m_params;
  if disable prm || bool_decide (full_num_tokens <= 0) then mret 0
  else
    x ← get_leaf_lru_no_lock false;
    fuel ← gets (fun s : cache => S (size (m_nodes s)));
    evict_full_loop fuel full_num_tokens x 0.

(** [evict]: the numbers of tokens and of checkpoints evicted *)
Definition m_evict (num_tokens mamba_num : Z) : MM (Z * Z) :=
  prm ← gets m_params;
  if disable prm then mret (0, 0)
  else
    f ← (if decide (0 < num_tokens) then evict_full num_tokens else mret 0);
    m ← (if decide (0 < mamba_num) then evict_mamba mamba_num else mret 0);
    mret (f, m).

(** [_alloc_mamba_slot] *)
Definition alloc_mamba_slot : MM (list Z) :=
  slot ← mamba_alloc 1;
  match slot with
  | Some l => mret l
  | None =>
      m_evict 0 1 ≫= fun _ =>
      slot ← mamba_alloc 1;
      match slot with
      | Some l => mret l
      | None => raise AssertionError "Can not alloc mamba cache"
      end
  end.

(** *** Matching *)

(** [while node_update: ...]: access times from the node up to the root *)
Fixpoint touch_path (fuel : nat) (node : option nat) (cur_time : Z) : MM unit :=
  match node with
  | None => mret tt
  | Some x =>
      match fuel with
      | O => m_out_of_fuel
      | S fuel' =>
          mset x (n_set_access cur_time) ≫= fun _ =>
          n ← mnode_at x;
          touch_path fuel' (n_parent n) (cur_time - 1)
      end
  end.

(** [MatchResult].  With [cow_mamba] the request gets a slot for its own copy
    of the checkpoint: [mm_cow] is its slot and the slot to copy from (and
    [mamba_needs_clear] is off). *)
Record MambaMatch := MkMMatch {
  mm_indices : list Z;
  mm_last : nat;
  mm_branching : option nat;
  mm_cow : option (Z * option (list Z))
}.

Section matching.
(** [get_global_server_args().mamba_cache_chunk_size] *)
Context (mamba_cache_chunk_size : nat).

(** The slot for the copy: the request's own if it has one, else a new one;
    the node is locked while room is made for it *)
Definition cow_slot (last_node : nat) (mamba_pool_idx : option Z) : MM Z :=
  match mamba_pool_idx with
  | Some i => mret i
  | None =>
      dst ← mamba_alloc 1;
      dst' ← match dst with
             | Some l => mret l
             | None =>
                 m_inc_lock_ref last_node ≫= fun _ =>
                 m_evict 0 1 ≫= fun _ =>
                 dst ← mamba_alloc 1;
                 m_dec_lock_ref last_node ≫= fun _ =>
                 match dst with
                 | Some l => mret l
                 | None => raise AssertionError "Can not alloc mamba cache"
                 end
             end;
      match dst' with
      | i :: _ => mret i
      | [] => raise IndexError "index 0 is out of bounds for dimension 0 with size 0"
      end
  end.

(** [_match_post_processor]; [cow] is [None] without [cow_mamba], else the
    request's [mamba_pool_idx] *)
Definition match_post_processor (cow : option (option Z)) (value : list (list Z)) (last_node best_value_len : nat) :
    MM MambaMatch :=
  root ← gets m_root;
  reset_node_and_parents_mru false last_node root ≫= fun _ =>
  reset_node_and_parents_mru true last_node root ≫= fun _ =>
  cur_time ← get_last_access_time;
  fuel ← gets (fun s : cache => S (size (m_nodes s)));
  touch_path fuel (Some last_node) cur_time ≫= fun _ =>
  let mamba_branching_seqlen :=
    if decide (best_value_len < length value)%nat then
      let aligned_len := (length (concat value) / mamba_cache_chunk_size * mamba_cache_chunk_size)%nat in
      if decide (0 < aligned_len)%nat then Some aligned_len else None
    else None in
  n ← mnode_at last_node;
  cow_out ← match cow, mamba_value n with
            | Some idx, Some _ =>
                i ← cow_slot last_node idx;
                n' ← mnode_at last_node;
                mret (Some (i, mamba_value n'))
            | _, _ => mret None
            end;
  mret (MkMMatch (concat (take best_value_len value)) last_node mamba_branching_seqlen cow_out).

(** [match_prefix] *)
Definition m_match_prefix (k0 : RadixKey) (cow : option (option Z)) : MM MambaMatch :=
  key ← match_pre_processor k0;
  match key with
  | None => root ← gets m_root; mret (MkMMatch [] root None None)
  | Some k =>
      '(value, last_node, best_value_len) ← m_match_prefix_helper k;
      modify (fun s => mu_counts (hit_tokens s + Z.of_nat best_value_len)
        (miss_tokens s + Z.max 0 (Z.of_nat (key_len k0) - Z.of_nat best_value_len)) s) ≫= fun _ =>
      match_post_processor cow value last_node best_value_len
  end.
End matching.

(** *** Insertion *)

(** [if node.mamba_value is not None: self.mamba_lru_list.reset_node_mru(node)] *)
Definition touch_lists (node : nat) : MM unit :=
  reset_node_mru false node ≫= fun _ =>
  n ← mnode_at node;
  if mamba_evicted n then mret tt else reset_node_mru true node.

(** The loop of [_insert_helper]: the node, key and value it ends with, the
    variable [child_key] and the total prefix length; slots of the caller that
    the tree already holds are freed on the way, those the caller took from
    the tree ([prev_prefix_len]) excepted *)
Fixpoint m_insert_loop (fuel : nat) (prev_prefix_len : nat) (node : nat) (k : RadixKey) (ck : child_key_t)
    (v : list Z) (total : nat) : MM (nat * RadixKey * child_key_t * list Z * nat) :=
  match fuel with
  | O => m_out_of_fuel
  | S fuel' =>
      n ← mnode_at node;
      if decide (key_len k = O) then mret (node, k, ck, v, total)
      else
        match dict_get (n_children n) ck with
        | None => mret (node, k, ck, v, total)
        | Some child =>
            t ← get_last_access_time;
            mset child (n_set_access t) ≫= fun _ =>
            touch_lists child ≫= fun _ =>
            c ← mnode_at child;
            ps ← gets (fun s : cache => page_size (m_params s));
            prefix_len ← lift_res (match_ (n_key c) k ps);
            (if decide (prev_prefix_len < total + prefix_len)%nat
             then let start := (prev_prefix_len - total)%nat in
                  full_free (take (prefix_len - start) (drop start v))
             else mret tt) ≫= fun _ =>
            let k' := key_drop prefix_len k in
            next_node ← (if decide (prefix_len < key_len (n_key c))%nat
                         then m_split_node (n_key c) child prefix_len else mret child);
            ck' ← (if decide (key_len k' = O) then mret ck else lift_res (child_key ps k'));
            m_insert_loop fuel' prev_prefix_len next_node k' ck' (drop prefix_len v) (total + prefix_len)
        end
  end.

(** [_insert_helper]: the length that was cached and whether the checkpoint was *)
Definition m_insert_helper (node : nat) (k : RadixKey) (v : list Z) (mv : option (list Z))
    (prev_prefix_len : nat) : MM (nat * bool) :=
  match mv with
  | None => raise AssertionError "Mamba value should not be None here."
  | Some mamba_value_ =>
      t ← get_last_access_time;
      mset node (n_set_access t) ≫= fun _ =>
      root ← gets m_root;
      (if decide (node = root) then mret tt else touch_lists node) ≫= fun _ =>
      if decide (key_len k = O) then mret (O, true)
      else
        ps ← gets (fun s : cache => page_size (m_params s));
        ck ← lift_res (child_key ps k);
        '(node', k', ck', v', total) ← m_insert_loop (S (key_len k)) prev_prefix_len node k ck v 0;
        if decide (key_len k' = O) then
          n ← mnode_at node';
          (if mamba_evicted n then
             mset node' (n_set_mamba (Some mamba_value_)) ≫= fun _ =>
             reset_node_mru false node' ≫= fun _ =>
             insert_mru true node' ≫= fun _ =>
             modify (mu_mamba (len mamba_value_) 0)
           else
             reset_node_mru false node' ≫= fun _ =>
             reset_node_mru true node') ≫= fun _ =>
          t' ← get_last_access_time;
          mset node' (n_set_access t') ≫= fun _ =>
          mret (total, negb (mamba_evicted n))
        else
          new_node ← new_MambaNode;
          mset new_node (fun n => n_set_mamba (Some mamba_value_) (n_set_place (Some node') k' (Some v') n))
            ≫= fun _ =>
          insert_mru false new_node ≫= fun _ =>
          insert_mru true new_node ≫= fun _ =>
          mset node' (fun n => n_set_children (dict_set (n_children n) ck' new_node) n) ≫= fun _ =>
          modify (mu_full (len v') 0) ≫= fun _ =>
          modify (mu_mamba (len mamba_value_) 0) ≫= fun _ =>
          record_store_event new_node ≫= fun _ =>
          mret (total, false)
  end.

(** [insert] *)
Definition m_insert (k : RadixKey) (v0 : option (list Z)) (mv : option (list Z)) (prev_prefix_len : nat) :
    MM (nat * bool) :=
  prm ← gets m_params;
  if disable prm then mret (O, false)
  else
    root ← gets m_root;
    m_insert_helper root k (default (token_ids k) v0) mv prev_prefix_len.

(** *** The whole tree *)

(** [reset] *)
Definition m_reset : MM unit :=
  root ← new_MambaNode;
  mset root (fun n => n_set_hash (Some []) (n_set_locks 1 1
    (n_set_place (n_parent n) (MkKey [] None false) (Some []) n))) ≫= fun _ =>
  modify (mu_root root) ≫= fun _ =>
  q ← LRUList_init false;
  modify (mu_lru false q) ≫= fun _ =>
  q' ← LRUList_init true;
  modify (mu_lru true q') ≫= fun _ =>
  modify (mu_counts 0 0) ≫= fun _ =>
  record_all_cleared_event.

(** [__init__]; the cache's other attributes are those of [CacheInitParams] *)
Definition MambaRadixCache_init (prm : CacheParams) (extra : bool) : MM unit :=
  modify (fun s => MkMCache prm extra (m_nodes s) (m_counter s) (access_counter s) (m_root s)
    (full_evictable_size_ s) (mamba_evictable_size_ s) (full_protected_size_ s) (mamba_protected_size_ s)
    (full_lru_list s) (mamba_lru_list s) (hit_tokens s) (miss_tokens s) [] (m_alloc s) (m_pool s)) ≫= fun _ =>
  massert (extra || bool_decide (page_size prm = 1%nat)) "Page size must be 1 for MambaRadixCache v1" ≫= fun _ =>
  m_reset.

Definition full_evictable_size s : Z := full_evictable_size_ s.
Definition mamba_evictable_size s : Z := mamba_evictable_size_ s.
Definition full_protected_size s : Z := full_protected_size_ s.
Definition mamba_protected_size s : Z := mamba_protected_size_ s.

(** [child.evicted] of the loop in [_total_size_helper] *)
Definition m_child_live s (c : nat) : bool :=
  match m_nodes s !! c with Some m => negb (n_evicted m) | None => false end.

(** [_total_size_helper]; the top of the stack is the head of the list *)
Fixpoint m_total_size_loop (fuel : nat) (stack : list nat) (total_size total_mamba_size : Z) : MM (Z * Z) :=
  match fuel with
  | O => m_out_of_fuel
  | S fuel' =>
      match stack with
      | [] => mret (total_size, total_mamba_size)
      | x :: stack' =>
          n ← mnode_at x;
          v ← tensor (n_value n);
          live ← gets (fun s : cache => List.filter (m_child_live s) (dict_values (n_children n)));
          m_total_size_loop fuel' (rev live ++ stack') (total_size + len v)
            (total_mamba_size + len (default [] (mamba_value n)))
      end
  end.

(** [total_size] *)
Definition m_total_size : MM (Z * Z) :=
  root ← gets m_root;
  fuel ← gets (fun s : cache => S (size (m_nodes s)));
  m_total_size_loop fuel [root] 0 0.
End ops.
