(* ===== verification/LruFacts.v ===== *)
(** * Doubly linked lists

    What the links of a doubly linked list with two sentinels say about the
    sequence of its members ([dll]), and what taking a member out and putting
    one in does to it.  MambaView.v applies this to the two [LRUList]s of the
    prefix cache of hybrid models. *)

From S2P Require Import Prelude.

(** ** Links *)

Abbreviation linkmap := (gmap nat (option nat * option nat)).

Section dll.
Implicit Types (k : linkmap) (x y h t : nat) (l : list nat).

Definition prv k x : option nat := k !! x ≫= fst.
Definition nxt k x : option nat := k !! x ≫= snd.

(** From [x] the links lead through [l] to [t], and back. *)
Fixpoint chained k x l t : Prop :=
  match l with
  | [] => nxt k x = Some t /\ prv k t = Some x
  | y :: l' => nxt k x = Some y /\ prv k y = Some x /\ chained k y l' t
  end.

(** The list between the sentinels [h] and [t] is [l]. *)
Definition dll k h t l : Prop := NoDup (h :: l ++ [t]) /\ chained k h l t.

Lemma chained_app k x l1 y l2 t :
  chained k x (l1 ++ y :: l2) t <-> chained k x l1 y /\ chained k y l2 t.
Proof. revert x. induction l1 as [|z l1 IH]; intros x; simpl; [tauto|]. rewrite IH. tauto. Qed.

Lemma chained_frame k k' x l t :
  (forall y, y ∈ x :: l -> nxt k' y = nxt k y) -> (forall y, y ∈ l ++ [t] -> prv k' y = prv k y) ->
  chained k x l t -> chained k' x l t.
Proof.
  revert x. induction l as [|y l IH]; intros x Hn Hp; simpl.
  - intros [H1 H2]. rewrite Hn, Hp by set_solver. done.
  - intros (H1 & H2 & H3). rewrite Hn, Hp by set_solver. split_and!; [done..|].
    apply IH; [intros z Hz; apply Hn; set_solver|intros z Hz; apply Hp; set_solver|done].
Qed.

Definition set_p (x : nat) (o : option nat) k : linkmap := alter (fun pq => (o, pq.2)) x k.
Definition set_n (x : nat) (o : option nat) k : linkmap := alter (fun pq => (pq.1, o)) x k.

Lemma nxt_set_p x o k y : nxt (set_p x o k) y = nxt k y.
Proof.
  unfold nxt, set_p. destruct (decide (y = x)) as [->|Hne].
  - rewrite lookup_alter_eq. by destruct (k !! x).
  - by rewrite lookup_alter_ne.
Qed.

Lemma prv_set_n x o k y : prv (set_n x o k) y = prv k y.
Proof.
  unfold prv, set_n. destruct (decide (y = x)) as [->|Hne].
  - rewrite lookup_alter_eq. by destruct (k !! x).
  - by rewrite lookup_alter_ne.
Qed.

Lemma prv_set_p_eq x o k : is_Some (k !! x) -> prv (set_p x o k) x = o.
Proof. intros [pq Hpq]. unfold prv, set_p. by rewrite lookup_alter_eq, Hpq. Qed.

Lemma nxt_set_n_eq x o k : is_Some (k !! x) -> nxt (set_n x o k) x = o.
Proof. intros [pq Hpq]. unfold nxt, set_n. by rewrite lookup_alter_eq, Hpq. Qed.

Lemma prv_set_p_ne x o k y : y ≠ x -> prv (set_p x o k) y = prv k y.
Proof. intros. unfold prv, set_p. by rewrite lookup_alter_ne. Qed.

Lemma nxt_set_n_ne x o k y : y ≠ x -> nxt (set_n x o k) y = nxt k y.
Proof. intros. unfold nxt, set_n. by rewrite lookup_alter_ne. Qed.

Lemma set_p_dom x o k y : is_Some (set_p x o k !! y) <-> is_Some (k !! y).
Proof. unfold set_p. by rewrite lookup_alter_is_Some. Qed.

Lemma set_n_dom x o k y : is_Some (set_n x o k !! y) <-> is_Some (k !! y).
Proof. unfold set_n. by rewrite lookup_alter_is_Some. Qed.

Lemma nxt_dom k x y : nxt k x = Some y -> is_Some (k !! x).
Proof. unfold nxt. destruct (k !! x); naive_solver. Qed.

Lemma prv_dom k x y : prv k x = Some y -> is_Some (k !! x).
Proof. unfold prv. destruct (k !! x); naive_solver. Qed.

Lemma last_cons (y d : nat) l : List.last (y :: l) d = List.last l y.
Proof.
  revert y d. induction l as [|z l IH]; intros y d; [done|].
  change (List.last (y :: z :: l) d) with (List.last (z :: l) d). by rewrite !IH.
Qed.

(** The last link of a chain. *)
Lemma chained_end k h l q :
  chained k h l q -> nxt k (List.last l h) = Some q /\ prv k q = Some (List.last l h).
Proof.
  revert h. induction l as [|y l IH]; intros h; [done|]. intros (_ & _ & Hc). rewrite last_cons. by apply IH.
Qed.

Lemma chained_split k h l1 l2 t :
  chained k h (l1 ++ l2) t <->
  chained k h l1 (List.hd t l2) /\ (l2 = [] \/ exists y l2', l2 = y :: l2' /\ chained k y l2' t).
Proof.
  destruct l2 as [|y l2]; simpl; [rewrite app_nil_r; naive_solver|]. rewrite chained_app. naive_solver.
Qed.

(** The neighbours of a member. *)
Lemma chained_around k h l1 x l2 t :
  chained k h (l1 ++ x :: l2) t ->
  prv k x = Some (List.last l1 h) /\ nxt k x = Some (List.hd t l2) /\
  nxt k (List.last l1 h) = Some x /\ prv k (List.hd t l2) = Some x.
Proof.
  rewrite chained_app. intros [[Hn Hp]%chained_end H2].
  destruct l2 as [|y l2]; simpl in *; naive_solver.
Qed.

Lemma last_in (h : nat) l : List.last l h ∈ h :: l.
Proof.
  revert h. induction l as [|y l IH]; intros h; [set_solver|]. destruct l as [|z l]; [set_solver|].
  change (List.last (y :: z :: l) h) with (List.last (z :: l) h). specialize (IH h). set_solver.
Qed.

Lemma hd_in (t : nat) l : List.hd t l ∈ l ++ [t].
Proof. destruct l; set_solver. Qed.

(** The links after [x] has been bypassed and cleared. *)
Definition unlink (p x q : nat) k : linkmap :=
  set_n x None (set_p x None (set_p q (Some p) (set_n p (Some q) k))).

(** Redirecting the end of a chain. *)
Lemma chained_retarget k k' h l x q :
  chained k h l x -> NoDup (h :: l) ->
  (forall y, y ∈ h :: l -> y ≠ List.last l h -> nxt k' y = nxt k y) ->
  (forall y, y ∈ l -> prv k' y = prv k y) ->
  nxt k' (List.last l h) = Some q -> prv k' q = Some (List.last l h) -> chained k' h l q.
Proof.
  revert h. induction l as [|y l IH]; intros h Hc Hnd Hn Hp H1 H2; [by split|].
  destruct Hc as (E1 & E2 & Hc). apply NoDup_cons in Hnd as [Hhy Hnd].
  rewrite last_cons in *. assert (h ≠ List.last l y) as Hne by (intros ->; by pose proof (last_in y l)).
  split_and!; [rewrite Hn by set_solver; done|rewrite Hp by set_solver; done|].
  apply IH; try done; intros z Hz; [intros Hzl; apply Hn; set_solver|apply Hp; set_solver].
Qed.

Lemma dll_unlink k h l1 x l2 t :
  dll k h t (l1 ++ x :: l2) -> dll (unlink (List.last l1 h) x (List.hd t l2) k) h t (l1 ++ l2).
Proof.
  intros [Hnd Hc]. set (p := List.last l1 h). set (q := List.hd t l2).
  destruct (chained_around _ _ _ _ _ _ Hc) as (Hp & Hq & Hpn & Hqp). fold p q in Hp, Hq, Hpn, Hqp.
  pose proof (last_in h l1) as Hpin. pose proof (hd_in t l2) as Hqin. fold p in Hpin. fold q in Hqin.
  rewrite <-app_assoc in Hnd. simpl in Hnd.
  change (h :: l1 ++ x :: l2 ++ [t]) with ((h :: l1) ++ x :: (l2 ++ [t])) in Hnd.
  apply NoDup_app in Hnd as (Hnd1 & Hdisj & Hnd2). apply NoDup_cons in Hnd2 as [Hx2 Hnd2].
  assert (x ∉ h :: l1) as Hx1 by (intros Hin; apply (Hdisj x Hin); left).
  assert (p ≠ x) as Hpx by (intros ->; done). assert (q ≠ x) as Hqx by (intros ->; done).
  set (k' := unlink p x q k).
  assert (forall y, y ≠ p -> y ≠ x -> nxt k' y = nxt k y) as Hn.
  { intros y Hyp Hyx. unfold k', unlink. rewrite nxt_set_n_ne, !nxt_set_p, nxt_set_n_ne by done. done. }
  assert (forall y, y ≠ q -> y ≠ x -> prv k' y = prv k y) as Hpv.
  { intros y Hyp Hyx. unfold k', unlink. rewrite prv_set_n, !prv_set_p_ne, prv_set_n by done. done. }
  assert (nxt k' p = Some q) as Hpq.
  { unfold k', unlink. rewrite nxt_set_n_ne, !nxt_set_p, nxt_set_n_eq by (done || by eapply nxt_dom). done. }
  assert (prv k' q = Some p) as Hqp'.
  { unfold k', unlink. rewrite prv_set_n, prv_set_p_ne, prv_set_p_eq; try done.
    apply set_n_dom. by eapply prv_dom. }
  apply chained_app in Hc as [Hc1 Hc2]. split.
  - rewrite <-app_assoc. change (NoDup ((h :: l1) ++ (l2 ++ [t]))). apply NoDup_app. split_and!; [done| |done].
    intros y Hy Hy'. apply (Hdisj y Hy). set_solver.
  - apply chained_split. split.
    + eapply chained_retarget; [exact Hc1|done|..]; try done.
      * intros y Hy Hyp. apply Hn; [done|]. intros ->. done.
      * intros y Hy. apply Hpv; [|intros ->; apply Hx1; set_solver].
        intros ->. apply (Hdisj q); set_solver.
    + destruct l2 as [|y l2]; [by left|right]. exists y, l2. split; [done|]. simpl in q.
      destruct Hc2 as (_ & _ & Hc2). apply NoDup_cons in Hnd2 as [Hy2 Hnd2]. eapply chained_frame; [..|exact Hc2].
      * intros z Hz. apply Hn; [|set_solver]. intros ->. apply (Hdisj p Hpin). set_solver.
      * intros z Hz. apply Hpv; [|set_solver]. intros ->. done.
Qed.

(** The links after [x] has been put behind [p], whose successor was [q]. *)
Definition link (p x q : nat) k : linkmap :=
  set_n p (Some x) (set_p q (Some x) (set_n x (Some q) (set_p x (Some p) k))).

Lemma dll_link k h l1 x l2 t :
  dll k h t (l1 ++ l2) -> is_Some (k !! x) -> x ∉ h :: (l1 ++ l2) ++ [t] ->
  nxt k (List.last l1 h) = Some (List.hd t l2) /\
  dll (link (List.last l1 h) x (List.hd t l2) k) h t (l1 ++ x :: l2).
Proof.
  intros [Hnd Hc] Hdx Hx. set (p := List.last l1 h). set (q := List.hd t l2).
  pose proof (last_in h l1) as Hpin. pose proof (hd_in t l2) as Hqin. fold p in Hpin. fold q in Hqin.
  apply chained_split in Hc as [Hc1 Hc2]. destruct (chained_end _ _ _ _ Hc1) as [Hpq Hqp]. fold p q in Hpq, Hqp.
  split; [done|]. rewrite <-app_assoc in Hnd, Hx.
  change (h :: l1 ++ l2 ++ [t]) with ((h :: l1) ++ l2 ++ [t]) in Hnd, Hx.
  apply NoDup_app in Hnd as (Hnd1 & Hdisj & Hnd2).
  assert (x ∉ h :: l1 /\ x ∉ l2 ++ [t]) as [Hx1 Hx2] by set_solver.
  assert (p ≠ x) as Hpx by (intros ->; done). assert (q ≠ x) as Hqx by (intros ->; done).
  assert (p ≠ q) as Hpq' by (intros E; apply (Hdisj p Hpin); by rewrite E).
  set (k' := link p x q k).
  assert (forall y, y ≠ p -> y ≠ x -> nxt k' y = nxt k y) as Hn.
  { intros y Hyp Hyx. unfold k', link. rewrite nxt_set_n_ne, nxt_set_p, nxt_set_n_ne, nxt_set_p by done. done. }
  assert (forall y, y ≠ q -> y ≠ x -> prv k' y = prv k y) as Hpv.
  { intros y Hyq Hyx. unfold k', link. rewrite prv_set_n, prv_set_p_ne, prv_set_n, prv_set_p_ne by done. done. }
  assert (nxt k' p = Some x) as Hpx'.
  { unfold k', link. apply nxt_set_n_eq. rewrite set_p_dom, set_n_dom, set_p_dom. by eapply nxt_dom. }
  assert (prv k' x = Some p) as Hxp.
  { unfold k', link. rewrite prv_set_n, prv_set_p_ne, prv_set_n, prv_set_p_eq by done. done. }
  assert (nxt k' x = Some q) as Hxq.
  { unfold k', link. rewrite nxt_set_n_ne, nxt_set_p, nxt_set_n_eq by (done || by rewrite set_p_dom). done. }
  assert (prv k' q = Some x) as Hqx'.
  { unfold k', link. rewrite prv_set_n, prv_set_p_eq; [done|]. rewrite set_n_dom, set_p_dom. by eapply prv_dom. }
  split.
  - rewrite <-app_assoc. change (NoDup ((h :: l1) ++ x :: (l2 ++ [t]))). apply NoDup_app.
    split_and!; [done| |by constructor]. intros y Hy [->|Hy']%elem_of_cons; [done|]. by apply (Hdisj y Hy).
  - apply chained_app. split.
    + eapply chained_retarget; [exact Hc1|done|..]; try done.
      * intros y Hy Hyp. apply Hn; [done|]. intros ->. done.
      * intros y Hy. apply Hpv; [|intros ->; apply Hx1; by right].
        intros ->. apply (Hdisj q); [by right|done].
    + destruct Hc2 as [->|(y & l2' & -> & Hc2)]; [done|]. simpl in q.
      split_and!; [done..|]. apply NoDup_cons in Hnd2 as [Hy2 Hnd2]. eapply chained_frame; [..|exact Hc2].
      * intros z Hz. apply Hn; [|set_solver]. intros ->. apply (Hdisj p Hpin). set_solver.
      * intros z Hz. apply Hpv; [|set_solver]. intros ->. done.
Qed.

(** Every member and both sentinels are objects with links. *)
Lemma dll_dom k h t l x : dll k h t l -> x ∈ h :: l ++ [t] -> is_Some (k !! x).
Proof.
  intros [_ Hc]. revert h Hc. induction l as [|y l IH]; intros h Hc.
  - destruct Hc as [H1 H2]. intros [->|Hx]%elem_of_cons; [by eapply nxt_dom|].
    apply list_elem_of_singleton in Hx as ->. by eapply prv_dom.
  - destruct Hc as (H1 & H2 & Hc). intros [->|Hx]%elem_of_cons; [by eapply nxt_dom|]. by apply (IH y).
Qed.

(** A list fits into its heap, with its sentinels. *)
Lemma dll_size k h t l : dll k h t l -> (length l + 2 ≤ size k)%nat.
Proof.
  intros Hd. rewrite <-(size_dom k). transitivity (size (list_to_set (h :: l ++ [t]) : gset nat)).
  - rewrite size_list_to_set by (by destruct Hd). simpl. rewrite length_app. simpl. lia.
  - apply subseteq_size. intros x Hx%elem_of_list_to_set. apply elem_of_dom. by eapply dll_dom.
Qed.
End dll.
