(* ===== verification/MambaView.v ===== *)
(** * The prefix cache of hybrid models: views of the state

    The links between the nodes of an LRU list implement a list.  A view
    ([mview]) is the state of the cache with the linked lists replaced by
    plain lists, the nodes reduced to what the invariants speak about (the
    [core] of RadixInv.v and the checkpoint with its lock count), and clocks
    dropped; [rep s u] says that the heap of [s] represents the view [u].

    [sim c u a u']: from every state that represents [u] the code [c] returns
    [a] in a state that represents [u'].  The lemmas of this file are the
    rules for the operations of [LRUList]: on the view they are insertion at
    the front, removal, moving a node or a path to the front, and the search
    for the least recently used member that qualifies. *)

From S2P Require Import Prelude PyDict RadixKey KvEvents RadixTree RadixInv MambaTree LruFacts.

(** ** Reduced nodes *)

Definition mcore (n : MambaNode) : core_t :=
  Core (n_children n) (n_parent n) (n_key n) (n_value n) (full_lock_ref n) (n_hash n).

(** A checkpoint (if there is one) and its lock count. *)
Abbreviation ckpt_t := (option (list Z) * Z)%type.

Definition mckpt (n : MambaNode) : ckpt_t := (mamba_value n, mamba_lock_ref n).

Definition hlinks (b : bool) (m : gmap nat MambaNode) : linkmap := (fun n => (get_prv b n, get_nxt b n)) <$> m.

(** The heaps differ at most in the links of list [b]. *)
Definition same_info (b : bool) (m' m : gmap nat MambaNode) : Prop :=
  hlinks (negb b) m' = hlinks (negb b) m /\ mcore <$> m' = mcore <$> m /\ mckpt <$> m' = mckpt <$> m.

Section links.
Implicit Types (b : bool) (m : gmap nat MambaNode).

Lemma hlinks_prv b m x n : m !! x = Some n -> prv (hlinks b m) x = get_prv b n.
Proof. intros Hx. unfold prv, hlinks. by rewrite lookup_fmap, Hx. Qed.

Lemma hlinks_nxt b m x n : m !! x = Some n -> nxt (hlinks b m) x = get_nxt b n.
Proof. intros Hx. unfold nxt, hlinks. by rewrite lookup_fmap, Hx. Qed.

Lemma hlinks_dom b m x : is_Some (hlinks b m !! x) <-> is_Some (m !! x).
Proof. unfold hlinks. by rewrite lookup_fmap, fmap_is_Some. Qed.

Lemma hlinks_dll_node b m h t l x : dll (hlinks b m) h t l -> x ∈ h :: l ++ [t] -> exists n, m !! x = Some n.
Proof. intros Hd Hx. apply (hlinks_dom b). by eapply dll_dom. Qed.

Lemma hlinks_set_prv b m x o : hlinks b (alter (set_prv b o) x m) = set_p x o (hlinks b m).
Proof.
  apply map_eq. intros y. unfold hlinks, set_p. rewrite lookup_fmap.
  destruct (decide (y = x)) as [->|Hne].
  - rewrite !lookup_alter_eq, lookup_fmap. destruct (m !! x); [|done]. by destruct b.
  - by rewrite !lookup_alter_ne, lookup_fmap by done.
Qed.

Lemma hlinks_set_nxt b m x o : hlinks b (alter (set_nxt b o) x m) = set_n x o (hlinks b m).
Proof.
  apply map_eq. intros y. unfold hlinks, set_n. rewrite lookup_fmap.
  destruct (decide (y = x)) as [->|Hne].
  - rewrite !lookup_alter_eq, lookup_fmap. destruct (m !! x); [|done]. by destruct b.
  - by rewrite !lookup_alter_ne, lookup_fmap by done.
Qed.

Lemma fmap_alter_same {B} (f : MambaNode -> B) g x m :
  (forall n, f (g n) = f n) -> f <$> alter g x m = f <$> m.
Proof.
  intros Hf. apply map_eq. intros y. rewrite !lookup_fmap. destruct (decide (y = x)) as [->|Hne].
  - rewrite lookup_alter_eq. destruct (m !! x); [|done]. simpl. by rewrite Hf.
  - by rewrite lookup_alter_ne.
Qed.

Lemma same_info_links b x f m :
  (forall n, exists p q, f n = set_links b p q n) -> same_info b (alter f x m) m.
Proof.
  intros Hf. split_and!; apply fmap_alter_same; intros n; destruct (Hf n) as (p & q & ->); by destruct b.
Qed.

Lemma same_info_trans b m1 m2 m3 : same_info b m1 m2 -> same_info b m2 m3 -> same_info b m1 m3.
Proof. intros (H1 & H2 & H3) (E1 & E2 & E3). split_and!; congruence. Qed.

Lemma same_info_prv b x o m m0 : same_info b m m0 -> same_info b (alter (set_prv b o) x m) m0.
Proof. intros Hm. eapply same_info_trans; [|exact Hm]. apply same_info_links. intros n. by do 2 eexists. Qed.

Lemma same_info_nxt b x o m m0 : same_info b m m0 -> same_info b (alter (set_nxt b o) x m) m0.
Proof. intros Hm. eapply same_info_trans; [|exact Hm]. apply same_info_links. intros n. by do 2 eexists. Qed.

Lemma same_info_refl b m : same_info b m m.
Proof. done. Qed.
End links.

(** ** Views *)

Record mview (A P : Type) := MView {
  w_base : MambaRadixCache A P;
  w_cores : cores;
  w_ckpts : gmap nat ckpt_t;
  w_full : list nat;
  w_mamba : list nat
}.
Arguments MView {A P}.
Arguments w_base {A P}.
Arguments w_cores {A P}.
Arguments w_ckpts {A P}.
Arguments w_full {A P}.
Arguments w_mamba {A P}.

Section views.
Context {A P : Type}.
Implicit Types (s : MambaRadixCache A P) (u : mview A P) (b : bool) (l : list nat).
Abbreviation cache := (MambaRadixCache A P).
Abbreviation MM := (M (MambaRadixCache A P)).

Definition ends (q : LRUList) : LRUList := MkLRU (lru_head q) (lru_tail q) ∅.

(** The attributes that are neither nodes nor clocks nor queued events. *)
Definition base s : cache :=
  MkMCache (m_params s) (enable_mamba_extra_buffer s) ∅ (m_counter s) 0 (m_root s)
    (full_evictable_size_ s) (mamba_evictable_size_ s) (full_protected_size_ s) (mamba_protected_size_ s)
    (ends (full_lru_list s)) (ends (mamba_lru_list s)) (hit_tokens s) (miss_tokens s) []
    (m_alloc s) (m_pool s).

Definition w_list b u : list nat := if b then w_mamba u else w_full u.
Definition w_head b u : nat := lru_head (lru b (w_base u)).
Definition w_tail b u : nat := lru_tail (lru b (w_base u)).

(** Updates of views. *)
Definition w_upd (f : cache -> cache) u : mview A P :=
  MView (f (w_base u)) (w_cores u) (w_ckpts u) (w_full u) (w_mamba u).
Definition w_nodes (fc : cores -> cores) (fm : gmap nat ckpt_t -> gmap nat ckpt_t) u : mview A P :=
  MView (w_base u) (fc (w_cores u)) (fm (w_ckpts u)) (w_full u) (w_mamba u).
Definition w_relist b l u : mview A P :=
  MView (w_base u) (w_cores u) (w_ckpts u) (if b then w_full u else l) (if b then l else w_mamba u).

Definition lru_ok b s l : Prop :=
  lru_cache (lru b s) = list_to_set l /\
  dll (hlinks b (m_nodes s)) (lru_head (lru b s)) (lru_tail (lru b s)) l.

Record rep s u : Prop := Rep {
  rep_base : w_base u = base s;
  rep_cores : w_cores u = mcore <$> m_nodes s;
  rep_ckpts : w_ckpts u = mckpt <$> m_nodes s;
  rep_list b : lru_ok b s (w_list b u)
}.

Definition sim {B} (c : MM B) u (a : B) u' : Prop := forall s, rep s u -> exists s', c s = (Ok a, s') /\ rep s' u'.

(** *** Rules *)

Lemma sim_ret {B} (a : B) u : sim (mret a) u a u.
Proof. intros s Hs. by exists s. Qed.

Lemma sim_bind {B C} (c : MM B) (k : B -> MM C) u a u1 a' u2 :
  sim c u a u1 -> sim (k a) u1 a' u2 -> sim (c ≫= k) u a' u2.
Proof.
  intros Hc Hk s Hs. destruct (Hc s Hs) as (s1 & Hr & Hs1). destruct (Hk s1 Hs1) as (s2 & Hr2 & Hs2).
  exists s2. split; [|done]. by rewrite (bind_ok _ _ _ _ _ Hr).
Qed.

Lemma sim_gets {B} (f : cache -> B) u a : (forall s, rep s u -> f s = a) -> sim (gets f) u a u.
Proof. intros Hf s Hs. exists s. unfold gets. by rewrite Hf. Qed.

Lemma sim_lift {B} (r : res B) u a : r = Ok a -> sim (lift_res r) u a u.
Proof. intros -> s Hs. by exists s. Qed.

Lemma sim_assert (c : bool) msg u : c = true -> sim (massert c msg) u tt u.
Proof. intros -> . apply sim_ret. Qed.

Lemma sim_deref o x u : o = Some x -> sim (deref o) u x u.
Proof. intros ->. apply sim_ret. Qed.

Lemma sim_tensor o v u : o = Some v -> sim (tensor o) u v u.
Proof. intros ->. apply sim_ret. Qed.

(** Reading a node gives its reduced parts; the rest of it is unknown. *)
Lemma sim_read {B} x (k : MambaNode -> MM B) u m a u' :
  w_cores u !! x = Some m ->
  (forall n, w_cores u !! x = Some (mcore n) -> w_ckpts u !! x = Some (mckpt n) -> m = mcore n -> sim (k n) u a u') ->
  sim (mnode_at x ≫= k) u a u'.
Proof.
  intros Hx Hk s Hs. pose proof Hx as Hx'. rewrite (rep_cores _ _ Hs), lookup_fmap_Some in Hx'.
  destruct Hx' as (n & <- & Hn).
  assert (mnode_at x s = (Ok n, s)) as Hr by (unfold mnode_at; by rewrite Hn).
  rewrite (bind_ok _ _ _ _ _ Hr). apply (Hk n); try done. by rewrite (rep_ckpts _ _ Hs), lookup_fmap, Hn.
Qed.

Lemma rep_update b s u q m' l' :
  rep s u -> same_info b m' (m_nodes s) -> ends q = ends (lru b s) -> lru_cache q = list_to_set l' ->
  dll (hlinks b m') (lru_head (lru b s)) (lru_tail (lru b s)) l' ->
  rep (mu_lru b q (mu_nodes (fun _ => m') s)) (w_relist b l' u).
Proof.
  intros [Hb Hc Hk Hl] (Hn & Hmc & Hmk) Hq Hcache Hd. injection Hq as Hq1 Hq2. split.
  - simpl. rewrite Hb. unfold base. destruct b; simpl; f_equal; unfold ends; by rewrite Hq1, Hq2.
  - simpl. by rewrite Hc, Hmc.
  - simpl. by rewrite Hk, Hmk.
  - intros b'. destruct (decide (b' = b)) as [->|Hne].
    + unfold lru_ok. destruct b; simpl; by rewrite Hq1, Hq2.
    + assert (b' = negb b) as -> by (by destruct b, b'). specialize (Hl (negb b)).
      unfold lru_ok in *. simpl m_nodes. rewrite Hn. by destruct b.
Qed.

Lemma mu_lru_same b s : mu_lru b (lru b s) s = s.
Proof. by destruct s, b. Qed.

Lemma rep_relink b s u m' l' :
  rep s u -> same_info b m' (m_nodes s) -> dll (hlinks b m') (lru_head (lru b s)) (lru_tail (lru b s)) l' ->
  (list_to_set l' : gset nat) = list_to_set (w_list b u) ->
  rep (mu_nodes (fun _ => m') s) (w_relist b l' u).
Proof.
  intros Hs Hm Hd Hset.
  rewrite <-(mu_lru_same b (mu_nodes (fun _ => m') s)). destruct (rep_list _ _ Hs b) as [Hc _].
  pose proof (rep_update b s u (lru b s) m' l' Hs Hm eq_refl ltac:(congruence) Hd) as Hr.
  by destruct b.
Qed.

(** *** The links of one list *)

Lemma mset_eq x f s : mset x f s = (Ok tt, mu_nodes (fun _ => alter f x (m_nodes s)) s).
Proof. done. Qed.

Lemma mnode_at_eq s x n : m_nodes s !! x = Some n -> mnode_at x s = (Ok n, s).
Proof. intros Hn. unfold mnode_at. by rewrite Hn. Qed.

Lemma unlink_run b s h t l1 x l2 :
  dll (hlinks b (m_nodes s)) h t (l1 ++ x :: l2) ->
  exists m', remove_node_links b x s = (Ok tt, mu_nodes (fun _ => m') s) /\
    same_info b m' (m_nodes s) /\ dll (hlinks b m') h t (l1 ++ l2).
Proof.
  intros Hd. pose proof Hd as [Hnd Hc]. destruct (chained_around _ _ _ _ _ _ Hc) as (Hp & Hq & _).
  pose proof (dll_unlink _ _ _ _ _ _ Hd) as Hd'.
  destruct (hlinks_dll_node _ _ _ _ _ x Hd) as [n Hn]; [set_solver|].
  rewrite (hlinks_prv _ _ _ _ Hn) in Hp. rewrite (hlinks_nxt _ _ _ _ Hn) in Hq.
  set (p := List.last l1 h) in *. set (q := List.hd t l2) in *.
  assert (p ≠ x) as Hpx.
  { pose proof (last_in h l1) as Hin. fold p in Hin. intros ->. rewrite <-app_assoc in Hnd.
    change (h :: l1 ++ (x :: l2) ++ [t]) with ((h :: l1) ++ x :: l2 ++ [t]) in Hnd.
    apply NoDup_app in Hnd as (_ & Hdisj & _). apply (Hdisj x Hin). by left. }
  eexists. split_and!; cycle 2.
  - unfold unlink in Hd'. rewrite <-(hlinks_set_nxt b (m_nodes s)) in Hd'.
    rewrite <-!hlinks_set_prv, <-hlinks_set_nxt in Hd'. exact Hd'.
  - unfold remove_node_links. rewrite (bind_ok _ _ _ _ _ (mnode_at_eq s x n Hn)). cbv beta. rewrite Hp, Hq.
    erewrite bind_ok by reflexivity. cbv beta. rewrite (bind_ok _ _ _ _ _ (mset_eq p _ s)). cbv beta.
    erewrite bind_ok; cycle 1.
    { apply mnode_at_eq. simpl. rewrite lookup_alter_ne by done. exact Hn. }
    cbv beta. rewrite Hp, Hq. reflexivity.
  - by repeat first [apply same_info_prv | apply same_info_nxt].
Qed.

Lemma link_run b s h t l1 x l2 :
  dll (hlinks b (m_nodes s)) h t (l1 ++ l2) -> is_Some (m_nodes s !! x) -> x ∉ h :: (l1 ++ l2) ++ [t] ->
  exists m', add_node_after b (List.last l1 h) x s = (Ok tt, mu_nodes (fun _ => m') s) /\
    same_info b m' (m_nodes s) /\ dll (hlinks b m') h t (l1 ++ x :: l2).
Proof.
  intros Hd Hx Hnotin. apply (hlinks_dom b) in Hx.
  destruct (dll_link _ _ _ _ _ _ Hd Hx Hnotin) as [Hn Hd'].
  set (p := List.last l1 h) in *. set (q := List.hd t l2) in *.
  assert (p ≠ x) as Hpx.
  { pose proof (last_in h l1) as Hin. fold p in Hin. intros ->. apply Hnotin. set_solver. }
  destruct (hlinks_dll_node _ _ _ _ _ p Hd) as [o Ho].
  { pose proof (last_in h l1) as Hin. fold p in Hin. set_solver. }
  rewrite (hlinks_nxt _ _ _ _ Ho) in Hn.
  eexists. split_and!; cycle 2.
  - unfold link in Hd'. rewrite <-(hlinks_set_prv b (m_nodes s)), <-hlinks_set_nxt in Hd'.
    rewrite <-hlinks_set_prv, <-hlinks_set_nxt in Hd'. exact Hd'.
  - unfold add_node_after. rewrite (bind_ok _ _ _ _ _ (mset_eq x _ s)). cbv beta.
    erewrite bind_ok; cycle 1.
    { apply mnode_at_eq. simpl. rewrite lookup_alter_ne by done. exact Ho. }
    cbv beta. rewrite Hn. erewrite bind_ok by apply mset_eq. cbv beta.
    erewrite bind_ok; cycle 1.
    { apply mnode_at_eq. simpl. rewrite !lookup_alter_ne by done. exact Ho. }
    cbv beta. rewrite Hn. reflexivity.
  - by repeat first [apply same_info_prv | apply same_info_nxt].
Qed.

(** *** Membership *)

(** List [b] may hold node [x]: the nodes with a checkpoint, or all. *)
Definition carries b u (x : nat) : bool :=
  negb b || match w_ckpts u !! x with Some (Some _, _) => true | _ => false end.

Definition without (x : nat) (l : list nat) : list nat := filter (fun y => y ≠ x) l.

Lemma without_app x l1 l2 : NoDup (l1 ++ x :: l2) -> without x (l1 ++ x :: l2) = l1 ++ l2.
Proof.
  intros (Hnd1 & Hdisj & Hnd2)%NoDup_app. apply NoDup_cons in Hnd2 as [Hx2 Hnd2]. unfold without.
  rewrite filter_app, filter_cons_False by tauto. f_equal; apply filter_id; intros y Hy ->.
  - apply (Hdisj x Hy). by left.
  - done.
Qed.

Lemma without_elem x l y : y ∈ without x l <-> y ≠ x /\ y ∈ l.
Proof. unfold without. by rewrite list_elem_of_filter. Qed.

Lemma rep_nodup s u b : rep s u -> NoDup (w_head b u :: w_list b u ++ [w_tail b u]).
Proof.
  intros Hs. destruct (rep_list _ _ Hs b) as [_ [Hnd _]]. unfold w_head, w_tail. rewrite (rep_base _ _ Hs).
  by destruct b.
Qed.

Lemma rep_dll s u b :
  rep s u -> dll (hlinks b (m_nodes s)) (w_head b u) (w_tail b u) (w_list b u) /\
  w_head b u = lru_head (lru b s) /\ w_tail b u = lru_tail (lru b s).
Proof.
  intros Hs. destruct (rep_list _ _ Hs b) as [_ Hd]. unfold w_head, w_tail. rewrite (rep_base _ _ Hs).
  by destruct b.
Qed.

Lemma nodup_middle h (l : list nat) t : NoDup (h :: l ++ [t]) -> NoDup l /\ h ∉ l /\ t ∉ l /\ h ≠ t.
Proof.
  rewrite NoDup_cons, NoDup_app. intros (Hh & Hnd & Ht & _). split_and!; [done|set_solver| |set_solver].
  intros Hin. apply (Ht t Hin). by left.
Qed.

Lemma sim_member b x u : sim (member b x) u (bool_decide (x ∈ w_list b u)) u.
Proof.
  apply sim_gets. intros s Hs. destruct (rep_list _ _ Hs b) as [Hc _]. rewrite Hc.
  apply bool_decide_ext. by rewrite elem_of_list_to_set.
Qed.

Lemma rep_carries s u b x n : rep s u -> m_nodes s !! x = Some n -> not_tombstone b n = carries b u x.
Proof.
  intros Hs Hn. unfold not_tombstone, carries. rewrite (rep_ckpts _ _ Hs), lookup_fmap, Hn. simpl.
  unfold mamba_evicted. destruct b, (mamba_value n) eqn:E; done.
Qed.

Lemma rep_lookup s u x m : rep s u -> w_cores u !! x = Some m -> exists n, m_nodes s !! x = Some n /\ m = mcore n.
Proof.
  intros Hs. rewrite (rep_cores _ _ Hs), lookup_fmap_Some. intros (n & <- & Hn). by exists n.
Qed.

Lemma rep_size s u : rep s u -> size (m_nodes s) = size (w_cores u).
Proof. intros Hs. rewrite (rep_cores _ _ Hs). symmetry. apply map_size_fmap. Qed.

(** The first checks of an operation on a member. *)
Lemma member_checks b x u s :
  rep s u -> x ∈ w_list b u -> carries b u x = true ->
  exists n, m_nodes s !! x = Some n /\ forall B msg msg' (k : MambaNode -> MM B),
    (c ← member b x;
     massert c msg ≫= fun _ =>
     n ← mnode_at x;
     massert (not_tombstone b n) msg' ≫= fun _ => k n) s = k n s.
Proof.
  intros Hs Hx Hc. destruct (rep_dll s u b Hs) as (Hd & _).
  destruct (hlinks_dll_node _ _ _ _ _ x Hd) as [n Hn]; [set_solver|]. exists n. split; [done|]. intros B msg msg' k.
  destruct (sim_member b x u s Hs) as (s' & Hr & _).
  assert (s' = s) as -> by (by injection Hr). rewrite bool_decide_eq_true_2 in Hr by done.
  rewrite (bind_ok _ _ _ _ _ Hr). cbv beta. erewrite bind_ok by reflexivity. cbv beta.
  rewrite (bind_ok _ _ _ _ _ (mnode_at_eq s x n Hn)). cbv beta.
  rewrite (rep_carries s u b x n Hs Hn), Hc. by erewrite bind_ok by reflexivity.
Qed.

(** *** [LRUList] on views *)

Lemma sim_remove_node b x u :
  x ∈ w_list b u -> carries b u x = true ->
  sim (remove_node b x) u tt (w_relist b (without x (w_list b u)) u).
Proof.
  intros Hx Hc s Hs. destruct (rep_dll s u b Hs) as (Hd & Eh & Et).
  destruct (list_elem_of_split _ _ Hx) as (l1 & l2 & E). rewrite E in Hd.
  destruct (nodup_middle _ _ _ (rep_nodup s u b Hs)) as (Hnd & _).
  rewrite E in Hnd. rewrite E, without_app by done.
  unfold remove_node. destruct (member_checks b x u s Hs Hx Hc) as (n & Hn & Hk). rewrite Hk. clear Hk.
  erewrite bind_ok by reflexivity. cbv beta.
  edestruct (unlink_run b (mu_lru b (MkLRU (lru_head (lru b s)) (lru_tail (lru b s))
    (lru_cache (lru b s) ∖ {[x]})) s)) as (m' & Hr & Hm & Hd'); [exact Hd|].
  eexists. split; [exact Hr|].
  assert (forall q, mu_nodes (fun _ => m') (mu_lru b q s) = mu_lru b q (mu_nodes (fun _ => m') s)) as ->.
  { intros q. by destruct b. }
  apply rep_update; [done|exact Hm|done| |by rewrite <-Eh, <-Et].
  destruct (rep_list _ _ Hs b) as [Hcache _]. simpl. rewrite Hcache, E. apply NoDup_app in Hnd as (_ & Hd1 & Hd2).
  apply NoDup_cons in Hd2 as [Hd2 _]. apply leibniz_equiv. specialize (Hd1 x). set_solver.
Qed.

Lemma sim_insert_mru b x u m :
  w_cores u !! x = Some m -> x ∉ w_list b u -> x ≠ w_head b u -> x ≠ w_tail b u -> carries b u x = true ->
  sim (insert_mru b x) u tt (w_relist b (x :: w_list b u) u).
Proof.
  intros Hm Hx Hh Ht Hc s Hs. destruct (rep_dll s u b Hs) as (Hd & Eh & Et).
  destruct (rep_lookup s u x m Hs Hm) as (n & Hn & ->).
  unfold insert_mru. rewrite (bind_ok _ _ _ _ _ (mnode_at_eq s x n Hn)). cbv beta.
  rewrite (rep_carries s u b x n Hs Hn), Hc. erewrite bind_ok by reflexivity. cbv beta.
  destruct (sim_member b x u s Hs) as (s' & Hr & _).
  assert (s' = s) as -> by (by injection Hr). rewrite bool_decide_eq_false_2 in Hr by done.
  rewrite (bind_ok _ _ _ _ _ Hr). cbv beta. erewrite bind_ok by reflexivity. cbv beta.
  erewrite bind_ok by reflexivity. cbv beta.
  set (q := MkLRU _ _ ({[x]} ∪ lru_cache (lru b s))).
  assert (lru_head (lru b (mu_lru b q s)) = w_head b u) as Eh' by (rewrite Eh; by destruct b).
  unfold add_node. erewrite bind_ok by reflexivity. cbv beta. rewrite Eh'.
  edestruct (link_run b (mu_lru b q s) (w_head b u) (w_tail b u) [] x (w_list b u)) as (m' & Hrun & Hinfo & Hd');
    [exact Hd|by exists n|set_solver|].
  simpl List.last in Hrun. eexists. split; [exact Hrun|].
  assert (mu_nodes (fun _ => m') (mu_lru b q s) = mu_lru b q (mu_nodes (fun _ => m') s)) as -> by (by destruct b).
  apply rep_update; [done|exact Hinfo|done| |by rewrite <-Eh, <-Et].
  destruct (rep_list _ _ Hs b) as [Hcache _]. unfold q. simpl. by rewrite Hcache.
Qed.

(** Taking a member out of its place and putting it behind [l1]. *)
Lemma move_run b s u l1 x l2 l1' l2' :
  rep s u -> w_list b u = l1 ++ x :: l2 -> l1 ++ l2 = l1' ++ l2' -> forall B (k : MM B), exists m',
  (remove_node_links b x ≫= fun _ => add_node_after b (List.last l1' (w_head b u)) x ≫= fun _ => k) s =
    k (mu_nodes (fun _ => m') s) /\
  rep (mu_nodes (fun _ => m') s) (w_relist b (l1' ++ x :: l2') u).
Proof.
  intros Hs E E' B k. destruct (rep_dll s u b Hs) as (Hd & Eh & Et). pose proof (rep_nodup s u b Hs) as Hnd.
  rewrite E in Hd, Hnd. destruct (unlink_run b s _ _ _ _ _ Hd) as (m1 & Hr1 & Hi1 & Hd1). rewrite E' in Hd1.
  edestruct (link_run b (mu_nodes (fun _ => m1) s) (w_head b u) (w_tail b u) l1' x l2') as (m2 & Hr2 & Hi2 & Hd2).
  { exact Hd1. }
  { destruct (hlinks_dll_node _ _ _ _ _ x Hd) as [n Hn]; [set_solver|].
    rewrite <-(hlinks_dom (negb b)). simpl. destruct Hi1 as (-> & _). apply hlinks_dom. by exists n. }
  { rewrite <-E'. intros Hin. rewrite <-app_assoc in Hnd, Hin.
    assert (NoDup ((w_head b u :: l1) ++ x :: (l2 ++ [w_tail b u]))) as Hnd' by exact Hnd.
    apply NoDup_app in Hnd' as (_ & Hdisj & Hnd2). apply NoDup_cons in Hnd2 as [Hx2 _].
    assert (x ∈ (w_head b u :: l1) ++ (l2 ++ [w_tail b u])) as [Hin'|Hin']%elem_of_app by exact Hin; [|done].
    apply (Hdisj x Hin'). by left. }
  exists m2. split.
  - rewrite (bind_ok _ _ _ _ _ Hr1). cbv beta. by rewrite (bind_ok _ _ _ _ _ Hr2).
  - apply rep_relink; [done|by eapply same_info_trans|by rewrite <-Eh, <-Et|].
    rewrite E. apply leibniz_equiv. intros y. rewrite !elem_of_list_to_set, !elem_of_app, !elem_of_cons.
    assert (y ∈ l1 ++ l2 <-> y ∈ l1' ++ l2') as Hy by (by rewrite E'). rewrite !elem_of_app in Hy. tauto.
Qed.

Lemma sim_reset_node_mru b x u :
  x ∈ w_list b u -> carries b u x = true ->
  sim (reset_node_mru b x) u tt (w_relist b (x :: without x (w_list b u)) u).
Proof.
  intros Hx Hc s Hs. destruct (list_elem_of_split _ _ Hx) as (l1 & l2 & E).
  destruct (nodup_middle _ _ _ (rep_nodup s u b Hs)) as (Hnd & _).
  unfold reset_node_mru. destruct (member_checks b x u s Hs Hx Hc) as (n & Hn & Hk). rewrite Hk. clear Hk.
  rewrite E in Hnd. rewrite E, without_app by done.
  destruct (move_run b s u l1 x l2 [] (l1 ++ l2) Hs E eq_refl unit (mret tt)) as (m' & Hr & Hrep).
  eexists. split; [|exact Hrep]. destruct (rep_dll s u b Hs) as (Hd & Eh & Et). rewrite E in Hd.
  destruct (unlink_run b s _ _ _ _ _ Hd) as (m1 & Hr1 & _).
  rewrite (bind_ok _ _ _ _ _ Hr1). cbv beta. unfold add_node. erewrite bind_ok by reflexivity. cbv beta.
  assert (lru_head (lru b (mu_nodes (fun _ => m1) s)) = w_head b u) as -> by (rewrite Eh; by destruct b).
  rewrite (bind_ok _ _ _ _ _ Hr1) in Hr. cbv beta in Hr. simpl List.last in Hr.
  unfold mbind, M_bind in Hr. destruct (add_node_after b (w_head b u) x _) as [[[]|e] s'']; [|done].
  unfold mret, M_ret in Hr. by injection Hr as ->.
Qed.

(** A path that is moved to the front: its members, in their order, and the
    rest of the list. *)
Definition path_front b u (path : list nat) (l : list nat) : list nat :=
  let pl := filter (fun y => carries b u y = true) path in pl ++ filter (fun y => y ∉ pl) l.

Lemma w_relist_twice b l l' u : w_relist b l (w_relist b l' u) = w_relist b l u.
Proof. by destruct b. Qed.

Lemma w_relist_same b u : w_relist b (w_list b u) u = u.
Proof. by destruct u, b. Qed.

Lemma w_list_relist b l u : w_list b (w_relist b l u) = l.
Proof. by destruct b. Qed.

Lemma filter_notin_cons (x : nat) pl l :
  filter (fun y => y ∉ x :: pl) l = filter (fun y => y ∉ pl) (without x l).
Proof. unfold without. rewrite list_filter_filter. apply list_filter_iff. intros y. set_solver. Qed.

(** The loop, after the nodes of [acc] have been moved to the front. *)
Lemma reset_path_run b ps r fuel : forall x path w v u acc rest,
  up ps r (w_cores u) x path w v -> (length path < fuel)%nat -> w_list b u = acc ++ rest ->
  (forall y, y ∈ path -> carries b u y = true -> y ∈ rest) ->
  sim (reset_path_loop fuel b x r (List.last acc (w_head b u))) u tt
    (w_relist b (acc ++ path_front b u path rest) u).
Proof.
  induction fuel as [|fuel IH]; intros x path w v u acc rest Hu Hf E Hin; [lia|]. simpl.
  destruct Hu as [|x n p path w v Hxr Hn Hp Hu].
  - rewrite decide_True by done. unfold path_front. simpl.
    rewrite filter_id by (intros; apply not_elem_of_nil). rewrite <-E, w_relist_same. apply sim_ret.
  - rewrite decide_False by done. simpl in Hf. eapply sim_read; [exact Hn|]. intros n' Hn' Hk ->.
    intros s Hs. destruct (rep_lookup s u x _ Hs Hn) as (n0 & Hn0 & En0).
    assert (not_tombstone b n' = carries b u x) as ->.
    { rewrite <-(rep_carries s u b x n0 Hs Hn0). rewrite (rep_ckpts _ _ Hs), lookup_fmap, Hn0 in Hk.
      injection Hk as Hk _. unfold not_tombstone, mamba_evicted. by rewrite Hk. }
    assert (NoDup (x :: path)) as [Hxp Hnd]%NoDup_cons by (by eapply up_NoDup, up_node).
    destruct (carries b u x) eqn:Hc; cycle 1.
    + erewrite bind_ok by reflexivity. cbv beta. simpl in Hp. rewrite Hp. erewrite bind_ok by reflexivity.
      cbv beta. replace (path_front b u (x :: path) rest) with (path_front b u path rest); cycle 1.
      { unfold path_front. by rewrite filter_cons_False by (by rewrite Hc). }
      eapply IH; [exact Hu|lia|done| |done]. intros y Hy. apply Hin. by right.
    + assert (x ∈ rest) as Hx by (apply Hin; [left|done]).
      destruct (list_elem_of_split _ _ Hx) as (l1 & l2 & El).
      destruct (nodup_middle _ _ _ (rep_nodup s u b Hs)) as (Hnd' & _).
      rewrite E in Hnd'. apply NoDup_app in Hnd' as (Hndacc & Hdisj & Hndrest).
      assert (without x rest = l1 ++ l2) as Ew by (rewrite El in *; by apply without_app).
      destruct (sim_member b x u s Hs) as (s' & Hr & _).
      assert (s' = s) as -> by (by injection Hr).
      rewrite bool_decide_eq_true_2 in Hr by (rewrite E; set_solver).
      destruct (move_run b s u (acc ++ l1) x l2 acc (l1 ++ l2)) with (B := nat) (k := mret x : MM nat)
        as (m' & Hr' & Hrep); [done|by rewrite E, El, app_assoc|by rewrite app_assoc|].
      erewrite bind_ok; cycle 1.
      { rewrite (bind_ok _ _ _ _ _ Hr). cbv beta. erewrite bind_ok by reflexivity. exact Hr'. }
      cbv beta. simpl in Hp. rewrite Hp. erewrite bind_ok by reflexivity. cbv beta.
      set (u1 := w_relist b (acc ++ x :: l1 ++ l2) u) in *.
      assert (w_head b u1 = w_head b u) as Eh by done.
      specialize (IH p path w v u1 (acc ++ [x]) (l1 ++ l2)).
      replace (List.last (acc ++ [x]) (w_head b u1)) with x in IH by (by rewrite last_last).
      assert (carries b u1 = carries b u) as Ec by done.
      destruct IH with (s := mu_nodes (fun _ => m') s) as (s'' & Hr'' & Hrep''); [exact Hu|lia| | |exact Hrep|].
      { unfold u1. by rewrite w_list_relist, <-app_assoc. }
      { intros y Hy Hcy. rewrite <-Ew, without_elem. split; [by intros ->|]. apply Hin; [by right|done]. }
      exists s''. split; [exact Hr''|]. revert Hrep''. unfold u1 at 2. rewrite w_relist_twice.
      match goal with |- rep _ (w_relist b ?l1 u) -> rep _ (w_relist b ?l2 u) => replace l2 with l1; [done|] end.
      rewrite <-app_assoc. f_equal. unfold path_front. rewrite Ec, filter_cons_True by done. simpl. f_equal. f_equal.
      by rewrite filter_notin_cons, Ew.
Qed.

Lemma up_fuel ps r u x path w v : up ps r (w_cores u) x path w v -> (length path ≤ size (w_cores u))%nat.
Proof.
  intros Hu. rewrite <-(size_dom (w_cores u)), <-(size_list_to_set (C := gset nat) path) by (by eapply up_NoDup).
  apply subseteq_size. intros y Hy%elem_of_list_to_set. apply elem_of_dom. by eapply up_nodes.
Qed.

Lemma sim_fuel u : sim (gets (fun s : cache => S (size (m_nodes s)))) u (S (size (w_cores u))) u.
Proof. apply sim_gets. intros s Hs. by rewrite (rep_size s u Hs). Qed.

Lemma sim_reset_path b u x path w v ps r :
  up ps r (w_cores u) x path w v -> (forall y, y ∈ path -> carries b u y = true -> y ∈ w_list b u) ->
  sim (reset_node_and_parents_mru b x r) u tt (w_relist b (path_front b u path (w_list b u)) u).
Proof.
  intros Hu Hin. unfold reset_node_and_parents_mru.
  intros s Hs. erewrite bind_ok by reflexivity. cbv beta. destruct (rep_dll s u b Hs) as (_ & <- & _).
  revert s Hs. change (sim (fuel ← gets (fun s => S (size (m_nodes s)));
    reset_path_loop fuel b x r (w_head b u)) u tt (w_relist b (path_front b u path (w_list b u)) u)).
  eapply sim_bind; [apply sim_fuel|]. cbv beta.
  apply (reset_path_run b ps r _ x path w v u [] (w_list b u)); [done| |done|done].
  apply up_fuel in Hu. lia.
Qed.

(** The search: the last of [l] that qualifies. *)
Definition pick (q : nat -> bool) (l : list nat) : option nat := last (filter (fun y => q y = true) l).

(** A test on nodes as a test on the view. *)
Definition qualifies (skip : core_t -> ckpt_t -> bool) u (y : nat) : bool :=
  match w_cores u !! y, w_ckpts u !! y with
  | Some m, Some k => negb (skip m k)
  | _, _ => false
  end.

Lemma prev_loop_run b skip sk h t fuel : forall u l1 y l2 s,
  rep s u -> (forall n, skip n = sk (mcore n) (mckpt n)) ->
  dll (hlinks b (m_nodes s)) h t (w_list b u) -> w_list b u ++ [t] = l1 ++ y :: l2 ->
  qualifies sk u h = true -> (length l1 < fuel)%nat ->
  forall n, m_nodes s !! y = Some n ->
  prev_loop fuel b skip (get_prv b n) s = (Ok (default h (pick (qualifies sk u) l1)), s).
Proof.
  induction fuel as [|fuel IH]; intros u l1 y l2 s Hs Hsk Hd E Hh Hf n Hn; [lia|]. simpl.
  assert (get_prv b n = Some (List.last l1 h)) as ->.
  { rewrite <-(hlinks_prv b _ y n Hn). destruct Hd as [_ Hc].
    destruct l2 as [|z l2].
    - apply app_inj_tail in E as [E ->]. rewrite E in Hc. by apply chained_end in Hc as [_ Hc].
    - destruct (exists_last (l := z :: l2)) as (l2' & t' & E2); [done|]. rewrite E2 in E.
      change (l1 ++ y :: l2' ++ [t']) with (l1 ++ (y :: l2') ++ [t']) in E. rewrite app_assoc in E.
      apply app_inj_tail in E as [E _]. rewrite E in Hc. by apply chained_around in Hc as (Hc & _). }
  erewrite bind_ok by reflexivity. cbv beta.
  assert (forall z m, m_nodes s !! z = Some m -> skip m = negb (qualifies sk u z)) as Hq.
  { intros z m Hm. unfold qualifies. rewrite (rep_cores _ _ Hs), (rep_ckpts _ _ Hs), !lookup_fmap, Hm. simpl.
    by rewrite negb_involutive. }
  destruct l1 as [|z l1 _] using rev_ind.
  - simpl List.last. destruct (hlinks_dll_node _ _ _ _ _ h Hd) as [m Hm]; [by left|].
    rewrite (bind_ok _ _ _ _ _ (mnode_at_eq s h m Hm)). cbv beta. by rewrite (Hq _ _ Hm), Hh.
  - rewrite last_last. assert (z ∈ w_list b u) as Hz.
    { destruct (exists_last (l := y :: l2)) as (l2' & t' & E2); [done|]. rewrite E2, app_assoc in E.
      apply app_inj_tail in E as [E _]. rewrite E. set_solver. }
    destruct (hlinks_dll_node _ _ _ _ _ z Hd) as [m Hm]; [set_solver|].
    rewrite (bind_ok _ _ _ _ _ (mnode_at_eq s z m Hm)). cbv beta. rewrite (Hq _ _ Hm).
    unfold pick. rewrite filter_app. destruct (qualifies sk u z) eqn:Hqz; simpl.
    + rewrite filter_cons_True, filter_nil by done. by rewrite last_snoc.
    + rewrite filter_cons_False, filter_nil, app_nil_r by (by rewrite Hqz).
      apply (IH u l1 z (y :: l2)); try done; [|rewrite length_app in Hf; simpl in Hf; lia].
      by rewrite E, <-app_assoc.
Qed.

Lemma pick_elem q l x : pick q l = Some x -> x ∈ l /\ q x = true.
Proof. intros Hp. apply last_Some_elem_of in Hp. by apply list_elem_of_filter in Hp as [? ?]. Qed.

Lemma sim_prev_search b skip sk u l1 y l2 (check_id : bool) :
  (forall n, skip n = sk (mcore n) (mckpt n)) -> w_list b u ++ [w_tail b u] = l1 ++ y :: l2 ->
  qualifies sk u (w_head b u) = true -> (check_id = true -> y ∈ w_list b u) ->
  sim (prev_search b skip y check_id) u (pick (qualifies sk u) l1) u.
Proof.
  intros Hsk E Hh Hchk s Hs. exists s. split; [|done]. unfold prev_search.
  destruct (sim_member b y u s Hs) as (s' & Hr & _).
  assert (s' = s) as -> by (by injection Hr). rewrite (bind_ok _ _ _ _ _ Hr). cbv beta.
  erewrite (bind_ok (massert _ _)); cycle 1.
  { destruct check_id; [rewrite bool_decide_eq_true_2 by (by apply Hchk)|]; reflexivity. }
  cbv beta. destruct (rep_dll s u b Hs) as (Hd & Eh & Et).
  destruct (hlinks_dll_node _ _ _ _ _ y Hd) as [n Hn]; [rewrite E; set_solver|].
  rewrite (bind_ok _ _ _ _ _ (mnode_at_eq s y n Hn)). cbv beta. erewrite bind_ok by reflexivity. cbv beta.
  pose proof (dll_size _ _ _ _ Hd) as Hsz. unfold hlinks in Hsz. rewrite map_size_fmap in Hsz.
  apply (f_equal length) in E as El. rewrite !length_app in El. simpl in El.
  erewrite bind_ok; cycle 1.
  { eapply (prev_loop_run b skip sk); [done|done|exact Hd|exact E|done|lia|done]. }
  cbv beta. erewrite bind_ok by reflexivity. cbv beta. rewrite <-Eh. unfold mret, M_ret. do 2 f_equal.
  destruct (pick (qualifies sk u) l1) as [x|] eqn:Hp; simpl; [|by rewrite decide_True].
  rewrite decide_False; [done|]. apply pick_elem in Hp as [Hx _]. intros ->.
  pose proof (rep_nodup s u b Hs) as Hnd. rewrite E in Hnd. apply NoDup_cons in Hnd as [Hnd _]. set_solver.
Qed.
End views.
