(* ===== verification/MambaRules.v ===== *)
(** * The prefix cache of hybrid models: rules for single statements

    How the statements that occur in the operations of MambaOps.v act on
    views: assignments to attributes, new nodes, calls of the allocator and of
    the Mamba pool, and the mixed-in events. *)

From S2P Require Import Prelude PyDict RadixKey KvEvents RadixTree RadixOps RadixInv RadixMoves.
From S2P Require Import RadixState RadixLocks RadixRun RadixEvents RadixInsert RadixSpec RadixEvict.
From S2P Require Import MambaTree MambaOps LruFacts MambaView.

#[export] Instance mamba_events_laws {A P} : EventHostLaws (MambaRadixCache A P).
Proof.
  split; try done.
  - intros x hv s y. simpl. destruct (decide (y = x)) as [->|Hne].
    + rewrite lookup_alter_eq. by destruct (m_nodes s !! x).
    + rewrite lookup_alter_ne by done. by destruct (m_nodes s !! y).
  - intros s. by destruct s.
Qed.

(** The parts of a node that a view shows or a list uses. *)
Definition n_shown (n : MambaNode) : core_t * ckpt_t * (bool -> option nat * option nat) :=
  (mcore n, mckpt n, fun b => (get_prv b n, get_nxt b n)).

Definition with_children d (m : core_t) : core_t :=
  Core d (co_parent m) (co_key m) (co_value m) (co_lock m) (co_hash m).
Definition with_place p k v (m : core_t) : core_t := Core (co_children m) p k v (co_lock m) (co_hash m).
Definition with_lock z (m : core_t) : core_t :=
  Core (co_children m) (co_parent m) (co_key m) (co_value m) z (co_hash m).

Section rules.
Context {A P : Type}.
Implicit Types (s : MambaRadixCache A P) (u : mview A P) (b : bool) (x : nat).
Abbreviation cache := (MambaRadixCache A P).
Abbreviation MM := (M (MambaRadixCache A P)).

(** *** Attributes of the cache *)

Definition base_only (f : cache -> cache) : Prop :=
  forall s, base (f s) = f (base s) /\ m_nodes (f s) = m_nodes s /\ forall b, lru b (f s) = lru b s.

Lemma sim_modify f u : base_only f -> sim (modify f) u tt (w_upd f u).
Proof.
  intros Hf s Hs. exists (f s). split; [done|]. destruct (Hf s) as (Hb & Hn & Hl). split; simpl.
  - by rewrite Hb, (rep_base _ _ Hs).
  - by rewrite Hn, (rep_cores _ _ Hs).
  - by rewrite Hn, (rep_ckpts _ _ Hs).
  - intros b. pose proof (rep_list _ _ Hs b) as Hb'. unfold lru_ok in *. by rewrite Hl, Hn.
Qed.

Lemma base_only_full de dp : base_only (mu_full de dp).
Proof. intros s. split_and!; [done|done|by intros []]. Qed.
Lemma base_only_mamba de dp : base_only (mu_mamba de dp).
Proof. intros s. split_and!; [done|done|by intros []]. Qed.
Lemma base_only_alloc (a : A) : base_only (mu_alloc a).
Proof. intros s. split_and!; [done|done|by intros []]. Qed.
Lemma base_only_pool (p : P) : base_only (mu_pool p).
Proof. intros s. split_and!; [done|done|by intros []]. Qed.

Lemma sim_params {B} (f : CacheParams -> B) u : sim (gets (fun s : cache => f (m_params s))) u (f (m_params (w_base u))) u.
Proof. apply sim_gets. intros s Hs. by rewrite (rep_base _ _ Hs). Qed.

Lemma sim_prm u : sim (gets (fun s : cache => m_params s)) u (m_params (w_base u)) u.
Proof. exact (sim_params id u). Qed.

Lemma sim_root u : sim (gets (fun s : cache => m_root s)) u (m_root (w_base u)) u.
Proof. apply sim_gets. intros s Hs. by rewrite (rep_base _ _ Hs). Qed.

(** *** Attributes of nodes *)

Lemma sim_mset x f fc fm u :
  (forall n, mcore (f n) = fc (mcore n)) -> (forall n, mckpt (f n) = fm (mckpt n)) ->
  (forall b n, get_prv b (f n) = get_prv b n /\ get_nxt b (f n) = get_nxt b n) ->
  sim (mset x f) u tt (w_nodes (alter fc x) (alter fm x) u).
Proof.
  intros Hc Hm Hl s Hs. eexists. split; [reflexivity|]. split; simpl.
  - by rewrite (rep_base _ _ Hs).
  - rewrite (rep_cores _ _ Hs). apply map_eq. intros y. rewrite lookup_fmap. destruct (decide (y = x)) as [->|Hne].
    + rewrite !lookup_alter_eq, lookup_fmap. destruct (m_nodes s !! x); [|done]. simpl. by rewrite Hc.
    + by rewrite !lookup_alter_ne, lookup_fmap by done.
  - rewrite (rep_ckpts _ _ Hs). apply map_eq. intros y. rewrite lookup_fmap. destruct (decide (y = x)) as [->|Hne].
    + rewrite !lookup_alter_eq, lookup_fmap. destruct (m_nodes s !! x); [|done]. simpl. by rewrite Hm.
    + by rewrite !lookup_alter_ne, lookup_fmap by done.
  - intros b. destruct (rep_list _ _ Hs b) as [Hca Hd]. split; [by destruct b|].
    assert (hlinks b (alter f x (m_nodes s)) = hlinks b (m_nodes s)) as E.
    { apply fmap_alter_same. intros n. by destruct (Hl b n) as [-> ->]. }
    simpl m_nodes. rewrite E. by destruct b.
Qed.

Lemma alter_same {B} (f : B -> B) x (m : gmap nat B) : (forall y, f y = y) -> alter f x m = m.
Proof.
  intros Hf. apply map_eq. intros y. destruct (decide (y = x)) as [->|Hne].
  - rewrite lookup_alter_eq. destruct (m !! x); [|done]. simpl. by rewrite Hf.
  - by rewrite lookup_alter_ne.
Qed.

(** Assignments to attributes a view does not show. *)
Lemma sim_mset_hidden x f u : (forall n, n_shown (f n) = n_shown n) -> sim (mset x f) u tt u.
Proof.
  intros Hf. assert (u = w_nodes (alter id x) (alter id x) u) as Eu.
  { unfold w_nodes. rewrite !alter_same by done. by destruct u. }
  rewrite Eu at 2. apply sim_mset.
  - intros n. exact (f_equal (fun p => p.1.1) (Hf n)).
  - intros n. exact (f_equal (fun p => p.1.2) (Hf n)).
  - intros b n. pose proof (f_equal (fun p => p.2 b) (Hf n)) as Hl. simpl in Hl. by injection Hl.
Qed.

Lemma sim_access x t u : sim (mset x (n_set_access t)) u tt u.
Proof. by apply sim_mset_hidden. Qed.

(** A changed core. *)
Lemma sim_mset_core x f fc u :
  (forall n, mcore (f n) = fc (mcore n)) -> (forall n, mckpt (f n) = mckpt n) ->
  (forall b n, get_prv b (f n) = get_prv b n /\ get_nxt b (f n) = get_nxt b n) ->
  sim (mset x f) u tt (w_nodes (alter fc x) id u).
Proof.
  intros Hc Hm Hl. assert (w_nodes (alter fc x) id u = w_nodes (alter fc x) (alter id x) u) as ->.
  { unfold w_nodes. by rewrite (alter_same id). }
  by apply sim_mset.
Qed.

(** A changed checkpoint. *)
Lemma sim_mset_ckpt x f fm u :
  (forall n, mcore (f n) = mcore n) -> (forall n, mckpt (f n) = fm (mckpt n)) ->
  (forall b n, get_prv b (f n) = get_prv b n /\ get_nxt b (f n) = get_nxt b n) ->
  sim (mset x f) u tt (w_nodes id (alter fm x) u).
Proof.
  intros Hc Hm Hl. assert (w_nodes id (alter fm x) u = w_nodes (alter id x) (alter fm x) u) as ->.
  { unfold w_nodes. by rewrite (alter_same id). }
  by apply sim_mset.
Qed.

(** *** Clocks and new nodes *)

Lemma rep_clock s u t : rep s u -> rep (mu_access t s) u.
Proof. intros [Hb Hc Hm Hl]. by split. Qed.

Lemma sim_clock {B} (k : Z -> MM B) u a u' : (forall t, sim (k t) u a u') -> sim (get_last_access_time ≫= k) u a u'.
Proof. intros Hk s Hs. erewrite bind_ok by reflexivity. cbv beta. apply Hk. by apply rep_clock. Qed.

Definition blank_core : core_t := Core [] None (MkKey [] None false) None 0 None.

(** One more object in the heap. *)
Definition w_fresh u : mview A P :=
  MView (mu_nodes (fun _ => ∅) (mu_fresh (MambaNode_init 0) (w_base u)))
    (<[m_counter (w_base u) := blank_core]> (w_cores u)) (<[m_counter (w_base u) := (None, 0)]> (w_ckpts u))
    (w_full u) (w_mamba u).

Lemma rep_fresh t s u : w_cores u !! m_counter (w_base u) = None -> rep s u ->
  rep (mu_fresh (MambaNode_init t) s) (w_fresh u).
Proof.
  intros Hnew Hs. assert (m_nodes s !! m_counter s = None) as Hn.
  { rewrite (rep_base _ _ Hs), (rep_cores _ _ Hs), lookup_fmap, fmap_None in Hnew. exact Hnew. }
  split; simpl.
  - by rewrite (rep_base _ _ Hs).
  - rewrite fmap_insert, (rep_base _ _ Hs), (rep_cores _ _ Hs). done.
  - rewrite fmap_insert, (rep_base _ _ Hs), (rep_ckpts _ _ Hs). done.
  - intros b. destruct (rep_list _ _ Hs b) as [Hc Hd]. split; [by destruct b|].
    assert (forall y, y ∈ lru_head (lru b s) :: w_list b u ++ [lru_tail (lru b s)] -> y ≠ m_counter s) as Hne.
    { intros y Hy ->. destruct (hlinks_dll_node _ _ _ _ _ _ Hd Hy) as [n Hn']. congruence. }
    assert (forall y, y ≠ m_counter s -> hlinks b (<[m_counter s:=MambaNode_init t]> (m_nodes s)) !! y =
      hlinks b (m_nodes s) !! y) as Hl.
    { intros y Hy. unfold hlinks. by rewrite !lookup_fmap, lookup_insert_ne. }
    assert (dll (hlinks b (<[m_counter s:=MambaNode_init t]> (m_nodes s)))
      (lru_head (lru b s)) (lru_tail (lru b s)) (w_list b u)) as Hd'.
    { destruct Hd as [Hnd Hch]. split; [done|]. eapply chained_frame; [..|exact Hch].
      - intros y Hy. unfold nxt. rewrite Hl; [done|]. apply Hne. set_solver.
      - intros y Hy. unfold prv. rewrite Hl; [done|]. apply Hne. set_solver. }
    by destruct b.
Qed.

Lemma sim_new u : w_cores u !! m_counter (w_base u) = None -> sim new_MambaNode u (m_counter (w_base u)) (w_fresh u).
Proof.
  intros Hnew. apply sim_clock. intros t s Hs. eexists. split; [|by apply rep_fresh].
  unfold allocate_mnode. do 2 f_equal. by rewrite (rep_base _ _ Hs).
Qed.

(** *** The allocators *)

Section allocators.
Context `{KvFree A} `{MambaSlots P}.

Lemma sim_full_free v u a' :
  kv_free v (m_alloc (w_base u)) = (Ok tt, a') -> sim (full_free v) u tt (w_upd (mu_alloc a') u).
Proof.
  intros Hf s Hs. rewrite (rep_base _ _ Hs) in Hf. simpl in Hf.
  destruct (sim_modify (mu_alloc a') u (base_only_alloc a') s Hs) as (s' & Hr & Hrep).
  exists s'. split; [|done]. unfold full_free, zoom. rewrite Hf. unfold modify in Hr. by injection Hr as <-.
Qed.

Lemma sim_mamba_free v u : sim (mamba_free v) u tt (w_upd (mu_pool (ms_free v (m_pool (w_base u)))) u).
Proof.
  intros s Hs. destruct (sim_modify _ u (base_only_pool (ms_free v (m_pool (w_base u)))) s Hs) as (s' & Hr & Hrep).
  exists s'. split; [|done]. rewrite <-Hr. unfold mamba_free, modify. by rewrite (rep_base _ _ Hs).
Qed.

Lemma sim_mamba_alloc n u :
  sim (mamba_alloc n) u (ms_alloc n (m_pool (w_base u))).1 (w_upd (mu_pool (ms_alloc n (m_pool (w_base u))).2) u).
Proof.
  intros s Hs.
  destruct (sim_modify _ u (base_only_pool (ms_alloc n (m_pool (w_base u))).2) s Hs) as (s' & Hr & Hrep).
  exists s'. split; [|done]. unfold mamba_alloc. unfold modify in Hr. injection Hr as <-.
  rewrite (rep_base _ _ Hs). simpl. by destruct (ms_alloc n (m_pool s)).
Qed.
End allocators.

(** *** Events *)

Section events.
Context `{Sha256} `{!Sha256Laws}.

Lemma rep_queue q s u : rep s u -> rep (mu_queue q s) u.
Proof. intros [Hb Hc Hm Hl]. by split. Qed.

Lemma rep_ev_node s u x m : rep s u -> w_cores u !! x = Some m ->
  eh_node s x = Some (EvNode (co_parent m) (co_key m) (co_hash m)).
Proof. intros Hs Hm. destruct (rep_lookup s u x m Hs Hm) as (n & Hn & ->). simpl. by rewrite Hn. Qed.

Lemma sim_remove_event x u m :
  (0 < page_size (m_params (w_base u)))%nat -> w_cores u !! x = Some m ->
  aligned (page_size (m_params (w_base u))) (co_key m) ->
  (enable_kv_cache_events (m_params (w_base u)) = true -> hashed (page_size (m_params (w_base u))) m) ->
  sim (record_remove_event x) u tt u.
Proof.
  intros Hps Hm Ha Hh s Hs. rewrite (rep_base _ _ Hs) in *. simpl in *.
  destruct (mixin_remove_run s x (EvNode (co_parent m) (co_key m) (co_hash m))) as (evs & Hr & _);
    [exact Hps|by apply (rep_ev_node s u)|exact Ha|intros Hen; by destruct (Hh Hen)|].
  eexists. split; [exact Hr|]. by apply rep_queue.
Qed.

(** [record_store_event] of a new node under a hashed parent *)
Lemma store_event_rep x u m p pn s :
  rep s u -> (0 < page_size (m_params (w_base u)))%nat -> w_cores u !! x = Some m -> co_hash m = None ->
  aligned (page_size (m_params (w_base u))) (co_key m) -> co_parent m = Some p -> w_cores u !! p = Some pn ->
  p ≠ x -> (enable_kv_cache_events (m_params (w_base u)) = true -> tokens_fit (co_key m)) ->
  (enable_kv_cache_events (m_params (w_base u)) = true -> p ≠ m_root (w_base u) ->
    hashed (page_size (m_params (w_base u))) pn) ->
  exists h s', record_store_event x s = (Ok tt, s') /\ rep s' (w_nodes (<[x := rehash h m]>) id u) /\
    (enable_kv_cache_events (m_params (w_base u)) = true ->
      hashed (page_size (m_params (w_base u))) (rehash h m)).
Proof.
  intros Hs Hps Hm Hh Ha Hp Hpn Hpx Hfit Hph. rewrite (rep_base _ _ Hs) in *. simpl in *.
  destruct (mixin_store_run s x (EvNode (co_parent m) (co_key m) (co_hash m)) p
    (EvNode (co_parent pn) (co_key pn) (co_hash pn))) as (s' & evs & Hr & Hs');
    [exact Hps|by apply (rep_ev_node s u)|exact Hh|exact Ha|exact Hp|by apply (rep_ev_node s u)|exact Hpx|exact Hfit|..].
  { intros Hen Hpr h Hlast. simpl in Hlast. destruct (Hph Hen Hpr) as (_ & hv & Ehv & _ & Hval).
    rewrite Ehv in Hlast. simpl in Hlast. apply last_Some_elem_of in Hlast. rewrite Forall_forall in Hval.
    by apply Hval. }
  simpl in Hs'. destruct (enable_kv_cache_events (m_params s)).
  - destruct Hs' as (hv & -> & Hlen & Hval & _). exists (Some hv). eexists. split; [exact Hr|].
    split; [|intros _; split; [by apply Hfit|by exists hv]]. apply rep_queue.
    assert (w_nodes (<[x:=rehash (Some hv) m]>) id u = w_nodes (alter (rehash (Some hv)) x) id u) as ->.
    { unfold w_nodes. f_equal. apply map_eq. intros y. destruct (decide (y = x)) as [->|Hne].
      - by rewrite lookup_insert_eq, lookup_alter_eq, Hm.
      - by rewrite lookup_insert_ne, lookup_alter_ne. }
    destruct (sim_mset_core x (n_set_hash (Some hv)) (rehash (Some hv)) u) with (s := s) as (s2 & Hr2 & Hrep);
      [done..|]. unfold mset, modify in Hr2. by injection Hr2 as <-.
  - destruct Hs' as [-> _]. exists None, s. split; [exact Hr|]. split; [|done].
    unfold w_nodes. rewrite insert_id; [by destruct u|]. rewrite Hm. f_equal. unfold rehash. rewrite <-Hh. by destruct m.
Qed.
End events.
End rules.
