(* ===== verification/MambaInv.v ===== *)
(** * The prefix cache of hybrid models: the invariant

    [minv exc u L H]: the view [u] is consistent, with live nodes [L] and held
    nodes [H].  The tree satisfies the invariant of RadixState.v, with
    [full_lock_ref] for the lock counts.  In addition:

    - the lock count of a node's checkpoint is the number of times the node
      is held, and every held node but the root has a checkpoint;
    - the two Mamba sizes are the numbers of unlocked and of locked checkpoints;
    - the full list has exactly the live nodes other than the root, the Mamba
      list exactly those with a checkpoint, each once;
    - every leaf other than the root (and other than those of [exc], while the
      tree is being cut) has a checkpoint.

    Each change of the tree and of a checkpoint preserves it. *)

From S2P Require Import Prelude PyDict RadixKey KvEvents RadixTree RadixOps RadixInv RadixMoves.
From S2P Require Import RadixState RadixLocks RadixRun RadixEvents RadixInsert RadixSpec RadixEvict.
From S2P Require Import MambaTree MambaOps LruFacts MambaView MambaRules.

(** The number of times [x] is held. *)
Definition held (H : list nat) (x : nat) : Z := len (filter (fun y => y = x) H).

Abbreviation ckpts := (gmap nat ckpt_t).

Definition has_ckpt (c : ckpts) (x : nat) : bool :=
  match c !! x with Some (Some _, _) => true | _ => false end.

(** The size of the checkpoint of [x] if its lock count satisfies [P]. *)
Definition ck_size (P : Z -> bool) (c : ckpts) (x : nat) : Z :=
  match c !! x with Some (Some mv, z) => if P z then len mv else 0 | _ => 0 end.

Record ck_inv (c : ckpts) (r : nat) (ev prot : Z) (L : gset nat) (H lf lm : list nat) : Prop := CkInv {
  ck_root : c !! r = Some (None, 1);
  ck_node x : x ∈ L -> x ≠ r -> exists o, c !! x = Some (o, held H x) /\ (o = None -> held H x = 0) /\
    forall mv, o = Some mv -> length mv = 1%nat;
  ck_ev : ev = set_sum (ck_size unlocked c) (L ∖ {[r]});
  ck_prot : prot = set_sum (ck_size is_locked c) (L ∖ {[r]});
  ck_full_nodup : NoDup lf;
  ck_full x : x ∈ lf <-> x ∈ L /\ x ≠ r;
  ck_mamba_nodup : NoDup lm;
  ck_mamba x : x ∈ lm <-> x ∈ L /\ x ≠ r /\ has_ckpt c x = true
}.

Lemma held_nonneg H x : 0 <= held H x.
Proof. apply len_nonneg. Qed.

Lemma held_cons H y x : held (y :: H) x = (if decide (y = x) then 1 else 0) + held H x.
Proof.
  unfold held, len. destruct (decide (y = x)) as [->|Hne].
  - rewrite filter_cons_True by done. simpl length. lia.
  - rewrite filter_cons_False by done. lia.
Qed.

Lemma held_perm H H' x : H ≡ₚ H' -> held H x = held H' x.
Proof. intros Hp. unfold held, len. by rewrite Hp. Qed.

Lemma held_zero H x : held H x = 0 <-> x ∉ H.
Proof.
  unfold held, len. split.
  - intros Hz Hx. assert (x ∈ filter (fun y => y = x) H) as Hin by (by apply list_elem_of_filter).
    destruct (filter _ H); [by apply elem_of_nil in Hin|done].
  - intros Hx. destruct (filter _ H) as [|y l] eqn:E; [done|].
    assert (y ∈ filter (fun y => y = x) H) as Hin by (rewrite E; left).
    apply list_elem_of_filter in Hin as [-> Hin]. done.
Qed.

(** A sum in which one summand changes. *)
Lemma set_sum_at f f' x (X : gset nat) :
  x ∈ X -> (forall y, y ∈ X -> y ≠ x -> f' y = f y) -> set_sum f' X = set_sum f X - f x + f' x.
Proof.
  intros Hx Hf. rewrite (set_sum_remove f x X Hx), (set_sum_remove f' x X Hx).
  rewrite (set_sum_ext f' f (X ∖ {[x]})); [lia|]. intros y Hy. apply Hf; set_solver.
Qed.

Section ck.
Context {c : ckpts} {r : nat} {ev prot : Z} {L : gset nat} {H lf lm : list nat}.
Hypothesis Hck : ck_inv c r ev prot L H lf lm.

(** Moving nodes within the lists. *)
Lemma ck_permute lf' lm' : lf' ≡ₚ lf -> lm' ≡ₚ lm -> ck_inv c r ev prot L H lf' lm'.
Proof.
  destruct Hck as [C1 C2 C3 C4 C5 C6 C7 C8]. intros Hf Hm.
  split; try done; [by rewrite Hf|intros x; rewrite Hf; apply C6|by rewrite Hm|intros x; rewrite Hm; apply C8].
Qed.

(** A new node, with or without a checkpoint. *)
Lemma ck_add x o lf' lm' :
  x ∉ L -> r ∈ L -> x ∉ H -> (forall mv, o = Some mv -> length mv = 1%nat) ->
  lf' ≡ₚ x :: lf -> lm' ≡ₚ (if o then x :: lm else lm) ->
  ck_inv (<[x := (o, 0)]> c) r (ev + len (default [] o)) prot (L ∪ {[x]}) H lf' lm'.
Proof.
  intros Hx Hr HxH Ho Hf Hm. destruct Hck as [C1 C2 C3 C4 C5 C6 C7 C8].
  assert (x ≠ r) as Hxr by (by intros ->). assert ((L ∪ {[x]}) ∖ {[r]} = (L ∖ {[r]}) ∪ {[x]}) as EL by set_solver.
  assert (x ∉ L ∖ {[r]}) as HxL by set_solver.
  assert (forall P, set_sum (ck_size P (<[x:=(o, 0)]> c)) (L ∖ {[r]}) = set_sum (ck_size P c) (L ∖ {[r]})) as Hsum.
  { intros P. apply set_sum_ext. intros y Hy. unfold ck_size. rewrite lookup_insert_ne; [done|set_solver]. }
  split.
  - by rewrite lookup_insert_ne.
  - intros y Hy Hyr. destruct (decide (y = x)) as [->|Hne].
    + exists o. rewrite lookup_insert_eq. assert (held H x = 0) as -> by (by apply held_zero). done.
    + rewrite lookup_insert_ne by done. apply C2; [set_solver|done].
  - rewrite EL, set_sum_add by done. rewrite Hsum, C3. unfold ck_size at 2. rewrite lookup_insert_eq.
    destruct o; simpl; unfold len; simpl; lia.
  - rewrite EL, set_sum_add by done. rewrite Hsum, C4. unfold ck_size at 2. rewrite lookup_insert_eq.
    by destruct o.
  - rewrite Hf. constructor; [rewrite C6; set_solver|done].
  - intros y. rewrite Hf, elem_of_cons, C6. set_solver.
  - rewrite Hm. destruct o; [|done]. constructor; [rewrite C8; set_solver|done].
  - intros y. rewrite Hm. unfold has_ckpt. destruct (decide (y = x)) as [->|Hne].
    + rewrite lookup_insert_eq. destruct o; [|rewrite C8; set_solver]. rewrite elem_of_cons. set_solver.
    + rewrite lookup_insert_ne by done. destruct o; rewrite ?elem_of_cons, C8; unfold has_ckpt; set_solver.
Qed.

(** A checkpoint of a live node is set or cleared. *)
Lemma ck_set x o o' lf' lm' :
  x ∈ L -> x ≠ r -> c !! x = Some (o, 0) -> (forall mv, o' = Some mv -> length mv = 1%nat) ->
  lf' ≡ₚ lf -> NoDup lm' -> (forall y, y ∈ lm' <-> if decide (y = x) then is_Some o' else y ∈ lm) ->
  ck_inv (alter (fun k => (o', k.2)) x c) r (ev - len (default [] o) + len (default [] o')) prot L H lf' lm'.
Proof.
  intros Hx Hxr Hcx Ho Hf Hnd Hm. destruct Hck as [C1 C2 C3 C4 C5 C6 C7 C8].
  assert (x ∈ L ∖ {[r]}) as HxL by set_solver.
  assert (held H x = 0) as Hheld.
  { destruct (C2 x Hx Hxr) as (o0 & E & _). rewrite Hcx in E. by injection E. }
  assert (forall P y, y ≠ x -> ck_size P (alter (fun k => (o', k.2)) x c) y = ck_size P c y) as Hother.
  { intros P y Hy. unfold ck_size. by rewrite lookup_alter_ne. }
  split.
  - by rewrite lookup_alter_ne.
  - intros y Hy Hyr. destruct (decide (y = x)) as [->|Hne].
    + exists o'. rewrite lookup_alter_eq, Hcx, Hheld. done.
    + rewrite lookup_alter_ne by done. by apply C2.
  - rewrite (set_sum_at (ck_size unlocked c) _ x) by auto.
    unfold ck_size at 2 3. rewrite lookup_alter_eq, Hcx, C3. simpl. destruct o, o'; simpl; unfold len; simpl; lia.
  - rewrite (set_sum_at (ck_size is_locked c) _ x) by auto.
    unfold ck_size at 2 3. rewrite lookup_alter_eq, Hcx, C4. simpl. destruct o, o'; simpl; lia.
  - by rewrite Hf.
  - intros y. by rewrite Hf.
  - done.
  - intros y. rewrite Hm. unfold has_ckpt. destruct (decide (y = x)) as [->|Hne].
    + rewrite lookup_alter_eq, Hcx. simpl. destruct o'; naive_solver.
    + rewrite lookup_alter_ne by done. apply C8.
Qed.

(** A node that nobody holds leaves the tree. *)
Lemma ck_cut x lf' lm' o :
  x ∈ L -> x ≠ r -> c !! x = Some (o, 0) -> NoDup lf' -> NoDup lm' ->
  (forall y, y ∈ lf' <-> y ≠ x /\ y ∈ lf) -> (forall y, y ∈ lm' <-> y ≠ x /\ y ∈ lm) ->
  ck_inv c r (ev - len (default [] o)) prot (L ∖ {[x]}) H lf' lm'.
Proof.
  intros Hx Hxr Hcx Hnf Hnm Hf Hm. destruct Hck as [C1 C2 C3 C4 C5 C6 C7 C8].
  assert (x ∈ L ∖ {[r]}) as HxL by set_solver. assert (L ∖ {[x]} ∖ {[r]} = L ∖ {[r]} ∖ {[x]}) as EL by set_solver.
  split; try done.
  - intros y Hy Hyr. apply C2; [set_solver|done].
  - rewrite C3, (set_sum_remove _ x) by done. rewrite EL. unfold ck_size at 1. rewrite Hcx.
    destruct o; simpl; unfold len; simpl; lia.
  - rewrite C4, (set_sum_remove _ x) by done. rewrite EL. unfold ck_size at 1. rewrite Hcx. by destruct o.
  - intros y. rewrite Hf, C6. set_solver.
  - intros y. rewrite Hm, C8. set_solver.
Qed.

(** One holder more or less. *)
Lemma ck_hold x mv z d H' :
  x ∈ L -> x ≠ r -> c !! x = Some (Some mv, z) -> (forall y, held H' y = held H y + if decide (y = x) then d else 0) ->
  d = 1 \/ (d = -1 /\ 0 < z) ->
  let moved := if decide (z = 0) then - len mv else if decide (z + d = 0) then len mv else 0 in
  ck_inv (alter (fun k => (k.1, k.2 + d)) x c) r (ev + moved) (prot - moved) L H' lf lm.
Proof.
  intros Hx Hxr Hcx Hh Hd moved. destruct Hck as [C1 C2 C3 C4 C5 C6 C7 C8].
  assert (x ∈ L ∖ {[r]}) as HxL by set_solver.
  assert (z = held H x /\ length mv = 1%nat) as [Hz Hmv].
  { destruct (C2 x Hx Hxr) as (o0 & E & _ & Hl). rewrite Hcx in E. injection E as <- ->. auto. }
  pose proof (held_nonneg H x) as Hnn.
  assert (forall P y, y ≠ x -> ck_size P (alter (fun k => (k.1, k.2 + d)) x c) y = ck_size P c y) as Hother.
  { intros P y Hy. unfold ck_size. by rewrite lookup_alter_ne. }
  split; try done.
  - by rewrite lookup_alter_ne.
  - intros y Hy Hyr. rewrite (Hh y). destruct (decide (y = x)) as [->|Hne].
    + exists (Some mv). rewrite lookup_alter_eq, Hcx. simpl. rewrite Hz. split_and!; [done|done|naive_solver].
    + rewrite lookup_alter_ne, Z.add_0_r by done. by apply C2.
  - rewrite (set_sum_at (ck_size unlocked c) _ x) by auto.
    unfold ck_size at 2 3. rewrite lookup_alter_eq, Hcx, <-C3. simpl. unfold unlocked, moved.
    repeat case_bool_decide; repeat case_decide; lia.
  - rewrite (set_sum_at (ck_size is_locked c) _ x) by auto.
    unfold ck_size at 2 3. rewrite lookup_alter_eq, Hcx, <-C4. simpl. unfold is_locked, moved.
    repeat case_bool_decide; repeat case_decide; lia.
  - intros y. rewrite C8. unfold has_ckpt. destruct (decide (y = x)) as [->|Hne].
    + by rewrite lookup_alter_eq, Hcx.
    + by rewrite lookup_alter_ne.
Qed.
End ck.

(** ** The invariant of a view *)

Section minv.
Context {A P : Type}.
Implicit Types (u : mview A P) (L exc : gset nat) (x y p : nat).
Abbreviation prm u := (m_params (w_base u)).
Abbreviation psz u := (page_size (m_params (w_base u))).
Abbreviation rt u := (m_root (w_base u)).
Abbreviation cnt u := (m_counter (w_base u)).

Record minv exc u L (H : list nat) : Prop := MInv {
  mi_tree : exists E, inv_at (prm u) (w_cores u) (cnt u) (rt u) (full_evictable_size_ (w_base u))
    (full_protected_size_ (w_base u)) E L H;
  mi_ck : ck_inv (w_ckpts u) (rt u) (mamba_evictable_size_ (w_base u)) (mamba_protected_size_ (w_base u))
    L H (w_full u) (w_mamba u);
  mi_dom x : is_Some (w_ckpts u !! x) <-> is_Some (w_cores u !! x);
  mi_end b x : x = w_head b u \/ x = w_tail b u -> x ∉ L /\ exists m,
    w_cores u !! x = Some m /\ co_lock m = 0 /\ co_children m = [] /\ w_ckpts u !! x = Some (None, 0);
  mi_leaf x m : x ∈ L -> x ≠ rt u -> w_cores u !! x = Some m -> co_children m = [] -> x ∉ exc ->
    has_ckpt (w_ckpts u) x = true
}.

Section facts.
Context {exc : gset nat} {u : mview A P} {L : gset nat} {H : list nat}.
Hypothesis Hinv : minv exc u L H.

Lemma minv_ps : (0 < psz u)%nat.
Proof. destruct (mi_tree _ _ _ _ Hinv) as [E HE]. exact (i_ps _ _ _ _ _ _ _ _ _ HE). Qed.

Lemma minv_shape : shape (psz u) (rt u) (w_cores u) L.
Proof. destruct (mi_tree _ _ _ _ Hinv) as [E HE]. exact (i_shape _ _ _ _ _ _ _ _ _ HE). Qed.

Lemma minv_fresh : w_cores u !! cnt u = None /\ cnt u ∉ L.
Proof. destruct (mi_tree _ _ _ _ Hinv) as [E HE]. exact (inv_fresh_none _ _ _ _ _ _ _ _ _ HE). Qed.

Lemma minv_held_live x : x ∈ H -> x ∈ L.
Proof. destruct (mi_tree _ _ _ _ Hinv) as [E HE]. exact (inv_held_live HE x). Qed.

Lemma minv_lookup x : x ∈ L -> exists m k, w_cores u !! x = Some m /\ w_ckpts u !! x = Some k.
Proof.
  intros Hx. destruct (shape_lookup _ _ _ _ x minv_shape Hx) as [m Hm].
  destruct (proj2 (mi_dom _ _ _ _ Hinv x)) as [k Hk]; eauto.
Qed.

Lemma minv_not_end b x : x ∈ L -> x ≠ w_head b u /\ x ≠ w_tail b u.
Proof. intros Hx. split; intros E; destruct (mi_end _ _ _ _ Hinv b x) as [Hn _]; tauto. Qed.

Lemma minv_fresh_end b : cnt u ≠ w_head b u /\ cnt u ≠ w_tail b u.
Proof.
  destruct minv_fresh as [Hf _].
  split; intros E; destruct (mi_end _ _ _ _ Hinv b (cnt u) ltac:(eauto)) as (_ & m & Hm & _); congruence.
Qed.

Lemma minv_full x : x ∈ w_full u <-> x ∈ L /\ x ≠ rt u.
Proof. apply (ck_full _ _ _ _ _ _ _ _ (mi_ck _ _ _ _ Hinv)). Qed.

Lemma minv_mamba x : x ∈ w_mamba u <-> x ∈ L /\ x ≠ rt u /\ has_ckpt (w_ckpts u) x = true.
Proof. apply (ck_mamba _ _ _ _ _ _ _ _ (mi_ck _ _ _ _ Hinv)). Qed.

(** The lock count of a checkpoint never exceeds that of its node. *)
Lemma minv_lock_mamba x m o z :
  x ∈ L -> x ≠ rt u -> w_cores u !! x = Some m -> w_ckpts u !! x = Some (o, z) -> co_lock m = 0 -> z = 0.
Proof.
  intros Hx Hr Hm Hk Hl. destruct (ck_node _ _ _ _ _ _ _ _ (mi_ck _ _ _ _ Hinv) x Hx Hr) as (o' & E & _).
  rewrite Hk in E. injection E as -> ->. apply held_zero. intros Hin. destruct (mi_tree _ _ _ _ Hinv) as [E HE].
  destruct (sh_up _ _ _ _ minv_shape x Hx) as (l & w & v & Hu).
  destruct (up_self _ _ _ _ _ _ _ Hu Hr) as [l' ->].
  pose proof (inv_held_locked HE x x m (x :: l') w v Hin Hu ltac:(left) Hm). lia.
Qed.

(** More nodes may be exempt. *)
Lemma minv_weaken exc' : exc ⊆ exc' -> minv exc' u L H.
Proof. intros Hsub. destruct Hinv as [H1 H2 H3 H4 H5]. split; try done. intros x m Hx Hr Hm Hc He. eapply H5; set_solver. Qed.

(** Reordered lists. *)
Lemma minv_permute lf lm :
  lf ≡ₚ w_full u -> lm ≡ₚ w_mamba u -> minv exc (MView (w_base u) (w_cores u) (w_ckpts u) lf lm) L H.
Proof. intros Hf Hm. destruct Hinv as [H1 H2 H3 H4 H5]. split; try done. by eapply ck_permute. Qed.

(** What does not concern the tree. *)
Lemma minv_base (bs : MambaRadixCache A P) :
  m_params bs = prm u -> cnt u = m_counter bs -> rt u = m_root bs ->
  full_evictable_size_ bs = full_evictable_size_ (w_base u) ->
  full_protected_size_ bs = full_protected_size_ (w_base u) ->
  mamba_evictable_size_ bs = mamba_evictable_size_ (w_base u) ->
  mamba_protected_size_ bs = mamba_protected_size_ (w_base u) ->
  (forall b, lru b bs = lru b (w_base u)) -> minv exc (w_upd (fun _ => bs) u) L H.
Proof.
  intros E1 E2 E3 E4 E5 E6 E7 E8. destruct Hinv as [H1 H2 H3 H4 H5].
  split; simpl; try (rewrite ?E1, <-?E2, <-?E3, ?E4, ?E5, ?E6, ?E7; done).
  intros b. specialize (H4 b). unfold w_head, w_tail in *. simpl. by rewrite E8.
Qed.
End facts.

Lemma minv_drop exc u L H x m :
  minv (exc ∪ {[x]}) u L H -> w_cores u !! x = Some m ->
  x = rt u \/ co_children m ≠ [] \/ has_ckpt (w_ckpts u) x = true -> minv exc u L H.
Proof.
  intros Hinv Hm Hor. destruct Hinv as [H1 H2 H3 H4 H5]. split; try done. intros y n Hy Hr Hn Hc He.
  destruct (decide (y = x)) as [->|Hne]; [|by eapply H5; set_solver]. simplify_eq. destruct Hor as [->|[|]]; done.
Qed.

Lemma without_perm x (l : list nat) : NoDup l -> x ∈ l -> x :: without x l ≡ₚ l.
Proof.
  intros Hnd Hx. destruct (list_elem_of_split _ _ Hx) as (l1 & l2 & ->). rewrite without_app by done.
  by rewrite Permutation_middle.
Qed.

Lemma without_nodup x (l : list nat) : NoDup l -> NoDup (without x l).
Proof. apply NoDup_filter. Qed.

Lemma dict_set_nonempty (d : dict child_key_t nat) k x : dict_set d k x ≠ [].
Proof. intros E. pose proof (dict_get_set_eq d k x) as Hg. by rewrite E in Hg. Qed.

(** *** Splitting *)

Definition split_view u (y i : nat) (m : core_t) (p : nat) (pn : core_t) (ck c' : child_key_t)
    (h1 h2 : option (list string)) : mview A P :=
  MView (w_base (w_fresh u)) (split_cores (psz u) (w_cores u) y i (cnt u) p m pn ck c' h1 h2)
    (<[cnt u := (None, 0)]> (w_ckpts u)) (y :: cnt u :: without y (w_full u))
    (if has_ckpt (w_ckpts u) y then y :: without y (w_mamba u) else w_mamba u).

Record split_facts_of u L (y i : nat) (m : core_t) (p : nat) (pn : core_t) (ck c' : child_key_t)
    (h1 h2 : option (list string)) : Prop := SplitFacts {
  sf_live : y ∈ L;
  sf_root : y ≠ rt u;
  sf_node : w_cores u !! y = Some m;
  sf_parent : co_parent m = Some p;
  sf_pnode : w_cores u !! p = Some pn;
  sf_head : head (pages (psz u) (co_key m)) = Some ck;
  sf_rest : head (drop i (pages (psz u) (co_key m))) = Some c';
  sf_pos : (0 < i < length (pages (psz u) (co_key m)))%nat;
  sf_hash : split_node_hash_value (co_hash m) (i * psz u) (psz u) = (h1, h2)
}.

Section split.
Context {exc : gset nat} {u : mview A P} {L : gset nat} {H : list nat} {y i p : nat} {m pn : core_t}
  {ck c' : child_key_t} {h1 h2 : option (list string)}.
Hypothesis Hinv : minv exc u L H.
Hypothesis Hsf : split_facts_of u L y i m p pn ck c' h1 h2.

Lemma minv_split : minv exc (split_view u y i m p pn ck c' h1 h2) (L ∪ {[cnt u]}) H.
Proof.
  destruct Hsf as [HyL Hyr Hm Hp Hpn Hck Hc' Hi Hh]. destruct (mi_tree _ _ _ _ Hinv) as [E HE].
  destruct (split_facts y i p m pn ck c' HE HyL Hyr Hm Hp Hpn Hck Hc' Hi) as (HpL & _ & Hpy & Hpc & Hcy).
  destruct (minv_fresh Hinv) as [Hf HfL]. pose proof (minv_shape Hinv) as Hs.
  assert (cnt u ∉ H) as HfH by (intros Hin; by apply (minv_held_live Hinv) in Hin).
  assert (forall x, x ≠ cnt u -> x ≠ y -> x ≠ p ->
    split_cores (psz u) (w_cores u) y i (cnt u) p m pn ck c' h1 h2 !! x = w_cores u !! x) as Hother.
  { intros x H1 H2 H3. by eapply split_lookup_other. }
  pose proof (mi_ck _ _ _ _ Hinv) as Hk. split.
  - exists E. by apply inv_split.
  - simpl. rewrite <-(Z.add_0_r (mamba_evictable_size_ (w_base u))).
    apply (ck_add Hk _ None); [done|by apply sh_root_in with (1 := Hs)|done|done| |].
    + rewrite Permutation_swap. constructor. apply without_perm; [apply (ck_full_nodup _ _ _ _ _ _ _ _ Hk)|].
      by apply (minv_full Hinv).
    + destruct (has_ckpt (w_ckpts u) y) eqn:Hb; [|done]. apply without_perm; [apply (ck_mamba_nodup _ _ _ _ _ _ _ _ Hk)|].
      by apply (minv_mamba Hinv).
  - intros x. simpl. unfold split_cores. rewrite !lookup_insert_is_Some, (mi_dom _ _ _ _ Hinv x).
    assert (y = x -> is_Some (w_cores u !! x)) by (intros <-; eauto).
    assert (p = x -> is_Some (w_cores u !! x)) by (intros <-; eauto).
    destruct (decide (p = x)), (decide (y = x)), (decide (cnt u = x)); tauto.
  - intros b x Hx. destruct (mi_end _ _ _ _ Hinv b x) as (HxL & n & Hn & Hl & Hc & Hb); [by destruct b|].
    assert (x ≠ cnt u) by (intros ->; congruence). split; [set_solver|]. exists n.
    simpl. rewrite Hother, lookup_insert_ne by (done || by intros ->). done.
  - intros x n Hx Hxr Hn Hc Hexc. simpl in *. unfold has_ckpt. destruct (decide (x = cnt u)) as [->|Hxc].
    { erewrite split_get_new in Hn by done. by injection Hn as <-. }
    rewrite lookup_insert_ne by done. assert (x ∈ L) as HxL by set_solver.
    destruct (minv_lookup Hinv x HxL) as (n0 & k0 & Hn0 & Hk0).
    destruct (split_old y i p m pn ck c' h1 h2 HE HyL Hyr Hm Hp Hpn Hck Hc' Hi x n0 Hn0) as
      (n' & Hn' & _ & _ & _ & Hch). rewrite Hn in Hn'. injection Hn' as <-.
    destruct (decide (x = p)) as [->|Hxp].
    { erewrite split_lookup_p in Hn by done. injection Hn as <-. by apply dict_set_nonempty in Hc. }
    apply (mi_leaf _ _ _ _ Hinv x n0); try done. by rewrite <-Hch.
Qed.
End split.

(** *** A new leaf *)

Definition add_view u (q : nat) (qn : core_t) (c : child_key_t) (k : RadixKey) (v0 : list Z)
    (h : option (list string)) (mv : list Z) : mview A P :=
  MView (mu_mamba (len mv) 0 (mu_full (len v0) 0 (w_base (w_fresh u))))
    (add_cores (w_cores u) q (cnt u) qn c k v0 h) (<[cnt u := (Some mv, 0)]> (w_ckpts u))
    (cnt u :: w_full u) (cnt u :: w_mamba u).

Lemma minv_add exc u L H q qn c k v0 h mv :
  minv exc u L H -> q ∈ L -> w_cores u !! q = Some qn -> dict_get (co_children qn) c = None ->
  aligned (psz u) k -> head (pages (psz u) k) = Some c -> length v0 = key_len k ->
  (enable_kv_cache_events (prm u) = true -> hashed (psz u) (leaf_core q k v0 h)) -> length mv = 1%nat ->
  minv exc (add_view u q qn c k v0 h mv) (L ∪ {[cnt u]}) H.
Proof.
  intros Hinv HqL Hqn Hfree Hk Hc Hv Hhash Hmv. destruct (mi_tree _ _ _ _ Hinv) as [E HE].
  destruct (minv_fresh Hinv) as [Hf HfL]. pose proof (minv_shape Hinv) as Hs.
  assert (cnt u ∉ H) as HfH by (intros Hin; by apply (minv_held_live Hinv) in Hin).
  assert (q ≠ cnt u) as Hqc by (by intros ->).
  split.
  - eexists. simpl. rewrite Z.add_0_r. unfold len. rewrite Hv. by apply (inv_add q qn c k v0 h HE).
  - simpl. rewrite Z.add_0_r. apply (ck_add (mi_ck _ _ _ _ Hinv) _ (Some mv)); try done;
      [by apply sh_root_in with (1 := Hs)|naive_solver].
  - intros x. simpl. unfold add_cores. rewrite !lookup_insert_is_Some, (mi_dom _ _ _ _ Hinv x).
    assert (q = x -> is_Some (w_cores u !! x)) by (intros <-; eauto).
    destruct (decide (q = x)), (decide (cnt u = x)); tauto.
  - intros b x Hx. destruct (mi_end _ _ _ _ Hinv b x) as (HxL & n & Hn & Hl & Hch & Hb); [by destruct b|].
    assert (x ≠ cnt u) by (intros ->; congruence). split; [set_solver|]. exists n. simpl. unfold add_cores.
    rewrite !lookup_insert_ne by (done || by intros ->). done.
  - intros x n Hx Hxr Hn Hch Hexc. simpl in *. unfold has_ckpt. destruct (decide (x = cnt u)) as [->|Hxc].
    { by rewrite lookup_insert_eq. }
    rewrite lookup_insert_ne by done. destruct (decide (x = q)) as [->|Hxq].
    { unfold add_cores in Hn. rewrite lookup_insert_eq in Hn. injection Hn as <-. by apply dict_set_nonempty in Hch. }
    unfold add_cores in Hn. rewrite !lookup_insert_ne in Hn by done.
    apply (mi_leaf _ _ _ _ Hinv x n); try done. set_solver.
Qed.

(** *** A leaf is cut off *)

Definition cut_view u (x : nat) (n : core_t) (o : option (list Z)) (p : nat) (pn : core_t) (c : child_key_t) :
    mview A P :=
  MView (match o with Some mv => mu_mamba (- len mv) 0 | None => id end (mu_full (- co_len n) 0 (w_base u)))
    (cut_cores (w_cores u) p pn c) (w_ckpts u) (without x (w_full u)) (without x (w_mamba u)).

Lemma minv_cut exc u L H x n o z p pn c :
  minv exc u L H -> x ∈ L -> x ≠ rt u -> w_cores u !! x = Some n -> co_lock n = 0 -> co_children n = [] ->
  w_ckpts u !! x = Some (o, z) -> co_parent n = Some p -> w_cores u !! p = Some pn ->
  head (pages (psz u) (co_key n)) = Some c ->
  minv (exc ∪ {[p]}) (cut_view u x n o p pn c) (L ∖ {[x]}) H.
Proof.
  intros Hinv HxL Hxr Hn Hlock Hleaf Ho Hp Hpn Hc. destruct (mi_tree _ _ _ _ Hinv) as [E HE].
  assert (z = 0) as -> by (by eapply (minv_lock_mamba Hinv)).
  assert (x ∈ E) as HxE by (apply (i_leaves _ _ _ _ _ _ _ _ _ HE); eauto 8).
  destruct (cut_facts x p n pn c HE HxE Hn Hp Hpn Hc) as (_ & _ & _ & _ & HpL & _ & Hpx).
  pose proof (mi_ck _ _ _ _ Hinv) as Hk. split.
  - eexists. pose proof (inv_cut x p n pn c HE HxE Hn Hp Hpn Hc) as Hcut.
    destruct o; simpl; rewrite Z.add_0_r; exact Hcut.
  - pose proof (ck_cut Hk x (without x (w_full u)) (without x (w_mamba u)) o HxL Hxr Ho) as Hcut.
    destruct o as [mv|]; simpl in *; rewrite ?Z.add_0_r, ?Z.sub_0_r in *; apply Hcut;
      try (apply without_nodup; apply Hk); intros y; apply without_elem.
  - intros y. simpl. unfold cut_cores. rewrite lookup_insert_is_Some, (mi_dom _ _ _ _ Hinv y).
    assert (p = y -> is_Some (w_cores u !! y)) by (intros <-; eauto). destruct (decide (p = y)); tauto.
  - intros b y Hy. destruct (mi_end _ _ _ _ Hinv b y) as (HyL & m & Hm & Hl & Hch & Hb).
    { destruct b, o; exact Hy. }
    split; [set_solver|]. exists m. simpl. unfold cut_cores.
    rewrite lookup_insert_ne by (intros ->; done). done.
  - intros y m Hy Hyr Hm Hch Hexc. simpl in *. assert (y ∈ L) as HyL by set_solver.
    unfold cut_cores in Hm. rewrite lookup_insert_ne in Hm by set_solver.
    apply (mi_leaf _ _ _ _ Hinv y m); try done; [by destruct o|set_solver].
Qed.

(** *** Checkpoints set and cleared *)

Definition revive_view u (x : nat) (mv : list Z) : mview A P :=
  MView (mu_mamba (len mv) 0 (w_base u)) (w_cores u) (alter (fun k => (Some mv, k.2)) x (w_ckpts u))
    (x :: without x (w_full u)) (x :: w_mamba u).

Lemma has_ckpt_alter (c : ckpts) x o y : is_Some (c !! x) ->
  has_ckpt (alter (fun k => (o, k.2)) x c) y = if decide (y = x) then bool_decide (is_Some o) else has_ckpt c y.
Proof.
  intros [[o' z] Hx]. unfold has_ckpt. destruct (decide (y = x)) as [->|Hne].
  - rewrite lookup_alter_eq, Hx. simpl. by destruct o.
  - by rewrite lookup_alter_ne.
Qed.

Lemma minv_set exc u L H x o o' z bs lf lm :
  minv exc u L H -> x ∈ L -> x ≠ rt u -> w_ckpts u !! x = Some (o, z) -> z = 0 ->
  (forall mv, o' = Some mv -> length mv = 1%nat) ->
  lf ≡ₚ w_full u -> NoDup lm -> (forall y, y ∈ lm <-> if decide (y = x) then is_Some o' else y ∈ w_mamba u) ->
  (forall m, w_cores u !! x = Some m -> co_children m = [] -> o' ≠ None) ->
  bs = mu_mamba (len (default [] o') - len (default [] o)) 0 (w_base u) ->
  minv exc (MView bs (w_cores u) (alter (fun k => (o', k.2)) x (w_ckpts u)) lf lm) L H.
Proof.
  intros Hinv HxL Hxr Hx -> Ho' Hf Hnd Hm Hleaf ->. destruct Hinv as [H1 H2 H3 H4 H5]. split; simpl.
  - exact H1.
  - rewrite Z.add_0_r. replace (mamba_evictable_size_ (w_base u) + (len (default [] o') - len (default [] o))) with
      (mamba_evictable_size_ (w_base u) - len (default [] o) + len (default [] o')) by lia.
    by eapply ck_set.
  - intros y. by rewrite lookup_alter_is_Some.
  - intros b y Hy. destruct (H4 b y) as (HyL & m & Hm' & Hl & Hch & Hb); [by destruct b|]. split; [done|].
    exists m. rewrite lookup_alter_ne by (intros ->; done). done.
  - intros y m Hy Hyr Hym Hch Hexc. rewrite has_ckpt_alter by eauto. destruct (decide (y = x)) as [->|Hne].
    + apply bool_decide_eq_true_2. specialize (Hleaf _ Hym Hch). by destruct o'; [eexists|].
    + by eapply H5.
Qed.

Lemma minv_revive exc u L H x mv z :
  minv exc u L H -> x ∈ L -> x ≠ rt u -> w_ckpts u !! x = Some (None, z) -> length mv = 1%nat ->
  minv exc (revive_view u x mv) L H.
Proof.
  intros Hinv HxL Hxr Hx Hmv. pose proof (mi_ck _ _ _ _ Hinv) as Hk.
  assert (z = 0) as Hz.
  { destruct (ck_node _ _ _ _ _ _ _ _ Hk x HxL Hxr) as (o & E & Ho & _). rewrite Hx in E. injection E as <- ->. auto. }
  assert (x ∉ w_mamba u) as Hnm.
  { rewrite (minv_mamba Hinv). unfold has_ckpt. rewrite Hx. by intros (_ & _ & ?). }
  eapply minv_set; try done.
  - naive_solver.
  - apply without_perm; [apply Hk|]. by apply (minv_full Hinv).
  - constructor; [done|apply Hk].
  - intros y. rewrite elem_of_cons. destruct (decide (y = x)) as [->|Hne]; naive_solver.
  - simpl. by rewrite Z.sub_0_r.
Qed.

Definition tombstone_view u (x : nat) (mv : list Z) : mview A P :=
  MView (mu_mamba (- len mv) 0 (w_base u)) (w_cores u) (alter (fun k => (None, k.2)) x (w_ckpts u))
    (w_full u) (without x (w_mamba u)).

Lemma minv_tombstone exc u L H x mv m :
  minv exc u L H -> x ∈ L -> x ≠ rt u -> w_ckpts u !! x = Some (Some mv, 0) ->
  w_cores u !! x = Some m -> co_children m ≠ [] -> minv exc (tombstone_view u x mv) L H.
Proof.
  intros Hinv HxL Hxr Hx Hm Hch. pose proof (mi_ck _ _ _ _ Hinv) as Hk. eapply minv_set; try done.
  - apply without_nodup. apply Hk.
  - intros y. rewrite without_elem. destruct (decide (y = x)) as [->|Hne].
    + split; [by intros [? _]|by intros []].
    + naive_solver.
  - intros m' Hm' Hc. simplify_eq.
Qed.

(** *** Holders *)

(** The checkpoint of [x] has [d] more holders. *)
Definition hold_ckpt (d : Z) u (x : nat) : mview A P :=
  match w_ckpts u !! x with
  | Some (Some mv, z) =>
      let moved := if decide (z = 0) then - len mv else if decide (z + d = 0) then len mv else 0 in
      w_upd (mu_mamba moved (- moved)) (w_nodes id (alter (fun k => (k.1, k.2 + d)) x) u)
  | _ => u
  end.

(** The nodes of a path have [d] more holders; [a] tokens become evictable. *)
Definition hold_path (d : Z) (l : list nat) (a : Z) u : mview A P :=
  w_upd (mu_full a (- a)) (w_nodes (relock d l) id u).

Lemma minv_hold_ckpt exc u L H H' x d :
  minv exc u L H -> x ∈ L -> x = rt u \/ has_ckpt (w_ckpts u) x = true ->
  (forall y, held H' y = held H y + if decide (y = x) then d else 0) -> d = 1 \/ (d = -1 /\ x ∈ H) ->
  ck_inv (w_ckpts (hold_ckpt d u x)) (rt u) (mamba_evictable_size_ (w_base (hold_ckpt d u x)))
    (mamba_protected_size_ (w_base (hold_ckpt d u x))) L H' (w_full u) (w_mamba u).
Proof.
  intros Hinv HxL Hck HH Hd. pose proof (mi_ck _ _ _ _ Hinv) as Hk. unfold hold_ckpt.
  destruct (decide (x = rt u)) as [->|Hxr].
  - rewrite (ck_root _ _ _ _ _ _ _ _ Hk). destruct Hk as [C1 C2 C3 C4 C5 C6 C7 C8]. split; try done.
    intros y Hy Hyr. destruct (C2 y Hy Hyr) as (o & Ho). specialize (HH y). rewrite decide_False in HH by done.
    exists o. by rewrite HH, Z.add_0_r.
  - destruct Hck as [?|Hck]; [done|]. unfold has_ckpt in Hck. destruct (w_ckpts u !! x) as [[[mv|] z]|] eqn:Ex; try done.
    simpl. apply (ck_hold Hk x mv z d H'); try done. destruct Hd as [?|[-> Hx]]; [by left|right].
    split; [done|]. destruct (ck_node _ _ _ _ _ _ _ _ Hk x HxL Hxr) as (o & E & _). rewrite Ex in E.
    injection E as _ ->. pose proof (held_nonneg H x).
    destruct (decide (held H x = 0)) as [E0|]; [by apply held_zero in E0|lia].
Qed.

Lemma hold_ckpt_view d u x :
  w_cores (hold_ckpt d u x) = w_cores u /\ w_full (hold_ckpt d u x) = w_full u /\
  w_mamba (hold_ckpt d u x) = w_mamba u /\ (forall y, is_Some (w_ckpts (hold_ckpt d u x) !! y) <-> is_Some (w_ckpts u !! y)) /\
  (forall y, y ≠ x -> w_ckpts (hold_ckpt d u x) !! y = w_ckpts u !! y) /\
  (forall y, has_ckpt (w_ckpts (hold_ckpt d u x)) y = has_ckpt (w_ckpts u) y) /\
  (exists a, w_base (hold_ckpt d u x) = mu_mamba a (- a) (w_base u)).
Proof.
  unfold hold_ckpt. destruct (w_ckpts u !! x) as [[[mv|] z]|] eqn:Ex;
    try (split_and!; try done; exists 0; by destruct (w_base u); unfold mu_mamba; simpl; rewrite !Z.add_0_r).
  simpl. split_and!; try done.
  - intros y. by rewrite lookup_alter_is_Some.
  - intros y Hy. by rewrite lookup_alter_ne.
  - intros y. unfold has_ckpt. destruct (decide (y = x)) as [->|]; [by rewrite lookup_alter_eq, Ex|by rewrite lookup_alter_ne].
  - by eexists.
Qed.

Lemma minv_hold exc u L H H' x l w v d a :
  minv exc u L H -> x ∈ L -> x = rt u \/ has_ckpt (w_ckpts u) x = true ->
  up (psz u) (rt u) (w_cores u) x l w v ->
  (d = 1 /\ H' = x :: H /\ a = - path_len (g := w_cores u) l 0) \/
  (d = -1 /\ H ≡ₚ x :: H' /\ a = path_len (g := w_cores u) l 1) ->
  minv exc (hold_path d l a (hold_ckpt d u x)) L H'.
Proof.
  intros Hinv HxL Hck Hu Hd. pose proof (up_NoDup _ _ _ _ _ _ _ Hu) as Hnd.
  destruct (mi_tree _ _ _ _ Hinv) as [E HE].
  assert (forall y, held H' y = held H y + if decide (y = x) then d else 0) as HH.
  { intros y. destruct Hd as [(-> & -> & _)|(-> & Hp & _)].
    - rewrite held_cons. repeat case_decide; simplify_eq; lia.
    - rewrite (held_perm H _ y Hp), held_cons. repeat case_decide; simplify_eq; lia. }
  pose proof (minv_hold_ckpt exc u L H H' x d Hinv HxL Hck HH) as Hk.
  destruct (hold_ckpt_view d u x) as (E1 & E2 & E3 & E4 & E5 & E6 & a' & E7).
  split; unfold hold_path; simpl; rewrite ?E1, ?E2, ?E3.
  - rewrite E7. simpl. destruct Hd as [(-> & -> & ->)|(-> & Hp & ->)].
    + eexists. rewrite Z.opp_involutive. by apply (inv_acquire x l w v HE HxL Hu).
    + exists (E ∪ list_to_set (filter (fun y => match w_cores u !! y with
        | Some n => bool_decide (co_lock n = 1 /\ co_children n = []) | None => false end = true) l)).
      eapply (inv_release x l w v HE HxL Hu); [done|]. intros y. rewrite elem_of_union, elem_of_list_to_set, list_elem_of_filter.
      unfold exposed. apply or_iff_compat_l. destruct (w_cores u !! y) as [n|]; [|naive_solver].
      rewrite bool_decide_eq_true. naive_solver.
  - rewrite E7 in Hk |- *. simpl in *. apply Hk. destruct Hd as [(-> & _)|(-> & Hp & _)]; [by left|right].
    split; [done|]. rewrite Hp. by left.
  - intros y. rewrite E4, (mi_dom _ _ _ _ Hinv y). destruct (decide (y ∈ l)) as [Hy|Hy].
    + rewrite relock_in by done. by rewrite fmap_is_Some.
    + by rewrite relock_out.
  - intros b y Hy. destruct (mi_end _ _ _ _ Hinv b y) as (HyL & m & Hm & Hl & Hch & Hb).
    { unfold w_head, w_tail in *. simpl in Hy. rewrite E7 in Hy. by destruct b. }
    split; [done|]. exists m. rewrite relock_out, E5; [done|by intros ->|].
    intros Hin. by apply (shape_up_live _ _ _ _ _ _ _ _ (minv_shape Hinv) HxL Hu) in Hin.
  - intros y m Hy Hyr Hm Hch Hexc. rewrite E6. destruct (minv_lookup Hinv y Hy) as (n & k & Hn & _).
    destruct (relock_old d l _ y n Hn Hnd) as (n' & Hn' & _ & Hc' & _). rewrite Hm in Hn'. injection Hn' as <-.
    apply (mi_leaf _ _ _ _ Hinv y n); try done; [|by rewrite <-Hc']. rewrite E7 in Hyr. exact Hyr.
Qed.
End minv.
