(* ===== verification/MambaRun.v ===== *)
(** * The prefix cache of hybrid models: runs on views

    The runs of splitting, descending, locking and of the single steps of
    eviction and insertion on a consistent cache, as changes of the view.  No
    run raises and none exhausts its fuel. *)

From S2P Require Import Prelude PyDict RadixKey KvEvents RadixTree RadixOps RadixInv RadixMoves.
From S2P Require Import RadixState RadixLocks RadixRun RadixEvents RadixInsert RadixSpec RadixEvict.
From S2P Require Import MambaTree MambaOps LruFacts MambaView MambaRules MambaInv.

Tactic Notation "sim_step" uconstr(lem) := eapply sim_bind; [eapply lem|cbv beta].

Section run.
Context {A P : Type} `{KvFree A} `{!KvFreeTotal A} `{MambaSlots P} `{Sha256} `{!Sha256Laws}.
Implicit Types (s : MambaRadixCache A P) (u : mview A P) (L exc : gset nat) (x y p : nat).
Abbreviation cache := (MambaRadixCache A P).
Abbreviation MM := (M (MambaRadixCache A P)).
Abbreviation prm u := (m_params (w_base u)).
Abbreviation psz u := (page_size (m_params (w_base u))).
Abbreviation rt u := (m_root (w_base u)).
Abbreviation cnt u := (m_counter (w_base u)).

Lemma sim_view_eq {B} (c : MM B) u a u1 u2 : sim c u a u1 -> u1 = u2 -> sim c u a u2.
Proof. by intros ? <-. Qed.

Lemma mview_ext u1 u2 :
  w_base u1 = w_base u2 -> w_cores u1 = w_cores u2 -> w_ckpts u1 = w_ckpts u2 -> w_full u1 = w_full u2 ->
  w_mamba u1 = w_mamba u2 -> u1 = u2.
Proof. destruct u1, u2. simpl. intros -> -> -> -> ->. done. Qed.

(** A statement on the Mamba list that is skipped for nodes without a
    checkpoint. *)
Lemma sim_unless (b b' : bool) (c : MM unit) u l :
  b' = negb b -> (b = false -> sim c u tt (w_relist true l u)) ->
  sim (if b then mret tt else c) u tt (w_relist true (if b' then l else w_mamba u) u).
Proof.
  intros -> Hc. destruct b; simpl; [|by apply Hc]. pose proof (w_relist_same true u) as E. simpl in E. rewrite E. apply sim_ret.
Qed.

(** *** Splitting *)

Lemma split_facts_exist exc u L H' y i m :
  minv exc u L H' -> y ∈ L -> y ≠ rt u -> w_cores u !! y = Some m ->
  (0 < i < length (pages (psz u) (co_key m)))%nat ->
  exists p pn ck c' h1 h2, split_facts_of u L y i m p pn ck c' h1 h2 /\
    co_value m = Some (co_val m) /\ p ≠ y /\ p ≠ cnt u /\ cnt u ≠ y /\
    child_key (psz u) (co_key m) = Ok ck /\ child_key (psz u) (key_drop (i * psz u) (co_key m)) = Ok c'.
Proof.
  intros Hinv HyL Hyr Hm Hi. pose proof (minv_ps Hinv) as Hps. pose proof (minv_shape Hinv) as Hs.
  destruct (sh_node _ _ _ _ Hs y HyL Hyr) as (m' & p & pn & ck & Hm' & Hok & Hp & HpL & Hpn & Hh & Hck).
  rewrite Hm in Hm'. injection Hm' as <-. destruct Hok as (Ha & Hlen & v & Hv).
  destruct (child_key_page (psz u) Hps (co_key m)) as (ck0 & Hck0 & Hck1).
  { apply (pages_head_unit (psz u) Hps _ ck); done. }
  rewrite Hh in Hck1. injection Hck1 as <-.
  destruct (child_key_page (psz u) Hps (key_drop (i * psz u) (co_key m))) as (c' & Hc'0 & Hc').
  { rewrite key_drop_len. apply (aligned_len (psz u) Hps) in Ha. nia. }
  rewrite (pages_drop (psz u) Hps) in Hc'.
  destruct (split_node_hash_value (co_hash m) (i * psz u) (psz u)) as [h1 h2] eqn:Ehash.
  destruct (mi_tree _ _ _ _ Hinv) as [E HE].
  destruct (split_facts y i p m pn ck c' HE) as (_ & _ & Hpy & Hpc & Hyc); try done.
  exists p, pn, ck, c', h1, h2. split_and!; try done. unfold co_val. by rewrite Hv.
Qed.

Lemma sim_split exc u L H' y i m :
  minv exc u L H' -> y ∈ L -> y ≠ rt u -> w_cores u !! y = Some m ->
  (0 < i < length (pages (psz u) (co_key m)))%nat ->
  exists p pn ck c' h1 h2, split_facts_of u L y i m p pn ck c' h1 h2 /\
    sim (m_split_node (co_key m) y (i * psz u)) u (cnt u) (split_view u y i m p pn ck c' h1 h2).
Proof.
  intros Hinv HyL Hyr Hm Hi.
  destruct (split_facts_exist exc u L H' y i m) as
    (p & pn & ck & c' & h1 & h2 & Hsf & Hv & Hpy & Hpc & Hcy & Hck & Hc'); try done.
  exists p, pn, ck, c', h1, h2. split; [done|]. destruct (minv_fresh Hinv) as [Hf HfL].
  pose proof (mi_ck _ _ _ _ Hinv) as Hk. destruct (minv_lookup Hinv y HyL) as (m0 & [o z] & _ & Hyk); clear m0.
  destruct (minv_not_end Hinv false y HyL) as [Hyh Hyt]. destruct (minv_not_end Hinv true y HyL) as [Hyh' Hyt'].
  destruct (minv_fresh_end Hinv false) as [Hch Hct].
  assert (has_ckpt (w_ckpts u) y = bool_decide (o ≠ None)) as Eo by (unfold has_ckpt; rewrite Hyk; by destruct o).
  unfold m_split_node. sim_step sim_params.
  sim_step sim_new; [done|]. sim_step sim_lift; [exact Hc'|].
  eapply sim_read; [simpl; rewrite lookup_insert_ne by done; exact Hm|]. intros n _ Hnk ->.
  simpl in Hnk. rewrite lookup_insert_ne, Hyk in Hnk by done. injection Hnk as Eo' Ez.
  assert (mamba_evicted n = bool_decide (o = None)) as Ev by (unfold mamba_evicted; by rewrite <-Eo').
  sim_step sim_tensor; [exact Hv|].
  eapply sim_bind.
  { apply (sim_mset _ _ (fun m0 => Core [(c', y)] (n_parent n) (key_take (i * psz u) (n_key n))
      (Some (take (i * psz u) (co_val (mcore n)))) (full_lock_ref n) (co_hash m0)) (fun _ => (None, 0))); done. }
  cbv beta. apply sim_clock. intros t. sim_step sim_access.
  sim_step sim_remove_node; [by apply (minv_full Hinv)|reflexivity|].
  sim_step (sim_unless _ (has_ckpt (w_ckpts u) y)).
  { rewrite Eo, Ev. by destruct o. }
  { intros Hfalse. rewrite Ev in Hfalse. apply sim_remove_node.
    - apply (minv_mamba Hinv). rewrite Eo. split_and!; [done|done|by destruct o].
    - unfold carries. simpl. rewrite lookup_alter_ne, lookup_insert_ne, Hyk by done. by destruct o. }
  eapply sim_bind.
  { apply (sim_mset_core _ _ (with_place (Some (cnt u)) (key_drop (i * psz u) (n_key n))
      (Some (drop (i * psz u) (co_val (mcore n)))))); done. }
  cbv beta. sim_step sim_deref; [exact (sf_parent _ _ _ _ _ _ _ _ _ _ _ Hsf)|]. sim_step sim_lift; [exact Hck|].
  eapply sim_bind; [apply (sim_mset_core _ _ (fun q => refile q ck (cnt u))); done|cbv beta].
  pose proof (sf_hash _ _ _ _ _ _ _ _ _ _ _ Hsf) as Ehash. simpl in Ehash.
  replace (split_node_hash_value (n_hash n) (i * psz u) (psz u)) with (h1, h2) by (symmetry; exact Ehash).
  eapply sim_bind; [apply (sim_mset_core _ _ (rehash h1)); done|cbv beta].
  eapply sim_bind; [apply (sim_mset_core _ _ (rehash h2)); done|cbv beta].
  eapply sim_bind.
  { eapply sim_insert_mru; [|simpl; rewrite without_elem, (minv_full Hinv); tauto|exact Hch|exact Hct|reflexivity]. simpl.
    rewrite lookup_alter_ne, lookup_alter_eq, !lookup_alter_ne, lookup_alter_eq, lookup_insert_eq by done. reflexivity. }
  cbv beta. eapply sim_bind.
  { eapply sim_insert_mru; [|simpl; rewrite elem_of_cons, without_elem; intros [?|[? ?]]; congruence|exact Hyh|exact Hyt|reflexivity]. simpl.
    rewrite lookup_alter_eq, !lookup_alter_ne, lookup_alter_eq, !lookup_alter_ne, lookup_insert_ne by done.
    rewrite Hm. reflexivity. }
  cbv beta. sim_step (sim_unless _ (has_ckpt (w_ckpts u) y)).
  { rewrite Eo, Ev. by destruct o. }
  { intros Hfalse. rewrite Ev in Hfalse. eapply sim_insert_mru; [|simpl|exact Hyh'|exact Hyt'|].
    - simpl. rewrite lookup_alter_eq, !lookup_alter_ne, lookup_alter_eq, !lookup_alter_ne, lookup_insert_ne by done.
      rewrite Hm. reflexivity.
    - rewrite Eo. destruct o; [simpl|done]. rewrite without_elem. tauto.
    - unfold carries. simpl. rewrite lookup_alter_ne, lookup_insert_ne, Hyk by done. by destruct o. }
  eapply sim_view_eq; [apply sim_ret|]. apply mview_ext; cbn [w_base w_cores w_ckpts w_full w_mamba w_relist w_nodes].
  - reflexivity.
  - cbn [w_fresh w_cores split_view]. apply map_eq. intros x. unfold split_cores.
    destruct (decide (x = p)) as [->|Hxp].
    + rewrite lookup_insert_eq. rewrite !lookup_alter_ne by done. rewrite lookup_alter_eq.
      rewrite !lookup_alter_ne, lookup_insert_ne, (sf_pnode _ _ _ _ _ _ _ _ _ _ _ Hsf) by done. done.
    + rewrite lookup_insert_ne by done. destruct (decide (x = y)) as [->|Hxy].
      * rewrite lookup_insert_eq, lookup_alter_eq, !lookup_alter_ne by done.
        rewrite lookup_alter_eq, !lookup_alter_ne, lookup_insert_ne, Hm by done. done.
      * rewrite lookup_insert_ne by done. destruct (decide (x = cnt u)) as [->|Hxc].
        -- rewrite lookup_insert_eq, lookup_alter_ne, lookup_alter_eq, !lookup_alter_ne by done.
           rewrite lookup_alter_eq, lookup_insert_eq. simpl. f_equal. unfold rehash, split_new. simpl.
           f_equal. exact (sf_parent _ _ _ _ _ _ _ _ _ _ _ Hsf).
        -- by rewrite lookup_insert_ne, !lookup_alter_ne, lookup_insert_ne by done.
  - exact (alter_insert_eq (w_ckpts u) (cnt u) (fun _ => (None, 0)) (None, 0)).
  - reflexivity.
  - cbn [w_list w_mamba w_relist w_nodes split_view w_fresh]. by destruct (has_ckpt (w_ckpts u) y).
Qed.

(** *** Descending *)

(** The child a descent enters, and the pages they share. *)
Lemma minv_child exc u L H' x n k ck child :
  minv exc u L H' -> x ∈ L -> w_cores u !! x = Some n -> (psz u ≤ key_len k)%nat ->
  head (pages (psz u) k) = Some ck -> dict_get (co_children n) ck = Some child ->
  exists cn i, w_cores u !! child = Some cn /\ child ∈ L /\ child ≠ rt u /\ co_parent cn = Some x /\
    co_value cn = Some (co_val cn) /\ i = lcp (pages (psz u) (co_key cn)) (pages (psz u) k) /\ (0 < i)%nat /\
    (i * psz u ≤ key_len k)%nat /\ match_ (co_key cn) k (psz u) = Ok (i * psz u)%nat /\
    ((i * psz u < key_len (co_key cn) /\ i < length (pages (psz u) (co_key cn)) \/
      key_len (co_key cn) ≤ i * psz u /\ i = length (pages (psz u) (co_key cn)))%nat).
Proof.
  intros Hinv Hx Hn Ha Hck Hd. pose proof (minv_shape Hinv) as Hs. pose proof (minv_ps Hinv) as Hps.
  destruct (sh_child _ _ _ _ Hs _ _ _ _ Hx Hn Hd) as (HcL & Hcr & cn & Hcn & Hp & _).
  destruct (core_match (psz u) (rt u) (w_cores u) L x n k ck child cn) as (_ & _ & Hca & Hlen & Hv & Hpos & Hm);
    try done.
  exists cn, (lcp (pages (psz u) (co_key cn)) (pages (psz u) k)). split_and!; try done.
  - pose proof (lcp_le_r (pages (psz u) (co_key cn)) (pages (psz u) k)) as Hle. rewrite (pages_length (psz u)) in Hle.
    pose proof (Nat.Div0.mul_div_le (key_len k) (psz u)). nia.
  - pose proof (lcp_le_l (pages (psz u) (co_key cn)) (pages (psz u) k)). rewrite Hlen. nia.
Qed.

(** The node and view a descent that ends at [st] leaves behind. *)
Definition mlanded u L (st : stop) (last : nat) u' : Prop :=
  match st with
  | AtNode y => last = y /\ u' = u
  | Inside y i => last = cnt u /\
      exists m p pn ck c' h1 h2, split_facts_of u L y i m p pn ck c' h1 h2 /\
        u' = split_view u y i m p pn ck c' h1 h2
  end.

(** The deepest node of a path with a checkpoint; the root if there is none. *)
Definition best (c : ckpts) (r : nat) (l : list nat) : nat :=
  default r (head (filter (fun y => has_ckpt c y = true) l)).

Lemma best_cons c r x l : best c r (x :: l) = if has_ckpt c x then x else best c r l.
Proof.
  unfold best. destruct (has_ckpt c x) eqn:E; [by rewrite filter_cons_True|].
  by rewrite filter_cons_False by (by rewrite E).
Qed.

Lemma best_ext c c' r l : (forall y, y ∈ l -> has_ckpt c' y = has_ckpt c y) -> best c' r l = best c r l.
Proof.
  induction l as [|x l IH]; intros Hc; [done|]. rewrite !best_cons, Hc by left. case_match; [done|].
  apply IH. intros y Hy. apply Hc. by right.
Qed.

(** [next_page] as a step of the code. *)
Lemma sim_next_key u k j ck :
  (0 < psz u)%nat -> aligned (psz u) k -> exists ck',
  sim (if decide (key_len (key_drop (j * psz u) k) = O) then mret ck
       else lift_res (child_key (psz u) (key_drop (j * psz u) k)) : MM child_key_t) u ck' u /\
  (key_len (key_drop (j * psz u) k) ≠ O -> head (pages (psz u) (key_drop (j * psz u) k)) = Some ck').
Proof.
  intros Hps Ha. case_decide as Hz; [exists ck; split; [apply sim_ret|done]|].
  destruct (next_page (psz u) k j Hps Ha Hz) as (c & Hc & Hh). exists c. split; [by apply sim_lift|done].
Qed.

(** The same for a lookup, whose key may end in an incomplete page. *)
Lemma sim_next_lookup u k j ck :
  (0 < psz u)%nat -> lookup_key (psz u) k -> exists ck',
  sim (if decide (key_len (key_drop (j * psz u) k) = O) then mret ck
       else lift_res (child_key (psz u) (key_drop (j * psz u) k)) : MM child_key_t) u ck' u /\
  (key_len (key_drop (j * psz u) k) ≠ O -> child_key (psz u) (key_drop (j * psz u) k) = Ok ck').
Proof.
  intros Hps Ha. case_decide as Hz; [exists ck; split; [apply sim_ret|done]|].
  destruct (child_key_any (psz u) Hps (key_drop (j * psz u) k)) as [c Hc]; [by apply lookup_key_drop|done|].
  exists c. split; [by apply sim_lift|done].
Qed.

(** A lookup goes on only with a whole page. *)
Lemma lookup_page exc u L H' x n k ck child :
  minv exc u L H' -> x ∈ L -> w_cores u !! x = Some n -> lookup_key (psz u) k -> key_len k ≠ O ->
  child_key (psz u) k = Ok ck -> dict_get (co_children n) ck = Some child ->
  (psz u ≤ key_len k)%nat /\ head (pages (psz u) k) = Some ck.
Proof.
  intros Hinv Hx Hn Hk Hz Hck Hd. pose proof (minv_ps Hinv) as Hps. pose proof (minv_shape Hinv) as Hs.
  destruct (sh_child _ _ _ _ Hs x n ck child Hx Hn Hd) as (HcL & Hcr & m & Hm & Hp & Hh).
  destruct (shape_node_ok _ _ _ _ _ _ Hs HcL Hcr Hm) as (Hca & _).
  destruct (decide (psz u ≤ key_len k)%nat) as [Hle|Hlt].
  - destruct (child_key_page (psz u) Hps k Hle) as (c & Hc & Hc'). split; [done|congruence].
  - exfalso. apply (child_key_short (psz u) Hps k ck (co_key m)); try done; [lia|by eapply pages_head_unit].
Qed.

(** A key without a whole page has no page. *)
Lemma lookup_rest u k ck :
  (0 < psz u)%nat -> key_len k ≠ O -> child_key (psz u) k = Ok ck -> pages (psz u) k = [] \/ head (pages (psz u) k) = Some ck.
Proof.
  intros Hps Hz Hck. destruct (decide (psz u ≤ key_len k)%nat) as [Hle|Hlt].
  - destruct (child_key_page (psz u) Hps k Hle) as (c & Hc & Hc'). right. congruence.
  - left. apply length_zero_iff_nil. rewrite (pages_length (psz u)). apply Nat.div_small. lia.
Qed.

Lemma evicted_ckpt (c : ckpts) x n : c !! x = Some (mckpt n) -> mamba_evicted n = negb (has_ckpt c x).
Proof. intros Hc. unfold has_ckpt, mamba_evicted. rewrite Hc. simpl. by destruct (mamba_value n). Qed.

Lemma root_no_ckpt exc u L H' : minv exc u L H' -> has_ckpt (w_ckpts u) (rt u) = false.
Proof. intros Hinv. unfold has_ckpt. by rewrite (ck_root _ _ _ _ _ _ _ _ (mi_ck _ _ _ _ Hinv)). Qed.

Lemma best_step exc u L H' x l w v :
  minv exc u L H' -> up (psz u) (rt u) (w_cores u) x l w v ->
  best (w_ckpts u) (rt u) l = if has_ckpt (w_ckpts u) x then x else best (w_ckpts u) (rt u) (tail l).
Proof.
  intros Hinv Hu. destruct (decide (x = rt u)) as [->|Hne].
  - destruct (up_root_inv _ _ _ _ _ _ Hu) as (-> & _). by rewrite (root_no_ckpt _ _ _ _ Hinv).
  - destruct (up_self _ _ _ _ _ _ _ Hu Hne) as [l' ->]. apply best_cons.
Qed.

(** What a descent has found: the node it stopped at with its path, and the
    deepest checkpoint above. *)
Record found u (last : nat) (l : list nat) w v (value : list (list Z)) (bl : nat) : Prop := Found_ {
  fo_up : up (psz u) (rt u) (w_cores u) last l w v;
  fo_value : concat value = v;
  fo_len : (bl ≤ length value)%nat;
  fo_pieces : Forall (fun q : list Z => q ≠ []) value;
  fo_best : exists lb wb, up (psz u) (rt u) (w_cores u) (best (w_ckpts u) (rt u) (tail l)) lb wb
    (concat (take bl value))
}.

(** The deepest checkpoint when the node itself is taken into account. *)
Lemma found_here exc u L H' x l w v value bl :
  minv exc u L H' -> found u x l w v value bl ->
  let bl' := if has_ckpt (w_ckpts u) x then length value else bl in
  (bl' ≤ length value)%nat /\ exists lb wb, up (psz u) (rt u) (w_cores u) (best (w_ckpts u) (rt u) l) lb wb
    (concat (take bl' value)).
Proof.
  intros Hinv [Hu Hv Hl _ Hb] bl'. rewrite (best_step _ _ _ _ _ _ _ _ Hinv Hu). unfold bl'.
  destruct (has_ckpt (w_ckpts u) x); [|done]. split; [done|]. rewrite firstn_all, Hv. eauto.
Qed.

(** The paths after a split. *)
Lemma split_up_of exc u L H' y i m p pn ck c' h1 h2 :
  minv exc u L H' -> split_facts_of u L y i m p pn ck c' h1 h2 ->
  (forall x l w v, up (psz u) (rt u) (w_cores u) x l w v ->
    up (psz u) (rt u) (w_cores (split_view u y i m p pn ck c' h1 h2)) x (split_path y (cnt u) l) w v) /\
  (forall l w v, up (psz u) (rt u) (w_cores u) p l w v ->
    up (psz u) (rt u) (w_cores (split_view u y i m p pn ck c' h1 h2)) (cnt u) (cnt u :: l)
      (w ++ take i (pages (psz u) (co_key m))) (v ++ take (i * psz u) (co_val m))) /\
  w_cores (split_view u y i m p pn ck c' h1 h2) !! cnt u = Some (split_new (psz u) m i y p c' h1) /\
  (forall w v, stored (psz u) (rt u) (w_cores (split_view u y i m p pn ck c' h1 h2)) (L ∪ {[cnt u]}) w v <->
    stored (psz u) (rt u) (w_cores u) L w v).
Proof.
  intros Hinv [F1 F2 F3 F4 F5 F6 F7 F8 F9]. destruct (mi_tree _ _ _ _ Hinv) as [E HE].
  pose proof (minv_ps Hinv) as Hps. pose proof (minv_shape Hinv) as Hs. destruct (minv_fresh Hinv) as [Hf HfL].
  split_and!.
  - intros x l w v Hu. by eapply split_up.
  - intros l w v Hu. by eapply split_new_path.
  - by eapply split_get_new.
  - intros w v. by eapply split_stored.
Qed.

Lemma match_loop_sim exc L H' fuel : forall u x k ck value bl l w v,
  minv exc u L H' -> x ∈ L -> lookup_key (psz u) k ->
  (key_len k ≠ O -> child_key (psz u) k = Ok ck) -> (key_len k < fuel)%nat ->
  found u x l w v value bl ->
  exists vs j st last bl' l' u',
    sim (m_match_loop fuel x k ck value bl (best (w_ckpts u) (rt u) (tail l))) u
      (value ++ vs, last, bl', best (w_ckpts u') (rt u') (tail l')) u' /\
    desc (psz u) (w_cores u) x (pages (psz u) k) (concat vs) j st /\ mlanded u L st last u' /\
    found u' last l' (w ++ take j (pages (psz u) k)) (v ++ concat vs) (value ++ vs) bl'.
Proof.
  induction fuel as [|fuel IH]; intros u x k ck value bl l w v Hinv Hx Ha Hck Hf Hfo; [lia|].
  pose proof (minv_ps Hinv) as Hps. destruct (minv_lookup Hinv x Hx) as (n & kx & Hn & Hkx).
  destruct (found_here exc u L H' x l w v value bl Hinv Hfo) as [Hbl Hbest].
  destruct (decide (key_len k = O)) as [Hz|Hz].
  { exists [], O, (AtNode x), x, bl, l, u. rewrite take_0, !app_nil_r. split_and!; try done.
    - simpl. eapply sim_read; [exact Hn|]. intros n' _ _ _. rewrite decide_True by done. apply sim_ret.
    - replace (pages (psz u) k) with (@nil child_key_t); [constructor|]. symmetry. apply length_zero_iff_nil.
      by rewrite (pages_length (psz u)), Hz, Nat.Div0.div_0_l. }
  specialize (Hck Hz). destruct (dict_get (co_children n) ck) as [child|] eqn:Hd; cycle 1.
  { exists [], O, (AtNode x), x, bl, l, u. rewrite take_0, !app_nil_r. split_and!; try done; cycle 1.
    { destruct (lookup_rest u k ck Hps Hz Hck) as [->|Hh]; [constructor|by eapply desc_miss_at]. }
    simpl. eapply sim_read; [exact Hn|]. intros n' _ _ ->. simpl in Hd. rewrite decide_False, Hd by done. apply sim_ret. }
  destruct (lookup_page exc u L H' x n k ck child Hinv Hx Hn Ha Hz Hck Hd) as [Hpage Hhead].
  destruct (minv_child exc u L H' x n k ck child Hinv Hx Hn Hpage Hhead Hd) as
    (cn & i & Hcn & HcL & Hcr & Hcp & Hval & Ei & Hpos & Hik & Hmatch & Hcase).
  assert (length (co_val cn) = key_len (co_key cn) /\ (0 < key_len (co_key cn))%nat) as [Hvl Hkpos].
  { destruct (shape_node_ok _ _ _ _ _ _ (minv_shape Hinv) HcL Hcr Hcn) as (Hca & Hlen & _). split; [done|].
    apply (aligned_len (psz u) Hps) in Hca. pose proof (lcp_le_l (pages (psz u) (co_key cn)) (pages (psz u) k)). nia. }
  set (bl1 := if has_ckpt (w_ckpts u) x then length value else bl) in *.
  destruct Hfo as [Hu Hcat Hlen0 Hne0 Hb0].
  destruct Hcase as [[Hlt Hil]|[Hge Hil]].
  - destruct (sim_split exc u L H' child i cn Hinv HcL Hcr Hcn) as (p & pn & ck1 & c' & h1 & h2 & Hsf & Hrun); [lia|].
    assert (p = x) as -> by (pose proof (sf_parent _ _ _ _ _ _ _ _ _ _ _ Hsf); congruence).
    destruct (split_up_of exc u L H' child i cn x pn ck1 c' h1 h2 Hinv Hsf) as (Hold & Hnew & Hnewcore & _).
    exists [take (i * psz u) (co_val cn)], i, (Inside child i), (cnt u), bl1, (cnt u :: l), (split_view u child i cn x pn ck1 c' h1 h2).
    assert (best (w_ckpts (split_view u child i cn x pn ck1 c' h1 h2)) (rt u) l = best (w_ckpts u) (rt u) l) as Ebest.
    { apply best_ext. intros y Hy. unfold has_ckpt. simpl. rewrite lookup_insert_ne; [done|]. intros <-.
      apply (up_nodes _ _ _ _ _ _ _ _ Hu) in Hy. destruct (minv_fresh Hinv) as [Hnone _]. rewrite Hnone in Hy. by destruct Hy. }
    split_and!.
    + simpl. eapply sim_read; [exact Hn|]. intros n' _ Hk' ->. simpl in Hd. rewrite decide_False, Hd by done.
      rewrite (evicted_ckpt _ _ _ Hk').
      eapply sim_read; [exact Hcn|]. intros cn' _ _ ->. sim_step sim_params. sim_step sim_lift; [exact Hmatch|].
      rewrite decide_True by exact Hlt. sim_step Hrun. eapply sim_read; [exact Hnewcore|]. intros nn _ _ Enn.
      sim_step sim_tensor; [exact (f_equal co_value (eq_sym Enn))|].
      replace (best (w_ckpts (split_view u child i (mcore cn') x pn ck1 c' h1 h2)) _ (tail (cnt u :: l)))
        with (if negb (has_ckpt (w_ckpts u) x) then best (w_ckpts u) (rt u) (tail l) else x); cycle 1.
      { simpl tail. etransitivity; [|symmetry; exact Ebest]. rewrite (best_step _ _ _ _ _ _ _ _ Hinv Hu).
        by destruct (has_ckpt (w_ckpts u) x). }
      replace bl1 with (if negb (has_ckpt (w_ckpts u) x) then bl else length value)
        by (unfold bl1; by destruct (has_ckpt (w_ckpts u) x)).
      apply sim_ret.
    + simpl. rewrite app_nil_r. eapply desc_inside_at; [done..|by rewrite Ei|lia].
    + split; [done|]. by do 7 eexists.
    + split.
      * simpl concat. rewrite app_nil_r. rewrite (lcp_take (pages (psz u) (co_key cn)) (pages (psz u) k) i) in Hnew by lia.
        apply Hnew, Hu.
      * by rewrite concat_app, Hcat.
      * rewrite length_app. simpl. unfold bl1 in *. lia.
      * apply Forall_app. split; [done|]. apply Forall_singleton. intros E. apply (f_equal length) in E.
        rewrite length_take, Hvl in E. simpl in E. nia.
      * simpl tail. destruct Hbest as (lb & wb & Hbest). exists (split_path child (cnt u) lb), wb.
        rewrite take_app_le by done. change (rt (split_view u child i cn x pn ck1 c' h1 h2)) with (rt u).
        rewrite Ebest. by apply Hold.
  - destruct (sim_next_lookup u k i ck Hps Ha) as (ck' & Hrun & Hck').
    destruct (IH u child (key_drop (i * psz u) k) ck' (value ++ [co_val cn]) bl1 (child :: l) (w ++ pages (psz u) (co_key cn))
      (v ++ co_val cn)) as (vs & j & st & last & bl' & l' & u' & Hr & Hdesc & Hland & Hfo'); try done.
    { by apply lookup_key_drop. }
    { rewrite key_drop_len. nia. }
    { split; [by eapply up_node|by rewrite concat_app, Hcat; simpl; rewrite app_nil_r|rewrite length_app; simpl; lia| |].
      { apply Forall_app. split; [done|]. apply Forall_singleton. intros E. apply (f_equal length) in E.
        rewrite Hvl in E. simpl in E. lia. }
      simpl tail. by rewrite take_app_le. }
    exists (co_val cn :: vs), (length (pages (psz u) (co_key cn)) + j)%nat, st, last, bl', l', u'.
    rewrite (pages_drop (psz u) Hps), Hil in Hdesc.
    split_and!; [|by eapply desc_through_at; [done..|congruence|]|done|].
    + rewrite cons_middle, app_assoc. simpl.
      eapply sim_read; [exact Hn|]. intros n' _ Hk' ->. simpl in Hd. rewrite decide_False, Hd by done.
      rewrite (evicted_ckpt _ _ _ Hk').
      eapply sim_read; [exact Hcn|]. intros cn' _ _ ->. sim_step sim_params. sim_step sim_lift; [exact Hmatch|].
      rewrite decide_False by (apply Nat.nlt_ge; exact Hge). sim_step sim_tensor; [exact Hval|]. sim_step Hrun.
      simpl tail in Hr. rewrite (best_step _ _ _ _ _ _ _ _ Hinv Hu) in Hr. unfold bl1 in Hr.
      by destruct (has_ckpt (w_ckpts u) x).
    + rewrite <-!app_assoc in Hfo'. simpl in Hfo'.
      rewrite (pages_drop (psz u) Hps), Hil in Hfo'. simpl concat.
      replace (take (length (pages (psz u) (co_key cn)) + j) (pages (psz u) k)) with
        (pages (psz u) (co_key cn) ++ take j (drop (length (pages (psz u) (co_key cn))) (pages (psz u) k))); [done|].
      rewrite <-take_take_drop. f_equal. rewrite <-(lcp_take (pages (psz u) (co_key cn)) (pages (psz u) k)) by lia.
      by rewrite firstn_all.
Qed.

(** The attributes of the cache other than the four sizes. *)
Definition same_rest (s s' : cache) : Prop :=
  m_params s' = m_params s /\ m_root s' = m_root s /\ m_alloc s' = m_alloc s /\ m_pool s' = m_pool s /\
  hit_tokens s' = hit_tokens s /\ miss_tokens s' = miss_tokens s /\
  enable_mamba_extra_buffer s' = enable_mamba_extra_buffer s.

Definition same_sizes (s s' : cache) : Prop :=
  full_evictable_size_ s' = full_evictable_size_ s /\ full_protected_size_ s' = full_protected_size_ s /\
  mamba_evictable_size_ s' = mamba_evictable_size_ s /\ mamba_protected_size_ s' = mamba_protected_size_ s.

(** A descent changes neither content nor checkpoints, nor what any node
    stands for. *)
Lemma mlanded_spec exc u L H' w v j st last u' :
  minv exc u L H' -> desc (psz u) (w_cores u) (rt u) w v j st -> mlanded u L st last u' ->
  exists L', minv exc u' L' H' /\ L ⊆ L' /\ last ∈ L' /\ same_rest (w_base u) (w_base u') /\
    same_sizes (w_base u) (w_base u') /\
    (forall w' v', stored (psz u) (rt u) (w_cores u') L' w' v' <-> stored (psz u) (rt u) (w_cores u) L w' v') /\
    (forall x l w' v', up (psz u) (rt u) (w_cores u) x l w' v' ->
      exists l', up (psz u) (rt u) (w_cores u') x l' w' v') /\
    (forall x, x ∈ L -> w_ckpts u' !! x = w_ckpts u !! x) /\
    (forall x, x ∈ L' -> x ∉ L -> w_ckpts u' !! x = Some (None, 0)).
Proof.
  intros Hinv Hdesc Hland. pose proof (minv_shape Hinv) as Hs. destruct st as [y|y i]; simpl in Hland.
  - destruct Hland as [-> ->]. exists L.
    edestruct (desc_at (psz u) (rt u) (minv_ps Hinv) (w_cores u) L (rt u) w v j (AtNode y)) as (Hy & _);
      [exact Hs|exact (sh_root_in _ _ _ _ Hs)|constructor|exact Hdesc|reflexivity|].
    split_and!; try done. eauto.
  - destruct Hland as (-> & m & p & pn & ck & c' & h1 & h2 & Hsf & ->). exists (L ∪ {[cnt u]}).
    destruct (split_up_of exc u L H' y i m p pn ck c' h1 h2 Hinv Hsf) as (Hold & _ & _ & Hst).
    destruct (minv_fresh Hinv) as [Hf HfL].
    split_and!; [by apply minv_split|set_solver|set_solver|done|done|done|eauto|..]; intros x Hx; simpl.
    + rewrite lookup_insert_ne; [done|]. by intros <-.
    + intros HxL. assert (x = cnt u) as -> by set_solver. by rewrite lookup_insert_eq.
Qed.

Lemma match_helper_sim exc L H' u k :
  minv exc u L H' -> lookup_key (psz u) k -> key_len k ≠ O ->
  exists vs j st last n l u',
    sim (m_match_prefix_helper k) u (vs, best (w_ckpts u') (rt u) l, n) u' /\
    desc (psz u) (w_cores u) (rt u) (pages (psz u) k) (concat vs) j st /\ mlanded u L st last u' /\
    up (psz u) (rt u) (w_cores u') last l (take j (pages (psz u) k)) (concat vs) /\ (n ≤ length vs)%nat /\
    Forall (fun q : list Z => q ≠ []) vs /\
    exists lb wb, up (psz u) (rt u) (w_cores u') (best (w_ckpts u') (rt u) l) lb wb (concat (take n vs)).
Proof.
  intros Hinv Ha Hz. pose proof (minv_ps Hinv) as Hps. pose proof (minv_shape Hinv) as Hs.
  destruct (child_key_any (psz u) Hps k Ha Hz) as (ck & Hck).
  destruct (match_loop_sim exc L H' (S (key_len k)) u (rt u) k ck [] 0 [] [] []) as
    (vs & j & st & last & bl & l & u' & Hr & Hdesc & Hland & Hfo); try done; [by apply sh_root_in with (1 := Hs)|lia| |].
  { split; [constructor|done|done|constructor|]. exists [], []. constructor. }
  destruct (mlanded_spec exc u L H' _ _ _ _ _ _ Hinv Hdesc Hland) as (L' & Hinv' & _ & HlastL & (Ep & Er & _) & _).
  destruct (found_here exc u' L' H' last l _ _ _ _ Hinv' Hfo) as [Hbl Hbest].
  destruct Hfo as [Hu Hcat Hlen Hne Hb]. simpl in *. rewrite Er, Ep in *.
  set (n := if has_ckpt (w_ckpts u') last then length vs else bl) in *.
  exists vs, j, st, last, n, l, u'. split_and!; try done.
  unfold m_match_prefix_helper. sim_step sim_root. sim_step sim_params. sim_step sim_lift; [exact Hck|].
  sim_step Hr. destruct (minv_lookup Hinv' last HlastL) as (m & km & Hm & _).
  eapply sim_read; [exact Hm|]. intros nl _ Hk _. rewrite (evicted_ckpt _ _ _ Hk).
  assert (up (psz u') (rt u') (w_cores u') last l (take j (pages (psz u) k)) (concat vs)) as Hu' by (by rewrite Er, Ep).
  pose proof (best_step _ _ _ _ _ _ _ _ Hinv' Hu') as Eb. rewrite Er in Eb. rewrite Eb. unfold n.
  destruct (has_ckpt (w_ckpts u') last); apply sim_ret.
Qed.
End run.
