(* ===== verification/MambaHold.v ===== *)
(** * The prefix cache of hybrid models: holders and recency

    [inc_lock_ref] and [dec_lock_ref] add and remove one holder of a path and
    of the checkpoint at its end; moving a path to the front of the two lists
    changes nothing but their order. *)

From S2P Require Import Prelude PyDict RadixKey KvEvents RadixTree RadixOps RadixInv RadixMoves.
From S2P Require Import RadixState RadixLocks RadixRun RadixEvents RadixInsert RadixSpec RadixEvict RadixLockOps.
From S2P Require Import MambaTree MambaOps LruFacts MambaView MambaRules MambaInv MambaRun.

Section hold.
Context {A P : Type} `{KvFree A} `{!KvFreeTotal A} `{MambaSlots P} `{Sha256} `{!Sha256Laws}.
Implicit Types (s : MambaRadixCache A P) (u : mview A P) (L exc : gset nat) (x y p : nat).
Abbreviation cache := (MambaRadixCache A P).
Abbreviation MM := (M (MambaRadixCache A P)).
Abbreviation prm u := (m_params (w_base u)).
Abbreviation psz u := (page_size (m_params (w_base u))).
Abbreviation rt u := (m_root (w_base u)).
Abbreviation cnt u := (m_counter (w_base u)).

Lemma mu_full_add a b c d s : mu_full a b (mu_full c d s) = mu_full (c + a) (d + b) s.
Proof. unfold mu_full. simpl. by rewrite !Z.add_assoc. Qed.

Lemma mu_full_0 s : mu_full 0 0 s = s.
Proof. destruct s. unfold mu_full. simpl. by rewrite !Z.add_0_r. Qed.

Lemma w_upd_same u : w_upd (mu_full 0 0) u = u.
Proof. unfold w_upd. rewrite mu_full_0. by destruct u. Qed.

(** What the walks need to know about the nodes of the path: their values
    are as long as their keys. *)
Definition sized u (l : list nat) : Prop :=
  forall x n, x ∈ l -> w_cores u !! x = Some n -> co_value n = Some (co_val n) /\ len (co_val n) = co_len n.

Lemma minv_sized exc u L H' x l w v : minv exc u L H' -> x ∈ L -> up (psz u) (rt u) (w_cores u) x l w v -> sized u l.
Proof.
  intros Hinv Hx Hu y n Hy Hn. pose proof (minv_shape Hinv) as Hs.
  assert (y ≠ rt u) as Hyr by (intros ->; by apply (up_not_root _ _ _ _ _ _ _ Hu)).
  destruct (shape_node_ok _ _ _ _ _ _ Hs (shape_up_live _ _ _ _ _ _ _ _ Hs Hx Hu y Hy) Hyr Hn) as (_ & Hlen & v' & Hv).
  split; [unfold co_val; by rewrite Hv|]. unfold len, co_len. by rewrite Hlen.
Qed.

(** One node of the walk. *)
Definition hold_one (d : Z) (x : nat) (a : Z) u : mview A P :=
  w_nodes (alter (add_lock d) x) id (w_upd (mu_full a (- a)) u).

Lemma hold_one_path d x l a a' u :
  x ∉ l -> hold_path d l a' (hold_one d x a u) = hold_path d (x :: l) (a + a') u.
Proof.
  intros Hx. unfold hold_path, hold_one. apply mview_ext; cbn [w_base w_upd w_nodes w_cores w_ckpts w_full w_mamba]; try done.
  - rewrite mu_full_add. f_equal. lia.
  - by apply relock_alter.
Qed.

Lemma hold_one_up d x a u y l w v r ps :
  up ps r (w_cores u) y l w v -> up ps r (w_cores (hold_one d x a u)) y l w v.
Proof.
  intros Hu. eapply up_frame; [exact Hu|]. intros z n Hz Hn. simpl. destruct (decide (z = x)) as [->|Hne].
  - rewrite lookup_alter_eq, Hn. by eexists.
  - rewrite lookup_alter_ne by done. eauto.
Qed.

Lemma hold_one_sized d x a u l : sized u l -> sized (hold_one d x a u) l.
Proof.
  intros Hs y n Hy. simpl. destruct (decide (y = x)) as [->|Hne].
  - rewrite lookup_alter_eq. destruct (w_cores u !! x) as [m|] eqn:Hm; [|done]. intros [= <-]. by apply (Hs x m).
  - rewrite lookup_alter_ne by done. by apply Hs.
Qed.

Lemma lock_loop_inc l : forall fuel y u w v,
  up (psz u) (rt u) (w_cores u) y l w v -> sized u l ->
  (forall x n, x ∈ l -> w_cores u !! x = Some n -> 0 <= co_lock n) -> (length l < fuel)%nat ->
  sim (m_inc_lock_loop fuel y) u tt (hold_path 1 l (- path_len (g := w_cores u) l 0) u).
Proof.
  induction l as [|y0 l IH]; intros fuel y u w v Hu Hw Hnn Hf; (destruct fuel as [|fuel]; [simpl in Hf; lia|]);
    cbn [m_inc_lock_loop]; sim_step sim_root.
  { inversion Hu; simplify_eq. rewrite decide_True by done. unfold hold_path, path_len. simpl.
    change (w_nodes (relock 1 []) id u) with (w_nodes id id u). eapply sim_view_eq; [apply sim_ret|].
    change (- (0)) with 0. replace (w_nodes id id u) with u by (by destruct u). by rewrite w_upd_same. }
  pose proof (up_NoDup _ _ _ _ _ _ _ Hu) as [Hnin Hnd]%NoDup_cons.
  inversion Hu as [|? n0 p l0 w0 v0 Hyr Hg Hp Hu0]; subst. rewrite decide_False by done.
  destruct (Hw y0 n0 ltac:(left) Hg) as [Hval Hlen]. pose proof (Hnn y0 n0 ltac:(left) Hg) as Hlk.
  eapply sim_read; [exact Hg|]. intros n _ _ ->. simpl in Hlk, Hp.
  sim_step sim_assert; [by apply bool_decide_eq_true_2|].
  set (a := if decide (full_lock_ref n = 0) then - co_len (mcore n) else 0).
  eapply sim_bind with (u1 := w_upd (mu_full a (- a)) u) (a := tt).
  { unfold a. destruct (decide (full_lock_ref n = 0)).
    - sim_step sim_tensor; [exact Hval|]. rewrite Hlen, Z.opp_involutive. apply sim_modify, base_only_full.
    - eapply sim_view_eq; [apply sim_ret|]. by rewrite w_upd_same. }
  cbv beta. eapply sim_bind with (u1 := hold_one 1 y0 a u) (a := tt); [by apply sim_mset_core|]. cbv beta.
  sim_step sim_deref; [exact Hp|].
  eapply sim_view_eq; [eapply (IH fuel p (hold_one 1 y0 a u) w0 v0)|].
  - by apply hold_one_up.
  - apply hold_one_sized. intros x m Hx. apply Hw. by right.
  - intros x m Hx Hm. simpl in Hm. rewrite lookup_alter_ne in Hm by set_solver. apply (Hnn x m); [by right|done].
  - simpl in Hf. lia.
  - rewrite hold_one_path by done. f_equal. unfold path_len. cbn [w_cores hold_one w_nodes w_upd sumZ foldr].
    rewrite lock_len_alter by done. unfold size_if at 2. rewrite Hg. unfold a. simpl.
    unfold sumZ. case_bool_decide; destruct (decide (full_lock_ref n = 0)); try done; lia.
Qed.

Lemma lock_loop_dec l : forall fuel y u w v,
  up (psz u) (rt u) (w_cores u) y l w v -> sized u l ->
  (forall x n, x ∈ l -> w_cores u !! x = Some n -> 0 < co_lock n) -> (length l < fuel)%nat ->
  sim (m_dec_lock_loop fuel y) u tt (hold_path (-1) l (path_len (g := w_cores u) l 1) u).
Proof.
  induction l as [|y0 l IH]; intros fuel y u w v Hu Hw Hnn Hf; (destruct fuel as [|fuel]; [simpl in Hf; lia|]);
    cbn [m_dec_lock_loop]; sim_step sim_root.
  { inversion Hu; simplify_eq. rewrite decide_True by done. unfold hold_path, path_len. simpl.
    change (w_nodes (relock (-1) []) id u) with (w_nodes id id u). eapply sim_view_eq; [apply sim_ret|].
    change (- (0)) with 0. replace (w_nodes id id u) with u by (by destruct u). by rewrite w_upd_same. }
  pose proof (up_NoDup _ _ _ _ _ _ _ Hu) as [Hnin Hnd]%NoDup_cons.
  inversion Hu as [|? n0 p l0 w0 v0 Hyr Hg Hp Hu0]; subst. rewrite decide_False by done.
  destruct (Hw y0 n0 ltac:(left) Hg) as [Hval Hlen]. pose proof (Hnn y0 n0 ltac:(left) Hg) as Hlk.
  eapply sim_read; [exact Hg|]. intros n _ _ ->. simpl in Hlk, Hp.
  sim_step sim_assert; [by apply bool_decide_eq_true_2|].
  set (a := if decide (full_lock_ref n = 1) then co_len (mcore n) else 0).
  eapply sim_bind with (u1 := w_upd (mu_full a (- a)) u) (a := tt).
  { unfold a. destruct (decide (full_lock_ref n = 1)).
    - sim_step sim_tensor; [exact Hval|]. rewrite Hlen. apply sim_modify, base_only_full.
    - eapply sim_view_eq; [apply sim_ret|]. by rewrite w_upd_same. }
  cbv beta. eapply sim_bind with (u1 := hold_one (-1) y0 a u) (a := tt); [by apply sim_mset_core|]. cbv beta.
  sim_step sim_deref; [exact Hp|].
  eapply sim_view_eq; [eapply (IH fuel p (hold_one (-1) y0 a u) w0 v0)|].
  - by apply hold_one_up.
  - apply hold_one_sized. intros x m Hx. apply Hw. by right.
  - intros x m Hx Hm. simpl in Hm. rewrite lookup_alter_ne in Hm by set_solver. apply (Hnn x m); [by right|done].
  - simpl in Hf. lia.
  - rewrite hold_one_path by done. f_equal. unfold path_len. cbn [w_cores hold_one w_nodes w_upd sumZ foldr].
    rewrite lock_len_alter by done. unfold size_if at 2. rewrite Hg. unfold a. simpl.
    unfold sumZ. case_bool_decide; destruct (decide (full_lock_ref n = 1)); try done; lia.
Qed.

(** *** The operations *)

(** Views after acquiring and releasing [x], whose path is [l]. *)
Definition acquired u x (l : list nat) : mview A P :=
  hold_path 1 l (- path_len (g := w_cores u) l 0) (hold_ckpt 1 u x).
Definition released u x (l : list nat) : mview A P :=
  hold_path (-1) l (path_len (g := w_cores u) l 1) (hold_ckpt (-1) u x).

Lemma hold_ckpt_base d u x : same_rest (w_base u) (w_base (hold_ckpt d u x)).
Proof. destruct (hold_ckpt_view d u x) as (_ & _ & _ & _ & _ & _ & a & ->). done. Qed.

(** The first statement of both operations. *)
Lemma sim_inc_ckpt u x n :
  w_ckpts u !! x = Some (mckpt n) -> 0 <= mamba_lock_ref n ->
  sim (match mamba_value n with
       | Some mv =>
           (if decide (mamba_lock_ref n = 0) then modify (mu_mamba (- len mv) (len mv)) else mret tt) ≫= fun _ =>
           mset x (fun m => n_set_locks (full_lock_ref m) (mamba_lock_ref m + 1) m)
       | None => mret tt
       end) u tt (hold_ckpt 1 u x).
Proof.
  intros Hk Hz. unfold hold_ckpt. rewrite Hk. unfold mckpt. destruct (mamba_value n) as [mv|]; [|apply sim_ret].
  set (moved := if decide (mamba_lock_ref n = 0) then - len mv
    else if decide (mamba_lock_ref n + 1 = 0) then len mv else 0).
  eapply sim_bind with (u1 := w_upd (mu_mamba moved (- moved)) u) (a := tt).
  - unfold moved. destruct (decide (mamba_lock_ref n = 0)).
    + rewrite Z.opp_involutive. apply sim_modify, base_only_mamba.
    + rewrite decide_False by lia. eapply sim_view_eq; [apply sim_ret|].
      apply mview_ext; try done. cbn [w_base w_upd]. destruct (w_base u). unfold mu_mamba. simpl. by rewrite !Z.add_0_r.
  - eapply sim_view_eq; [by apply (sim_mset_ckpt _ _ (fun k => (k.1, k.2 + 1)))|reflexivity].
Qed.

Lemma sim_dec_ckpt u x n :
  w_ckpts u !! x = Some (mckpt n) -> (mamba_value n ≠ None -> 0 < mamba_lock_ref n) ->
  sim (match mamba_value n with
       | Some mv =>
           massert (bool_decide (0 < mamba_lock_ref n)) "dec_lock_ref on node" ≫= fun _ =>
           (if decide (mamba_lock_ref n = 1) then modify (mu_mamba (len mv) (- len mv)) else mret tt) ≫= fun _ =>
           mset x (fun m => n_set_locks (full_lock_ref m) (mamba_lock_ref m - 1) m)
       | None => mret tt
       end) u tt (hold_ckpt (-1) u x).
Proof.
  intros Hk Hz. unfold hold_ckpt. rewrite Hk. unfold mckpt. destruct (mamba_value n) as [mv|]; [|apply sim_ret].
  specialize (Hz ltac:(done)). sim_step sim_assert; [by apply bool_decide_eq_true_2|].
  set (moved := if decide (mamba_lock_ref n = 0) then - len mv
    else if decide (mamba_lock_ref n + -1 = 0) then len mv else 0).
  eapply sim_bind with (u1 := w_upd (mu_mamba moved (- moved)) u) (a := tt).
  - replace moved with (if decide (mamba_lock_ref n = 1) then len mv else 0)
      by (unfold moved; repeat case_decide; lia).
    destruct (decide (mamba_lock_ref n = 1)).
    + apply sim_modify, base_only_mamba.
    + eapply sim_view_eq; [apply sim_ret|].
      apply mview_ext; try done. cbn [w_base w_upd]. destruct (w_base u). unfold mu_mamba. simpl. by rewrite !Z.add_0_r.
  - eapply sim_view_eq; [by apply (sim_mset_ckpt _ _ (fun k => (k.1, k.2 + -1)))|reflexivity].
Qed.

Lemma sim_inc_lock exc u L H' x l w v :
  minv exc u L H' -> disable (prm u) = false -> x ∈ L -> up (psz u) (rt u) (w_cores u) x l w v ->
  sim (m_inc_lock_ref x) u tt (acquired u x l).
Proof.
  intros Hinv Hdis Hx Hu. unfold m_inc_lock_ref. sim_step sim_prm. rewrite Hdis.
  destruct (minv_lookup Hinv x Hx) as (m & k & Hm & Hk). destruct (hold_ckpt_view 1 u x) as (Ec & _).
  destruct (hold_ckpt_base 1 u x) as (Ep & Er & _).
  assert (0 <= k.2) as Hz.
  { pose proof (mi_ck _ _ _ _ Hinv) as Hck. destruct (decide (x = rt u)) as [->|Hr].
    - rewrite (ck_root _ _ _ _ _ _ _ _ Hck) in Hk. by injection Hk as <-.
    - destruct (ck_node _ _ _ _ _ _ _ _ Hck x Hx Hr) as (o & E & _). rewrite Hk in E. injection E as ->. apply held_nonneg. }
  eapply sim_read; [exact Hm|]. intros n _ Hkn ->. rewrite Hk in Hkn. injection Hkn as ->.
  sim_step sim_inc_ckpt; [done|done|]. sim_step sim_fuel. unfold acquired. rewrite <-Ec.
  eapply (lock_loop_inc l _ x _ w v); rewrite ?Ec, ?Ep, ?Er; try done.
  - intros y n' Hy. rewrite Ec. by apply (minv_sized exc u L H' x l w v).
  - intros y n' Hy Hn'. destruct (mi_tree _ _ _ _ Hinv) as [E HE]. eapply (inv_lock_nonneg HE y); [|done].
    by apply (shape_up_live _ _ _ _ _ _ _ _ (minv_shape Hinv) Hx Hu).
  - apply up_fuel in Hu. lia.
Qed.

Lemma sim_dec_lock exc u L H' H0' x l w v :
  minv exc u L H0' -> disable (prm u) = false -> H0' ≡ₚ x :: H' -> up (psz u) (rt u) (w_cores u) x l w v ->
  sim (m_dec_lock_ref x) u tt (released u x l).
Proof.
  intros Hinv Hdis HH Hu. unfold m_dec_lock_ref. sim_step sim_prm. rewrite Hdis.
  assert (x ∈ H0') as HxH by (rewrite HH; left). pose proof (minv_held_live Hinv x HxH) as Hx.
  destruct (minv_lookup Hinv x Hx) as (m & k & Hm & Hk). destruct (hold_ckpt_view (-1) u x) as (Ec & _).
  destruct (hold_ckpt_base (-1) u x) as (Ep & Er & _).
  eapply sim_read; [exact Hm|]. intros n _ Hkn ->. rewrite Hk in Hkn. injection Hkn as ->.
  sim_step sim_dec_ckpt; [done| |].
  { intros Hmv. pose proof (mi_ck _ _ _ _ Hinv) as Hck. destruct (decide (x = rt u)) as [->|Hr].
    - rewrite (ck_root _ _ _ _ _ _ _ _ Hck) in Hk. injection Hk as E _. by rewrite <-E in Hmv.
    - destruct (ck_node _ _ _ _ _ _ _ _ Hck x Hx Hr) as (o & E & _). rewrite Hk in E. injection E as _ E.
      rewrite E. pose proof (held_nonneg H0' x). destruct (decide (held H0' x = 0)) as [E0|]; [by apply held_zero in E0|lia]. }
  sim_step sim_fuel. unfold released. rewrite <-Ec.
  eapply (lock_loop_dec l _ x _ w v); rewrite ?Ec, ?Ep, ?Er; try done.
  - intros y n' Hy. rewrite Ec. by apply (minv_sized exc u L H0' x l w v).
  - intros y n' Hy Hn'. destruct (mi_tree _ _ _ _ Hinv) as [E HE]. by eapply (inv_held_locked HE x).
  - apply up_fuel in Hu. lia.
Qed.

(** *** Recency *)

Lemma path_front_perm b u path (l : list nat) :
  NoDup path -> NoDup l -> (forall y, y ∈ path -> carries b u y = true -> y ∈ l) -> path_front b u path l ≡ₚ l.
Proof.
  intros Hp Hl Hin. unfold path_front. set (pl := filter _ path). apply NoDup_Permutation; [|done|].
  - apply NoDup_app. split_and!; [by apply NoDup_filter| |by apply NoDup_filter].
    intros y Hy Hy'. by apply list_elem_of_filter in Hy' as [Hy' _].
  - intros y. rewrite elem_of_app, list_elem_of_filter. destruct (decide (y ∈ pl)) as [Hy|Hy]; [|tauto].
    split; [intros _|by left]. unfold pl in Hy. apply list_elem_of_filter in Hy as [Hc Hy]. by apply Hin.
Qed.

(** Both lists with a path moved to the front. *)
Definition touched u (path : list nat) : mview A P :=
  MView (w_base u) (w_cores u) (w_ckpts u) (path_front false u path (w_full u)) (path_front true u path (w_mamba u)).

Lemma touched_ok exc u L H' x l w v :
  minv exc u L H' -> x ∈ L -> up (psz u) (rt u) (w_cores u) x l w v ->
  minv exc (touched u l) L H' /\ exists u1,
    sim (reset_node_and_parents_mru false x (rt u)) u tt u1 /\
    sim (reset_node_and_parents_mru true x (rt u)) u1 tt (touched u l).
Proof.
  intros Hinv Hx Hu. pose proof (minv_shape Hinv) as Hs.
  assert (forall b y, y ∈ l -> carries b u y = true -> y ∈ w_list b u) as Hin.
  { intros b y Hy Hc. pose proof (shape_up_live _ _ _ _ _ _ _ _ Hs Hx Hu y Hy) as HyL.
    assert (y ≠ rt u) as Hyr by (intros ->; by apply (up_not_root _ _ _ _ _ _ _ Hu)).
    destruct b; [by apply (minv_mamba Hinv)|by apply (minv_full Hinv)]. }
  pose proof (mi_ck _ _ _ _ Hinv) as Hck. split.
  - apply (minv_permute Hinv); apply path_front_perm; try (by eapply up_NoDup); try apply Hck;
      [exact (Hin false)|exact (Hin true)].
  - eexists. split; [eapply sim_reset_path; [exact Hu|apply Hin]|].
    eapply sim_view_eq; [eapply (sim_reset_path true); [exact Hu|]|done]. intros y. apply (Hin true).
Qed.

Lemma sim_touch_path ps r l : forall fuel u x w v t,
  up ps r (w_cores u) x l w v -> (exists n, w_cores u !! r = Some n /\ co_parent n = None) -> (length l < fuel)%nat ->
  sim (touch_path fuel (Some x) t) u tt u.
Proof.
  induction l as [|y l IH]; intros fuel u x w v t Hu Hr Hf; (destruct fuel as [|fuel]; [simpl in Hf; lia|]); simpl.
  - inversion Hu; subst. sim_step sim_access. destruct Hr as (n & Hn & Hp). eapply sim_read; [exact Hn|].
    intros n' _ _ ->. simpl in Hp. rewrite Hp. destruct fuel; apply sim_ret.
  - inversion Hu as [|? n p ? ? ? Hxr Hn Hp Hu0]; subst. sim_step sim_access. eapply sim_read; [exact Hn|].
    intros n' _ _ ->. simpl in Hp. rewrite Hp. eapply IH; [exact Hu0|done|simpl in Hf; lia].
Qed.
End hold.
