(* ===== verification/MambaShrink.v ===== *)
(** * The prefix cache of hybrid models: what eviction takes away

    [shrunk u L u' L' vs mvs]: the view [u'] is [u] after some nodes and
    checkpoints have been evicted; [vs] and [mvs] are the KV slots and the
    checkpoints returned to their pools.  What is left is as it was, in the
    same order of recency.  Cutting off a leaf and dropping the checkpoint of
    an inner node are such steps, and steps compose. *)

From S2P Require Import Prelude PyDict RadixKey KvEvents RadixTree RadixOps RadixInv RadixMoves.
From S2P Require Import RadixState RadixLocks RadixRun RadixEvents RadixInsert RadixSpec RadixEvict RadixLockOps.
From S2P Require Import RadixSlots MambaTree MambaOps LruFacts MambaView MambaRules MambaInv MambaRun MambaHold.

Definition ck_occ (i : Z) (c : ckpts) (x : nat) : Z :=
  match c !! x with Some (Some mv, _) => occ i mv | _ => 0 end.

(** The pool of recurrent states after a series of calls of [free]. *)
Definition pool_free_all {P} `{MambaSlots P} (ls : list (list Z)) (p : P) : P := foldl (fun p l => ms_free l p) p ls.

Section shrink.
Context {A P : Type} `{KvFree A} `{!KvFreeTotal A} `{MambaSlots P} `{Sha256} `{!Sha256Laws}.
Implicit Types (s : MambaRadixCache A P) (u : mview A P) (L exc : gset nat) (x y p : nat).
Abbreviation cache := (MambaRadixCache A P).
Abbreviation MM := (M (MambaRadixCache A P)).
Abbreviation prm u := (m_params (w_base u)).
Abbreviation psz u := (page_size (m_params (w_base u))).
Abbreviation rt u := (m_root (w_base u)).
Abbreviation cnt u := (m_counter (w_base u)).

(** Everything but sizes and pools. *)
Definition same_frame (s s' : cache) : Prop :=
  m_params s' = m_params s /\ m_root s' = m_root s /\ m_counter s' = m_counter s /\
  hit_tokens s' = hit_tokens s /\ miss_tokens s' = miss_tokens s /\
  enable_mamba_extra_buffer s' = enable_mamba_extra_buffer s /\ forall b, lru b s' = lru b s.

Record shrunk u L u' L' (vs mvs : list (list Z)) : Prop := Shrunk {
  sk_live : L' ⊆ L;
  sk_up x l w v : x ∈ L' -> up (psz u) (rt u) (w_cores u) x l w v -> up (psz u) (rt u) (w_cores u') x l w v;
  sk_lock x m : x ∈ L' -> w_cores u !! x = Some m -> exists m', w_cores u' !! x = Some m' /\ co_lock m' = co_lock m;
  sk_ckpt x : x ∈ L' -> w_ckpts u' !! x = w_ckpts u !! x \/
    exists mv, w_ckpts u !! x = Some (Some mv, 0) /\ w_ckpts u' !! x = Some (None, 0);
  sk_full : w_full u' = filter (fun y => y ∈ L') (w_full u);
  sk_mamba : w_mamba u' = filter (fun y => y ∈ L' /\ has_ckpt (w_ckpts u') y = true) (w_mamba u);
  sk_frame : same_frame (w_base u) (w_base u');
  sk_alloc : m_alloc (w_base u') = free_all vs (m_alloc (w_base u));
  sk_pool : m_pool (w_base u') = pool_free_all mvs (m_pool (w_base u));
  sk_fev : full_evictable_size_ (w_base u') = full_evictable_size_ (w_base u) - sumZ len vs;
  sk_fpr : full_protected_size_ (w_base u') = full_protected_size_ (w_base u);
  sk_mev : mamba_evictable_size_ (w_base u') = mamba_evictable_size_ (w_base u) - sumZ len mvs;
  sk_mpr : mamba_protected_size_ (w_base u') = mamba_protected_size_ (w_base u);
  sk_ok : alloc_ok (m_alloc (w_base u)) -> alloc_ok (m_alloc (w_base u'));
  sk_occ i : set_sum (core_occ i (w_cores u')) L' + occ i (concat vs) = set_sum (core_occ i (w_cores u)) L;
  sk_ckocc i : set_sum (ck_occ i (w_ckpts u')) L' + occ i (concat mvs) = set_sum (ck_occ i (w_ckpts u)) L;
  sk_size : size (w_cores u') = size (w_cores u)
}.

Lemma has_ckpt_shrunk u L u' L' vs mvs x :
  shrunk u L u' L' vs mvs -> x ∈ L' -> has_ckpt (w_ckpts u') x = true -> w_ckpts u' !! x = w_ckpts u !! x.
Proof.
  intros Hsk Hx Hh. destruct (sk_ckpt _ _ _ _ _ _ Hsk x Hx) as [?|(mv & _ & E)]; [done|].
  unfold has_ckpt in Hh. by rewrite E in Hh.
Qed.

Lemma shrunk_trans u1 L1 u2 L2 u3 L3 vs mvs vs' mvs' :
  shrunk u1 L1 u2 L2 vs mvs -> shrunk u2 L2 u3 L3 vs' mvs' -> shrunk u1 L1 u3 L3 (vs ++ vs') (mvs ++ mvs').
Proof.
  intros H12 H23.
  destruct (sk_frame _ _ _ _ _ _ H12) as (E1 & E2 & E3 & E4 & E5 & E6 & E7).
  destruct (sk_frame _ _ _ _ _ _ H23) as (F1 & F2 & F3 & F4 & F5 & F6 & F7).
  pose proof (sk_live _ _ _ _ _ _ H12) as L12. pose proof (sk_live _ _ _ _ _ _ H23) as L23. split.
  - set_solver.
  - intros x l w v Hx Hu. apply (sk_up _ _ _ _ _ _ H12) in Hu; [|set_solver].
    rewrite <-E1, <-E2 in Hu |- *. by apply (sk_up _ _ _ _ _ _ H23).
  - intros x m Hx Hm. destruct (sk_lock _ _ _ _ _ _ H12 x m) as (m2 & Hm2 & <-); [set_solver|done|].
    by apply (sk_lock _ _ _ _ _ _ H23).
  - intros x Hx. destruct (sk_ckpt _ _ _ _ _ _ H12 x) as [<-|(mv & Ha & Hb)]; [set_solver| |].
    + apply (sk_ckpt _ _ _ _ _ _ H23 x Hx).
    + right. exists mv. split; [done|]. destruct (sk_ckpt _ _ _ _ _ _ H23 x Hx) as [->|(mv' & Hc & _)]; [done|congruence].
  - rewrite (sk_full _ _ _ _ _ _ H23), (sk_full _ _ _ _ _ _ H12), list_filter_filter.
    apply list_filter_iff. intros y. set_solver.
  - rewrite (sk_mamba _ _ _ _ _ _ H23), (sk_mamba _ _ _ _ _ _ H12), list_filter_filter.
    apply list_filter_iff. intros y. split; [tauto|]. intros [Hy Hh]. split_and!; [done|done|set_solver|].
    unfold has_ckpt. by rewrite <-(has_ckpt_shrunk _ _ _ _ _ _ y H23 Hy Hh).
  - unfold same_frame. split_and!; congruence.
  - rewrite (sk_alloc _ _ _ _ _ _ H23), (sk_alloc _ _ _ _ _ _ H12). unfold free_all. by rewrite foldl_app.
  - rewrite (sk_pool _ _ _ _ _ _ H23), (sk_pool _ _ _ _ _ _ H12). unfold pool_free_all. by rewrite foldl_app.
  - rewrite (sk_fev _ _ _ _ _ _ H23), (sk_fev _ _ _ _ _ _ H12), sumZ_app. lia.
  - rewrite (sk_fpr _ _ _ _ _ _ H23), (sk_fpr _ _ _ _ _ _ H12). done.
  - rewrite (sk_mev _ _ _ _ _ _ H23), (sk_mev _ _ _ _ _ _ H12), sumZ_app. lia.
  - rewrite (sk_mpr _ _ _ _ _ _ H23), (sk_mpr _ _ _ _ _ _ H12). done.
  - intros Hok. by apply (sk_ok _ _ _ _ _ _ H23), (sk_ok _ _ _ _ _ _ H12).
  - intros i. rewrite <-(sk_occ _ _ _ _ _ _ H12 i), <-(sk_occ _ _ _ _ _ _ H23 i), concat_app, occ_app. lia.
  - intros i. rewrite <-(sk_ckocc _ _ _ _ _ _ H12 i), <-(sk_ckocc _ _ _ _ _ _ H23 i), concat_app, occ_app. lia.
  - by rewrite (sk_size _ _ _ _ _ _ H23), (sk_size _ _ _ _ _ _ H12).
Qed.

Lemma shrunk_refl exc u L H' : minv exc u L H' -> shrunk u L u L [] [].
Proof.
  intros Hinv. pose proof (mi_ck _ _ _ _ Hinv) as Hck. split; try done; eauto.
  - symmetry. apply filter_id. intros x Hx. by apply (minv_full Hinv) in Hx as [? _].
  - symmetry. apply filter_id. intros x Hx. by apply (minv_mamba Hinv) in Hx as (? & _ & ?).
  - unfold sumZ. simpl. lia.
  - unfold sumZ. simpl. lia.
  - intros i. rewrite occ_nil. lia.
  - intros i. rewrite occ_nil. lia.
Qed.

(** ** Leaves *)

(** What is known about a leaf that nobody holds. *)
Record leaf_of u L x (n : core_t) (o : option (list Z)) (p : nat) (pn : core_t) (c : child_key_t) : Prop := LeafOf {
  lf_live : x ∈ L;
  lf_root : x ≠ rt u;
  lf_node : w_cores u !! x = Some n;
  lf_lock : co_lock n = 0;
  lf_leaf : co_children n = [];
  lf_ckpt : w_ckpts u !! x = Some (o, 0);
  lf_parent : co_parent n = Some p;
  lf_plive : p ∈ L;
  lf_pne : p ≠ x;
  lf_pnode : w_cores u !! p = Some pn;
  lf_head : head (pages (psz u) (co_key n)) = Some c;
  lf_key : child_key (psz u) (co_key n) = Ok c;
  lf_filed : dict_get (co_children pn) c = Some x;
  lf_value : co_value n = Some (co_val n);
  lf_len : len (co_val n) = co_len n;
  lf_aligned : aligned (psz u) (co_key n);
  lf_hash : enable_kv_cache_events (prm u) = true -> hashed (psz u) n
}.

Lemma leaf_exists exc u L H' x n :
  minv exc u L H' -> x ∈ L -> x ≠ rt u -> w_cores u !! x = Some n -> co_lock n = 0 -> co_children n = [] ->
  exists o p pn c, leaf_of u L x n o p pn c.
Proof.
  intros Hinv Hx Hr Hn Hl Hc. pose proof (minv_ps Hinv) as Hps. pose proof (minv_shape Hinv) as Hs.
  destruct (minv_lookup Hinv x Hx) as (m & [o z] & _ & Hk).
  assert (z = 0) as -> by (by eapply (minv_lock_mamba Hinv x n)).
  destruct (sh_node _ _ _ _ Hs x Hx Hr) as (n' & p & pn & c & Hn' & (Ha & Hlen & v & Hv) & Hp & HpL & Hpn & Hh & Hd).
  rewrite Hn in Hn'. injection Hn' as <-.
  destruct (child_key_page (psz u) Hps (co_key n)) as (c0 & Hc0 & Hc1).
  { apply (pages_head_unit (psz u) Hps _ c); done. }
  rewrite Hh in Hc1. injection Hc1 as <-. destruct (mi_tree _ _ _ _ Hinv) as [E HE].
  assert (x ∈ E) as HxE by (apply (i_leaves _ _ _ _ _ _ _ _ _ HE); eauto 8).
  destruct (cut_facts x p n pn c HE HxE Hn Hp Hpn Hh) as (_ & _ & _ & _ & _ & _ & Hpx).
  exists o, p, pn, c. split; try done.
  - unfold co_val. by rewrite Hv.
  - unfold len, co_len. by rewrite Hlen.
  - intros He. by eapply (i_hash _ _ _ _ _ _ _ _ _ HE He x).
Qed.

(** A leaf is locked only by its own holders. *)
Lemma unheld_leaf_unlocked exc u L H' x n :
  minv exc u L H' -> x ∈ L -> x ≠ rt u -> w_cores u !! x = Some n -> co_children n = [] -> x ∉ H' -> co_lock n = 0.
Proof.
  intros Hinv Hx Hr Hn Hc HxH. destruct (mi_tree _ _ _ _ Hinv) as [E HE]. pose proof (minv_shape Hinv) as Hs.
  destruct (i_locks _ _ _ _ _ _ _ _ _ HE) as (C & HF & HC). rewrite (HC x n Hx Hr Hn).
  destruct (decide (passing C x = 0)) as [|Hne]; [done|]. exfalso.
  assert (exists l, l ∈ C /\ x ∈ l) as (l & HlC & Hxl).
  { unfold passing in Hne. destruct (filter (fun l => x ∈ l) C) as [|l C'] eqn:EC; [done|]. exists l.
    assert (l ∈ filter (fun l => x ∈ l) C) as Hl by (rewrite EC; left). by apply list_elem_of_filter in Hl as [? ?]. }
  apply list_elem_of_lookup in HlC as [i Hi].
  destruct (Forall2_lookup_r _ _ _ _ _ HF Hi) as (y & Hy & HyL & w & v & Hu).
  assert (y ∈ H') as HyH by (by eapply list_elem_of_lookup_2).
  destruct (sh_node _ _ _ _ Hs x Hx Hr) as (n' & p & pn & c & Hn' & _ & Hp & _ & Hpn & Hh & _).
  rewrite Hn in Hn'. injection Hn' as <-. assert (y ≠ x) as Hyx by (by intros ->).
  by eapply (cut_path_avoids (psz u) (rt u) (minv_ps Hinv) (w_cores u) L x p n pn c).
Qed.

(** Nobody holds a node without a checkpoint. *)
Lemma tombstone_leaf_unlocked exc u L H' x n z :
  minv exc u L H' -> x ∈ L -> x ≠ rt u -> w_cores u !! x = Some n -> co_children n = [] ->
  w_ckpts u !! x = Some (None, z) -> co_lock n = 0.
Proof.
  intros Hinv Hx Hr Hn Hc Hk. eapply unheld_leaf_unlocked; try done. apply held_zero.
  destruct (ck_node _ _ _ _ _ _ _ _ (mi_ck _ _ _ _ Hinv) x Hx Hr) as (o & E' & Ho & _).
  rewrite Hk in E'. injection E' as <- ->. by apply Ho.
Qed.

(** *** Cutting off a leaf *)

(** The pools after the slots of a node have been returned. *)
Definition give_back (v : list Z) (o : option (list Z)) (s : cache) : cache :=
  match o with
  | Some mv => mu_pool (ms_free mv (m_pool s)) (mu_alloc (kv_free v (m_alloc s)).2 s)
  | None => mu_alloc (kv_free v (m_alloc s)).2 s
  end.

Definition evict_view u x (n : core_t) (o : option (list Z)) (p : nat) (pn : core_t) (c : child_key_t) : mview A P :=
  cut_view (w_upd (give_back (co_val n) o) u) x n o p pn c.

Lemma without_filter x L (l : list nat) : (forall y, y ∈ l -> y ∈ L) -> without x l = filter (fun y => y ∈ L ∖ {[x]}) l.
Proof.
  induction l as [|y l IH]; intros Hl; [done|]. unfold without in *.
  destruct (decide (y = x)) as [->|Hne].
  - rewrite filter_cons_False, filter_cons_False by set_solver. apply IH. set_solver.
  - rewrite !filter_cons_True by (specialize (Hl y); set_solver). f_equal. apply IH. set_solver.
Qed.

Lemma minv_give_back exc u L H' v o : minv exc u L H' -> minv exc (w_upd (give_back v o) u) L H'.
Proof.
  intros Hinv. change (w_upd (give_back v o) u) with (w_upd (fun _ => give_back v o (w_base u)) u).
  destruct o; apply (minv_base Hinv); try done; by intros [].
Qed.

Section cut.
Context {exc : gset nat} {u : mview A P} {L : gset nat} {H' : list nat} {x : nat} {n : core_t}
  {o : option (list Z)} {p : nat} {pn : core_t} {c : child_key_t}.
Hypothesis Hinv : minv exc u L H'.
Hypothesis Hlf : leaf_of u L x n o p pn c.

Lemma minv_evict : minv (exc ∪ {[p]}) (evict_view u x n o p pn c) (L ∖ {[x]}) H'.
Proof.
  destruct Hlf. assert (forall X, m_params (give_back (co_val n) o X) = m_params X) as Ep by (by destruct o).
  assert (forall X, m_root (give_back (co_val n) o X) = m_root X) as Er by (by destruct o).
  eapply minv_cut; cbn [w_upd w_base w_cores w_ckpts]; rewrite ?Ep, ?Er; try done. by apply minv_give_back.
Qed.

Lemma shrunk_evict :
  alloc_ok (m_alloc (w_base u)) ->
  shrunk u L (evict_view u x n o p pn c) (L ∖ {[x]}) [co_val n] (option_list o).
Proof.
  intros Hok. destruct (kv_free_total (co_val n) _ Hok) as (a' & Hf & Hok').
  destruct Hlf as [F1 F2 F3 F4 F5 F6 F7 F8 F9 F10 F11 F12 F13 F14 F15 F16 F17].
  destruct (mi_tree _ _ _ _ Hinv) as [E HE].
  assert (x ∈ E) as HxE by (apply (i_leaves _ _ _ _ _ _ _ _ _ HE); eauto 8).
  assert (sumZ len [co_val n] = co_len n) as Es by (unfold sumZ; simpl; lia).
  assert (sumZ len (option_list o) = len (default [] o)) as Eo by (destruct o; unfold sumZ; simpl; [lia|done]).
  split.
  - set_solver.
  - intros y l w v Hy Hu. eapply (cut_up (psz u) (rt u) (w_cores u) L x p n pn c); try done. exact (minv_shape Hinv).
  - intros y m Hy Hm. destruct (cut_old x p n pn c HE HxE F3 F7 F10 F11 y m Hm) as (m' & Hm' & _ & Hl & _). eauto.
  - intros y Hy. by left.
  - simpl. apply without_filter. intros y Hy. by apply (minv_full Hinv) in Hy as [? _].
  - simpl. rewrite (without_filter x L) by (intros y Hy; by apply (minv_mamba Hinv) in Hy as [? _]).
    apply filter_ext_in. intros y Hy. apply (minv_mamba Hinv) in Hy. tauto.
  - destruct o; split_and!; try done; by intros [].
  - destruct o; done.
  - destruct o; done.
  - rewrite Es. by destruct o; simpl; rewrite Z.add_opp_r.
  - destruct o; simpl; lia.
  - rewrite Eo. destruct o; simpl; [lia|]. unfold len. simpl. lia.
  - destruct o; simpl; lia.
  - intros _. destruct o; simpl; by rewrite Hf.
  - intros i. simpl concat. rewrite app_nil_r. by eapply cut_occ.
  - intros i. rewrite (set_sum_remove (ck_occ i (w_ckpts u)) x L F1). simpl w_ckpts. unfold ck_occ at 2. rewrite F6.
    destruct o; simpl; rewrite ?app_nil_r, ?occ_nil; lia.
  - simpl. unfold cut_cores. apply map_size_insert_Some. eauto.
Qed.
End cut.

(** *** Dropping a checkpoint *)

Definition drop_view u x (mv : list Z) : mview A P :=
  tombstone_view (w_upd (fun s => mu_pool (ms_free mv (m_pool s)) s) u) x mv.

Lemma minv_pool exc u L H' (f : cache -> P) :
  minv exc u L H' -> minv exc (w_upd (fun s => mu_pool (f s) s) u) L H'.
Proof.
  intros Hinv. change (w_upd (fun s => mu_pool (f s) s) u) with (w_upd (fun _ => mu_pool (f (w_base u)) (w_base u)) u).
  by apply (minv_base Hinv).
Qed.

Lemma minv_drop_ckpt exc u L H' x mv m :
  minv exc u L H' -> x ∈ L -> x ≠ rt u -> w_ckpts u !! x = Some (Some mv, 0) ->
  w_cores u !! x = Some m -> co_children m ≠ [] -> minv exc (drop_view u x mv) L H'.
Proof. intros Hinv Hx Hr Hk Hm Hc. eapply minv_tombstone; try done. by apply minv_pool. Qed.

Lemma shrunk_drop exc u L H' x mv :
  minv exc u L H' -> x ∈ L -> x ≠ rt u -> w_ckpts u !! x = Some (Some mv, 0) ->
  shrunk u L (drop_view u x mv) L [] [mv].
Proof.
  intros Hinv Hx Hr Hk.
  assert (forall y, has_ckpt (alter (fun k => (None, k.2)) x (w_ckpts u)) y =
    if decide (y = x) then false else has_ckpt (w_ckpts u) y) as Hh.
  { intros y. rewrite has_ckpt_alter by eauto. case_decide; [|done]. apply bool_decide_eq_false_2. by intros []. }
  split; try done; eauto.
  - intros y Hy. simpl. destruct (decide (y = x)) as [->|Hne]; [right|left; by rewrite lookup_alter_ne].
    exists mv. by rewrite lookup_alter_eq, Hk.
  - simpl. symmetry. apply filter_id. intros y Hy. by apply (minv_full Hinv) in Hy as [? _].
  - simpl. unfold without. apply filter_ext_in. intros y Hy. rewrite Hh. apply (minv_mamba Hinv) in Hy as (HyL & _ & Hc).
    destruct (decide (y = x)); naive_solver.
  - simpl. lia.
  - simpl. lia.
  - simpl. lia.
  - intros i. rewrite occ_nil, Z.add_0_r. done.
  - intros i. simpl. rewrite app_nil_r. rewrite (set_sum_at (ck_occ i (w_ckpts u)) _ x L Hx).
    + unfold ck_occ at 2 3. rewrite lookup_alter_eq, Hk. simpl. lia.
    + intros y _ Hne. unfold ck_occ. by rewrite lookup_alter_ne.
Qed.

(** ** Runs *)

Lemma unfile_alter p pn c (g : cores) :
  g !! p = Some pn -> alter (fun q => with_children (dict_del (co_children q) c) q) p g = cut_cores g p pn c.
Proof.
  intros Hp. apply map_eq. intros y. unfold cut_cores. destruct (decide (y = p)) as [->|Hne].
  - by rewrite lookup_alter_eq, lookup_insert_eq, Hp.
  - by rewrite lookup_alter_ne, lookup_insert_ne.
Qed.

Lemma sim_unfile u L x n o p pn c (nn : MambaNode) :
  leaf_of u L x n o p pn c -> n = mcore nn ->
  sim (unfile_node x nn) u tt (w_nodes (fun g => cut_cores g p pn c) id u).
Proof.
  intros Hlf ->. unfold unfile_node. sim_step sim_params. sim_step sim_lift; [exact (lf_key _ _ _ _ _ _ _ _ Hlf)|].
  sim_step sim_deref; [exact (lf_parent _ _ _ _ _ _ _ _ Hlf)|].
  eapply sim_read; [exact (lf_pnode _ _ _ _ _ _ _ _ Hlf)|]. intros pp _ _ Epp.
  eapply sim_bind.
  { apply (sim_mset_core _ _ (fun q => with_children (dict_del (co_children q) c) q)); done. }
  cbv beta. eapply sim_view_eq; [apply sim_assert; apply bool_decide_eq_true_2|].
  - pose proof (lf_filed _ _ _ _ _ _ _ _ Hlf) as Hd. rewrite Epp in Hd. exact Hd.
  - unfold w_nodes. by rewrite (unfile_alter p pn c _ (lf_pnode _ _ _ _ _ _ _ _ Hlf)).
Qed.

(** What is left to know about a leaf when its node has left the lists. *)
Lemma leaf_of_lists u L x n o p pn c b l : leaf_of u L x n o p pn c -> leaf_of (w_relist b l u) L x n o p pn c.
Proof. by intros []. Qed.

Lemma leaf_of_upd u L x n o p pn c f :
  m_params (f (w_base u)) = prm u -> m_root (f (w_base u)) = rt u ->
  leaf_of u L x n o p pn c -> leaf_of (w_upd f u) L x n o p pn c.
Proof. intros Ep Er []. split; cbn [w_upd w_base w_cores w_ckpts]; rewrite ?Ep, ?Er; done. Qed.

Lemma sim_delete_leaf u L x n mv p pn c :
  leaf_of u L x n (Some mv) p pn c ->
  sim (m_delete_leaf x) u tt
    (w_upd (fun s => mu_mamba (- len mv) 0 (mu_full (- co_len n) 0 s)) (w_nodes (fun g => cut_cores g p pn c) id u)).
Proof.
  intros Hlf. unfold m_delete_leaf. eapply sim_read; [exact (lf_node _ _ _ _ _ _ _ _ Hlf)|]. intros nn _ Hk En.
  rewrite (lf_ckpt _ _ _ _ _ _ _ _ Hlf) in Hk. injection Hk as Emv Ez.
  sim_step sim_assert; [unfold mamba_evicted; by rewrite <-Emv|].
  sim_step sim_assert; [apply bool_decide_eq_true_2; pose proof (lf_leaf _ _ _ _ _ _ _ _ Hlf) as Hl; by rewrite En in Hl|].
  sim_step sim_unfile; [exact Hlf|exact En|]. sim_step sim_tensor; [exact (eq_sym Emv)|].
  sim_step sim_modify; [apply base_only_full|]. eapply sim_view_eq; [apply sim_modify, base_only_mamba|].
  unfold co_len. rewrite En. done.
Qed.

Lemma sim_delete_tombstone u L x n p pn c :
  leaf_of u L x n None p pn c ->
  sim (delete_tombstone_leaf x) u tt
    (w_upd (mu_full (- co_len n) 0) (w_nodes (fun g => cut_cores g p pn c) id u)).
Proof.
  intros Hlf. unfold delete_tombstone_leaf. eapply sim_read; [exact (lf_node _ _ _ _ _ _ _ _ Hlf)|]. intros nn _ Hk En.
  rewrite (lf_ckpt _ _ _ _ _ _ _ _ Hlf) in Hk. injection Hk as Emv Ez.
  sim_step sim_assert; [unfold mamba_evicted; by rewrite <-Emv|].
  sim_step sim_assert; [apply bool_decide_eq_true_2; pose proof (lf_leaf _ _ _ _ _ _ _ _ Hlf) as Hl; by rewrite En in Hl|].
  sim_step sim_unfile; [exact Hlf|exact En|].
  eapply sim_view_eq; [apply sim_modify, base_only_full|]. unfold co_len. by rewrite En.
Qed.
End shrink.
