(* ===== verification/MambaEvict.v ===== *)
(** * The prefix cache of hybrid models: eviction

    [_evict_leaf_node] cuts off a leaf and then every ancestor that has become
    a leaf without a checkpoint; [evict_mamba] takes the least recently used
    unlocked checkpoints, [evict_full] the least recently used unlocked
    leaves, until enough is freed. *)

From S2P Require Import Prelude PyDict RadixKey KvEvents RadixTree RadixOps RadixInv RadixMoves.
From S2P Require Import RadixState RadixLocks RadixRun RadixEvents RadixInsert RadixSpec RadixEvict RadixLockOps.
From S2P Require Import RadixSlots MambaTree MambaOps LruFacts MambaView MambaRules MambaInv MambaRun MambaHold.
From S2P Require Import MambaShrink.

Section evict.
Context {A P : Type} `{KvFree A} `{!KvFreeTotal A} `{MambaSlots P} `{Sha256} `{!Sha256Laws}.
Implicit Types (s : MambaRadixCache A P) (u : mview A P) (L exc : gset nat) (x y p : nat) (b : bool).
Abbreviation cache := (MambaRadixCache A P).
Abbreviation MM := (M (MambaRadixCache A P)).
Abbreviation prm u := (m_params (w_base u)).
Abbreviation psz u := (page_size (m_params (w_base u))).
Abbreviation rt u := (m_root (w_base u)).
Abbreviation cnt u := (m_counter (w_base u)).

Definition internal u y : Prop := exists m, w_cores u !! y = Some m /\ co_children m ≠ [].

(** *** Candidates *)

(** What the search in list [b] looks for: an unlocked checkpoint, or an
    unlocked leaf. *)
Definition cand (b : bool) u (y : nat) : bool :=
  if b then qualifies (fun _ k => bool_decide (0 < k.2)) u y
  else qualifies (fun m _ => bool_decide (0 < co_lock m) || bool_decide (0 < length (co_children m))%nat) u y.

Lemma cand_full u y m k :
  w_cores u !! y = Some m -> w_ckpts u !! y = Some k -> 0 <= co_lock m ->
  cand false u y = true <-> co_lock m = 0 /\ co_children m = [].
Proof.
  intros Hm Hk Hl. unfold cand, qualifies. rewrite Hm, Hk. rewrite negb_true_iff, orb_false_iff, !bool_decide_eq_false.
  destruct (co_children m); simpl; split; intros [? ?]; split; (lia || done).
Qed.

Lemma cand_mamba u y m o z :
  w_cores u !! y = Some m -> w_ckpts u !! y = Some (o, z) -> 0 <= z -> cand true u y = true <-> z = 0.
Proof.
  intros Hm Hk Hz. unfold cand, qualifies. rewrite Hm, Hk. rewrite negb_true_iff, bool_decide_eq_false. simpl. lia.
Qed.

Lemma head_cand exc u L H' b : minv exc u L H' -> cand b u (w_head b u) = true.
Proof.
  intros Hinv. destruct (mi_end _ _ _ _ Hinv b (w_head b u)) as (_ & m & Hm & Hl & Hc & Hk); [by left|].
  unfold cand, qualifies. rewrite Hm, Hk, Hl, Hc. by destruct b.
Qed.

(** The four searches. *)
Lemma sim_search exc u L H' b l1 y l2 (check_id : bool) :
  minv exc u L H' -> w_list b u ++ [w_tail b u] = l1 ++ y :: l2 -> (check_id = true -> y ∈ w_list b u) ->
  sim (if b then get_prev_no_lock true y check_id else get_prev_leaf_no_lock false y check_id) u (pick (cand b u) l1) u.
Proof.
  intros Hinv E Hy. pose proof (head_cand exc u L H' b Hinv) as Hh.
  destruct b; eapply (sim_prev_search); try done.
Qed.

Lemma sim_start exc u L H' b :
  minv exc u L H' ->
  sim (if b then get_lru_no_lock true else get_leaf_lru_no_lock false) u (pick (cand b u) (w_list b u)) u.
Proof.
  intros Hinv. pose proof (sim_search exc u L H' b (w_list b u) (w_tail b u) [] false Hinv eq_refl ltac:(done)) as Hs.
  intros s Hrep. destruct (rep_dll s u b Hrep) as (_ & _ & Et). destruct (Hs s Hrep) as (s' & Hr & Hrep').
  exists s'. split; [|done]. rewrite Et in Hr. destruct b; exact Hr.
Qed.

(** The candidate is the last one of its list. *)
Lemma pick_split (q : nat -> bool) (l : list nat) x :
  pick q l = Some x -> exists l1 l2, l = l1 ++ x :: l2 /\ q x = true /\ forall y, y ∈ l2 -> q y = false.
Proof.
  induction l as [|y l IH] using rev_ind; unfold pick; [done|]. rewrite filter_app. destruct (q y) eqn:Hq.
  - rewrite filter_cons_True, filter_nil, last_snoc by done. intros [= ->]. exists l, []. set_solver.
  - rewrite filter_cons_False, filter_nil, app_nil_r by (by rewrite Hq). intros Hp.
    destruct (IH Hp) as (l1 & l2 & -> & Hx & Hl2). exists l1, (l2 ++ [y]). split; [by rewrite <-app_assoc|].
    split; [done|]. intros z [Hz| ->%list_elem_of_singleton]%elem_of_app; [by apply Hl2|done].
Qed.

Lemma pick_none (q : nat -> bool) (l : list nat) : pick q l = None <-> forall y, y ∈ l -> q y = false.
Proof.
  unfold pick. rewrite last_None. split.
  - intros E y Hy. destruct (q y) eqn:Hq; [|done].
    assert (y ∈ filter (fun y => q y = true) l) as Hin by (by apply list_elem_of_filter). rewrite E in Hin. set_solver.
  - intros Hl. destruct (filter _ l) as [|y l'] eqn:E; [done|].
    assert (y ∈ filter (fun y => q y = true) l) as Hin by (rewrite E; left).
    apply list_elem_of_filter in Hin as [Hq Hin]. by rewrite Hl in Hq.
Qed.

Lemma pick_ext (q q' : nat -> bool) (l : list nat) : (forall y, y ∈ l -> q y = q' y) -> pick q l = pick q' l.
Proof. intros Hq. unfold pick. f_equal. apply filter_ext_in. intros y Hy. by rewrite Hq. Qed.

Lemma pick_app_none (q : nat -> bool) l1 l2 : (forall y, y ∈ l2 -> q y = false) -> pick q (l1 ++ l2) = pick q l1.
Proof.
  intros Hl2. unfold pick. rewrite filter_app. destruct (filter (fun y => q y = true) l2) as [|y l] eqn:E.
  - by rewrite app_nil_r.
  - assert (y ∈ filter (fun y => q y = true) l2) as Hin by (rewrite E; left).
    apply list_elem_of_filter in Hin as [Hq Hin]. by rewrite Hl2 in Hq.
Qed.

Lemma sim_from {B} (c : MM B) u1 u2 a u' : sim c u1 a u' -> u2 = u1 -> sim c u2 a u'.
Proof. by intros ? ->. Qed.

(** *** Ancestors without checkpoints *)

Lemma without_tombstone exc u L H' x z :
  minv exc u L H' -> w_ckpts u !! x = Some (None, z) -> without x (w_mamba u) = w_mamba u.
Proof.
  intros Hinv Hk. apply filter_id. intros y Hy ->. apply (minv_mamba Hinv) in Hy as (_ & _ & Hh).
  unfold has_ckpt in Hh. by rewrite Hk in Hh.
Qed.

(** After the child of [p] has been cut off: [x'] is the last node deleted,
    [p'] its parent. *)
Record cascaded (H' : list nat) u L (p : nat) (vs : list (list Z)) (x' : nat) u' L' : Prop := Cascaded {
  ca_inv : minv ∅ u' L' H';
  ca_shrunk : shrunk u L u' L' vs [];
  ca_mamba : w_mamba u' = w_mamba u;
  ca_gone y : y ∈ L -> y ∉ L' -> y = p \/ internal u y;
  ca_last : exists n' p', w_cores u' !! x' = Some n' /\ co_parent n' = Some p' /\ p' ∈ L' /\
    (p' = p \/ internal u p') /\ (p ∈ L' -> p' = p) /\ forall y, y ≠ p' -> y ∈ L' \/ y ∉ L -> w_cores u' !! y = w_cores u !! y
}.

Lemma cascaded_stop H' u L x n p pn :
  minv {[p]} u L H' -> w_cores u !! x = Some n -> co_parent n = Some p -> p ∈ L -> w_cores u !! p = Some pn ->
  p = rt u \/ co_children pn ≠ [] \/ has_ckpt (w_ckpts u) p = true -> cascaded H' u L p [] x u L.
Proof.
  intros Hinv Hn Hp HpL Hpn Hor. split; try done.
  - apply (minv_drop ∅ u L H' p pn); [by rewrite union_empty_l_L|done|done].
  - by eapply shrunk_refl.
  - exists n, p. eauto 8.
Qed.

Lemma cascaded_step H' u L p pn q qn c vs x' u' L' :
  minv {[p]} u L H' -> alloc_ok (m_alloc (w_base u)) -> leaf_of u L p pn None q qn c ->
  cascaded H' (evict_view u p pn None q qn c) (L ∖ {[p]}) q vs x' u' L' ->
  cascaded H' u L p (co_val pn :: vs) x' u' L'.
Proof.
  intros Hinv Hok Hlf Hca. pose proof (shrunk_evict Hinv Hlf Hok) as Hsk.
  pose proof (ca_shrunk _ _ _ _ _ _ _ _ Hca) as Hsk'. pose proof (sk_live _ _ _ _ _ _ Hsk') as Hsub.
  assert (forall y, y ≠ q -> w_cores (evict_view u p pn None q qn c) !! y = w_cores u !! y) as Hsame.
  { intros y Hy. simpl. unfold cut_cores. by rewrite lookup_insert_ne. }
  assert (internal u q) as Hq.
  { exists qn. split; [exact (lf_pnode _ _ _ _ _ _ _ _ Hlf)|]. intros E.
    pose proof (lf_filed _ _ _ _ _ _ _ _ Hlf) as Hd. by rewrite E in Hd. }
  assert (forall y, internal (evict_view u p pn None q qn c) y -> internal u y) as Hint.
  { intros y (m & Hm & Hc). destruct (decide (y = q)) as [->|Hne]; [done|]. exists m. by rewrite <-Hsame. }
  split.
  - exact (ca_inv _ _ _ _ _ _ _ _ Hca).
  - exact (shrunk_trans _ _ _ _ _ _ _ _ _ _ Hsk Hsk').
  - rewrite (ca_mamba _ _ _ _ _ _ _ _ Hca). exact (without_tombstone {[p]} u L H' p 0 Hinv (lf_ckpt _ _ _ _ _ _ _ _ Hlf)).
  - intros y Hy Hy'. destruct (decide (y = p)) as [|Hne]; [by left|right].
    destruct (ca_gone _ _ _ _ _ _ _ _ Hca y) as [->|Hi]; [set_solver|done|done|by apply Hint].
  - destruct (ca_last _ _ _ _ _ _ _ _ Hca) as (n' & p' & Hn' & Hp' & Hp'L & Hor & Hin & Hrest). exists n', p'.
    split_and!; try done.
    + right. destruct Hor as [->|Hi]; [done|by apply Hint].
    + intros HpL. set_solver.
    + intros y Hy Hor'. destruct (decide (y = q)) as [->|Hyq]; [|rewrite Hrest, Hsame by (done || set_solver); done].
      exfalso. assert (q ∈ L) by exact (lf_plive _ _ _ _ _ _ _ _ Hlf). destruct Hor' as [Hq'|?]; [|done].
      by rewrite Hin in Hy.
Qed.

Lemma cascade_sim H' fuel : forall u L x n p acc,
  minv {[p]} u L H' -> alloc_ok (m_alloc (w_base u)) -> w_cores u !! x = Some n -> co_parent n = Some p ->
  p ∈ L -> (size L < fuel)%nat ->
  exists vs x' u' L', sim (delete_tombstones fuel x acc) u (x', acc + sumZ len vs) u' /\
    cascaded H' u L p vs x' u' L'.
Proof.
  induction fuel as [|fuel IH]; intros u L x n p acc Hinv Hok Hn Hp HpL Hf; [lia|].
  destruct (minv_lookup Hinv p HpL) as (pn & [o z] & Hpn & Hpk).
  destruct (decide (p = rt u \/ co_children pn ≠ [] \/ o ≠ None)) as [Hor|Hor].
  - exists [], x, u, L. rewrite Z.add_0_r. split.
    + simpl. eapply sim_read; [exact Hn|]. intros nn _ _ ->. sim_step sim_deref; [exact Hp|].
      eapply sim_read; [exact Hpn|]. intros pp _ Hkp ->. rewrite Hpk in Hkp. injection Hkp as -> ->.
      destruct (mamba_evicted pp && bool_decide (n_children pp = [])) eqn:Eb; [|apply sim_ret].
      apply andb_true_iff in Eb as [Ev%bool_decide_eq_true Ec%bool_decide_eq_true].
      sim_step sim_root. rewrite decide_True; [apply sim_ret|]. destruct Hor as [?|[?|?]]; done.
    + eapply cascaded_stop; try done. unfold has_ckpt. rewrite Hpk.
      destruct Hor as [?|[?|?]]; [by left|by right; left|right; right]. by destruct o.
  - apply Decidable.not_or in Hor as [Hpr Hor]. apply Decidable.not_or in Hor as [Hc Ho].
    apply dec_stable in Hc. apply dec_stable in Ho as ->.
    pose proof (tombstone_leaf_unlocked {[p]} u L H' p pn z Hinv HpL Hpr Hpn Hc Hpk) as Hl.
    destruct (leaf_exists {[p]} u L H' p pn Hinv HpL Hpr Hpn Hl Hc) as (o & q & qn & c & Hlf).
    pose proof (lf_ckpt _ _ _ _ _ _ _ _ Hlf) as Hk. rewrite Hpk in Hk. injection Hk as <- ->.
    assert (minv {[q]} (evict_view u p pn None q qn c) (L ∖ {[p]}) H') as Hinv1.
    { pose proof (minv_evict Hinv Hlf) as Hi. destruct Hi as [I1 I2 I3 I4 I5]. split; try done.
      intros y m Hy Hyr Hm Hch Hexc. eapply I5; try done. set_solver. }
    pose proof (shrunk_evict Hinv Hlf Hok) as Hsk.
    edestruct (IH (evict_view u p pn None q qn c) (L ∖ {[p]}) p pn q (acc + len (co_val pn))) as
      (vs & x' & u' & L' & Hsim & Hca).
    + exact Hinv1.
    + by apply (sk_ok _ _ _ _ _ _ Hsk).
    + simpl. unfold cut_cores. rewrite lookup_insert_ne; [done|]. exact (lf_pne _ _ _ _ _ _ _ _ Hlf).
    + exact (lf_parent _ _ _ _ _ _ _ _ Hlf).
    + pose proof (lf_plive _ _ _ _ _ _ _ _ Hlf). pose proof (lf_pne _ _ _ _ _ _ _ _ Hlf). set_solver.
    + assert (size (L ∖ {[p]}) < size L)%nat by (apply subset_size; set_solver). lia.
    + exists (co_val pn :: vs), x', u', L'. split; [|by eapply cascaded_step].
      destruct (kv_free_total (co_val pn) _ Hok) as (a' & Hfree & _).
      simpl. eapply sim_read; [exact Hn|]. intros nn _ _ ->. sim_step sim_deref; [exact Hp|].
      eapply sim_read; [exact Hpn|]. intros pp _ Hkp Epp. rewrite Hpk in Hkp. injection Hkp as Emv Ez.
      assert (mamba_evicted pp = true) as -> by (unfold mamba_evicted; by rewrite <-Emv).
      rewrite bool_decide_eq_true_2 by (rewrite <-Hc, Epp; done). simpl andb.
      sim_step sim_root. rewrite decide_False by done. rewrite decide_False by (rewrite Epp in Hl; simpl in Hl; lia).
      sim_step sim_assert; [by apply bool_decide_eq_true_2|].
      sim_step sim_remove_event; [exact (minv_ps Hinv)|exact Hpn|exact (lf_aligned _ _ _ _ _ _ _ _ Hlf)|
        exact (lf_hash _ _ _ _ _ _ _ _ Hlf)|].
      pose proof (lf_value _ _ _ _ _ _ _ _ Hlf) as Hv. rewrite Epp in Hv at 1.
      sim_step sim_tensor; [exact Hv|]. sim_step sim_full_free; [exact Hfree|].
      sim_step sim_remove_node; [by apply (minv_full Hinv)|reflexivity|].
      sim_step sim_delete_tombstone; [apply leaf_of_lists; apply leaf_of_upd; [done|done|exact Hlf]|].
      change (sumZ len (co_val pn :: vs)) with (len (co_val pn) + sumZ len vs). rewrite Z.add_assoc.
      eapply sim_from; [exact Hsim|]. apply mview_ext; try done.
      * cbn [w_base w_upd w_nodes w_relist evict_view cut_view give_back]. by rewrite Hfree.
      * symmetry. exact (without_tombstone {[p]} u L H' p 0 Hinv Hpk).
Qed.

(** *** One leaf *)

Record evicted_leaf (H' : list nat) u L x (vs : list (list Z)) (mv : list Z) (x' : nat) u' L' : Prop := EvictedLeaf {
  el_inv : minv ∅ u' L' H';
  el_shrunk : shrunk u L u' L' vs [mv];
  el_out : x ∈ L /\ x ∉ L';
  el_mamba : w_mamba u' = without x (w_mamba u);
  el_gone y : y ∈ L -> y ∉ L' -> y = x \/ internal u y;
  el_last : exists n' p', w_cores u' !! x' = Some n' /\ co_parent n' = Some p' /\ p' ∈ L' /\ internal u p' /\
    forall y, y ≠ p' -> y ∈ L' -> w_cores u' !! y = w_cores u !! y
}.

Lemma leaf_then_cascade H' u L x n mv p pn c vs x' u' L' :
  minv ∅ u L H' -> alloc_ok (m_alloc (w_base u)) -> leaf_of u L x n (Some mv) p pn c ->
  cascaded H' (evict_view u x n (Some mv) p pn c) (L ∖ {[x]}) p vs x' u' L' ->
  evicted_leaf H' u L x (co_val n :: vs) mv x' u' L'.
Proof.
  intros Hinv Hok Hlf Hca. pose proof (shrunk_evict Hinv Hlf Hok) as Hsk.
  pose proof (ca_shrunk _ _ _ _ _ _ _ _ Hca) as Hsk'. pose proof (sk_live _ _ _ _ _ _ Hsk') as Hsub.
  assert (internal u p) as Hp.
  { exists pn. split; [exact (lf_pnode _ _ _ _ _ _ _ _ Hlf)|]. intros E.
    pose proof (lf_filed _ _ _ _ _ _ _ _ Hlf) as Hd. by rewrite E in Hd. }
  assert (forall y, y ≠ p -> w_cores (evict_view u x n (Some mv) p pn c) !! y = w_cores u !! y) as Hsame.
  { intros y Hy. simpl. unfold cut_cores. by rewrite lookup_insert_ne. }
  assert (forall y, internal (evict_view u x n (Some mv) p pn c) y -> internal u y) as Hint.
  { intros y (m & Hm & Hc). destruct (decide (y = p)) as [->|Hne]; [done|]. exists m. by rewrite <-Hsame. }
  destruct (ca_last _ _ _ _ _ _ _ _ Hca) as (n' & p' & Hn' & Hp' & Hp'L & Hor & Hin & Hrest). split.
  - exact (ca_inv _ _ _ _ _ _ _ _ Hca).
  - exact (shrunk_trans _ _ _ _ _ _ _ _ _ _ Hsk Hsk').
  - split; [exact (lf_live _ _ _ _ _ _ _ _ Hlf)|set_solver].
  - exact (ca_mamba _ _ _ _ _ _ _ _ Hca).
  - intros y Hy Hy'. destruct (decide (y = x)) as [|Hne]; [by left|right].
    destruct (ca_gone _ _ _ _ _ _ _ _ Hca y) as [->|Hi]; [set_solver|done|done|by apply Hint].
  - exists n', p'. split_and!; try done; [destruct Hor as [->|Hi]; [done|by apply Hint]|].
    intros y Hy HyL. rewrite Hrest by auto. destruct (decide (y = p)) as [->|]; [by rewrite Hin in Hy|by apply Hsame].
Qed.

Lemma evict_leaf_sim H' u L b x n mv p pn c l1 l2 :
  minv ∅ u L H' -> alloc_ok (m_alloc (w_base u)) -> leaf_of u L x n (Some mv) p pn c -> w_list b u = l1 ++ x :: l2 ->
  exists vs x' u' L', sim (evict_leaf_node x b) u (sumZ len vs, len mv, x', pick (cand b u) l1) u' /\
    evicted_leaf H' u L x vs mv x' u' L'.
Proof.
  intros Hinv Hok Hlf El. destruct (kv_free_total (co_val n) _ Hok) as (a' & Hfree & _).
  pose proof (shrunk_evict Hinv Hlf Hok) as Hsk. pose proof (minv_shape Hinv) as Hs.
  edestruct (cascade_sim H' (S (size (w_cores (evict_view u x n (Some mv) p pn c)))) (evict_view u x n (Some mv) p pn c)
    (L ∖ {[x]}) x n p 0) as (vs & x' & u' & L' & Hsim & Hca).
  - pose proof (minv_evict Hinv Hlf) as Hi. by rewrite union_empty_l_L in Hi.
  - by apply (sk_ok _ _ _ _ _ _ Hsk).
  - simpl. unfold cut_cores. rewrite lookup_insert_ne; [exact (lf_node _ _ _ _ _ _ _ _ Hlf)|exact (lf_pne _ _ _ _ _ _ _ _ Hlf)].
  - exact (lf_parent _ _ _ _ _ _ _ _ Hlf).
  - pose proof (lf_plive _ _ _ _ _ _ _ _ Hlf). pose proof (lf_pne _ _ _ _ _ _ _ _ Hlf). set_solver.
  - rewrite (sk_size _ _ _ _ _ _ Hsk). apply Nat.lt_succ_r. rewrite <-(size_dom (w_cores u)). apply subseteq_size.
    intros y Hy. apply elem_of_dom. apply (shape_lookup _ _ _ _ y Hs). set_solver.
  - exists (co_val n :: vs), x', u', L'. split; [|by eapply leaf_then_cascade].
    pose proof (lf_live _ _ _ _ _ _ _ _ Hlf) as HxL. pose proof (lf_root _ _ _ _ _ _ _ _ Hlf) as Hxr.
    pose proof (lf_ckpt _ _ _ _ _ _ _ _ Hlf) as Hk. pose proof (lf_lock _ _ _ _ _ _ _ _ Hlf) as Hl.
    assert (has_ckpt (w_ckpts u) x = true) as Hh by (unfold has_ckpt; by rewrite Hk).
    unfold evict_leaf_node. eapply sim_read; [exact (lf_node _ _ _ _ _ _ _ _ Hlf)|]. intros nn _ Hkn En.
    rewrite Hk in Hkn. injection Hkn as Emv Ez. rewrite En in Hl. simpl in Hl.
    sim_step sim_assert; [by apply bool_decide_eq_true_2|].
    sim_step sim_assert; [unfold mamba_evicted; by rewrite <-Emv|].
    sim_step sim_remove_event; [exact (minv_ps Hinv)|exact (lf_node _ _ _ _ _ _ _ _ Hlf)|
      exact (lf_aligned _ _ _ _ _ _ _ _ Hlf)|exact (lf_hash _ _ _ _ _ _ _ _ Hlf)|].
    pose proof (lf_value _ _ _ _ _ _ _ _ Hlf) as Hv. rewrite En in Hv at 1.
    sim_step sim_tensor; [exact Hv|]. sim_step sim_full_free; [exact Hfree|].
    sim_step sim_tensor; [exact (eq_sym Emv)|]. sim_step sim_mamba_free.
    set (u1 := w_upd _ (w_upd _ u)).
    assert (minv ∅ u1 L H') as Hinv1.
    { pose proof (minv_give_back ∅ u L H' (co_val n) (Some mv) Hinv) as Hi. unfold give_back in Hi. 
      unfold u1. unfold w_upd in *. cbn [w_base] in *. rewrite Hfree in Hi. exact Hi. }
    eapply sim_bind.
    { eapply (sim_search ∅ u1 L H' b l1 x (l2 ++ [w_tail b u1]) true Hinv1).
      - change (w_list b u1) with (w_list b u). by rewrite El, <-app_assoc.
      - intros _. change (w_list b u1) with (w_list b u). rewrite El. set_solver. }
    cbv beta. sim_step sim_remove_node; [by apply (minv_full Hinv)|reflexivity|].
    sim_step sim_remove_node; [by apply (minv_mamba Hinv)|exact Hh|].
    sim_step sim_delete_leaf; [do 2 apply leaf_of_lists; do 2 (apply leaf_of_upd; [done|done|]); exact Hlf|].
    sim_step sim_fuel.
    assert (w_upd (fun s => mu_mamba (- len mv) 0 (mu_full (- co_len n) 0 s))
      (w_nodes (fun g => cut_cores g p pn c) id
        (w_relist true (without x (w_list true (w_relist false (without x (w_list false u1)) u1)))
          (w_relist false (without x (w_list false u1)) u1))) = evict_view u x n (Some mv) p pn c) as ->.
    { apply mview_ext; try done. cbn [w_base w_upd w_nodes w_relist evict_view cut_view give_back u1]. by rewrite Hfree. }
    sim_step Hsim. rewrite Z.add_0_l.
    replace (pick (cand b u1) l1) with (pick (cand b u) l1) by (by destruct b). apply sim_ret.
Qed.

(** *** [evict_mamba] *)

Lemma sim_tombstone u x n mv :
  w_cores u !! x = Some n -> co_children n ≠ [] -> w_ckpts u !! x = Some (Some mv, 0) ->
  sim (tombstone_internal_node x) u tt
    (w_nodes id (alter (fun k => (None, k.2)) x) (w_upd (mu_mamba (- len mv) 0) u)).
Proof.
  intros Hn Hc Hk. unfold tombstone_internal_node. eapply sim_read; [exact Hn|]. intros nn _ Hkn ->.
  rewrite Hk in Hkn. injection Hkn as Emv _.
  sim_step sim_assert; [apply negb_true_iff, bool_decide_eq_false_2; exact Hc|].
  sim_step sim_tensor; [exact (eq_sym Emv)|]. sim_step sim_modify; [apply base_only_mamba|].
  by apply sim_mset_ckpt.
Qed.

(** What the candidates are does not change for those that remain. *)
Lemma cand_mamba_shrunk H' u L u' L' vs mvs y :
  minv ∅ u L H' -> minv ∅ u' L' H' -> shrunk u L u' L' vs mvs -> y ∈ w_mamba u' -> cand true u' y = cand true u y.
Proof.
  intros Hinv Hinv' Hsk Hy. apply (minv_mamba Hinv') in Hy as (HyL & _ & Hh).
  destruct (minv_lookup Hinv' y HyL) as (m' & k & Hm' & Hk).
  destruct (minv_lookup Hinv y) as (m & k0 & Hm & Hk0); [by apply (sk_live _ _ _ _ _ _ Hsk)|].
  pose proof (has_ckpt_shrunk _ _ _ _ _ _ y Hsk HyL Hh) as E. unfold cand, qualifies. by rewrite Hm, Hm', E.
Qed.

Lemma minv_mamba_node exc u L H' x :
  minv exc u L H' -> x ∈ w_mamba u -> exists m mv, x ∈ L /\ x ≠ rt u /\ w_cores u !! x = Some m /\
    w_ckpts u !! x = Some (Some mv, held H' x) /\ length mv = 1%nat.
Proof.
  intros Hinv Hx. apply (minv_mamba Hinv) in Hx as (HxL & Hxr & Hh).
  destruct (minv_lookup Hinv x HxL) as (m & k & Hm & Hk).
  destruct (ck_node _ _ _ _ _ _ _ _ (mi_ck _ _ _ _ Hinv) x HxL Hxr) as (o & E & _ & Hl).
  unfold has_ckpt in Hh. rewrite E in Hh. destruct o as [mv|]; [|done]. exists m, mv. auto 8.
Qed.

(** The first statements of an iteration. *)
Lemma sim_mamba_guard {B} (body : nat -> MambaNode -> list Z -> MM B) e u L H' x mv n0 a u' :
  minv ∅ u L H' -> x ∈ w_mamba u -> w_cores u !! x = Some n0 -> w_ckpts u !! x = Some (Some mv, 0) -> length mv = 1%nat ->
  (forall n, n0 = mcore n -> mamba_value n = Some mv -> sim (body x n mv) u a u') ->
  sim (b ← in_list true (Some x);
       match Some x with
       | Some x' =>
           if (b : bool) then
             n ← mnode_at x';
             massert (negb (mamba_evicted n)) "node has no mamba value" ≫= fun _ =>
             mv ← tensor (mamba_value n);
             massert (bool_decide (length mv = 1%nat)) "node has abnormal mamba length" ≫= fun _ =>
             root ← gets m_root;
             massert (negb (bool_decide (x' = root))) "root node is not evictable" ≫= fun _ =>
             massert (bool_decide (mamba_lock_ref n = 0)) "node is in use by mamba kv indices" ≫= fun _ => body x' n mv
           else e
       | None => e
       end) u a u'.
Proof.
  intros Hinv Hx Hn Hk Hl Hbody. pose proof Hx as Hx'. apply (minv_mamba Hinv) in Hx' as (_ & Hxr & _).
  sim_step sim_member. rewrite bool_decide_eq_true_2 by exact Hx.
  eapply sim_read; [exact Hn|]. intros n _ Hkn En. rewrite Hk in Hkn. injection Hkn as Emv Ez.
  sim_step sim_assert; [unfold mamba_evicted; by rewrite <-Emv|]. sim_step sim_tensor; [exact (eq_sym Emv)|].
  sim_step sim_assert; [by apply bool_decide_eq_true_2|]. sim_step sim_root.
  sim_step sim_assert; [by apply negb_true_iff, bool_decide_eq_false_2|].
  sim_step sim_assert; [by apply bool_decide_eq_true_2|]. by apply Hbody.
Qed.

Lemma evict_mamba_step H' u L x :
  minv ∅ u L H' -> alloc_ok (m_alloc (w_base u)) -> pick (cand true u) (w_mamba u) = Some x ->
  exists mv vs u1 L1, w_ckpts u !! x = Some (Some mv, 0) /\ minv ∅ u1 L1 H' /\
    shrunk u L u1 L1 vs [mv] /\ w_mamba u1 = without x (w_mamba u) /\
    forall fuel num got a u', got < num ->
      sim (evict_mamba_loop fuel num (pick (cand true u1) (w_mamba u1)) (got + 1)) u1 a u' ->
      sim (evict_mamba_loop (S fuel) num (Some x) got) u a u'.
Proof.
  intros Hinv Hok Hpick. destruct (pick_split _ _ _ Hpick) as (l1 & l2 & El & Hcx & Hl2).
  assert (x ∈ w_mamba u) as Hxm by (rewrite El; set_solver).
  destruct (minv_mamba_node ∅ u L H' x Hinv Hxm) as (m & mv & HxL & Hxr & Hm & Hk & Hlen).
  assert (held H' x = 0) as Hz by (by apply (cand_mamba u x m (Some mv) (held H' x) Hm Hk (held_nonneg _ _))).
  rewrite Hz in Hk. pose proof (mi_ck _ _ _ _ Hinv) as Hck.
  assert (without x (w_mamba u) = l1 ++ l2) as Ew.
  { rewrite El. apply without_app. rewrite <-El. apply (ck_mamba_nodup _ _ _ _ _ _ _ _ Hck). }
  assert (forall u1 L1 vs mvs, minv ∅ u1 L1 H' -> shrunk u L u1 L1 vs mvs -> w_mamba u1 = without x (w_mamba u) ->
    pick (cand true u1) (w_mamba u1) = pick (cand true u) l1) as Hnext.
  { intros u1 L1 vs mvs Hinv1 Hsk E. rewrite (pick_ext _ (cand true u)) by
      (intros y Hy; by eapply (cand_mamba_shrunk H' u L u1 L1)).
    rewrite E, Ew. by apply pick_app_none. }
  assert (len mv = 1) as Elen by (unfold len; by rewrite Hlen).
  destruct (co_children m) as [|ch d] eqn:Hch.
  - pose proof (unheld_leaf_unlocked ∅ u L H' x m Hinv HxL Hxr Hm Hch (proj1 (held_zero H' x) Hz)) as Hl.
    destruct (leaf_exists ∅ u L H' x m Hinv HxL Hxr Hm Hl Hch) as (o & p & pn & c & Hlf).
    pose proof (lf_ckpt _ _ _ _ _ _ _ _ Hlf) as Hk'. rewrite Hk in Hk'. injection Hk' as <-.
    destruct (evict_leaf_sim H' u L true x m mv p pn c l1 l2 Hinv Hok Hlf El) as (vs & x' & u1 & L1 & Hsim & Hev).
    exists mv, vs, u1, L1. split_and!; [done|apply Hev|apply Hev|apply Hev|].
    intros fuel num got a u' Hlt Hrest. rewrite (Hnext u1 L1 vs [mv] (el_inv _ _ _ _ _ _ _ _ _ Hev)
      (el_shrunk _ _ _ _ _ _ _ _ _ Hev) (el_mamba _ _ _ _ _ _ _ _ _ Hev)) in Hrest.
    cbn [evict_mamba_loop]. rewrite decide_True by done. eapply (sim_mamba_guard (fun x n mv => _)); try done.
    intros n -> Hmv. simpl in Hch. rewrite Hch. rewrite decide_False by (simpl; lia).
    sim_step Hsim. by rewrite Elen.
  - pose proof (shrunk_drop ∅ u L H' x mv Hinv HxL Hxr Hk) as Hsk.
    assert (minv ∅ (drop_view u x mv) L H') as Hinv1 by (eapply minv_drop_ckpt; try done; by rewrite Hch).
    exists mv, [], (drop_view u x mv), L. split_and!; try done.
    intros fuel num got a u' Hlt Hrest. rewrite (Hnext _ L [] [mv] Hinv1 Hsk eq_refl) in Hrest.
    cbn [evict_mamba_loop]. rewrite decide_True by done. eapply (sim_mamba_guard (fun x n mv => _)); try done.
    intros n -> Hmv. simpl in Hch. rewrite Hch. rewrite decide_True by (simpl; lia).
    sim_step sim_mamba_free.
    set (u0 := w_upd _ u).
    assert (minv ∅ u0 L H') as Hinv0 by (apply (minv_pool ∅ u L H' (fun s => ms_free mv (m_pool (w_base u))) Hinv)).
    eapply sim_bind.
    { eapply (sim_search ∅ u0 L H' true l1 x (l2 ++ [w_tail true u0]) true Hinv0).
      - change (w_list true u0) with (w_mamba u). by rewrite El, <-app_assoc.
      - done. }
    cbv beta. sim_step sim_remove_node; [exact Hxm|unfold carries; simpl; by rewrite Hk|].
    sim_step sim_tombstone; [exact Hm|intros E; simpl in E; congruence|exact Hk|].
    replace (got + len mv) with (got + 1) by lia.
    eapply sim_from; [exact Hrest|]. by apply mview_ext.
Qed.

(** The [k] least recently used unlocked checkpoints, least recent first. *)
Definition lru_unlocked (k : nat) u : list nat := take k (reverse (filter (fun y => cand true u y = true) (w_mamba u))).

Lemma pick_reverse (q : nat -> bool) (l : list nat) x :
  NoDup l -> pick q l = Some x ->
  reverse (filter (fun y => q y = true) l) = x :: reverse (filter (fun y => q y = true) (without x l)).
Proof.
  intros Hnd Hp. destruct (pick_split q l x Hp) as (l1 & l2 & -> & Hx & Hl2). rewrite without_app by done.
  assert (filter (fun y => q y = true) l2 = []) as E2.
  { destruct (filter _ l2) as [|y l] eqn:E; [done|].
    assert (y ∈ filter (fun y => q y = true) l2) as Hin by (rewrite E; left).
    apply list_elem_of_filter in Hin as [Hq Hin]. by rewrite Hl2 in Hq. }
  rewrite !filter_app, filter_cons_True, E2, app_nil_r by done. by rewrite reverse_snoc.
Qed.

Lemma lru_unlocked_elem k u y : y ∈ lru_unlocked k u -> y ∈ w_mamba u.
Proof.
  unfold lru_unlocked. intros Hy%elem_of_take. destruct Hy as (i & Hy & _). apply list_elem_of_lookup_2 in Hy.
  rewrite elem_of_reverse in Hy. by apply list_elem_of_filter in Hy as [_ ?].
Qed.

(** The view after the checkpoints of the nodes [ys] have been evicted. *)
Record ckpts_evicted (H' : list nat) u L (ys : list nat) u' L' (vs mvs : list (list Z)) : Prop := CkptsEvicted {
  ce_inv : minv ∅ u' L' H';
  ce_shrunk : shrunk u L u' L' vs mvs;
  ce_mamba : w_mamba u' = filter (fun y => y ∉ ys) (w_mamba u);
  ce_freed : Forall2 (fun x mv => w_ckpts u !! x = Some (Some mv, 0)) ys mvs
}.

Lemma ckpts_evicted_nil H' u L : minv ∅ u L H' -> ckpts_evicted H' u L [] u L [] [].
Proof.
  intros Hinv. split; [done|by eapply shrunk_refl| |done]. symmetry. apply filter_id. intros y _. apply not_elem_of_nil.
Qed.

Lemma ckpts_evicted_cons H' u L x mv vs u1 L1 ys u' L' vs' mvs :
  w_ckpts u !! x = Some (Some mv, 0) -> minv ∅ u1 L1 H' -> shrunk u L u1 L1 vs [mv] ->
  w_mamba u1 = without x (w_mamba u) -> (forall y, y ∈ ys -> y ∈ w_mamba u1) ->
  ckpts_evicted H' u1 L1 ys u' L' vs' mvs -> ckpts_evicted H' u L (x :: ys) u' L' (vs ++ vs') (mv :: mvs).
Proof.
  intros Hk Hinv1 Hsk Em Hys [C1 C2 C3 C4]. split.
  - done.
  - exact (shrunk_trans _ _ _ _ _ _ _ _ _ _ Hsk C2).
  - by rewrite C3, Em, filter_notin_cons.
  - constructor; [done|]. apply Forall2_same_length_lookup. split; [by eapply Forall2_length|].
    intros i y mv' Hy Hmv. pose proof (Forall2_lookup_lr _ _ _ _ _ _ C4 Hy Hmv) as Hk'.
    apply list_elem_of_lookup_2 in Hy. apply Hys, (minv_mamba Hinv1) in Hy as (HyL & _ & Hh).
    by rewrite <-(has_ckpt_shrunk _ _ _ _ _ _ y Hsk HyL Hh).
Qed.

Lemma evict_mamba_loop_sim H' fuel : forall u L num got,
  minv ∅ u L H' -> alloc_ok (m_alloc (w_base u)) -> (length (w_mamba u) < fuel)%nat ->
  exists vs mvs u' L',
    sim (evict_mamba_loop fuel num (pick (cand true u) (w_mamba u)) got) u
      (got + len (lru_unlocked (Z.to_nat (num - got)) u)) u' /\
    ckpts_evicted H' u L (lru_unlocked (Z.to_nat (num - got)) u) u' L' vs mvs.
Proof.
  induction fuel as [|fuel IH]; intros u L num got Hinv Hok Hf; [lia|].
  destruct (decide (got < num)) as [Hlt|Hge]; cycle 1.
  { exists [], [], u, L. replace (Z.to_nat (num - got)) with O by lia. cbn [evict_mamba_loop].
    rewrite decide_False, Z.add_0_r by done. split; [apply sim_ret|by apply ckpts_evicted_nil]. }
  destruct (pick (cand true u) (w_mamba u)) as [x|] eqn:Hp; cycle 1.
  { unfold pick in Hp. apply last_None in Hp. unfold lru_unlocked. rewrite Hp, reverse_nil, take_nil.
    exists [], [], u, L. cbn [evict_mamba_loop].
    rewrite decide_True, Z.add_0_r by done. split; [apply sim_ret|by apply ckpts_evicted_nil]. }
  destruct (evict_mamba_step H' u L x Hinv Hok Hp) as (mv & vs & u1 & L1 & Hk & Hinv1 & Hsk & Em & Hstep).
  assert (NoDup (w_mamba u)) as Hnd by apply (ck_mamba_nodup _ _ _ _ _ _ _ _ (mi_ck _ _ _ _ Hinv)).
  assert (x ∈ w_mamba u) as Hx by (by apply pick_elem in Hp as [? _]).
  destruct (IH u1 L1 num (got + 1) Hinv1 (sk_ok _ _ _ _ _ _ Hsk Hok)) as (vs' & mvs & u' & L' & Hsim & Hce).
  { rewrite Em. pose proof (Permutation_length (without_perm x (w_mamba u) Hnd Hx)) as Hl. simpl in Hl. lia. }
  set (k := Z.to_nat (num - (got + 1))) in *.
  assert (lru_unlocked (Z.to_nat (num - got)) u = x :: lru_unlocked k u1) as ->.
  { assert (filter (fun y => cand true u y = true) (without x (w_mamba u)) =
      filter (fun y => cand true u1 y = true) (w_mamba u1)) as EF.
    { rewrite <-Em. apply filter_ext_in. intros y Hy. by rewrite (cand_mamba_shrunk H' u L u1 L1 vs [mv] y). }
    unfold lru_unlocked. replace (Z.to_nat (num - got)) with (S k) by (unfold k; lia).
    rewrite (pick_reverse _ _ x Hnd Hp), EF. done. }
  exists (vs ++ vs'), (mv :: mvs), u', L'. split.
  - apply Hstep; [done|]. replace (got + len (x :: lru_unlocked k u1)) with (got + 1 + len (lru_unlocked k u1)); [done|].
    unfold len. simpl length. lia.
  - eapply ckpts_evicted_cons; try done. intros y. apply lru_unlocked_elem.
Qed.

(** *** [evict_full] *)

(** Evictions of the least recently used unlocked leaf, one after the other. *)
Inductive lru_evictions (H' : list nat) : mview A P -> gset nat -> list (list Z) -> list (list Z) -> mview A P -> gset nat -> Prop :=
  | lev_nil u L : minv ∅ u L H' -> lru_evictions H' u L [] [] u L
  | lev_cons u L x vs mv x' u1 L1 vs' mvs u' L' :
      pick (cand false u) (w_full u) = Some x -> evicted_leaf H' u L x vs mv x' u1 L1 ->
      lru_evictions H' u1 L1 vs' mvs u' L' -> lru_evictions H' u L (vs ++ vs') (mv :: mvs) u' L'.

Lemma lru_evictions_shrunk H' u L vs mvs u' L' :
  lru_evictions H' u L vs mvs u' L' -> minv ∅ u' L' H' /\ shrunk u L u' L' vs mvs.
Proof.
  induction 1 as [u L Hinv|u L x vs mv x' u1 L1 vs' mvs u' L' Hp Hel _ [IH1 IH2]]; [split; [done|by eapply shrunk_refl]|].
  split; [done|]. exact (shrunk_trans _ _ _ _ _ _ _ _ _ _ (el_shrunk _ _ _ _ _ _ _ _ _ Hel) IH2).
Qed.

Lemma pick_filter (q : nat -> bool) (X : gset nat) (l : list nat) :
  (forall y, y ∈ l -> y ∉ X -> q y = false) -> pick q (filter (fun y => y ∈ X) l) = pick q l.
Proof.
  intros Hq. unfold pick. rewrite list_filter_filter. f_equal. apply filter_ext_in. intros y Hy.
  split; [tauto|]. intros Hqy. split; [done|]. destruct (decide (y ∈ X)) as [|Hn]; [done|]. by rewrite Hq in Hqy.
Qed.

Lemma full_cand exc u L H' x :
  minv exc u L H' -> x ∈ w_full u -> exists m k, x ∈ L /\ x ≠ rt u /\ w_cores u !! x = Some m /\ w_ckpts u !! x = Some k /\
    (cand false u x = true <-> co_lock m = 0 /\ co_children m = []).
Proof.
  intros Hinv Hx. apply (minv_full Hinv) in Hx as [HxL Hxr]. destruct (minv_lookup Hinv x HxL) as (m & k & Hm & Hk).
  exists m, k. split_and!; try done. apply (cand_full u x m k Hm Hk). destruct (mi_tree _ _ _ _ Hinv) as [E HE].
  by apply (inv_lock_nonneg HE x m).
Qed.

Lemma internal_not_cand exc u L H' y : minv exc u L H' -> internal u y -> cand false u y = false.
Proof.
  intros Hinv (m & Hm & Hc). unfold cand, qualifies. rewrite Hm. destruct (w_ckpts u !! y); [|done].
  rewrite negb_false_iff, orb_true_iff. right. apply bool_decide_eq_true_2. destruct (co_children m); [done|simpl; lia].
Qed.

(** The search goes on from the node before the evicted one, if no leaf is new. *)
Lemma full_next H' u L x vs mv x' u1 L1 l1 l2 n' p' pn' :
  minv ∅ u L H' -> evicted_leaf H' u L x vs mv x' u1 L1 -> w_full u = l1 ++ x :: l2 ->
  (forall y, y ∈ l2 -> cand false u y = false) ->
  w_cores u1 !! x' = Some n' -> co_parent n' = Some p' -> w_cores u1 !! p' = Some pn' -> co_children pn' ≠ [] ->
  pick (cand false u) l1 = pick (cand false u1) (w_full u1).
Proof.
  intros Hinv Hel El Hl2 Hn' Hp' Hpn' Hch. pose proof (el_shrunk _ _ _ _ _ _ _ _ _ Hel) as Hsk.
  pose proof (el_inv _ _ _ _ _ _ _ _ _ Hel) as Hinv1. destruct (el_out _ _ _ _ _ _ _ _ _ Hel) as [_ HxL1].
  destruct (el_last _ _ _ _ _ _ _ _ _ Hel) as (n0 & p0 & Hn0 & Hp0 & Hp0L & Hint & Hsame).
  assert (p0 = p') as -> by congruence.
  assert (forall y, y ∈ w_full u1 -> cand false u1 y = cand false u y) as Hc.
  { intros y Hy. apply (minv_full Hinv1) in Hy as [HyL _]. destruct (decide (y = p')) as [->|Hne].
    - rewrite (internal_not_cand ∅ u L H' p' Hinv Hint). apply (internal_not_cand ∅ u1 L1 H' p' Hinv1). by exists pn'.
    - destruct (minv_lookup Hinv1 y HyL) as (m & k & Hm & Hk).
      destruct (minv_lookup Hinv y) as (m0 & k0 & Hm0 & Hk0); [by apply (sk_live _ _ _ _ _ _ Hsk)|].
      unfold cand, qualifies. by rewrite (Hsame y Hne HyL), Hk, Hk0. }
  rewrite (pick_ext _ _ _ Hc), (sk_full _ _ _ _ _ _ Hsk), El.
  assert (NoDup (w_full u)) as Hnd by apply (ck_full_nodup _ _ _ _ _ _ _ _ (mi_ck _ _ _ _ Hinv)).
  rewrite El in Hnd. apply NoDup_app in Hnd as (_ & Hdisj & _).
  rewrite filter_app, filter_cons_False by done.
  rewrite pick_app_none by (intros y [_ Hy]%list_elem_of_filter; by apply Hl2). symmetry. apply pick_filter.
  intros y Hy HyL1. apply (internal_not_cand ∅ u L H' y Hinv).
  destruct (el_gone _ _ _ _ _ _ _ _ _ Hel y) as [->|]; [|done|exfalso; apply (Hdisj x Hy); left|done].
  assert (y ∈ w_full u) as Hyf by (rewrite El; set_solver). by apply (minv_full Hinv) in Hyf as [? _].
Qed.

Lemma evict_full_step H' u L x :
  minv ∅ u L H' -> alloc_ok (m_alloc (w_base u)) -> pick (cand false u) (w_full u) = Some x ->
  exists vs mv x' u1 L1, evicted_leaf H' u L x vs mv x' u1 L1 /\
    forall fuel num got a u', got < num ->
      sim (evict_full_loop fuel num (pick (cand false u1) (w_full u1)) (got + sumZ len vs)) u1 a u' ->
      sim (evict_full_loop (S fuel) num (Some x) got) u a u'.
Proof.
  intros Hinv Hok Hpick. destruct (pick_split _ _ _ Hpick) as (l1 & l2 & El & Hcx & Hl2).
  assert (x ∈ w_full u) as Hxf by (rewrite El; set_solver).
  destruct (full_cand ∅ u L H' x Hinv Hxf) as (m & k & HxL & Hxr & Hm & Hk & Hc).
  apply Hc in Hcx as [Hl Hch]. destruct (leaf_exists ∅ u L H' x m Hinv HxL Hxr Hm Hl Hch) as (o & p & pn & c & Hlf).
  pose proof (mi_leaf _ _ _ _ Hinv x m HxL Hxr Hm Hch ltac:(set_solver)) as Hh.
  unfold has_ckpt in Hh. rewrite (lf_ckpt _ _ _ _ _ _ _ _ Hlf) in Hh. destruct o as [mv|]; [|done].
  destruct (evict_leaf_sim H' u L false x m mv p pn c l1 l2 Hinv Hok Hlf El) as (vs & x' & u1 & L1 & Hsim & Hel).
  exists vs, mv, x', u1, L1. split; [done|]. intros fuel num got a u' Hlt Hrest.
  destruct (el_last _ _ _ _ _ _ _ _ _ Hel) as (n' & p' & Hn' & Hp' & Hp'L & _).
  pose proof (el_inv _ _ _ _ _ _ _ _ _ Hel) as Hinv1. destruct (minv_lookup Hinv1 p' Hp'L) as (pn' & k' & Hpn' & _).
  cbn [evict_full_loop]. rewrite decide_True by done. sim_step sim_member.
  rewrite bool_decide_eq_true_2 by exact Hxf. sim_step sim_root.
  sim_step sim_assert; [by apply negb_true_iff, bool_decide_eq_false_2|].
  sim_step Hsim. eapply sim_read; [exact Hn'|]. intros nn _ _ En. sim_step sim_deref.
  { rewrite En in Hp'. exact Hp'. }
  eapply sim_read; [exact Hpn'|]. intros pp _ _ Ep. eapply sim_bind; [|cbv beta; exact Hrest].
  destruct (decide (n_children pp = [])) as [Hnil|Hne].
  - exact (sim_start ∅ u1 L1 H' false Hinv1).
  - rewrite (full_next H' u L x vs mv x' u1 L1 l1 l2 n' p' pn') by (done || by rewrite Ep). apply sim_ret.
Qed.

Lemma evict_full_loop_sim H' fuel : forall u L num got,
  minv ∅ u L H' -> alloc_ok (m_alloc (w_base u)) -> (size L < fuel)%nat ->
  exists vs mvs u' L',
    sim (evict_full_loop fuel num (pick (cand false u) (w_full u)) got) u (got + sumZ len vs) u' /\
    lru_evictions H' u L vs mvs u' L' /\
    (num <= got + sumZ len vs \/ full_evictable_size_ (w_base u') = 0).
Proof.
  induction fuel as [|fuel IH]; intros u L num got Hinv Hok Hf; [lia|].
  destruct (decide (got < num)) as [Hlt|Hge]; cycle 1.
  { exists [], [], u, L. cbn [evict_full_loop]. rewrite decide_False, Z.add_0_r by done.
    split_and!; [apply sim_ret|by constructor|lia]. }
  destruct (pick (cand false u) (w_full u)) as [x|] eqn:Hp; cycle 1.
  { exists [], [], u, L. cbn [evict_full_loop]. rewrite decide_True, Z.add_0_r by done.
    split_and!; [apply sim_ret|by constructor|right]. destruct (mi_tree _ _ _ _ Hinv) as [E HE].
    apply (inv_no_leaves HE). apply elem_of_equiv_empty_L. intros y Hy.
    apply (i_leaves _ _ _ _ _ _ _ _ _ HE) in Hy as (HyL & Hyr & m & Hm & Hl & Hc).
    assert (y ∈ w_full u) as Hyf by (by apply (minv_full Hinv)).
    destruct (full_cand ∅ u L H' y Hinv Hyf) as (m' & k & _ & _ & Hm' & _ & Hcand). simplify_eq.
    rewrite pick_none in Hp. rewrite (Hp y Hyf) in Hcand. naive_solver. }
  destruct (evict_full_step H' u L x Hinv Hok Hp) as (vs & mv & x' & u1 & L1 & Hel & Hstep).
  pose proof (el_shrunk _ _ _ _ _ _ _ _ _ Hel) as Hsk. destruct (el_out _ _ _ _ _ _ _ _ _ Hel) as [HxL HxL1].
  destruct (IH u1 L1 num (got + sumZ len vs) (el_inv _ _ _ _ _ _ _ _ _ Hel) (sk_ok _ _ _ _ _ _ Hsk Hok)) as
    (vs' & mvs & u' & L' & Hsim & Hev & Hend).
  { assert (size L1 < size L)%nat; [|lia]. apply subset_size. pose proof (sk_live _ _ _ _ _ _ Hsk). set_solver. }
  exists (vs ++ vs'), (mv :: mvs), u', L'. rewrite sumZ_app, Z.add_assoc.
  split_and!; [by apply Hstep|by econstructor|done].
Qed.

(** *** The order of eviction *)

(** [y] is more recently used than [x]. *)
Definition more_recent (l : list nat) (y x : nat) : Prop := exists l1 l2, l = l1 ++ y :: l2 /\ x ∈ l2.

Lemma more_recent_filter (Q : nat -> Prop) `{!forall x, Decision (Q x)} (l : list nat) y x :
  more_recent (filter Q l) y x -> more_recent l y x.
Proof.
  induction l as [|z l IH]; intros (l1 & l2 & E & Hx).
  - rewrite filter_nil in E. by destruct l1.
  - destruct (decide (Q z)) as [HQ|HQ].
    + rewrite filter_cons_True in E by done. destruct l1 as [|z' l1]; simpl in E; injection E as -> E.
      * exists [], l. split; [done|]. subst. by apply list_elem_of_filter in Hx as [_ ?].
      * destruct IH as (a & b & -> & Hb); [by exists l1, l2|]. by exists (z' :: a), b.
    + rewrite filter_cons_False in E by done. destruct IH as (a & b & -> & Hb); [by exists l1, l2|]. by exists (z :: a), b.
Qed.

(** A leaf that could be evicted still can, if it is there. *)
Lemma cand_kept H' u L x vs mv x' u1 L1 y :
  minv ∅ u L H' -> evicted_leaf H' u L x vs mv x' u1 L1 -> y ∈ L1 -> cand false u y = true -> cand false u1 y = true.
Proof.
  intros Hinv Hel Hy Hc. destruct (el_last _ _ _ _ _ _ _ _ _ Hel) as (n0 & p0 & _ & _ & _ & Hint & Hsame).
  assert (y ≠ p0) as Hne by (intros ->; by rewrite (internal_not_cand ∅ u L H' p0 Hinv Hint) in Hc).
  destruct (minv_lookup (el_inv _ _ _ _ _ _ _ _ _ Hel) y Hy) as (m & k & Hm & Hk).
  unfold cand, qualifies in *. rewrite (Hsame y Hne Hy), Hk. destruct (w_cores u !! y); [|done].
  by destruct (w_ckpts u !! y).
Qed.

(** The leaves that were evicted were less recently used than those that
    were not. *)
Lemma lru_evictions_order H' u L vs mvs u' L' x y :
  lru_evictions H' u L vs mvs u' L' -> minv ∅ u L H' -> x ∈ w_full u -> y ∈ w_full u ->
  cand false u x = true -> cand false u y = true -> x ∉ L' -> y ∈ L' -> more_recent (w_full u) y x.
Proof.
  induction 1 as [u L Hinv|u L z vs mv z' u1 L1 vs' mvs u' L' Hp Hel Hrest IH]; intros Hinv0 Hx Hy Hcx Hcy HxL HyL.
  { apply (minv_full Hinv0) in Hx as [? _]. done. }
  destruct (lru_evictions_shrunk _ _ _ _ _ _ _ Hrest) as [_ Hsk']. pose proof (sk_live _ _ _ _ _ _ Hsk' y HyL) as HyL1.
  pose proof (el_shrunk _ _ _ _ _ _ _ _ _ Hel) as Hsk. pose proof (sk_full _ _ _ _ _ _ Hsk) as Ef.
  destruct (decide (x ∈ L1)) as [HxL1|HxL1].
  - eapply more_recent_filter. rewrite <-Ef. apply IH; try done; [exact (el_inv _ _ _ _ _ _ _ _ _ Hel)|..].
    + rewrite Ef. by apply list_elem_of_filter.
    + rewrite Ef. by apply list_elem_of_filter.
    + by eapply cand_kept.
    + by eapply cand_kept.
  - assert (x ∈ L) as HxL0 by (by apply (minv_full Hinv0) in Hx as [? _]).
    destruct (el_gone _ _ _ _ _ _ _ _ _ Hel x HxL0 HxL1) as [->|Hint];
      [|by rewrite (internal_not_cand ∅ u L H' x Hinv0 Hint) in Hcx].
    destruct (pick_split _ _ _ Hp) as (l1 & l2 & El & _ & Hl2). rewrite El in Hy |- *.
    apply elem_of_app in Hy as [Hy|[->|Hy]%elem_of_cons]; [|done|by rewrite (Hl2 y Hy) in Hcy].
    apply list_elem_of_split in Hy as (a & b & ->). exists a, (b ++ z :: l2). rewrite <-app_assoc. split; [done|set_solver].
Qed.
End evict.
