(* ===== verification/MambaInsert.v ===== *)
(** * The prefix cache of hybrid models: insertion

    Runs of [insert] on a consistent cache.  On the way down the visited nodes
    become the most recently used ones and the caller's duplicates of cached
    slots are returned; at the end a checkpoint is set on the node of the key,
    or a new leaf is added below the node the descent has reached. *)

From S2P Require Import Prelude PyDict RadixKey KvEvents RadixTree RadixOps RadixInv RadixMoves.
From S2P Require Import RadixState RadixLocks RadixRun RadixEvents RadixInsert RadixSpec RadixEvict RadixLockOps.
From S2P Require Import RadixSlots MambaTree MambaOps LruFacts MambaView MambaRules MambaInv MambaRun MambaHold.
From S2P Require Import MambaShrink MambaEvict.

Section insert.
Context {A P : Type} `{KvFree A} `{!KvFreeTotal A} `{MambaSlots P} `{Sha256} `{!Sha256Laws}.
Implicit Types (s : MambaRadixCache A P) (u : mview A P) (L exc : gset nat) (x y p : nat) (b : bool).
Abbreviation cache := (MambaRadixCache A P).
Abbreviation MM := (M (MambaRadixCache A P)).
Abbreviation prm u := (m_params (w_base u)).
Abbreviation psz u := (page_size (m_params (w_base u))).
Abbreviation rt u := (m_root (w_base u)).
Abbreviation cnt u := (m_counter (w_base u)).

(** ** Recency and returned slots *)

(** [u'] is [u] with its lists in another order and [fs] returned to the
    allocator. *)
Record reordered u (fs : list (list Z)) u' : Prop := Reordered {
  ro_cores : w_cores u' = w_cores u;
  ro_ckpts : w_ckpts u' = w_ckpts u;
  ro_base : w_base u' = mu_alloc (free_all fs (m_alloc (w_base u))) (w_base u);
  ro_full : w_full u' ≡ₚ w_full u;
  ro_mamba : w_mamba u' ≡ₚ w_mamba u;
  ro_ok : alloc_ok (m_alloc (w_base u)) -> alloc_ok (m_alloc (w_base u'))
}.

Lemma reordered_refl u : reordered u [] u.
Proof. split; try done. by destruct u as [[] ? ? ? ?]. Qed.

Lemma reordered_trans u1 fs u2 fs' u3 :
  reordered u1 fs u2 -> reordered u2 fs' u3 -> reordered u1 (fs ++ fs') u3.
Proof.
  intros [A1 A2 A3 A4 A5 A6] [B1 B2 B3 B4 B5 B6]. split; try congruence; auto.
  - rewrite B3, A3. unfold free_all. by rewrite foldl_app.
  - by rewrite B4.
  - by rewrite B5.
Qed.

Lemma reordered_inv exc u fs u' L H' : minv exc u L H' -> reordered u fs u' -> minv exc u' L H'.
Proof.
  intros Hinv [E1 E2 E3 E4 E5 _]. destruct u' as [bs g c lf lm]. simpl in *. subst.
  apply (minv_permute (u := w_upd (fun _ => mu_alloc (free_all fs (m_alloc (w_base u))) (w_base u)) u)); try done.
  by apply (minv_base Hinv).
Qed.

(** The node is the most recently used one of both lists. *)
Definition touch_view u x : mview A P :=
  MView (w_base u) (w_cores u) (w_ckpts u) (x :: without x (w_full u))
    (if has_ckpt (w_ckpts u) x then x :: without x (w_mamba u) else w_mamba u).

Lemma touch_reordered exc u L H' x :
  minv exc u L H' -> x ∈ L -> x ≠ rt u -> reordered u [] (touch_view u x).
Proof.
  intros Hinv Hx Hr. pose proof (mi_ck _ _ _ _ Hinv) as Hck. split; try done.
  - by destruct u as [[] ? ? ? ?].
  - simpl. apply without_perm; [apply Hck|by apply (minv_full Hinv)].
  - simpl. destruct (has_ckpt (w_ckpts u) x) eqn:E; [|done]. apply without_perm; [apply Hck|by apply (minv_mamba Hinv)].
Qed.

Lemma sim_touch_lists exc u L H' x :
  minv exc u L H' -> x ∈ L -> x ≠ rt u -> sim (touch_lists x) u tt (touch_view u x).
Proof.
  intros Hinv Hx Hr. destruct (minv_lookup Hinv x Hx) as (m & k & Hm & Hk). unfold touch_lists.
  sim_step sim_reset_node_mru; [by apply (minv_full Hinv)|done|].
  eapply sim_read; [exact Hm|]. intros n _ Hkn ->. rewrite (evicted_ckpt _ _ _ Hkn). simpl.
  destruct (has_ckpt (w_ckpts u) x) eqn:E; simpl.
  - eapply sim_view_eq; [apply sim_reset_node_mru|].
    + by apply (minv_mamba Hinv).
    + exact E.
    + apply mview_ext; try done. simpl. by rewrite E.
  - eapply sim_view_eq; [apply sim_ret|]. apply mview_ext; try done. simpl. by rewrite E.
Qed.

(** *** Returning the caller's duplicates *)

Lemma sim_free_dups u (prev total pl : nat) (v : list Z) :
  alloc_ok (m_alloc (w_base u)) -> exists fs u',
  sim (if decide (prev < total + pl)%nat
       then let start := (prev - total)%nat in full_free (take (pl - start) (drop start v))
       else mret tt : MM unit) u tt u' /\
  concat fs = drop (prev - total) (take pl v) /\ reordered u fs u' /\ w_full u' = w_full u /\ w_mamba u' = w_mamba u.
Proof.
  intros Hok. rewrite skipn_firstn_comm. destruct (decide (prev < total + pl)%nat) as [Hlt|Hge].
  - cbv zeta. set (f := take (pl - (prev - total)) (drop (prev - total) v)).
    destruct (kv_free_total f _ Hok) as (a' & Hf & Hok'). exists [f], (w_upd (mu_alloc a') u).
    split; [by apply sim_full_free|]. split; [simpl; by rewrite app_nil_r|]. split; [|done]. split; try done.
    simpl. by rewrite Hf.
  - exists [], u. split; [apply sim_ret|]. split; [|split; [apply reordered_refl|done]].
    replace (pl - (prev - total))%nat with O by lia. done.
Qed.

Lemma dups_app (s pl m : nat) (v : list Z) :
  (pl ≤ length v)%nat -> drop s (take pl v) ++ drop (s - pl) (take m (drop pl v)) = drop s (take (pl + m) v).
Proof.
  intros Hl. rewrite <-take_take_drop, skipn_app. f_equal. rewrite length_take, Nat.min_l by done. done.
Qed.

(** ** The descent *)

Lemma mlanded_path exc u L H' w v j st last u' :
  minv exc u L H' -> desc (psz u) (w_cores u) (rt u) w v j st -> mlanded u L st last u' ->
  exists l, up (psz u) (rt u) (w_cores u') last l (take j w) v.
Proof.
  intros Hinv Hd Hland. pose proof (minv_ps Hinv) as Hps. pose proof (minv_shape Hinv) as Hs.
  pose proof (sh_root_in _ _ _ _ Hs) as Hr.
  assert (up (psz u) (rt u) (w_cores u) (rt u) [] [] []) as Hu by constructor. destruct st as [y|y i].
  - destruct Hland as [-> ->].
    destruct (desc_at _ _ Hps _ _ _ _ _ _ _ _ _ _ y Hs Hr Hu Hd eq_refl) as (Hy & (l & Hl) & _). by exists l.
  - destruct Hland as (-> & m & p & pn & ck & c' & h1 & h2 & Hsf & ->).
    destruct (desc_in _ _ Hps _ _ _ _ _ _ _ _ _ _ y i Hs Hr Hu Hd eq_refl) as
      (m' & p' & lp & k & vp & Hy & Hyr & Hm & Hp & HpL & -> & Hi & Hl & Hup & ->).
    pose proof (sf_node _ _ _ _ _ _ _ _ _ _ _ Hsf) as Em. rewrite Hm in Em. injection Em as <-.
    pose proof (sf_parent _ _ _ _ _ _ _ _ _ _ _ Hsf) as Ep. rewrite Hp in Ep. injection Ep as <-.
    destruct (split_up_of exc u L H' y i m' p' pn ck c' h1 h2 Hinv Hsf) as (_ & Hnew & _).
    exists (cnt u :: lp). rewrite <-take_take_drop, <-(lcp_take (pages (psz u) (co_key m')) (drop k w)) by lia.
    by apply Hnew.
Qed.

(** The loop stops at a node without a child for the rest of the key. *)
Lemma insert_loop_stop fuel prev u x k ck v total n :
  w_cores u !! x = Some n -> (key_len k ≠ O -> dict_get (co_children n) ck = None) ->
  sim (m_insert_loop (S fuel) prev x k ck v total) u (x, k, ck, v, total) u.
Proof.
  intros Hn Hck. cbn [m_insert_loop]. eapply sim_read; [exact Hn|]. intros n' _ _ ->. simpl in Hck.
  destruct (decide (key_len k = O)) as [|Hz]; [apply sim_ret|]. rewrite Hck by done. apply sim_ret.
Qed.

(** One iteration, up to the split. *)
Lemma insert_enter exc u L H' x n k ck child prev total v :
  minv exc u L H' -> alloc_ok (m_alloc (w_base u)) -> x ∈ L -> w_cores u !! x = Some n -> aligned (psz u) k ->
  key_len k ≠ O -> head (pages (psz u) k) = Some ck -> dict_get (co_children n) ck = Some child ->
  exists cn i fs u1, w_cores u !! child = Some cn /\ child ∈ L /\ child ≠ rt u /\
    i = lcp (pages (psz u) (co_key cn)) (pages (psz u) k) /\ (0 < i)%nat /\ (i * psz u ≤ key_len k)%nat /\
    ((i * psz u < key_len (co_key cn) /\ i < length (pages (psz u) (co_key cn)) \/
      key_len (co_key cn) ≤ i * psz u /\ i = length (pages (psz u) (co_key cn)))%nat) /\
    reordered u fs u1 /\ concat fs = drop (prev - total) (take (i * psz u) v) /\
    forall fuel a u', (forall t nn, mcore nn = cn -> t = (i * psz u)%nat ->
      sim (let k' := key_drop t k in
           next_node ← (if decide (t < key_len (n_key nn))%nat
                        then m_split_node (n_key nn) child t else mret child);
           ck' ← (if decide (key_len k' = O) then mret ck else lift_res (child_key (psz u) k'));
           m_insert_loop fuel prev next_node k' ck' (drop t v) (total + t)) u1 a u') ->
      sim (m_insert_loop (S fuel) prev x k ck v total) u a u'.
Proof.
  intros Hinv Hok Hx Hn Ha Hz Hck Hd.
  pose proof (pages_head_unit (psz u) (minv_ps Hinv) k ck Ha Hck) as Hpage.
  destruct (minv_child exc u L H' x n k ck child Hinv Hx Hn Hpage Hck Hd) as
    (cn & i & Hcn & HcL & Hcr & Hcp & Hval & Ei & Hpos & Hik & Hmatch & Hcase).
  pose proof (touch_reordered exc u L H' child Hinv HcL Hcr) as Ht.
  destruct (sim_free_dups (touch_view u child) prev total (i * psz u) v) as (fs & u1 & Hfree & Hfs & Hro & _); [done|].
  exists cn, i, fs, u1. split_and!; try done; [exact (reordered_trans _ _ _ _ _ Ht Hro)|].
  intros fuel a u' Hrest. cbn [m_insert_loop]. eapply sim_read; [exact Hn|]. intros n' _ _ ->. simpl in Hd.
  rewrite decide_False, Hd by done. apply sim_clock. intros t. sim_step sim_access.
  sim_step sim_touch_lists; [exact Hinv|exact HcL|exact Hcr|].
  eapply sim_read; [exact Hcn|]. intros cn' _ _ ->. sim_step sim_params. sim_step sim_lift; [exact Hmatch|].
  sim_step Hfree. exact (Hrest (i * psz u)%nat cn' eq_refl eq_refl).
Qed.

Lemma insert_loop_sim exc L H' fuel : forall u x k ck prev v total,
  minv exc u L H' -> alloc_ok (m_alloc (w_base u)) -> x ∈ L -> aligned (psz u) k ->
  (key_len k ≠ O -> head (pages (psz u) k) = Some ck) -> (key_len k < fuel)%nat -> length v = key_len k ->
  exists v0 j st last k' ck' fs u1 u',
    sim (m_insert_loop fuel prev x k ck v total) u
      (last, k', ck', drop (j * psz u) v, (total + j * psz u)%nat) u' /\
    desc (psz u) (w_cores u) x (pages (psz u) k) v0 j st /\
    reordered u fs u1 /\ mlanded u1 L st last u' /\
    concat fs = drop (prev - total) (take (j * psz u) v) /\
    key_len k' = (key_len k - j * psz u)%nat /\
    (key_len k' ≠ O -> k' = key_drop (j * psz u) k /\ head (pages (psz u) k') = Some ck' /\
      no_child (w_cores u') last ck').
Proof.
  induction fuel as [|fuel IH]; intros u x k ck prev v total Hinv Hok Hx Ha Hck Hf Hlen; [lia|].
  pose proof (minv_ps Hinv) as Hps. destruct (minv_lookup Hinv x Hx) as (n & kx & Hn & _).
  destruct (decide (key_len k = O)) as [Hz|Hz].
  { exists [], O, (AtNode x), x, k, ck, [], u, u.
    rewrite Nat.mul_0_l, drop_0, Nat.add_0_r, Nat.sub_0_r, take_0, skipn_nil. split_and!; try done.
    - by eapply insert_loop_stop.
    - apply (pages_nil (psz u) Hps k Ha) in Hz. rewrite Hz. constructor.
    - apply reordered_refl. }
  specialize (Hck Hz). destruct (dict_get (co_children n) ck) as [child|] eqn:Hd; cycle 1.
  { exists [], O, (AtNode x), x, k, ck, [], u, u.
    rewrite Nat.mul_0_l, drop_0, Nat.add_0_r, Nat.sub_0_r, take_0, skipn_nil. split_and!; try done.
    - by eapply insert_loop_stop.
    - by eapply desc_miss_at.
    - apply reordered_refl.
    - intros _. split_and!; [by rewrite key_drop_0 by auto|done|by exists n]. }
  destruct (insert_enter exc u L H' x n k ck child prev total v Hinv Hok Hx Hn Ha Hz Hck Hd) as
    (cn & i & fs & u1 & Hcn & HcL & Hcr & Ei & Hpos & Hik & Hcase & Hro & Hfs & Hrun).
  pose proof (reordered_inv _ _ _ _ _ _ Hinv Hro) as Hinv1.
  assert (prm u1 = prm u) as Ep by (by rewrite (ro_base _ _ _ Hro)).
  assert (rt u1 = rt u) as Er by (by rewrite (ro_base _ _ _ Hro)).
  assert (w_cores u1 !! child = Some cn) as Hcn1 by (by rewrite (ro_cores _ _ _ Hro)).
  destruct Hcase as [[Hlt Hil]|[Hge Hil]].
  - destruct (sim_split exc u1 L H' child i cn Hinv1 HcL) as (p & pn & ck1 & c' & h1 & h2 & Hsf & Hsim);
      [by rewrite Er|done|by rewrite Ep|].
    destruct (split_up_of exc u1 L H' child i cn p pn ck1 c' h1 h2 Hinv1 Hsf) as (_ & _ & Hnew & _).
    rewrite Ep in *.
    set (u2 := split_view u1 child i cn p pn ck1 c' h1 h2) in *.
    assert (psz u2 = psz u) as Ep2 by (change (psz u2) with (psz u1); by rewrite Ep).
    destruct (sim_next_key u2 k i ck) as (ck' & Hkey & Hck'); [by rewrite Ep2|by rewrite Ep2|]. rewrite Ep2 in *.
    assert (key_len (key_drop (i * psz u) k) ≠ O -> dict_get [(c', child)] ck' = None) as Hnone.
    { intros Hr. simpl. rewrite decide_False; [done|]. pose proof (sf_rest _ _ _ _ _ _ _ _ _ _ _ Hsf) as Hrest.
      specialize (Hck' Hr). rewrite Ep in Hrest. rewrite (pages_drop (psz u) Hps) in Hck'. rewrite Ei in Hrest, Hck'. by eapply lcp_differ. }
    exists (take (i * psz u) (co_val cn)), i, (Inside child i), (cnt u1), (key_drop (i * psz u) k), ck', fs, u1, u2.
    split_and!; try done.
    + apply Hrun. intros t nn <- ->. cbv zeta. simpl in Hlt. rewrite (decide_True _ _ Hlt). sim_step Hsim. sim_step Hkey.
      destruct fuel as [|fuel]; [lia|]. by eapply insert_loop_stop.
    + eapply desc_inside_at; [done..|by rewrite Ei|done].
    + split; [done|]. by do 7 eexists.
    + apply key_drop_len.
    + intros Hr. split_and!; [done|by apply Hck'|]. eexists. split; [exact Hnew|]. by apply Hnone.
  - destruct (sim_next_key u1 k i ck) as (ck' & Hkey & Hck'); [by rewrite Ep|by rewrite Ep|]. rewrite Ep in *.
    destruct (IH u1 child (key_drop (i * psz u) k) ck' prev (drop (i * psz u) v) (total + i * psz u)%nat) as
      (v0 & j & st & last & k' & ck1 & fs' & u2 & u' & Hsim & Hdesc & Hro' & Hland & Hfs' & Hlen' & Hend);
      rewrite ?Ep; try done.
    { by apply (ro_ok _ _ _ Hro). }
    { by apply aligned_drop. }
    { rewrite key_drop_len. nia. }
    { by rewrite length_drop, key_drop_len, Hlen. }
    rewrite Ep in *. exists (co_val cn ++ v0), (i + j)%nat, st, last, k', ck1, (fs ++ fs'), u2, u'. split_and!; try done.
    + apply Hrun. intros t nn <- ->. cbv zeta. simpl in Hge. apply Nat.nlt_ge in Hge. rewrite (decide_False _ _ Hge).
      sim_step sim_ret. sim_step Hkey. rewrite Nat.mul_add_distr_r, <-drop_drop, Nat.add_assoc. exact Hsim.
    + rewrite (pages_drop (psz u) Hps), Hil, (ro_cores _ _ _ Hro) in Hdesc. rewrite Hil.
      eapply desc_through_at; [done..|congruence|done].
    + exact (reordered_trans _ _ _ _ _ Hro Hro').
    + rewrite concat_app, Hfs, Hfs', Nat.mul_add_distr_r.
      replace (prev - (total + i * psz u))%nat with (prev - total - i * psz u)%nat by lia.
      apply dups_app. lia.
    + rewrite Hlen', key_drop_len. lia.
    + intros Hk'. destruct (Hend Hk') as (-> & Hh & Hno). rewrite key_drop_drop in *. by rewrite Nat.mul_add_distr_r.
Qed.

(** ** The end of an insertion *)

(** What an insertion of [w] with the slots [v] and the checkpoint [mv] does;
    [n] pages were cached with the slots [vs], and [e] tells whether the
    checkpoint was; [fs] are the slots returned. *)
Record inserted_view (H' : list nat) u L w (v mv : list Z) (n : nat) (e : bool) (vs : list Z) (fs : list (list Z)) u' L' :
    Prop := InsertedView {
  in_inv : minv ∅ u' L' H';
  in_live : L ⊆ L';
  in_rest : m_params (w_base u') = prm u /\ m_root (w_base u') = rt u /\ m_pool (w_base u') = m_pool (w_base u) /\
    enable_mamba_extra_buffer (w_base u') = enable_mamba_extra_buffer (w_base u) /\
    hit_tokens (w_base u') = hit_tokens (w_base u) /\ miss_tokens (w_base u') = miss_tokens (w_base u);
  in_alloc : m_alloc (w_base u') = free_all fs (m_alloc (w_base u)) /\ alloc_ok (m_alloc (w_base u'));
  in_stored w' v' : stored (psz u) (rt u) (w_cores u') L' w' v' <->
    stored (psz u) (rt u) (w_cores u) L w' v' \/
    (w' `prefix_of` w /\ (n < length w')%nat /\ v' = take (length w' * psz u) (vs ++ drop (n * psz u) v));
  in_up x l w' v' : x ∈ L -> up (psz u) (rt u) (w_cores u) x l w' v' ->
    exists l', up (psz u) (rt u) (w_cores u') x l' w' v';
  in_node : exists x l, x ∈ L' /\ x ≠ rt u /\
    up (psz u) (rt u) (w_cores u') x l w (vs ++ drop (n * psz u) v) /\
    has_ckpt (w_ckpts u') x = true /\ (e = false -> w_ckpts u' !! x = Some (Some mv, 0)) /\
    (forall y, y ∈ L -> y ≠ x \/ e = true -> w_ckpts u' !! y = w_ckpts u !! y) /\
    (forall y, y ∈ L' -> y ∉ L -> y ≠ x -> w_ckpts u' !! y = Some (None, 0)) /\
    (if e then x ∈ L else x ∈ L -> w_ckpts u !! x = Some (None, 0));
  in_sizes : full_evictable_size_ (w_base u') = full_evictable_size_ (w_base u) + len (drop (n * psz u) v) /\
    full_protected_size_ (w_base u') = full_protected_size_ (w_base u) /\
    mamba_evictable_size_ (w_base u') = mamba_evictable_size_ (w_base u) + (if e then 0 else 1) /\
    mamba_protected_size_ (w_base u') = mamba_protected_size_ (w_base u);
  in_occ i : set_sum (core_occ i (w_cores u')) L' = set_sum (core_occ i (w_cores u)) L + occ i (drop (n * psz u) v);
  in_ckocc i : set_sum (ck_occ i (w_ckpts u')) L' = set_sum (ck_occ i (w_ckpts u)) L + if e then 0 else occ i mv
}.

(** The slots and checkpoints after a descent. *)
Lemma mlanded_occ exc u L H' w v j st last u' :
  minv exc u L H' -> desc (psz u) (w_cores u) (rt u) w v j st -> mlanded u L st last u' ->
  exists L', minv exc u' L' H' /\
    (forall i, set_sum (core_occ i (w_cores u')) L' = set_sum (core_occ i (w_cores u)) L) /\
    (forall i, set_sum (ck_occ i (w_ckpts u')) L' = set_sum (ck_occ i (w_ckpts u)) L).
Proof.
  intros Hinv Hd Hland. destruct st as [y|y i]; simpl in Hland.
  - destruct Hland as [-> ->]. by exists L.
  - destruct Hland as (-> & m & p & pn & ck & c' & h1 & h2 & Hsf & ->). exists (L ∪ {[cnt u]}).
    split; [by apply minv_split|]. destruct (minv_fresh Hinv) as [Hf HfL]. split; intros j'.
    + destruct (mi_tree _ _ _ _ Hinv) as [E HE].
      set (V g c := View (prm u) g c (rt u) (full_evictable_size_ (w_base u)) (full_protected_size_ (w_base u)) E []
        (m_alloc (w_base u))).
      refine (split_occ (u := V (w_cores u) (cnt u)) (u' := V (w_cores (split_view u y i m p pn ck c' h1 h2)) (S (cnt u)))
        (H := H') j' HE _). destruct Hsf. by split.
    + rewrite set_sum_add by done. simpl. unfold ck_occ at 1. rewrite lookup_insert_eq.
      rewrite (set_sum_ext _ (ck_occ j' (w_ckpts u))); [done|]. intros x Hx. unfold ck_occ.
      rewrite lookup_insert_ne; [done|]. by intros <-.
Qed.

(** The whole key was cached. *)
Section found.
Context {u u1 u2 : mview A P} {L : gset nat} {H' : list nat} {w : list child_key_t} {v mv v0 : list Z}
  {st : stop} {last : nat} {fs : list (list Z)}.
Hypothesis Hinv : minv ∅ u L H'.
Hypothesis Hok : alloc_ok (m_alloc (w_base u)).
Hypothesis Hro : reordered u fs u1.
Hypothesis Hw : w ≠ [].
Hypothesis Hv : length v = (length w * psz u)%nat.
Hypothesis Hdesc : desc (psz u) (w_cores u) (rt u) w v0 (length w) st.
Hypothesis Hland : mlanded u1 L st last u2.

Definition found_view : mview A P :=
  if has_ckpt (w_ckpts u2) last then touch_view u2 last else revive_view u2 last mv.

Lemma found_inserted :
  length mv = 1%nat ->
  exists L', inserted_view H' u L w v mv (length w) (has_ckpt (w_ckpts u2) last) v0 fs found_view L' /\
    last ∈ L' /\ last ≠ rt u /\ minv ∅ u2 L' H'.
Proof.
  intros Hmv. pose proof (reordered_inv _ _ _ _ _ _ Hinv Hro) as Hinv1.
  destruct Hro as [R1 R2 R3 R4 R5 R6].
  assert (prm u1 = prm u /\ rt u1 = rt u) as [Ep Er] by (by rewrite R3).
  assert (desc (psz u1) (w_cores u1) (rt u1) w v0 (length w) st) as Hdesc1 by (by rewrite Ep, Er, R1).
  destruct (mlanded_spec ∅ u1 L H' _ _ _ _ _ _ Hinv1 Hdesc1 Hland) as
    (L' & Hinv2 & HL & Hlast & (S1 & S2 & S3 & S4 & S5 & S6 & S7) & (Z1 & Z2 & Z3 & Z4) & Hst & Hup & Hck & Hnew).
  destruct (mlanded_occ ∅ u1 L H' _ _ _ _ _ _ Hinv1 Hdesc1 Hland) as (L'' & Hinv2' & Hocc & Hckocc).
  assert (L'' = L') as -> by (eapply shape_unique; [exact (minv_shape Hinv2')|exact (minv_shape Hinv2)]).
  destruct (mlanded_path ∅ u1 L H' _ _ _ _ _ _ Hinv1 Hdesc1 Hland) as (l & Hu).
  rewrite firstn_all in Hu. rewrite Ep, Er, R1 in *.
  assert (last ≠ rt u) as Hlr.
  { intros ->. destruct (up_root_inv _ _ _ _ _ _ Hu) as (_ & E & _). done. }
  assert (drop (length w * psz u) v = []) as Ed by (rewrite <-Hv; apply drop_all).
  destruct (minv_lookup Hinv2 last Hlast) as (ml & [o z] & Hml & Hkl).
  assert (has_ckpt (w_ckpts u2) last = false -> w_ckpts u2 !! last = Some (None, 0)) as Htomb.
  { unfold has_ckpt. rewrite Hkl. destruct o; [done|]. intros _.
    destruct (ck_node _ _ _ _ _ _ _ _ (mi_ck _ _ _ _ Hinv2) last Hlast) as (o' & E & Ho & _); [by rewrite S2|].
    rewrite Hkl in E. injection E as <- ->. by rewrite Ho. }
  assert (minv ∅ found_view L' H') as Hinv3.
  { unfold found_view. destruct (has_ckpt (w_ckpts u2) last) eqn:He.
    - eapply reordered_inv; [exact Hinv2|]. eapply touch_reordered; [exact Hinv2|done|by rewrite S2].
    - eapply minv_revive; [done|done|by rewrite S2|by apply Htomb|done]. }
  assert (w_cores found_view = w_cores u2 /\ m_params (w_base found_view) = prm u2 /\ m_root (w_base found_view) = rt u2 /\
    m_pool (w_base found_view) = m_pool (w_base u2) /\ m_alloc (w_base found_view) = m_alloc (w_base u2) /\
    enable_mamba_extra_buffer (w_base found_view) = enable_mamba_extra_buffer (w_base u2) /\
    hit_tokens (w_base found_view) = hit_tokens (w_base u2) /\ miss_tokens (w_base found_view) = miss_tokens (w_base u2) /\
    full_evictable_size_ (w_base found_view) = full_evictable_size_ (w_base u2) /\
    full_protected_size_ (w_base found_view) = full_protected_size_ (w_base u2))
    as (F1 & F2 & F3 & F4 & F5 & F10 & F6 & F7 & F8 & F9).
  { unfold found_view. destruct (has_ckpt (w_ckpts u2) last); simpl; by rewrite ?Z.add_0_r. }
  assert (forall y, y ≠ last -> w_ckpts found_view !! y = w_ckpts u2 !! y) as Hother.
  { intros y Hy. unfold found_view. destruct (has_ckpt (w_ckpts u2) last); [done|]. simpl. by rewrite lookup_alter_ne. }
  assert (has_ckpt (w_ckpts u2) last = true -> last ∈ L) as HeL.
  { intros He. destruct (decide (last ∈ L)) as [|HnL]; [done|]. unfold has_ckpt in He. by rewrite (Hnew last Hlast HnL) in He. }
  rewrite R2 in Hck, Hckocc.
  exists L'. split; [|by split_and!]. split.
  - done.
  - done.
  - rewrite F2, F3, F4, F10, F6, F7, S1, S2, S4, S5, S6, S7, R3. done.
  - rewrite F5, S3. split; [by rewrite R3|by apply R6].
  - intros w' v'. rewrite F1, Hst. split; [by left|]. intros [?|(Hp & Hlt & _)]; [done|]. apply prefix_length in Hp. lia.
  - intros x l' w' v' _ Hx. rewrite F1. by eapply Hup.
  - exists last, l. rewrite F1, Ed, app_nil_r. split_and!; try done.
    + unfold found_view. destruct (has_ckpt (w_ckpts u2) last) eqn:He; [exact He|]. simpl.
      rewrite has_ckpt_alter by eauto. rewrite decide_True by done. by apply bool_decide_eq_true_2.
    + intros He. unfold found_view. rewrite He. simpl. by rewrite lookup_alter_eq, (Htomb He).
    + intros y Hy Hor. destruct (decide (y = last)) as [->|Hne]; [|rewrite Hother by done; by apply Hck].
      destruct Hor as [?|He]; [done|]. unfold found_view. rewrite He. by apply Hck.
    + intros y Hy HyL Hne. rewrite Hother by done. by apply Hnew.
    + destruct (has_ckpt (w_ckpts u2) last) eqn:He; [by apply HeL|]. intros HlL. rewrite <-Hck by done. by apply Htomb.
  - rewrite F8, F9, Z1, Z2, Ed. unfold found_view. rewrite R3.
    destruct (has_ckpt (w_ckpts u2) last); simpl; rewrite Z3, Z4, R3; unfold len; simpl; rewrite ?Hmv; split_and!; lia.
  - intros i. rewrite F1, Ed, occ_nil, Z.add_0_r. apply Hocc.
  - intros i. rewrite <-Hckocc. unfold found_view. destruct (has_ckpt (w_ckpts u2) last) eqn:He; [simpl; lia|].
    simpl. rewrite (set_sum_at (ck_occ i (w_ckpts u2)) _ last L' Hlast).
    + unfold ck_occ at 2 3. rewrite lookup_alter_eq, (Htomb eq_refl). simpl. lia.
    + intros y _ Hne. unfold ck_occ. by rewrite lookup_alter_ne.
Qed.
End found.

(** A new leaf below the node the descent has reached. *)
Section extended.
Context {u u1 u2 : mview A P} {L : gset nat} {H' : list nat} {w : list child_key_t} {v mv v0 : list Z}
  {st : stop} {last n : nat} {fs : list (list Z)} {qn : core_t} {ck : child_key_t} {k : RadixKey}
  {h : option (list string)}.
Hypothesis Hinv : minv ∅ u L H'.
Hypothesis Hok : alloc_ok (m_alloc (w_base u)).
Hypothesis Hro : reordered u fs u1.
Hypothesis Hdesc : desc (psz u) (w_cores u) (rt u) w v0 n st.
Hypothesis Hn : (n < length w)%nat.
Hypothesis Hland : mlanded u1 L st last u2.
Hypothesis Hqn : w_cores u2 !! last = Some qn.
Hypothesis Hfree : dict_get (co_children qn) ck = None.
Hypothesis Hk : aligned (psz u) k.
Hypothesis Hpk : pages (psz u) k = drop n w.
Hypothesis Hck : head (pages (psz u) k) = Some ck.
Hypothesis Hlv : length (drop (n * psz u) v) = key_len k.
Hypothesis Hhash : enable_kv_cache_events (prm u) = true -> hashed (psz u) (leaf_core last k (drop (n * psz u) v) h).
Hypothesis Hmv : length mv = 1%nat.

Lemma extended_inserted : exists L',
  inserted_view H' u L w v mv n false v0 fs (add_view u2 last qn ck k (drop (n * psz u) v) h mv) L'.
Proof.
  pose proof (reordered_inv _ _ _ _ _ _ Hinv Hro) as Hinv1. destruct Hro as [R1 R2 R3 R4 R5 R6].
  assert (prm u1 = prm u /\ rt u1 = rt u) as [Ep Er] by (by rewrite R3).
  assert (desc (psz u1) (w_cores u1) (rt u1) w v0 n st) as Hdesc1 by (by rewrite Ep, Er, R1).
  destruct (mlanded_spec ∅ u1 L H' _ _ _ _ _ _ Hinv1 Hdesc1 Hland) as
    (L' & Hinv2 & HL & Hlast & (S1 & S2 & S3 & S4 & S5 & S6 & S7) & (Z1 & Z2 & Z3 & Z4) & Hst & Hup & Hckp & Hnew).
  destruct (mlanded_occ ∅ u1 L H' _ _ _ _ _ _ Hinv1 Hdesc1 Hland) as (L'' & Hinv2' & Hocc & Hckocc).
  assert (L'' = L') as -> by (eapply shape_unique; [exact (minv_shape Hinv2')|exact (minv_shape Hinv2)]).
  destruct (mlanded_path ∅ u1 L H' _ _ _ _ _ _ Hinv1 Hdesc1 Hland) as (l & Hu).
  pose proof (minv_ps Hinv) as Hps. pose proof (minv_shape Hinv2) as Hs2.
  destruct (minv_fresh Hinv2) as [Hf HfL]. rewrite R2 in Hckp, Hckocc. rewrite Ep, Er, R1 in *. rewrite S1, S2 in Hs2.
  destruct (mi_tree _ _ _ _ Hinv2) as [E HE].
  assert (cnt u2 ≠ rt u) as Hcr by (intros E'; apply HfL; rewrite E'; exact (sh_root_in _ _ _ _ Hs2)).
  exists (L' ∪ {[cnt u2]}). split.
  - by apply minv_add; rewrite ?S1, ?S2.
  - set_solver.
  - simpl. rewrite S1, S2, S4, S5, S6, S7, R3. done.
  - simpl. rewrite S3. split; [by rewrite R3|by apply R6].
  - intros w' v'. cbn [w_cores add_view].
    rewrite (add_stored (psz u) (rt u) Hps (w_cores u2) L' last (cnt u2) qn ck k (drop (n * psz u) v) h Hs2 Hlast Hqn
      Hfree Hk Hck Hlv Hf l (take n w) v0 w' v' Hu).
    rewrite Hst, Hpk, take_drop. split; [|naive_solver].
    intros [?|[Hw' ->]]; [by left|]. destruct (decide (n < length w')%nat) as [Hlt|Hge]; [by right|left].
    pose proof (up_value_length _ _ Hps _ _ _ _ _ _ Hs2 Hlast Hu) as Hlen. rewrite length_take in Hlen.
    rewrite take_app_le by nia. apply Hst.
    apply (stored_prefix _ _ Hps _ _ _ _ _ (stored_node _ _ Hps _ _ _ _ _ _ Hs2 Hlast Hu)).
    destruct Hw' as [k' ->]. exists (take (n - length w') k'). rewrite take_app, take_ge by lia. done.
  - intros x l' w' v' _ Hx. destruct (Hup x l' w' v' Hx) as (l2 & Hx2). exists l2. by eapply add_up.
  - exists (cnt u2), (cnt u2 :: l). cbn [w_cores w_ckpts add_view]. unfold has_ckpt. rewrite lookup_insert_eq. split_and!; try done.
    + set_solver.
    + rewrite <-(take_drop n w), <-Hpk. by eapply (add_new_path (psz u) (rt u)).
    + intros y Hy _. rewrite lookup_insert_ne; [by apply Hckp|]. intros <-. set_solver.
    + intros y Hy HyL Hne. rewrite lookup_insert_ne by done. apply Hnew; [set_solver|done].
    + intros Hc. set_solver.
  - cbn [w_base add_view]. simpl. rewrite Z1, Z2, Z3, Z4, R3. unfold len. rewrite Hmv. simpl. split_and!; lia.
  - intros i. cbn [w_cores add_view]. rewrite <-Hocc. eapply add_occ; [exact HE|done|done].
  - intros i. cbn [w_ckpts add_view]. rewrite set_sum_add by done. rewrite <-Hckocc. unfold ck_occ at 1. rewrite lookup_insert_eq.
    rewrite (set_sum_ext _ (ck_occ i (w_ckpts u2))); [lia|]. intros x Hx. unfold ck_occ.
    rewrite lookup_insert_ne; [done|]. by intros <-.
Qed.
End extended.

(** *** The code *)

(** The end of [_insert_helper] when the key is exhausted. *)
Definition settle (node' : nat) (mamba_value_ : list Z) (total : nat) : MM (nat * bool) :=
  n ← mnode_at node';
  (if mamba_evicted n then
     mset node' (n_set_mamba (Some mamba_value_)) ≫= fun _ =>
     reset_node_mru false node' ≫= fun _ =>
     insert_mru true node' ≫= fun _ =>
     modify (mu_mamba (len mamba_value_) 0)
   else
     reset_node_mru false node' ≫= fun _ =>
     reset_node_mru true node') ≫= fun _ =>
  t' ← get_last_access_time;
  mset node' (n_set_access t') ≫= fun _ =>
  mret (total, negb (mamba_evicted n)).

Lemma settle_sim exc u L H' x mv total :
  minv exc u L H' -> x ∈ L -> x ≠ rt u ->
  sim (settle x mv total) u (total, has_ckpt (w_ckpts u) x)
    (if has_ckpt (w_ckpts u) x then touch_view u x else revive_view u x mv).
Proof.
  intros Hinv Hx Hr. destruct (minv_lookup Hinv x Hx) as (m & [o z] & Hm & Hk). unfold settle.
  eapply sim_read; [exact Hm|]. intros n _ Hkn ->. rewrite (evicted_ckpt _ _ _ Hkn).
  rewrite negb_involutive. destruct (has_ckpt (w_ckpts u) x) eqn:He; cbn [negb].
  - eapply sim_bind with (a := tt); cycle 1.
    { cbv beta. apply sim_clock. intros t. sim_step sim_access. apply sim_ret. }
    sim_step sim_reset_node_mru; [by apply (minv_full Hinv)|done|].
    eapply sim_view_eq; [apply sim_reset_node_mru|].
    + by apply (minv_mamba Hinv).
    + exact He.
    + apply mview_ext; try done. simpl. by rewrite He.
  - eapply sim_bind with (a := tt); cycle 1.
    { cbv beta. apply sim_clock. intros t. sim_step sim_access. apply sim_ret. }
    eapply sim_bind; [apply (sim_mset_ckpt _ _ (fun k => (Some mv, k.2))); done|cbv beta].
    sim_step sim_reset_node_mru; [by apply (minv_full Hinv)|done|].
    destruct (minv_not_end Hinv true x Hx) as [Hh Ht].
    sim_step sim_insert_mru; [exact Hm| |exact Hh|exact Ht| |].
    + simpl. rewrite (minv_mamba Hinv). rewrite He. by intros (_ & _ & ?).
    + unfold carries. simpl. by rewrite lookup_alter_eq, Hk.
    + eapply sim_view_eq; [apply sim_modify, base_only_mamba|]. by apply mview_ext.
Qed.

(** The end of [_insert_helper] when a part of the key is left. *)
Definition attach_leaf (node' : nat) (k' : RadixKey) (ck' : child_key_t) (v' mamba_value_ : list Z) (total : nat) :
    MM (nat * bool) :=
  new_node ← new_MambaNode;
  mset new_node (fun n => n_set_mamba (Some mamba_value_) (n_set_place (Some node') k' (Some v') n)) ≫= fun _ =>
  insert_mru false new_node ≫= fun _ =>
  insert_mru true new_node ≫= fun _ =>
  mset node' (fun n => n_set_children (dict_set (n_children n) ck' new_node) n) ≫= fun _ =>
  modify (mu_full (len v') 0) ≫= fun _ =>
  modify (mu_mamba (len mamba_value_) 0) ≫= fun _ =>
  record_store_event new_node ≫= fun _ =>
  mret (total, false).

Lemma add_cores_rehash g q x qn c k v h :
  q ≠ x -> <[x := rehash h (leaf_core q k v None)]> (add_cores g q x qn c k v None) = add_cores g q x qn c k v h.
Proof.
  intros Hne. unfold add_cores. rewrite insert_insert_ne by done. by rewrite insert_insert_eq.
Qed.

(** A run whose result depends on more than the view: the page hashes. *)
Definition sim_ex {B} (c : MM B) u (Q : B -> mview A P -> Prop) : Prop :=
  forall s, rep s u -> exists a s' u', c s = (Ok a, s') /\ rep s' u' /\ Q a u'.

Lemma sim_ex_bind {B C} (c : MM B) (k : B -> MM C) u a u1 Q :
  sim c u a u1 -> sim_ex (k a) u1 Q -> sim_ex (c ≫= k) u Q.
Proof.
  intros Hc Hk s Hs. destruct (Hc s Hs) as (s1 & Hr & Hs1). rewrite (bind_ok _ _ _ _ _ Hr). by apply Hk.
Qed.

Lemma sim_ex_of {B} (c : MM B) u a u' Q : sim c u a u' -> Q a u' -> sim_ex c u Q.
Proof. intros Hc HQ s Hs. destruct (Hc s Hs) as (s' & Hr & Hs'). eauto 8. Qed.

Lemma attach_leaf_sim u L H' q qn c k v mv total :
  minv ∅ u L H' -> q ∈ L -> w_cores u !! q = Some qn -> aligned (psz u) k ->
  (enable_kv_cache_events (prm u) = true -> tokens_fit k) ->
  sim_ex (attach_leaf q k c v mv total) u (fun a u' => exists h, a = (total, false) /\ u' = add_view u q qn c k v h mv /\
    (enable_kv_cache_events (prm u) = true -> hashed (psz u) (leaf_core q k v h))).
Proof.
  intros Hinv Hq Hqn Ha Hfit. destruct (minv_fresh Hinv) as [Hf HfL].
  assert (q ≠ cnt u) as Hqc by (by intros ->). destruct (mi_tree _ _ _ _ Hinv) as [E HE].
  destruct (minv_fresh_end Hinv false) as [Hch Hct]. destruct (minv_fresh_end Hinv true) as [Hch' Hct'].
  assert (cnt u ∉ w_full u) as Hnf by (rewrite (minv_full Hinv); tauto).
  assert (cnt u ∉ w_mamba u) as Hnm by (rewrite (minv_mamba Hinv); tauto).
  unfold attach_leaf. eapply sim_ex_bind; [by apply sim_new|cbv beta].
  eapply sim_ex_bind; [apply (sim_mset _ _ (with_place (Some q) k (Some v)) (fun k => (Some mv, k.2))); done|cbv beta].
  eapply sim_ex_bind; [eapply sim_insert_mru; [simpl; by rewrite lookup_alter_eq, lookup_insert_eq|exact Hnf|exact Hch|exact Hct|reflexivity]|cbv beta].
  eapply sim_ex_bind; [eapply sim_insert_mru; [simpl; by rewrite lookup_alter_eq, lookup_insert_eq|exact Hnm|exact Hch'|exact Hct'|]|cbv beta].
  { unfold carries. simpl. by rewrite lookup_alter_eq, lookup_insert_eq. }
  eapply sim_ex_bind; [apply (sim_mset_core _ _ (fun m => refile m c (cnt u))); done|cbv beta].
  eapply sim_ex_bind; [apply sim_modify, base_only_full|]. eapply sim_ex_bind; [apply sim_modify, base_only_mamba|].
  match goal with |- sim_ex _ ?u0 _ => assert (u0 = add_view u q qn c k v None mv) as -> end.
  { apply mview_ext; cbn [w_base w_cores w_ckpts w_full w_mamba w_upd w_nodes w_relist add_view].
    - reflexivity.
    - cbn [w_fresh w_cores]. rewrite alter_insert_eq. unfold add_cores. apply map_eq. intros y.
      destruct (decide (y = q)) as [->|Hne].
      + by rewrite lookup_alter_eq, lookup_insert_ne, lookup_insert_eq, Hqn.
      + by rewrite lookup_alter_ne, (lookup_insert_ne _ q y) by done.
    - cbn [w_fresh w_ckpts]. by rewrite alter_insert_eq.
    - reflexivity.
    - reflexivity. }
  intros s Hs.
  destruct (store_event_rep (cnt u) (add_view u q qn c k v None mv) (leaf_core q k v None) q (refile qn c (cnt u)) s)
    as (h & s' & Hr & Hrep & Hh); try done.
  - exact (minv_ps Hinv).
  - simpl. unfold add_cores. by rewrite lookup_insert_ne, lookup_insert_eq.
  - simpl. unfold add_cores. by rewrite lookup_insert_eq.
  - intros He Hqr. exact (i_hash _ _ _ _ _ _ _ _ _ HE He q qn Hq Hqr Hqn).
  - eexists _, s', _. split; [rewrite (bind_ok _ _ _ _ _ Hr); reflexivity|]. split; [exact Hrep|]. exists h.
    split; [done|]. split; [|exact Hh]. unfold w_nodes, add_view. cbn [w_base w_cores w_ckpts w_full w_mamba id].
    f_equal. by apply add_cores_rehash.
Qed.

(** *** [insert] *)

Lemma insert_sim u L H' k v mv prev :
  minv ∅ u L H' -> alloc_ok (m_alloc (w_base u)) -> disable (prm u) = false -> aligned (psz u) k ->
  key_len k ≠ O -> length v = key_len k -> length mv = 1%nat ->
  (enable_kv_cache_events (prm u) = true -> tokens_fit k) ->
  sim_ex (m_insert k (Some v) (Some mv) prev) u (fun a u' => exists n e vs fs L',
    a = ((n * psz u)%nat, e) /\ (n ≤ length (pages (psz u) k))%nat /\
    (exists st, desc (psz u) (w_cores u) (rt u) (pages (psz u) k) vs n st) /\
    inserted_view H' u L (pages (psz u) k) v mv n e vs fs u' L' /\ concat fs = drop prev (take (n * psz u) v)).
Proof.
  intros Hinv Hok Hdis Ha Hz Hlen Hmv Hfit. pose proof (minv_ps Hinv) as Hps. pose proof (minv_shape Hinv) as Hs.
  destruct (next_page (psz u) k 0 Hps Ha) as (ck & Hck & Hh); [by rewrite key_drop_0 by auto|].
  rewrite key_drop_0 in Hck, Hh by auto.
  destruct (insert_loop_sim ∅ L H' (S (key_len k)) u (rt u) k ck prev v 0) as
    (v0 & n & st & last & k' & ck' & fs & u1 & u2 & Hrun & Hdesc & Hro & Hland & Hfs & Hk' & Hend); try done;
    [by apply sh_root_in with (1 := Hs)|lia|]. rewrite Nat.add_0_l in Hrun. rewrite Nat.sub_0_r in Hfs.
  set (w := pages (psz u) k) in *. pose proof (proj1 (aligned_len (psz u) Hps k) Ha) as Hal. fold w in Hal.
  assert (n ≤ length w)%nat as Hn.
  { eapply desc_length; [exact Hps|exact Hs|exact (sh_root_in _ _ _ _ Hs)|exact Hdesc]. }
  assert (forall Q, sim_ex (if decide (key_len k' = O) then settle last mv (n * psz u)
    else attach_leaf last k' ck' (drop (n * psz u) v) mv (n * psz u)) u2 Q ->
    sim_ex (m_insert k (Some v) (Some mv) prev) u Q) as Hpre.
  { intros Q HQ. unfold m_insert. eapply sim_ex_bind; [apply sim_prm|cbv beta]. rewrite Hdis.
    eapply sim_ex_bind; [apply sim_root|cbv beta]. unfold m_insert_helper. simpl default.
    intros s Hrep. unfold get_last_access_time at 1. erewrite bind_ok by reflexivity. cbv beta.
    apply (rep_clock s u (access_counter s + 100000)) in Hrep. revert Hrep. generalize (mu_access (access_counter s + 100000) s).
    generalize (access_counter s). clear s. intros t s. revert s.
    change (sim_ex (mset (rt u) (n_set_access t) ≫= fun _ =>
      root ← gets m_root;
      (if decide (rt u = root) then mret tt else touch_lists (rt u)) ≫= fun _ =>
      if decide (key_len k = O) then mret (O, true)
      else
        ps ← gets (fun s : cache => page_size (m_params s));
        ck ← lift_res (child_key ps k);
        '(node', k', ck', v', total) ← m_insert_loop (S (key_len k)) prev (rt u) k ck v 0;
        if decide (key_len k' = O) then settle node' mv total else attach_leaf node' k' ck' v' mv total) u Q).
    eapply sim_ex_bind; [apply sim_access|cbv beta]. eapply sim_ex_bind; [apply sim_root|cbv beta].
    rewrite (decide_True _ _ (eq_refl (rt u))). eapply sim_ex_bind; [apply sim_ret|cbv beta].
    rewrite (decide_False _ _ Hz). eapply sim_ex_bind; [apply sim_params|cbv beta]. eapply sim_ex_bind; [apply sim_lift; exact Hck|cbv beta].
    eapply sim_ex_bind; [exact Hrun|]. exact HQ. }
  apply Hpre. clear Hpre. destruct (decide (key_len k' = O)) as [Hz'|Hz'].
  - assert (n = length w) as -> by nia.
    assert (w ≠ []) as Hw by (intros E; rewrite E in Hal; simpl in Hal; lia).
    assert (length v = (length w * psz u)%nat) as Hlv by (by rewrite Hlen).
    destruct (found_inserted (mv := mv) Hinv Hok Hro Hw Hlv Hdesc Hland Hmv) as (L' & Hins & HlL & Hlr & Hinv2).
    eapply sim_ex_of; [eapply settle_sim; [exact Hinv2|done|]|].
    + destruct (in_rest _ _ _ _ _ _ _ _ _ _ _ _ Hins) as (_ & Er & _). intros ->. apply Hlr.
      rewrite <-Er. unfold found_view. by destruct (has_ckpt _ _).
    + exists (length w). do 4 eexists. split; [reflexivity|]. split; [done|]. split; [by exists st|]. split; [exact Hins|done].
  - destruct (Hend Hz') as (-> & Hh' & qn & Hqn & Hfree).
    pose proof (reordered_inv _ _ _ _ _ _ Hinv Hro) as Hinv1.
    assert (prm u1 = prm u /\ rt u1 = rt u /\ w_cores u1 = w_cores u) as (Ep & Er & Ec).
    { rewrite (ro_base _ _ _ Hro). split_and!; [done|done|apply (ro_cores _ _ _ Hro)]. }
    destruct (mlanded_spec ∅ u1 L H' w v0 n st last u2 Hinv1) as (L2 & Hinv2 & _ & HlL & (Ep2 & _) & _);
      [by rewrite Ep, Er, Ec|done|]. rewrite Ep in Ep2.
    assert (aligned (psz u) (key_drop (n * psz u) k)) as Ha' by (by apply aligned_drop).
    pose proof (attach_leaf_sim u2 L2 H' last qn ck' (key_drop (n * psz u) k) (drop (n * psz u) v) mv (n * psz u)%nat Hinv2 HlL Hqn)
      as Hat. rewrite Ep2 in Hat. specialize (Hat Ha' ltac:(intros He; by apply tokens_fit_slice, Hfit)).
    intros s Hs2. destruct (Hat s Hs2) as (a & s' & u' & Hr & Hrep & h & -> & -> & Hhash).
    exists (n * psz u, false)%nat, s'. eexists. split; [exact Hr|]. split; [exact Hrep|].
    assert (n < length w)%nat as Hnw by (rewrite key_drop_len in Hz'; nia).
    assert (pages (psz u) (key_drop (n * psz u) k) = drop n w) as Hpk by (by rewrite (pages_drop (psz u) Hps)).
    assert (length (drop (n * psz u) v) = key_len (key_drop (n * psz u) k)) as Hlv
      by (by rewrite length_drop, key_drop_len, Hlen).
    destruct (extended_inserted Hinv Hok Hro Hdesc Hnw Hland Hqn Hfree Ha' Hpk Hh' Hlv Hhash Hmv) as (L' & Hins).
    exists n, false, v0, fs, L'. split; [done|]. split; [done|]. split; [by exists st|]. done.
Qed.
End insert.
