(* ===== verification/MambaMatch.v ===== *)
(** * The prefix cache of hybrid models: lookup

    Runs of [match_prefix]: the descent finds the longest cached prefix, and
    the result is the longest prefix of it that ends in a node with a
    checkpoint.  With copy-on-write a slot for the request's own copy of the
    checkpoint is found, by evicting the least recently used checkpoint if the
    pool is empty; the matched node is locked meanwhile. *)

From S2P Require Import Prelude PyDict RadixKey KvEvents RadixTree RadixOps RadixInv RadixMoves.
From S2P Require Import RadixState RadixLocks RadixRun RadixEvents RadixInsert RadixSpec RadixEvict RadixLockOps.
From S2P Require Import RadixSlots MambaTree MambaOps LruFacts MambaView MambaRules MambaInv MambaRun MambaHold.
From S2P Require Import MambaShrink MambaEvict MambaInsert.

(** The pool of recurrent states hands out the first free slots. *)
Class MambaSlotsLaws (P : Type) `{MambaSlots P} := {
  ms_slots : P -> list Z;
  ms_alloc_ok n p : (n ≤ length (ms_slots p))%nat ->
    exists p', ms_alloc n p = (Some (take n (ms_slots p)), p') /\ ms_slots p' = drop n (ms_slots p);
  ms_alloc_fail n p : (length (ms_slots p) < n)%nat -> ms_alloc n p = (None, p);
  ms_free_slots l p : ms_slots (ms_free l p) = ms_slots p ++ l;
  ms_available_slots p : ms_available p = len (ms_slots p)
}.

Section lookup.
Context {A P : Type} `{KvFree A} `{!KvFreeTotal A} `{MambaSlots P} `{!MambaSlotsLaws P} `{Sha256} `{!Sha256Laws}.
Implicit Types (s : MambaRadixCache A P) (u : mview A P) (L exc : gset nat) (x y p : nat) (b : bool).
Abbreviation cache := (MambaRadixCache A P).
Abbreviation MM := (M (MambaRadixCache A P)).
Abbreviation prm u := (m_params (w_base u)).
Abbreviation psz u := (page_size (m_params (w_base u))).
Abbreviation rt u := (m_root (w_base u)).
Abbreviation cnt u := (m_counter (w_base u)).

(** The live nodes are the root and the nodes of the first list. *)
Lemma minv_live_unique exc exc' u L L' H' H0' : minv exc u L H' -> minv exc' u L' H0' -> L = L'.
Proof.
  intros Hinv Hinv'. apply set_eq. intros x.
  pose proof (sh_root_in _ _ _ _ (minv_shape Hinv)) as Hr. pose proof (sh_root_in _ _ _ _ (minv_shape Hinv')) as Hr'.
  destruct (decide (x = rt u)) as [->|Hne]; [done|].
  pose proof (minv_full Hinv x) as H1'. pose proof (minv_full Hinv' x) as H2'. tauto.
Qed.

(** A checkpoint on a path is the deepest one or above it. *)
Lemma best_above (c : ckpts) ps r g last l w v y x lx wx vx :
  up ps r g last l w v -> y ∈ l -> has_ckpt c y = true -> x = best c r l -> up ps r g x lx wx vx -> y ∈ lx.
Proof.
  intros Hu Hy Hc -> Hx. induction Hu as [|z n p l w v Hz Hg Hp Hu IH]; [by apply elem_of_nil in Hy|].
  rewrite best_cons in Hx. destruct (has_ckpt c z) eqn:Ez.
  - assert (up ps r g z (z :: l) (w ++ pages ps (co_key n)) (v ++ co_val n)) as Hz' by (by eapply up_node).
    by destruct (up_fun _ _ _ _ _ _ _ _ _ _ Hx Hz') as (-> & _).
  - apply IH; [|done]. apply elem_of_cons in Hy as [->|]; [congruence|done].
Qed.

(** *** [evict] *)

Lemma live_dom exc u L H' : minv exc u L H' -> (size L ≤ size (w_cores u))%nat.
Proof.
  intros Hinv. rewrite <-(size_dom (w_cores u)). apply subseteq_size. intros y Hy. apply elem_of_dom.
  by apply (shape_lookup _ _ _ _ y (minv_shape Hinv)).
Qed.

Lemma mamba_fuel exc u L H' : minv exc u L H' -> (length (w_mamba u) < S (size (w_cores u)))%nat.
Proof.
  intros Hinv. pose proof (live_dom exc u L H' Hinv) as Hl. pose proof (mi_ck _ _ _ _ Hinv) as Hck.
  rewrite <-(size_list_to_set (C := gset nat) (w_mamba u)) by apply Hck.
  assert (size (list_to_set (w_mamba u) : gset nat) ≤ size L)%nat; [|lia]. apply subseteq_size.
  intros y Hy%elem_of_list_to_set. by apply (minv_mamba Hinv) in Hy as [? _].
Qed.

Lemma evict_mamba_sim u L H' num :
  minv ∅ u L H' -> alloc_ok (m_alloc (w_base u)) -> disable (prm u) = false ->
  exists vs mvs u' L', sim (evict_mamba num) u (len (lru_unlocked (Z.to_nat num) u)) u' /\
    ckpts_evicted H' u L (lru_unlocked (Z.to_nat num) u) u' L' vs mvs.
Proof.
  intros Hinv Hok Hdis. unfold evict_mamba. destruct (bool_decide (num <= 0)) eqn:Hn.
  - apply bool_decide_eq_true in Hn. exists [], [], u, L. replace (Z.to_nat num) with O by lia.
    split; [|by apply ckpts_evicted_nil]. sim_step sim_prm. rewrite orb_true_r. apply sim_ret.
  - apply bool_decide_eq_false in Hn.
    destruct (evict_mamba_loop_sim H' (S (size (w_cores u))) u L num 0 Hinv Hok (mamba_fuel ∅ u L H' Hinv)) as
      (vs & mvs & u' & L' & Hsim & Hce). rewrite Z.sub_0_r in *. rewrite Z.add_0_l in Hsim.
    exists vs, mvs, u', L'. split; [|done]. sim_step sim_prm. rewrite Hdis. simpl orb.
    sim_step (sim_start ∅ u L H' true Hinv). sim_step sim_fuel. exact Hsim.
Qed.

(** Nothing is evictable when every checkpoint is held. *)
Lemma no_unlocked exc u L H' :
  minv exc u L H' -> (forall y, y ∈ w_mamba u -> cand true u y = false) -> mamba_evictable_size_ (w_base u) = 0.
Proof.
  intros Hinv Hno. pose proof (mi_ck _ _ _ _ Hinv) as Hck. rewrite (ck_ev _ _ _ _ _ _ _ _ Hck).
  rewrite (set_sum_ext _ (fun _ => 0)); [unfold set_sum; induction (elements _); simpl; lia|].
  intros y [Hy Hyr]%elem_of_difference. assert (y ≠ rt u) as Hne by set_solver.
  destruct (ck_node _ _ _ _ _ _ _ _ Hck y Hy Hne) as (o & Ek & _). unfold ck_size. rewrite Ek. destruct o as [mv|]; [|done].
  assert (y ∈ w_mamba u) as Hym by (apply (minv_mamba Hinv); split_and!; [done|done|unfold has_ckpt; by rewrite Ek]).
  destruct (minv_lookup Hinv y Hy) as (m & k & Hm & _). unfold unlocked. rewrite bool_decide_eq_false_2; [done|].
  intros E. specialize (Hno y Hym). apply not_true_iff_false in Hno. apply Hno.
  apply (cand_mamba u y m (Some mv) (held H' y) Hm Ek); [apply held_nonneg|done].
Qed.

(** [evict_mamba] evicts enough. *)
Lemma evicted_enough u L H' num u' L' vs mvs :
  minv ∅ u L H' -> ckpts_evicted H' u L (lru_unlocked (Z.to_nat num) u) u' L' vs mvs ->
  num <= len (lru_unlocked (Z.to_nat num) u) \/ mamba_evictable_size_ (w_base u') = 0.
Proof.
  intros Hinv [C1 C2 C3 _]. destruct (decide (num <= len (lru_unlocked (Z.to_nat num) u))) as [|Hlt]; [by left|right].
  apply (no_unlocked ∅ u' L' H' C1). intros y Hy.
  rewrite (cand_mamba_shrunk H' u L u' L' vs mvs y Hinv C1 C2 Hy). rewrite C3 in Hy.
  apply list_elem_of_filter in Hy as [Hys Hy]. apply not_true_iff_false. intros Hc. apply Hys. unfold lru_unlocked.
  rewrite take_ge; [rewrite elem_of_reverse; by apply list_elem_of_filter|].
  unfold lru_unlocked, len in Hlt. rewrite length_take in Hlt. lia.
Qed.

Lemma evict_full_sim u L H' num :
  minv ∅ u L H' -> alloc_ok (m_alloc (w_base u)) -> disable (prm u) = false ->
  exists vs mvs u' L', sim (evict_full num) u (sumZ len vs) u' /\ lru_evictions H' u L vs mvs u' L' /\
    (num <= sumZ len vs \/ full_evictable_size_ (w_base u') = 0).
Proof.
  intros Hinv Hok Hdis. unfold evict_full. destruct (bool_decide (num <= 0)) eqn:Hn.
  - apply bool_decide_eq_true in Hn. exists [], [], u, L.
    split_and!; [|by constructor|left; unfold sumZ; simpl; lia]. sim_step sim_prm. rewrite orb_true_r. apply sim_ret.
  - apply bool_decide_eq_false in Hn. pose proof (live_dom ∅ u L H' Hinv) as Hl.
    destruct (evict_full_loop_sim H' (S (size (w_cores u))) u L num 0 Hinv Hok ltac:(lia)) as
      (vs & mvs & u' & L' & Hsim & Hev & Hend). rewrite Z.add_0_l in *.
    exists vs, mvs, u', L'. split; [|done]. sim_step sim_prm. rewrite Hdis. simpl orb.
    sim_step (sim_start ∅ u L H' false Hinv). sim_step sim_fuel. exact Hsim.
Qed.

(** Room for one checkpoint. *)
Lemma evict_one_sim u L H' :
  minv ∅ u L H' -> alloc_ok (m_alloc (w_base u)) -> disable (prm u) = false ->
  exists vs mvs u' L', sim (m_evict 0 1) u (0, len (lru_unlocked 1 u)) u' /\
    ckpts_evicted H' u L (lru_unlocked 1 u) u' L' vs mvs.
Proof.
  intros Hinv Hok Hdis. destruct (evict_mamba_sim u L H' 1 Hinv Hok Hdis) as (vs & mvs & u' & L' & Hsim & Hce).
  exists vs, mvs, u', L'. split; [|exact Hce]. unfold m_evict. sim_step sim_prm. rewrite Hdis.
  sim_step sim_ret. sim_step Hsim. apply sim_ret.
Qed.

Lemma evict_sim u L H' nt nm :
  minv ∅ u L H' -> alloc_ok (m_alloc (w_base u)) -> disable (prm u) = false ->
  exists f m vs mvs u' L', sim (m_evict nt nm) u (f, m) u' /\ minv ∅ u' L' H' /\ shrunk u L u' L' vs mvs /\
    (nt <= f \/ full_evictable_size_ (w_base u') = 0) /\ (nm <= m \/ mamba_evictable_size_ (w_base u') = 0).
Proof.
  intros Hinv Hok Hdis.
  assert (exists f vs mvs u1 L1, sim (if decide (0 < nt) then evict_full nt else mret 0) u f u1 /\ minv ∅ u1 L1 H' /\
    shrunk u L u1 L1 vs mvs /\ (nt <= f \/ full_evictable_size_ (w_base u1) = 0)) as (f & vs & mvs & u1 & L1 & Hs1 & Hi1 & Hk1 & Hf).
  { destruct (decide (0 < nt)).
    - destruct (evict_full_sim u L H' nt Hinv Hok Hdis) as (vs & mvs & u1 & L1 & Hsim & Hev & Hend).
      destruct (lru_evictions_shrunk _ _ _ _ _ _ _ Hev) as [Hi Hk]. exists (sumZ len vs), vs, mvs, u1, L1. split_and!; [exact Hsim|exact Hi|exact Hk|exact Hend].
    - exists 0, [], [], u, L. split_and!; [apply sim_ret|done|by eapply shrunk_refl|left; lia]. }
  destruct (sk_frame _ _ _ _ _ _ Hk1) as (Ep & _). pose proof (sk_ok _ _ _ _ _ _ Hk1 Hok) as Hok1.
  assert (exists m vs mvs u2 L2, sim (if decide (0 < nm) then evict_mamba nm else mret 0) u1 m u2 /\ minv ∅ u2 L2 H' /\
    shrunk u1 L1 u2 L2 vs mvs /\ (nm <= m \/ mamba_evictable_size_ (w_base u2) = 0)) as (m & vs' & mvs' & u2 & L2 & Hs2 & Hi2 & Hk2 & Hm).
  { destruct (decide (0 < nm)).
    - destruct (evict_mamba_sim u1 L1 H' nm Hi1 Hok1) as (vs' & mvs' & u2 & L2 & Hsim & Hce); [by rewrite Ep|].
      pose proof (evicted_enough _ _ _ _ _ _ _ _ Hi1 Hce). destruct Hce as [Hi Hk _ _]. eexists _, vs', mvs', u2, L2. split_and!; [exact Hsim|exact Hi|exact Hk|done].
    - exists 0, [], [], u1, L1. split_and!; [apply sim_ret|done|by eapply shrunk_refl|left; lia]. }
  exists f, m, (vs ++ vs'), (mvs ++ mvs'), u2, L2. split_and!; [|done|by eapply shrunk_trans| |done].
  - unfold m_evict. sim_step sim_prm. rewrite Hdis. sim_step Hs1. sim_step Hs2. apply sim_ret.
  - destruct Hf as [|E]; [by left|right]. pose proof (sk_fev _ _ _ _ _ _ Hk2) as E2. rewrite E in E2.
    destruct (mi_tree _ _ _ _ Hi2) as [E' HE]. pose proof (i_ev _ _ _ _ _ _ _ _ _ HE) as Hev.
    assert (0 <= full_evictable_size_ (w_base u2)).
    { rewrite Hev. apply set_sum_nonneg. intros x _. unfold size_if, co_len. repeat case_match; lia. }
    assert (0 <= sumZ len vs'); [|lia]. apply sumZ_nonneg. intros ? _. unfold len. lia.
Qed.

(** ** [match_prefix] *)

(** [c] on [u] goes on as [c'] on [u']. *)
Definition leads {B} (c : MM B) u (c' : MM B) u' : Prop :=
  forall s, rep s u -> exists s', rep s' u' /\ c s = c' s'.

Lemma leads_bind {B C} (c : MM B) (k : B -> MM C) u a u1 c' u' :
  sim c u a u1 -> leads (k a) u1 c' u' -> leads (c ≫= k) u c' u'.
Proof.
  intros Hc Hk s Hs. destruct (Hc s Hs) as (s1 & Hr & Hs1). destruct (Hk s1 Hs1) as (s2 & Hs2 & E).
  exists s2. split; [done|]. by rewrite (bind_ok _ _ _ _ _ Hr).
Qed.

Lemma leads_refl {B} (c : MM B) u : leads c u c u.
Proof. intros s Hs. eauto. Qed.

Lemma leads_clock {B} (k : Z -> MM B) u c' u' : (forall t, leads (k t) u c' u') -> leads (get_last_access_time ≫= k) u c' u'.
Proof. intros Hk s Hs. unfold get_last_access_time. erewrite bind_ok by reflexivity. apply Hk. by apply rep_clock. Qed.

Lemma leads_sim {B} (c c' : MM B) u u1 a u' : leads c u c' u1 -> sim c' u1 a u' -> sim c u a u'.
Proof.
  intros Hl Hc s Hs. destruct (Hl s Hs) as (s1 & Hs1 & ->). by apply Hc.
Qed.

(** The counters after a lookup: [n] is [best_value_len]. *)
Definition counted (n m : Z) (s : cache) : cache := mu_counts (hit_tokens s + n) (miss_tokens s + m) s.

Lemma base_only_counted n m : base_only (counted n m).
Proof. intros s. split_and!; [done|done|by intros []]. Qed.

Lemma minv_counted exc u L H' n m : minv exc u L H' -> minv exc (w_upd (counted n m) u) L H'.
Proof.
  intros Hinv. change (w_upd (counted n m) u) with (w_upd (fun _ => counted n m (w_base u)) u).
  apply (minv_base Hinv); try done; by intros [].
Qed.

Section post.
Context (mamba_cache_chunk_size : nat).

(** The position up to which states should be saved: all that was found, in
    whole chunks, when that is more than the checkpoint covers. *)
Definition branching (found covered : nat) : option nat :=
  if decide (covered < found)%nat then
    let a := (found / mamba_cache_chunk_size * mamba_cache_chunk_size)%nat in
    if decide (0 < a)%nat then Some a else None
  else None.

(** The copy-on-write step for the node [x]. *)
Definition cow_step (cow : option (option Z)) (x : nat) : MM (option (Z * option (list Z))) :=
  n ← mnode_at x;
  match cow, mamba_value n with
  | Some idx, Some _ =>
      i ← cow_slot x idx;
      n' ← mnode_at x;
      mret (Some (i, mamba_value n'))
  | _, _ => mret None
  end.

Lemma take_pieces (n : nat) (vs : list (list Z)) :
  (n ≤ length vs)%nat -> Forall (fun q => q ≠ []) vs ->
  (n < length vs)%nat <-> (length (concat (take n vs)) < length (concat vs))%nat.
Proof.
  intros Hn Hne. rewrite <-(take_drop n vs) in Hne. apply Forall_app in Hne as [_ Hne].
  assert (length (concat vs) = length (concat (take n vs)) + length (concat (drop n vs)))%nat as ->
    by (by rewrite <-length_app, <-concat_app, take_drop).
  split; intros Hlt.
  - destruct (drop n vs) as [|q vs'] eqn:E; [apply (f_equal length) in E; rewrite length_drop in E; simpl in E; lia|].
    apply Forall_inv in Hne. destruct q; [done|]. simpl. lia.
  - destruct (decide (n = length vs)) as [->|]; [|lia]. rewrite drop_all in Hlt. simpl in Hlt. lia.
Qed.

(** A lookup up to its copy-on-write step: the descent, which may split a
    node, the counters, and the path of the deepest checkpoint moved to the
    front of both lists. *)
Lemma match_prefix_leads u L H' k cow :
  minv ∅ u L H' -> disable (prm u) = false -> lookup_key (psz u) k -> key_len k ≠ O ->
  exists v j st last x vx lx wx l nh nm u1 L1,
    let u2 := touched (w_upd (counted nh nm) u1) lx in
    leads (m_match_prefix mamba_cache_chunk_size k cow) u
      (c ← cow_step cow x; mret (MkMMatch vx x (branching (length v) (length vx)) c)) u2 /\
    desc (psz u) (w_cores u) (rt u) (pages (psz u) k) v j st /\ mlanded u L st last u1 /\
    x = best (w_ckpts u1) (rt u) l /\ x ∈ L1 /\
    up (psz u) (rt u) (w_cores u1) last l (take j (pages (psz u) k)) v /\
    up (psz u) (rt u) (w_cores u1) x lx wx vx /\ vx `prefix_of` v /\ minv ∅ u1 L1 H' /\ minv ∅ u2 L1 H'.
Proof.
  intros Hinv Hdis Hk Hz.
  destruct (match_helper_sim ∅ L H' u k Hinv Hk Hz) as
    (vs & j & st & last & n & l & u1 & Hsim & Hdesc & Hland & Hu & Hn & Hne & lx & wx & Hux).
  destruct (mlanded_spec ∅ u L H' _ _ _ _ _ _ Hinv Hdesc Hland) as (L1 & Hinv1 & _ & HlastL & (Ep & Er & _) & _).
  set (x := best (w_ckpts u1) (rt u) l) in *.
  set (nh := Z.of_nat n). set (nm := Z.max 0 (Z.of_nat (key_len k) - Z.of_nat n)).
  pose proof (minv_counted ∅ u1 L1 H' nh nm Hinv1) as Hinvc.
  assert (x ∈ L1) as Hx.
  { unfold x, best. destruct (head _) as [y|] eqn:E; simpl.
    - apply head_Some_elem_of, list_elem_of_filter in E as [_ E].
      refine (shape_up_live _ _ _ _ _ _ _ _ (minv_shape Hinv1) HlastL _ y E). rewrite Ep, Er. exact Hu.
    - rewrite <-Er. exact (sh_root_in _ _ _ _ (minv_shape Hinv1)). }
  destruct (touched_ok ∅ (w_upd (counted nh nm) u1) L1 H' x lx wx (concat (take n vs)) Hinvc Hx) as (Hinv2 & u1' & Hr1 & Hr2).
  { cbn [w_upd w_base w_cores counted m_params m_root mu_counts]. rewrite Ep, Er. exact Hux. }
  exists (concat vs), j, st, last, x, (concat (take n vs)), lx, wx, l, nh, nm, u1, L1. cbv zeta.
  split_and!; try done; cycle 1.
  { rewrite <-(take_drop n vs) at 2. rewrite concat_app. by apply prefix_app_r. }
  unfold m_match_prefix, match_pre_processor. eapply leads_bind.
  { sim_step sim_prm. apply sim_ret. }
  rewrite Hdis, bool_decide_eq_false_2 by done. simpl orb. cbv iota beta. eapply leads_bind; [exact Hsim|].
  cbv beta iota. eapply leads_bind; [exact (sim_modify (counted nh nm) u1 (base_only_counted nh nm))|].
  unfold match_post_processor. eapply leads_bind; [apply sim_root|]. eapply leads_bind; [exact Hr1|].
  eapply leads_bind; [exact Hr2|]. apply leads_clock. intros t. eapply leads_bind; [apply sim_fuel|].
  eapply leads_bind.
  { eapply (sim_touch_path (psz u) (rt u) lx); [exact Hux| |].
    - exists (default blank_core (w_cores u1 !! rt u)). rewrite <-Er.
      destruct (sh_root _ _ _ _ (minv_shape Hinv1)) as (rn & Hrn & Hp & _). simpl. by rewrite Hrn.
    - apply up_fuel in Hux. simpl. lia. }
  intros s Hs. exists s. split; [done|]. cbv zeta.
  replace (if decide (n < length vs)%nat then _ else None) with
    (branching (length (concat vs)) (length (concat (take n vs)))).
  - unfold cow_step. rewrite bind_assoc. reflexivity.
  - unfold branching. pose proof (take_pieces n vs Hn Hne) as Hiff.
    destruct (decide (n < length vs)%nat), (decide (length (concat (take n vs)) < length (concat vs))%nat); tauto.
Qed.
End post.

(** ** Room for the copy *)

Lemma cow_own u x i : sim (cow_slot x (Some i)) u i u.
Proof. apply sim_ret. Qed.

Lemma cow_free u x i free :
  ms_slots (m_pool (w_base u)) = i :: free -> exists p' : P,
  sim (cow_slot x None) u i (w_upd (mu_pool p') u) /\ ms_slots p' = free.
Proof.
  intros Hs. destruct (ms_alloc_ok 1 (m_pool (w_base u))) as (p' & Ha & Hp'); [rewrite Hs; simpl; lia|].
  rewrite Hs in Ha, Hp'. simpl in Ha, Hp'. rewrite drop_0 in Hp'. exists p'. split; [|done]. unfold cow_slot.
  eapply sim_bind; [apply sim_mamba_alloc|cbv beta]. rewrite Ha. simpl. sim_step sim_ret. apply sim_ret.
Qed.

(** The checkpoint that makes room: the least recently used one that is
    neither locked nor the one to copy. *)
Definition victim u x : option nat := pick (fun y => cand true u y && negb (bool_decide (y = x))) (w_mamba u).

Lemma take_1_reverse (l : list nat) : take 1 (reverse l) = option_list (last l).
Proof. induction l as [|x l _] using rev_ind; [done|]. by rewrite reverse_snoc, last_snoc. Qed.

Lemma acquired_cores u x l : w_cores (acquired u x l) = relock 1 l (w_cores u).
Proof. unfold acquired, hold_path. simpl. by destruct (hold_ckpt_view 1 u x) as (-> & _). Qed.

Lemma acquired_victim u L H' x l mv z :
  minv ∅ u L H' -> w_ckpts u !! x = Some (Some mv, z) -> 0 <= z -> NoDup l ->
  lru_unlocked 1 (acquired u x l) = option_list (victim u x).
Proof.
  intros Hinv Hk Hz Hnd. unfold lru_unlocked. rewrite take_1_reverse. f_equal. unfold victim, pick.
  destruct (hold_ckpt_view 1 u x) as (_ & _ & Em & _ & Ene & _).
  change (w_mamba (acquired u x l)) with (w_mamba (hold_ckpt 1 u x)). rewrite Em. f_equal. apply filter_ext_in.
  intros y Hy. apply (minv_mamba Hinv) in Hy as (HyL & _). destruct (minv_lookup Hinv y HyL) as (m & k & Hm & Hk').
  destruct (relock_old 1 l _ y m Hm Hnd) as (m' & Hm' & _). unfold cand at 1, qualifies. rewrite acquired_cores, Hm'.
  change (w_ckpts (acquired u x l)) with (w_ckpts (hold_ckpt 1 u x)). destruct (decide (y = x)) as [->|Hne].
  - unfold hold_ckpt. rewrite Hk. simpl. rewrite lookup_alter_eq, Hk. simpl.
    rewrite (bool_decide_eq_true_2 (0 < z + 1)) by lia. rewrite andb_comm, (bool_decide_eq_true_2 (x = x)) by done. done.
  - rewrite (Ene y Hne), Hk', (bool_decide_eq_false_2 (y = x)) by done. unfold cand, qualifies. rewrite Hm, Hk'.
    by rewrite andb_true_r.
Qed.

(** The view after the checkpoint of a node in [ys] has been evicted to make
    room for a copy of that of [x]; [vs] are the KV slots that went with it. *)
Record room_made (H' : list nat) u L x (ys : list nat) (vs : list (list Z)) u' L' : Prop := RoomMade {
  rm_inv : minv ∅ u' L' H';
  rm_live : L' ⊆ L;
  rm_self : x ∈ L';
  rm_up y l w v : y ∈ L' -> up (psz u) (rt u) (w_cores u) y l w v -> up (psz u) (rt u) (w_cores u') y l w v;
  rm_ckpt y : y ∈ L' -> y ∉ ys -> w_ckpts u' !! y = w_ckpts u !! y;
  rm_mamba : w_mamba u' = filter (fun y => y ∉ ys) (w_mamba u);
  rm_full : w_full u' = filter (fun y => y ∈ L') (w_full u);
  rm_frame : same_frame (w_base u) (w_base u');
  rm_alloc : m_alloc (w_base u') = free_all vs (m_alloc (w_base u)) /\ alloc_ok (m_alloc (w_base u'))
}.

Section room.
Context {u : mview A P} {L : gset nat} {H' : list nat} {x : nat} {l : list nat} {w : list child_key_t} {v : list Z}
  {mv : list Z} {z : Z}.
Hypothesis Hinv : minv ∅ u L H'.
Hypothesis Hok : alloc_ok (m_alloc (w_base u)).
Hypothesis Hx : x ∈ L.
Hypothesis Hu : up (psz u) (rt u) (w_cores u) x l w v.
Hypothesis Hck : w_ckpts u !! x = Some (Some mv, z).

Lemma cow_held : x ≠ rt u /\ has_ckpt (w_ckpts u) x = true /\ 0 <= z.
Proof.
  assert (x ≠ rt u) as Hxr.
  { intros ->. rewrite (ck_root _ _ _ _ _ _ _ _ (mi_ck _ _ _ _ Hinv)) in Hck. congruence. }
  split_and!; [done|unfold has_ckpt; by rewrite Hck|].
  destruct (ck_node _ _ _ _ _ _ _ _ (mi_ck _ _ _ _ Hinv) x Hx Hxr) as (o & E & _). rewrite Hck in E.
  injection E as _ ->. apply held_nonneg.
Qed.

Lemma minv_acquired : minv ∅ (acquired u x l) L (x :: H').
Proof.
  destruct cow_held as (_ & Hh & _). apply (minv_hold ∅ u L H' (x :: H') x l w v 1 _ Hinv Hx); [by right|done|by left].
Qed.

Context {ys : list nat} {vs mvs : list (list Z)} {ue : mview A P} {Le : gset nat} {p' : P}.
Hypothesis Hce : ckpts_evicted (x :: H') (acquired u x l) L ys ue Le vs mvs.

Abbreviation u3 := (w_upd (mu_pool p') ue).

Lemma acquired_frame : same_frame (w_base u) (w_base (acquired u x l)) /\ m_alloc (w_base (acquired u x l)) = m_alloc (w_base u) /\
    m_pool (w_base (acquired u x l)) = m_pool (w_base u).
Proof.
  destruct (hold_ckpt_view 1 u x) as (_ & _ & _ & _ & _ & _ & a & E). unfold acquired, hold_path. cbn [w_upd w_base w_nodes].
  rewrite E. split_and!; try done.
Qed.

Lemma evicted_up y l' w' v' : y ∈ Le -> up (psz u) (rt u) (w_cores u) y l' w' v' -> up (psz u) (rt u) (w_cores ue) y l' w' v'.
Proof.
  intros Hy Hu'. destruct acquired_frame as ((Ep & Er & _) & _).
  pose proof (sk_up _ _ _ _ _ _ (ce_shrunk _ _ _ _ _ _ _ _ Hce) y l' w' v' Hy) as Hup. rewrite Ep, Er in Hup. apply Hup.
  rewrite acquired_cores. apply relock_up; [|done]. by eapply up_NoDup.
Qed.

Lemma evicted_self : x ∈ Le /\ w_ckpts ue !! x = Some (Some mv, z + 1).
Proof.
  assert (x ∈ Le) as HxL by (apply (minv_held_live (ce_inv _ _ _ _ _ _ _ _ Hce)); left). split; [done|].
  assert (w_ckpts (acquired u x l) !! x = Some (Some mv, z + 1)) as Ha.
  { change (w_ckpts (acquired u x l)) with (w_ckpts (hold_ckpt 1 u x)). unfold hold_ckpt. rewrite Hck. simpl.
    by rewrite lookup_alter_eq, Hck. }
  destruct cow_held as (_ & _ & Hz).
  destruct (sk_ckpt _ _ _ _ _ _ (ce_shrunk _ _ _ _ _ _ _ _ Hce) x HxL) as [->|(mv' & E & _)]; [done|].
  rewrite Ha in E. injection E as _ E. lia.
Qed.

Lemma evicted_others y : y ∈ Le -> y ≠ x -> y ∉ ys -> w_ckpts ue !! y = w_ckpts u !! y.
Proof.
  intros Hy Hne Hys. pose proof (ce_shrunk _ _ _ _ _ _ _ _ Hce) as Hsk. pose proof (ce_inv _ _ _ _ _ _ _ _ Hce) as Hinve.
  destruct (hold_ckpt_view 1 u x) as (_ & _ & _ & _ & Ene & _). specialize (Ene y Hne).
  change (w_ckpts (hold_ckpt 1 u x)) with (w_ckpts (acquired u x l)) in Ene. rewrite <-Ene.
  destruct (sk_ckpt _ _ _ _ _ _ Hsk y Hy) as [->|(mv' & E & E')]; [done|exfalso].
  assert (y ∈ w_mamba (acquired u x l)) as Hm.
  { apply (minv_mamba minv_acquired). split_and!.
    - by apply (sk_live _ _ _ _ _ _ Hsk).
    - intros ->. rewrite (ck_root _ _ _ _ _ _ _ _ (mi_ck _ _ _ _ minv_acquired)) in E. congruence.
    - unfold has_ckpt. by rewrite E. }
  assert (y ∈ w_mamba ue) as Hm' by (rewrite (ce_mamba _ _ _ _ _ _ _ _ Hce); by apply list_elem_of_filter).
  apply (minv_mamba Hinve) in Hm' as (_ & _ & Hh). unfold has_ckpt in Hh. by rewrite E' in Hh.
Qed.

Lemma room_of : room_made H' u L x ys vs (released u3 x l) Le.
Proof.
  pose proof (ce_shrunk _ _ _ _ _ _ _ _ Hce) as Hsk. destruct evicted_self as [HxL Hxk].
  destruct acquired_frame as (Hfr & Eal & _). destruct (sk_frame _ _ _ _ _ _ Hsk) as (F1 & F2 & F3 & F4 & F5 & F6 & F7).
  destruct Hfr as (E1 & E2 & E3 & E4 & E5 & E6 & E7).
  assert (minv ∅ u3 Le (x :: H')) as Hinv3 by (apply (minv_pool ∅ ue Le (x :: H') (fun _ => p')), Hce).
  assert (up (psz u3) (rt u3) (w_cores u3) x l w v) as Hu3.
  { cbn [w_upd w_base w_cores mu_pool m_params m_root]. rewrite F1, F2, E1, E2. by apply evicted_up. }
  destruct (hold_ckpt_view (-1) u3 x) as (C1 & C2 & C3 & _ & C5 & _ & a & C7).
  pose proof (up_NoDup _ _ _ _ _ _ _ Hu) as Hnd. split.
  - eapply (minv_hold ∅ u3 Le (x :: H') H' x l w v (-1)); [done|done| |done|by right].
    right. unfold has_ckpt. simpl. by rewrite Hxk.
  - exact (sk_live _ _ _ _ _ _ Hsk).
  - done.
  - intros y l' w' v' Hy Hu'. unfold released, hold_path. cbn [w_upd w_nodes w_cores]. rewrite C1.
    apply relock_up; [done|]. by apply evicted_up.
  - intros y Hy Hys. change (w_ckpts (released u3 x l)) with (w_ckpts (hold_ckpt (-1) u3 x)).
    destruct (decide (y = x)) as [->|Hne].
    + unfold hold_ckpt. cbn [w_upd w_ckpts]. rewrite Hxk. cbn [w_upd w_nodes w_ckpts]. rewrite lookup_alter_eq, Hxk, Hck.
      simpl. do 2 f_equal. lia.
    + rewrite C5 by done. by apply evicted_others.
  - change (w_mamba (released u3 x l)) with (w_mamba (hold_ckpt (-1) u3 x)). rewrite C3. cbn [w_upd w_mamba].
    rewrite (ce_mamba _ _ _ _ _ _ _ _ Hce). change (w_mamba (acquired u x l)) with (w_mamba (hold_ckpt 1 u x)).
    by destruct (hold_ckpt_view 1 u x) as (_ & _ & -> & _).
  - change (w_full (released u3 x l)) with (w_full (hold_ckpt (-1) u3 x)). rewrite C2. cbn [w_upd w_full].
    rewrite (sk_full _ _ _ _ _ _ Hsk). change (w_full (acquired u x l)) with (w_full (hold_ckpt 1 u x)).
    by destruct (hold_ckpt_view 1 u x) as (_ & -> & _).
  - unfold released, hold_path. cbn [w_upd w_nodes w_base]. rewrite C7. unfold same_frame.
    cbn [w_upd w_base mu_full mu_mamba mu_pool m_params m_root m_counter hit_tokens miss_tokens enable_mamba_extra_buffer].
    split_and!; try congruence. intros b. specialize (E7 b). specialize (F7 b). destruct b; simpl in *; congruence.
  - unfold released, hold_path. cbn [w_upd w_nodes w_base]. rewrite C7. cbn [w_upd w_base mu_full mu_mamba mu_pool m_alloc].
    rewrite (sk_alloc _ _ _ _ _ _ Hsk), Eal. split; [done|]. rewrite <-Eal, <-(sk_alloc _ _ _ _ _ _ Hsk).
    apply (sk_ok _ _ _ _ _ _ Hsk). by rewrite Eal.
Qed.
End room.

(** No slot is free and the request has none: one checkpoint is evicted, or
    the assertion fails. *)
Lemma cow_evict u L H' x l w v mv z :
  minv ∅ u L H' -> alloc_ok (m_alloc (w_base u)) -> disable (prm u) = false -> x ∈ L ->
  up (psz u) (rt u) (w_cores u) x l w v -> w_ckpts u !! x = Some (Some mv, z) -> ms_slots (m_pool (w_base u)) = [] ->
  exists vs u' L', room_made H' u L x (option_list (victim u x)) vs u' L' /\ ms_slots (m_pool (w_base u')) = [] /\
    match victim u x with
    | Some y => exists i, w_ckpts u !! y = Some (Some [i], 0) /\ sim (cow_slot x None) u i u'
    | None => forall s, rep s u -> exists s', cow_slot x None s = (Raise (Exn AssertionError "Can not alloc mamba cache"), s') /\
    rep s' u'
    end.
Proof.
  intros Hinv Hok Hdis Hx Hu Hck Hs. destruct (cow_held Hinv Hx Hu Hck) as (Hxr & Hh & Hz).
  pose proof (up_NoDup _ _ _ _ _ _ _ Hu) as Hnd. pose proof (minv_acquired Hinv Hx Hu Hck) as Hinva.
  destruct (acquired_frame (u := u) (x := x) (l := l)) as ((Ep & Er & _) & Eal & Epool).
  destruct (evict_one_sim (acquired u x l) L (x :: H') Hinva) as (vs & mvs & ue & Le & Hsim & Hce);
    [by rewrite Eal|by rewrite Ep|].
  rewrite (acquired_victim u L H' x l mv z Hinv Hck Hz Hnd) in Hce, Hsim.
  pose proof (ce_shrunk _ _ _ _ _ _ _ _ Hce) as Hsk. pose proof (sk_pool _ _ _ _ _ _ Hsk) as Hpool. rewrite Epool in Hpool.
  pose proof (ce_freed _ _ _ _ _ _ _ _ Hce) as Hfr.
  set (p' := (ms_alloc 1 (m_pool (w_base ue))).2). set (u3 := w_upd (mu_pool p') ue).
  pose proof (room_of (p' := p') Hinv Hok Hx Hu Hck Hce) as Hroom.
  destruct (sk_frame _ _ _ _ _ _ Hsk) as (F1 & F2 & _).
  assert (sim (m_dec_lock_ref x) u3 tt (released u3 x l)) as Hdec.
  { eapply (sim_dec_lock ∅ u3 Le H' (x :: H') x l w v); try done.
    - apply (minv_pool ∅ ue Le (x :: H') (fun _ => p')), Hce.
    - cbn [u3 w_upd w_base mu_pool m_params]. by rewrite F1, Ep.
    - cbn [u3 w_upd w_base w_cores mu_pool m_params m_root]. rewrite F1, F2, Ep, Er. eapply evicted_up; try done.
      by destruct (evicted_self Hinv Hx Hu Hck Hce). }
  exists vs, (released u3 x l), Le. split; [exact Hroom|].
  assert (m_pool (w_base (released u3 x l)) = p') as Ep'.
  { unfold released, hold_path. cbn [w_upd w_nodes w_base]. by destruct (hold_ckpt_view (-1) u3 x) as (_ & _ & _ & _ & _ & _ & a & ->). }
  assert (forall B (k : option (list Z) -> MM B), leads (m_inc_lock_ref x ≫= fun _ => m_evict 0 1 ≫= fun _ =>
    d ← mamba_alloc 1; m_dec_lock_ref x ≫= fun _ => k d) u (k (ms_alloc 1 (m_pool (w_base ue))).1) (released u3 x l)) as Hpath.
  { intros B k. eapply leads_bind; [by eapply sim_inc_lock|]. eapply leads_bind; [exact Hsim|].
    eapply leads_bind; [apply sim_mamba_alloc|]. eapply leads_bind; [exact Hdec|]. apply leads_refl. }
  assert (ms_alloc 1 (m_pool (w_base u)) = (None, m_pool (w_base u))) as Hno by (apply ms_alloc_fail; rewrite Hs; simpl; lia).
  assert (sim (mamba_alloc 1) u None u) as Hsim0.
  { pose proof (sim_mamba_alloc 1 u) as Hm. rewrite Hno in Hm. eapply sim_view_eq; [exact Hm|]. by destruct u as [[] ? ? ? ?]. }
  rewrite Ep'. unfold p'. destruct (victim u x) as [y|] eqn:Ev; simpl in Hfr.
  - apply Forall2_cons_inv_l in Hfr as (mv1 & mvs' & Hk1 & Hnil & ->). apply Forall2_nil_inv_l in Hnil as ->.
    assert (y ∈ w_mamba u /\ y ≠ x) as [Hym Hyx].
    { apply pick_elem in Ev as [? [_ Hb]%andb_true_iff]. split; [done|]. by apply negb_true_iff, bool_decide_eq_false in Hb. }
    apply (minv_mamba Hinv) in Hym as (HyL & Hyr & _). destruct (hold_ckpt_view 1 u x) as (_ & _ & _ & _ & Ene & _).
    change (w_ckpts (acquired u x l)) with (w_ckpts (hold_ckpt 1 u x)) in Hk1. rewrite (Ene y Hyx) in Hk1.
    destruct (ck_node _ _ _ _ _ _ _ _ (mi_ck _ _ _ _ Hinv) y HyL Hyr) as (o & E & _ & Hlen). rewrite Hk1 in E.
    injection E as E _. specialize (Hlen mv1 (eq_sym E)). destruct mv1 as [|i [|]]; try done.
    simpl in Hpool. pose proof (ms_free_slots [i] (m_pool (w_base u))) as Hsl. rewrite Hs, <-Hpool in Hsl. simpl in Hsl.
    destruct (ms_alloc_ok 1 (m_pool (w_base ue))) as (p1 & Ha & Hp1); [rewrite Hsl; simpl; lia|].
    rewrite Hsl in Ha, Hp1. simpl in Ha, Hp1. rewrite Ha. split; [done|]. exists i. split; [done|]. unfold cow_slot.
    sim_step Hsim0. eapply (sim_bind _ _ _ [i] (released u3 x l)); [|apply sim_ret].
    eapply leads_sim; [apply Hpath|]. rewrite Ha. apply sim_ret.
  - apply Forall2_nil_inv_l in Hfr as ->. simpl in Hpool.
    assert (ms_alloc 1 (m_pool (w_base ue)) = (None, m_pool (w_base ue))) as Hno' by (by rewrite Hpool).
    rewrite Hno'. split; [simpl; by rewrite Hpool|]. intros s Hrep. unfold cow_slot.
    destruct (Hsim0 s Hrep) as (s1 & Hr1 & Hrep1). rewrite (bind_ok _ _ _ _ _ Hr1). cbv beta iota.
    edestruct (Hpath (list Z)) as (s2 & Hrep2 & E); [exact Hrep1|]. rewrite Hno' in E. simpl fst in E.
    exists s2. split; [|done]. eapply bind_raise. etransitivity; [exact E|]. reflexivity.
Qed.
End lookup.
