(* ===== verification/MambaSpec.v ===== *)
(** * The prefix cache of hybrid models: what its operations promise

    The theorems on concrete states of [MambaRadixCache]: a state is
    [consistent] when its nodes are a radix tree, its two LRU lists hold the
    nodes and the nodes with a checkpoint, and its counters are right.  The
    abstract content is, as for [RadixCache], the set of cached page
    sequences with their KV indices, and in addition the checkpoints at the
    ends of some of them. *)

From S2P Require Import Prelude PyDict RadixKey KvEvents RadixTree RadixOps RadixInv RadixMoves.
From S2P Require Import RadixState RadixLocks RadixRun RadixEvents RadixInsert RadixSpec RadixEvict RadixLockOps.
From S2P Require Import RadixSlots MambaTree MambaOps LruFacts MambaView MambaRules MambaInv MambaRun MambaHold.
From S2P Require Import MambaShrink MambaEvict MambaInsert MambaMatch.

Section states.
Context {A P : Type}.
Implicit Types (s : MambaRadixCache A P) (u : mview A P) (L : gset nat) (H : list nat).
Abbreviation psz s := (page_size (m_params s)).

(** The view of a state whose lists are [lf] and [lm]. *)
Definition view_of s (lf lm : list nat) : mview A P :=
  MView (base s) (mcore <$> m_nodes s) (mckpt <$> m_nodes s) lf lm.

(** The live nodes are [L]; [lf] and [lm] are the two LRU lists, most recently
    used first; [H] lists the nodes requests hold, once per holder. *)
Record consistent s (lf lm : list nat) L H : Prop := Consistent {
  cs_full : lru_ok false s lf;
  cs_mamba : lru_ok true s lm;
  cs_inv : minv ∅ (view_of s lf lm) L H
}.

(** The page sequence [w] is cached with the indices [v]. *)
Definition m_content s L w v : Prop := stored (psz s) (m_root s) (mcore <$> m_nodes s) L w v.

(** Node [x] ends the cached page sequence [w], whose indices are [v]; [l]
    are the nodes from [x] up, without the root. *)
Definition m_path s x l w v : Prop := up (psz s) (m_root s) (mcore <$> m_nodes s) x l w v.
Definition m_spells s x w v : Prop := exists l, m_path s x l w v.

(** The checkpoint of a node, and the number of its holders. *)
Definition ckpt_of s x : option (list Z) := m_nodes s !! x ≫= mamba_value.
Definition ckpt_lock s x : Z := default 0 (mamba_lock_ref <$> m_nodes s !! x).

(** How often a KV slot, and a slot of the Mamba pool, is held by the tree. *)
Definition m_occ s L (i : Z) : Z := set_sum (core_occ i (mcore <$> m_nodes s)) L.
Definition m_ckocc s L (i : Z) : Z := set_sum (ck_occ i (mckpt <$> m_nodes s)) L.

Definition m_sizes s : Z * Z * Z * Z :=
  (full_evictable_size s, full_protected_size s, mamba_evictable_size s, mamba_protected_size s).

(** Nothing a request may hold on to is disturbed. *)
Definition m_keeps s L s' : Prop :=
  m_params s' = m_params s /\ m_root s' = m_root s /\ enable_mamba_extra_buffer s' = enable_mamba_extra_buffer s /\
  forall x w v, x ∈ L -> m_spells s x w v -> m_spells s' x w v.

(** The longest prefix of [w] in the cache has [n] pages and the indices [v]. *)
Definition m_longest s L w n v : Prop :=
  (n ≤ length w)%nat /\ m_content s L (take n w) v /\
  forall w' v', m_content s L w' v' -> w' `prefix_of` w -> (length w' ≤ n)%nat /\ v' = take (length w' * psz s) v.

Lemma rep_view s u : rep s u -> u = view_of s (w_full u) (w_mamba u).
Proof. intros [E1 E2 E3 _]. destruct u. simpl in *. by subst. Qed.

Lemma consistent_rep s lf lm L H : consistent s lf lm L H -> rep s (view_of s lf lm).
Proof. intros [H1 H2 _]. split; try done. by intros []. Qed.

Lemma rep_consistent s u L H : rep s u -> minv ∅ u L H -> consistent s (w_full u) (w_mamba u) L H.
Proof.
  intros Hs Hinv. rewrite (rep_view s u Hs) in Hinv. split; [exact (rep_list _ _ Hs false)|exact (rep_list _ _ Hs true)|done].
Qed.

Lemma has_ckpt_of s x : has_ckpt (mckpt <$> m_nodes s) x = true <-> ckpt_of s x ≠ None.
Proof.
  unfold has_ckpt, ckpt_of. rewrite lookup_fmap. destruct (m_nodes s !! x) as [n|]; simpl; [|done].
  unfold mckpt. by destruct (mamba_value n).
Qed.

Lemma ckpt_of_view s u x o z : rep s u -> w_ckpts u !! x = Some (o, z) -> ckpt_of s x = o /\ ckpt_lock s x = z.
Proof.
  intros Hs Hk. rewrite (rep_ckpts _ _ Hs), lookup_fmap in Hk. unfold ckpt_of, ckpt_lock.
  destruct (m_nodes s !! x) as [n|]; [|done]. simpl in *. by injection Hk as <- <-.
Qed.

Lemma ckpt_of_eq s u s' u' x :
  rep s u -> rep s' u' -> w_ckpts u' !! x = w_ckpts u !! x -> ckpt_of s' x = ckpt_of s x /\ ckpt_lock s' x = ckpt_lock s x.
Proof.
  intros Hs Hs' E. rewrite (rep_ckpts _ _ Hs), (rep_ckpts _ _ Hs'), !lookup_fmap in E. unfold ckpt_of, ckpt_lock.
  destruct (m_nodes s !! x), (m_nodes s' !! x); simpl in *; try done. unfold mckpt in E. injection E as -> ->. done.
Qed.

Lemma desc_longest_of s lf lm L Hs w v j st :
  consistent s lf lm L Hs -> desc (psz s) (mcore <$> m_nodes s) (m_root s) w v j st -> m_longest s L w j v.
Proof.
  intros Hcs Hdesc. pose proof (cs_inv _ _ _ _ _ Hcs) as Hinv. pose proof (minv_ps Hinv) as Hps.
  pose proof (minv_shape Hinv) as Hsh. destruct (desc_stored _ _ Hps _ _ _ _ _ _ Hsh Hdesc) as [Hj Hst].
  split_and!; [done|exact Hst|]. intros w' v' Hc Hw. eapply desc_longest; [exact Hps|exact Hsh|exact Hdesc|exact Hc|done].
Qed.

(** Consistent states have their counters right. *)
Lemma consistent_sizes s lf lm L H :
  consistent s lf lm L H ->
  0 <= full_evictable_size s /\ 0 <= full_protected_size s /\ 0 <= mamba_evictable_size s /\ 0 <= mamba_protected_size s.
Proof.
  intros [_ _ Hinv]. destruct (mi_tree _ _ _ _ Hinv) as [E HE]. pose proof (mi_ck _ _ _ _ Hinv) as Hck.
  pose proof (i_ev _ _ _ _ _ _ _ _ _ HE) as E1. pose proof (i_prot _ _ _ _ _ _ _ _ _ HE) as E2.
  pose proof (ck_ev _ _ _ _ _ _ _ _ Hck) as E3. pose proof (ck_prot _ _ _ _ _ _ _ _ Hck) as E4.
  cbn [view_of w_base base full_evictable_size_ full_protected_size_ mamba_evictable_size_ mamba_protected_size_] in *.
  unfold full_evictable_size, full_protected_size, mamba_evictable_size, mamba_protected_size.
  rewrite E1, E2, E3, E4. split_and!; apply set_sum_nonneg; intros x _; unfold size_if, ck_size, co_len, len;
    repeat case_match; lia.
Qed.
End states.

Section lookup.
Context {A P : Type} `{KvFree A} `{!KvFreeTotal A} `{MambaSlots P} `{!MambaSlotsLaws P} `{Sha256} `{!Sha256Laws}.
Implicit Types (s : MambaRadixCache A P) (u : mview A P) (L : gset nat) (x y : nat).
Abbreviation psz s := (page_size (m_params s)).
Context (mamba_cache_chunk_size : nat).

(** The outcome of a lookup of the pages [w]: the longest cached prefix has
    [j] pages; [x] is the deepest checkpoint on it, at [n] pages with the
    indices [v].  [s'] is the state afterwards. *)
Record looked_up s L (Hs : list nat) (w : list child_key_t) (x n j : nat) (v : list Z) s' (lf' lm' : list nat) L' : Prop := LookedUp {
  lu_longest : exists vf, m_longest s L w j vf;
  lu_node : x ∈ L' /\ (n ≤ j)%nat /\ m_spells s' x (take n w) v;
  lu_kind : (x = m_root s /\ n = O) \/ ckpt_of s' x ≠ None;
  lu_deepest y w' v' : y ∈ L -> ckpt_of s y ≠ None -> m_spells s y w' v' -> w' `prefix_of` w -> (length w' ≤ n)%nat;
  lu_consistent : consistent s' lf' lm' L' Hs;
  lu_live : L ⊆ L';
  lu_keeps : m_keeps s L s';
  lu_content w' v' : m_content s' L' w' v' <-> m_content s L w' v';
  lu_ckpts y : y ∈ L -> ckpt_of s' y = ckpt_of s y /\ ckpt_lock s' y = ckpt_lock s y;
  lu_new y : y ∈ L' -> y ∉ L -> ckpt_of s' y = None;
  lu_recent : exists l rf rm, m_path s' x l (take n w) v /\ lf' = l ++ rf /\
    lm' = filter (fun y => ckpt_of s' y ≠ None) l ++ rm;
  lu_sizes : m_sizes s' = m_sizes s;
  lu_pools : m_alloc s' = m_alloc s /\ m_pool s' = m_pool s;
  lu_occ i : m_occ s' L' i = m_occ s L i;
  lu_ckocc i : m_ckocc s' L' i = m_ckocc s L i
}.

Lemma prefix_is_take {B} (l1 l2 : list B) n : l1 `prefix_of` take n l2 -> l1 = take (length l1) l2.
Proof. intros [k Hk]. rewrite <-(take_drop n l2), Hk, <-app_assoc. by rewrite take_app_length. Qed.

(** The counters of hits and misses are not part of the outcome. *)
Lemma lookup_run s lf lm L Hs k cow :
  consistent s lf lm L Hs -> disable (m_params s) = false -> lookup_key (psz s) k -> key_len k ≠ O ->
  exists x n j v s' lf' lm' L',
    looked_up s L Hs (pages (psz s) k) x n j v s' lf' lm' L' /\
    m_match_prefix mamba_cache_chunk_size k cow s =
      (c ← cow_step cow x; mret (MkMMatch v x (branching mamba_cache_chunk_size (j * psz s) (n * psz s)) c)) s'.
Proof.
  intros Hcs Hdis Hk Hz. pose proof (consistent_rep _ _ _ _ _ Hcs) as Hrep. pose proof (cs_inv _ _ _ _ _ Hcs) as Hinv.
  set (u := view_of s lf lm) in *. pose proof (minv_ps Hinv) as Hps. pose proof (minv_shape Hinv) as Hsh.
  destruct (match_prefix_leads mamba_cache_chunk_size u L Hs k cow Hinv Hdis Hk Hz) as
    (vf & j & st & last & x & v & lx & wx & l & nh & nm & u1 & L1 & Hleads & Hdesc & Hland & Ex & HxL & Hul & Hux & Hvv & Hinv1 & Hinv2).
  set (u2 := touched (w_upd (counted nh nm) u1) lx) in *. destruct (Hleads s Hrep) as (s' & Hrep' & Hrun).
  destruct (mlanded_spec ∅ u L Hs _ _ _ _ _ _ Hinv Hdesc Hland) as
    (L1' & Hinv1' & HL & HlastL & (Ep & Er & Ea & Eq & _ & _ & Ebuf) & (S1 & S2 & S3 & S4) & Hst & Hup & Hck & Hnew).
  assert (L1' = L1) as -> by (by eapply minv_live_unique).
  destruct (mlanded_occ ∅ u L Hs _ _ _ _ _ _ Hinv Hdesc Hland) as (L1' & Hinv1'' & Hocc & Hckocc).
  assert (L1' = L1) as -> by (by eapply minv_live_unique).
  set (w := pages (psz s) k) in *. change (psz (w_base u)) with (psz s) in *. change (m_root (w_base u)) with (m_root s) in *.
  destruct (desc_stored (psz s) (m_root s) Hps _ _ _ _ _ _ Hsh Hdesc) as [Hj Hstored].
  destruct (desc_length (psz s) (m_root s) Hps _ _ _ _ _ _ _ Hsh (sh_root_in _ _ _ _ Hsh) Hdesc) as [Hvl _].
  pose proof (minv_shape Hinv1) as Hsh1. rewrite Ep, Er in Hsh1.
  change (psz (w_base u)) with (psz s) in *. change (m_root (w_base u)) with (m_root s) in *.
  assert (x = m_root s \/ x ∈ l) as Hxl.
  { rewrite Ex. unfold best. destruct (head _) as [y|] eqn:E; [right|by left].
    by apply head_Some_elem_of, list_elem_of_filter in E as [_ E]. }
  assert (wx `prefix_of` take j w) as Hpre.
  { destruct Hxl as [->|Hin]; [|by destruct (up_prefix _ _ _ _ _ _ _ _ _ _ _ Hul Hin Hux)].
    destruct (up_root_inv _ _ _ _ _ _ Hux) as (_ & -> & _). apply prefix_nil. }
  pose proof (prefix_is_take _ _ _ Hpre) as Ewx. set (n := length wx) in *.
  assert (n ≤ j)%nat as Hn by (apply prefix_length in Hpre; rewrite length_take in Hpre; fold n in Hpre; lia).
  pose proof (up_value_length _ _ Hps _ _ _ _ _ _ Hsh1 HxL Hux) as Hxlen. fold n in Hxlen.
  rewrite Hvl, Hxlen in Hrun. rewrite Ewx in Hux.
  exists x, n, j, v, s', (w_full u2), (w_mamba u2), L1. split; [|exact Hrun].
  assert (forall B (f : MambaRadixCache A P -> B), f (base s') = f (w_base u2)) as Hbase
    by (intros B f; by rewrite (rep_base _ _ Hrep')).
  assert (m_params s' = m_params s /\ m_root s' = m_root s) as [Ep' Er'].
  { split; [exact (eq_trans (Hbase _ m_params) Ep)|exact (eq_trans (Hbase _ m_root) Er)]. }
  assert (mcore <$> m_nodes s' = w_cores u1) as Ec by (by rewrite <-(rep_cores _ _ Hrep')).
  assert (forall y, has_ckpt (w_ckpts u1) y = true <-> ckpt_of s' y ≠ None) as Hhas.
  { intros y. rewrite <-has_ckpt_of, <-(rep_ckpts _ _ Hrep'). done. }
  split.
  - exists vf. by apply (desc_longest_of s lf lm L Hs w vf j st).
  - split_and!; [done|done|]. exists lx. unfold m_path. by rewrite Ep', Er', Ec.
  - rewrite Ex. unfold best. destruct (head _) as [y|] eqn:E; simpl.
    + right. apply head_Some_elem_of, list_elem_of_filter in E as [E _]. by apply Hhas.
    + left. split; [done|]. unfold best in Ex. rewrite E in Ex. simpl in Ex. rewrite Ex in Hux.
      destruct (up_root_inv _ _ _ _ _ _ Hux) as (_ & E0 & _). rewrite <-Ewx in E0. unfold n. by rewrite E0.
  - intros y w' v' Hy Hky [ly Hly] Hw. destruct (Hup y ly w' v' Hly) as [l' Hl'].
    assert (m_content s L w' v') as Hcy by (by eapply (stored_node (psz s) (m_root s))).
    destruct (desc_longest (psz s) (m_root s) Hps _ _ _ _ _ _ _ _ Hsh Hdesc Hcy Hw) as [Hlen _].
    assert (w' `prefix_of` take j w) as Hw'.
    { rewrite (prefix_is_take w' w (length w)) by (by rewrite firstn_all). rewrite <-(Nat.min_l _ _ Hlen).
      rewrite <-take_take. apply prefix_take. }
    assert (y ∈ L1) as HyL1 by (by apply HL).
    assert (ckpt_of s' y ≠ None) as Hky'.
    { apply Hhas. unfold has_ckpt. rewrite (Hck y Hy). by apply has_ckpt_of. }
    assert (y = m_root s \/ y ∈ l) as [->|Hin] by (eapply (up_above (psz s) (m_root s) Hps _ L1 last l _ _ y l'); [exact Hsh1|exact HlastL|exact HyL1|exact Hul|exact Hl'|exact Hw']).
    { destruct (up_root_inv _ _ _ _ _ _ Hl') as (_ & -> & _). simpl. lia. }
    assert (y ∈ lx) as Hyx by (eapply (best_above (w_ckpts u1)); [exact Hul|done|by apply Hhas|done|exact Hux]).
    destruct (up_prefix _ _ _ _ _ _ _ _ _ _ _ Hux Hyx Hl') as [Hwn _].
    apply prefix_length in Hwn. rewrite length_take in Hwn. lia.
  - by apply rep_consistent.
  - done.
  - split_and!; [done|done|exact (eq_trans (Hbase _ enable_mamba_extra_buffer) Ebuf)|]. intros y w' v' Hy [ly Hly]. destruct (Hup y ly w' v' Hly) as [l' Hl'].
    exists l'. unfold m_path. by rewrite Ep', Er', Ec.
  - intros w' v'. unfold m_content at 1. rewrite Ep', Er', Ec. apply Hst.
  - intros y Hy. apply (ckpt_of_eq s u s' u2); [done|done|]. exact (Hck y Hy).
  - intros y Hy HyL. by destruct (ckpt_of_view s' u2 y None 0 Hrep' (Hnew y Hy HyL)).
  - exists lx, (filter (fun y => y ∉ filter (fun y => carries false u1 y = true) lx) (w_full u1)),
      (filter (fun y => y ∉ filter (fun y => carries true u1 y = true) lx) (w_mamba u1)).
    split_and!.
    + unfold m_path. by rewrite Ep', Er', Ec.
    + cbn [u2 touched w_full]. unfold path_front. f_equal. apply filter_id. done.
    + cbn [u2 touched w_mamba]. unfold path_front. f_equal. apply filter_ext_in. intros y _. rewrite <-Hhas.
      unfold carries. done.
  - unfold m_sizes, full_evictable_size, full_protected_size, mamba_evictable_size, mamba_protected_size.
    f_equal; [f_equal; [f_equal|]|]; [exact (eq_trans (Hbase _ full_evictable_size_) S1)|exact (eq_trans (Hbase _ full_protected_size_) S2)
      |exact (eq_trans (Hbase _ mamba_evictable_size_) S3)|exact (eq_trans (Hbase _ mamba_protected_size_) S4)].
  - split; [exact (eq_trans (Hbase _ m_alloc) Ea)|exact (eq_trans (Hbase _ m_pool) Eq)].
  - intros i. unfold m_occ at 1. rewrite Ec. apply Hocc.
  - intros i. unfold m_ckocc at 1. rewrite <-(rep_ckpts _ _ Hrep'). apply Hckocc.
Qed.

Lemma m_match_run s lf lm L Hs k :
  consistent s lf lm L Hs -> disable (m_params s) = false -> lookup_key (psz s) k -> key_len k ≠ O ->
  exists x n j v s' lf' lm' L',
    m_match_prefix mamba_cache_chunk_size k None s =
      (Ok (MkMMatch v x (branching mamba_cache_chunk_size (j * psz s) (n * psz s)) None), s') /\
    looked_up s L Hs (pages (psz s) k) x n j v s' lf' lm' L'.
Proof.
  intros Hcs Hdis Hk Hz. destruct (lookup_run s lf lm L Hs k None Hcs Hdis Hk Hz) as
    (x & n & j & v & s' & lf' & lm' & L' & Hlu & Hrun).
  exists x, n, j, v, s', lf', lm', L'. split; [|done]. rewrite Hrun.
  destruct (lu_node _ _ _ _ _ _ _ _ _ _ _ _ Hlu) as (HxL & _). pose proof (lu_consistent _ _ _ _ _ _ _ _ _ _ _ _ Hlu) as Hcs'.
  destruct (minv_lookup (cs_inv _ _ _ _ _ Hcs') x HxL) as (m & kx & Hm & _).
  destruct (rep_lookup s' _ x m (consistent_rep _ _ _ _ _ Hcs') Hm) as (nx & Hnx & _).
  unfold cow_step. rewrite bind_assoc, (bind_ok _ _ _ _ _ (mnode_at_eq s' x nx Hnx)). by erewrite bind_ok by reflexivity.
Qed.

(** C18: a lookup that does not ask for a copy of the state ([cow_mamba] off;
    the copy-on-write lookup has a theorem of its own below), with the cache
    enabled and a non-empty key: [match_prefix] never raises and finds the
    deepest checkpoint on the longest cached prefix of the key: it returns the KV indices of the prefix
    up to there and the node that ends it, and, when more than that is cached,
    the last multiple of the chunk size that is.  What is cached, the
    checkpoints, their holders and the sizes stay as they were; the returned
    path becomes the most recently used part of both lists. *)
Theorem m_match_prefix_spec s lf lm L Hs k :
  consistent s lf lm L Hs -> disable (m_params s) = false -> lookup_key (psz s) k -> key_len k ≠ O ->
  exists x n j v s' lf' lm' L',
    m_match_prefix mamba_cache_chunk_size k None s =
      (Ok (MkMMatch v x (branching mamba_cache_chunk_size (j * psz s) (n * psz s)) None), s') /\
    looked_up s L Hs (pages (psz s) k) x n j v s' lf' lm' L'.
Proof. apply m_match_run. Qed.

(** The least recently used checkpoint of the list [lm] that nobody holds,
    other than that of [x]. *)
Definition lru_other s (lm : list nat) x : option nat := last (filter (fun y => ckpt_lock s y = 0 /\ y ≠ x) lm).

Lemma mamba_lock_of s lf lm L Hs y :
  consistent s lf lm L Hs -> y ∈ lm -> exists m o, (mcore <$> m_nodes s) !! y = Some m /\
    (mckpt <$> m_nodes s) !! y = Some (o, ckpt_lock s y) /\ 0 <= ckpt_lock s y.
Proof.
  intros Hcs Hy. pose proof (cs_inv _ _ _ _ _ Hcs) as Hinv. pose proof (proj1 (minv_mamba Hinv y) Hy) as (HyL & Hyr & _).
  destruct (minv_lookup Hinv y HyL) as (m & k & Hm & Hk).
  destruct (ck_node _ _ _ _ _ _ _ _ (mi_ck _ _ _ _ Hinv) y HyL Hyr) as (o & E & _).
  destruct (ckpt_of_view s _ y o (held Hs y) (consistent_rep _ _ _ _ _ Hcs) E) as [_ El]. exists m, o.
  rewrite El. split_and!; [exact Hm|exact E|apply held_nonneg].
Qed.

Lemma victim_of s lf lm L Hs x : consistent s lf lm L Hs -> victim (view_of s lf lm) x = lru_other s lm x.
Proof.
  intros Hcs. unfold victim, lru_other, pick. f_equal. apply filter_ext_in. intros y Hy.
  destruct (mamba_lock_of s lf lm L Hs y Hcs Hy) as (m & o & Hm & Hk & Hz).
  rewrite andb_true_iff, negb_true_iff, bool_decide_eq_false.
  by rewrite (cand_mamba (view_of s lf lm) y m o (ckpt_lock s y)).
Qed.

(** The state [s'] after a checkpoint was evicted from [s] to make room for a
    copy of that of [x]. *)
Record evicted_for s (lf lm : list nat) L (Hs : list nat) x s' L' : Prop := EvictedFor {
  ef_consistent : consistent s' (filter (fun y => y ∈ L') lf)
    (filter (fun y => Some y ≠ lru_other s lm x) lm) L' Hs;
  ef_live : L' ⊆ L;
  ef_self : x ∈ L';
  ef_keeps : m_keeps s L' s';
  ef_ckpts y : y ∈ L' -> Some y ≠ lru_other s lm x -> ckpt_of s' y = ckpt_of s y /\ ckpt_lock s' y = ckpt_lock s y;
  ef_gone y : lru_other s lm x = Some y -> y ∈ L' -> ckpt_of s' y = None;
  ef_full : ms_slots (m_pool s') = []
}.

Lemma room_evicted s lf lm L Hs x vs u' L' s' :
  consistent s lf lm L Hs -> rep s' u' -> ms_slots (m_pool (w_base u')) = [] ->
  room_made Hs (view_of s lf lm) L x (option_list (lru_other s lm x)) vs u' L' -> evicted_for s lf lm L Hs x s' L'.
Proof.
  intros Hcs Hrep Hsl [R1 R2 R3 R4 R5 R6 R7 R8 _].
  assert (forall B (f : MambaRadixCache A P -> B), f (base s') = f (w_base u')) as Hbase
    by (intros B f; by rewrite (rep_base _ _ Hrep)).
  destruct R8 as (E1 & E2 & _ & _ & _ & E6 & _). pose proof (consistent_rep _ _ _ _ _ Hcs) as Hrep0.
  assert (forall y, y ∉ option_list (lru_other s lm x) <-> Some y ≠ lru_other s lm x) as Hopt.
  { intros y. destruct (lru_other s lm x); simpl; [rewrite list_elem_of_singleton; split; congruence|].
    split; [done|intros _; apply not_elem_of_nil]. }
  pose proof (rep_consistent s' u' L' Hs Hrep R1) as Hcs'. rewrite R6, R7 in Hcs'. cbn [view_of w_mamba w_full] in Hcs'.
  replace (filter (fun y => y ∉ option_list (lru_other s lm x)) lm) with (filter (fun y => Some y ≠ lru_other s lm x) lm)
    in Hcs' by (apply list_filter_iff; intros y; by rewrite Hopt).
  split; try done.
  - split_and!; [exact (eq_trans (Hbase _ m_params) E1)|exact (eq_trans (Hbase _ m_root) E2)|exact (eq_trans (Hbase _ enable_mamba_extra_buffer) E6)|].
    intros y w v Hy [l Hl]. exists l. unfold m_path. rewrite <-(rep_cores _ _ Hrep).
    change (m_params s') with (m_params (base s')). change (m_root s') with (m_root (base s')). rewrite !Hbase, E1, E2.
    by apply R4.
  - intros y Hy Hne. apply (ckpt_of_eq s (view_of s lf lm) s' u'); [done|done|]. apply R5; [done|by apply Hopt].
  - intros y Hv Hy. destruct (ckpt_of s' y) as [mv|] eqn:Ek; [exfalso|done].
    assert (y ∈ lm /\ y ≠ x) as [Hym Hyx].
    { unfold lru_other in Hv. apply last_Some_elem_of, list_elem_of_filter in Hv as [[_ ?] ?]. done. }
    assert (y ∈ w_mamba u') as Hin.
    { apply (minv_mamba R1). split_and!; [done| |].
      - rewrite E2. exact (proj1 (proj2 (proj1 (minv_mamba (cs_inv _ _ _ _ _ Hcs) y) Hym))).
      - rewrite (rep_ckpts _ _ Hrep). apply has_ckpt_of. by rewrite Ek. }
    rewrite R6 in Hin. apply list_elem_of_filter in Hin as [Hin _]. apply Hin. rewrite Hv. by apply list_elem_of_singleton.
  - exact (eq_trans (f_equal ms_slots (Hbase _ m_pool)) Hsl).
Qed.

(** C22: [match_prefix] with copy-on-write for a request without a slot of its
    own.  When the lookup ends at a checkpoint, the request gets a free slot
    and the slot to copy from.  If none is free, the least recently used
    checkpoint that nobody holds makes room, never the one to be copied; if
    there is none, the assertion fails, and the cache is consistent and holds
    what it held. *)
Theorem m_match_prefix_cow s lf lm L Hs k :
  consistent s lf lm L Hs -> alloc_ok (m_alloc s) -> disable (m_params s) = false -> lookup_key (psz s) k ->
  key_len k ≠ O ->
  exists x n j v s1 lf1 lm1 L1,
    looked_up s L Hs (pages (psz s) k) x n j v s1 lf1 lm1 L1 /\
    let run := m_match_prefix mamba_cache_chunk_size k (Some None) s in
    let result c := MkMMatch v x (branching mamba_cache_chunk_size (j * psz s) (n * psz s)) c in
    match ckpt_of s1 x, ms_slots (m_pool s) with
    | None, _ => run = (Ok (result None), s1)
    | Some mv, i :: free => exists p', run = (Ok (result (Some (i, Some mv))), mu_pool p' s1) /\ ms_slots p' = free
    | Some mv, [] => exists s' L', evicted_for s1 lf1 lm1 L1 Hs x s' L' /\
        match lru_other s1 lm1 x with
        | Some y => exists i, ckpt_of s1 y = Some [i] /\ run = (Ok (result (Some (i, Some mv))), s')
        | None => run = (Raise (Exn AssertionError "Can not alloc mamba cache"), s')
        end
    end.
Proof.
  intros Hcs Hok Hdis Hk Hz. destruct (lookup_run s lf lm L Hs k (Some None) Hcs Hdis Hk Hz) as
    (x & n & j & v & s1 & lf1 & lm1 & L1 & Hlu & Hrun).
  exists x, n, j, v, s1, lf1, lm1, L1. split; [done|]. cbv zeta. rewrite Hrun.
  destruct (lu_node _ _ _ _ _ _ _ _ _ _ _ _ Hlu) as (HxL & _). pose proof (lu_consistent _ _ _ _ _ _ _ _ _ _ _ _ Hlu) as Hcs1.
  destruct (lu_pools _ _ _ _ _ _ _ _ _ _ _ _ Hlu) as [Ea Eq]. rewrite <-Eq.
  destruct (lu_keeps _ _ _ _ _ _ _ _ _ _ _ _ Hlu) as (Ep & _).
  pose proof (cs_inv _ _ _ _ _ Hcs1) as Hinv1. pose proof (consistent_rep _ _ _ _ _ Hcs1) as Hrep1.
  destruct (minv_lookup Hinv1 x HxL) as (m & [o z] & Hm & Hkx).
  destruct (rep_lookup s1 _ x m Hrep1 Hm) as (nx & Hnx & _).
  destruct (ckpt_of_view s1 _ x o z Hrep1 Hkx) as [Eo _]. rewrite Eo.
  assert (mamba_value nx = o) as En by (unfold ckpt_of in Eo; by rewrite Hnx in Eo).
  unfold cow_step. rewrite bind_assoc, (bind_ok _ _ _ _ _ (mnode_at_eq s1 x nx Hnx)). rewrite En.
  destruct o as [mv|]; [|by erewrite bind_ok by reflexivity]. rewrite bind_assoc.
  destruct (ms_slots (m_pool s1)) as [|i free] eqn:Esl; cycle 1.
  - destruct (ms_alloc_ok 1 (m_pool s1)) as (p' & Hal & Hp'); [rewrite Esl; simpl; lia|].
    rewrite Esl in Hal, Hp'. simpl in Hal, Hp'. rewrite drop_0 in Hp'. exists p'. split; [|done].
    assert (cow_slot x None s1 = (Ok i, mu_pool p' s1)) as Hcow.
    { unfold cow_slot. erewrite bind_ok by (unfold mamba_alloc; rewrite Hal; reflexivity). by erewrite bind_ok by reflexivity. }
    rewrite (bind_ok _ _ _ _ _ Hcow), bind_assoc.
    erewrite bind_ok by (apply mnode_at_eq; exact Hnx). rewrite En. by erewrite bind_ok by reflexivity.
  - destruct (sh_up _ _ _ _ (minv_shape Hinv1) x HxL) as (l & w & v' & Hup).
    destruct (cow_evict (view_of s1 lf1 lm1) L1 Hs x l w v' mv z) as (vs & u' & L' & Hroom & Hsl & Hcase); try done.
    { change (alloc_ok (m_alloc s1)). by rewrite Ea. } { change (disable (m_params s1) = false). by rewrite Ep. }
    rewrite (victim_of s1 lf1 lm1 L1 Hs x Hcs1) in *. destruct (lru_other s1 lm1 x) as [y|] eqn:Ev.
    + destruct Hcase as (i & Hky & Hsim). destruct (Hsim s1 Hrep1) as (s' & Hr & Hrep').
      assert (evicted_for s1 lf1 lm1 L1 Hs x s' L') as Hef.
      { eapply room_evicted; [exact Hcs1|exact Hrep'|exact Hsl|rewrite Ev; exact Hroom]. }
      exists s', L'. split; [done|]. exists i. split; [by destruct (ckpt_of_view s1 _ y _ _ Hrep1 Hky)|].
      rewrite (bind_ok _ _ _ _ _ Hr), bind_assoc.
      destruct (ef_ckpts _ _ _ _ _ _ _ _ Hef x (ef_self _ _ _ _ _ _ _ _ Hef)) as [Ex _].
      { rewrite Ev. unfold lru_other in Ev. apply last_Some_elem_of, list_elem_of_filter in Ev as [[_ Hyx] _]. congruence. }
      rewrite Eo in Ex. unfold ckpt_of in Ex. destruct (m_nodes s' !! x) as [nx'|] eqn:Hnx'; [|done]. simpl in Ex.
      rewrite (bind_ok _ _ _ _ _ (mnode_at_eq s' x nx' Hnx')), Ex. by erewrite bind_ok by reflexivity.
    + destruct (Hcase s1 Hrep1) as (s' & Hr & Hrep'). exists s', L'. split; [|by apply bind_raise].
      eapply room_evicted; [exact Hcs1|exact Hrep'|exact Hsl|rewrite Ev; exact Hroom].
Qed.
End lookup.
