(* ===== verification/MambaLaws.v ===== *)
(** * The prefix cache of hybrid models: changes of the cache

    What [insert], [evict], [inc_lock_ref], [dec_lock_ref] and the constructor
    promise on concrete states, and that the traversal [total_size] agrees
    with the counters. *)

From S2P Require Import Prelude PyDict RadixKey KvEvents RadixTree RadixOps RadixInv RadixMoves.
From S2P Require Import RadixState RadixLocks RadixRun RadixEvents RadixInsert RadixSpec RadixEvict RadixLockOps.
From S2P Require Import RadixTotal RadixSlots MambaTree MambaOps LruFacts MambaView MambaRules MambaInv MambaRun.
From S2P Require Import MambaHold MambaShrink MambaEvict MambaInsert MambaMatch MambaSpec.

Section laws.
Context {A P : Type} `{KvFree A} `{!KvFreeTotal A} `{MambaSlots P} `{!MambaSlotsLaws P} `{Sha256} `{!Sha256Laws}.
Implicit Types (s : MambaRadixCache A P) (u : mview A P) (L : gset nat) (x y : nat) (Hs : list nat).
Abbreviation psz s := (page_size (m_params s)).

(** What the base of a view says about a state it represents. *)
Lemma rep_base_eq s u {B} (f : MambaRadixCache A P -> B) : rep s u -> f (base s) = f (w_base u).
Proof. intros Hrep. by rewrite (rep_base _ _ Hrep). Qed.

(** *** Insertion *)

(** The state [s'] after [v] with the checkpoint [mv] was inserted under [w]:
    [n] pages were cached with the slots [vs], [e] says whether there was a
    checkpoint, [x] is the node of the key and [fs] was freed. *)
Record m_inserted s L Hs (w : list child_key_t) (v mv : list Z) (prev n : nat) (e : bool) (vs : list Z)
    (fs : list (list Z)) x s' (lf' lm' : list nat) L' : Prop := MInserted {
  mi_consistent : consistent s' lf' lm' L' Hs;
  mi_live : L ⊆ L';
  mi_keeps : m_keeps s L s';
  mi_longest : m_longest s L w n vs;
  mi_content w' v' : m_content s' L' w' v' <-> m_content s L w' v' \/
    (w' `prefix_of` w /\ (n < length w')%nat /\ v' = take (length w' * psz s) (vs ++ drop (n * psz s) v));
  mi_node : x ∈ L' /\ m_spells s' x w (vs ++ drop (n * psz s) v);
  mi_ckpt : if e then x ∈ L /\ ckpt_of s x ≠ None /\ ckpt_of s' x = ckpt_of s x
    else (x ∈ L -> ckpt_of s x = None) /\ ckpt_of s' x = Some mv;
  mi_others y : y ∈ L -> y ≠ x -> ckpt_of s' y = ckpt_of s y /\ ckpt_lock s' y = ckpt_lock s y;
  mi_new y : y ∈ L' -> y ∉ L -> y ≠ x -> ckpt_of s' y = None;
  mi_freed : m_alloc s' = free_all fs (m_alloc s) /\ concat fs = drop prev (take (n * psz s) v);
  mi_pool : m_pool s' = m_pool s;
  mi_full : full_evictable_size s' = full_evictable_size s + len (drop (n * psz s) v) /\
    full_protected_size s' = full_protected_size s;
  mi_mamba : mamba_evictable_size s' = mamba_evictable_size s + (if e then 0 else 1) /\
    mamba_protected_size s' = mamba_protected_size s;
  mi_occ i : m_occ s' L' i = m_occ s L i + occ i (drop (n * psz s) v);
  mi_ckocc i : m_ckocc s' L' i = m_ckocc s L i + if e then 0 else occ i mv
}.

Lemma m_insert_run s lf lm L Hs k v mv prev :
  consistent s lf lm L Hs -> alloc_ok (m_alloc s) -> disable (m_params s) = false -> aligned (psz s) k ->
  key_len k ≠ O -> length v = key_len k -> length mv = 1%nat ->
  (enable_kv_cache_events (m_params s) = true -> tokens_fit k) ->
  exists n e vs fs x s' lf' lm' L',
    m_insert k (Some v) (Some mv) prev s = (Ok ((n * psz s)%nat, e), s') /\
    m_inserted s L Hs (pages (psz s) k) v mv prev n e vs fs x s' lf' lm' L' /\ alloc_ok (m_alloc s').
Proof.
  intros Hcs Hok Hdis Ha Hz Hlen Hmv Hfit. set (w := pages (psz s) k). pose proof (consistent_rep _ _ _ _ _ Hcs) as Hrep.
  pose proof (cs_inv _ _ _ _ _ Hcs) as Hinv. pose proof (minv_ps Hinv) as Hps. pose proof (minv_shape Hinv) as Hsh.
  destruct (insert_sim (view_of s lf lm) L Hs k v mv prev Hinv Hok Hdis Ha Hz Hlen Hmv Hfit s Hrep) as
    (a & s' & u' & Hrun & Hrep' & n & e & vs & fs & L' & -> & Hn & [st Hdesc] & Hins & Hfs).
  destruct Hins as [I1 I2 (I3 & I4 & I5 & Ibuf & _) [I6 Iok] I7 I8 I9 I10 I11 I12].
  destruct I9 as (x & l & HxL & Hxr & Hux & Hxk & Hxk' & Hold & Hnew & He).
  pose proof (fun B (f : MambaRadixCache A P -> B) (Hr : rep s' u') => rep_base_eq s' u' f Hr) as Hb.
  assert (m_params s' = m_params s) as Ep by exact (eq_trans (Hb _ m_params Hrep') I3).
  assert (m_root s' = m_root s) as Er by exact (eq_trans (Hb _ m_root Hrep') I4).
  assert (forall y l' w' v', up (psz s) (m_root s) (w_cores u') y l' w' v' -> m_spells s' y w' v') as Hsp.
  { intros y l' w' v' Hu. exists l'. unfold m_path. by rewrite Ep, Er, <-(rep_cores _ _ Hrep'). }
  exists n, e, vs, fs, x, s', (w_full u'), (w_mamba u'), L'. split; [exact Hrun|]. split; cycle 1.
  { change (alloc_ok (m_alloc (base s'))). by rewrite (Hb _ m_alloc Hrep'). }
  split; try done.
  - by apply rep_consistent.
  - split_and!; [done|done|exact (eq_trans (Hb _ enable_mamba_extra_buffer Hrep') Ibuf)|]. intros y w' v' Hy [l' Hl']. destruct (I8 y l' w' v' Hy Hl') as [l2 Hl2]. by eapply Hsp.
  - by apply (desc_longest_of s lf lm L Hs w vs n st).
  - intros w' v'. unfold m_content at 1. rewrite Ep, Er, <-(rep_cores _ _ Hrep'). apply I7.
  - split; [done|by eapply Hsp].
  - destruct e.
    + assert (ckpt_of s' x = ckpt_of s x) as Eq.
      { apply (ckpt_of_eq s (view_of s lf lm) s' u'); [done|done|]. by apply Hold; [|right]. }
      split_and!; [done| |done]. rewrite <-Eq. rewrite (rep_ckpts _ _ Hrep') in Hxk. by apply has_ckpt_of.
    + split; [|by destruct (ckpt_of_view s' u' x _ _ Hrep' (Hxk' eq_refl))].
      intros HxL0. by destruct (ckpt_of_view s (view_of s lf lm) x _ _ Hrep (He HxL0)).
  - intros y Hy Hne. apply (ckpt_of_eq s (view_of s lf lm) s' u'); [done|done|]. by apply Hold; [|left].
  - intros y Hy HyL Hne. by destruct (ckpt_of_view s' u' y _ _ Hrep' (Hnew y Hy HyL Hne)).
  - split; [exact (eq_trans (Hb _ m_alloc Hrep') I6)|exact Hfs].
  - exact (eq_trans (Hb _ m_pool Hrep') I5).
  - split; [exact (eq_trans (Hb _ full_evictable_size_ Hrep') (proj1 I10))
      |exact (eq_trans (Hb _ full_protected_size_ Hrep') (proj1 (proj2 I10)))].
  - split; [exact (eq_trans (Hb _ mamba_evictable_size_ Hrep') (proj1 (proj2 (proj2 I10))))
      |exact (eq_trans (Hb _ mamba_protected_size_ Hrep') (proj2 (proj2 (proj2 I10))))].
  - intros i. unfold m_occ. rewrite <-(rep_cores _ _ Hrep'). exact (I11 i).
  - intros i. unfold m_ckocc. rewrite <-(rep_ckpts _ _ Hrep'). exact (I12 i).
Qed.

(** C19: [insert] of a key of whole pages with its KV slots and a checkpoint
    never raises.  It returns the length of the longest prefix that was
    cached and whether the whole key had a checkpoint already.  Afterwards
    exactly the prefixes of the key are cached in addition, with the old slots
    where there were any; the key ends in a node with a checkpoint, the given
    one unless there was one; all other checkpoints and all nodes are as they
    were.  The slots that duplicate cached ones are freed, those the caller
    had from the tree ([prev_prefix_len]) excepted. *)
Theorem m_insert_spec s lf lm L Hs k v mv prev :
  consistent s lf lm L Hs -> alloc_ok (m_alloc s) -> disable (m_params s) = false -> aligned (psz s) k ->
  key_len k ≠ O -> length v = key_len k -> length mv = 1%nat ->
  (enable_kv_cache_events (m_params s) = true -> tokens_fit k) ->
  exists n e vs fs x s' lf' lm' L',
    m_insert k (Some v) (Some mv) prev s = (Ok ((n * psz s)%nat, e), s') /\
    m_inserted s L Hs (pages (psz s) k) v mv prev n e vs fs x s' lf' lm' L'.
Proof.
  intros Hcs Hok Hdis Ha Hz Hlen Hmv Hfit.
  destruct (m_insert_run s lf lm L Hs k v mv prev Hcs Hok Hdis Ha Hz Hlen Hmv Hfit) as
    (n & e & vs & fs & x & s' & lf' & lm' & L' & Hr & Hi & _). by exists n, e, vs, fs, x, s', lf', lm', L'.
Qed.

(** *** Eviction *)

(** The state [s'] after nodes and checkpoints have been evicted from [s]:
    [vs] and [mvs] are the KV slots and the checkpoints returned to their
    pools.  What is left is as it was. *)
Record m_evicted s (lf : list nat) L Hs s' (lm' : list nat) L' (vs mvs : list (list Z)) : Prop := MEvicted {
  me_consistent : consistent s' (filter (fun y => y ∈ L') lf) lm' L' Hs;
  me_live : L' ⊆ L;
  me_keeps : m_keeps s L' s';
  me_content w v : m_content s' L' w v -> m_content s L w v;
  me_ckpt y : y ∈ L' -> ckpt_lock s' y = ckpt_lock s y /\
    (ckpt_of s' y = ckpt_of s y \/ (ckpt_of s' y = None /\ ckpt_lock s y = 0));
  me_alloc : m_alloc s' = free_all vs (m_alloc s);
  me_pool : m_pool s' = pool_free_all mvs (m_pool s);
  me_full : full_evictable_size s' = full_evictable_size s - sumZ len vs /\
    full_protected_size s' = full_protected_size s;
  me_mamba : mamba_evictable_size s' = mamba_evictable_size s - sumZ len mvs /\
    mamba_protected_size s' = mamba_protected_size s;
  me_occ i : m_occ s' L' i + occ i (concat vs) = m_occ s L i;
  me_ckocc i : m_ckocc s' L' i + occ i (concat mvs) = m_ckocc s L i
}.

Lemma shrunk_evicted s lf lm L Hs s' u' L' vs mvs :
  consistent s lf lm L Hs -> rep s' u' -> minv ∅ u' L' Hs -> shrunk (view_of s lf lm) L u' L' vs mvs ->
  m_evicted s lf L Hs s' (w_mamba u') L' vs mvs.
Proof.
  intros Hcs Hrep' Hinv' Hsk. pose proof (consistent_rep _ _ _ _ _ Hcs) as Hrep. pose proof (cs_inv _ _ _ _ _ Hcs) as Hinv.
  pose proof (fun B (f : MambaRadixCache A P -> B) (Hr : rep s' u') => rep_base_eq s' u' f Hr) as Hb.
  destruct (sk_frame _ _ _ _ _ _ Hsk) as (E1 & E2 & _ & _ & _ & E6 & _).
  assert (m_params s' = m_params s) as Ep by exact (eq_trans (Hb _ m_params Hrep') E1).
  assert (m_root s' = m_root s) as Er by exact (eq_trans (Hb _ m_root Hrep') E2).
  assert (forall x l w v, x ∈ L' -> m_path s x l w v -> m_path s' x l w v) as Hpath.
  { intros x l w v Hx Hl. unfold m_path. rewrite Ep, Er, <-(rep_cores _ _ Hrep'). by apply (sk_up _ _ _ _ _ _ Hsk). }
  pose proof (rep_consistent s' u' L' Hs Hrep' Hinv') as Hcs'. rewrite (sk_full _ _ _ _ _ _ Hsk) in Hcs'. split.
  - exact Hcs'.
  - exact (sk_live _ _ _ _ _ _ Hsk).
  - split_and!; [done|done|exact (eq_trans (Hb _ enable_mamba_extra_buffer Hrep') E6)|].
    intros x w v Hx [l Hl]. exists l. by apply Hpath.
  - intros w v (x & l & w' & v' & Hx & Hu & Hw & ->).
    destruct (sh_up _ _ _ _ (minv_shape Hinv) x (sk_live _ _ _ _ _ _ Hsk x Hx)) as (l0 & w0 & v0 & Hu0).
    destruct (up_fun _ _ _ _ _ _ _ _ _ _ Hu (Hpath x l0 w0 v0 Hx Hu0)) as (_ & -> & ->). rewrite Ep.
    exists x, l0, w0, v0. split_and!; [by apply (sk_live _ _ _ _ _ _ Hsk)|exact Hu0|done|done].
  - intros y Hy. destruct (sk_ckpt _ _ _ _ _ _ Hsk y Hy) as [E|(mv & Ea & Eb)].
    + destruct (ckpt_of_eq s (view_of s lf lm) s' u' y Hrep Hrep' E) as [-> ->]. split; [done|by left].
    + destruct (ckpt_of_view s _ y _ _ Hrep Ea) as [_ ->]. destruct (ckpt_of_view s' _ y _ _ Hrep' Eb) as [-> ->].
      split; [done|by right].
  - exact (eq_trans (Hb _ m_alloc Hrep') (sk_alloc _ _ _ _ _ _ Hsk)).
  - exact (eq_trans (Hb _ m_pool Hrep') (sk_pool _ _ _ _ _ _ Hsk)).
  - split; [exact (eq_trans (Hb _ full_evictable_size_ Hrep') (sk_fev _ _ _ _ _ _ Hsk))
      |exact (eq_trans (Hb _ full_protected_size_ Hrep') (sk_fpr _ _ _ _ _ _ Hsk))].
  - split; [exact (eq_trans (Hb _ mamba_evictable_size_ Hrep') (sk_mev _ _ _ _ _ _ Hsk))
      |exact (eq_trans (Hb _ mamba_protected_size_ Hrep') (sk_mpr _ _ _ _ _ _ Hsk))].
  - intros i. unfold m_occ at 1. rewrite <-(rep_cores _ _ Hrep'). exact (sk_occ _ _ _ _ _ _ Hsk i).
  - intros i. unfold m_ckocc at 1. rewrite <-(rep_ckpts _ _ Hrep'). exact (sk_ckocc _ _ _ _ _ _ Hsk i).
Qed.

(** The [k] least recently used checkpoints of the list [lm] that nobody
    holds, least recently used first. *)
Definition lru_ckpts s (lm : list nat) (k : nat) : list nat := take k (reverse (filter (fun y => ckpt_lock s y = 0) lm)).

Lemma lru_unlocked_of s lf lm L Hs k :
  consistent s lf lm L Hs -> lru_unlocked k (view_of s lf lm) = lru_ckpts s lm k.
Proof.
  intros Hcs. unfold lru_unlocked, lru_ckpts. do 2 f_equal. apply filter_ext_in. intros y Hy.
  destruct (mamba_lock_of s lf lm L Hs y Hcs Hy) as (m & o & Hm & Hk & Hz).
  exact (cand_mamba (view_of s lf lm) y m o (ckpt_lock s y) Hm Hk Hz).
Qed.

(** C20: [evict_mamba(n)] never raises and evicts exactly the [n] least
    recently used checkpoints that nobody holds (all of them if there are
    fewer): a leaf is deleted together with its checkpoint and its ancestors
    that end nothing any more, an inner node only loses its checkpoint.
    Everything else is as it was and in the same order; the slots are
    returned to the pools, each exactly once. *)
Theorem evict_mamba_spec s lf lm L Hs num :
  consistent s lf lm L Hs -> alloc_ok (m_alloc s) -> disable (m_params s) = false ->
  let ys := lru_ckpts s lm (Z.to_nat num) in
  exists vs mvs s' L',
    evict_mamba num s = (Ok (len ys), s') /\
    m_evicted s lf L Hs s' (filter (fun y => y ∉ ys) lm) L' vs mvs /\
    Forall2 (fun y mv => ckpt_of s y = Some mv) ys mvs /\
    (forall y, y ∈ L' -> ckpt_of s' y = if decide (y ∈ ys) then None else ckpt_of s y) /\
    (num <= len ys \/ mamba_evictable_size s' = 0) /\ alloc_ok (m_alloc s').
Proof.
  intros Hcs Hok Hdis ys. pose proof (consistent_rep _ _ _ _ _ Hcs) as Hrep. pose proof (cs_inv _ _ _ _ _ Hcs) as Hinv.
  destruct (evict_mamba_sim (view_of s lf lm) L Hs num Hinv Hok Hdis) as (vs & mvs & u' & L' & Hsim & Hce).
  pose proof (evicted_enough _ _ _ _ _ _ _ _ Hinv Hce) as Hen.
  rewrite (lru_unlocked_of s lf lm L Hs _ Hcs) in *. fold ys in Hsim, Hce, Hen.
  destruct (Hsim s Hrep) as (s' & Hrun & Hrep'). destruct Hce as [C1 C2 C3 C4].
  pose proof (shrunk_evicted s lf lm L Hs s' u' L' vs mvs Hcs Hrep' C1 C2) as Hev. rewrite C3 in Hev.
  exists vs, mvs, s', L'. split_and!; [done|exact Hev| | | |].
  - eapply Forall2_impl; [exact C4|]. intros y mv Hk. by destruct (ckpt_of_view s _ y _ _ Hrep Hk).
  - assert (forall y, y ∈ ys -> y ∈ lm) as Hyslm.
    { intros y Hy. unfold ys in Hy. rewrite <-(lru_unlocked_of s lf lm L Hs _ Hcs) in Hy. by apply lru_unlocked_elem in Hy. }
    intros y Hy. assert (y ∈ w_mamba u' <-> y ∈ lm /\ y ∉ ys) as Hm by (rewrite C3, list_elem_of_filter; cbn [view_of w_mamba]; tauto).
    assert (ckpt_of s' y ≠ None <-> has_ckpt (w_ckpts u') y = true) as Hk
      by (rewrite (rep_ckpts _ _ Hrep'); symmetry; apply has_ckpt_of).
    destruct (sk_frame _ _ _ _ _ _ C2) as (_ & Er & _). pose proof (minv_mamba C1 y) as Hm'. rewrite Er in Hm'.
    pose proof (minv_mamba Hinv y) as Hm0. pose proof (has_ckpt_of s y) as Hk0. cbn [view_of w_mamba w_ckpts w_base base m_root] in *.
    pose proof (sk_live _ _ _ _ _ _ C2 y Hy) as HyL.
    destruct (me_ckpt _ _ _ _ _ _ _ _ _ Hev y Hy) as [_ [E|[E _]]]; rewrite E in *.
    + case_decide as Hys; [|done]. destruct (ckpt_of s y) eqn:Ec; [exfalso|done].
      assert (y ≠ m_root s) as Hyr.
      { specialize (Hyslm y Hys). tauto. }
      assert (Some l ≠ None) as Hsn by done. tauto.
    + case_decide as Hys; [done|]. destruct (ckpt_of s y) as [mv|] eqn:Ec; [exfalso|done].
      assert (Some mv ≠ None) as Hsn by done.
      assert (y ≠ m_root s) as Hyr.
      { intros ->. pose proof (root_no_ckpt _ _ _ _ Hinv) as Hr. cbn [view_of w_ckpts w_base base m_root] in Hr.
        apply Hk0 in Hsn. congruence. }
      tauto.
  - destruct Hen as [|E]; [by left|right]. exact (eq_trans (rep_base_eq s' u' mamba_evictable_size_ Hrep') E).
  - change (alloc_ok (m_alloc (base s'))). rewrite (rep_base_eq s' u' m_alloc Hrep'). by apply (sk_ok _ _ _ _ _ _ C2).
Qed.

(** A leaf that nobody holds. *)
Definition evictable_leaf s x : Prop :=
  exists n, m_nodes s !! x = Some n /\ full_lock_ref n = 0 /\ n_children n = [].

(** C21: [evict_full(n)] never raises, terminates, and evicts at least [n]
    tokens or all that can be evicted: leaves that nobody holds, together
    with the ancestors that end nothing any more.  The leaves go in the order
    of their last use: one that is evicted was less recently used than any
    evictable leaf that stays.  What is left is as it was; each slot is
    returned exactly once. *)
Theorem evict_full_spec s lf lm L Hs num :
  consistent s lf lm L Hs -> alloc_ok (m_alloc s) -> disable (m_params s) = false ->
  exists vs mvs s' lm' L',
    evict_full num s = (Ok (sumZ len vs), s') /\
    m_evicted s lf L Hs s' lm' L' vs mvs /\
    (num <= sumZ len vs \/ full_evictable_size s' = 0) /\
    (forall x y, x ∈ lf -> y ∈ lf -> evictable_leaf s x -> evictable_leaf s y -> x ∉ L' -> y ∈ L' -> more_recent lf y x) /\
    alloc_ok (m_alloc s').
Proof.
  intros Hcs Hok Hdis. pose proof (consistent_rep _ _ _ _ _ Hcs) as Hrep. pose proof (cs_inv _ _ _ _ _ Hcs) as Hinv.
  destruct (evict_full_sim (view_of s lf lm) L Hs num Hinv Hok Hdis) as (vs & mvs & u' & L' & Hsim & Hev & Hend).
  destruct (lru_evictions_shrunk _ _ _ _ _ _ _ Hev) as [Hinv' Hsk]. destruct (Hsim s Hrep) as (s' & Hrun & Hrep').
  assert (forall x, x ∈ lf -> evictable_leaf s x -> cand false (view_of s lf lm) x = true) as Hcand.
  { intros x Hx (n & Hn & Hl & Hc). destruct (full_cand ∅ (view_of s lf lm) L Hs x Hinv Hx) as (m & k & _ & _ & Hm & _ & Hiff).
    cbn [view_of w_cores] in Hm. rewrite lookup_fmap, Hn in Hm. injection Hm as <-. by apply Hiff. }
  exists vs, mvs, s', (w_mamba u'), L'. split_and!; [done|by apply (shrunk_evicted s lf lm L Hs s' u' L')| | |].
  - destruct Hend as [|E]; [by left|right]. exact (eq_trans (rep_base_eq s' u' full_evictable_size_ Hrep') E).
  - intros x y Hx Hy Hlx Hly HxL HyL.
    exact (lru_evictions_order Hs (view_of s lf lm) L vs mvs u' L' x y Hev Hinv Hx Hy (Hcand x Hx Hlx) (Hcand y Hy Hly) HxL HyL).
  - change (alloc_ok (m_alloc (base s'))). rewrite (rep_base_eq s' u' m_alloc Hrep'). by apply (sk_ok _ _ _ _ _ _ Hsk).
Qed.

(** What a request holds survives evictions. *)
Lemma evicted_held s lf lm L Hs s' lm' L' vs mvs :
  consistent s lf lm L Hs -> m_evicted s lf L Hs s' lm' L' vs mvs ->
  forall x, x ∈ Hs -> x ∈ L' /\ ckpt_of s' x = ckpt_of s x /\ ckpt_lock s' x = ckpt_lock s x.
Proof.
  intros Hcs Hev x Hx. pose proof (cs_inv _ _ _ _ _ Hcs) as Hinv. pose proof (consistent_rep _ _ _ _ _ Hcs) as Hrep.
  pose proof (minv_held_live (cs_inv _ _ _ _ _ (me_consistent _ _ _ _ _ _ _ _ _ Hev)) x Hx) as HxL. split; [done|].
  destruct (me_ckpt _ _ _ _ _ _ _ _ _ Hev x HxL) as [El [E|[_ E0]]]; [by rewrite El|exfalso].
  pose proof (minv_held_live Hinv x Hx) as HxL0. destruct (decide (x = m_root s)) as [->|Hne].
  - pose proof (ck_root _ _ _ _ _ _ _ _ (mi_ck _ _ _ _ Hinv)) as Hr. destruct (ckpt_of_view s _ _ _ _ Hrep Hr) as [_ El1].
    cbn [view_of w_base base m_root] in El1. lia.
  - destruct (ck_node _ _ _ _ _ _ _ _ (mi_ck _ _ _ _ Hinv) x HxL0 Hne) as (o & Ek & _).
    destruct (ckpt_of_view s _ _ _ _ Hrep Ek) as [_ El']. rewrite E0 in El'. symmetry in El'. by apply held_zero in El'.
Qed.

(** [evict] of tokens and checkpoints never raises, keeps the cache
    consistent and everything a request holds, and frees at least the tokens
    and the checkpoints asked for or all that are evictable. *)
Theorem m_evict_spec s lf lm L Hs nt nm :
  consistent s lf lm L Hs -> alloc_ok (m_alloc s) -> disable (m_params s) = false ->
  exists f m s' lm' L' vs mvs,
    m_evict nt nm s = (Ok (f, m), s') /\ m_evicted s lf L Hs s' lm' L' vs mvs /\
    (forall x, x ∈ Hs -> x ∈ L' /\ ckpt_of s' x = ckpt_of s x /\ ckpt_lock s' x = ckpt_lock s x) /\
    (nt <= f \/ full_evictable_size s' = 0) /\ (nm <= m \/ mamba_evictable_size s' = 0).
Proof.
  intros Hcs Hok Hdis. pose proof (consistent_rep _ _ _ _ _ Hcs) as Hrep. pose proof (cs_inv _ _ _ _ _ Hcs) as Hinv.
  destruct (evict_sim (view_of s lf lm) L Hs nt nm Hinv Hok Hdis) as
    (f & m & vs & mvs & u' & L' & Hsim & Hinv' & Hsk & Hf & Hm). destruct (Hsim s Hrep) as (s' & Hrun & Hrep').
  pose proof (shrunk_evicted s lf lm L Hs s' u' L' vs mvs Hcs Hrep' Hinv' Hsk) as Hev.
  exists f, m, s', (w_mamba u'), L', vs, mvs. split_and!; [done|done| | |].
  - by apply (evicted_held s lf lm L Hs s' (w_mamba u') L' vs mvs).
  - destruct Hf as [|E]; [by left|right]. exact (eq_trans (rep_base_eq s' u' full_evictable_size_ Hrep') E).
  - destruct Hm as [|E]; [by left|right]. exact (eq_trans (rep_base_eq s' u' mamba_evictable_size_ Hrep') E).
Qed.

(** *** Locks *)

(** A slot of the pool, with an eviction if none is free. *)
Lemma pool_free_all_slots mvs (p : P) : ms_slots (pool_free_all mvs p) = ms_slots p ++ concat mvs.
Proof.
  revert p. induction mvs as [|mv mvs IH]; intros p; simpl; [by rewrite app_nil_r|].
  unfold pool_free_all in *. simpl. rewrite IH, ms_free_slots. by rewrite <-app_assoc.
Qed.

Lemma m_evicted_refl s lf lm L Hs : consistent s lf lm L Hs -> m_evicted s lf L Hs s lm L [] [].
Proof.
  intros Hcs. pose proof (consistent_rep _ _ _ _ _ Hcs) as Hrep. pose proof (cs_inv _ _ _ _ _ Hcs) as Hinv.
  exact (shrunk_evicted s lf lm L Hs s (view_of s lf lm) L [] [] Hcs Hrep Hinv (shrunk_refl _ _ _ _ Hinv)).
Qed.

Lemma evict_one_run s lf lm L Hs :
  consistent s lf lm L Hs -> alloc_ok (m_alloc s) -> disable (m_params s) = false ->
  exists m s1 lm1 L1 vs mvs, m_evict 0 1 s = (Ok m, s1) /\ m_evicted s lf L Hs s1 lm1 L1 vs mvs /\
    alloc_ok (m_alloc s1) /\ (concat mvs = [] -> mamba_evictable_size s = 0).
Proof.
  intros Hcs Hok Hdis. pose proof (consistent_rep _ _ _ _ _ Hcs) as Hrep. pose proof (cs_inv _ _ _ _ _ Hcs) as Hinv.
  destruct (evict_one_sim (view_of s lf lm) L Hs Hinv Hok Hdis) as (vs & mvs & u' & L' & Hsim & Hce).
  destruct (Hsim s Hrep) as (s' & Hrun & Hrep'). pose proof (evicted_enough _ _ _ 1 _ _ _ _ Hinv Hce) as Hen.
  destruct Hce as [C1 C2 C3 C4]. pose proof (shrunk_evicted s lf lm L Hs s' u' L' vs mvs Hcs Hrep' C1 C2) as Hev.
  do 6 eexists. split_and!; [exact Hrun|exact Hev| |].
  - change (alloc_ok (m_alloc (base s'))). rewrite (rep_base_eq s' u' m_alloc Hrep'). by apply (sk_ok _ _ _ _ _ _ C2).
  - intros Hnil. assert (lru_unlocked 1 (view_of s lf lm) = []) as E.
    { pose proof (lru_unlocked_elem 1 (view_of s lf lm)) as Hel. revert C4 Hel. generalize (lru_unlocked 1 (view_of s lf lm)).
      intros l C4 Hel. destruct C4 as [|y mv ys mvs' Hy _]; [done|exfalso]. simpl in Hnil. apply app_eq_nil in Hnil as [-> _].
      destruct (proj1 (minv_mamba Hinv y) (Hel y ltac:(left))) as (HyL & Hyr & _).
      destruct (ck_node _ _ _ _ _ _ _ _ (mi_ck _ _ _ _ Hinv) y HyL Hyr) as (o & Ek & _ & Hlen).
      rewrite Hy in Ek. injection Ek as <- _. by specialize (Hlen [] eq_refl). }
    apply (no_unlocked ∅ (view_of s lf lm) L Hs Hinv). intros y Hy. apply not_true_iff_false. intros Hc.
    unfold lru_unlocked in E. rewrite take_1_reverse in E.
    assert (y ∈ ([] : list nat)) as []%elem_of_nil. destruct (last _) eqn:El in E; [done|]. apply last_None in El.
    rewrite <-El. by apply list_elem_of_filter.
Qed.

Lemma mamba_alloc_run s :
  match ms_slots (m_pool s) with
  | i :: free => exists p', mamba_alloc 1 s = (Ok (Some [i]), mu_pool p' s) /\ ms_slots p' = free /\
      ms_alloc 1 (m_pool s) = (Some [i], p')
  | [] => mamba_alloc 1 s = (Ok None, s)
  end.
Proof.
  destruct (ms_slots (m_pool s)) as [|i free] eqn:E; unfold mamba_alloc.
  - rewrite ms_alloc_fail by (rewrite E; simpl; lia). by destruct s.
  - destruct (ms_alloc_ok 1 (m_pool s)) as (p' & Ha & Hs'); [rewrite E; simpl; lia|]. rewrite E in Ha, Hs'.
    exists p'. by rewrite Ha.
Qed.

(** [_alloc_mamba_slot]: it fails exactly when no slot is free and every
    checkpoint is held. *)
Lemma alloc_mamba_slot_run s lf lm L Hs :
  consistent s lf lm L Hs -> alloc_ok (m_alloc s) -> disable (m_params s) = false ->
  exists s1 lm1 L1 vs mvs, m_evicted s lf L Hs s1 lm1 L1 vs mvs /\ alloc_ok (m_alloc s1) /\
    (ms_slots (m_pool s) ≠ [] -> s1 = s /\ L1 = L) /\
    match ms_slots (m_pool s1) with
    | i :: free => exists p', alloc_mamba_slot s = (Ok [i], mu_pool p' s1) /\ ms_slots p' = free /\
        ms_alloc 1 (m_pool s1) = (Some [i], p')
    | [] => alloc_mamba_slot s = (Raise (Exn AssertionError "Can not alloc mamba cache"), s1) /\
        ms_slots (m_pool s) = [] /\ mamba_evictable_size s = 0
    end.
Proof.
  intros Hcs Hok Hdis. unfold alloc_mamba_slot. pose proof (mamba_alloc_run s) as Ha.
  destruct (ms_slots (m_pool s)) as [|i free] eqn:E.
  - destruct (evict_one_run s lf lm L Hs Hcs Hok Hdis) as (m & s1 & lm1 & L1 & vs & mvs & Hr & Hev & Hok1 & Hnil).
    exists s1, lm1, L1, vs, mvs. split_and!; [done|done|done|]. rewrite (bind_ok _ _ _ _ _ Ha). cbv beta iota.
    rewrite (bind_ok _ _ _ _ _ Hr). cbv beta. pose proof (mamba_alloc_run s1) as Ha1.
    pose proof (me_pool _ _ _ _ _ _ _ _ _ Hev) as Hp.
    destruct (ms_slots (m_pool s1)) as [|i free] eqn:E1.
    + rewrite (bind_ok _ _ _ _ _ Ha1). split_and!; [done|done|]. apply Hnil.
      by rewrite Hp, pool_free_all_slots, E in E1.
    + destruct Ha1 as (p' & Hr1 & Hf & Hal). exists p'. rewrite (bind_ok _ _ _ _ _ Hr1). done.
  - exists s, lm, L, [], []. split_and!; [by apply m_evicted_refl|done|done|]. rewrite E.
    destruct Ha as (p' & Hr1 & Hf & Hal). exists p'. rewrite (bind_ok _ _ _ _ _ Hr1). done.
Qed.

Lemma hold_swap d d' l a u x : hold_ckpt d (hold_path d' l a u) x = hold_path d' l a (hold_ckpt d u x).
Proof.
  unfold hold_ckpt, hold_path. cbn [w_upd w_nodes w_ckpts id].
  destruct (w_ckpts u !! x) as [[[mv|] z]|]; try done.
Qed.

Lemma hold_path_undo l a u : NoDup l -> hold_path (-1) l a (hold_path 1 l (- a) u) = u.
Proof.
  intros Hnd. apply mview_ext; cbn [w_base w_cores w_ckpts w_full w_mamba w_upd w_nodes hold_path id]; try done.
  - unfold mu_full. destruct (w_base u). cbn. f_equal; lia.
  - by apply relock_undo.
Qed.

Lemma hold_ckpt_undo u x :
  (forall mv z, w_ckpts u !! x = Some (Some mv, z) -> 0 <= z) -> hold_ckpt (-1) (hold_ckpt 1 u x) x = u.
Proof.
  intros Hz. unfold hold_ckpt at 2. destruct (w_ckpts u !! x) as [[[mv|] z]|] eqn:Ek;
    try (unfold hold_ckpt; by rewrite Ek). specialize (Hz mv z eq_refl).
  unfold hold_ckpt. cbn [w_upd w_nodes w_ckpts id]. rewrite lookup_alter_eq, Ek. cbn [fmap option_fmap option_map fst snd].
  apply mview_ext; cbn [w_base w_cores w_ckpts w_full w_mamba w_upd w_nodes id]; try done.
  - unfold mu_mamba. destruct (w_base u). cbn. f_equal; repeat case_decide; lia.
  - rewrite alter_alter_eq. apply map_eq. intros y. destruct (decide (y = x)) as [->|Hne]; [|by rewrite lookup_alter_ne].
    rewrite lookup_alter_eq, Ek. simpl. do 2 f_equal. lia.
Qed.

Lemma hold_ckpt_fst d u x y : (w_ckpts (hold_ckpt d u x) !! y) ≫= fst = (w_ckpts u !! y) ≫= fst.
Proof.
  unfold hold_ckpt. destruct (w_ckpts u !! x) as [[[mv|] z]|] eqn:Ek; try done. cbn [w_upd w_nodes w_ckpts].
  destruct (decide (y = x)) as [->|Hne]; [by rewrite lookup_alter_eq, Ek|by rewrite lookup_alter_ne].
Qed.

Lemma ckpt_of_fst s u y : rep s u -> ckpt_of s y = (w_ckpts u !! y) ≫= fst.
Proof. intros Hrep. rewrite (rep_ckpts _ _ Hrep), lookup_fmap. unfold ckpt_of. by destruct (m_nodes s !! y). Qed.

Lemma acquired_released u L H' x l w v :
  minv ∅ u L H' -> x ∈ L -> up (page_size (m_params (w_base u))) (m_root (w_base u)) (w_cores u) x l w v ->
  released (acquired u x l) x l = u.
Proof.
  intros Hinv Hx Hu. pose proof (up_NoDup _ _ _ _ _ _ _ Hu) as Hnd.
  assert (path_len (g := relock 1 l (w_cores u)) l 1 = path_len (g := w_cores u) l 0) as Hlen.
  { apply sumZ_ext. intros y Hy. unfold size_if. rewrite relock_in by done.
    destruct (w_cores u !! y) as [n|]; [|done]. simpl. unfold co_len. simpl. repeat case_bool_decide; try done; lia. }
  assert (forall mv z, w_ckpts u !! x = Some (Some mv, z) -> 0 <= z) as Hz.
  { intros mv z Ek. destruct (decide (x = m_root (w_base u))) as [->|Hr].
    - rewrite (ck_root _ _ _ _ _ _ _ _ (mi_ck _ _ _ _ Hinv)) in Ek. congruence.
    - destruct (ck_node _ _ _ _ _ _ _ _ (mi_ck _ _ _ _ Hinv) x Hx Hr) as (o & E & _). rewrite Ek in E.
      injection E as _ ->. apply held_nonneg. }
  unfold released. rewrite acquired_cores, Hlen. unfold acquired. rewrite hold_swap, hold_ckpt_undo by done.
  by apply hold_path_undo.
Qed.

(** Whoever holds a node holds its checkpoint. *)
Lemma held_ckpt exc u L H' x :
  minv exc u L H' -> x ∈ H' -> x = m_root (w_base u) \/ has_ckpt (w_ckpts u) x = true.
Proof.
  intros Hinv Hx. pose proof (minv_held_live Hinv x Hx) as HxL. destruct (decide (x = m_root (w_base u))) as [|Hr]; [by left|right].
  destruct (ck_node _ _ _ _ _ _ _ _ (mi_ck _ _ _ _ Hinv) x HxL Hr) as (o & E & Ho & _). unfold has_ckpt. rewrite E.
  destruct o; [done|]. specialize (Ho eq_refl). by apply held_zero in Ho.
Qed.

(** What a change of holders leaves alone. *)
Record m_same s L s' : Prop := MSame {
  sa_keeps : m_keeps s L s';
  sa_ckpts y : ckpt_of s' y = ckpt_of s y;
  sa_content w v : m_content s' L w v <-> m_content s L w v;
  sa_alloc : m_alloc s' = m_alloc s;
  sa_pool : m_pool s' = m_pool s;
  sa_occ i : m_occ s' L i = m_occ s L i;
  sa_ckocc i : m_ckocc s' L i = m_ckocc s L i
}.

Lemma ck_occ_of s i x : ck_occ i (mckpt <$> m_nodes s) x = match ckpt_of s x with Some mv => occ i mv | None => 0 end.
Proof. unfold ck_occ, ckpt_of. rewrite lookup_fmap. by destruct (m_nodes s !! x) as [n|]. Qed.

Lemma hold_keeps s lf lm L Hs d a l x s1 :
  consistent s lf lm L Hs -> rep s1 (hold_path d l a (hold_ckpt d (view_of s lf lm) x)) -> NoDup l ->
  m_same s L s1 /\
  full_evictable_size s1 + full_protected_size s1 = full_evictable_size s + full_protected_size s /\
  mamba_evictable_size s1 + mamba_protected_size s1 = mamba_evictable_size s + mamba_protected_size s.
Proof.
  intros Hcs Hrep1 Hnd. pose proof (consistent_rep _ _ _ _ _ Hcs) as Hrep. set (u := view_of s lf lm) in *.
  destruct (hold_ckpt_view d u x) as (E1 & _ & _ & E4 & E5 & _ & b & E7).
  pose proof (rep_base _ _ Hrep1) as Hb. unfold hold_path in Hb. cbn [w_upd w_nodes w_base] in Hb. rewrite E7 in Hb.
  pose proof (rep_cores _ _ Hrep1) as Hc. unfold hold_path in Hc. cbn [w_upd w_nodes w_cores] in Hc. rewrite E1 in Hc.
  assert (forall B (f : MambaRadixCache A P -> B), f (base s1) = f (mu_full a (- a) (mu_mamba b (- b) (base s)))) as Hf
    by (intros B f; by rewrite <-Hb).
  assert (m_params s1 = m_params s) as Ep by exact (Hf _ m_params). assert (m_root s1 = m_root s) as Er by exact (Hf _ m_root).
  assert (forall y, ckpt_of s1 y = ckpt_of s y) as Hck.
  { intros y. rewrite (ckpt_of_fst s1 _ y Hrep1), (ckpt_of_fst s u y Hrep). apply hold_ckpt_fst. }
  split_and!.
  - split; [|done| |exact (Hf _ m_alloc)|exact (Hf _ m_pool)| |].
    + split_and!; [done|done|exact (Hf _ enable_mamba_extra_buffer)|]. intros y w v _ [l' Hl']. exists l'. unfold m_path. rewrite Ep, Er, <-Hc. by apply relock_up.
    + intros w v. unfold m_content at 1. rewrite Ep, Er, <-Hc. apply relock_stored; [done|].
      exact (minv_shape (cs_inv _ _ _ _ _ Hcs)).
    + intros i. unfold m_occ at 1. rewrite <-Hc. apply set_sum_ext. intros y _. apply relock_occ.
    + intros i. apply set_sum_ext. intros y _. by rewrite !ck_occ_of, Hck.
  - pose proof (Hf _ full_evictable_size_) as F1. pose proof (Hf _ full_protected_size_) as F2. cbn in F1, F2.
    unfold full_evictable_size, full_protected_size. lia.
  - pose proof (Hf _ mamba_evictable_size_) as F1. pose proof (Hf _ mamba_protected_size_) as F2. cbn in F1, F2.
    unfold mamba_evictable_size, mamba_protected_size. lia.
Qed.

Lemma m_inc_lock_run s lf lm L Hs x :
  consistent s lf lm L Hs -> disable (m_params s) = false -> x ∈ L -> x = m_root s \/ ckpt_of s x ≠ None ->
  exists l w v s1, m_path s x l w v /\ m_inc_lock_ref x s = (Ok tt, s1) /\ rep s1 (acquired (view_of s lf lm) x l) /\
    consistent s1 lf lm L (x :: Hs).
Proof.
  intros Hcs Hdis Hx Hkind. pose proof (consistent_rep _ _ _ _ _ Hcs) as Hrep. pose proof (cs_inv _ _ _ _ _ Hcs) as Hinv.
  set (u := view_of s lf lm) in *. destruct (sh_up _ _ _ _ (minv_shape Hinv) x Hx) as (l & w & v & Hu).
  assert (minv ∅ (acquired u x l) L (x :: Hs)) as Hinv1.
  { apply (minv_hold ∅ u L Hs (x :: Hs) x l w v 1 _ Hinv Hx); [|done|by left].
    destruct Hkind as [->|Hk]; [by left|right]. by apply has_ckpt_of. }
  destruct (sim_inc_lock ∅ u L Hs x l w v Hinv Hdis Hx Hu s Hrep) as (s1 & Hr1 & Hrep1).
  exists l, w, v, s1. split_and!; [exact Hu|done|done|].
  destruct (hold_ckpt_view 1 u x) as (_ & Efull & Emamba & _).
  pose proof (rep_consistent s1 _ L _ Hrep1 Hinv1) as Hcs1.
  change (w_full (acquired u x l)) with (w_full (hold_ckpt 1 u x)) in Hcs1.
  change (w_mamba (acquired u x l)) with (w_mamba (hold_ckpt 1 u x)) in Hcs1. by rewrite Efull, Emamba in Hcs1.
Qed.

Lemma m_dec_lock_run s lf lm L Hs Hs' x :
  consistent s lf lm L Hs -> disable (m_params s) = false -> Hs ≡ₚ x :: Hs' ->
  exists l w v s1, m_path s x l w v /\ m_dec_lock_ref x s = (Ok tt, s1) /\ rep s1 (released (view_of s lf lm) x l) /\
    consistent s1 lf lm L Hs'.
Proof.
  intros Hcs Hdis Hperm. pose proof (consistent_rep _ _ _ _ _ Hcs) as Hrep. pose proof (cs_inv _ _ _ _ _ Hcs) as Hinv.
  set (u := view_of s lf lm) in *. assert (x ∈ Hs) as HxH by (rewrite Hperm; left). pose proof (minv_held_live Hinv x HxH) as Hx.
  destruct (sh_up _ _ _ _ (minv_shape Hinv) x Hx) as (l & w & v & Hu).
  destruct (sim_dec_lock ∅ u L Hs' Hs x l w v Hinv Hdis Hperm Hu s Hrep) as (s1 & Hr1 & Hrep1).
  assert (minv ∅ (released u x l) L Hs') as Hinv1.
  { apply (minv_hold ∅ u L Hs Hs' x l w v (-1) _ Hinv Hx); [|done|by right]. by apply (held_ckpt ∅ u L Hs). }
  exists l, w, v, s1. split_and!; [exact Hu|done|done|].
  destruct (hold_ckpt_view (-1) u x) as (_ & Efull & Emamba & _).
  pose proof (rep_consistent s1 _ L _ Hrep1 Hinv1) as Hcs1.
  change (w_full (released u x l)) with (w_full (hold_ckpt (-1) u x)) in Hcs1.
  change (w_mamba (released u x l)) with (w_mamba (hold_ckpt (-1) u x)) in Hcs1. by rewrite Efull, Emamba in Hcs1.
Qed.

(** The same without views. *)
Lemma m_acquire_run s lf lm L Hs x :
  consistent s lf lm L Hs -> disable (m_params s) = false -> x ∈ L -> x = m_root s \/ ckpt_of s x ≠ None ->
  exists s1, m_inc_lock_ref x s = (Ok tt, s1) /\ consistent s1 lf lm L (x :: Hs) /\ m_same s L s1.
Proof.
  intros Hcs Hdis Hx Hk. destruct (m_inc_lock_run s lf lm L Hs x Hcs Hdis Hx Hk) as (l & w & v & s1 & Hu & Hr & Hrep & Hcs1).
  exists s1. split_and!; [done|done|].
  by destruct (hold_keeps s lf lm L Hs 1 _ l x s1 Hcs Hrep (up_NoDup _ _ _ _ _ _ _ Hu)).
Qed.

Lemma m_release_run s lf lm L Hs Hs' x :
  consistent s lf lm L Hs -> disable (m_params s) = false -> Hs ≡ₚ x :: Hs' ->
  exists s1, m_dec_lock_ref x s = (Ok tt, s1) /\ consistent s1 lf lm L Hs' /\ m_same s L s1.
Proof.
  intros Hcs Hdis Hp. destruct (m_dec_lock_run s lf lm L Hs Hs' x Hcs Hdis Hp) as (l & w & v & s1 & Hu & Hr & Hrep & Hcs1).
  exists s1. split_and!; [done|done|].
  by destruct (hold_keeps s lf lm L Hs (-1) _ l x s1 Hcs Hrep (up_NoDup _ _ _ _ _ _ _ Hu)).
Qed.

(** C38: acquiring a node with a checkpoint (or the root) never raises
    and makes the caller one more holder of the whole prefix and of the
    checkpoint; the content and the checkpoints do not change, and what
    becomes protected is what is no longer evictable.  A release right after
    it restores the tree, the sizes and the locks.  Releasing a held node,
    whenever that is, never raises and removes that holder. *)
Theorem m_lock_ref_spec s lf lm L Hs x :
  consistent s lf lm L Hs -> disable (m_params s) = false ->
  (x ∈ L -> x = m_root s \/ ckpt_of s x ≠ None ->
    exists s1 s2, m_inc_lock_ref x s = (Ok tt, s1) /\ consistent s1 lf lm L (x :: Hs) /\ m_keeps s L s1 /\
      (forall y, ckpt_of s1 y = ckpt_of s y) /\
      full_evictable_size s1 + full_protected_size s1 = full_evictable_size s + full_protected_size s /\
      mamba_evictable_size s1 + mamba_protected_size s1 = mamba_evictable_size s + mamba_protected_size s /\
      m_dec_lock_ref x s1 = (Ok tt, s2) /\ consistent s2 lf lm L Hs /\ view_of s2 lf lm = view_of s lf lm) /\
  (forall Hs', Hs ≡ₚ x :: Hs' ->
    exists s1, m_dec_lock_ref x s = (Ok tt, s1) /\ consistent s1 lf lm L Hs' /\ m_keeps s L s1 /\
      (forall y, ckpt_of s1 y = ckpt_of s y)).
Proof.
  intros Hcs Hdis. split.
  - intros Hx Hkind. destruct (m_inc_lock_run s lf lm L Hs x Hcs Hdis Hx Hkind) as (l & w & v & s1 & Hu & Hr1 & Hrep1 & Hcs1).
    pose proof (up_NoDup _ _ _ _ _ _ _ Hu) as Hnd.
    destruct (hold_keeps s lf lm L Hs 1 _ l x s1 Hcs Hrep1 Hnd) as ([K1 K2 _ _ _ _ _] & K3 & K4). pose proof K1 as (Ep & Er & _).
    destruct (acquired_frame (u := view_of s lf lm) (x := x) (l := l)) as ((Ep' & Er' & _) & _).
    destruct (m_dec_lock_run s1 lf lm L (x :: Hs) Hs x Hcs1) as (l' & w' & v' & s2 & Hu' & Hr2 & Hrep2 & Hcs2); [by rewrite Ep|done|].
    assert (view_of s1 lf lm = acquired (view_of s lf lm) x l) as Ev.
    { rewrite (rep_view s1 _ Hrep1). destruct (hold_ckpt_view 1 (view_of s lf lm) x) as (_ & Efull & Emamba & _).
      unfold view_of at 2 3. f_equal; [exact (eq_sym Efull)|exact (eq_sym Emamba)]. }
    assert (l' = l) as ->.
    { unfold m_path in Hu'. rewrite Ep, Er, <-(rep_cores _ _ Hrep1), acquired_cores in Hu'.
      by destruct (up_fun _ _ _ _ _ _ _ _ _ _ Hu' (relock_up _ _ 1 l _ _ _ _ _ Hnd Hu)) as (-> & _). }
    rewrite Ev, (acquired_released (view_of s lf lm) L Hs x l w v (cs_inv _ _ _ _ _ Hcs) Hx Hu) in Hrep2.
    exists s1, s2. split_and!; try done. symmetry. exact (rep_view s2 _ Hrep2).
  - intros Hs' Hperm. destruct (m_dec_lock_run s lf lm L Hs Hs' x Hcs Hdis Hperm) as (l & w & v & s1 & Hu & Hr1 & Hrep1 & Hcs1).
    destruct (hold_keeps s lf lm L Hs (-1) _ l x s1 Hcs Hrep1 (up_NoDup _ _ _ _ _ _ _ Hu)) as ([K1 K2 _ _ _ _ _] & _).
    exists s1. by split_and!.
Qed.
End laws.
