(* ===== verification/MambaTotal.v ===== *)
(** * The prefix cache of hybrid models: construction, sizes, lists

    [reset] and the constructor produce a consistent empty cache, the
    traversal [total_size] agrees with the four incrementally maintained
    counters, and the operations of [LRUList] implement a list of nodes. *)

From S2P Require Import Prelude PyDict RadixKey KvEvents RadixTree RadixOps RadixInv RadixMoves.
From S2P Require Import RadixState RadixLocks RadixRun RadixEvents RadixInsert RadixSpec RadixEvict RadixLockOps.
From S2P Require Import RadixTotal RadixSlots MambaTree MambaOps LruFacts MambaView MambaRules MambaInv MambaRun.
From S2P Require Import MambaHold MambaShrink MambaEvict MambaInsert MambaMatch MambaSpec.

Section construct.
Context {A P : Type} `{KvFree A} `{MambaSlots P} `{Sha256}.
Implicit Types (s : MambaRadixCache A P) (L : gset nat).
Abbreviation psz s := (page_size (m_params s)).

(** *** The empty cache *)

(** The nodes after [reset]: a root and the sentinels of two empty lists. *)
Definition reset_nodes (c : nat) (t : Z) (N : gmap nat MambaNode) : gmap nat MambaNode :=
  alter (set_prv true (Some (S (S (S c))))) (S (S (S (S c))))
    (alter (set_nxt true (Some (S (S (S (S c)))))) (S (S (S c)))
    (<[S (S (S (S c))) := MambaNode_init (t + 100000 + 100000 + 100000 + 100000)]>
    (<[S (S (S c)) := MambaNode_init (t + 100000 + 100000 + 100000)]>
    (alter (set_prv false (Some (S c))) (S (S c))
    (alter (set_nxt false (Some (S (S c)))) (S c)
    (<[S (S c) := MambaNode_init (t + 100000 + 100000)]>
    (<[S c := MambaNode_init (t + 100000)]>
    (alter (fun n => n_set_hash (Some []) (n_set_locks 1 1 (n_set_place (n_parent n) (MkKey [] None false) (Some []) n))) c
    (<[c := MambaNode_init t]> N))))))))).

Definition reset_state (q : list kv_event) s : MambaRadixCache A P :=
  let c := m_counter s in let t := access_counter s in
  MkMCache (m_params s) (enable_mamba_extra_buffer s) (reset_nodes c t (m_nodes s)) (S (S (S (S (S c)))))
    (t + 100000 + 100000 + 100000 + 100000 + 100000) c 0 0 0 0
    (MkLRU (S c) (S (S c)) ∅) (MkLRU (S (S (S c))) (S (S (S (S c)))) ∅) 0 0 q (m_alloc s) (m_pool s).

Lemma m_reset_run s : exists q, m_reset s = (Ok tt, reset_state q s).
Proof.
  destruct s as [prm ex N c t r e1 e2 e3 e4 lf lm h m q a p]. unfold m_reset, LRUList_init, new_MambaNode.
  destruct (enable_kv_cache_events prm) eqn:Hev.
  - exists (q ++ [AllBlocksCleared]). unfold record_all_cleared_event, emit. run_unfold. cbn. rewrite Hev. reflexivity.
  - exists q. unfold record_all_cleared_event. run_unfold. cbn. rewrite Hev. reflexivity.
Qed.

Lemma reset_nodes_at c t N :
  (exists n, reset_nodes c t N !! c = Some n /\ mcore n = root_core /\ mckpt n = (None, 1)) /\
  (forall b : bool, let h := if b then S (S (S c)) else S c in exists n n', reset_nodes c t N !! h = Some n /\
    reset_nodes c t N !! S h = Some n' /\ mcore n = blank_core /\ mcore n' = blank_core /\ mckpt n = (None, 0) /\
    mckpt n' = (None, 0) /\ get_nxt b n = Some (S h) /\ get_prv b n' = Some h) /\
  (forall y, y ≠ c -> y ≠ S c -> y ≠ S (S c) -> y ≠ S (S (S c)) -> y ≠ S (S (S (S c))) -> reset_nodes c t N !! y = N !! y).
Proof.
  unfold reset_nodes. split_and!.
  - eexists. split; [|split].
    + repeat first [rewrite lookup_alter_ne by lia|rewrite lookup_insert_ne by lia].
      rewrite lookup_alter_eq, lookup_insert_eq. reflexivity.
    + reflexivity.
    + reflexivity.
  - intros []; cbv zeta; eexists _, _; (split; [|split]).
    1,2,4,5: repeat first [rewrite lookup_alter_ne by lia|rewrite lookup_insert_ne by lia|rewrite lookup_alter_eq|rewrite lookup_insert_eq]; reflexivity.
    all: by split_and!.
  - intros y H1' H2' H3' H4' H5'.
    by repeat first [rewrite lookup_alter_ne by lia|rewrite lookup_insert_ne by lia].
Qed.

Lemma reset_consistent q s :
  (0 < psz s)%nat -> (forall x, is_Some (m_nodes s !! x) -> (x < m_counter s)%nat) ->
  consistent (reset_state q s) [] [] {[m_counter s]} [].
Proof.
  intros Hps Hfresh. set (c := m_counter s).
  destruct (reset_nodes_at c (access_counter s) (m_nodes s)) as ((rn & Hrn & Hrc & Hrk) & Hends & Hother).
  fold c in Hfresh.
  assert (forall b, lru_ok b (reset_state q s) []) as Hlru.
  { intros b. destruct (Hends b) as (n & n' & Hn & Hn' & _ & _ & _ & _ & Hx & Hp). unfold lru_ok. split; [by destruct b|].
    replace (lru_head (lru b (reset_state q s))) with (if b then S (S (S c)) else S c) by (by destruct b).
    replace (lru_tail (lru b (reset_state q s))) with (S (if b then S (S (S c)) else S c)) by (by destruct b).
    split; [apply NoDup_cons; split; [simpl; rewrite list_elem_of_singleton; lia|apply NoDup_singleton]|].
    split; [exact (eq_trans (hlinks_nxt b _ _ n Hn) Hx)|exact (eq_trans (hlinks_prv b _ _ n' Hn') Hp)]. }
  assert (exists N', m_nodes (reset_state q s) = N' /\ N' = reset_nodes c (access_counter s) (m_nodes s)) as (N' & EN & EN') by eauto.
  rewrite <-EN' in Hrn, Hother. assert (forall b : bool, _) as Hends' by exact Hends. rewrite <-EN' in Hends'. clear Hends EN'.
  split; [exact (Hlru false)|exact (Hlru true)|]. split.
  - exists ∅. cbn [view_of w_cores]. rewrite EN. apply inv_empty; [exact Hps| |].
    + rewrite lookup_fmap. change (m_root (w_base _)) with c. rewrite Hrn. cbn. by rewrite Hrc.
    + intros x Hx. rewrite lookup_fmap, fmap_is_Some in Hx. change (m_counter (w_base _)) with (S (S (S (S (S c))))).
      destruct (decide (x < S (S (S (S (S c)))))%nat) as [|Hge]; [done|exfalso].
      rewrite Hother in Hx by lia. apply Hfresh in Hx. lia.
  - split; cbn [view_of w_ckpts w_base base w_full w_mamba]; rewrite ?EN;
      change (m_root (reset_state q s)) with c; change (mamba_evictable_size_ (reset_state q s)) with 0;
      change (mamba_protected_size_ (reset_state q s)) with 0.
    + rewrite lookup_fmap. change (m_root _) with c. rewrite Hrn. cbn. by rewrite Hrk.
    + intros x Hx Hne. change (m_root _) with c in Hne. set_solver.
    + change (m_root _) with c. by rewrite difference_diag_L.
    + change (m_root _) with c. by rewrite difference_diag_L.
    + constructor.
    + intros x. change (m_root _) with c. set_solver.
    + constructor.
    + intros x. change (m_root _) with c. set_solver.
  - intros x. cbn [view_of w_ckpts w_cores]. by rewrite !lookup_fmap, !fmap_is_Some.
  - intros b x Hx. destruct (Hends' b) as (n & n' & Hn & Hn' & Ec & Ec' & Ek & Ek' & _).
    cbn [view_of w_cores w_ckpts]. rewrite !lookup_fmap, EN.
    assert (x = (if b then S (S (S c)) else S c) \/ x = S (if b then S (S (S c)) else S c)) as [->| ->]
      by (destruct Hx as [->| ->]; destruct b; auto).
    + split; [rewrite elem_of_singleton; destruct b; lia|]. rewrite Hn. exists blank_core. cbn. by rewrite Ec, Ek.
    + split; [rewrite elem_of_singleton; destruct b; lia|]. rewrite Hn'. exists blank_core. cbn. by rewrite Ec', Ek'.
  - intros x m Hx Hr. change (m_root _) with c in Hr. set_solver.
Qed.

(** the constructor, with the page size it requires of the variant
    without extra buffer, and [reset], on a cache in any consistent state, give
    a consistent empty cache: only the root is live, both lists are empty,
    all sizes and counters are 0 and nothing but the empty prefix is cached.
    Another page size without extra buffer is refused. *)
Theorem m_reset_spec s :
  (forall prm extra, (0 < page_size prm)%nat -> (forall x, is_Some (m_nodes s !! x) -> (x < m_counter s)%nat) ->
    exists s', MambaRadixCache_init prm extra s =
      (if extra || bool_decide (page_size prm = 1%nat) then Ok tt
       else Raise (Exn AssertionError "Page size must be 1 for MambaRadixCache v1"), s') /\
    (extra || bool_decide (page_size prm = 1%nat) = true -> consistent s' [] [] {[m_root s']} [] /\ m_params s' = prm)) /\
  (forall lf lm L Hs, consistent s lf lm L Hs ->
    exists s', m_reset s = (Ok tt, s') /\ consistent s' [] [] {[m_root s']} [] /\ m_params s' = m_params s /\
      m_sizes s' = (0, 0, 0, 0) /\ hit_tokens s' = 0 /\ miss_tokens s' = 0 /\ m_alloc s' = m_alloc s /\ m_pool s' = m_pool s /\
      forall w v, m_content s' {[m_root s']} w v <-> w = [] /\ v = []).
Proof.
  split.
  - intros prm extra Hps Hfresh. unfold MambaRadixCache_init. erewrite bind_ok by reflexivity. cbv beta. unfold massert.
    set (s0 := MkMCache prm extra _ _ _ _ _ _ _ _ _ _ _ _ _ _ _).
    destruct (extra || bool_decide (page_size prm = 1%nat)).
    + erewrite bind_ok by reflexivity. destruct (m_reset_run s0) as [q Hr]. rewrite Hr. exists (reset_state q s0).
      split; [done|]. intros _. split; [|done]. by apply reset_consistent.
    + exists s0. split; [by erewrite bind_raise by reflexivity|done].
  - intros lf lm L Hs Hcs. destruct (m_reset_run s) as [q Hr]. exists (reset_state q s). pose proof (cs_inv _ _ _ _ _ Hcs) as Hinv.
    destruct (mi_tree _ _ _ _ Hinv) as [E HE]. split_and!; try done.
    + apply reset_consistent; [exact (minv_ps Hinv)|]. intros x Hx. apply (i_fresh _ _ _ _ _ _ _ _ _ HE).
      cbn [view_of w_cores]. by rewrite lookup_fmap, fmap_is_Some.
    + intros w v. split.
      * intros (x & l & w' & v' & Hx & Hu & Hw & ->). apply elem_of_singleton in Hx as ->.
        apply up_root_inv in Hu as (-> & -> & ->). apply prefix_nil_inv in Hw as ->. by rewrite take_nil.
      * intros [-> ->]. exists (m_root (reset_state q s)), [], [], []. split_and!; [set_solver|constructor|done|done].
Qed.
End construct.

(** *** The traversal *)

Section traversal.
Context {A P : Type}.
Implicit Types (s : MambaRadixCache A P) (L : gset nat) (x : nat).
Abbreviation psz s := (page_size (m_params s)).

(** The lengths of a node's values. *)
Definition kv_len s x : Z := match m_nodes s !! x with Some n => len (default [] (n_value n)) | None => 0 end.
Definition ck_len s x : Z := match m_nodes s !! x with Some n => len (default [] (mamba_value n)) | None => 0 end.

Lemma m_total_size_loop_run s lf lm L Hs fuel V stack :
  consistent s lf lm L Hs -> traversed (m_root s) (mcore <$> m_nodes s) L V stack -> (size L - size V < fuel)%nat ->
  m_total_size_loop fuel stack (set_sum (kv_len s) V) (set_sum (ck_len s) V) s =
    (Ok (set_sum (kv_len s) L, set_sum (ck_len s) L), s).
Proof.
  intros Hcs. pose proof (cs_inv _ _ _ _ _ Hcs) as Hinv. pose proof (minv_shape Hinv) as Hsh.
  revert V stack. induction fuel as [|fuel IH]; [lia|]. intros V stack Htr Hfuel.
  destruct stack as [|x stack]; cbn [m_total_size_loop].
  { by rewrite (traversed_all Hsh V Htr). }
  assert (x ∈ L) as Hx by (apply (tr_live _ _ Htr); left).
  assert (x ∉ V) as HxV by (intros HxV; destruct (tr_visited _ _ Htr x HxV); set_solver).
  destruct (shape_lookup _ _ _ _ x Hsh Hx) as [m Hm].
  destruct (rep_lookup s _ x m (consistent_rep _ _ _ _ _ Hcs) Hm) as (n & Hn & ->).
  assert (exists v, n_value n = Some v) as [v Hv].
  { destruct (decide (x = m_root s)) as [->|Hne].
    - destruct (sh_root _ _ _ _ Hsh) as (rc & Hrc & _ & _ & Hrv). cbn [view_of w_cores w_base base m_root] in *.
      rewrite Hm in Hrc. injection Hrc as <-. eauto.
    - by destruct (shape_node_ok _ _ _ _ _ _ Hsh Hx Hne Hm) as (_ & _ & ?). }
  rewrite (bind_ok _ _ _ _ _ (mnode_at_eq s x n Hn)). cbv beta.
  rewrite (bind_ok _ _ s s v) by (unfold tensor; by rewrite Hv). cbv beta. erewrite bind_ok by reflexivity. cbv beta.
  destruct (walk_live_children Hsh (m_child_live s) x (mcore n)) as [El _]; [|done|exact Hm|].
  { intros y k Hk [vy Hvy]. destruct (rep_lookup s _ y k (consistent_rep _ _ _ _ _ Hcs) Hk) as (ny & Hny & ->).
    unfold m_child_live, n_evicted. rewrite Hny. simpl in Hvy. by rewrite Hvy. }
  simpl co_children in El. rewrite El.
  replace (set_sum (kv_len s) V + len v) with (set_sum (kv_len s) (V ∪ {[x]})); cycle 1.
  { rewrite set_sum_add by done. unfold kv_len at 1. rewrite Hn, Hv. simpl. lia. }
  replace (set_sum (ck_len s) V + len (default [] (mamba_value n))) with (set_sum (ck_len s) (V ∪ {[x]})); cycle 1.
  { rewrite set_sum_add by done. unfold ck_len at 1. rewrite Hn. lia. }
  pose proof (traversed_size Hsh _ _ _ Htr). apply IH; [exact (traversed_step Hsh _ _ _ _ Htr Hm)|lia].
Qed.

Lemma kv_len_sizes s lf lm L Hs :
  consistent s lf lm L Hs -> set_sum (kv_len s) L = full_evictable_size s + full_protected_size s.
Proof.
  intros Hcs. pose proof (cs_inv _ _ _ _ _ Hcs) as Hinv. pose proof (minv_shape Hinv) as Hsh.
  destruct (mi_tree _ _ _ _ Hinv) as [E HE].
  cbn [view_of w_cores w_base base full_evictable_size_ full_protected_size_ m_root m_params m_counter] in *.
  unfold full_evictable_size, full_protected_size.
  rewrite (i_ev _ _ _ _ _ _ _ _ _ HE), (i_prot _ _ _ _ _ _ _ _ _ HE).
  rewrite (set_sum_remove _ (m_root s)) by apply (sh_root_in _ _ _ _ Hsh).
  destruct (sh_root _ _ _ _ Hsh) as (rc & Hrc & _ & _ & Hrv). cbn [m_root] in Hrc. rewrite lookup_fmap in Hrc.
  assert (kv_len s (m_root s) = 0) as ->.
  { unfold kv_len. destruct (m_nodes s !! m_root s); [|done]. injection Hrc as <-. simpl in Hrv. by rewrite Hrv. }
  rewrite <-set_sum_plus, Z.add_0_l. apply set_sum_ext. intros x [Hx Hxr]%elem_of_difference.
  assert (x ≠ m_root s) as Hne by set_solver. destruct (shape_lookup _ _ _ _ x Hsh Hx) as [m Hm].
  destruct (shape_node_ok _ _ _ _ _ _ Hsh Hx Hne Hm) as (_ & Hlen & v & Hv). rewrite lookup_fmap in Hm.
  unfold kv_len, size_if, unlocked, is_locked, co_len. rewrite lookup_fmap.
  destruct (m_nodes s !! x) as [n|]; [|done]. injection Hm as <-. cbn [fmap option_fmap option_map].
  unfold co_val in Hlen. simpl in Hv, Hlen. rewrite Hv in *. simpl in *. unfold len. rewrite Hlen.
  repeat case_bool_decide; try done; lia.
Qed.

Lemma ck_len_sizes s lf lm L Hs :
  consistent s lf lm L Hs -> set_sum (ck_len s) L = mamba_evictable_size s + mamba_protected_size s.
Proof.
  intros Hcs. pose proof (cs_inv _ _ _ _ _ Hcs) as Hinv. pose proof (minv_shape Hinv) as Hsh.
  pose proof (mi_ck _ _ _ _ Hinv) as Hck. pose proof (ck_ev _ _ _ _ _ _ _ _ Hck) as E1. pose proof (ck_prot _ _ _ _ _ _ _ _ Hck) as E2.
  cbn [view_of w_ckpts w_base base mamba_evictable_size_ mamba_protected_size_ m_root] in *.
  unfold mamba_evictable_size, mamba_protected_size. rewrite E1, E2.
  rewrite (set_sum_remove _ (m_root s)) by apply (sh_root_in _ _ _ _ Hsh).
  pose proof (ck_root _ _ _ _ _ _ _ _ Hck) as Hr. rewrite lookup_fmap in Hr.
  assert (ck_len s (m_root s) = 0) as ->.
  { unfold ck_len. destruct (m_nodes s !! m_root s) as [n|]; [|done]. injection Hr as -> _. done. }
  rewrite <-set_sum_plus, Z.add_0_l. apply set_sum_ext. intros x Hx.
  unfold ck_len, ck_size, unlocked, is_locked. rewrite lookup_fmap. destruct (m_nodes s !! x) as [n|]; [|done]. simpl.
  unfold mckpt. destruct (mamba_value n); simpl; [|done]. repeat case_bool_decide; try done; lia.
Qed.

(** on a consistent cache [total_size] visits every live node exactly once
    and returns, without error and without changing the cache, the sums of
    the evictable and the protected sizes, of tokens and of checkpoints: the
    four counters, maintained incrementally by insertion, locking and
    eviction, never drift from the tree; none is ever negative. *)
Theorem m_total_size_spec s lf lm L Hs :
  consistent s lf lm L Hs ->
  m_total_size s = (Ok (full_evictable_size s + full_protected_size s, mamba_evictable_size s + mamba_protected_size s), s) /\
  0 <= full_evictable_size s /\ 0 <= full_protected_size s /\ 0 <= mamba_evictable_size s /\ 0 <= mamba_protected_size s.
Proof.
  intros Hcs. split; [|by eapply consistent_sizes]. pose proof (minv_shape (cs_inv _ _ _ _ _ Hcs)) as Hsh.
  pose proof (live_dom _ _ _ _ (cs_inv _ _ _ _ _ Hcs)) as Hsz. cbn [view_of w_cores] in Hsz. rewrite map_size_fmap in Hsz.
  unfold m_total_size. erewrite bind_ok by reflexivity. cbv beta. erewrite bind_ok by reflexivity. cbv beta.
  rewrite <-(kv_len_sizes s lf lm L Hs Hcs), <-(ck_len_sizes s lf lm L Hs Hcs).
  rewrite <-(m_total_size_loop_run s lf lm L Hs (S (size (m_nodes s))) ∅ [m_root s]);
    [by rewrite !set_sum_empty|done|exact (traversed_start Hsh)|rewrite size_empty; lia].
Qed.

(** *** The lists *)

(** The nodes that the list of flag [b] can hold. *)
Definition listed (b : bool) s x : bool :=
  match m_nodes s !! x with Some n => not_tombstone b n | None => false end.

(** The other parts of a state that an operation on one list leaves alone. *)
Definition same_but_list (b : bool) s s' (lf lm l' : list nat) : Prop :=
  lru_ok b s' l' /\ lru_ok (negb b) s' (if b then lf else lm) /\ base s' = base s /\
  mcore <$> m_nodes s' = mcore <$> m_nodes s /\ mckpt <$> m_nodes s' = mckpt <$> m_nodes s.

Lemma relist_same b s s' lf lm l' :
  rep s' (w_relist b l' (view_of s lf lm)) -> same_but_list b s s' lf lm l'.
Proof.
  intros Hrep. pose proof (rep_list _ _ Hrep) as Hl. split_and!.
  - specialize (Hl b). by destruct b.
  - specialize (Hl (negb b)). by destruct b.
  - symmetry. exact (rep_base _ _ Hrep).
  - symmetry. exact (rep_cores _ _ Hrep).
  - symmetry. exact (rep_ckpts _ _ Hrep).
Qed.

(** C28: the operations of [LRUList], on links in the nodes, implement those of
    a list of nodes, most recently used first: insertion in front, removal,
    moving to the front, and moving the nodes of a path to the front, those
    without a checkpoint skipped in the Mamba list.  They change neither the
    other list nor anything else of the nodes. *)
Theorem lru_list_refines (b : bool) s lf lm x :
  lru_ok false s lf -> lru_ok true s lm -> listed b s x = true ->
  let l := if b then lm else lf in
  (x ∉ l -> x ≠ lru_head (lru b s) -> x ≠ lru_tail (lru b s) ->
    exists s', insert_mru b x s = (Ok tt, s') /\ same_but_list b s s' lf lm (x :: l)) /\
  (x ∈ l -> exists s', remove_node b x s = (Ok tt, s') /\ same_but_list b s s' lf lm (without x l)) /\
  (x ∈ l -> exists s', reset_node_mru b x s = (Ok tt, s') /\ same_but_list b s s' lf lm (x :: without x l)) /\
  (forall r path w v, up (psz s) r (mcore <$> m_nodes s) x path w v ->
    let moved := filter (fun y => listed b s y = true) path in
    (forall y, y ∈ moved -> y ∈ l) ->
    exists s', reset_node_and_parents_mru b x r s = (Ok tt, s') /\
      same_but_list b s s' lf lm (moved ++ filter (fun y => y ∉ moved) l)).
Proof.
  intros Hf Hm Hlst l. unfold listed in Hlst. destruct (m_nodes s !! x) as [n|] eqn:Hn; [|done]. assert (rep s (view_of s lf lm)) as Hrep by (split; try done; by intros []).
  set (u := view_of s lf lm) in *. assert (w_list b u = l) as El by (by destruct b).
  assert (carries b u x = true) as Hc by (by rewrite <-(rep_carries s u b x n Hrep Hn)).
  split_and!.
  - intros Hx Hh Ht. assert (w_cores u !! x = Some (mcore n)) as Hcx by (cbn [u view_of w_cores]; by rewrite lookup_fmap, Hn).
    assert (x ≠ w_head b u /\ x ≠ w_tail b u) as [Hh' Ht'] by (unfold w_head, w_tail; by destruct b).
    rewrite <-El in Hx. destruct (sim_insert_mru b x u (mcore n) Hcx Hx Hh' Ht' Hc s Hrep) as (s' & Hr & Hrep').
    rewrite El in Hrep'. exists s'. split; [done|]. by apply relist_same.
  - intros Hx. rewrite <-El in Hx. destruct (sim_remove_node b x u Hx Hc s Hrep) as (s' & Hr & Hrep').
    rewrite El in Hrep'. exists s'. split; [done|]. by apply relist_same.
  - intros Hx. rewrite <-El in Hx. destruct (sim_reset_node_mru b x u Hx Hc s Hrep) as (s' & Hr & Hrep').
    rewrite El in Hrep'. exists s'. split; [done|]. by apply relist_same.
  - intros r path w v Hu moved Hin.
    assert (forall y, y ∈ path -> carries b u y = true <-> listed b s y = true) as Hcar.
    { intros y Hy. destruct (up_nodes _ _ _ _ _ _ _ _ Hu Hy) as [k Hk]. rewrite lookup_fmap in Hk.
      destruct (m_nodes s !! y) as [m|] eqn:Em; [|done]. unfold listed. by rewrite <-(rep_carries s u b y m Hrep Em), Em. }
    assert (filter (fun y => carries b u y = true) path = moved) as Emoved by (apply filter_ext_in; exact Hcar).
    destruct (sim_reset_path b u x path w v (psz s) r Hu) with (s := s) as (s' & Hr & Hrep'); [|done|].
    { intros y Hy Hcy. rewrite El. apply Hin. rewrite <-Emoved. by apply list_elem_of_filter. }
    exists s'. split; [done|]. apply relist_same. unfold path_front in Hrep'. by rewrite El, Emoved in Hrep'.
Qed.
End traversal.
