(* ===== verification/MambaDemo.v ===== *)
(** * The prefix cache of hybrid models: a concrete cache

    [MambaPool] as the pool of checkpoints, a small cache built with the
    operations themselves, and the theorems of the previous files at that
    cache. *)

From S2P Require Import Prelude PyDict Torch RadixKey KvEvents RadixTree RadixOps RadixInv RadixMoves.
From S2P Require Import RadixState RadixLocks RadixRun RadixEvents RadixInsert RadixSpec RadixEvict RadixLockOps.
From S2P Require Import RadixTotal RadixSlots RadixDemo MambaPool MambaTree MambaOps LruFacts MambaView MambaRules.
From S2P Require Import MambaInv MambaRun MambaHold MambaShrink MambaEvict MambaInsert MambaMatch MambaSpec.
From S2P Require Import MambaLaws MambaTotal.

(** *** The pool *)

#[export] Instance mamba_pool_slots_ops {T} `{Torch T} : MambaSlots (MambaPool T) :=
  {| ms_alloc := MambaPool.alloc; ms_free := MambaPool.free; ms_copy := MambaPool.copy_from;
     ms_available := MambaPool.available_size |}.

#[export] Instance mamba_pool_slots_laws {T} `{Torch T} : MambaSlotsLaws (MambaPool T).
Proof.
  refine {| ms_slots p := free_slots p |}.
  - intros n p Hn. exists (set_free (drop n (free_slots p)) p). split; [|done]. simpl. unfold MambaPool.alloc.
    by rewrite bool_decide_eq_false_2 by lia.
  - intros n p Hn. simpl. unfold MambaPool.alloc. by rewrite bool_decide_eq_true_2.
  - intros l p. simpl. unfold MambaPool.free. case_bool_decide as Hl; [|done].
    destruct l; [by rewrite app_nil_r|unfold len in Hl; simpl in Hl; lia].
  - done.
Defined.

(** *** The cache *)

Abbreviation demo_mcache := (MambaRadixCache (list Z) (MambaPool ctensor)).

(** The three slots of the pool are in use. *)
Definition demo_pool : MambaPool ctensor := mkMPool 3 [] (CPool float32 []) [].

Definition demo_mblank : demo_mcache :=
  MkMCache demo_params false ∅ 0 0 0 0 0 0 0 (MkLRU 0 0 ∅) (MkLRU 0 0 ∅) 0 0 [] [] demo_pool.

Definition demo_mempty : demo_mcache := (m_reset demo_mblank).2.

Definition demo_minsert (l v : list Z) (i : Z) (s : demo_mcache) : demo_mcache :=
  (m_insert (plain l) (Some v) (Some [i]) 0 s).2.

(** Two prompts with a common prefix and one of their own, each with a
    checkpoint at its end. *)
Definition demo_mtree : demo_mcache :=
  demo_minsert [8; 9; 10] [31; 32; 33] 3
    (demo_minsert [1; 2; 4; 5] [21; 22; 23; 24] 2 (demo_minsert [1; 2; 3] [11; 12; 13] 1 demo_mempty)).

Lemma demo_mempty_consistent : exists lf lm L, consistent demo_mempty lf lm L [] /\ m_params demo_mempty = demo_params.
Proof.
  destruct (m_reset_run demo_mblank) as [q Hr]. unfold demo_mempty. rewrite Hr. exists [], [], {[0%nat]}.
  split; [|reflexivity]. apply (reset_consistent q demo_mblank); [simpl; lia|].
  intros x [n Hn]. simpl in Hn. by rewrite lookup_empty in Hn.
Qed.

Lemma demo_minsert_consistent l v i s lf lm L :
  Forall (fun t => 0 <= t < 2 ^ 32) l -> l ≠ [] -> length v = length l ->
  consistent s lf lm L [] -> m_params s = demo_params ->
  exists lf' lm' L', consistent (demo_minsert l v i s) lf' lm' L' [] /\ m_params (demo_minsert l v i s) = demo_params.
Proof.
  intros Hfit Hl Hv Hcs Hp.
  assert (psz_1 : page_size (m_params s) = 1%nat) by (by rewrite Hp).
  destruct (insert_sim (view_of s lf lm) L [] (plain l) v [i] 0 (cs_inv _ _ _ _ _ Hcs)) with (s := s) as
    (a & s' & u' & Hr & Hrep & n & e & vs & fs & L' & _ & _ & _ & Hins & _);
    cbn [view_of w_base base m_params m_alloc]; rewrite ?Hp; try done.
  - exists (length l). unfold key_len. simpl. lia.
  - by destruct l.
  - exact (consistent_rep _ _ _ _ _ Hcs).
  - unfold demo_minsert. rewrite Hr. simpl. exists (w_full u'), (w_mamba u'), L'. split.
    + apply rep_consistent; [done|]. exact (in_inv _ _ _ _ _ _ _ _ _ _ _ _ Hins).
    + destruct (in_rest _ _ _ _ _ _ _ _ _ _ _ _ Hins) as (Ep & _).
      transitivity (m_params (base s')); [done|]. rewrite <-(rep_base _ _ Hrep), Ep. exact Hp.
Qed.

Lemma demo_mtree_consistent : exists lf lm L, consistent demo_mtree lf lm L [] /\ m_params demo_mtree = demo_params.
Proof.
  destruct demo_mempty_consistent as (lf0 & lm0 & L0 & H0 & P0).
  destruct (demo_minsert_consistent [1; 2; 3] [11; 12; 13] 1 _ _ _ _ ltac:(repeat constructor; lia) ltac:(done) eq_refl H0 P0)
    as (lf1 & lm1 & L1 & H1 & P1).
  destruct (demo_minsert_consistent [1; 2; 4; 5] [21; 22; 23; 24] 2 _ _ _ _ ltac:(repeat constructor; lia) ltac:(done) eq_refl H1 P1)
    as (lf2 & lm2 & L2 & H2 & P2).
  exact (demo_minsert_consistent [8; 9; 10] [31; 32; 33] 3 _ _ _ _ ltac:(repeat constructor; lia) ltac:(done) eq_refl H2 P2).
Qed.

(** The node of the first prompt, and the cache while a request holds it. *)
Definition demo_mnode : nat := 5.
Definition demo_mlocked : demo_mcache := (m_inc_lock_ref demo_mnode demo_mtree).2.

Example demo_mtree_shape :
  (fun x => (n_parent x, token_ids (n_key x), n_value x, mamba_value x)) <$> m_nodes demo_mtree !! demo_mnode =
    Some (Some 6%nat, [3], Some [13], Some [1]) /\
  (ckpt_of demo_mtree <$> [6; 7; 8]%nat) = [None; Some [2]; Some [3]].
Proof. vm_compute. done. Qed.

Lemma demo_mnode_live lf lm L : consistent demo_mtree lf lm L [] -> demo_mnode ∈ L.
Proof.
  intros Hcs. pose proof (cs_inv _ _ _ _ _ Hcs) as Hinv. pose proof (cs_full _ _ _ _ _ Hcs) as [Hset _].
  assert (demo_mnode ∈ lru_cache (lru false demo_mtree)) as Hin
    by (apply (bool_decide_eq_true_1 (demo_mnode ∈ lru_cache (lru false demo_mtree))); vm_compute; reflexivity).
  rewrite Hset, elem_of_list_to_set in Hin. by apply (minv_full Hinv) in Hin as [? _].
Qed.

Lemma demo_mnode_ckpt : demo_mnode = m_root demo_mtree \/ ckpt_of demo_mtree demo_mnode ≠ None.
Proof. right. vm_compute. done. Qed.

#[local] Opaque demo_mtree.

Lemma demo_mlocked_consistent :
  exists lf lm L, consistent demo_mlocked lf lm L [demo_mnode] /\ m_params demo_mlocked = demo_params.
Proof.
  destruct demo_mtree_consistent as (lf & lm & L & Hcs & Hp).
  assert (disable (m_params demo_mtree) = false) as Hd by (rewrite Hp; reflexivity).
  destruct (m_inc_lock_run demo_mtree lf lm L [] demo_mnode Hcs Hd (demo_mnode_live lf lm L Hcs) demo_mnode_ckpt)
    as (l & w & v & s1 & Hu & Hr & Hrep & Hcs1).
  destruct (hold_keeps demo_mtree lf lm L [] 1 _ l demo_mnode s1 Hcs Hrep (up_NoDup _ _ _ _ _ _ _ Hu)) as ([(Ep & _) _ _ _ _ _ _] & _).
  unfold demo_mlocked. rewrite Hr. exists lf, lm, L. split; [exact Hcs1|]. exact (eq_trans Ep Hp).
Qed.

(** The cache counts a hit of three tokens in two nodes as two. *)
Example hit_tokens_counts_nodes :
  let r := m_match_prefix 1 (plain [1; 2; 3; 9]) None demo_mtree in
  mm_indices <$> (match r.1 with Ok m => Some m | Raise _ => None end) = Some [11; 12; 13] /\
  hit_tokens demo_mtree = 0 /\ hit_tokens r.2 = 2 /\ miss_tokens r.2 = 2.
Proof. vm_compute. done. Qed.

(** *** The theorems at this cache *)

#[local] Opaque demo_mlocked.

Lemma demo_alloc_ok (s : demo_mcache) : alloc_ok (m_alloc s).
Proof. exact I. Qed.

Lemma demo_ready : m_params demo_mtree = demo_params ->
  disable (m_params demo_mtree) = false /\ lookup_key (page_size (m_params demo_mtree)) (plain [1; 2; 3; 9]) /\
  aligned (page_size (m_params demo_mtree)) (plain [1; 2; 6]) /\
  (enable_kv_cache_events (m_params demo_mtree) = true -> tokens_fit (plain [1; 2; 6])).
Proof.
  intros ->. split_and!; [reflexivity|right; reflexivity|exists 3%nat; reflexivity|].
  intros _. repeat constructor; lia.
Qed.

(** a lookup of [1; 2; 3; 9] ends at the checkpoint of [1; 2; 3] *)
Lemma m_match_prefix_spec_witness :
  (m_match_prefix 1 (plain [1; 2; 3; 9]) None demo_mtree).1 = Ok (MkMMatch [11; 12; 13] 5 None None) /\
  exists lf lm L x n j v s' lf' lm' L', consistent demo_mtree lf lm L [] /\
    m_match_prefix 1 (plain [1; 2; 3; 9]) None demo_mtree =
      (Ok (MkMMatch v x (branching 1 (j * page_size (m_params demo_mtree)) (n * page_size (m_params demo_mtree))) None), s') /\
    looked_up demo_mtree L [] (pages (page_size (m_params demo_mtree)) (plain [1; 2; 3; 9])) x n j v s' lf' lm' L'.
Proof.
  split; [vm_compute; reflexivity|]. destruct demo_mtree_consistent as (lf & lm & L & Hcs & Hp).
  destruct (demo_ready Hp) as (Hd & Hk & _).
  destruct (m_match_prefix_spec 1 demo_mtree lf lm L [] (plain [1; 2; 3; 9]) Hcs Hd Hk ltac:(intros E; exact (Nat.neq_succ_0 _ E))) as
    (x & n & j & v & s' & lf' & lm' & L' & Hr & Hlu).
  exists lf, lm, L, x, n, j, v, s', lf', lm', L'. split; [exact Hcs|]. split; [exact Hr|exact Hlu].
Defined.

(** with copy-on-write and a full pool the checkpoint of [1; 2; 4; 5] makes room *)
Lemma m_match_prefix_cow_witness :
  (m_match_prefix 1 (plain [1; 2; 3; 9]) (Some None) demo_mtree).1 = Ok (MkMMatch [11; 12; 13] 5 None (Some (2, Some [1]))) /\
  exists lf lm L x n j v s1 lf1 lm1 L1, consistent demo_mtree lf lm L [] /\
    looked_up demo_mtree L [] (pages (page_size (m_params demo_mtree)) (plain [1; 2; 3; 9])) x n j v s1 lf1 lm1 L1.
Proof.
  split; [vm_compute; reflexivity|]. destruct demo_mtree_consistent as (lf & lm & L & Hcs & Hp).
  destruct (demo_ready Hp) as (Hd & Hk & _).
  destruct (m_match_prefix_cow 1 demo_mtree lf lm L [] (plain [1; 2; 3; 9]) Hcs (demo_alloc_ok _) Hd Hk ltac:(intros E; exact (Nat.neq_succ_0 _ E))) as
    (x & n & j & v & s1 & lf1 & lm1 & L1 & Hlu & _).
  exists lf, lm, L, x, n, j, v, s1, lf1, lm1, L1. split; [exact Hcs|exact Hlu].
Defined.

(** an insertion of [1; 2; 6] shares [1; 2] and files its own checkpoint *)
Lemma m_insert_spec_witness :
  (m_insert (plain [1; 2; 6]) (Some [51; 52; 53]) (Some [4]) 1 demo_mtree).1 = Ok (2%nat, false) /\
  exists lf lm L n e s' lf' lm' L', consistent demo_mtree lf lm L [] /\
    m_insert (plain [1; 2; 6]) (Some [51; 52; 53]) (Some [4]) 1 demo_mtree =
      (Ok ((n * page_size (m_params demo_mtree))%nat, e), s') /\ consistent s' lf' lm' L' [].
Proof.
  split; [vm_compute; reflexivity|]. destruct demo_mtree_consistent as (lf & lm & L & Hcs & Hp).
  destruct (demo_ready Hp) as (Hd & _ & Ha & Hfit).
  destruct (m_insert_spec demo_mtree lf lm L [] (plain [1; 2; 6]) [51; 52; 53] [4] 1 Hcs (demo_alloc_ok _) Hd Ha
    ltac:(intros E; exact (Nat.neq_succ_0 _ E)) eq_refl eq_refl Hfit) as (n & e & vs & fs & x & s' & lf' & lm' & L' & Hr & [Hcs' _ _ _ _ _ _ _ _ _ _ _ _ _ _]).
  exists lf, lm, L, n, e, s', lf', lm', L'. split; [exact Hcs|]. split; [exact Hr|exact Hcs'].
Defined.

(** the two least recently used checkpoints go *)
Lemma evict_mamba_spec_witness :
  (evict_mamba 2 demo_mtree).1 = Ok 2 /\
  exists lf lm L vs mvs s' L', consistent demo_mtree lf lm L [] /\
    m_evicted demo_mtree lf L [] s' (filter (fun y => y ∉ lru_ckpts demo_mtree lm 2) lm) L' vs mvs.
Proof.
  split; [vm_compute; reflexivity|]. destruct demo_mtree_consistent as (lf & lm & L & Hcs & Hp).
  destruct (demo_ready Hp) as (Hd & _).
  destruct (evict_mamba_spec demo_mtree lf lm L [] 2 Hcs (demo_alloc_ok _) Hd) as (vs & mvs & s' & L' & _ & Hev & _).
  exists lf, lm, L, vs, mvs, s', L'. split; [exact Hcs|exact Hev].
Defined.

(** an eviction of four tokens takes two leaves and the node above them, five tokens;
    while [1; 2; 3] is held, only the others can go *)
Lemma evict_full_spec_witness :
  (evict_full 4 demo_mtree).1 = Ok 5 /\ (evict_full 100 demo_mlocked).1 = Ok 5 /\
  exists lf lm L vs mvs s' lm' L', consistent demo_mlocked lf lm L [demo_mnode] /\
    evict_full 100 demo_mlocked = (Ok (sumZ len vs), s') /\
    m_evicted demo_mlocked lf L [demo_mnode] s' lm' L' vs mvs /\ full_evictable_size s' = 0.
Proof.
  split; [vm_compute; reflexivity|]. split; [vm_compute; reflexivity|].
  destruct demo_mlocked_consistent as (lf & lm & L & Hcs & Hp).
  assert (disable (m_params demo_mlocked) = false) as Hd by (rewrite Hp; reflexivity).
  destruct (evict_full_spec demo_mlocked lf lm L [demo_mnode] 100 Hcs (demo_alloc_ok _) Hd) as (vs & mvs & s' & lm' & L' & Hr & Hev & Hend & _).
  exists lf, lm, L, vs, mvs, s', lm', L'. split; [exact Hcs|]. split; [exact Hr|]. split; [exact Hev|].
  destruct Hend as [Hle|E]; [|exact E]. exfalso.
  assert (sumZ len vs = 5) as E5.
  { apply (f_equal fst) in Hr. simpl fst in Hr. assert ((evict_full 100 demo_mlocked).1 = Ok 5) as H5 by (vm_compute; reflexivity).
    rewrite H5 in Hr. injection Hr as Hr. symmetry. exact Hr. }
  rewrite E5 in Hle. exact (Hle eq_refl).
Defined.

Lemma m_evict_spec_witness :
  (m_evict 4 1 demo_mlocked).1 = Ok (5, 0) /\
  exists lf lm L f m s' lm' L' vs mvs, consistent demo_mlocked lf lm L [demo_mnode] /\
    m_evict 4 1 demo_mlocked = (Ok (f, m), s') /\ m_evicted demo_mlocked lf L [demo_mnode] s' lm' L' vs mvs /\
    demo_mnode ∈ L' /\ ckpt_of s' demo_mnode = ckpt_of demo_mlocked demo_mnode.
Proof.
  split; [vm_compute; reflexivity|]. destruct demo_mlocked_consistent as (lf & lm & L & Hcs & Hp).
  assert (disable (m_params demo_mlocked) = false) as Hd by (rewrite Hp; reflexivity).
  destruct (m_evict_spec demo_mlocked lf lm L [demo_mnode] 4 1 Hcs (demo_alloc_ok _) Hd) as (f & m & s' & lm' & L' & vs & mvs & Hr & Hev & Hh & _).
  destruct (Hh demo_mnode ltac:(left)) as (HxL & Hk & _).
  exists lf, lm, L, f, m, s', lm', L', vs, mvs. split_and!; assumption.
Defined.

Lemma m_lock_ref_spec_witness :
  (exists lf lm L s1 s2, consistent demo_mtree lf lm L [] /\ m_inc_lock_ref demo_mnode demo_mtree = (Ok tt, s1) /\
    consistent s1 lf lm L [demo_mnode] /\ m_dec_lock_ref demo_mnode s1 = (Ok tt, s2) /\
    view_of s2 lf lm = view_of demo_mtree lf lm) /\
  (exists lf lm L s', consistent demo_mlocked lf lm L [demo_mnode] /\ m_dec_lock_ref demo_mnode demo_mlocked = (Ok tt, s') /\
    consistent s' lf lm L []).
Proof.
  split.
  - destruct demo_mtree_consistent as (lf & lm & L & Hcs & Hp). destruct (demo_ready Hp) as (Hd & _).
    destruct (proj1 (m_lock_ref_spec demo_mtree lf lm L [] demo_mnode Hcs Hd) (demo_mnode_live lf lm L Hcs) demo_mnode_ckpt)
      as (s1 & s2 & Hr & Hcs1 & _ & _ & _ & _ & Hdec & _ & Hv).
    exists lf, lm, L, s1, s2. split_and!; assumption.
  - destruct demo_mlocked_consistent as (lf & lm & L & Hcs & Hp).
    assert (disable (m_params demo_mlocked) = false) as Hd by (rewrite Hp; reflexivity).
    destruct (proj2 (m_lock_ref_spec demo_mlocked lf lm L [demo_mnode] demo_mnode Hcs Hd) [] ltac:(reflexivity)) as (s' & Hr & Hcs' & _).
    exists lf, lm, L, s'. split_and!; assumption.
Defined.

Lemma m_reset_spec_witness :
  (exists s', MambaRadixCache_init demo_params false demo_mblank = (Ok tt, s') /\ consistent s' [] [] {[m_root s']} []) /\
  exists lf lm L s', consistent demo_mtree lf lm L [] /\ m_reset demo_mtree = (Ok tt, s') /\ m_sizes s' = (0, 0, 0, 0).
Proof.
  split.
  - destruct (proj1 (m_reset_spec demo_mblank) demo_params false) as (s' & Hr & Hcs); [simpl; lia| |].
    { intros x [n Hn]. simpl in Hn. rewrite lookup_empty in Hn. discriminate Hn. }
    exists s'. split; [exact Hr|]. exact (proj1 (Hcs eq_refl)).
  - destruct demo_mtree_consistent as (lf & lm & L & Hcs & Hp).
    destruct (proj2 (m_reset_spec demo_mtree) lf lm L [] Hcs) as (s' & Hr & _ & _ & Hs & _).
    exists lf, lm, L, s'. split_and!; assumption.
Defined.

Lemma m_total_size_spec_witness :
  (m_total_size demo_mtree).1 = Ok (8, 3) /\
  exists lf lm L, consistent demo_mtree lf lm L [] /\ m_total_size demo_mtree =
    (Ok (full_evictable_size demo_mtree + full_protected_size demo_mtree,
         mamba_evictable_size demo_mtree + mamba_protected_size demo_mtree), demo_mtree).
Proof.
  split; [vm_compute; reflexivity|]. destruct demo_mtree_consistent as (lf & lm & L & Hcs & Hp).
  exists lf, lm, L. split; [exact Hcs|]. exact (proj1 (m_total_size_spec demo_mtree lf lm L [] Hcs)).
Defined.

Lemma lru_list_refines_witness : exists lf lm s',
  lru_ok false demo_mtree lf /\ lru_ok true demo_mtree lm /\ reset_node_mru true demo_mnode demo_mtree = (Ok tt, s') /\
  lru_ok true s' (demo_mnode :: without demo_mnode lm) /\ lru_ok false s' lf.
Proof.
  destruct demo_mtree_consistent as (lf & lm & L & Hcs & Hp). exists lf, lm.
  pose proof (cs_full _ _ _ _ _ Hcs) as Hf. pose proof (cs_mamba _ _ _ _ _ Hcs) as Hm.
  assert (listed true demo_mtree demo_mnode = true) as Hl by (vm_compute; reflexivity).
  assert (demo_mnode ∈ lm) as Hin.
  { assert (demo_mnode ∈ lru_cache (lru true demo_mtree)) as H
      by (apply (bool_decide_eq_true_1 (demo_mnode ∈ lru_cache (lru true demo_mtree))); vm_compute; reflexivity).
    rewrite (proj1 Hm) in H. apply elem_of_list_to_set in H. exact H. }
  destruct (lru_list_refines true demo_mtree lf lm demo_mnode Hf Hm Hl) as (_ & _ & Hmove & _).
  destruct (Hmove Hin) as (s' & Hr & H1 & H2 & _). exists s'. split_and!; assumption.
Defined.
