(* ===== verification/MambaReq.v ===== *)
(** * The prefix cache of hybrid models: requests

    The entry points through which the scheduler hands a request's KV slots
    and recurrent states to the prefix cache: [cache_finished_req] and
    [cache_unfinished_req] of mem_cache/mamba_radix_cache.py,
    [release_kv_cache] of mem_cache/common.py for this cache, and
    [HybridReqToTokenPool] (mem_cache/memory_pool.py), the table of slots per
    request with the pool of recurrent states.

    The environment is that of RadixReq.v with the attributes that hybrid
    models add to the table and to the request.  [mamba_pool] is an attribute
    of the table in the source; its state is the [m_pool] of the cache, which
    shares it.

    With the extra buffer a request has, besides the slot of its running
    state, a ping-pong buffer of slots in which the forward pass leaves
    checkpoints; without it a checkpoint is a copy of the running state. *)

From S2P Require Import Prelude PyDict RadixKey KvEvents RadixTree RadixReq MambaTree MambaOps.

(** The attributes of [Req] that hybrid models use *)
Record MambaFields := MkMFields {
  mamba_pool_idx : option Z;
  mamba_ping_pong_track_buffer : option (list Z);
  mamba_next_track_idx : option Z;
  mamba_last_track_seqlen : option nat;
  mamba_cow_src_index : option (list Z);
  mamba_needs_clear : bool
}.

Definition f_set_idx i (f : MambaFields) :=
  MkMFields i (mamba_ping_pong_track_buffer f) (mamba_next_track_idx f) (mamba_last_track_seqlen f)
    (mamba_cow_src_index f) (mamba_needs_clear f).
Definition f_set_buffer b (f : MambaFields) :=
  MkMFields (mamba_pool_idx f) b (mamba_next_track_idx f) (mamba_last_track_seqlen f)
    (mamba_cow_src_index f) (mamba_needs_clear f).
Definition f_set_next n (f : MambaFields) :=
  MkMFields (mamba_pool_idx f) (mamba_ping_pong_track_buffer f) n (mamba_last_track_seqlen f)
    (mamba_cow_src_index f) (mamba_needs_clear f).
Definition f_set_track n (f : MambaFields) :=
  MkMFields (mamba_pool_idx f) (mamba_ping_pong_track_buffer f) (mamba_next_track_idx f) n
    (mamba_cow_src_index f) (mamba_needs_clear f).
Definition f_set_clear b (f : MambaFields) :=
  MkMFields (mamba_pool_idx f) (mamba_ping_pong_track_buffer f) (mamba_next_track_idx f)
    (mamba_last_track_seqlen f) (mamba_cow_src_index f) b.

(** The attributes [HybridReqToTokenPool] adds to [ReqToTokenPool]; the two
    mappings have a row per request *)
Record HybridExt := MkHExt {
  track_buffer_size : nat;
  hp_extra_buffer : bool;
  mamba_index_mapping : list Z;
  track_buffer_mapping : list (list Z)
}.

(** [__init__], for a table of [size] rows and one of padding *)
Definition HybridExt_init (size : nat) (extra overlap_schedule : bool) : HybridExt :=
  let n := if overlap_schedule then 2%nat else 1%nat in
  MkHExt n extra (replicate (S size) 0) (if extra then replicate (S size) (replicate n 0) else []).

(** [get_mamba_ping_pong_other_idx] *)
Definition get_mamba_ping_pong_other_idx (x : HybridExt) (mamba_next_track_idx : Z) : Z :=
  if decide (track_buffer_size x = 2%nat) then 1 - mamba_next_track_idx else mamba_next_track_idx.

(** [t[k]]: a negative index counts from the end *)
Definition at_index (l : list Z) (k : Z) : option nat :=
  if decide (0 <= k < len l) then Some (Z.to_nat k)
  else if decide (- len l <= k < 0) then Some (Z.to_nat (len l + k)) else None.

Record MReqEnv (A P : Type) := MkMEnv {
  h_env : ReqEnv (MambaRadixCache A P);
  h_ext : HybridExt;
  h_fields : MambaFields
}.
Arguments MkMEnv {A P}.
Arguments h_env {A P}.
Arguments h_ext {A P}.
Arguments h_fields {A P}.

(** [page_size != 1] and its branch: whole pages of [n] *)
Definition page_floor (page_size n : nat) : nat :=
  if decide (page_size = 1%nat) then n else (n / page_size * page_size)%nat.

Section req.
Context {A P : Type} `{KvFree A} `{MambaSlots P} `{Sha256} (mamba_cache_chunk_size : nat) (args : ServerArgs).
Abbreviation cache := (MambaRadixCache A P).
Abbreviation MH := (M (MReqEnv A P)).
Implicit Types e : MReqEnv A P.

Definition on_env {B} (m : M (ReqEnv cache) B) : MH B :=
  zoom h_env (fun b e => MkMEnv b (h_ext e) (h_fields e)) m.
Definition on_cache {B} (m : M cache B) : MH B := on_env (on_tree m).
Definition upd_fields (f : MambaFields -> MambaFields) : MH unit :=
  modify (fun e : MReqEnv A P => MkMEnv (h_env e) (h_ext e) (f (h_fields e))).
Definition upd_ext (f : HybridExt -> HybridExt) : MH unit :=
  modify (fun e : MReqEnv A P => MkMEnv (h_env e) (f (h_ext e)) (h_fields e)).
Definition assert_ (b : bool) (msg : string) : MH unit := if b then mret tt else raise AssertionError msg.

Definition the_req : MH Req := gets (fun e : MReqEnv A P => req (h_env e)).
Definition the_cache : MH cache := gets (fun e : MReqEnv A P => tree (h_env e)).

(** The slot [req.mamba_pool_idx], where the code takes it for granted. *)
Definition own_slot : MH Z :=
  f ← gets h_fields;
  match mamba_pool_idx f with
  | Some i => mret i
  | None => raise AttributeError "'NoneType' object has no attribute 'unsqueeze'"
  end.

(** [mamba_pool.copy_from] *)
Definition mamba_copy (src dst : list Z) : M cache unit := zoom m_pool mu_pool (ms_copy src dst).

(** The ping-pong slot with the last checkpoint: its index
    [mamba_ping_pong_track_buffer_to_keep] in the buffer and the slot *)
Definition tracked_slot : MH (Z * Z) :=
  f ← gets h_fields;
  x ← gets h_ext;
  match mamba_next_track_idx f, mamba_ping_pong_track_buffer f with
  | Some n, Some buf =>
      let k := get_mamba_ping_pong_other_idx x n in
      match at_index buf k ≫= (buf !!.) with
      | Some i => mret (k, i)
      | None => raise IndexError "index is out of bounds for dimension 0"
      end
  | _, _ => raise TypeError "'NoneType' object is not subscriptable"
  end.

(** [req_index_to_mamba_ping_pong_track_buffer_mapping[req.req_pool_idx]] *)
Definition track_row (i : nat) : MH (list Z) :=
  x ← gets h_ext;
  match track_buffer_mapping x !! i with
  | Some row => mret row
  | None => raise IndexError "index is out of bounds for dimension 0"
  end.

(** *** [HybridReqToTokenPool] *)

(** [free_mamba_cache] *)
Definition free_mamba_cache (to_keep : option Z) : MH unit :=
  f ← gets h_fields;
  match mamba_pool_idx f with
  | None => raise AssertionError "double free? mamba_index is None"
  | Some mamba_index =>
      on_cache (mamba_free [mamba_index]) ≫= fun _ =>
      upd_fields (f_set_idx None) ≫= fun _ =>
      x ← gets h_ext;
      if hp_extra_buffer x then
        i ← on_env row_index;
        buf ← track_row i;
        to_free ← match to_keep with
                  | None => mret buf
                  | Some k =>
                      assert_ (bool_decide (k = 0 \/ k = 1)) "mamba_ping_pong_track_buffer_to_keep must be 0 or 1"
                        ≫= fun _ =>
                      if decide (track_buffer_size x = 2%nat) then
                        let idx_to_free := Z.to_nat (1 - k) in mret (slice idx_to_free (idx_to_free + 1) buf)
                      else
                        assert_ (bool_decide (track_buffer_size x = 1%nat))
                          "Unexpected mamba_ping_pong_track_buffer_size" ≫= fun _ =>
                        assert_ (bool_decide (k = 0)) "mamba_ping_pong_track_buffer_to_keep must be 0" ≫= fun _ =>
                        mret []
                  end;
        on_cache (mamba_free to_free)
      else mret tt
  end.

(** *** [MambaRadixCache] *)

Definition req_key (r : Req) (tokens : list Z) : RadixKey := MkKey tokens (req_extra_key r) false.

(** The part of [cache_finished_req] that stores the request in the tree:
    [mamba_exist] and [mamba_ping_pong_track_buffer_to_keep] *)
Definition store_finished (is_insert : bool) (r : Req) (s : cache) (token_ids kv_indices : list Z) :
    MH (bool * option Z) :=
  if is_insert then
    f ← gets h_fields;
    let cache_len := if enable_mamba_extra_buffer s then default O (mamba_last_track_seqlen f)
                     else length token_ids in
    '(token_ids', kv_indices') ←
      (if decide (cache_len = length token_ids) then mret (token_ids, kv_indices)
       else
         on_cache (full_free (drop (cache_len `max` cache_protected_len r) kv_indices)) ≫= fun _ =>
         mret (take cache_len token_ids, take cache_len kv_indices));
    let page_aligned_len := page_floor (page_size (m_params s)) (length kv_indices') in
    assert_ (bool_decide (cache_len = page_aligned_len)) "It is required" ≫= fun _ =>
    '(mamba_value_, to_keep) ←
      (if enable_mamba_extra_buffer s then '(k, slot) ← tracked_slot; mret ([slot], Some k)
       else slot ← own_slot; mret ([slot], None));
    '(_, mamba_exist) ← on_cache (m_insert (req_key r (take page_aligned_len token_ids'))
      (Some (take page_aligned_len kv_indices')) (Some mamba_value_) (cache_protected_len r));
    mret (mamba_exist, to_keep)
  else
    on_cache (full_free (drop (cache_protected_len r) kv_indices)) ≫= fun _ =>
    mret (true, None).

(** [cache_finished_req] *)
Definition m_cache_finished_req (is_insert : bool) : MH unit :=
  kv_committed_len ← on_env (pop_committed_kv_cache args);
  r ← the_req;
  s ← the_cache;
  i ← on_env row_index;
  row ← on_env (row_at i);
  let kv_indices := take kv_committed_len row in
  if disable (m_params s) then
    on_cache (full_free kv_indices) ≫= fun _ =>
    free_mamba_cache None
  else
    let token_ids := take kv_committed_len (origin_input_ids r ++ output_ids r) in
    '(mamba_exist, to_keep) ← store_finished is_insert r s token_ids kv_indices;
    (if enable_mamba_extra_buffer s || mamba_exist
     then free_mamba_cache (if (mamba_exist : bool) then None else to_keep) else mret tt) ≫= fun _ =>
    match last_node r with
    | Some node => on_cache (m_dec_lock_ref node)
    | None => raise AttributeError "'NoneType' object has no attribute 'mamba_value'"
    end.

(** [_skip_cache_unfinished_req] *)
Definition skip_cache_unfinished_req : MH unit :=
  r ← the_req;
  i ← on_env row_index;
  row ← on_env (row_at i);
  on_env (upd_req (set_cached (take (length (fill_ids r)) row) (cache_protected_len r) (last_node r))).

(** The checkpoint [cache_unfinished_req] gives to the tree: the last one of
    the ping-pong buffer, which gets a new slot in its place, or a copy of the
    running state *)
Definition donate (extra : bool) (row_idx : nat) : MH (list Z) :=
  if extra then
    '(k, slot) ← tracked_slot;
    new_slot ← on_cache alloc_mamba_slot;
    match new_slot with
    | [] => raise IndexError "index 0 is out of bounds for dimension 0 with size 0"
    | n :: _ =>
        upd_fields (fun f => f_set_buffer
          ((fun buf => match at_index buf k with Some j => <[j := n]> buf | None => buf end)
             <$> mamba_ping_pong_track_buffer f) f) ≫= fun _ =>
        f ← gets h_fields;
        track_row row_idx ≫= fun _ =>
        upd_ext (fun x => MkHExt (track_buffer_size x) (hp_extra_buffer x) (mamba_index_mapping x)
          (match mamba_ping_pong_track_buffer f with
           | Some buf => <[row_idx := buf]> (track_buffer_mapping x)
           | None => track_buffer_mapping x
           end)) ≫= fun _ =>
        mret [slot]
    end
  else
    mamba_value_donated ← on_cache alloc_mamba_slot;
    slot ← own_slot;
    on_cache (mamba_copy [slot] mamba_value_donated) ≫= fun _ =>
    mret mamba_value_donated.

(** The part of [cache_unfinished_req] that stores the tokens and looks them up
    again: the indices and the node of the new prefix *)
Definition store_unfinished (r : Req) (page_size : nat) (key : RadixKey) (values mamba_value_donated : list Z) :
    MH (list Z * nat) :=
  '(new_prefix_len, mamba_exist) ← on_cache (m_insert key (Some values) (Some mamba_value_donated)
    (cache_protected_len r));
  (if (mamba_exist : bool) then on_cache (mamba_free mamba_value_donated) else mret tt) ≫= fun _ =>
  m ← on_cache (m_match_prefix mamba_cache_chunk_size key None);
  let new_indices := mm_indices m in
  let new_last_node := mm_last m in
  (if (mamba_exist : bool) then mret tt
   else
     n ← on_cache (mnode_at new_last_node);
     mv ← on_cache (tensor (mamba_value n));
     assert_ (bool_decide (mv = mamba_value_donated)) "") ≫= fun _ =>
  assert_ (bool_decide (cache_protected_len r <= length new_indices + page_size - 1)%nat)
    "req.cache_protected_len" ≫= fun _ =>
  assert_ (bool_decide (new_prefix_len <= length new_indices)%nat) "new_prefix_len" ≫= fun _ =>
  mret (new_indices, new_last_node).

(** The end of [cache_unfinished_req]: the row and the request get the new
    prefix, which is held instead of the old one *)
Definition m_rehold (i : nat) (r : Req) (new_indices : list Z) (new_last_node : nat) : MH unit :=
  on_env (write_row i (cache_protected_len r) (length new_indices) (drop (cache_protected_len r) new_indices))
    ≫= fun _ =>
  match last_node r with
  | None => raise AttributeError "'NoneType' object has no attribute 'mamba_value'"
  | Some node =>
      on_cache (m_dec_lock_ref node) ≫= fun _ =>
      on_cache (m_inc_lock_ref new_last_node) ≫= fun _ =>
      row ← on_env (row_at i);
      on_env (upd_req (set_cached
        (new_indices ++ drop (length new_indices) (take (length (fill_ids r)) row))
        (length new_indices) (Some new_last_node))) ≫= fun _ =>
      upd_fields (f_set_track None)
  end.

(** [cache_unfinished_req] *)
Definition m_cache_unfinished_req : MH unit :=
  r ← the_req;
  s ← the_cache;
  f ← gets h_fields;
  let token_ids := fill_ids r in
  let cache_len := if enable_mamba_extra_buffer s then mamba_last_track_seqlen f else Some (length token_ids) in
  match (if disable (m_params s) then None else cache_len) with
  | None => skip_cache_unfinished_req
  | Some cache_len =>
      i ← on_env row_index;
      row ← on_env (row_at i);
      let kv_indices := take cache_len (take (length token_ids) row) in
      let page_aligned_len := page_floor (page_size (m_params s)) (length kv_indices) in
      assert_ (bool_decide (page_aligned_len = length kv_indices)) "page_aligned_len != len(kv_indices)" ≫= fun _ =>
      let key := req_key r (take page_aligned_len token_ids) in
      mamba_value_donated ← donate (enable_mamba_extra_buffer s) i;
      '(new_indices, new_last_node) ← store_unfinished r (page_size (m_params s)) key
        (take page_aligned_len kv_indices) mamba_value_donated;
      m_rehold i r new_indices new_last_node
  end.

(** [release_kv_cache] for this cache, which manages the recurrent states *)
Definition m_release_kv_cache (is_insert : bool) : MH unit :=
  r ← the_req;
  match req_pool_idx r with
  | None =>
      f ← gets h_fields;
      match mamba_pool_idx f with
      | Some i => on_cache (mamba_free [i]) ≫= fun _ => upd_fields (f_set_idx None)
      | None => mret tt
      end
  | Some i =>
      m_cache_finished_req (is_insert && negb (skip_radix_cache_insert r)) ≫= fun _ =>
      on_env (release_tail args (fun l => on_tree (full_free l)) i)
  end.
End req.
