(* ===== verification/MambaReqFacts.v ===== *)
(** * The prefix cache of hybrid models: slot conservation

    A request owns the KV slots of its row beyond the prefix the tree protects
    for it, the slot of its running state and, with the extra buffer, the
    slots of its ping-pong buffer.  The theorems of this file say that the
    entry points of MambaReq.v lose no slot of either kind and duplicate none:
    every slot is afterwards owned by the tree, still owned by the request, or
    free, each exactly as often as before. *)

From S2P Require Import Prelude PyDict RadixKey KvEvents RadixTree RadixOps RadixInv RadixMoves.
From S2P Require Import RadixState RadixLocks RadixRun RadixEvents RadixInsert RadixSpec RadixEvict RadixLockOps.
From S2P Require Import RadixTotal RadixSlots RadixReq RadixReqFacts MambaTree MambaOps LruFacts MambaView MambaRules.
From S2P Require Import MambaInv MambaRun MambaHold MambaShrink MambaEvict MambaInsert MambaMatch MambaSpec MambaLaws.
From S2P Require Import MambaReq.

(** ** Keys *)

Lemma req_key_take r n tokens : key_take n (req_key r tokens) = req_key r (take n tokens).
Proof.
  unfold key_take, req_key, key_slice, key_len. simpl. f_equal. rewrite drop_0, Nat.sub_0_r.
  destruct (decide (n ≤ length tokens)%nat); [by rewrite Nat.min_l|].
  rewrite Nat.min_r, firstn_all by lia. symmetry. apply firstn_all2. lia.
Qed.

Lemma req_key_len r tokens : key_len (req_key r tokens) = length tokens.
Proof. done. Qed.

Lemma page_floor_mul ps c : page_floor ps (c * ps) = (c * ps)%nat.
Proof. unfold page_floor. case_decide; [done|]. destruct ps; [lia|]. by rewrite Nat.div_mul by lia. Qed.

Section facts.
Context {A P : Type} `{KvFree A} `{!KvFreeTotal A} `{MambaSlots P} `{!MambaSlotsLaws P} `{Sha256} `{!Sha256Laws}.
Implicit Types (s : MambaRadixCache A P) (L : gset nat) (x y : nat) (Hs : list nat) (r : Req) (f : MambaFields).
Abbreviation psz s := (page_size (m_params s)).

(** The whole pages of the tokens of a request. *)
Definition req_pages s r (tokens : list Z) : list child_key_t := pages (psz s) (req_key r tokens).

(** [y] ends the prefix that the tree protects for the request with row [row]. *)
Record m_req_held s y r (row tokens : list Z) : Prop := MReqHeld {
  hd_node : last_node r = Some y;
  hd_pages : exists m, cache_protected_len r = (m * psz s)%nat /\ (m * psz s ≤ length tokens)%nat /\
    m_spells s y (take m (req_pages s r tokens)) (take (cache_protected_len r) row)
}.

Lemma req_pages_take s r (c : nat) tokens :
  (0 < psz s)%nat -> req_pages s r (take (c * psz s) tokens) = take c (req_pages s r tokens).
Proof. intros Hps. unfold req_pages. rewrite <-req_key_take. by apply pages_take. Qed.

Lemma req_pages_len s r (c : nat) tokens :
  (0 < psz s)%nat -> (c * psz s ≤ length tokens)%nat -> (c ≤ length (req_pages s r tokens))%nat.
Proof.
  intros Hps Hc. unfold req_pages. rewrite pages_length, req_key_len. by apply Nat.div_le_lower_bound; [lia|rewrite Nat.mul_comm].
Qed.

(** The longest cached prefix has the slots of every cached prefix. *)
Lemma longest_covers s lf lm L Hs y (w : list child_key_t) n vs m v :
  consistent s lf lm L Hs -> y ∈ L -> m_longest s L w n vs -> m_spells s y (take m w) v -> (m ≤ length w)%nat ->
  (m ≤ n)%nat /\ v = take (m * psz s) vs.
Proof.
  intros Hcs Hy (_ & _ & Hmax) [l Hl] Hm.
  destruct (Hmax (take m w) v) as [Hmn Hv].
  - eapply stored_node; [exact (minv_ps (cs_inv _ _ _ _ _ Hcs))|exact (minv_shape (cs_inv _ _ _ _ _ Hcs))|done|exact Hl].
  - apply prefix_take.
  - rewrite length_take, Nat.min_l in Hmn, Hv by done. done.
Qed.

(** The slots of a cached prefix. *)
Lemma longest_length s lf lm L Hs w n vs :
  consistent s lf lm L Hs -> m_longest s L w n vs -> length vs = (n * psz s)%nat.
Proof.
  intros Hcs (Hn & (x & l & w' & v' & Hx & Hu & Hw & ->) & _).
  assert (length v' = (length w' * psz s)%nat) as Hl
    by exact (up_value_length _ _ (minv_ps (cs_inv _ _ _ _ _ Hcs)) _ _ _ _ _ _ (minv_shape (cs_inv _ _ _ _ _ Hcs)) Hx Hu).
  apply prefix_length in Hw. rewrite !length_take, Hl in *. rewrite (Nat.min_l n (length w)) in * by done. nia.
Qed.

(** A shorter prefix of a cached one is cached, too. *)
Lemma longest_whole s lf lm L Hs y (W : list child_key_t) (c m : nat) v n vs :
  consistent s lf lm L Hs -> y ∈ L -> m_spells s y (take m W) v -> (c ≤ m)%nat -> (m ≤ length W)%nat ->
  m_longest s L (take c W) n vs -> n = c.
Proof.
  intros Hcs Hy [l Hl] Hcm Hm (Hn & _ & Hmax).
  pose proof (minv_shape (cs_inv _ _ _ _ _ Hcs)) as Hsh. pose proof (minv_ps (cs_inv _ _ _ _ _ Hcs)) as Hps.
  destruct (Hmax (take c W) (take (c * psz s) v)) as [Hlen _].
  - assert (m_content s L (take m W) v) as Hc by (eapply stored_node; [exact Hps|exact Hsh|done|exact Hl]).
    assert (take c W `prefix_of` take m W) as Hp by (rewrite <-(Nat.min_l _ _ Hcm), <-take_take; apply prefix_take).
    pose proof (stored_prefix (psz s) (m_root s) Hps _ _ _ _ _ Hc Hp) as Hst. rewrite length_take, Nat.min_l in Hst by lia. exact Hst.
  - done.
  - rewrite length_take in Hlen, Hn. lia.
Qed.

(** The insertion both entry points perform: the first [c] pages. *)
Lemma m_cache_tokens s lf lm L Hs y r row tokens (c : nat) mv :
  let k := req_key r (take (c * psz s) tokens) in
  let w := take c (req_pages s r tokens) in
  let v := take (c * psz s) row in
  consistent s lf lm L Hs -> alloc_ok (m_alloc s) -> disable (m_params s) = false -> y ∈ L ->
  m_req_held s y r row tokens -> (c * psz s ≤ length tokens)%nat -> (length tokens ≤ length row)%nat ->
  c ≠ O -> length mv = 1%nat -> Forall (fun t => 0 <= t < 2 ^ 32) tokens ->
  exists n e vs fs x s' lf' lm' L',
    m_insert k (Some v) (Some mv) (cache_protected_len r) s = (Ok ((n * psz s)%nat, e), s') /\
    m_inserted s L Hs w v mv (cache_protected_len r) n e vs fs x s' lf' lm' L' /\ alloc_ok (m_alloc s') /\
    pages (psz s) k = w /\ length w = c /\ (n ≤ c)%nat /\ length vs = (n * psz s)%nat /\
    ((cache_protected_len r ≤ n * psz s)%nat /\
       take (cache_protected_len r) row = take (cache_protected_len r) vs \/
     n = c /\ (c * psz s < cache_protected_len r)%nat).
Proof.
  intros k w v Hcs Hok Hdis Hy [_ (m & Hcp & Hm & Hsp)] Hc Hrow Hc0 Hmv Hfit.
  assert (0 < psz s)%nat as Hps by exact (minv_ps (cs_inv _ _ _ _ _ Hcs)).
  assert (pages (psz s) k = w) as Hw by (by apply req_pages_take).
  assert (length w = c) as Hlw by (unfold w; rewrite length_take; pose proof (req_pages_len s r c tokens Hps Hc); lia).
  assert (key_len k = (c * psz s)%nat) as Hk by (unfold k; rewrite req_key_len, length_take; lia).
  destruct (m_insert_run s lf lm L Hs k v mv (cache_protected_len r) Hcs Hok Hdis) as
    (n & e & vs & fs & x & s' & lf' & lm' & L' & Hr & Hi & Hok'); try done.
  { by exists c. }
  { rewrite Hk. destruct c; [done|]. nia. }
  { rewrite Hk. unfold v. rewrite length_take. lia. }
  { intros _. unfold k, req_key. red. simpl. by apply Forall_take. }
  rewrite Hw in Hi. exists n, e, vs, fs, x, s', lf', lm', L'. pose proof (mi_longest _ _ _ _ _ _ _ _ _ _ _ _ _ _ _ _ Hi) as Hl.
  split_and!; try done.
  - destruct Hl as [Hn _]. by rewrite Hlw in Hn.
  - by eapply longest_length.
  - pose proof (req_pages_len s r m tokens Hps Hm) as HmW. destruct (decide (m ≤ c)%nat) as [Hmc|Hmc]; [left|right].
    + assert (take m (req_pages s r tokens) = take m w) as Em by (unfold w; rewrite take_take, Nat.min_l by lia; done).
      rewrite Em in Hsp. destruct (longest_covers s lf lm L Hs y w n vs m _ Hcs Hy Hl Hsp) as [Hmn Ht]; [lia|].
      rewrite Hcp in *. split; [by apply Nat.mul_le_mono_r|done].
    + split; [|rewrite Hcp; apply Nat.mul_lt_mono_pos_r; lia].
      by apply (longest_whole s lf lm L Hs y (req_pages s r tokens) c m (take (cache_protected_len r) row) n vs); try done; lia.
Qed.

(** Two states with the same view. *)
Lemma same_view s s' lf lm L Hs :
  consistent s lf lm L Hs -> rep s' (view_of s lf lm) -> consistent s' lf lm L Hs /\ m_same s L s'.
Proof.
  intros Hcs Hrep'. pose proof (consistent_rep _ _ _ _ _ Hcs) as Hrep. pose proof (cs_inv _ _ _ _ _ Hcs) as Hinv.
  split; [exact (rep_consistent s' _ L Hs Hrep' Hinv)|].
  pose proof (fun B (g : MambaRadixCache A P -> B) => rep_base_eq s' (view_of s lf lm) g Hrep') as Hb.
  assert (m_params s' = m_params s) as Ep by exact (Hb _ m_params). assert (m_root s' = m_root s) as Er by exact (Hb _ m_root).
  assert (mcore <$> m_nodes s' = mcore <$> m_nodes s) as Ec by exact (eq_sym (rep_cores _ _ Hrep')).
  assert (mckpt <$> m_nodes s' = mckpt <$> m_nodes s) as Ek by exact (eq_sym (rep_ckpts _ _ Hrep')).
  split; [| | |exact (Hb _ m_alloc)|exact (Hb _ m_pool)| |].
  - split_and!; [done|done|exact (Hb _ enable_mamba_extra_buffer)|]. intros x w v _ [l Hl]. exists l. unfold m_path. by rewrite Ep, Er, Ec.
  - intros y. by rewrite (ckpt_of_fst s' _ y Hrep'), (ckpt_of_fst s _ y Hrep).
  - intros w v. unfold m_content. by rewrite Ep, Er, Ec.
  - intros i. unfold m_occ. by rewrite Ec.
  - intros i. unfold m_ckocc. by rewrite Ek.
Qed.

(** Nothing to insert: the tree and the slots stay. *)
Lemma m_insert_empty s lf lm L Hs r v mv prev :
  consistent s lf lm L Hs -> disable (m_params s) = false ->
  exists s', m_insert (req_key r []) (Some v) (Some mv) prev s = (Ok (O, true), s') /\ consistent s' lf lm L Hs /\ m_same s L s'.
Proof.
  intros Hcs Hdis. pose proof (consistent_rep _ _ _ _ _ Hcs) as Hrep.
  destruct (sim_access (m_root s) (access_counter s) (view_of s lf lm) _ (rep_clock s _ (access_counter s + 100000) Hrep))
    as (s1 & Hr & Hrep1). exists s1. split; [|by apply same_view].
  assert (m_root s1 = m_root s) as Er by exact (rep_base_eq s1 (view_of s lf lm) m_root Hrep1).
  unfold m_insert. erewrite bind_ok by reflexivity. cbv beta. rewrite Hdis.
  erewrite bind_ok by reflexivity. cbv beta. unfold m_insert_helper. erewrite bind_ok by reflexivity. cbv beta.
  rewrite (bind_ok _ _ _ _ _ Hr). cbv beta. erewrite bind_ok by reflexivity. cbv beta.
  rewrite (decide_True _ _ (eq_sym Er)). erewrite bind_ok by reflexivity. cbv beta. by rewrite decide_True.
Qed.

(** Freeing slots does not concern the tree. *)
Lemma consistent_alloc a s lf lm L Hs : consistent s lf lm L Hs -> consistent (mu_alloc a s) lf lm L Hs.
Proof. intros [H3 H4 []]. by split. Qed.

Lemma consistent_pool p s lf lm L Hs : consistent s lf lm L Hs -> consistent (mu_pool p s) lf lm L Hs.
Proof. intros [H3 H4 []]. by split. Qed.

Lemma full_free_run l s :
  alloc_ok (m_alloc s) ->
  full_free l s = (Ok tt, mu_alloc (free_all [l] (m_alloc s)) s) /\ alloc_ok (free_all [l] (m_alloc s)).
Proof.
  intros Ha. destruct (kv_free_total l (m_alloc s) Ha) as (a' & Hf & Ha'). unfold full_free, zoom. simpl. by rewrite Hf.
Qed.

(** *** Runs in the environment of a request *)

Implicit Types e : MReqEnv A P.

Definition with_tree (t : MambaRadixCache A P) e : MReqEnv A P :=
  MkMEnv (MkEnv t (pool (h_env e)) (req (h_env e))) (h_ext e) (h_fields e).

Lemma on_env_run {B} (m : M (ReqEnv (MambaRadixCache A P)) B) e (b : res B) v :
  m (h_env e) = (b, v) -> on_env m e = (b, MkMEnv v (h_ext e) (h_fields e)).
Proof. intros Hm. unfold on_env, zoom. by rewrite Hm. Qed.

Lemma on_cache_run {B} (m : M (MambaRadixCache A P) B) e (b : res B) t :
  m (tree (h_env e)) = (b, t) -> on_cache m e = (b, with_tree t e).
Proof. intros Hm. apply on_env_run. unfold on_tree, zoom. by rewrite Hm. Qed.

(** The slots of the pool a request owns. *)
Definition own_slots (x : HybridExt) f : list Z :=
  option_list (mamba_pool_idx f) ++
  (if hp_extra_buffer x then default [] (mamba_ping_pong_track_buffer f) else []).

(** The request with row [i] has what the code expects: its running slot [z]
    and, with the extra buffer, a ping-pong buffer that is also in the mapping. *)
Record hybrid_ok s (x : HybridExt) f (i : nat) (z : Z) : Prop := HybridOk {
  ho_extra : hp_extra_buffer x = enable_mamba_extra_buffer s;
  ho_page : enable_mamba_extra_buffer s = true \/ psz s = 1%nat;
  ho_slot : mamba_pool_idx f = Some z;
  ho_track : enable_mamba_extra_buffer s = true -> exists buf n,
    mamba_ping_pong_track_buffer f = Some buf /\ mamba_next_track_idx f = Some n /\
    track_buffer_mapping x !! i = Some buf /\ length buf = track_buffer_size x /\
    (track_buffer_size x = 2%nat /\ (n = 0 \/ n = 1) \/ track_buffer_size x = 1%nat /\ n = 0)
}.

(** The slot [d] with the last checkpoint, at index [k] of the ping-pong buffer. *)
Definition tracked (x : HybridExt) f (k d : Z) : Prop :=
  exists buf n j, mamba_ping_pong_track_buffer f = Some buf /\ mamba_next_track_idx f = Some n /\
    k = get_mamba_ping_pong_other_idx x n /\ at_index buf k = Some j /\ buf !! j = Some d.

Lemma tracked_run e k d : tracked (h_ext e) (h_fields e) k d -> tracked_slot e = (Ok (k, d), e).
Proof.
  intros (buf & n & j & Hb & Hn & -> & Hj & Hd). unfold tracked_slot. erewrite bind_ok by reflexivity. cbv beta.
  erewrite bind_ok by reflexivity. cbv beta. rewrite Hn, Hb, Hj. simpl. by rewrite Hd.
Qed.

(** The other slots of the buffer. *)
Lemma tracked_parts s (x : HybridExt) f i z :
  hybrid_ok s x f i z -> enable_mamba_extra_buffer s = true ->
  exists buf k j d others, mamba_ping_pong_track_buffer f = Some buf /\ tracked x f k d /\
    track_buffer_mapping x !! i = Some buf /\ at_index buf k = Some j /\ buf !! j = Some d /\
    length buf = track_buffer_size x /\ (k = 0 \/ k = 1) /\
    (track_buffer_size x = 2%nat /\ others = slice (Z.to_nat (1 - k)) (Z.to_nat (1 - k) + 1) buf \/
     track_buffer_size x = 1%nat /\ k = 0 /\ others = []) /\
    (forall l, occ l buf = occ l [d] + occ l others) /\
    forall d' l, occ l (<[j := d']> buf) = occ l [d'] + occ l others.
Proof.
  intros [_ _ _ Ht] Hex. destruct (Ht Hex) as (buf & n & Hb & Hn & Hm & Hlen & Hcase).
  assert (forall k d j, get_mamba_ping_pong_other_idx x n = k -> at_index buf k = Some j -> buf !! j = Some d ->
    tracked x f k d) as Hrun by (intros k d j <- Hj Hs; by exists buf, n, j).
  unfold get_mamba_ping_pong_other_idx in Hrun.
  destruct Hcase as [[Hsz Hn01]|[Hsz ->]]; rewrite Hsz in Hlen, Hrun.
  - destruct buf as [|b0 [|b1 [|]]]; try done. rewrite decide_True in Hrun by done.
    destruct Hn01 as [->| ->]; [exists [b0; b1], 1, 1%nat, b1, [b0]|exists [b0; b1], 0, 0%nat, b0, [b1]];
      (split_and!; try done; try (by eapply Hrun); try (by left); try (by right));
      [intros l|intros b1' l|intros l|intros b0' l]; simpl;
      match goal with |- occ _ [?a; ?b] = _ => change [a; b] with ([a] ++ [b]) end; rewrite occ_app; lia.
  - destruct buf as [|b0 [|]]; try done. rewrite decide_False in Hrun by done.
    exists [b0], 0, 0%nat, b0, []. split_and!; try done; try (by eapply Hrun); try (by left); try (by right).
    + intros l. rewrite occ_nil. lia.
    + intros b l. rewrite occ_nil. simpl. lia.
Qed.

Lemma tracked_fun (x : HybridExt) f k d k' d' : tracked x f k d -> tracked x f k' d' -> k' = k /\ d' = d.
Proof.
  intros (buf & n & j & Hb & Hn & -> & Hj & Hd) (buf' & n' & j' & Hb' & Hn' & -> & Hj' & Hd'). simplify_eq. split; congruence.
Qed.

(** What [free_mamba_cache] leaves of the environment. *)
Definition states_freed (frees : list (list Z)) e : MReqEnv A P :=
  let s := tree (h_env e) in
  MkMEnv (MkEnv (mu_pool (pool_free_all frees (m_pool s)) s) (pool (h_env e)) (req (h_env e))) (h_ext e)
    (f_set_idx None (h_fields e)).

Lemma mamba_free_run l e : on_cache (mamba_free l) e = (Ok tt, with_tree (mu_pool (ms_free l (m_pool (tree (h_env e)))) (tree (h_env e))) e).
Proof. by apply on_cache_run. Qed.

Lemma free_mamba_cache_all e i z :
  hybrid_ok (tree (h_env e)) (h_ext e) (h_fields e) i z -> req_pool_idx (req (h_env e)) = Some i ->
  exists frees, free_mamba_cache None e = (Ok tt, states_freed frees e) /\
    concat frees = own_slots (h_ext e) (h_fields e).
Proof.
  intros Hok Hi. unfold free_mamba_cache. erewrite bind_ok by reflexivity. cbv beta.
  rewrite (ho_slot _ _ _ _ _ Hok). rewrite (bind_ok _ _ _ _ _ (mamba_free_run _ e)). cbv beta.
  unfold upd_fields. erewrite bind_ok by reflexivity. cbv beta. erewrite bind_ok by reflexivity. cbv beta.
  cbn [h_ext h_env h_fields with_tree]. unfold own_slots. rewrite (ho_slot _ _ _ _ _ Hok). destruct (hp_extra_buffer (h_ext e)) eqn:Hex.
  - rewrite (ho_extra _ _ _ _ _ Hok) in Hex. destruct (ho_track _ _ _ _ _ Hok Hex) as (buf & n & Hb & _ & Hm & _).
    cbv iota. erewrite bind_ok by (apply on_env_run, row_index_run; exact Hi). cbv beta.
    unfold track_row. erewrite bind_ok by (erewrite bind_ok by reflexivity; cbv beta; cbn [h_ext]; rewrite Hm; reflexivity).
    cbv beta. erewrite bind_ok by reflexivity. cbv beta. rewrite mamba_free_run.
    exists [[z]; buf]. split; [done|]. rewrite Hb. simpl. by rewrite app_nil_r.
  - exists [[z]]. by split.
Qed.

Lemma free_mamba_cache_keep e i z k buf others :
  let x := h_ext e in
  hybrid_ok (tree (h_env e)) x (h_fields e) i z -> req_pool_idx (req (h_env e)) = Some i -> hp_extra_buffer x = true ->
  track_buffer_mapping x !! i = Some buf -> k = 0 \/ k = 1 ->
  (track_buffer_size x = 2%nat /\ others = slice (Z.to_nat (1 - k)) (Z.to_nat (1 - k) + 1) buf \/
   track_buffer_size x = 1%nat /\ k = 0 /\ others = []) ->
  exists frees, free_mamba_cache (Some k) e = (Ok tt, states_freed frees e) /\ concat frees = z :: others.
Proof.
  intros x Hok Hi Hex Hm Hk Hcase. unfold free_mamba_cache. erewrite bind_ok by reflexivity. cbv beta.
  rewrite (ho_slot _ _ _ _ _ Hok). rewrite (bind_ok _ _ _ _ _ (mamba_free_run _ e)). cbv beta.
  unfold upd_fields. erewrite bind_ok by reflexivity. cbv beta. erewrite bind_ok by reflexivity. cbv beta.
  cbn [h_ext h_env h_fields with_tree]. fold x. rewrite Hex. cbv iota. erewrite bind_ok by (apply on_env_run, row_index_run; exact Hi). cbv beta.
  unfold track_row. erewrite bind_ok by (erewrite bind_ok by reflexivity; cbv beta; cbn [h_ext]; rewrite Hm; reflexivity).
  cbv beta. unfold assert_. rewrite (bool_decide_eq_true_2 _ Hk). exists [[z]; others]. split; [|simpl; by rewrite app_nil_r].
  rewrite bind_assoc. erewrite bind_ok by reflexivity. cbv beta. destruct Hcase as [[Hsz ->]|(Hsz & -> & ->)]; rewrite Hsz.
  - rewrite decide_True by done. erewrite bind_ok by reflexivity. cbv beta. by rewrite mamba_free_run.
  - rewrite decide_False by done. rewrite bind_assoc. erewrite bind_ok by reflexivity. cbv beta.
    rewrite bind_assoc. erewrite bind_ok by reflexivity. cbv beta. erewrite bind_ok by reflexivity. cbv beta.
    by rewrite mamba_free_run.
Qed.

(** *** Storing a finished request *)

(** The number of tokens whose state the checkpoint of a request has. *)
Definition tracked_len s f (tokens : list Z) : nat :=
  if enable_mamba_extra_buffer s then default O (mamba_last_track_seqlen f) else length tokens.

(** The checkpoint that a request gives to the tree, and its place in the
    ping-pong buffer. *)
Definition donated s (x : HybridExt) f (d : Z) (keep : option Z) : Prop :=
  if enable_mamba_extra_buffer s then exists k, keep = Some k /\ tracked x f k d
  else mamba_pool_idx f = Some d /\ keep = None.

Lemma donated_run e i z :
  hybrid_ok (tree (h_env e)) (h_ext e) (h_fields e) i z ->
  exists d keep, donated (tree (h_env e)) (h_ext e) (h_fields e) d keep /\
    (if enable_mamba_extra_buffer (tree (h_env e)) then '(k, slot) ← tracked_slot; mret ([slot], Some k)
     else slot ← own_slot; mret ([slot], None)) e = (Ok ([d], keep), e).
Proof.
  intros Hok. unfold donated. destruct (enable_mamba_extra_buffer (tree (h_env e))) eqn:Hex.
  - destruct (tracked_parts _ _ _ _ _ Hok Hex) as (buf & k & j & d & others & _ & Ht & _).
    exists d, (Some k). split; [by exists k|]. by rewrite (bind_ok _ _ _ _ _ (tracked_run e k d Ht)).
  - exists z, None. rewrite (ho_slot _ _ _ _ _ Hok). split; [done|].
    unfold own_slot. rewrite bind_assoc. erewrite bind_ok by reflexivity. cbv beta. by rewrite (ho_slot _ _ _ _ _ Hok).
Qed.

(** [s'] after a request was stored: [fs] was freed, and [c] pages end in a
    checkpoint, the donated one [d] unless there was one ([e]). *)
Record m_stored s L s' L' (W : list child_key_t) (c : nat) (ins ex : bool) (d : Z) (fs : list (list Z)) (own : list Z) : Prop := MStored {
  st_live : L ⊆ L';
  st_keeps : m_keeps s L s';
  st_content w v : m_content s L w v -> m_content s' L' w v;
  st_node : ins = true -> c ≠ O -> exists x v, x ∈ L' /\ m_spells s' x (take c W) v /\ ckpt_of s' x ≠ None;
  st_alloc : m_alloc s' = free_all fs (m_alloc s);
  st_pool : m_pool s' = m_pool s;
  st_occ j : m_occ s' L' j + occ j (concat fs) = m_occ s L j + occ j own;
  st_ckocc j : m_ckocc s' L' j = m_ckocc s L j + if ex then 0 else occ j [d]
}.

Lemma free_all_app l1 l2 (a : A) : free_all (l1 ++ l2) a = free_all l2 (free_all l1 a).
Proof. unfold free_all. by rewrite foldl_app. Qed.

(** Splitting what a request owns. *)
Lemma occ_split (j : Z) (a b : nat) (l : list Z) :
  occ j (drop a l) = occ j (drop a (take b l)) + occ j (drop (b `max` a) l).
Proof.
  destruct (decide (a ≤ b)%nat) as [Hab|Hab].
  - rewrite Nat.max_l by done. rewrite <-(take_drop (b - a) (drop a l)) at 1. rewrite occ_app, skipn_firstn_comm, drop_drop.
    by replace (a + (b - a))%nat with b by lia.
  - rewrite Nat.max_r by lia. rewrite (drop_ge (take b l)) by (rewrite length_take; lia). rewrite occ_nil. lia.
Qed.

Lemma finished_insert s lf lm L Hs y r row tokens (c : nat) d :
  consistent s lf lm L Hs -> alloc_ok (m_alloc s) -> disable (m_params s) = false -> y ∈ L ->
  m_req_held s y r row tokens -> (c * psz s ≤ length tokens)%nat -> (length tokens ≤ length row)%nat ->
  Forall (fun t => 0 <= t < 2 ^ 32) tokens ->
  exists n ex s' lf' lm' L' fs,
    m_insert (req_key r (take (c * psz s) tokens)) (Some (take (c * psz s) row)) (Some [d]) (cache_protected_len r) s =
      (Ok (n, ex), s') /\ consistent s' lf' lm' L' Hs /\ alloc_ok (m_alloc s') /\
    m_stored s L s' L' (req_pages s r tokens) c true ex d fs (drop (cache_protected_len r) (take (c * psz s) row)).
Proof.
  intros Hcs Hok Hdis Hy Hheld Hc Hrow Hfit. destruct (decide (c = O)) as [->|Hc0].
  - destruct (m_insert_empty s lf lm L Hs r [] [d] (cache_protected_len r) Hcs Hdis) as (s' & Hr & Hcs' & Hsame).
    exists O, true, s', lf, lm, L, []. split_and!; [exact Hr|done|by rewrite (sa_alloc _ _ _ Hsame)|]. split; try done.
    + exact (sa_keeps _ _ _ Hsame).
    + intros w v Hw. by apply (sa_content _ _ _ Hsame).
    + exact (sa_alloc _ _ _ Hsame).
    + exact (sa_pool _ _ _ Hsame).
    + intros j. rewrite (sa_occ _ _ _ Hsame), (drop_ge (take _ _)) by (rewrite length_take; lia). done.
    + intros j. rewrite (sa_ckocc _ _ _ Hsame). lia.
  - destruct (m_cache_tokens s lf lm L Hs y r row tokens c [d] Hcs Hok Hdis Hy Hheld Hc Hrow Hc0 eq_refl Hfit) as
      (n & ex & vs & fs & x & s' & lf' & lm' & L' & Hr & Hi & Hok' & _ & _ & Hnc & _ & Hcov).
    destruct Hi as [I1 I2 I3 I4 I5 I6 I7 I8 I9 I10 I11 I12 I13 I14 I15]. destruct I10 as [I10 Efs].
    exists (n * psz s)%nat, ex, s', lf', lm', L', fs. split_and!; [exact Hr|done|done|]. split; try done.
    + intros w v Hw. apply I5. by left.
    + intros _ _. destruct I6 as [I6 I6']. eexists x, _. split_and!; [done|exact I6'|].
      destruct ex; [by destruct I7 as (_ & Hx & ->)|by destruct I7 as [_ ->]].
    + intros j. rewrite I14, Efs. set (v := take (c * psz s) row). set (cp := cache_protected_len r) in *.
      rewrite (occ_split j cp (n * psz s) v). destruct Hcov as [[Hcp _]|[-> Hcp]].
      * rewrite Nat.max_l by done. lia.
      * rewrite Nat.max_r by lia. rewrite !(drop_ge v) by (unfold v; rewrite length_take; lia). lia.
Qed.

Lemma store_finished_run e lf lm L Hs y row tokens (c i : nat) z (ins : bool) :
  let s := tree (h_env e) in
  let r := req (h_env e) in
  let kv := take (length tokens) row in
  consistent s lf lm L Hs -> alloc_ok (m_alloc s) -> disable (m_params s) = false -> y ∈ L ->
  m_req_held s y r row tokens -> (length tokens ≤ length row)%nat -> Forall (fun t => 0 <= t < 2 ^ 32) tokens ->
  hybrid_ok s (h_ext e) (h_fields e) i z ->
  tracked_len s (h_fields e) tokens = (c * psz s)%nat -> (c * psz s ≤ length tokens)%nat ->
  exists ex keep d s' lf' lm' L' fs,
    store_finished ins r s tokens kv e = (Ok (ex, keep), with_tree s' e) /\
    consistent s' lf' lm' L' Hs /\ alloc_ok (m_alloc s') /\
    m_stored s L s' L' (req_pages s r tokens) c ins ex d fs (drop (cache_protected_len r) kv) /\
    drop ((c * psz s) `max` cache_protected_len r) kv ⊆ concat fs /\
    (ex = false -> donated s (h_ext e) (h_fields e) d keep).
Proof.
  intros s r kv Hcs Hok Hdis Hy Hheld Hrow Hfit Hho Hlen Hc. unfold store_finished. destruct ins; cycle 1.
  { destruct (full_free_run (drop (cache_protected_len r) kv) s Hok) as [Hf Hok'].
    rewrite (bind_ok _ _ _ _ _ (on_cache_run _ e _ _ Hf)). cbv beta.
    do 2 eexists. exists 0. do 5 eexists. split; [reflexivity|].
    split; [by apply consistent_alloc|]. split; [exact Hok'|]. split; [|split; [|done]].
    - split; try done.
      + intros j. simpl. by rewrite app_nil_r.
      + intros j. change (m_ckocc (mu_alloc _ s) L j) with (m_ckocc s L j). lia.
    - simpl. rewrite app_nil_r. replace ((c * psz s) `max` cache_protected_len r)%nat
        with (cache_protected_len r + ((c * psz s) - cache_protected_len r))%nat by lia.
      rewrite <-drop_drop. apply subseteq_drop. }
  erewrite bind_ok by reflexivity. cbv beta zeta. fold (tracked_len s (h_fields e) tokens). rewrite Hlen.
  set (tail := if decide ((c * psz s)%nat = length tokens) then [] else [drop ((c * psz s) `max` cache_protected_len r) kv]).
  set (s1 := mu_alloc (free_all tail (m_alloc s)) s).
  assert (alloc_ok (m_alloc s1) /\ (if decide ((c * psz s)%nat = length tokens) then mret (tokens, kv)
     else on_cache (full_free (drop ((c * psz s) `max` cache_protected_len r) kv)) ≫= fun _ =>
       mret (take (c * psz s) tokens, take (c * psz s) kv)) e =
    (Ok (take (c * psz s) tokens, take (c * psz s) row), with_tree s1 e)) as [Hok1 Hr1].
  { unfold s1, tail, kv. case_decide as Ec; simpl.
    - split; [done|]. rewrite Ec, !firstn_all. by destruct e as [[[] ? ?] ? ?].
    - destruct (full_free_run (drop ((c * psz s) `max` cache_protected_len r) (take (length tokens) row)) s Hok) as [Hf Hok'].
      split; [done|]. rewrite (bind_ok _ _ _ _ _ (on_cache_run _ e _ _ Hf)). by rewrite take_take, Nat.min_l. }
  rewrite (bind_ok _ _ _ _ _ Hr1). cbv beta iota zeta.
  assert (page_floor (psz s) (length (take (c * psz s) row)) = (c * psz s)%nat) as Hpf
    by (rewrite length_take, Nat.min_l by lia; apply page_floor_mul).
  rewrite Hpf, !take_take, !Nat.min_id. unfold assert_. rewrite bool_decide_eq_true_2 by done.
  erewrite bind_ok by reflexivity. cbv beta.
  destruct (donated_run (with_tree s1 e) i z) as (d & keep & Hd & Hrd); [by destruct Hho|].
  change (enable_mamba_extra_buffer (tree (h_env (with_tree s1 e)))) with (enable_mamba_extra_buffer s) in Hrd.
  rewrite (bind_ok _ _ _ _ _ Hrd). cbv beta iota.
  assert (m_req_held s1 y r row tokens) as Hheld1 by (by destruct Hheld).
  destruct (finished_insert s1 lf lm L Hs y r row tokens c d (consistent_alloc _ _ _ _ _ _ Hcs) Hok1 Hdis Hy Hheld1 Hc Hrow Hfit) as
    (n & ex & s' & lf' & lm' & L' & fs & Hr & Hcs' & Hok' & [S1 S2 S3 S4 S5 S6 S7 S8]).
  rewrite (bind_ok _ _ _ _ _ (on_cache_run _ (with_tree s1 e) _ _ Hr)). cbv beta iota.
  exists ex, keep, d, s', lf', lm', L', (tail ++ fs). split; [done|]. split; [done|]. split; [done|]. split; [|split].
  - split; try done.
    + by rewrite free_all_app.
    + intros j. rewrite concat_app, occ_app. specialize (S7 j). change (m_occ s1 L j) with (m_occ s L j) in S7.
      rewrite (occ_split j (cache_protected_len r) (c * psz s) kv).
      assert (take (c * psz s) kv = take (c * psz s) row) as -> by (unfold kv; rewrite take_take, Nat.min_l by lia; done).
      change (psz s1) with (psz s) in S7. unfold tail. case_decide as Ec; simpl.
      * rewrite (drop_ge kv) by (unfold kv; rewrite length_take; lia). rewrite occ_nil. lia.
      * rewrite app_nil_r. lia.
  - rewrite concat_app. unfold tail. case_decide as Ec; simpl.
    + rewrite drop_ge by (unfold kv; rewrite length_take; lia). set_solver.
    + set_solver.
  - intros _. exact Hd.
Qed.

(** *** Releasing a finished request *)

Context (args : ServerArgs).

(** The attributes of a request whose states were stored or freed. *)
Definition fields_after s f (ex : bool) : MambaFields :=
  if enable_mamba_extra_buffer s || ex then f_set_idx None f else f.

(** The slots the request does not give to the tree are freed. *)
Lemma finish_states e i z (ex : bool) keep d :
  let s := tree (h_env e) in
  hybrid_ok s (h_ext e) (h_fields e) i z -> req_pool_idx (req (h_env e)) = Some i ->
  (ex = false -> donated s (h_ext e) (h_fields e) d keep) ->
  exists p', (if enable_mamba_extra_buffer s || ex
     then free_mamba_cache (if (ex : bool) then None else keep) else mret tt) e =
    (Ok tt, MkMEnv (MkEnv (mu_pool p' s) (pool (h_env e)) (req (h_env e))) (h_ext e) (fields_after s (h_fields e) ex)) /\
    forall j, occ j (ms_slots p') + (if ex then 0 else occ j [d]) =
      occ j (ms_slots (m_pool s)) + occ j (own_slots (h_ext e) (h_fields e)).
Proof.
  intros s Hok Hi Hd. unfold fields_after. destruct ex.
  - rewrite orb_true_r. destruct (free_mamba_cache_all e i z Hok Hi) as (frees & Hr & Hf).
    eexists. split; [exact Hr|]. intros j. rewrite pool_free_all_slots, occ_app, Hf. fold s. lia.
  - rewrite orb_false_r. specialize (Hd eq_refl). unfold donated in Hd. pose proof (ho_slot _ _ _ _ _ Hok) as Hz.
    destruct (enable_mamba_extra_buffer s) eqn:Hex.
    + destruct Hd as (k & -> & Ht).
      destruct (tracked_parts _ _ _ _ _ Hok Hex) as (buf & k' & jb & d' & others & Hb & Ht' & Hm & _ & _ & _ & Hk & Hcase & Hocc & _).
      destruct (tracked_fun _ _ _ _ _ _ Ht Ht') as [-> ->]. pose proof (ho_extra _ _ _ _ _ Hok) as Hex'. fold s in Hex'. rewrite Hex in Hex'.
      destruct (free_mamba_cache_keep e i z k buf others Hok Hi Hex' Hm Hk Hcase) as (frees & Hr & Hf).
      eexists. split; [exact Hr|]. intros j. rewrite pool_free_all_slots, occ_app, Hf. unfold own_slots. rewrite Hex', Hb, Hz.
      simpl. fold s. change (z :: others) with ([z] ++ others). change (z :: buf) with ([z] ++ buf).
      rewrite !occ_app, Hocc. lia.
    + destruct Hd as [Hd ->]. exists (m_pool s). split; [by destruct e as [[[] ? ?] ? ?]|].
      intros j. pose proof (ho_extra _ _ _ _ _ Hok) as Hex'. fold s in Hex'. rewrite Hex in Hex'.
      unfold own_slots. rewrite Hex', Hd. simpl. lia.
Qed.

(** [c] pages of the tokens of a request are covered by its checkpoint. *)
Definition track_ok s f (tokens : list Z) (c : nat) : Prop :=
  tracked_len s f tokens = (c * psz s)%nat /\ (c * psz s ≤ length tokens)%nat.

Lemma hybrid_ok_keeps s L s' (x : HybridExt) f i z : hybrid_ok s x f i z -> m_keeps s L s' -> hybrid_ok s' x f i z.
Proof. intros [O1 O2 O3 O4] (Ep & _ & Eb & _). by split; rewrite ?Ep, ?Eb. Qed.

Lemma m_keeps_trans s L s1 L1 s2 : m_keeps s L s1 -> L ⊆ L1 -> m_keeps s1 L1 s2 -> m_keeps s L s2.
Proof.
  intros (P1 & R1 & B1 & K1) HL (P2 & R2 & B2 & K2). split_and!; [congruence..|].
  intros x w v Hx Hsp. apply K2; [by apply HL|by apply K1].
Qed.

(** The environment after [cache_finished_req]. *)
Definition finished_env e (t : MambaRadixCache A P) (ex : bool) : MReqEnv A P :=
  let r := req (h_env e) in
  MkMEnv (MkEnv t (pool (h_env e)) (set_freed true (kv_overallocated_freed r) r)) (h_ext e)
    (fields_after (tree (h_env e)) (h_fields e) ex).

Lemma m_cache_finished_req_run e lf lm L Hs H' y row (c i : nat) z (ins : bool) :
  let s := tree (h_env e) in
  let r := req (h_env e) in
  let tokens := take (cache_commit_len args r) (origin_input_ids r ++ output_ids r) in
  let kv := take (length tokens) row in
  consistent s lf lm L Hs -> Hs ≡ₚ y :: H' -> alloc_ok (m_alloc s) -> disable (m_params s) = false ->
  kv_committed_freed r = false -> req_pool_idx r = Some i -> req_to_token (pool (h_env e)) !! i = Some row ->
  length tokens = cache_commit_len args r -> (length tokens ≤ length row)%nat ->
  Forall (fun t => 0 <= t < 2 ^ 32) tokens -> m_req_held s y r row tokens ->
  hybrid_ok s (h_ext e) (h_fields e) i z -> track_ok s (h_fields e) tokens c ->
  exists ex t' lf' lm' L' fs,
    m_cache_finished_req args ins e = (Ok tt, finished_env e t' ex) /\
    consistent t' lf' lm' L' H' /\ alloc_ok (m_alloc t') /\ L ⊆ L' /\ m_keeps s L t' /\
    (forall w v, m_content s L w v -> m_content t' L' w v) /\
    (ins = true -> c ≠ O -> exists x v, x ∈ L' /\ m_spells t' x (take c (req_pages s r tokens)) v /\ ckpt_of t' x ≠ None) /\
    m_alloc t' = free_all fs (m_alloc s) /\
    drop ((c * psz s) `max` cache_protected_len r) kv ⊆ concat fs /\
    (forall j, m_occ t' L' j + occ j (concat fs) = m_occ s L j + occ j (drop (cache_protected_len r) kv)) /\
    forall j, m_ckocc t' L' j + occ j (ms_slots (m_pool t')) =
      m_ckocc s L j + occ j (ms_slots (m_pool s)) + occ j (own_slots (h_ext e) (h_fields e)).
Proof.
  intros s r tokens kv Hcs Hperm Hok Hdis Hfr Hidx Hrow Hlt Hlen Hfit Hheld Hho [Htl Hc].
  assert (y ∈ L) as Hy by (apply (minv_held_live (cs_inv _ _ _ _ _ Hcs)); rewrite Hperm; left).
  set (r1 := set_freed true (kv_overallocated_freed r) r).
  set (e1 := MkMEnv (MkEnv s (pool (h_env e)) r1) (h_ext e) (h_fields e)).
  destruct (store_finished_run e1 lf lm L Hs y row tokens c i z ins) as
    (ex & keep & d & s1 & lf1 & lm1 & L1 & fs & Hr1 & Hcs1 & Hok1 & [S1 S2 S3 S4 S5 S6 S7 S8] & Htl' & Hd); try done; [by destruct Hheld|].
  pose proof S2 as (Ep & _ & Ebuf & _).
  destruct (finish_states (with_tree s1 e1) i z ex keep d) as (p' & Hr2 & Hslots); [by eapply hybrid_ok_keeps|done| |].
  { unfold donated in *. intros He. change (tree (h_env (with_tree s1 e1))) with s1. rewrite Ebuf. by apply Hd. }
  change (tree (h_env (with_tree s1 e1))) with s1 in Hr2, Hslots. rewrite S6 in Hslots.
  destruct (m_release_run (mu_pool p' s1) lf1 lm1 L1 Hs H' y) as (t' & Hr3 & Hcs' & Hsame);
    [by apply consistent_pool|by simpl; rewrite Ep|done|].
  exists ex, t', lf1, lm1, L1, fs. split_and!.
  - unfold m_cache_finished_req. rewrite (bind_ok _ _ e e1 (cache_commit_len args r)); cycle 1.
    { apply on_env_run. unfold pop_committed_kv_cache. erewrite bind_ok by reflexivity. cbv beta. fold r. by rewrite Hfr. }
    cbv beta. unfold the_req, the_cache. erewrite bind_ok by reflexivity. cbv beta. erewrite bind_ok by reflexivity. cbv beta.
    rewrite (bind_ok _ _ _ _ _ (on_env_run _ e1 _ _ (row_index_run (h_env e1) i Hidx))). cbv beta.
    rewrite (bind_ok _ _ _ _ _ (on_env_run _ e1 _ _ (row_run (h_env e1) i row Hrow))). cbv beta zeta.
    change (MkMEnv (h_env e1) (h_ext e1) (h_fields e1)) with e1. change (tree (h_env e1)) with s. rewrite Hdis.
    change (origin_input_ids (req (h_env e1))) with (origin_input_ids r). change (output_ids (req (h_env e1))) with (output_ids r).
    fold tokens. rewrite <-Hlt. fold kv. rewrite (bind_ok _ _ _ _ _ Hr1). cbv beta iota. rewrite Ebuf in Hr2.
    rewrite (bind_ok _ _ _ _ _ Hr2). cbv beta. change (last_node (req (h_env e1))) with (last_node r).
    rewrite (hd_node _ _ _ _ _ Hheld). cbv iota. erewrite on_cache_run by exact Hr3. unfold finished_env, with_tree, fields_after.
    cbn [h_env h_ext h_fields pool req e1]. by rewrite Ebuf.
  - done.
  - by rewrite (sa_alloc _ _ _ Hsame).
  - done.
  - eapply m_keeps_trans; [exact S2|exact S1|]. exact (sa_keeps _ _ _ Hsame).
  - intros w v Hw. apply (sa_content _ _ _ Hsame). by apply S3.
  - intros Hins Hc0. destruct (S4 Hins Hc0) as (x & v & Hx & Hsp & Hk). exists x, v. split_and!; [done| |].
    + by apply (sa_keeps _ _ _ Hsame).
    + by rewrite (sa_ckpts _ _ _ Hsame).
  - by rewrite (sa_alloc _ _ _ Hsame).
  - exact Htl'.
  - intros j. rewrite (sa_occ _ _ _ Hsame). exact (S7 j).
  - intros j. rewrite (sa_ckocc _ _ _ Hsame), (sa_pool _ _ _ Hsame). specialize (S8 j). specialize (Hslots j). simpl in *.
    change (m_ckocc (mu_pool p' s1) L1 j) with (m_ckocc s1 L1 j). rewrite S8. fold s. lia.
Qed.

Lemma overallocated_freed s r (row : list Z) :
  foldl (fun t l => mu_alloc (free_all [l] (m_alloc t)) t) s (overallocated args r row) =
  mu_alloc (free_all (overallocated args r row) (m_alloc s)) s.
Proof. unfold overallocated. case_match; [done|by destruct s]. Qed.

(** With the cache disabled, [cache_finished_req] frees the committed part of
    the row and all the states of the request. *)
Lemma m_cache_finished_disabled e row (i : nat) z (ins : bool) :
  let s := tree (h_env e) in
  let r := req (h_env e) in
  disable (m_params s) = true -> alloc_ok (m_alloc s) -> kv_committed_freed r = false ->
  req_pool_idx r = Some i -> req_to_token (pool (h_env e)) !! i = Some row ->
  hybrid_ok s (h_ext e) (h_fields e) i z ->
  exists frees,
    let t1 := mu_pool (pool_free_all frees (m_pool s)) (mu_alloc (free_all [take (cache_commit_len args r) row] (m_alloc s)) s) in
    m_cache_finished_req args ins e = (Ok tt, finished_env e t1 true) /\ alloc_ok (m_alloc t1) /\
    concat frees = own_slots (h_ext e) (h_fields e).
Proof.
  intros s r Hdis Hok Hfr Hidx Hrow Hho. set (r1 := set_freed true (kv_overallocated_freed r) r).
  set (e1 := MkMEnv (MkEnv s (pool (h_env e)) r1) (h_ext e) (h_fields e)).
  destruct (full_free_run (take (cache_commit_len args r) row) s Hok) as [Hf Hok1].
  set (s1 := mu_alloc (free_all [take (cache_commit_len args r) row] (m_alloc s)) s).
  destruct (free_mamba_cache_all (with_tree s1 e1) i z) as (frees & Hfm & Hown); [by destruct Hho|done|].
  exists frees. split; [|split; [exact Hok1|exact Hown]].
  unfold m_cache_finished_req. rewrite (bind_ok _ _ e e1 (cache_commit_len args r)); cycle 1.
  { apply on_env_run. unfold pop_committed_kv_cache. erewrite bind_ok by reflexivity. cbv beta. fold r. by rewrite Hfr. }
  cbv beta. unfold the_req, the_cache. erewrite bind_ok by reflexivity. cbv beta. erewrite bind_ok by reflexivity. cbv beta.
  rewrite (bind_ok _ _ _ _ _ (on_env_run _ e1 _ _ (row_index_run (h_env e1) i Hidx))). cbv beta.
  rewrite (bind_ok _ _ _ _ _ (on_env_run _ e1 _ _ (row_run (h_env e1) i row Hrow))). cbv beta zeta.
  change (MkMEnv (h_env e1) (h_ext e1) (h_fields e1)) with e1. change (tree (h_env e1)) with s. rewrite Hdis.
  rewrite (bind_ok _ _ _ _ _ (on_cache_run _ e1 _ _ Hf)). cbv beta. etransitivity; [exact Hfm|]. unfold finished_env, fields_after.
  by rewrite orb_true_r.
Qed.

(** [release_kv_cache] once [cache_finished_req] has run. *)
Lemma m_release_finish e row (i : nat) (is_insert : bool) t (ex : bool) :
  let s := tree (h_env e) in
  let r := req (h_env e) in
  m_cache_finished_req args (is_insert && negb (skip_radix_cache_insert r)) e = (Ok tt, finished_env e t ex) ->
  alloc_ok (m_alloc t) -> kv_overallocated_freed r = false -> req_pool_idx r = Some i ->
  req_to_token (pool (h_env e)) !! i = Some row ->
  (sa_speculative args = false -> strip_thinking_cache args = false -> kv_committed_len r = kv_allocated_len r) ->
  m_release_kv_cache args is_insert e =
    (Ok tt, MkMEnv (MkEnv (mu_alloc (free_all (overallocated args r row) (m_alloc t)) t) (row_returned i (pool (h_env e)))
      (req_released r)) (h_ext e) (fields_after s (h_fields e) ex)).
Proof.
  intros s r Hrun Hok Hfo Hidx Hrow Hover.
  pose proof (release_tail_run args (h_env (finished_env e t ex)) (fun l => on_tree (full_free l))
    (fun l t => mu_alloc (free_all [l] (m_alloc t)) t) i row Hfo Hidx Hrow eq_refl
    (fun l p r' => on_tree_run _ (MkEnv t p r') _ _ (proj1 (full_free_run l t Hok))) Hover) as Htail.
  change (overallocated args (req (h_env (finished_env e t ex))) row) with (overallocated args r row) in Htail.
  cbn [finished_env h_env tree pool req] in Htail. rewrite overallocated_freed in Htail.
  unfold m_release_kv_cache, the_req. erewrite bind_ok by reflexivity. cbv beta. fold r. rewrite Hidx.
  rewrite (bind_ok _ _ _ _ _ Hrun). cbv beta. exact (on_env_run _ (finished_env e t ex) _ _ Htail).
Qed.

(** C6: [release_kv_cache] with this cache gives everything back, for a request
    that has not been released and is over-allocated only where the
    configuration allows it.
    With the cache disabled it frees the committed part of the row, the
    over-allocated part behind it and all the states of the request, and leaves
    the tree alone.
    With the cache enabled it never raises if the checkpoint covers whole pages
    of the committed tokens ([track_ok]) and the protected prefix lies within
    them ([m_req_held]); stripped thinking can break both.  Each KV slot of the
    tokens ends up in the tree or is freed exactly as often as it was owned,
    each slot of the Mamba pool (the running one and the ping-pong buffer) in
    the tree or in the free list; what was cached stays cached, with insertion
    the covered pages end in a checkpoint, and the hold on the prefix is
    dropped.
    In both cases the row returns to the table, and where the row consists of
    pages, the slots between the committed length and the next page boundary
    are on a page of which a slot is freed.  A request that never got a row
    only returns its Mamba slot. *)
Theorem m_release_kv_cache_spec e lf lm L Hs H' y row (c i : nat) z (is_insert : bool) :
  let s := tree (h_env e) in
  let r := req (h_env e) in
  let tokens := take (cache_commit_len args r) (origin_input_ids r ++ output_ids r) in
  let kv := take (length tokens) row in
  let ins := is_insert && negb (skip_radix_cache_insert r) in
  let released t ex := MkMEnv (MkEnv t (row_returned i (pool (h_env e))) (req_released r)) (h_ext e)
    (fields_after s (h_fields e) ex) in
  alloc_ok (m_alloc s) -> kv_committed_freed r = false -> kv_overallocated_freed r = false ->
  req_pool_idx r = Some i -> req_to_token (pool (h_env e)) !! i = Some row ->
  hybrid_ok s (h_ext e) (h_fields e) i z ->
  (sa_speculative args = false -> strip_thinking_cache args = false ->
    kv_committed_len r = kv_allocated_len r) ->
  (disable (m_params s) = true -> exists frees,
    let freed := take (cache_commit_len args r) row :: overallocated args r row in
    m_release_kv_cache args is_insert e =
      (Ok tt, released (mu_pool (pool_free_all frees (m_pool s)) (mu_alloc (free_all freed (m_alloc s)) s)) true) /\
    concat frees = own_slots (h_ext e) (h_fields e) /\
    forall ps, (0 < ps)%nat -> sa_page_size args = ps -> row_paged ps (kv_allocated_len r) row ->
      pages_freed ps 0 (kv_allocated_len r) row (concat freed)) /\
  (disable (m_params s) = false -> consistent s lf lm L Hs -> Hs ≡ₚ y :: H' ->
    length tokens = cache_commit_len args r -> (length tokens ≤ length row)%nat ->
    Forall (fun t => 0 <= t < 2 ^ 32) tokens -> m_req_held s y r row tokens -> track_ok s (h_fields e) tokens c ->
    exists ex t' lf' lm' L' fs,
      m_release_kv_cache args is_insert e = (Ok tt, released t' ex) /\
      consistent t' lf' lm' L' H' /\ L ⊆ L' /\ m_keeps s L t' /\
      (forall w v, m_content s L w v -> m_content t' L' w v) /\
      (ins = true -> c ≠ O -> exists x v, x ∈ L' /\ m_spells t' x (take c (req_pages s r tokens)) v /\ ckpt_of t' x ≠ None) /\
      m_alloc t' = free_all (fs ++ overallocated args r row) (m_alloc s) /\
      (forall j, m_occ t' L' j + occ j (concat fs) = m_occ s L j + occ j (drop (cache_protected_len r) kv)) /\
      (forall j, m_ckocc t' L' j + occ j (ms_slots (m_pool t')) =
        m_ckocc s L j + occ j (ms_slots (m_pool s)) + occ j (own_slots (h_ext e) (h_fields e))) /\
      (sa_page_size args = psz s -> row_paged (psz s) (kv_allocated_len r) row ->
        pages_freed (psz s) ((c * psz s) `max` cache_protected_len r) (kv_allocated_len r) row
          (concat (fs ++ overallocated args r row)))) /\
  let e0 := MkMEnv (MkEnv s (pool (h_env e)) (set_pool_idx None r)) (h_ext e) (h_fields e) in
  m_release_kv_cache args is_insert e0 =
    (Ok tt, MkMEnv (MkEnv (mu_pool (ms_free [z] (m_pool s)) s) (pool (h_env e)) (set_pool_idx None r)) (h_ext e)
      (f_set_idx None (h_fields e))).
Proof.
  intros s r tokens kv ins released Hok Hfr Hfo Hidx Hrow Hho Hover. split_and!.
  - intros Hdis. destruct (m_cache_finished_disabled e row i z ins Hdis Hok Hfr Hidx Hrow Hho) as (frees & Hrun & Hok1 & Hown).
    exists frees. split_and!; [exact (m_release_finish e row i is_insert _ true Hrun Hok1 Hfo Hidx Hrow Hover)|exact Hown|].
    intros ps Hps Eps Hpaged. pose proof (rest_freed args ps 0 r row Hps Eps (Nat.le_0_l _) (Nat.Div0.mod_0_l _) Hpaged) as Hx.
    by rewrite drop_0 in Hx.
  - intros Hdis Hcs Hperm Hlt Hlen Hfit Hheld Htr.
    destruct (m_cache_finished_req_run e lf lm L Hs H' y row c i z ins Hcs Hperm Hok Hdis Hfr Hidx Hrow Hlt Hlen Hfit Hheld Hho Htr)
      as (ex & t1 & lf1 & lm1 & L1 & fs & Hrun & Hcs1 & Hok1 & HL & Hk & Hc & Hn & Hal & Htl & Hocc & Hck).
    exists ex, (mu_alloc (free_all (overallocated args r row) (m_alloc t1)) t1), lf1, lm1, L1, fs. split_and!; try done.
    + by apply (m_release_finish e row i is_insert t1 ex).
    + by apply consistent_alloc.
    + simpl. by rewrite free_all_app, Hal.
    + intros Eps Hpaged. rewrite concat_app. apply (pages_freed_mono _ _ _ _ (drop ((c * psz s) `max` cache_protected_len r) kv ++ concat (overallocated args r row)));
        [set_solver|].
      destruct Hheld as [_ (m & Hcp & Hm & _)]. destruct Htr as [_ Hc']. unfold kv. rewrite Hlt in *.
      apply rest_freed; [exact (minv_ps (cs_inv _ _ _ _ _ Hcs))|exact Eps|lia| |exact Hpaged].
      rewrite Hcp, Nat.mul_max_distr_r. apply Nat.Div0.mod_mul.
  - unfold m_release_kv_cache, the_req. erewrite bind_ok by reflexivity. cbv beta. cbn [h_env req req_pool_idx set_pool_idx].
    erewrite bind_ok by reflexivity. cbv beta. cbn [h_fields]. rewrite (ho_slot _ _ _ _ _ Hho).
    by rewrite (bind_ok _ _ _ _ _ (mamba_free_run _ _)).
Qed.
End facts.
