(* ===== verification/MambaReqCache.v ===== *)
(** * The prefix cache of hybrid models: caching a running request

    Runs of [cache_unfinished_req]: the request gives a checkpoint to the tree
    and gets a new slot in its place (or a copy of its running state is made),
    its tokens are inserted, and it holds the node of its new prefix instead
    of the old one.  Slots of both kinds are conserved, and the checkpoint has
    the state of the request. *)

From S2P Require Import Prelude PyDict RadixKey KvEvents RadixTree RadixOps RadixInv RadixMoves.
From S2P Require Import RadixState RadixLocks RadixRun RadixEvents RadixInsert RadixSpec RadixEvict RadixLockOps.
From S2P Require Import RadixTotal RadixSlots RadixReq RadixReqFacts MambaTree MambaOps LruFacts MambaView MambaRules.
From S2P Require Import MambaInv MambaRun MambaHold MambaShrink MambaEvict MambaInsert MambaMatch MambaSpec MambaLaws.
From S2P Require Import MambaReq MambaReqFacts.

(** The states in the slots of the pool: only [copy_from] writes one, to the
    slot it is told to.  [ms_valid] are the slots that exist. *)
Class MambaStates (P St : Type) `{MambaSlots P} `{!MambaSlotsLaws P} := {
  ms_state : P -> Z -> St;
  ms_valid : P -> Z -> Prop;
  ms_alloc_state n p : ms_state (ms_alloc n p).2 = ms_state p /\ ms_valid (ms_alloc n p).2 = ms_valid p;
  ms_free_state l p : ms_state (ms_free l p) = ms_state p /\ ms_valid (ms_free l p) = ms_valid p;
  ms_copy_state i j p : ms_valid p i -> ms_valid p j -> exists p', ms_copy [i] [j] p = (Ok tt, p') /\
    ms_slots p' = ms_slots p /\ ms_state p' j = ms_state p i /\
    forall k, ms_valid p k -> ms_valid p' k /\ (k ≠ j -> ms_state p' k = ms_state p k)
}.


Section cache.
Context {A P St : Type} `{KvFree A} `{!KvFreeTotal A} `{MambaSlots P} `{!MambaSlotsLaws P} `{!MambaStates P St}.
Context `{Sha256} `{!Sha256Laws}.
Implicit Types (s : MambaRadixCache A P) (L : gset nat) (x y : nat) (Hs : list nat) (r : Req) (f : MambaFields).
Implicit Types (e : MReqEnv A P) (ext : HybridExt).
Abbreviation psz s := (page_size (m_params s)).

(** *** The checkpoint given to the tree *)

Lemma pool_free_all_state mvs (p : P) : ms_state (pool_free_all mvs p) = ms_state p /\ ms_valid (pool_free_all mvs p) = ms_valid p.
Proof.
  revert p. induction mvs as [|mv mvs IH]; intros p; [done|]. unfold pool_free_all in *. simpl.
  destruct (IH (ms_free mv p)) as [-> ->]. apply ms_free_state.
Qed.

(** Every slot of the cache, of the free list and of the request ([own]) exists. *)
Definition slots_valid s L (own : list Z) : Prop :=
  forall j, 0 < m_ckocc s L j + occ j (ms_slots (m_pool s)) + occ j own -> ms_valid (m_pool s) j.

Lemma m_ckocc_nonneg s L j : 0 <= m_ckocc s L j.
Proof. apply set_sum_nonneg; intros x _; unfold ck_occ; repeat case_match; try lia; apply occ_nonneg. Qed.

(** What [donate] does on the cache: some checkpoint may have been evicted, the
    slot [n] was taken, and [d] is the slot to give away. *)
Record m_donated s lf L Hs ext f (i : nat) z s' (lm' : list nat) L' ext' f' (d : Z) (vs : list (list Z)) : Prop := MDonated {
  dn_consistent : consistent s' (filter (fun y => y ∈ L') lf) lm' L' Hs;
  dn_live : L' ⊆ L;
  dn_keeps : m_keeps s L' s';
  dn_content w v : m_content s' L' w v -> m_content s L w v;
  dn_held y : y ∈ Hs -> y ∈ L' /\ ckpt_of s' y = ckpt_of s y;
  dn_alloc : m_alloc s' = free_all vs (m_alloc s) /\ alloc_ok (m_alloc s');
  dn_occ j : m_occ s' L' j + occ j (concat vs) = m_occ s L j;
  dn_slots j : m_ckocc s' L' j + occ j (ms_slots (m_pool s')) + occ j (own_slots ext' f') + occ j [d] =
    m_ckocc s L j + occ j (ms_slots (m_pool s)) + occ j (own_slots ext f);
  dn_ok : hybrid_ok s' ext' f' i z;
  dn_track : mamba_last_track_seqlen f' = mamba_last_track_seqlen f;
  dn_valid k : ms_valid (m_pool s) k -> ms_valid (m_pool s') k;
  dn_state : ms_state (m_pool s') z = ms_state (m_pool s) z /\
    (if enable_mamba_extra_buffer s then ms_state (m_pool s') = ms_state (m_pool s) /\ exists k, tracked ext f k d
     else ms_state (m_pool s') d = ms_state (m_pool s) z)
}.

(** Nothing is evicted from a cache without evictable checkpoints. *)
Lemma nothing_to_evict s lf lm L Hs s1 lm1 L1 vs mvs :
  consistent s lf lm L Hs -> m_evicted s lf L Hs s1 lm1 L1 vs mvs -> ms_slots (m_pool s) = [] ->
  mamba_evictable_size s = 0 -> ms_slots (m_pool s1) = [].
Proof.
  intros Hcs Hev Hs0 He. rewrite (me_pool _ _ _ _ _ _ _ _ _ Hev), pool_free_all_slots, Hs0. simpl.
  destruct (me_mamba _ _ _ _ _ _ _ _ _ Hev) as [Hm _].
  destruct (consistent_sizes _ _ _ _ _ (me_consistent _ _ _ _ _ _ _ _ _ Hev)) as (_ & _ & Hnn & _).
  assert (sumZ len mvs <= 0) as Hsum by lia. clear -Hsum.
  induction mvs as [|mv mvs IH]; [done|]. simpl in *.
  assert (0 <= sumZ len mvs) by (apply sumZ_nonneg; intros ? _; unfold len; lia).
  destruct mv as [|]; [by apply IH; unfold len in *; simpl in *; lia|unfold len in *; simpl in *; lia].
Qed.

Lemma donated_of s lf lm L Hs s1 lm1 L1 vs mvs p' ext f ext' f' i z d :
  consistent s lf lm L Hs -> m_evicted s lf L Hs s1 lm1 L1 vs mvs -> alloc_ok (m_alloc s1) -> hybrid_ok s ext' f' i z ->
  (forall j, occ j (ms_slots p') + occ j (own_slots ext' f') + occ j [d] =
    occ j (ms_slots (m_pool s1)) + occ j (own_slots ext f)) ->
  mamba_last_track_seqlen f' = mamba_last_track_seqlen f -> ms_state p' z = ms_state (m_pool s) z ->
  (if enable_mamba_extra_buffer s then ms_state p' = ms_state (m_pool s) /\ exists k, tracked ext f k d
   else ms_state p' d = ms_state (m_pool s) z) ->
  (forall k, ms_valid (m_pool s) k -> ms_valid p' k) ->
  m_donated s lf L Hs ext f i z (mu_pool p' s1) lm1 L1 ext' f' d vs.
Proof.
  intros Hcs Hev Hok1 Hho Hslots Ht Hz Hst Hvk. destruct Hev as [E1 E2 E3 E4 E5 E6 E7 E8 E9 E10 E11] eqn:Eev. clear Eev.
  split; try done.
  - by apply consistent_pool.
  - intros y Hy. by destruct (evicted_held _ _ _ _ _ _ _ _ _ _ Hcs Hev y Hy) as (? & ? & _).
  - intros j. specialize (Hslots j). rewrite E7, pool_free_all_slots, occ_app in Hslots. rewrite <-(E11 j).
    change (m_ckocc (mu_pool p' s1) L1 j) with (m_ckocc s1 L1 j). simpl. lia.
  - eapply hybrid_ok_keeps; [exact Hho|exact E3].
Qed.

Lemma donate_run e lf lm L Hs i z :
  let s := tree (h_env e) in
  let ext := h_ext e in
  let f := h_fields e in
  consistent s lf lm L Hs -> alloc_ok (m_alloc s) -> disable (m_params s) = false -> hybrid_ok s ext f i z ->
  slots_valid s L (own_slots ext f) ->
  if decide (ms_slots (m_pool s) = [] /\ mamba_evictable_size s = 0) then
    exists s1 lm1 L1 vs mvs, m_evicted s lf L Hs s1 lm1 L1 vs mvs /\
      donate (enable_mamba_extra_buffer s) i e = (Raise (Exn AssertionError "Can not alloc mamba cache"), with_tree s1 e)
  else exists s' lm' L' ext' f' d vs,
    donate (enable_mamba_extra_buffer s) i e = (Ok [d], MkMEnv (MkEnv s' (pool (h_env e)) (req (h_env e))) ext' f') /\
    m_donated s lf L Hs ext f i z s' lm' L' ext' f' d vs.
Proof.
  intros s ext f Hcs Hok Hdis Hho Hval.
  assert (ms_valid (m_pool s) z) as Hz.
  { apply Hval. unfold own_slots. rewrite (ho_slot _ _ _ _ _ Hho), occ_app. simpl.
    assert (0 < occ z [z]) by (apply occ_elem; left). pose proof (m_ckocc_nonneg s L z).
    match goal with |- 0 < _ + ?a + (_ + ?b) => assert (0 <= a /\ 0 <= b) by (split; apply occ_nonneg); lia end. }
  destruct (alloc_mamba_slot_run s lf lm L Hs Hcs Hok Hdis) as (s1 & lm1 & L1 & vs & mvs & Hev & Hok1 & _ & Hal).
  pose proof (nothing_to_evict s lf lm L Hs s1 lm1 L1 vs mvs Hcs Hev) as Hno.
  pose proof (me_keeps _ _ _ _ _ _ _ _ _ Hev) as Hk. pose proof (me_pool _ _ _ _ _ _ _ _ _ Hev) as Hp1.
  destruct (pool_free_all_state mvs (m_pool s)) as [Est Eva]. rewrite <-Hp1 in Est, Eva.
  assert (forall j, m_ckocc s1 L1 j + occ j (ms_slots (m_pool s1)) = m_ckocc s L j + occ j (ms_slots (m_pool s))) as Hslots.
  { intros j. rewrite Hp1, pool_free_all_slots, occ_app, <-(me_ckocc _ _ _ _ _ _ _ _ _ Hev j). lia. }
  destruct (ms_slots (m_pool s1)) as [|n free] eqn:E1.
  - destruct Hal as (Hr & Hs0 & He). rewrite decide_True by done. exists s1, lm1, L1, vs, mvs. split; [done|].
    unfold donate. destruct (enable_mamba_extra_buffer s) eqn:Hex.
    + destruct (tracked_parts _ _ _ _ _ Hho Hex) as (buf & k & j & d & others & _ & Ht & _).
      rewrite (bind_ok _ _ _ _ _ (tracked_run e k d Ht)). cbv beta iota. by rewrite (bind_raise _ _ _ _ _ (on_cache_run _ e _ _ Hr)).
    + by rewrite (bind_raise _ _ _ _ _ (on_cache_run _ e _ _ Hr)).
  - destruct Hal as (p' & Hr & Hf & Hall). rewrite decide_False by (by intros [Hs0 He]; specialize (Hno Hs0 He)).
    destruct (ms_alloc_state 1 (m_pool s1)) as [Est' Eva']. rewrite Hall in Est', Eva'. simpl in Est', Eva'.
    assert (ms_valid p' n) as Hn.
    { rewrite Eva', Eva. apply Hval. rewrite <-Hslots. assert (0 < occ n (n :: free)) by (apply occ_elem; left).
      pose proof (m_ckocc_nonneg s1 L1 n). pose proof (occ_nonneg n (own_slots ext f)). lia. }
    unfold donate. destruct (enable_mamba_extra_buffer s) eqn:Hex.
    + destruct (tracked_parts _ _ _ _ _ Hho Hex) as (buf & k & j & d & others & Hb & Ht & Hm & Hj & Hbj & Hlen & Hk01 & Hcase & Hocc & Hocc').
      rewrite (bind_ok _ _ _ _ _ (tracked_run e k d Ht)). cbv beta iota.
      rewrite (bind_ok _ _ _ _ _ (on_cache_run _ e _ _ Hr)). cbv beta iota. unfold upd_fields.
      erewrite bind_ok by reflexivity. cbv beta. erewrite bind_ok by reflexivity. cbv beta.
      unfold track_row. rewrite bind_assoc. erewrite bind_ok by reflexivity. cbv beta. cbn [h_ext h_fields with_tree]. fold ext f.
      rewrite Hm, Hb. cbn [fmap option_fmap option_map]. rewrite Hj. erewrite bind_ok by reflexivity. cbv beta.
      unfold upd_ext. erewrite bind_ok by reflexivity. cbn [h_env h_ext h_fields with_tree f_set_buffer mamba_ping_pong_track_buffer].
      do 7 eexists. split; [reflexivity|]. apply (donated_of s lf lm L Hs s1 lm1 L1 vs mvs); try done.
      * destruct Hho as [O1 O2 O3 O4]. split; try done. intros _. destruct (O4 Hex) as (buf0 & m & B1 & B2 & B3 & B4 & B5).
        exists (<[j := n]> buf), m. cbn. rewrite length_insert. split_and!; [done|done| |done|done].
        apply list_lookup_insert_eq. by apply lookup_lt_Some in Hm.
      * intros l. pose proof (ho_extra _ _ _ _ _ Hho) as Hx. fold ext in Hx. unfold own_slots. cbn. rewrite Hx, Hex, Hb. cbn.
        rewrite ?occ_app, Hocc', Hocc, Hf, E1. change (n :: free) with ([n] ++ free). rewrite occ_app. lia.
      * by rewrite Est', Est.
      * rewrite Hex. split; [by rewrite Est', Est|by exists k].
      * intros l. by rewrite Eva', Eva.
    + rewrite (bind_ok _ _ _ _ _ (on_cache_run _ e _ _ Hr)). cbv beta. unfold own_slot. rewrite bind_assoc.
      erewrite bind_ok by reflexivity. cbv beta. cbn [h_fields with_tree]. rewrite (ho_slot _ _ _ _ _ Hho : mamba_pool_idx (h_fields e) = Some z).
      erewrite bind_ok by reflexivity. cbv beta.
      destruct (ms_copy_state z n p') as (p'' & Hcp & Hsl & Hst & Hoth); [by rewrite Eva', Eva|done|].
      rewrite (bind_ok _ _ _ (with_tree (mu_pool p'' s1) e) tt); cycle 1.
      { refine (on_cache_run _ (with_tree (mu_pool p' s1) e) _ (mu_pool p'' s1) _).
        unfold mamba_copy, zoom. cbn [with_tree h_env tree mu_pool m_pool]. by rewrite Hcp. }
      do 7 eexists. split; [reflexivity|]. apply (donated_of s lf lm L Hs s1 lm1 L1 vs mvs); try done.
      * intros l. rewrite Hsl, Hf, E1. change (n :: free) with ([n] ++ free). rewrite occ_app. unfold ext, f. lia.
      * destruct (decide (z = n)) as [<-|Hne]; [by rewrite Hst, Est', Est|].
        destruct (Hoth z) as [_ Ho]; [by rewrite Eva', Eva|]. by rewrite (Ho Hne), Est', Est.
      * rewrite Hex. by rewrite Hst, Est', Est.
      * intros l Hl. apply Hoth. by rewrite Eva', Eva.
Qed.

(** *** The tokens are inserted and looked up again *)

Context (mamba_cache_chunk_size : nat).

(** The lookup of a key that ends in a node with a checkpoint. *)
Lemma m_rematch s lf lm L Hs k x v :
  consistent s lf lm L Hs -> disable (m_params s) = false -> aligned (psz s) k -> key_len k ≠ O ->
  x ∈ L -> m_spells s x (pages (psz s) k) v -> ckpt_of s x ≠ None ->
  exists b j s' lf' lm' L', m_match_prefix mamba_cache_chunk_size k None s = (Ok (MkMMatch v x b None), s') /\
    looked_up s L Hs (pages (psz s) k) x (length (pages (psz s) k)) j v s' lf' lm' L'.
Proof.
  intros Hcs Hdis Ha Hz Hx Hsp Hk.
  destruct (m_match_run mamba_cache_chunk_size s lf lm L Hs k Hcs Hdis (or_introl Ha) Hz) as
    (x' & n & j & v' & s' & lf' & lm' & L' & Hr & Hlu). set (w := pages (psz s) k) in *.
  pose proof (lu_deepest _ _ _ _ _ _ _ _ _ _ _ _ Hlu x w v Hx Hk Hsp ltac:(done)) as Hn.
  destruct (lu_node _ _ _ _ _ _ _ _ _ _ _ _ Hlu) as (Hx' & Hnj & Hsp').
  destruct (lu_longest _ _ _ _ _ _ _ _ _ _ _ _ Hlu) as (vf & Hj & _).
  assert (n = length w) as -> by lia. rewrite firstn_all in Hsp'.
  pose proof (lu_consistent _ _ _ _ _ _ _ _ _ _ _ _ Hlu) as Hcs'.
  destruct (lu_keeps _ _ _ _ _ _ _ _ _ _ _ _ Hlu) as (Ep & Er & _ & Hkeep).
  destruct (Hkeep x w v Hx Hsp) as [l Hl]. destruct Hsp' as [l' Hl'].
  assert (x = x' /\ v = v') as [<- <-].
  { eapply (up_unique (psz s') (m_root s')); [exact (minv_shape (cs_inv _ _ _ _ _ Hcs'))| |exact Hx'|exact Hl|exact Hl'].
    by apply (lu_live _ _ _ _ _ _ _ _ _ _ _ _ Hlu). }
  by eexists _, j, s', lf', lm', L'.
Qed.

(** *** The new prefix is held *)

Lemma m_same_trans s1 L s2 s3 : m_same s1 L s2 -> m_same s2 L s3 -> m_same s1 L s3.
Proof.
  intros [A1 A2 A3 A4 A5 A6 A7] [B1 B2 B3 B4 B5 B6 B7]. split; try congruence.
  - by eapply m_keeps_trans.
  - intros w v. by rewrite B3.
Qed.

Lemma m_rehold_run e lf lm L Hs H' y x i row new :
  let s := tree (h_env e) in
  let r := req (h_env e) in
  consistent s lf lm L Hs -> disable (m_params s) = false -> Hs ≡ₚ y :: H' -> x ∈ L -> ckpt_of s x ≠ None ->
  req_to_token (pool (h_env e)) !! i = Some row -> last_node r = Some y ->
  (cache_protected_len r ≤ length new)%nat -> (length new ≤ length (fill_ids r))%nat -> (length (fill_ids r) ≤ length row)%nat ->
  take (cache_protected_len r) row = take (cache_protected_len r) new -> Forall int32_range new ->
  let row' := new ++ drop (length new) row in
  exists t', m_rehold i r new x e = (Ok tt, MkMEnv (MkEnv t' (with_row i row' (pool (h_env e)))
      (set_cached (take (length (fill_ids r)) row') (length new) (Some x) r)) (h_ext e) (f_set_track None (h_fields e))) /\
    consistent t' lf lm L (x :: H') /\ m_same s L t'.
Proof.
  intros s r Hcs Hdis Hperm Hx Hk Hrow Hy Hcp Hnt Htr Htake Hfit row'.
  destruct (m_release_run s lf lm L Hs H' y Hcs Hdis Hperm) as (t1 & Hr1 & Hcs1 & Hs1).
  assert (disable (m_params t1) = false) as Hd1 by (by destruct (sa_keeps _ _ _ Hs1) as (-> & _)).
  destruct (m_acquire_run t1 lf lm L H' x Hcs1 Hd1 Hx) as (t2 & Hr2 & Hcs2 & Hs2);
    [right; by rewrite (sa_ckpts _ _ _ Hs1)|].
  exists t2. split; [|split; [done|by eapply m_same_trans]].
  set (e1 := MkMEnv (MkEnv s (with_row i row' (pool (h_env e))) r) (h_ext e) (h_fields e)).
  unfold m_rehold. rewrite (bind_ok _ _ e e1 tt); cycle 1.
  { apply on_env_run. rewrite (write_row_run (h_env e) i (cache_protected_len r) (length new) (drop (cache_protected_len r) new) row)
      by (done || lia || (by rewrite length_drop) || (by apply Forall_drop)).
    unfold row'. by rewrite spliced. }
  cbv beta. rewrite Hy. rewrite (bind_ok _ _ _ _ _ (on_cache_run _ e1 _ _ Hr1)). cbv beta.
  rewrite (bind_ok _ _ _ _ _ (on_cache_run _ (with_tree t1 e1) _ _ Hr2)). cbv beta.
  assert (req_to_token (with_row i row' (pool (h_env e))) !! i = Some row') as Hrow'
    by (simpl; rewrite list_lookup_insert_eq; [done|by eapply lookup_lt_Some]).
  rewrite (bind_ok _ _ _ _ _ (on_env_run _ (with_tree t2 (with_tree t1 e1)) _ _ (row_run (MkEnv t2 _ r) i row' Hrow'))). cbv beta.
  erewrite bind_ok by reflexivity. cbv beta. unfold upd_fields, modify. do 3 f_equal.
  cbn [req with_tree h_env e1]. f_equal. unfold row'. rewrite skipn_firstn_comm, skipn_app, drop_ge, Nat.sub_diag by lia. simpl.
  rewrite drop_0, take_app_ge by lia. done.
Qed.

(** *** The tokens are stored *)

Definition m_indices_fit s L : Prop := forall w v, m_content s L w v -> Forall int32_range v.

(** [t'] after the first [c] pages were stored under the checkpoint [d] (or
    under the one that was there, [ex]): [x] is their node, [new] its slots. *)
Record m_recached s L t' L' (W : list child_key_t) (c : nat) (ex : bool) (d : Z) x (new : list Z) (fs : list (list Z))
    (own : list Z) : Prop := MRecached {
  rc_live : L ⊆ L';
  rc_keeps : m_keeps s L t';
  rc_content w v : m_content s L w v -> m_content t' L' w v;
  rc_only w v : m_content t' L' w v -> m_content s L w v \/ w `prefix_of` take c W;
  rc_fit : m_indices_fit t' L';
  rc_node : x ∈ L' /\ m_spells t' x (take c W) new;
  rc_ckpt : if ex then x ∈ L /\ ckpt_of s x ≠ None /\ ckpt_of t' x = ckpt_of s x 
    else (x ∈ L -> ckpt_of s x = None) /\ ckpt_of t' x = Some [d];
  rc_others y : y ∈ L -> y ≠ x -> ckpt_of t' y = ckpt_of s y;
  rc_alloc : m_alloc t' = free_all fs (m_alloc s) /\ alloc_ok (m_alloc t');
  rc_pool : m_pool t' = if ex then ms_free [d] (m_pool s) else m_pool s;
  rc_occ j : m_occ t' L' j + occ j (concat fs) = m_occ s L j + occ j own;
  rc_ckocc j : m_ckocc t' L' j = m_ckocc s L j + if ex then 0 else occ j [d]
}.

Lemma rc_has_ckpt s L t' L' W c ex d x new fs own : m_recached s L t' L' W c ex d x new fs own -> ckpt_of t' x ≠ None.
Proof. intros Hrc. pose proof (rc_ckpt _ _ _ _ _ _ _ _ _ _ _ _ Hrc) as Hk. destruct ex; [by destruct Hk as (_ & Hk & ->)|by destruct Hk as [_ ->]]. Qed.

Lemma store_unfinished_run e lf lm L Hs y row tokens (c : nat) d :
  let s := tree (h_env e) in
  let r := req (h_env e) in
  consistent s lf lm L Hs -> alloc_ok (m_alloc s) -> disable (m_params s) = false -> y ∈ L ->
  m_req_held s y r row tokens -> (c * psz s ≤ length tokens)%nat -> (length tokens ≤ length row)%nat -> c ≠ O ->
  (cache_protected_len r ≤ c * psz s)%nat -> Forall (fun t => 0 <= t < 2 ^ 32) tokens ->
  Forall int32_range row -> m_indices_fit s L ->
  exists ex x new t' lf' lm' L' fs,
    store_unfinished mamba_cache_chunk_size r (psz s) (req_key r (take (c * psz s) tokens)) (take (c * psz s) row) [d] e =
      (Ok (new, x), with_tree t' e) /\
    consistent t' lf' lm' L' Hs /\ length new = (c * psz s)%nat /\ Forall int32_range new /\
    take (cache_protected_len r) row = take (cache_protected_len r) new /\
    m_recached s L t' L' (req_pages s r tokens) c ex d x new fs (drop (cache_protected_len r) (take (c * psz s) row)).
Proof.
  intros s r Hcs Hok Hdis Hy Hheld Hc Hrow Hc0 Hcp Hfit Hrfit Hsfit.
  destruct (m_cache_tokens s lf lm L Hs y r row tokens c [d] Hcs Hok Hdis Hy Hheld Hc Hrow Hc0 eq_refl Hfit) as
    (n & ex & vs & fs & x & s1 & lf1 & lm1 & L1 & Hr1 & Hi & Hok1 & Hw & Hlw & Hnc & Hvs & Hcov).
  destruct Hi as [I1 I2 I3 I4 I5 [I6 I6'] I7 I8 I9 [I10 Efs] I11 I12 I13 I14 I15].
  set (k := req_key r (take (c * psz s) tokens)) in *. set (w := take c (req_pages s r tokens)) in *.
  set (v := take (c * psz s) row) in *. set (new := vs ++ drop (n * psz s) v) in *.
  assert (length v = (c * psz s)%nat) as Hlv by (unfold v; rewrite length_take; lia).
  assert (n * psz s ≤ c * psz s)%nat as Hn by (by apply Nat.mul_le_mono_r).
  assert (length new = (c * psz s)%nat) as Hnew by (unfold new; rewrite length_app, length_drop; lia).
  assert (Forall int32_range new) as Hnfit.
  { apply Forall_app. split; [by eapply Hsfit, I4|by apply Forall_drop, Forall_take]. }
  set (s2 := mu_pool (if ex then ms_free [d] (m_pool s1) else m_pool s1) s1).
  assert (m_params s1 = m_params s) as Ep by apply I3. assert (m_params s2 = m_params s) as Ep2 by exact Ep.
  assert (key_len k = (c * psz s)%nat) as Hkl by (unfold k; rewrite req_key_len, length_take; lia).
  assert (0 < psz s)%nat as Hps by exact (minv_ps (cs_inv _ _ _ _ _ Hcs)).
  assert (ckpt_of s1 x ≠ None) as Hk1 by (destruct ex; [by destruct I7 as (_ & Hx & ->)|by destruct I7 as [_ ->]]).
  destruct (m_rematch s2 lf1 lm1 L1 Hs k x new) as (b & j & t' & lf' & lm' & L' & Hr2 & Hlu);
    [by apply consistent_pool|by rewrite Ep2|rewrite Ep2; by exists c|rewrite Hkl; nia|exact I6| |exact Hk1|].
  { rewrite Ep2, Hw. exact I6'. }
  rewrite Ep2, Hw, Hlw in Hlu. destruct Hlu as [U1 [U2 [U3 U4]] U5 U6 U7 U8 U9 U10 U11 U12 U13 U14 [U15 U16] U17 U18].
  destruct (U11 x I6) as [Hkx _]. change (ckpt_of s2 x) with (ckpt_of s1 x) in Hkx.
  exists ex, x, new, t', lf', lm', L', fs. split_and!; try done.
  - unfold store_unfinished. rewrite (bind_ok _ _ _ _ _ (on_cache_run _ e _ _ Hr1)). cbv beta iota.
    rewrite (bind_ok _ _ _ (with_tree s2 e) tt); cycle 1.
    { unfold s2. destruct ex; [by rewrite mamba_free_run|by destruct s1]. }
    cbv beta. rewrite (bind_ok _ _ _ _ _ (on_cache_run _ (with_tree s2 e) _ _ Hr2)). cbv beta zeta.
    cbn [mm_indices mm_last]. rewrite (bind_ok _ _ _ (with_tree t' e) tt); cycle 1.
    { destruct ex; [done|]. destruct I7 as [_ Hd]. rewrite Hd in Hkx. unfold ckpt_of in Hkx.
      apply bind_Some in Hkx as (nx & Hnx & Hmv).
      erewrite bind_ok by (apply on_cache_run; by apply mnode_at_eq). cbv beta. rewrite Hmv.
      erewrite bind_ok by (apply on_cache_run; reflexivity). cbv beta. unfold assert_. by rewrite bool_decide_eq_true_2. }
    cbv beta. unfold assert_. rewrite (bool_decide_eq_true_2 (cache_protected_len r <= _)%nat) by lia.
    erewrite bind_ok by reflexivity. cbv beta. rewrite bool_decide_eq_true_2 by lia. by erewrite bind_ok by reflexivity.
  - destruct Hcov as [[Hcn Ht]|[-> Hcc]]; [|lia]. unfold new. by rewrite take_app_le by lia.
  - split; try done.
    + by etransitivity.
    + eapply m_keeps_trans; [exact I3|exact I2|exact U9].
    + intros w' v' Hc'. apply U10, I5. by left.
    + intros w' v' Hc'. apply U10 in Hc'. destruct (proj1 (I5 _ _) Hc') as [Hl|(Hp & _)]; [by left|by right].
    + intros w' v' Hc'. apply U10 in Hc'. destruct (proj1 (I5 _ _) Hc') as [Hl|(_ & _ & ->)]; [by eapply Hsfit|by apply Forall_take].
    + split; [done|]. by rewrite firstn_all2 in U4 by lia.
    + destruct ex; [|by rewrite Hkx; apply I7]. destruct I7 as (Q1 & Q2 & Q3). split_and!; [done|done|congruence].
    + intros y' Hy' Hne. destruct (U11 y' (I2 _ Hy')) as [-> _]. by apply I8.
    + by rewrite U15.
    + rewrite U16. unfold s2. simpl. by rewrite I11.
    + intros l. rewrite U17. change (m_occ s2 L1 l) with (m_occ s1 L1 l). rewrite I14, Efs.
      rewrite (occ_split l (cache_protected_len r) (n * psz s) v). destruct Hcov as [[Hcn _]|[-> Hcc]]; [|lia].
      rewrite Nat.max_l by done. lia.
    + intros l. rewrite U18. exact (I15 l).
Qed.

(** *** The whole entry point *)

Lemma m_req_held_keeps s L s' y r row tokens :
  m_req_held s y r row tokens -> m_keeps s L s' -> y ∈ L -> m_req_held s' y r row tokens.
Proof.
  intros [Hn (m & Hm & Hl & Hsp)] (Ep & _ & _ & Hk) Hy. split; [done|]. exists m. unfold req_pages. rewrite Ep.
  split_and!; [done|done|by apply Hk].
Qed.

(** The request was cached up to [c] pages and goes on: [t'], [x], [row'],
    [ext'] and [f'] are the new tree, node, row and states; [fs] was freed;
    [d] is the checkpoint it gave away, in use unless there was one ([ex]). *)
Record m_requeued e L (H' : list nat) (i c : nat) z (row : list Z) t' L' x (row' : list Z) ext' f' (fs : list (list Z)) (ex : bool) d : Prop := MRequeued {
  rq_held : let r := req (h_env e) in
    m_req_held t' x (set_cached (take (length (fill_ids r)) row') (c * psz (tree (h_env e))) (Some x) r) row' (fill_ids r);
  rq_row : length row' = length row /\ drop (c * psz (tree (h_env e))) row' = drop (c * psz (tree (h_env e))) row;
  rq_hybrid : hybrid_ok t' ext' f' i z /\ mamba_last_track_seqlen f' = None;
  rq_fit : m_indices_fit t' L' /\ alloc_ok (m_alloc t') /\ slots_valid t' L' (own_slots ext' f');
  rq_only w v : m_content t' L' w v -> m_content (tree (h_env e)) L w v \/
    w `prefix_of` take c (req_pages (tree (h_env e)) (req (h_env e)) (fill_ids (req (h_env e))));
  rq_others y : y ∈ H' -> ckpt_of (tree (h_env e)) y ≠ None -> ckpt_of t' y = ckpt_of (tree (h_env e)) y;
  rq_ckpt : ckpt_of t' x ≠ None /\ (ex = false -> ckpt_of t' x = Some [d]);
  rq_state : ms_state (m_pool t') z = ms_state (m_pool (tree (h_env e))) z /\
    (if enable_mamba_extra_buffer (tree (h_env e))
     then ms_state (m_pool t') d = ms_state (m_pool (tree (h_env e))) d /\ exists k, tracked (h_ext e) (h_fields e) k d
     else ms_state (m_pool t') d = ms_state (m_pool (tree (h_env e))) z);
  rq_freed : m_alloc t' = free_all fs (m_alloc (tree (h_env e)));
  rq_occ j : m_occ t' L' j + occ j (concat fs) =
    m_occ (tree (h_env e)) L j + occ j (drop (cache_protected_len (req (h_env e))) (take (c * psz (tree (h_env e))) row));
  rq_slots j : m_ckocc t' L' j + occ j (ms_slots (m_pool t')) + occ j (own_slots ext' f') =
    m_ckocc (tree (h_env e)) L j + occ j (ms_slots (m_pool (tree (h_env e)))) + occ j (own_slots (h_ext e) (h_fields e))
}.

(** Storing after the donation. *)
Lemma requeued_of e lf L Hs (H' : list nat) (i c : nat) z row s1 lm1 L1 ext1 f1 d vs t L2 ex x new fs t' :
  let s := tree (h_env e) in
  let r := req (h_env e) in
  let row' := new ++ drop (length new) row in
  (forall y, y ∈ H' -> y ∈ Hs) -> (length new ≤ length row)%nat ->
  m_donated s lf L Hs (h_ext e) (h_fields e) i z s1 lm1 L1 ext1 f1 d vs ->
  m_recached s1 L1 t L2 (req_pages s r (fill_ids r)) c ex d x new fs (drop (cache_protected_len r) (take (c * psz s) row)) ->
  length new = (c * psz s)%nat -> (c * psz s ≤ length (fill_ids r))%nat -> m_same t L2 t' ->
  slots_valid s L (own_slots (h_ext e) (h_fields e)) ->
  m_requeued e L H' i c z row t' L2 x row' ext1 (f_set_track None f1) (vs ++ fs) ex d.
Proof.
  intros s r row' HH Hnr Hdn Hrc Hnew Hc Hsame Hval.
  pose proof (rc_has_ckpt _ _ _ _ _ _ _ _ _ _ _ _ Hrc) as Hkx.
  destruct Hdn as [D1 D2 D3 D4 D5 [D6 D6'] D7 D8 D9 D10 D11 [D12 D13]].
  destruct Hrc as [R1 R2 R3 R4 R5 [R6 R6'] R7 R8 [R9 R9'] R10 R11 R12]. destruct Hsame as [S1 S2 S3 S4 S5 S6 S7].
  assert (m_params t' = m_params s) as Ep.
  { destruct D3 as (E1 & _), R2 as (E2 & _), S1 as (E3 & _). congruence. }
  assert (ms_state (m_pool t') = ms_state (m_pool s1) /\ ms_valid (m_pool t') = ms_valid (m_pool s1)) as [Est Eva].
  { rewrite S5, R10. destruct ex; [apply ms_free_state|done]. }
  assert (forall j, m_ckocc t' L2 j + occ j (ms_slots (m_pool t')) + occ j (own_slots ext1 f1) =
    m_ckocc s L j + occ j (ms_slots (m_pool s)) + occ j (own_slots (h_ext e) (h_fields e))) as Hslots.
  { intros j. rewrite S7, R12, S5, R10, <-D8. destruct ex; [rewrite (ms_free_slots [d] (m_pool s1)), occ_app|]; lia. }
  split.
  - split; [done|]. exists c. simpl. unfold req_pages. rewrite Ep. split_and!; [done|done|].
    unfold row'. fold s. rewrite <-Hnew, take_app_length. by apply S1.
  - unfold row'. fold s. rewrite length_app, length_drop, <-Hnew, drop_app_length. split; [lia|done].
  - split; [|done]. destruct (hybrid_ok_keeps _ _ _ _ _ _ _ (hybrid_ok_keeps _ _ _ _ _ _ _ D9 R2) S1). by split.
  - split_and!; [|by rewrite S4|].
    + intros w v Hw. by eapply R5, S3.
    + intros j Hj. rewrite Eva. apply D11, Hval. rewrite <-Hslots. exact Hj.
  - intros w v Hw. apply S3 in Hw. destruct (R4 w v Hw) as [Hl|Hp]; [left; by apply D4|by right].
  - intros y Hy Hk. destruct (D5 y (HH y Hy)) as [Hy1 Ey]. rewrite S2. fold s in Ey, Hk |- *. destruct (decide (y = x)) as [->|Hne].
    + destruct ex; [destruct R7 as (_ & _ & ->); done|]. destruct R7 as [R7 _]. specialize (R7 Hy1). congruence.
    + by rewrite (R8 y Hy1 Hne).
  - rewrite S2. split; [done|]. intros ->. apply R7.
  - rewrite Est. fold s. split; [done|]. destruct (enable_mamba_extra_buffer s); [|done]. by destruct D13 as [-> ?].
  - by rewrite S4, R9, D6, free_all_app.
  - intros j. rewrite S6, concat_app, occ_app. specialize (R11 j). specialize (D7 j). fold s r. lia.
  - exact Hslots.
Qed.

Lemma unfinished_start e (c i : nat) row :
  let s := tree (h_env e) in
  let r := req (h_env e) in
  disable (m_params s) = false -> req_pool_idx r = Some i -> req_to_token (pool (h_env e)) !! i = Some row ->
  (length (fill_ids r) ≤ length row)%nat -> track_ok s (h_fields e) (fill_ids r) c -> (c * psz s)%nat ≠ O ->
  m_cache_unfinished_req mamba_cache_chunk_size e =
    (mamba_value_donated ← donate (enable_mamba_extra_buffer s) i;
     '(new_indices, new_last_node) ← store_unfinished mamba_cache_chunk_size r (psz s)
       (req_key r (take (c * psz s) (fill_ids r))) (take (c * psz s) row) mamba_value_donated;
     m_rehold i r new_indices new_last_node) e.
Proof.
  intros s r Hdis Hidx Hrow Hlen [Htl Hc] Hc0. unfold m_cache_unfinished_req, the_req, the_cache.
  do 3 (erewrite bind_ok by reflexivity; cbv beta). fold s r. rewrite Hdis. cbv zeta.
  assert ((if enable_mamba_extra_buffer s then mamba_last_track_seqlen (h_fields e) else Some (length (fill_ids r))) =
    Some (c * psz s)%nat) as ->.
  { unfold tracked_len in Htl. destruct (enable_mamba_extra_buffer s); [|by rewrite Htl].
    destruct (mamba_last_track_seqlen (h_fields e)); simpl in Htl; [by rewrite Htl|lia]. }
  cbv iota. erewrite bind_ok by (apply on_env_run, row_index_run; exact Hidx). cbv beta.
  erewrite bind_ok by (apply on_env_run, row_run; exact Hrow). cbv beta.
  rewrite take_take, Nat.min_l by lia. rewrite length_take, Nat.min_l by lia. rewrite page_floor_mul.
  unfold assert_. rewrite bool_decide_eq_true_2 by done. erewrite bind_ok by reflexivity. cbv beta.
  rewrite take_take, Nat.min_id. by destruct e as [[] ? ?].
Qed.

(** C5: [cache_unfinished_req] with this cache, on a request whose checkpoint
    covers [c] whole pages of its tokens.  It fails only when the Mamba pool is
    full and no checkpoint can be evicted; then nothing but evictions has
    happened.  Otherwise it never raises (the lookup finds the donated
    checkpoint again, and the new prefix is at least as long as the old one).
    The tree, the request and the freed duplicates share out exactly the KV
    slots they had, the tree, the request and the free list exactly the Mamba
    slots; the running state of the request is unchanged and the checkpoint
    has the state of the ping-pong slot, or a copy of the running state; the
    request holds the node of its [c] pages instead of the old one, with its
    row, its buffer and its attributes ready for the next call.  Without a
    checkpoint only [prefix_indices] is set. *)
Theorem m_cache_unfinished_req_spec e lf lm L Hs H' y row (c i : nat) z :
  let s := tree (h_env e) in
  let r := req (h_env e) in
  let f := h_fields e in
  let tokens := fill_ids r in
  consistent s lf lm L Hs -> Hs ≡ₚ y :: H' -> alloc_ok (m_alloc s) -> disable (m_params s) = false ->
  req_pool_idx r = Some i -> req_to_token (pool (h_env e)) !! i = Some row -> (length tokens ≤ length row)%nat ->
  Forall (fun t => 0 <= t < 2 ^ 32) tokens -> Forall int32_range row -> m_indices_fit s L ->
  m_req_held s y r row tokens -> hybrid_ok s (h_ext e) f i z -> slots_valid s L (own_slots (h_ext e) f) ->
  track_ok s f tokens c -> c ≠ O -> (cache_protected_len r ≤ c * psz s)%nat ->
  (if decide (ms_slots (m_pool s) = [] /\ mamba_evictable_size s = 0) then
     exists s1 lm1 L1 vs mvs, m_evicted s lf L Hs s1 lm1 L1 vs mvs /\
       m_cache_unfinished_req mamba_cache_chunk_size e =
         (Raise (Exn AssertionError "Can not alloc mamba cache"), with_tree s1 e)
   else exists t' lf' lm' L' x row' ext' f' fs ex d,
     m_cache_unfinished_req mamba_cache_chunk_size e =
       (Ok tt, MkMEnv (MkEnv t' (with_row i row' (pool (h_env e)))
         (set_cached (take (length tokens) row') (c * psz s) (Some x) r)) ext' f') /\
     consistent t' lf' lm' L' (x :: H') /\ m_requeued e L H' i c z row t' L' x row' ext' f' fs ex d) /\
  (enable_mamba_extra_buffer s = true -> let f0 := f_set_track None f in
   m_cache_unfinished_req mamba_cache_chunk_size (MkMEnv (h_env e) (h_ext e) f0) =
     (Ok tt, MkMEnv (MkEnv s (pool (h_env e))
       (set_cached (take (length tokens) row) (cache_protected_len r) (last_node r) r)) (h_ext e) f0)).
Proof.
  intros s r f tokens Hcs Hperm Hok Hdis Hidx Hrow Hlen Hfit Hrfit Hsfit Hheld Hho Hval [Htl Hc] Hc0 Hcp. split; cycle 1.
  { intros Hex f0. unfold m_cache_unfinished_req, the_req, the_cache. do 3 (erewrite bind_ok by reflexivity; cbv beta).
    cbn [h_env h_fields]. fold s. rewrite Hdis, Hex. cbn [mamba_last_track_seqlen f_set_track f0].
    unfold skip_cache_unfinished_req, the_req. erewrite bind_ok by reflexivity. cbv beta.
    erewrite bind_ok by (apply on_env_run, row_index_run; exact Hidx). cbv beta.
    erewrite bind_ok by (apply on_env_run, row_run; exact Hrow). cbv beta. done. }
  assert (y ∈ Hs) as HyH by (rewrite Hperm; left).
  assert (0 < psz s)%nat as Hps by exact (minv_ps (cs_inv _ _ _ _ _ Hcs)).
  assert ((c * psz s)%nat ≠ O) as Hcz by nia.
  rewrite (unfinished_start e c i row Hdis Hidx Hrow Hlen (conj Htl Hc) Hcz). fold s r tokens.
  pose proof (donate_run e lf lm L Hs i z Hcs Hok Hdis Hho Hval) as Hdon. fold s in Hdon.
  destruct (decide (ms_slots (m_pool s) = [] /\ mamba_evictable_size s = 0)) as [Hfull|Hroom].
  { destruct Hdon as (s1 & lm1 & L1 & vs & mvs & Hev & Hr). exists s1, lm1, L1, vs, mvs. split; [done|].
    by rewrite (bind_raise _ _ _ _ _ Hr). }
  destruct Hdon as (s1 & lm1 & L1 & ext1 & f1 & d & vs & Hr1 & Hdn).
  destruct (dn_held _ _ _ _ _ _ _ _ _ _ _ _ _ _ _ Hdn y HyH) as [Hy1 _].
  pose proof (dn_keeps _ _ _ _ _ _ _ _ _ _ _ _ _ _ _ Hdn) as Hk1. assert (m_params s1 = m_params s) as Ep1 by apply Hk1.
  pose proof (m_req_held_keeps _ _ _ _ _ _ _ Hheld Hk1 Hy1) as Hheld1.
  set (e1 := MkMEnv (MkEnv s1 (pool (h_env e)) r) ext1 f1) in *.
  destruct (store_unfinished_run e1 _ lm1 L1 Hs y row tokens c d (dn_consistent _ _ _ _ _ _ _ _ _ _ _ _ _ _ _ Hdn)
    (proj2 (dn_alloc _ _ _ _ _ _ _ _ _ _ _ _ _ _ _ Hdn))) as (ex & x & new & t & lf2 & lm2 & L2 & fs & Hr2 & Hcs2 & Hnew & Hnfit & Htake & Hrc);
    cbn [e1 h_env tree req]; rewrite ?Ep1; try done.
  { intros w v Hw. eapply Hsfit, (dn_content _ _ _ _ _ _ _ _ _ _ _ _ _ _ _ Hdn), Hw. }
  cbn [e1 h_env tree req] in Hr2, Hnew, Hrc. unfold req_pages in Hrc. rewrite Ep1 in Hr2, Hnew, Hrc.
  assert (disable (m_params t) = false) as Hdt by (destruct (rc_keeps _ _ _ _ _ _ _ _ _ _ _ _ Hrc) as (-> & _); by rewrite Ep1).
  destruct (m_rehold_run (with_tree t e1) lf2 lm2 L2 Hs H' y x i row new Hcs2 Hdt Hperm) as (t' & Hr3 & Hcs' & Hsame); try done;
    [apply (rc_node _ _ _ _ _ _ _ _ _ _ _ _ Hrc)|by eapply rc_has_ckpt|exact (hd_node _ _ _ _ _ Hheld)|cbn; fold r tokens; lia..|].
  do 11 eexists. split; [|split; [exact Hcs'|]].
  - rewrite (bind_ok _ _ _ _ _ Hr1). cbv beta. rewrite (bind_ok _ _ _ _ _ Hr2). cbv beta iota. rewrite <-Hnew. exact Hr3.
  - apply (requeued_of e lf L Hs H' i c z row s1 lm1 L1 ext1 f1 d vs t L2 ex x new fs t'); try done; [|fold s tokens; lia].
    intros y' Hy'. rewrite Hperm. by right.
Qed.
End cache.
