(* ===== verification/MambaPoolCopy.v ===== *)
(** * The pool of recurrent states: copies

    [MambaPool] implements the interface of MambaReqCache.v: allocating and
    freeing slots touches no state, and [copy_from] of one slot to another
    gives the target the state of the source and changes nothing else. *)

From S2P Require Import Prelude PyDict Torch Metadata MambaPool MambaTree MambaMatch MambaDemo MambaReqCache.

Section copy.
Context {T : Type} `{Torch T} `{!TorchLaws T}.
Implicit Types (p : MambaPool T) (t : T) (i j k : Z).

(** The state of the request in slot [i]. *)
Definition pool_state p i : list T * T :=
  ((fun t => select_slot t i) <$> pool_conv p, select_slot (pool_temporal p) i).

(** The slots of a tensor have one shape. *)
Definition uniform t : Prop :=
  forall j k, 0 <= j < num_slots t -> 0 <= k < num_slots t -> shape (select_slot t j) = shape (select_slot t k).

Definition slot_exists p i : Prop :=
  pool_wf p /\ Forall uniform (pool_conv p) /\ uniform (pool_temporal p) /\ 1 <= i <= pool_size p.

Definition copy_slot i j t : T := store_slot t j (select_slot t i).

Lemma write_conv_copy i j n m p :
  length (pool_conv p) = (m + n)%nat ->
  write_conv [j] (fun _ t => Ok (gather [i] t)) m n p =
    (Ok tt, set_cache (take m (pool_conv p) ++ (copy_slot i j <$> drop m (pool_conv p))) (pool_temporal p) p).
Proof.
  revert m p. induction n as [|n IH]; intros m p Hlen; simpl.
  - rewrite drop_ge, firstn_all2 by lia. simpl. rewrite app_nil_r. by destruct p.
  - destruct (lookup_lt_is_Some_2 (pool_conv p) m) as [t Ht]; [lia|]. rewrite Ht. simpl.
    rewrite IH by (simpl; rewrite length_insert; lia). unfold set_cache. cbn [pool_conv pool_temporal pool_size free_slots].
    rewrite (drop_S _ t m Ht), drop_insert_lt by lia. change (store_slot t j (select_slot t i)) with (copy_slot i j t).
    rewrite (take_S_r _ m (copy_slot i j t)) by (apply list_lookup_insert_eq; lia).
    rewrite take_insert_ge by lia. by rewrite <-app_assoc.
Qed.

Lemma copy_from_one i j p :
  copy_from [i] [j] p = (Ok tt, set_cache (copy_slot i j <$> pool_conv p) (copy_slot i j (pool_temporal p)) p).
Proof.
  unfold copy_from. erewrite bind_ok by (by apply write_conv_copy). cbv beta.
  rewrite take_0, drop_0. done.
Qed.

Lemma copy_slot_same i j t n :
  num_slots t = n -> uniform t -> 0 <= i < n -> 0 <= j < n ->
  num_slots (copy_slot i j t) = n /\ uniform (copy_slot i j t) /\ select_slot (copy_slot i j t) j = select_slot t i /\
  forall k, 0 <= k -> k ≠ j -> select_slot (copy_slot i j t) k = select_slot t k.
Proof.
  intros Hn Hu Hi Hj. assert (shape (select_slot t i) = shape (select_slot t j)) as Hs by (apply Hu; lia).
  unfold copy_slot. split_and!.
  - by rewrite slots_store.
  - intros k l. rewrite slots_store, !shape_store by done. apply Hu.
  - apply select_store_eq; [lia|done|apply dtype_select].
  - intros k Hk Hne. apply select_store_ne; lia || done.
Qed.

Lemma copy_from_state i j p :
  slot_exists p i -> slot_exists p j -> exists p', copy_from [i] [j] p = (Ok tt, p') /\
    free_slots p' = free_slots p /\ pool_state p' j = pool_state p i /\
    forall k, slot_exists p k -> slot_exists p' k /\ (k ≠ j -> pool_state p' k = pool_state p k).
Proof.
  intros ([W1 W2] & U1 & U2 & Hi) (_ & _ & _ & Hj). eexists. split; [apply copy_from_one|]. split; [done|].
  assert (forall t, t ∈ pool_conv p -> num_slots (copy_slot i j t) = pool_size p + 1 /\ uniform (copy_slot i j t) /\
    select_slot (copy_slot i j t) j = select_slot t i /\
    forall k, 0 <= k -> k ≠ j -> select_slot (copy_slot i j t) k = select_slot t k) as Hc.
  { intros t Ht. apply copy_slot_same; [by eapply (proj1 (Forall_forall _ _) W1)|by eapply (proj1 (Forall_forall _ _) U1)|lia..]. }
  destruct (copy_slot_same i j (pool_temporal p) (pool_size p + 1)) as (N1 & N2 & N3 & N4); [done..|lia|lia|].
  assert (forall k k', (forall t, t ∈ pool_conv p -> select_slot (copy_slot i j t) k = select_slot t k') ->
    (fun t => select_slot t k) <$> (copy_slot i j <$> pool_conv p) = (fun t => select_slot t k') <$> pool_conv p) as Hmap.
  { intros k k' Hk. rewrite <-list_fmap_compose. apply list_fmap_ext. intros l t Ht. simpl. by eapply Hk, list_elem_of_lookup_2. }
  split.
  - unfold pool_state. simpl. rewrite N3. f_equal. apply Hmap. intros t Ht. by apply Hc.
  - intros k (_ & _ & _ & Hk). split; [split_and!; [split|..]|]; simpl; try done; try lia.
    + apply Forall_fmap, Forall_forall. intros t Ht. by apply Hc.
    + apply Forall_fmap, Forall_forall. intros t Ht. by apply Hc.
    + intros Hne. unfold pool_state. simpl. rewrite N4 by lia. f_equal. apply Hmap. intros t Ht. apply Hc; [done|lia|done].
Qed.

#[export] Instance mamba_pool_states : MambaStates (MambaPool T) (list T * T).
Proof.
  refine {| ms_state := pool_state; ms_valid := slot_exists |}.
  - intros n p. simpl. unfold MambaPool.alloc. by case_bool_decide.
  - intros l p. simpl. unfold MambaPool.free. by case_bool_decide.
  - intros i j p. apply copy_from_state.
Defined.
End copy.
