(* ===== verification/MambaReqAlloc.v ===== *)
(** * The prefix cache of hybrid models: requests enter a batch

    What a request needs before its forward pass: a row of the table and its
    slots of the Mamba pool ([HybridReqToTokenPool.alloc] of
    mem_cache/memory_pool.py, called by [alloc_req_slots] of
    mem_cache/common.py, which makes room in the prefix cache first), and the
    slot into which the forward pass writes the next checkpoint
    ([_mamba_radix_cache_v2_req_prepare_for_extend] of
    managers/schedule_batch.py before a prefill, [_mamba_prefix_cache_update]
    of managers/scheduler_components/batch_result_processor.py after a decode
    step).

    The requests of a batch are part of the state: [alloc] changes them one
    after the other and may raise on the way. *)

From S2P Require Import Prelude PyDict RadixKey KvEvents RadixTree RadixReq MambaTree MambaOps MambaReq.

(** One iteration over the requests of a batch. *)
Fixpoint for_range {St} (n i : nat) (body : nat -> M St unit) : M St unit :=
  match n with
  | O => mret tt
  | S n' => body i ≫= fun _ => for_range n' (S i) body
  end.

(** [MAMBA_STATE_PER_REQ_PREFIX_CACHE] *)
Definition MAMBA_STATE_PER_REQ_PREFIX_CACHE : Z := 3.

Abbreviation MReq := (Req * MambaFields)%type.

Record BatchEnv (A P : Type) := MkBatch {
  b_tree : MambaRadixCache A P;
  b_pool : ReqToTokenPool;
  b_ext : HybridExt;
  b_reqs : list MReq
}.
Arguments MkBatch {A P}.
Arguments b_tree {A P}.
Arguments b_pool {A P}.
Arguments b_ext {A P}.
Arguments b_reqs {A P}.

Section alloc.
Context {A P : Type} `{KvFree A} `{MambaSlots P} `{Sha256}.
Abbreviation cache := (MambaRadixCache A P).
Abbreviation MB := (M (BatchEnv A P)).
Implicit Types b : BatchEnv A P.

Definition b_on_tree {B} (m : M cache B) : MB B :=
  zoom b_tree (fun t b => MkBatch t (b_pool b) (b_ext b) (b_reqs b)) m.
Definition b_set_reqs l : MB unit := modify (fun b : BatchEnv A P => MkBatch (b_tree b) (b_pool b) (b_ext b) l).
Definition b_set_ext x : MB unit := modify (fun b : BatchEnv A P => MkBatch (b_tree b) (b_pool b) x (b_reqs b)).

Definition b_fields (i : nat) : MB MambaFields :=
  l ← gets b_reqs;
  match l !! i with
  | Some q => mret q.2
  | None => raise IndexError "list index out of range"
  end.

Definition b_upd (i : nat) (g : MambaFields -> MambaFields) : MB unit :=
  l ← gets b_reqs;
  b_set_reqs (alter (fun q : MReq => (q.1, g q.2)) i l).

(** One iteration of the loop of [HybridReqToTokenPool.alloc]. *)
Definition alloc_states (i : nat) : MB unit :=
  f ← b_fields i;
  (match mamba_pool_idx f with
   | Some _ => mret tt
   | None =>
       mid ← b_on_tree (mamba_alloc 1);
       match mid with
       | None => raise AssertionError "Not enough space for mamba cache"
       | Some [] => raise IndexError "index 0 is out of bounds for dimension 0 with size 0"
       | Some (m :: _) => b_upd i (fun f => f_set_clear true (f_set_idx (Some m) f))
       end
   end) ≫= fun _ =>
  x ← gets b_ext;
  if hp_extra_buffer x then
    match mamba_ping_pong_track_buffer f with
    | Some _ => mret tt
    | None =>
        buf ← b_on_tree (mamba_alloc (track_buffer_size x));
        match buf with
        | None => raise AssertionError "Not enough space for mamba ping pong idx"
        | Some buf => b_upd i (fun f => f_set_next (Some 0) (f_set_buffer (Some buf) f))
        end
    end
  else mret tt.

(** [mapping[select_index] = values] *)
Definition scatter_rows {B} (rows : list nat) (values mapping : list B) : list B :=
  foldl (fun m iv => <[iv.1 := iv.2]> m) mapping (zip rows values).

(** The end of [HybridReqToTokenPool.alloc], which writes the two mappings.
    The buffers have the size of the rows of their mapping. *)
Definition write_mappings : MB bool :=
  b ← gets id;
  let x := b_ext b in
  let select_index := omap (fun q => req_pool_idx q.1) (b_reqs b) in
  let mamba_indices := omap (fun q => mamba_pool_idx q.2) (b_reqs b) in
  let buffers := if hp_extra_buffer x then omap (fun q => mamba_ping_pong_track_buffer q.2) (b_reqs b) else [] in
  if decide (length select_index ≠ length mamba_indices) then
    raise AssertionError "Not enough space for mamba cache"
  else if decide (hp_extra_buffer x = true /\ length select_index ≠ length buffers) then
    raise AssertionError "Not enough space for mamba ping pong idx"
  else if decide (mamba_indices = []) then raise RuntimeError "stack expects a non-empty TensorList"
  else
    b_set_ext (MkHExt (track_buffer_size x) (hp_extra_buffer x)
      (scatter_rows select_index (to_int32 <$> mamba_indices) (mamba_index_mapping x)) (track_buffer_mapping x)) ≫= fun _ =>
    if hp_extra_buffer x then
      if decide (Exists (fun buf => length buf ≠ track_buffer_size x) buffers) then
        raise RuntimeError "stack expects each tensor to be equal size"
      else
        b_set_ext (MkHExt (track_buffer_size x) (hp_extra_buffer x)
          (scatter_rows select_index (to_int32 <$> mamba_indices) (mamba_index_mapping x))
          (scatter_rows select_index buffers (track_buffer_mapping x))) ≫= fun _ =>
        mret true
    else mret true.

(** [HybridReqToTokenPool.alloc]: [false] stands for [None], not enough rows. *)
Definition hybrid_alloc : MB bool :=
  b ← gets id;
  match pool_alloc (b_reqs b).*1 (b_pool b) with
  | (Raise e, _) => fun b => (Raise e, b)
  | (Ok None, _) => mret false
  | (Ok (Some reqs), p) =>
      modify (fun b : BatchEnv A P => MkBatch (b_tree b) p (b_ext b) (zip reqs (b_reqs b).*2)) ≫= fun _ =>
      for_range (length reqs) 0 alloc_states ≫= fun _ =>
      write_mappings
  end.

(** [alloc_req_slots] with this cache *)
Definition m_alloc_req_slots : MB unit :=
  b ← gets id;
  let mamba_available_size := ms_available (m_pool (b_tree b)) in
  let mamba_state_needed := len (b_reqs b) * MAMBA_STATE_PER_REQ_PREFIX_CACHE in
  (if decide (mamba_available_size < mamba_state_needed) then
     b_on_tree (m_evict 0 (Z.max 0 (mamba_state_needed - mamba_available_size))) ≫= fun _ => mret tt
   else mret tt) ≫= fun _ =>
  ok ← hybrid_alloc;
  if (ok : bool) then mret tt else raise RuntimeError "alloc_req_slots runs out of memory.".

(** [HybridReqToTokenPool.get_mamba_indices] *)
Definition get_mamba_indices (x : HybridExt) (req_indices : list nat) : list Z :=
  omap (mamba_index_mapping x !!.) req_indices.
End alloc.

(** ** The next checkpoint *)

Record TrackEntry := MkTrack { track_mask : bool; track_index : Z; track_seqlen : Z }.

Section track.
Context (FLA_CHUNK_SIZE mamba_cache_chunk_size : nat).

Definition force_track_h (i : Z) : res Z :=
  if decide (i mod Z.of_nat FLA_CHUNK_SIZE = 0) then Ok (i + 1) else Raise (Exn AssertionError "").

(** [_mamba_radix_cache_v2_req_prepare_for_extend]; [branching] is
    [req.mamba_branching_seqlen] *)
Definition prepare_for_extend (x : HybridExt) (prefix_len extend_input_len : nat) (branching : option Z) :
    M MambaFields TrackEntry :=
  f ← gets id;
  match mamba_ping_pong_track_buffer f, mamba_next_track_idx f with
  | Some buf, Some next =>
      match at_index buf next ≫= (buf !!.) with
      | None => raise IndexError "index is out of bounds for dimension 0"
      | Some track_index =>
          if decide (mamba_cache_chunk_size ≤ extend_input_len)%nat then
            let p := Z.of_nat prefix_len in
            let aligned := p + Z.of_nat (extend_input_len / mamba_cache_chunk_size * mamba_cache_chunk_size) in
            let fla_aligned := p + Z.of_nat (extend_input_len / FLA_CHUNK_SIZE * FLA_CHUNK_SIZE) in
            seqlen ← lift_res (if decide (fla_aligned = aligned) then Ok (p + Z.of_nat extend_input_len)
                               else force_track_h aligned);
            modify (f_set_next (Some (get_mamba_ping_pong_other_idx x next))) ≫= fun _ =>
            '(seqlen, aligned) ←
              match branching with
              | Some br =>
                  if decide (p < br < seqlen /\ (br - p) mod Z.of_nat mamba_cache_chunk_size = 0)
                  then s ← lift_res (force_track_h br); mret (s, br) else mret (seqlen, aligned)
              | None => mret (seqlen, aligned)
              end;
            modify (f_set_track (Some (Z.to_nat aligned))) ≫= fun _ =>
            mret (MkTrack true track_index seqlen)
          else mret (MkTrack false track_index (-1))
      end
  | _, _ => raise TypeError "'NoneType' object is not subscriptable"
  end.

(** [get_mamba_ping_pong_other_idx] of an attribute that may be unset. *)
Definition other_idx (x : HybridExt) (next : option Z) : res (option Z) :=
  match next with
  | Some n => Ok (Some (get_mamba_ping_pong_other_idx x n))
  | None => if decide (track_buffer_size x = 2%nat)
            then Raise (Exn TypeError "unsupported operand type(s) for -: 'int' and 'NoneType'") else Ok None
  end.

(** The checkpoint just written becomes the last one. *)
Definition flip_track (x : HybridExt) (seqlen : Z) : M MambaFields unit :=
  f ← gets id;
  n ← lift_res (other_idx x (mamba_next_track_idx f));
  modify (f_set_next n) ≫= fun _ =>
  modify (f_set_track (Some (Z.to_nat seqlen))).

(** [_mamba_prefix_cache_update] after a decode step of request [r]; with
    speculative decoding, [num_correct] drafts were accepted *)
Definition mamba_prefix_cache_update (mamba_track_interval : Z) (x : HybridExt) (r : Req) (speculative : bool)
    (num_correct : option Z) : M MambaFields unit :=
  f ← gets id;
  let seq_len := len (origin_input_ids r) + len (output_ids r) - 1 in
  match mamba_ping_pong_track_buffer f with
  | None => mret tt
  | Some _ =>
      if speculative then
        match num_correct with
        | Some k =>
            if decide (mamba_track_interval = 0) then raise ZeroDivisionError "integer division or modulo by zero"
            else if decide (seq_len / mamba_track_interval ≠ (seq_len - k - 1) / mamba_track_interval) then
              flip_track x (seq_len / mamba_track_interval * mamba_track_interval)
            else mret tt
        | None => mret tt
        end
      else if decide (mamba_track_interval = 0) then raise ZeroDivisionError "integer modulo by zero"
      else if decide (seq_len mod mamba_track_interval = 0) then flip_track x seq_len
      else mret tt
  end.
End track.
