(* ===== verification/MambaReqAllocFacts.v ===== *)
(** * The prefix cache of hybrid models: requests enter a batch, facts

    [alloc_req_slots] gives every request of a batch a row and its slots of
    the Mamba pool, evicting checkpoints when the pool is short: three slots
    per request are always enough.  The forward pass writes the checkpoint of
    a request to the slot that the cache takes afterwards. *)

From S2P Require Import Prelude PyDict RadixKey KvEvents RadixTree RadixOps RadixInv RadixMoves.
From S2P Require Import RadixState RadixLocks RadixRun RadixEvents RadixInsert RadixSpec RadixEvict RadixLockOps.
From S2P Require Import RadixTotal RadixSlots RadixReq RadixReqFacts MambaTree MambaOps LruFacts MambaView MambaRules.
From S2P Require Import MambaInv MambaRun MambaHold MambaShrink MambaEvict MambaInsert MambaMatch MambaSpec MambaLaws.
From S2P Require Import MambaReq MambaReqFacts MambaReqAlloc.

(** ** Rows *)

Section rows.
Implicit Types (r : Req) (reqs : list Req).

(** [r'] is [r] with a row: its old one, or a new one. *)
Definition has_got_row r r' : Prop :=
  exists i, r' = set_pool_idx (Some i) r /\ (req_pool_idx r = Some i \/ req_pool_idx r = None).

Lemma assign_rows_spec reqs sel :
  length sel = (length reqs - length (List.filter has_row reqs))%nat ->
  Forall2 has_got_row reqs (assign_rows reqs sel) /\
  omap req_pool_idx (assign_rows reqs sel) ≡ₚ omap req_pool_idx reqs ++ sel.
Proof.
  revert sel. induction reqs as [|r reqs IH]; intros sel Hlen; simpl in *.
  - by destruct sel.
  - assert (length (List.filter has_row reqs) ≤ length reqs)%nat as Hle.
    { clear. induction reqs as [|a l IH]; simpl; [lia|]. destruct (has_row a); simpl; lia. }
    unfold has_row at 1 in Hlen. destruct (req_pool_idx r) as [i|] eqn:Hi; simpl in Hlen.
    + destruct (IH sel) as [H1 H2]; [lia|]. simpl. rewrite Hi. split; [|simpl; by rewrite H2].
      constructor; [|done]. exists i. split; [|by left]. destruct r. simpl in *. by subst.
    + destruct sel as [|j sel]; [simpl in Hlen; lia|]. destruct (IH sel) as [H1 H2]; [simpl in Hlen; lia|]. split.
      * constructor; [|done]. exists j. split; [done|by right].
      * simpl. rewrite H2. by rewrite Permutation_middle.
Qed.

Lemma scatter_rows_ne {B} rows (vals m : list B) j : j ∉ rows -> scatter_rows rows vals m !! j = m !! j.
Proof.
  unfold scatter_rows. revert vals m. induction rows as [|i rows IH]; intros vals m Hj; [done|].
  apply not_elem_of_cons in Hj as [Hne Hj]. destruct vals as [|v vals]; [done|]. simpl. rewrite IH by done.
  by rewrite list_lookup_insert_ne by congruence.
Qed.

Lemma scatter_rows_eq {B} rows (vals m : list B) k i v :
  NoDup rows -> Forall (fun i => (i < length m)%nat) rows -> rows !! k = Some i -> vals !! k = Some v ->
  scatter_rows rows vals m !! i = Some v.
Proof.
  revert vals m k. induction rows as [|j rows IH]; intros vals m k Hnd Hall Hk Hv; [done|].
  apply NoDup_cons in Hnd as [Hj Hnd]. apply Forall_cons in Hall as [Hjm Hall].
  destruct vals as [|w vals]; [done|]. destruct k as [|k]; simpl in Hk, Hv.
  - injection Hk as ->. injection Hv as ->.
    change (scatter_rows rows vals (<[i:=v]> m) !! i = Some v). rewrite scatter_rows_ne by done. by apply list_lookup_insert_eq.
  - change (scatter_rows rows vals (<[j:=w]> m) !! i = Some v). eapply IH; try done. by rewrite length_insert.
Qed.
End rows.

(** ** Slots *)

Section slots.
Context {A P : Type} `{KvFree A} `{!KvFreeTotal A} `{MambaSlots P} `{!MambaSlotsLaws P} `{Sha256} `{!Sha256Laws}.
Implicit Types (s : MambaRadixCache A P) (b : BatchEnv A P) (x : HybridExt) (f : MambaFields).
Abbreviation psz s := (page_size (m_params s)).

(** The slots a request has to get. *)
Definition slots_needed x f : nat :=
  ((match mamba_pool_idx f with Some _ => 0 | None => 1 end) +
   (if hp_extra_buffer x then match mamba_ping_pong_track_buffer f with Some _ => 0 | None => track_buffer_size x end else 0))%nat.

Definition track_idx_ok x (n : Z) : Prop :=
  track_buffer_size x = 2%nat /\ (n = 0 \/ n = 1) \/ track_buffer_size x = 1%nat /\ n = 0.

(** A buffer the request already has is as [alloc] makes it. *)
Definition buffer_ok x f : Prop :=
  (track_buffer_size x = 1 \/ track_buffer_size x = 2)%nat /\
  forall buf, mamba_ping_pong_track_buffer f = Some buf ->
    length buf = track_buffer_size x /\ exists n, mamba_next_track_idx f = Some n /\ track_idx_ok x n.

(** [f'] is [f] with the slots [taken]. *)
Record given x f (taken : list Z) f' : Prop := Given {
  gv_slot : exists z, mamba_pool_idx f' = Some z /\ match mamba_pool_idx f with
    | Some z0 => z = z0 /\ mamba_needs_clear f' = mamba_needs_clear f | None => mamba_needs_clear f' = true end;
  gv_buffer : hp_extra_buffer x = true -> exists buf n, mamba_ping_pong_track_buffer f' = Some buf /\
    length buf = track_buffer_size x /\ mamba_next_track_idx f' = Some n /\ track_idx_ok x n /\
    (mamba_ping_pong_track_buffer f ≠ None -> mamba_ping_pong_track_buffer f' = mamba_ping_pong_track_buffer f /\
      mamba_next_track_idx f' = mamba_next_track_idx f);
  gv_track : mamba_last_track_seqlen f' = mamba_last_track_seqlen f;
  gv_own : own_slots x f' ≡ₚ own_slots x f ++ taken
}.

Lemma b_alloc_run n b :
  (n ≤ length (ms_slots (m_pool (b_tree b))))%nat ->
  exists p', b_on_tree (mamba_alloc n) b =
    (Ok (Some (take n (ms_slots (m_pool (b_tree b))))), MkBatch (mu_pool p' (b_tree b)) (b_pool b) (b_ext b) (b_reqs b)) /\
    ms_slots p' = drop n (ms_slots (m_pool (b_tree b))).
Proof.
  intros Hn. destruct (ms_alloc_ok n _ Hn) as (p' & Ha & Hs). exists p'. split; [|done].
  unfold b_on_tree, zoom, mamba_alloc. by rewrite Ha.
Qed.

Lemma b_upd_run i g b r f :
  b_reqs b !! i = Some (r, f) -> b_upd i g b = (Ok tt, MkBatch (b_tree b) (b_pool b) (b_ext b) (<[i := (r, g f)]> (b_reqs b))).
Proof.
  intros Hi. unfold b_upd. erewrite bind_ok by reflexivity. unfold b_set_reqs, modify. do 3 f_equal.
  apply list_eq. intros j. destruct (decide (i = j)) as [<-|Hne].
  - rewrite list_lookup_alter_eq, Hi, list_lookup_insert_eq by (by eapply lookup_lt_Some). done.
  - by rewrite list_lookup_alter_ne, list_lookup_insert_ne.
Qed.

Lemma alloc_states_run i b r f :
  b_reqs b !! i = Some (r, f) -> buffer_ok (b_ext b) f ->
  (slots_needed (b_ext b) f ≤ length (ms_slots (m_pool (b_tree b))))%nat ->
  exists p' f' taken, alloc_states i b =
    (Ok tt, MkBatch (mu_pool p' (b_tree b)) (b_pool b) (b_ext b) (<[i := (r, f')]> (b_reqs b))) /\
    ms_slots (m_pool (b_tree b)) = taken ++ ms_slots p' /\ length taken = slots_needed (b_ext b) f /\ given (b_ext b) f taken f'.
Proof.
  intros Hi [Hsz Hbuf] Hn. unfold slots_needed in *. set (free := ms_slots (m_pool (b_tree b))) in *.
  assert (exists p1 f1 t1, (match mamba_pool_idx f with
     | Some _ => mret tt
     | None =>
         mid ← b_on_tree (mamba_alloc 1);
         match mid with
         | None => raise AssertionError "Not enough space for mamba cache"
         | Some [] => raise IndexError "index 0 is out of bounds for dimension 0 with size 0"
         | Some (m :: _) => b_upd i (fun f => f_set_clear true (f_set_idx (Some m) f))
         end
     end) b = (Ok tt, MkBatch (mu_pool p1 (b_tree b)) (b_pool b) (b_ext b) (<[i := (r, f1)]> (b_reqs b))) /\
     free = t1 ++ ms_slots p1 /\ length t1 = (match mamba_pool_idx f with Some _ => 0 | None => 1 end)%nat /\
     mamba_ping_pong_track_buffer f1 = mamba_ping_pong_track_buffer f /\ mamba_next_track_idx f1 = mamba_next_track_idx f /\
     mamba_last_track_seqlen f1 = mamba_last_track_seqlen f /\
     (exists z, mamba_pool_idx f1 = Some z /\ option_list (mamba_pool_idx f) ++ t1 = [z] /\ match mamba_pool_idx f with
        | Some z0 => z = z0 /\ mamba_needs_clear f1 = mamba_needs_clear f | None => mamba_needs_clear f1 = true end))
    as (p1 & f1 & t1 & Hr1 & Hf1 & Hl1 & Eb & En & Et & z & Hz & Ho1 & Hz').
  { destruct (mamba_pool_idx f) as [z|] eqn:Hz.
    - exists (m_pool (b_tree b)), f, []. rewrite list_insert_id by done. split; [by destruct b as [[] ? ? ?]|].
      split_and!; try done. by exists z.
    - destruct (b_alloc_run 1 b) as (p1 & Ha & Hs1); [unfold free in Hn; lia|]. fold free in Ha, Hs1.
      destruct free as [|m free'] eqn:Hfree; [simpl in Hn; lia|]. simpl in Ha, Hs1.
      exists p1. eexists. exists [m]. split_and!; [|by rewrite Hs1, drop_0|done|..].
      { rewrite (bind_ok _ _ _ _ _ Ha). cbv beta iota. by rewrite (b_upd_run i _ _ r f). }
      all: try done. by exists m. }
  unfold alloc_states. rewrite (bind_ok _ _ b b f); cycle 1.
  { unfold b_fields. erewrite bind_ok by reflexivity. by rewrite Hi. }
  cbv beta. rewrite (bind_ok _ _ _ _ _ Hr1). cbv beta. erewrite bind_ok by reflexivity. cbv beta. cbn [b_ext].
  destruct (hp_extra_buffer (b_ext b)) eqn:Hex; [destruct (mamba_ping_pong_track_buffer f) as [buf|] eqn:Hb|].
  - exists p1, f1, t1. split_and!; [done|done|lia|]. split.
    + by exists z.
    + intros _. destruct (Hbuf buf eq_refl) as (Hlb & n & Hnx & Hok). exists buf, n. rewrite Eb, Hb, En. split_and!; try done.
    + done.
    + unfold own_slots. rewrite Hz, Hex, Eb, Hb. cbn. rewrite <-Permutation_app_comm. rewrite app_assoc.
      rewrite (Permutation_app_comm t1), Ho1. done.
  - destruct (b_alloc_run (track_buffer_size (b_ext b)) (MkBatch (mu_pool p1 (b_tree b)) (b_pool b) (b_ext b) (<[i := (r, f1)]> (b_reqs b))))
      as (p2 & Ha & Hs2); cbn [b_tree m_pool mu_pool b_ext] in *.
    { rewrite Hf1, length_app in Hn. lia. }
    rewrite (bind_ok _ _ _ _ _ Ha). cbv beta iota. set (buf := take _ _).
    exists p2. eexists. exists (t1 ++ buf). split_and!.
    + rewrite (b_upd_run i _ _ r f1); [|cbn; apply list_lookup_insert_eq; by eapply lookup_lt_Some].
      cbn [b_tree b_pool b_ext b_reqs]. by rewrite list_insert_insert_eq.
    + rewrite Hf1. rewrite <-app_assoc. f_equal. unfold buf. rewrite Hs2. by rewrite take_drop.
    + unfold buf. rewrite length_app, length_take. rewrite Hf1, length_app in Hn. lia.
    + split.
      * exists z. by destruct (mamba_pool_idx f).
      * intros _. exists buf, 0. cbn. split_and!; try done; [|by destruct Hsz; [right|left; split; [|left]]].
        unfold buf. rewrite length_take. rewrite Hf1, length_app in Hn. lia.
      * done.
      * unfold own_slots. cbn. rewrite Hz, Hex, Hb. cbn. rewrite app_nil_r, app_assoc, Ho1. done.
  - exists p1, f1, t1. split_and!; [done|done|lia|]. split; try done.
    + by exists z.
    + by rewrite Hex.
    + unfold own_slots. rewrite Hz, Hex, !app_nil_r, Ho1. done.
Qed.

(** *** The loop *)

Definition owned x (l : list (Req * MambaFields)) : list Z := mjoin (own_slots x <$> l.*2).

Definition total_needed x (l : list (Req * MambaFields)) : nat := sum_list (slots_needed x <$> l.*2).

(** The request is the same and has its slots. *)
Definition provided x (q q' : Req * MambaFields) : Prop := q'.1 = q.1 /\ exists taken, given x q.2 taken q'.2.

Lemma states_loop todo : forall b done_,
  b_reqs b = done_ ++ todo -> Forall (fun q => buffer_ok (b_ext b) q.2) todo ->
  (total_needed (b_ext b) todo ≤ length (ms_slots (m_pool (b_tree b))))%nat ->
  exists p' todo' taken, for_range (length todo) (length done_) alloc_states b =
    (Ok tt, MkBatch (mu_pool p' (b_tree b)) (b_pool b) (b_ext b) (done_ ++ todo')) /\
    ms_slots (m_pool (b_tree b)) = taken ++ ms_slots p' /\ Forall2 (provided (b_ext b)) todo todo' /\
    owned (b_ext b) todo' ≡ₚ owned (b_ext b) todo ++ taken.
Proof.
  induction todo as [|[r f] todo IH]; intros b done_ Hb Hok Hn.
  - exists (m_pool (b_tree b)), [], []. split_and!; try done. simpl. rewrite <-Hb. by destruct b as [[] ? ? ?].
  - apply Forall_cons in Hok as [Hok1 Hok].
    change (slots_needed (b_ext b) f + total_needed (b_ext b) todo ≤ length (ms_slots (m_pool (b_tree b))))%nat in Hn.
    destruct (alloc_states_run (length done_) b r f) as (p1 & f1 & t1 & Hr1 & Hf1 & Hl1 & Hg1); [|done|lia|].
    { rewrite Hb. by apply list_lookup_middle. }
    destruct (IH (MkBatch (mu_pool p1 (b_tree b)) (b_pool b) (b_ext b) (<[length done_ := (r, f1)]> (b_reqs b))) (done_ ++ [(r, f1)]))
      as (p2 & todo2 & t2 & Hr2 & Hf2 & Hp2 & Ho2); cbn [b_reqs b_ext b_tree mu_pool m_pool] in *.
    + rewrite Hb, insert_app_r_alt, Nat.sub_diag by lia. simpl. by rewrite <-app_assoc.
    + done.
    + rewrite Hf1, length_app in Hn. lia.
    + exists p2, ((r, f1) :: todo2), (t1 ++ t2). split_and!.
      * simpl. rewrite (bind_ok _ _ _ _ _ Hr1). cbv beta. rewrite length_app, Nat.add_1_r in Hr2. rewrite Hr2, <-app_assoc. done.
      * by rewrite Hf1, Hf2, app_assoc.
      * constructor; [|done]. split; [done|by exists t1].
      * unfold owned in *. simpl. rewrite (gv_own _ _ _ _ Hg1), Ho2. rewrite <-!app_assoc. f_equiv. rewrite !app_assoc. f_equiv.
        apply Permutation_app_comm.
Qed.

(** *** Room is made *)

Lemma sum_singletons (ys : list nat) (mvs : list (list Z)) (R : nat -> list Z -> Prop) :
  Forall2 R ys mvs -> (forall y mv, y ∈ ys -> R y mv -> length mv = 1%nat) ->
  len (concat mvs) = len ys /\ sumZ len mvs = len ys.
Proof.
  induction 1 as [|y mv ys mvs Hy _ IH]; intros Hone; [done|].
  destruct IH as [E1 E2]; [intros; eapply Hone; [by right|done]|]. pose proof (Hone y mv ltac:(left) Hy) as Hl.
  unfold len in *. simpl. rewrite length_app. lia.
Qed.

Lemma evict_states_run s lf lm L Hs nm :
  consistent s lf lm L Hs -> alloc_ok (m_alloc s) -> disable (m_params s) = false -> 0 < nm ->
  exists r s1 lm1 L1 vs mvs, m_evict 0 nm s = (Ok r, s1) /\ m_evicted s lf L Hs s1 lm1 L1 vs mvs /\ alloc_ok (m_alloc s1) /\
    (nm <= len (concat mvs) \/ len (concat mvs) = mamba_evictable_size s).
Proof.
  intros Hcs Hok Hdis Hnm. pose proof (consistent_rep _ _ _ _ _ Hcs) as Hrep. pose proof (cs_inv _ _ _ _ _ Hcs) as Hinv.
  destruct (evict_mamba_sim (view_of s lf lm) L Hs nm Hinv Hok Hdis) as (vs & mvs & u' & L' & Hsim & Hce).
  pose proof (evicted_enough _ _ _ _ _ _ _ _ Hinv Hce) as Hen. destruct (Hsim s Hrep) as (s' & Hrun & Hrep').
  destruct Hce as [C1 C2 C3 C4]. pose proof (shrunk_evicted s lf lm L Hs s' u' L' vs mvs Hcs Hrep' C1 C2) as Hev.
  destruct (sum_singletons _ _ _ C4) as [E1 E2].
  { intros y mv Hy Hk. destruct (proj1 (minv_mamba Hinv y) (lru_unlocked_elem _ _ y Hy)) as (HyL & Hyr & _).
    destruct (ck_node _ _ _ _ _ _ _ _ (mi_ck _ _ _ _ Hinv) y HyL Hyr) as (o & Ek & _ & Hlen).
    rewrite Hk in Ek. injection Ek as <- _. by apply Hlen. }
  do 6 eexists. split_and!; [|exact Hev| |].
  - unfold m_evict. erewrite bind_ok by reflexivity. cbv beta. rewrite Hdis, (decide_False (P := 0 < 0)) by lia.
    erewrite bind_ok by reflexivity. cbv beta. rewrite decide_True by done. by rewrite (bind_ok _ _ _ _ _ Hrun).
  - change (alloc_ok (m_alloc (base s'))). rewrite (rep_base_eq s' u' m_alloc Hrep'). by apply (sk_ok _ _ _ _ _ _ C2).
  - destruct Hen as [Hen|E]; [left; lia|right]. destruct (me_mamba _ _ _ _ _ _ _ _ _ Hev) as [Hm _].
    assert (mamba_evictable_size s' = 0) as E0 by exact (eq_trans (rep_base_eq s' u' mamba_evictable_size_ Hrep') E). lia.
Qed.

(** *** A batch *)

Lemma omap_total {B C} (g : B -> option C) (l : list B) :
  Forall (fun a => is_Some (g a)) l -> length (omap g l) = length l /\ forall k, omap g l !! k = l !! k ≫= g.
Proof.
  induction 1 as [|a l [c Hc] _ [IH1 IH2]]; [done|]. simpl. rewrite Hc. split; [simpl; f_equal; exact IH1|].
  intros [|k]; simpl; [done|exact (IH2 k)].
Qed.

(** What [alloc] expects of a batch: requests that keep their row are chunked
    or have tokens in it, no row is used twice, and the mappings have a row
    for each. *)
Record batch_ok b : Prop := BatchOk {
  bo_nonempty : b_reqs b ≠ [];
  bo_reusing : Forall (fun q => has_row q.1 = true -> 0 < inflight_middle_chunks q.1 \/ (0 < kv_committed_len q.1)%nat) (b_reqs b);
  bo_rows : NoDup (omap req_pool_idx (b_reqs b).*1 ++ free_slots (b_pool b));
  bo_range : Forall (fun i => (i < length (mamba_index_mapping (b_ext b)))%nat /\
    (hp_extra_buffer (b_ext b) = true -> i < length (track_buffer_mapping (b_ext b)))%nat)
    (omap req_pool_idx (b_reqs b).*1 ++ free_slots (b_pool b));
  bo_buffers : Forall (fun q => buffer_ok (b_ext b) q.2) (b_reqs b);
  bo_extra : hp_extra_buffer (b_ext b) = enable_mamba_extra_buffer (b_tree b);
  bo_page : enable_mamba_extra_buffer (b_tree b) = true \/ psz (b_tree b) = 1%nat
}.

Definition rows_needed (l : list (Req * MambaFields)) : nat := (length l - length (List.filter has_row l.*1))%nat.

(** Request [q] is now [q'], with a row and slots that the mappings know. *)
Definition admitted (t : MambaRadixCache A P) x (q q' : Req * MambaFields) : Prop :=
  exists i z taken, q'.1 = set_pool_idx (Some i) q.1 /\ (req_pool_idx q.1 = Some i \/ req_pool_idx q.1 = None) /\
    given x q.2 taken q'.2 /\ hybrid_ok t x q'.2 i z /\ mamba_index_mapping x !! i = Some (to_int32 z).

Lemma reusing_ok b :
  batch_ok b -> forallb (fun r => bool_decide (0 < inflight_middle_chunks r) || bool_decide (0 < kv_committed_len r)%nat)
    (List.filter has_row (b_reqs b).*1) = true.
Proof.
  intros Hok. apply forallb_forall. intros r Hr. apply filter_In in Hr as [Hin Hr].
  apply list_elem_of_In, list_elem_of_fmap in Hin as ([r' f] & -> & Hin).
  pose proof (proj1 (Forall_forall _ _) (bo_reusing _ Hok) _ Hin Hr) as [Hx|Hx]; simpl in Hx.
  - by rewrite bool_decide_eq_true_2.
  - by rewrite (bool_decide_eq_true_2 (0 < kv_committed_len _)%nat), orb_true_r.
Qed.

Lemma pool_alloc_full b :
  batch_ok b -> (length (free_slots (b_pool b)) < rows_needed (b_reqs b))%nat ->
  pool_alloc (b_reqs b).*1 (b_pool b) = (Ok None, b_pool b).
Proof.
  intros Hok Hn. unfold pool_alloc. rewrite length_fmap. fold (rows_needed (b_reqs b)).
  by rewrite (reusing_ok b Hok), decide_True.
Qed.

(** The rows are handed out. *)
Lemma pool_alloc_run b :
  batch_ok b -> (rows_needed (b_reqs b) ≤ length (free_slots (b_pool b)))%nat ->
  exists reqs, pool_alloc (b_reqs b).*1 (b_pool b) =
      (Ok (Some reqs), MkPool (pool_size (b_pool b)) (max_context_len (b_pool b)) (req_to_token (b_pool b))
        (drop (rows_needed (b_reqs b)) (free_slots (b_pool b)))) /\
    Forall2 has_got_row (b_reqs b).*1 reqs /\
    omap req_pool_idx reqs ≡ₚ omap req_pool_idx (b_reqs b).*1 ++ take (rows_needed (b_reqs b)) (free_slots (b_pool b)).
Proof.
  intros Hok Hn. unfold pool_alloc. rewrite length_fmap. fold (rows_needed (b_reqs b)).
  rewrite (reusing_ok b Hok), decide_False by lia. eexists. split; [reflexivity|].
  apply assign_rows_spec. rewrite length_take, length_fmap. fold (rows_needed (b_reqs b)). lia.
Qed.

(** The mappings are written. *)
Definition mapped b : HybridExt :=
  let x := b_ext b in
  let rows := omap (fun q => req_pool_idx q.1) (b_reqs b) in
  MkHExt (track_buffer_size x) (hp_extra_buffer x)
    (scatter_rows rows (to_int32 <$> omap (fun q => mamba_pool_idx q.2) (b_reqs b)) (mamba_index_mapping x))
    (if hp_extra_buffer x then scatter_rows rows (omap (fun q => mamba_ping_pong_track_buffer q.2) (b_reqs b)) (track_buffer_mapping x)
     else track_buffer_mapping x).

(** Every request has its row and its slots. *)
Definition ready x (q : Req * MambaFields) : Prop :=
  is_Some (req_pool_idx q.1) /\ is_Some (mamba_pool_idx q.2) /\
  (hp_extra_buffer x = true -> exists buf, mamba_ping_pong_track_buffer q.2 = Some buf /\ length buf = track_buffer_size x).

Lemma write_mappings_run b :
  b_reqs b ≠ [] -> Forall (ready (b_ext b)) (b_reqs b) ->
  write_mappings b = (Ok true, MkBatch (b_tree b) (b_pool b) (mapped b) (b_reqs b)).
Proof.
  intros Hne Hall.
  destruct (omap_total (fun q : Req * MambaFields => req_pool_idx q.1) (b_reqs b)) as [L1 _];
    [eapply Forall_impl; [exact Hall|by intros q (? & _)]|].
  destruct (omap_total (fun q : Req * MambaFields => mamba_pool_idx q.2) (b_reqs b)) as [L2 _];
    [eapply Forall_impl; [exact Hall|by intros q (_ & ? & _)]|].
  unfold write_mappings, mapped. erewrite bind_ok by reflexivity. unfold id. cbv beta zeta.
  rewrite (decide_False (P := length _ ≠ length _)) by congruence.
  destruct (hp_extra_buffer (b_ext b)) eqn:Hex.
  - destruct (omap_total (fun q : Req * MambaFields => mamba_ping_pong_track_buffer q.2) (b_reqs b)) as [L3 K3];
      [eapply Forall_impl; [exact Hall|intros q (_ & _ & Hb)]; destruct (Hb Hex) as (buf & -> & _); by eexists|].
    rewrite (decide_False (P := _ /\ _)) by (intros [_ Hd]; congruence).
    rewrite (decide_False (P := omap _ _ = [])) by (intros E; rewrite E in L2; by destruct (b_reqs b)).
    erewrite bind_ok by reflexivity. cbv beta. rewrite decide_False; [done|].
    intros Hexi. apply Exists_exists in Hexi as (buf & Hin & Hl). apply list_elem_of_lookup in Hin as [k Hk]. rewrite K3 in Hk.
    apply bind_Some in Hk as (q & Hq & Hb). destruct (Forall_lookup_1 _ _ _ _ Hall Hq) as (_ & _ & Hb').
    destruct (Hb' Hex) as (buf' & Hb2 & Hl'). congruence.
  - rewrite (decide_False (P := _ /\ _)) by (by intros [? _]).
    rewrite (decide_False (P := omap _ _ = [])) by (intros E; rewrite E in L2; by destruct (b_reqs b)).
    by erewrite bind_ok by reflexivity.
Qed.

(** Each request finds its own entries there. *)
Lemma mapped_lookup b k q :
  Forall (ready (b_ext b)) (b_reqs b) -> NoDup (omap (fun q => req_pool_idx q.1) (b_reqs b)) ->
  Forall (fun i => (i < length (mamba_index_mapping (b_ext b)))%nat /\
    (hp_extra_buffer (b_ext b) = true -> i < length (track_buffer_mapping (b_ext b)))%nat)
    (omap (fun q => req_pool_idx q.1) (b_reqs b)) ->
  b_reqs b !! k = Some q -> exists i z, req_pool_idx q.1 = Some i /\ mamba_pool_idx q.2 = Some z /\
    mamba_index_mapping (mapped b) !! i = Some (to_int32 z) /\
    (hp_extra_buffer (b_ext b) = true -> track_buffer_mapping (mapped b) !! i = mamba_ping_pong_track_buffer q.2).
Proof.
  intros Hall Hnd Hrange Hq. destruct (Forall_lookup_1 _ _ _ _ Hall Hq) as ([i Hi] & [z Hz] & Hb). exists i, z.
  destruct (omap_total (fun q : Req * MambaFields => req_pool_idx q.1) (b_reqs b)) as [_ K1];
    [eapply Forall_impl; [exact Hall|by intros ? (? & _)]|].
  destruct (omap_total (fun q : Req * MambaFields => mamba_pool_idx q.2) (b_reqs b)) as [_ K2];
    [eapply Forall_impl; [exact Hall|by intros ? (_ & ? & _)]|].
  specialize (K1 k). specialize (K2 k). rewrite Hq in K1, K2. simpl in K1, K2. rewrite Hi in K1. rewrite Hz in K2.
  split_and!; [done|done| |].
  - unfold mapped. cbn [mamba_index_mapping]. eapply scatter_rows_eq; [done| |exact K1|by rewrite list_lookup_fmap, K2].
    eapply Forall_impl; [exact Hrange|by intros ? []].
  - intros Hex. destruct (Hb Hex) as (buf & Hbuf & _). unfold mapped. cbn [track_buffer_mapping]. rewrite Hex, Hbuf.
    destruct (omap_total (fun q : Req * MambaFields => mamba_ping_pong_track_buffer q.2) (b_reqs b)) as [_ K3];
      [eapply Forall_impl; [exact Hall|intros ? (_ & _ & Hb')]; destruct (Hb' Hex) as (? & -> & _); by eexists|].
    specialize (K3 k). rewrite Hq in K3. simpl in K3. rewrite Hbuf in K3.
    eapply scatter_rows_eq; [done| |exact K1|exact K3]. eapply Forall_impl; [exact Hrange|by intros ? [_ ?]; auto].
Qed.

Lemma hybrid_alloc_run b :
  batch_ok b -> (rows_needed (b_reqs b) ≤ length (free_slots (b_pool b)))%nat ->
  (total_needed (b_ext b) (b_reqs b) ≤ length (ms_slots (m_pool (b_tree b))))%nat ->
  exists p' x' reqs' taken, hybrid_alloc b =
    (Ok true, MkBatch (mu_pool p' (b_tree b)) (MkPool (pool_size (b_pool b)) (max_context_len (b_pool b))
      (req_to_token (b_pool b)) (drop (rows_needed (b_reqs b)) (free_slots (b_pool b)))) x' reqs') /\
    ms_slots (m_pool (b_tree b)) = taken ++ ms_slots p' /\
    hp_extra_buffer x' = hp_extra_buffer (b_ext b) /\
    (forall x, hp_extra_buffer x = hp_extra_buffer (b_ext b) -> owned x reqs' ≡ₚ owned x (b_reqs b) ++ taken) /\
    omap req_pool_idx reqs'.*1 ≡ₚ omap req_pool_idx (b_reqs b).*1 ++ take (rows_needed (b_reqs b)) (free_slots (b_pool b)) /\
    Forall2 (admitted (b_tree b) x') (b_reqs b) reqs'.
Proof.
  intros Hok Hrows Hn. destruct (pool_alloc_run b Hok Hrows) as (reqs & Hpa & Hgot & Hperm).
  set (p1 := MkPool _ _ _ _) in *. assert (length reqs = length (b_reqs b)) as Hlen
    by (apply Forall2_length in Hgot; by rewrite length_fmap in Hgot).
  set (reqs1 := zip reqs (b_reqs b).*2). set (b1 := MkBatch (b_tree b) p1 (b_ext b) reqs1).
  assert (reqs1.*2 = (b_reqs b).*2) as Hsnd by (apply snd_zip; rewrite length_fmap; lia).
  assert (reqs1.*1 = reqs) as Hfst by (apply fst_zip; rewrite length_fmap; lia).
  assert (length reqs1 = length reqs) as Hlen1 by (by rewrite <-Hfst, length_fmap).
  destruct (states_loop reqs1 b1 []) as (p' & todo & taken & Hr & Hfree & Hprov & Hown); [done| |by unfold total_needed in *; rewrite Hsnd|].
  { assert (Forall (buffer_ok (b_ext b)) reqs1.*2) as Hb by (rewrite Hsnd; apply Forall_fmap; exact (bo_buffers _ Hok)).
    exact (proj1 (Forall_fmap snd _ _) Hb). }
  cbn [b1 b_tree b_pool b_ext app] in Hr, Hfree, Hprov, Hown. unfold owned in Hown. rewrite Hsnd in Hown.
  assert (todo.*1 = reqs) as Htodo.
  { rewrite <-Hfst. clear -Hprov. induction Hprov as [|q q' l l' [E _] _ IH]; [done|]. simpl. f_equal; [exact E|exact IH]. }
  set (b2 := MkBatch (mu_pool p' (b_tree b)) p1 (b_ext b) todo) in *.
  assert (Forall (ready (b_ext b2)) (b_reqs b2)) as Hready.
  { cbn [b_ext b_reqs b2]. apply Forall_lookup. intros k q' Hq'. destruct (Forall2_lookup_r _ _ _ _ _ Hprov Hq') as (q & Hq & Eq & t & [G1 G2 _ _]).
    split_and!; [|by destruct G1 as (z & -> & _)|intros Hex; destruct (G2 Hex) as (buf & n & ? & ? & _); by exists buf].
    rewrite Eq. assert (reqs !! k = Some q.1) as Hk by (rewrite <-Hfst, list_lookup_fmap, Hq; done).
    by destruct (Forall2_lookup_r _ _ _ _ _ Hgot Hk) as (r & _ & i & -> & _). }
  assert (omap (fun q => req_pool_idx q.1) todo = omap req_pool_idx reqs) as Erows.
  { rewrite <-Htodo. clear. induction todo as [|q l IH]; [done|]. simpl. destruct (req_pool_idx q.1); [f_equal|]; exact IH. }
  exists p', (mapped b2), todo, taken. split_and!; [|done|done| |by rewrite Htodo|].
  - unfold hybrid_alloc. erewrite bind_ok by reflexivity. cbv beta. unfold id. rewrite Hpa. fold p1.
    erewrite bind_ok by reflexivity. cbv beta. fold reqs1. fold b1. rewrite <-Hlen1, (bind_ok _ _ _ _ _ Hr). cbv beta.
    apply write_mappings_run; [|done]. cbn [b_reqs b2]. intros E. rewrite E in Hprov. inversion Hprov as [E1|].
    apply (bo_nonempty _ Hok). apply nil_length_inv. rewrite <-Hlen, <-Hlen1, <-E1. done.
  - intros x Hx. unfold owned, own_slots. rewrite Hx. exact Hown.
  - apply Forall2_same_length_lookup_2.
    { apply Forall2_length in Hprov. lia. }
    intros k q q' Hq Hq'. destruct (Forall2_lookup_r _ _ _ _ _ Hprov Hq') as (q1 & Hq1 & Eq & t & Hg).
    assert (q1.2 = q.2) as E2.
    { assert (reqs1.*2 !! k = Some q1.2 /\ (b_reqs b).*2 !! k = Some q.2) as [F1 F2] by (by rewrite !list_lookup_fmap, Hq1, Hq).
      rewrite Hsnd in F1. congruence. }
    assert (has_got_row q.1 q1.1) as (i0 & Ei & Hold).
    { eapply (Forall2_lookup_lr _ _ _ k _ _ Hgot); [by rewrite list_lookup_fmap, Hq|]. rewrite <-Hfst, list_lookup_fmap, Hq1. done. }
    pose proof (bo_rows _ Hok) as Hnd. pose proof (bo_range _ Hok) as Hrange.
    rewrite <-(take_drop (rows_needed (b_reqs b)) (free_slots (b_pool b))), app_assoc, <-Hperm in Hnd, Hrange.
    apply NoDup_app in Hnd as (Hnd & _). apply Forall_app in Hrange as [Hrange _]. rewrite <-Erows in Hnd, Hrange.
    destruct (mapped_lookup b2 k q' Hready Hnd Hrange Hq') as (i & z & Hi & Hz & Hm1 & Hm2).
    rewrite Eq, Ei in Hi. injection Hi as ->. rewrite E2 in Hg. exists i, z, t. split_and!; [by rewrite Eq|done|by destruct Hg| |done].
    split; [exact (bo_extra _ Hok)|exact (bo_page _ Hok)|done|]. intros Hex. rewrite <-(bo_extra _ Hok) in Hex.
    destruct (gv_buffer _ _ _ _ Hg Hex) as (buf & n & B1 & B2 & B3 & B4 & _). exists buf, n. split_and!; try done.
    by rewrite (Hm2 Hex).
Qed.

(** *** The whole call *)

Lemma total_needed_bound x l : Forall (fun q => buffer_ok x q.2) l -> Z.of_nat (total_needed x l) <= len l * MAMBA_STATE_PER_REQ_PREFIX_CACHE.
Proof.
  unfold total_needed, len, MAMBA_STATE_PER_REQ_PREFIX_CACHE. induction 1 as [|q l [Hsz _] _ IH]; [done|].
  change (Z.of_nat (slots_needed x q.2 + sum_list (slots_needed x <$> l.*2)) <= Z.of_nat (S (length l)) * 3).
  assert (slots_needed x q.2 ≤ 3)%nat.
  { unfold slots_needed. destruct (mamba_pool_idx q.2), (hp_extra_buffer x), (mamba_ping_pong_track_buffer q.2); lia. }
  lia.
Qed.

Lemma batch_ok_keeps b s1 L : batch_ok b -> m_keeps (b_tree b) L s1 -> batch_ok (MkBatch s1 (b_pool b) (b_ext b) (b_reqs b)).
Proof. intros [B1 B2 B3 B4 B5 B6 B7] (Ep & _ & Eb & _). by split; simpl; rewrite ?Ep, ?Eb. Qed.

Lemma make_room_run b lf lm L Hs :
  let s := b_tree b in
  let needed := len (b_reqs b) * MAMBA_STATE_PER_REQ_PREFIX_CACHE in
  consistent s lf lm L Hs -> alloc_ok (m_alloc s) -> disable (m_params s) = false ->
  needed <= len (ms_slots (m_pool s)) + mamba_evictable_size s ->
  exists s1 lm1 L1 vs mvs,
    (if decide (ms_available (m_pool s) < needed) then
       b_on_tree (m_evict 0 (Z.max 0 (needed - ms_available (m_pool s)))) ≫= fun _ => mret tt
     else mret tt) b = (Ok tt, MkBatch s1 (b_pool b) (b_ext b) (b_reqs b)) /\
    m_evicted s lf L Hs s1 lm1 L1 vs mvs /\ alloc_ok (m_alloc s1) /\ needed <= len (ms_slots (m_pool s1)) /\
    (needed <= len (ms_slots (m_pool s)) -> s1 = s).
Proof.
  intros s needed Hcs Hok Hdis Hroom. rewrite (ms_available_slots (m_pool s)). case_decide as Hlt.
  - destruct (evict_states_run s lf lm L Hs (Z.max 0 (needed - len (ms_slots (m_pool s)))) Hcs Hok Hdis) as
      (r & s1 & lm1 & L1 & vs & mvs & Hr & Hev & Hok1 & Hm); [lia|].
    exists s1, lm1, L1, vs, mvs. split_and!; [|done|done| |lia].
    + erewrite bind_ok; [reflexivity|]. unfold b_on_tree, zoom. fold s. by rewrite Hr.
    + rewrite (me_pool _ _ _ _ _ _ _ _ _ Hev), pool_free_all_slots. unfold len in *. rewrite length_app. lia.
  - exists s, lm, L, [], []. split_and!; [by destruct b|by apply m_evicted_refl|done|lia|done].
Qed.

(** C7: [alloc_req_slots] for a batch of hybrid requests: three Mamba slots per
    request, free or evictable, are enough.  Checkpoints are evicted only when
    the pool is short.  If there are enough rows, every request leaves with
    a row and a state slot of its own (marked to be cleared if it is new)
    and, with the extra buffer, a ping-pong buffer, all recorded in the
    mappings, as the cache expects; what it already had stays.  No slot of the
    pool and no row is lost or handed out twice.  If there are not enough
    rows, the call raises and the requests and the table are unchanged. *)
Theorem m_alloc_req_slots_spec b lf lm L Hs :
  let s := b_tree b in
  let needed := len (b_reqs b) * MAMBA_STATE_PER_REQ_PREFIX_CACHE in
  consistent s lf lm L Hs -> alloc_ok (m_alloc s) -> disable (m_params s) = false -> batch_ok b ->
  needed <= len (ms_slots (m_pool s)) + mamba_evictable_size s ->
  exists s1 lm1 L1 vs mvs, m_evicted s lf L Hs s1 lm1 L1 vs mvs /\ (needed <= len (ms_slots (m_pool s)) -> s1 = s) /\
  if decide (rows_needed (b_reqs b) ≤ length (free_slots (b_pool b)))%nat then
    exists p' t' x' reqs', m_alloc_req_slots b = (Ok tt, MkBatch (mu_pool p' s1) t' x' reqs') /\
      consistent (mu_pool p' s1) (filter (fun y => y ∈ L1) lf) lm1 L1 Hs /\ alloc_ok (m_alloc s1) /\
      Forall2 (admitted (mu_pool p' s1) x') (b_reqs b) reqs' /\
      (forall j, m_ckocc s1 L1 j + occ j (ms_slots p') + occ j (owned x' reqs') =
        m_ckocc s L j + occ j (ms_slots (m_pool s)) + occ j (owned x' (b_reqs b))) /\
      omap req_pool_idx reqs'.*1 ++ free_slots t' ≡ₚ omap req_pool_idx (b_reqs b).*1 ++ free_slots (b_pool b) /\
      req_to_token t' = req_to_token (b_pool b)
  else m_alloc_req_slots b =
    (Raise (Exn RuntimeError "alloc_req_slots runs out of memory."), MkBatch s1 (b_pool b) (b_ext b) (b_reqs b)).
Proof.
  intros s needed Hcs Hok Hdis Hb Hroom.
  destruct (make_room_run b lf lm L Hs Hcs Hok Hdis Hroom) as (s1 & lm1 & L1 & vs & mvs & Hr1 & Hev & Hok1 & Hfree & Hsame).
  exists s1, lm1, L1, vs, mvs. split; [done|]. split; [done|].
  pose proof (batch_ok_keeps b s1 L1 Hb (me_keeps _ _ _ _ _ _ _ _ _ Hev)) as Hb1. set (b1 := MkBatch s1 _ _ _) in *.
  assert (forall r b2, hybrid_alloc b1 = (Ok r, b2) -> m_alloc_req_slots b = (if (r : bool) then mret tt
    else raise RuntimeError "alloc_req_slots runs out of memory.") b2) as Hrun.
  { intros r b2 Hr2. unfold m_alloc_req_slots. erewrite bind_ok by reflexivity. cbv beta zeta. unfold id.
    rewrite (bind_ok _ _ _ _ _ Hr1). cbv beta. by rewrite (bind_ok _ _ _ _ _ Hr2). }
  destruct (decide (rows_needed (b_reqs b) ≤ length (free_slots (b_pool b)))%nat) as [Hrows|Hrows].
  - destruct (hybrid_alloc_run b1 Hb1 Hrows) as (p' & x' & reqs' & taken & Hr2 & Htk & Hx & Hown & Hrw & Hadm).
    { pose proof (total_needed_bound _ _ (bo_buffers _ Hb)). unfold len in *. cbn [b1 b_ext b_reqs b_tree]. lia. }
    cbn [b1 b_tree b_pool b_ext b_reqs] in *. do 4 eexists. split; [exact (Hrun true _ Hr2)|]. split_and!.
    + by apply consistent_pool, (me_consistent _ _ _ _ _ _ _ _ _ Hev).
    + done.
    + eapply Forall2_impl; [exact Hadm|]. intros q q' (i & z & t & A1 & A2 & A3 & [] & A5). exists i, z, t. by split_and!.
    + intros j. rewrite (occ_perm j _ _ (Hown x' Hx)), occ_app. pose proof (me_ckocc _ _ _ _ _ _ _ _ _ Hev j) as Hc.
      rewrite (me_pool _ _ _ _ _ _ _ _ _ Hev), pool_free_all_slots in Htk. fold s in Htk, Hc |- *.
      assert (occ j (ms_slots (m_pool s)) + occ j (concat mvs) = occ j taken + occ j (ms_slots p')) by (by rewrite <-!occ_app, Htk). lia.
    + simpl. rewrite Hrw, <-app_assoc. by rewrite take_drop.
    + done.
  - rewrite (Hrun false b1); [done|]. unfold hybrid_alloc. erewrite bind_ok by reflexivity. cbv beta. unfold id.
    assert (length (free_slots (b_pool b)) < rows_needed (b_reqs b))%nat as Hlt by lia. by rewrite (pool_alloc_full b1 Hb1 Hlt).
Qed.
End slots.

(** ** The next checkpoint *)

Section track.
Implicit Types (x : HybridExt) (f : MambaFields).

(** The request has a buffer, and [d] is the slot of the next checkpoint. *)
Definition next_slot x f (d : Z) : Prop :=
  exists buf n j, mamba_ping_pong_track_buffer f = Some buf /\ mamba_next_track_idx f = Some n /\
    track_idx_ok x n /\ at_index buf n = Some j /\ buf !! j = Some d.

Lemma buffer_next_slot x f buf : buffer_ok x f -> mamba_ping_pong_track_buffer f = Some buf -> exists d, next_slot x f d.
Proof.
  intros [_ Hb] Hbuf. destruct (Hb buf Hbuf) as (Hl & n & Hn & Hok).
  assert (exists j, at_index buf n = Some j /\ (j < length buf)%nat) as (j & Hj & Hlt).
  { unfold at_index. rewrite decide_True by (unfold len; destruct Hok as [[? ?]|[? ?]]; lia).
    eexists. split; [reflexivity|]. destruct Hok as [[? ?]|[? ?]]; lia. }
  destruct (lookup_lt_is_Some_2 buf j Hlt) as [d Hd]. by exists d, buf, n, j.
Qed.

(** After the flip the slot just written is the one the cache takes. *)
Lemma flipped_tracked x f d f' n :
  next_slot x f d -> mamba_next_track_idx f = Some n ->
  mamba_ping_pong_track_buffer f' = mamba_ping_pong_track_buffer f ->
  mamba_next_track_idx f' = Some (get_mamba_ping_pong_other_idx x n) ->
  (exists k, tracked x f' k d) /\ track_idx_ok x (get_mamba_ping_pong_other_idx x n).
Proof.
  intros (buf & n' & j & Hb & Hn & Hok & Hj & Hd) Hn' Eb En. rewrite Hn in Hn'. injection Hn' as ->.
  assert (get_mamba_ping_pong_other_idx x (get_mamba_ping_pong_other_idx x n) = n /\
    track_idx_ok x (get_mamba_ping_pong_other_idx x n)) as [Einv Hok'].
  { unfold get_mamba_ping_pong_other_idx, track_idx_ok in *. destruct Hok as [[E Hn01]|[E ->]]; rewrite E; simpl; [|by split; [|right]].
    split; [lia|]. left. split; [done|]. lia. }
  split; [|done]. exists n, buf, (get_mamba_ping_pong_other_idx x n), j. rewrite Eb, En. by split_and!.
Qed.

(** A request with a new checkpoint of [c] tokens in slot [d]. *)
Record tracks x f (d : Z) (c : nat) f' : Prop := Tracks {
  tk_slot : exists k, tracked x f' k d;
  tk_len : mamba_last_track_seqlen f' = Some c;
  tk_next : exists n, mamba_next_track_idx f' = Some n /\ track_idx_ok x n;
  tk_rest : mamba_pool_idx f' = mamba_pool_idx f /\
    mamba_ping_pong_track_buffer f' = mamba_ping_pong_track_buffer f /\
    mamba_cow_src_index f' = mamba_cow_src_index f /\ mamba_needs_clear f' = mamba_needs_clear f
}.

Lemma flip_run x f d n (c : nat) :
  next_slot x f d -> mamba_next_track_idx f = Some n ->
  tracks x f d c (f_set_track (Some c) (f_set_next (Some (get_mamba_ping_pong_other_idx x n)) f)).
Proof.
  intros Hd Hn. destruct (flipped_tracked x f d (f_set_track (Some c) (f_set_next (Some (get_mamba_ping_pong_other_idx x n)) f)) n) as [Hk Hok]; try done.
  split; try done. by eexists.
Qed.

Context (FLA chunk ps : nat).

(** The sizes as the configuration checks them: the larger of the two is a
    multiple of the smaller. *)
Definition sizes_ok : Prop :=
  (1 < FLA)%nat /\ (0 < ps)%nat /\ (chunk = FLA /\ Nat.divide ps FLA \/ chunk = ps /\ Nat.divide FLA ps).

Lemma sizes_div : sizes_ok -> (0 < chunk)%nat /\ Nat.divide ps chunk /\ Nat.divide FLA chunk.
Proof. intros (HF & Hp & [[-> Hd]|[-> Hd]]); split_and!; try done; lia. Qed.

(** The forward pass rounds the length it is given down to whole chunks from
    the start of the extension, unless it is the end. *)
Definition rounds_to (p e : nat) (seqlen : Z) (c : nat) : Prop :=
  (seqlen - Z.of_nat p) / Z.of_nat FLA * Z.of_nat FLA + Z.of_nat p = Z.of_nat c /\
  ((seqlen - Z.of_nat p) mod Z.of_nat FLA = 0 -> seqlen = Z.of_nat (p + e)).

Lemma rounds_after (p e : nat) (c : nat) :
  sizes_ok -> (p ≤ c)%nat -> Nat.divide FLA (c - p) -> rounds_to p e (Z.of_nat c + 1) c.
Proof.
  intros (HF & _) Hpc [k Hk]. unfold rounds_to. assert (Z.of_nat c + 1 - Z.of_nat p = Z.of_nat k * Z.of_nat FLA + 1) as -> by nia.
  rewrite (Z.add_comm (_ * _) 1), Z.div_add, Z.mod_add, (Z.div_small 1), Z.mod_small by lia. split; [nia|lia].
Qed.

(** The whole chunks of the extension. *)
Lemma track_base (p e : nat) :
  sizes_ok -> Nat.divide ps p -> (chunk ≤ e)%nat ->
  let q := (e / chunk * chunk)%nat in
  exists seqlen, (if decide (Z.of_nat p + Z.of_nat (e / FLA * FLA) = Z.of_nat p + Z.of_nat q)
      then Ok (Z.of_nat p + Z.of_nat e) else force_track_h FLA (Z.of_nat p + Z.of_nat q)) = Ok seqlen /\
    rounds_to p e seqlen (p + q) /\ seqlen <= Z.of_nat (p + e) + 1 /\ (0 < q ≤ e)%nat /\ Nat.divide ps (p + q).
Proof.
  intros Hsz Hp He q. destruct (sizes_div Hsz) as (Hc & Hpc & HFc). pose proof Hsz as (HF & Hps & Hcase).
  assert (Nat.divide chunk q) as Hq by (by exists (e / chunk)%nat).
  assert (0 < q ≤ e)%nat as Hqe.
  { unfold q. assert (1 ≤ e / chunk)%nat by (apply Nat.div_le_lower_bound; lia).
    pose proof (Nat.Div0.mul_div_le e chunk). nia. }
  assert (Nat.divide FLA q) as HFq by (etransitivity; [exact HFc|exact Hq]).
  assert (Nat.divide ps (p + q)) as Hpq by (apply Nat.divide_add_r; [done|]; etransitivity; [exact Hpc|exact Hq]).
  case_decide as Heq.
  - eexists. split; [reflexivity|]. split_and!; try done; try lia. split; [|lia].
    replace (Z.of_nat p + Z.of_nat e - Z.of_nat p) with (Z.of_nat e) by lia. rewrite <-Nat2Z.inj_div. lia.
  - destruct Hcase as [[Hcf _]|[Hcp HFp]]; [unfold q in Heq; rewrite Hcf in Heq; lia|].
    assert (Nat.divide FLA (p + q)) as [k Hk].
    { apply Nat.divide_add_r; [|done]. etransitivity; [exact HFp|exact Hp]. }
    unfold force_track_h. rewrite decide_True by (rewrite <-Nat2Z.inj_add, Hk, Nat2Z.inj_mul; apply Z.mod_mul; lia).
    eexists. split; [reflexivity|]. rewrite <-Nat2Z.inj_add. split_and!; try done; try lia.
    apply rounds_after; [done|lia|]. by replace (p + q - p)%nat with q by lia.
Qed.

(** A branching point in the extension. *)
Lemma track_branch (p e : nat) (br : Z) :
  sizes_ok -> Nat.divide ps p -> br mod Z.of_nat chunk = 0 -> Z.of_nat p < br -> (br - Z.of_nat p) mod Z.of_nat chunk = 0 ->
  force_track_h FLA br = Ok (br + 1) /\ Nat.divide ps (Z.to_nat br) /\ rounds_to p e (br + 1) (Z.to_nat br).
Proof.
  intros Hsz Hp Hbr Hlt Hmod. destruct (sizes_div Hsz) as (Hc & Hpc & [a Ha]). pose proof Hsz as (HF & Hps & _).
  apply Z.mod_divide in Hbr as [k Hk]; [|lia]. apply Z.mod_divide in Hmod as [m Hm]; [|lia].
  assert (Nat.divide chunk (Z.to_nat br - p)) as Hd by (exists (Z.to_nat m); nia).
  split_and!.
  - unfold force_track_h. rewrite decide_True; [done|]. rewrite Hk, Ha, Nat2Z.inj_mul, Z.mul_assoc. apply Z.mod_mul. lia.
  - replace (Z.to_nat br) with (p + (Z.to_nat br - p))%nat by lia. apply Nat.divide_add_r; [done|]. etransitivity; [exact Hpc|exact Hd].
  - rewrite <-(Z2Nat.id br) at 1 by lia. apply rounds_after; [done|lia|]. etransitivity; [by exists a|exact Hd].
Qed.

(** before a prefill of [e] tokens after a prefix of [p],
    [_mamba_radix_cache_v2_req_prepare_for_extend] never raises when the
    prefix is whole pages and a branching point is whole chunks.  A prefill
    shorter than a chunk leaves no checkpoint and changes nothing.  Otherwise
    the forward pass is told to write the checkpoint to slot [d] of the
    ping-pong buffer, and [d] is the slot the cache takes next; the recorded
    length is [c] whole pages, more than the prefix and no more than what is
    computed, and it is the length to which the forward pass rounds the
    sequence length it is given. *)
Theorem prepare_for_extend_spec x f d (p e : nat) (branching : option Z) :
  sizes_ok -> next_slot x f d -> Nat.divide ps p ->
  (forall br, branching = Some br -> br mod Z.of_nat chunk = 0) ->
  if decide (chunk ≤ e)%nat then
    exists c seqlen f', prepare_for_extend FLA chunk x p e branching f = (Ok (MkTrack true d seqlen), f') /\
      tracks x f d (c * ps) f' /\ (p < c * ps ≤ p + e)%nat /\ rounds_to p e seqlen (c * ps)
  else prepare_for_extend FLA chunk x p e branching f = (Ok (MkTrack false d (-1)), f).
Proof.
  intros Hsz Hd Hp Hbr. pose proof Hd as (buf & n & j & Hb & Hn & _ & Hj & Hdj).
  unfold prepare_for_extend. erewrite bind_ok by reflexivity. cbv beta. unfold id.
  assert (at_index buf n ≫= (buf !!.) = Some d) as Hat by (by rewrite Hj). rewrite Hb, Hn, Hat.
  destruct (decide (chunk ≤ e)%nat) as [He|He]; [|done].
  destruct (track_base p e Hsz Hp He) as (seqlen & Hsl & Hrd & Hle & Hq & Hpq).
  set (q := (e / chunk * chunk)%nat) in *. unfold lift_res at 1. rewrite Hsl.
  erewrite bind_ok by reflexivity. cbv beta. erewrite bind_ok by reflexivity. cbv beta.
  assert (forall s' (c' : nat), rounds_to p e s' c' -> Nat.divide ps c' -> (p < c' ≤ p + e)%nat ->
    exists c seqlen f', (Ok (MkTrack true d s'), f_set_track (Some c') (f_set_next (Some (get_mamba_ping_pong_other_idx x n)) f)) =
        (Ok (MkTrack true d seqlen), f') /\
      tracks x f d (c * ps) f' /\ (p < c * ps ≤ p + e)%nat /\ rounds_to p e seqlen (c * ps)) as Hend.
  { intros s' c' Hr [k ->] Hc. exists k, s', (f_set_track (Some (k * ps)%nat) (f_set_next (Some (get_mamba_ping_pong_other_idx x n)) f)).
    split_and!; try done; [|lia..]. by apply flip_run. }
  destruct branching as [br|]; [destruct (decide (Z.of_nat p < br < seqlen /\ (br - Z.of_nat p) mod Z.of_nat chunk = 0)) as [[Hlt Hmod]|]|].
  - destruct (track_branch p e br Hsz Hp (Hbr br eq_refl) ltac:(lia) Hmod) as (Hf & Hpd & Hr').
    unfold lift_res. rewrite Hf. erewrite bind_ok by (by erewrite bind_ok by reflexivity). cbv beta iota.
    erewrite bind_ok by reflexivity. cbv beta. apply Hend; [done|done|lia].
  - erewrite bind_ok by reflexivity. cbv beta iota. erewrite bind_ok by reflexivity. cbv beta.
    rewrite <-Nat2Z.inj_add, Nat2Z.id. apply Hend; [done|done|lia].
  - erewrite bind_ok by reflexivity. cbv beta iota. erewrite bind_ok by reflexivity. cbv beta.
    rewrite <-Nat2Z.inj_add, Nat2Z.id. apply Hend; [done|done|lia].
Qed.

(** The checkpoint of a decode step: with one token per step, the step that
    reaches a multiple of the interval; with accepted drafts, one that crosses
    it. *)
Definition decode_checkpoint (interval : nat) (speculative : bool) (num_correct : option Z) (seq_len : Z) (c : nat) : Prop :=
  if speculative then exists k, num_correct = Some k /\ seq_len - k - 1 < Z.of_nat (c * interval) <= seq_len
  else seq_len = Z.of_nat (c * interval).

(** after a decode step, [_mamba_prefix_cache_update] never raises.  It
    records a checkpoint exactly when the step reaches a multiple of the track
    interval, or crosses one when several drafts are accepted (at most one
    interval, so there is only one to cross): then the length is that
    multiple, the largest one not beyond the computed tokens, and the slot
    into which the forward pass wrote is the one the cache takes next.
    Otherwise, and for a request without a buffer, nothing changes. *)
Theorem mamba_prefix_cache_update_spec (interval : nat) x f d (r : Req) (speculative : bool) (num_correct : option Z) :
  let seq_len := len (origin_input_ids r) + len (output_ids r) - 1 in
  (0 < interval)%nat -> next_slot x f d -> 0 <= seq_len ->
  (forall k, num_correct = Some k -> 0 <= k < Z.of_nat interval /\ k + 1 <= seq_len) ->
  exists f', mamba_prefix_cache_update (Z.of_nat interval) x r speculative num_correct f = (Ok tt, f') /\
    ((exists c, decode_checkpoint interval speculative num_correct seq_len c /\ tracks x f d (c * interval) f') \/
     (forall c, ~ decode_checkpoint interval speculative num_correct seq_len c) /\ f' = f) /\
    mamba_prefix_cache_update (Z.of_nat interval) x r speculative num_correct (f_set_buffer None f) = (Ok tt, f_set_buffer None f).
Proof.
  intros seq_len Hi Hd Hs Hk. pose proof Hd as (buf & n & j & Hb & Hn & _).
  assert (forall c : nat, flip_track x (Z.of_nat c) f =
    (Ok tt, f_set_track (Some c) (f_set_next (Some (get_mamba_ping_pong_other_idx x n)) f))) as Hflip.
  { intros c. unfold flip_track. erewrite bind_ok by reflexivity. cbv beta. unfold id. rewrite Hn. unfold lift_res, other_idx.
    erewrite bind_ok by reflexivity. cbv beta. erewrite bind_ok by reflexivity. cbv beta. unfold modify. by rewrite Nat2Z.id. }
  assert (forall f0, mamba_prefix_cache_update (Z.of_nat interval) x r speculative num_correct (f_set_buffer None f0) =
    (Ok tt, f_set_buffer None f0)) as Hnone by done.
  unfold mamba_prefix_cache_update at 1. erewrite bind_ok by reflexivity. cbv beta zeta. unfold id. fold seq_len. rewrite Hb.
  unfold decode_checkpoint. pose proof (Z.div_mod seq_len (Z.of_nat interval) ltac:(lia)) as Hdm.
  pose proof (Z.mod_pos_bound seq_len (Z.of_nat interval) ltac:(lia)) as Hmb. set (qs := seq_len / Z.of_nat interval) in *.
  assert (0 <= qs) as Hqs by (apply Z.div_pos; lia).
  destruct speculative; [destruct num_correct as [k|]|].
  - destruct (Hk k eq_refl) as [Hk1 Hk2]. rewrite (decide_False (P := Z.of_nat interval = 0)) by lia.
    pose proof (Z.div_mod (seq_len - k - 1) (Z.of_nat interval) ltac:(lia)) as Hdm'.
    pose proof (Z.mod_pos_bound (seq_len - k - 1) (Z.of_nat interval) ltac:(lia)) as Hmb'.
    set (q' := (seq_len - k - 1) / Z.of_nat interval) in *.
    destruct (decide (qs ≠ q')) as [Hne|Heq].
    + exists (f_set_track (Some (Z.to_nat qs * interval)%nat) (f_set_next (Some (get_mamba_ping_pong_other_idx x n)) f)). split_and!; [|left|done].
      * rewrite <-Hflip. f_equal. lia.
      * exists (Z.to_nat qs). split; [exists k; split; [done|]; split; nia|by apply flip_run].
    + exists f. split_and!; [done|right|done]. split; [|done]. intros c (k' & [= <-] & Hc). apply Heq.
      rewrite Nat2Z.inj_mul in Hc. assert (Z.of_nat c < qs + 1) by nia. assert (q' < Z.of_nat c) by nia. lia.
  - exists f. split_and!; [done|right|done]. split; [|done]. by intros c (k & ? & _).
  - rewrite (decide_False (P := Z.of_nat interval = 0)) by lia.
    destruct (decide (seq_len mod Z.of_nat interval = 0)) as [H0|H0].
    + exists (f_set_track (Some (Z.to_nat qs * interval)%nat) (f_set_next (Some (get_mamba_ping_pong_other_idx x n)) f)). split_and!; [|left|done].
      * rewrite <-Hflip. f_equal. nia.
      * exists (Z.to_nat qs). split; [nia|by apply flip_run].
    + exists f. split_and!; [done|right|done]. split; [|done]. intros c Hc. apply H0. rewrite Hc, Nat2Z.inj_mul. apply Z.mod_mul. lia.
Qed.
End track.
