(* ===== verification/MambaReqDemo.v ===== *)
(** * The prefix cache of hybrid models: a concrete request

    A request with a ping-pong buffer on a small cache whose Mamba pool is
    full, the theorems of MambaReqFacts.v and MambaReqCache.v at that request,
    and runs that show what the entry points do in configurations the
    scheduler does not exclude. *)

From S2P Require Import Prelude PyDict Torch RadixKey KvEvents RadixTree RadixOps RadixInv RadixMoves.
From S2P Require Import RadixState RadixLocks RadixRun RadixEvents RadixInsert RadixSpec RadixEvict RadixLockOps.
From S2P Require Import RadixTotal RadixSlots RadixDemo RadixReq RadixReqFacts RadixReqDemo.
From S2P Require Import MambaPool MambaTree MambaOps LruFacts MambaView MambaRules MambaInv MambaRun MambaHold MambaShrink.
From S2P Require Import MambaEvict MambaInsert MambaMatch MambaSpec MambaLaws MambaTotal MambaDemo.
From S2P Require Import MambaReq MambaReqFacts MambaReqCache MambaPoolCopy MambaReqAlloc MambaReqAllocFacts.

(** *** The cache *)

(** Six slots, all in use; slot [n] has the state [n]. *)
Definition hyb_pool : MambaPool ctensor :=
  let slots := CPool float32 ((fun n => [[Fin n]]) <$> [0; 1; 2; 3; 4; 5; 6]) in mkMPool 6 [slots] slots [].

Definition hyb_blank (extra : bool) : demo_mcache :=
  MkMCache demo_params extra ∅ 0 0 0 0 0 0 0 (MkLRU 0 0 ∅) (MkLRU 0 0 ∅) 0 0 [] [] hyb_pool.

Definition hyb_tree (extra : bool) : demo_mcache :=
  demo_minsert [8; 9; 10] [31; 32; 33] 3
    (demo_minsert [1; 2; 4; 5] [21; 22; 23; 24] 2 (demo_minsert [1; 2; 3] [11; 12; 13] 1 (m_reset (hyb_blank extra)).2)).

Definition hyb_locked : demo_mcache := (m_inc_lock_ref demo_mnode (hyb_tree true)).2.

Lemma hyb_tree_consistent : exists lf lm L, consistent (hyb_tree true) lf lm L [] /\ m_params (hyb_tree true) = demo_params.
Proof.
  assert (exists lf lm L, consistent (m_reset (hyb_blank true)).2 lf lm L [] /\
    m_params (m_reset (hyb_blank true)).2 = demo_params) as (lf0 & lm0 & L0 & H0 & P0).
  { destruct (m_reset_run (hyb_blank true)) as [q Hr]. rewrite Hr. exists [], [], {[0%nat]}.
    split; [|reflexivity]. apply (reset_consistent q (hyb_blank true)); [simpl; lia|].
    intros x [n Hn]. simpl in Hn. by rewrite lookup_empty in Hn. }
  destruct (demo_minsert_consistent [1; 2; 3] [11; 12; 13] 1 _ _ _ _ ltac:(repeat constructor; lia) ltac:(done) eq_refl H0 P0)
    as (lf1 & lm1 & L1 & H1 & P1).
  destruct (demo_minsert_consistent [1; 2; 4; 5] [21; 22; 23; 24] 2 _ _ _ _ ltac:(repeat constructor; lia) ltac:(done) eq_refl H1 P1)
    as (lf2 & lm2 & L2 & H2 & P2).
  exact (demo_minsert_consistent [8; 9; 10] [31; 32; 33] 3 _ _ _ _ ltac:(repeat constructor; lia) ltac:(done) eq_refl H2 P2).
Qed.

Lemma hyb_node_live lf lm L : consistent (hyb_tree true) lf lm L [] -> demo_mnode ∈ L.
Proof.
  intros Hcs. pose proof (cs_inv _ _ _ _ _ Hcs) as Hinv. pose proof (cs_full _ _ _ _ _ Hcs) as [Hset _].
  assert (demo_mnode ∈ lru_cache (lru false (hyb_tree true))) as Hin
    by (apply (bool_decide_eq_true_1 (demo_mnode ∈ lru_cache (lru false (hyb_tree true)))); vm_compute; reflexivity).
  rewrite Hset, elem_of_list_to_set in Hin. by apply (minv_full Hinv) in Hin as [? _].
Qed.

Lemma hyb_node_ckpt : demo_mnode = m_root (hyb_tree true) \/ ckpt_of (hyb_tree true) demo_mnode ≠ None.
Proof. right. vm_compute. done. Qed.

(** *** The request *)

(** It has been matched to the node of [1; 2; 3] and has computed two more
    tokens; the checkpoint in slot 6 covers the first four. *)
Definition hyb_req : Req :=
  MkReq [1; 2; 3; 7] [8] [1; 2; 3; 7; 8] None None (Some 1%nat) [] 3 (Some demo_mnode) 5 5 false false 0 0 false.

Definition hyb_row : list Z := [11; 12; 13; 60; 61; 0; 0; 0].

Definition hyb_table : ReqToTokenPool :=
  with_row 1 hyb_row (MkPool 2 8 (req_to_token (pool_init 2 8)) [2%nat]).

Definition hyb_ext : HybridExt :=
  let x := HybridExt_init 2 true true in
  MkHExt (track_buffer_size x) (hp_extra_buffer x) (<[1%nat := 4]> (mamba_index_mapping x))
    (<[1%nat := [5; 6]]> (track_buffer_mapping x)).

Definition hyb_fields : MambaFields := MkMFields (Some 4) (Some [5; 6]) (Some 0) (Some 4%nat) None false.

Definition hyb_env : MReqEnv (list Z) (MambaPool ctensor) := MkMEnv (MkEnv hyb_locked hyb_table hyb_req) hyb_ext hyb_fields.

Example hyb_run :
  let r := m_cache_unfinished_req 1 hyb_env in
  let e := r.2 in
  r.1 = Ok tt /\ m_alloc (tree (h_env e)) = [21; 22; 23; 24] /\ ms_slots (m_pool (tree (h_env e))) = [] /\
  mamba_ping_pong_track_buffer (h_fields e) = Some [5; 2] /\
  ckpt_of (tree (h_env e)) <$> last_node (req (h_env e)) = Some (Some [6]).
Proof. vm_compute. done. Qed.

Lemma hyb_req_held : m_params hyb_locked = demo_params -> m_req_held hyb_locked demo_mnode hyb_req hyb_row [1; 2; 3; 7; 8].
Proof.
  intros Hp. split; [reflexivity|]. exists 3%nat. unfold req_pages. rewrite Hp. split; [reflexivity|]. split; [vm_compute; lia|].
  eexists. unfold m_path. rewrite Hp. apply (path_of_up 8). vm_compute. reflexivity.
Qed.

Lemma hyb_ok : m_params hyb_locked = demo_params -> hybrid_ok hyb_locked hyb_ext hyb_fields 1 4.
Proof.
  intros Hp. split; [vm_compute; reflexivity|left; vm_compute; reflexivity|reflexivity|].
  intros _. exists [5; 6], 0. split_and!; try reflexivity. left. split; [reflexivity|by left].
Qed.

(** Every slot exists if those of every node, of the free list and of the
    request do. *)
Lemma slots_valid_nodes (s : demo_mcache) L own :
  map_Forall (fun _ n => Forall (ms_valid (m_pool s)) (default [] (mamba_value n))) (m_nodes s) ->
  Forall (ms_valid (m_pool s)) (ms_slots (m_pool s) ++ own) -> slots_valid s L own.
Proof.
  intros Hn Ho j Hj. destruct (decide (j ∈ ms_slots (m_pool s) ++ own)) as [Hin|Hout]; [by eapply (proj1 (Forall_forall _ _) Ho)|].
  rewrite <-Z.add_assoc, <-occ_app, <-occ_elem in *. assert (0 < m_ckocc s L j) as Hck by lia. clear Hj Hout. revert Hck.
  unfold m_ckocc, set_sum. induction (elements L) as [|x l IH]; simpl; [lia|]. intros Hck.
  destruct (decide (0 < ck_occ j (mckpt <$> m_nodes s) x)) as [Hx|Hx]; [|apply IH; lia].
  unfold ck_occ in Hx. rewrite lookup_fmap in Hx. destruct (m_nodes s !! x) as [n|] eqn:En; simpl in Hx; [|lia].
  specialize (Hn x n En). simpl in Hn. destruct (mamba_value n) as [mv|]; [|lia].
  apply occ_elem in Hx. by eapply (proj1 (Forall_forall _ _) Hn).
Qed.

Lemma hyb_pool_slot i : 1 <= i <= 6 -> slot_exists hyb_pool i.
Proof.
  assert (uniform (pool_temporal hyb_pool)) as Hu.
  { assert (forall j, 0 <= j < 7 -> Torch.shape (select_slot (pool_temporal hyb_pool) j) = [1; 1]) as Hs.
    { intros j Hj. assert (j = 0 \/ j = 1 \/ j = 2 \/ j = 3 \/ j = 4 \/ j = 5 \/ j = 6) as Hc by lia.
      by destruct Hc as [->|[->|[->|[->|[->|[->| ->]]]]]]. }
    intros j k Hj Hk. rewrite !Hs; [reflexivity|exact Hk|exact Hj]. }
  intros Hi. split; [split; [repeat constructor|reflexivity]|]. split; [constructor; [exact Hu|constructor]|]. split; [exact Hu|exact Hi].
Qed.

Lemma hyb_locked_slots L : slots_valid hyb_locked L (own_slots hyb_ext hyb_fields).
Proof.
  assert (m_pool hyb_locked = hyb_pool) as Hp by (vm_compute; reflexivity).
  assert (forall l, Forall (fun i => 1 <= i <= 6) l -> Forall (slot_exists hyb_pool) l) as Hall
    by (intros l Hl; eapply Forall_impl; [exact Hl|apply hyb_pool_slot]).
  apply slots_valid_nodes; rewrite Hp.
  - apply (map_Forall_impl (fun _ n => Forall (fun i => 1 <= i <= 6) (default [] (mamba_value n)))); [|intros _ n; apply Hall].
    apply (bool_decide_eq_true_1 (map_Forall (fun _ n => Forall (fun i => 1 <= i <= 6) (default [] (mamba_value n))) (m_nodes hyb_locked))).
    vm_compute. reflexivity.
  - apply Hall. apply (bool_decide_eq_true_1 (Forall (fun i => 1 <= i <= 6) (ms_slots hyb_pool ++ own_slots hyb_ext hyb_fields))).
    vm_compute. reflexivity.
Qed.

Lemma hyb_locked_fit L : m_indices_fit hyb_locked L.
Proof.
  intros w v (x & l & w' & v' & _ & Hu & _ & ->). apply Forall_take.
  assert (map_Forall (fun _ n => Forall int32_range (co_val n)) (mcore <$> m_nodes hyb_locked)) as Hall.
  { apply (bool_decide_eq_true_1 (map_Forall (fun _ n => Forall int32_range (co_val n)) (mcore <$> m_nodes hyb_locked))).
    vm_compute. reflexivity. }
  clear w L. revert Hall Hu. generalize (mcore <$> m_nodes hyb_locked). intros g Hall Hu.
  induction Hu as [|y n p l w v Hy Hg Hp Hu IH]; [constructor|].
  apply Forall_app. split; [exact IH|]. exact (Hall y n Hg).
Qed.

Lemma hyb_row_fit : Forall int32_range hyb_row.
Proof. apply (bool_decide_eq_true_1 (Forall int32_range hyb_row)). vm_compute. reflexivity. Qed.

Lemma hyb_track : m_params hyb_locked = demo_params ->
  track_ok hyb_locked hyb_fields [1; 2; 3; 7; 8] 4 /\ (3 ≤ 4 * page_size (m_params hyb_locked))%nat.
Proof.
  intros Hp. unfold track_ok. rewrite Hp. assert (enable_mamba_extra_buffer hyb_locked = true) as He by (vm_compute; reflexivity).
  unfold tracked_len. rewrite He. split; [split; [reflexivity|vm_compute; lia]|vm_compute; lia].
Qed.

Lemma hyb_room : ~ (ms_slots (m_pool hyb_locked) = [] /\ mamba_evictable_size hyb_locked = 0).
Proof. intros [_ He]. vm_compute in He. discriminate. Qed.

#[local] Opaque hyb_tree.

Lemma hyb_locked_consistent :
  exists lf lm L, consistent hyb_locked lf lm L [demo_mnode] /\ m_params hyb_locked = demo_params.
Proof.
  destruct hyb_tree_consistent as (lf & lm & L & Hcs & Hp).
  assert (disable (m_params (hyb_tree true)) = false) as Hd by (rewrite Hp; reflexivity).
  destruct (m_acquire_run (hyb_tree true) lf lm L [] demo_mnode Hcs Hd (hyb_node_live lf lm L Hcs) hyb_node_ckpt)
    as (s1 & Hr & Hcs1 & Hsame). destruct (sa_keeps _ _ _ Hsame) as (Ep & _).
  unfold hyb_locked. rewrite Hr. exists lf, lm, L. split; [exact Hcs1|]. exact (eq_trans Ep Hp).
Qed.

(** *** The theorems at this request *)

#[local] Opaque hyb_locked.

(** The same request with the cache disabled. *)
Definition hyb_off : MReqEnv (list Z) (MambaPool ctensor) :=
  MkMEnv (MkEnv (MkMCache (MkParams true 1 true false false LRUStrategy) true ∅ 0 0 0 0 0 0 0
      (MkLRU 0 0 ∅) (MkLRU 0 0 ∅) 0 0 [] [] hyb_pool) hyb_table hyb_req) hyb_ext hyb_fields.

Lemma hyb_off_ok : hybrid_ok (tree (h_env hyb_off)) hyb_ext hyb_fields 1 4.
Proof.
  split; [reflexivity|by left|reflexivity|].
  intros _. exists [5; 6], 0. split_and!; try reflexivity. left. split; [reflexivity|by left].
Qed.

Lemma m_release_kv_cache_spec_witness :
  (exists lf lm L ex t' lf' lm' L' fs,
    consistent hyb_locked lf lm L [demo_mnode] /\
    m_release_kv_cache demo_args true hyb_env =
      (Ok tt, MkMEnv (MkEnv t' (row_returned 1 hyb_table) (req_released hyb_req)) hyb_ext
        (fields_after hyb_locked hyb_fields ex)) /\
    consistent t' lf' lm' L' [] /\
    (forall j, m_occ t' L' j + occ j (concat fs) = m_occ hyb_locked L j + occ j [60; 61]) /\
    forall j, m_ckocc t' L' j + occ j (ms_slots (m_pool t')) =
      m_ckocc hyb_locked L j + occ j (ms_slots (m_pool hyb_locked)) + occ j [4; 5; 6]) /\
  (m_release_kv_cache demo_args true hyb_off).1 = Ok tt.
Proof.
  split.
  - destruct hyb_locked_consistent as (lf & lm & L & Hcs & Hp). exists lf, lm, L.
    destruct (m_release_kv_cache_spec demo_args hyb_env lf lm L [demo_mnode] [] demo_mnode hyb_row 4 1 4 true
      ltac:(exact I) ltac:(reflexivity) ltac:(reflexivity) ltac:(reflexivity) ltac:(reflexivity) (hyb_ok Hp)
      ltac:(reflexivity)) as (_ & Hen & _).
    destruct Hen as (ex & t' & lf' & lm' & L' & fs & Hr & Hcs' & _ & _ & _ & _ & _ & Ho & Hk & _);
      [cbn [tree h_env hyb_env]; rewrite Hp; reflexivity|exact Hcs|reflexivity|reflexivity|cbn; lia|repeat constructor; lia|
       exact (hyb_req_held Hp)|exact (proj1 (hyb_track Hp))|].
    exists ex, t', lf', lm', L', fs. split; [exact Hcs|]. split; [exact Hr|]. split; [exact Hcs'|]. split; [exact Ho|exact Hk].
  - destruct (m_release_kv_cache_spec demo_args hyb_off [] [] ∅ [] [] 0 hyb_row 0 1 4 true
      ltac:(exact I) ltac:(reflexivity) ltac:(reflexivity) ltac:(reflexivity) ltac:(reflexivity) hyb_off_ok
      ltac:(reflexivity)) as (Hoff & _).
    destruct (Hoff eq_refl) as (frees & Hr & _). by rewrite Hr.
Defined.

Lemma m_cache_unfinished_req_spec_witness : exists lf lm L t' lf' lm' L' x row' ext' f' fs ex d,
  consistent hyb_locked lf lm L [demo_mnode] /\
  m_cache_unfinished_req 1 hyb_env =
    (Ok tt, MkMEnv (MkEnv t' (with_row 1 row' hyb_table)
      (set_cached (take 5 row') (4 * page_size (m_params hyb_locked)) (Some x) hyb_req)) ext' f') /\
  consistent t' lf' lm' L' [x] /\ m_requeued hyb_env L [] 1 4 4 hyb_row t' L' x row' ext' f' fs ex d.
Proof.
  destruct hyb_locked_consistent as (lf & lm & L & Hcs & Hp). exists lf, lm, L.
  destruct (m_cache_unfinished_req_spec 1 hyb_env lf lm L [demo_mnode] [] demo_mnode hyb_row 4 1 4 Hcs
    ltac:(reflexivity) I ltac:(cbn [tree h_env hyb_env]; rewrite Hp; reflexivity) ltac:(reflexivity) ltac:(reflexivity)
    ltac:(cbn; lia) ltac:(repeat constructor; lia) hyb_row_fit (hyb_locked_fit L) (hyb_req_held Hp) (hyb_ok Hp)
    (hyb_locked_slots L) (proj1 (hyb_track Hp)) ltac:(discriminate) (proj2 (hyb_track Hp))) as [Hrun _].
  cbn [tree h_env hyb_env] in Hrun. rewrite (decide_False _ _ hyb_room) in Hrun.
  destruct Hrun as (t' & lf' & lm' & L' & x & row' & ext' & f' & fs & ex & d & Hr & Hcs' & Hrq).
  exists t', lf', lm', L', x, row', ext', f', fs, ex, d. split; [exact Hcs|]. split; [exact Hr|]. split; [exact Hcs'|exact Hrq].
Defined.

(** *** A new request *)

Definition new_req : Req :=
  MkReq [1; 2; 9] [] [1; 2; 9] None None None [] 0 (Some 0%nat) 0 0 false false 0 0 false.

(** It enters a batch while every slot of the pool is in use. *)
Definition hyb_batch : BatchEnv (list Z) (MambaPool ctensor) :=
  MkBatch (hyb_tree true) (pool_init 2 8) (HybridExt_init 2 true true) [(new_req, MkMFields None None None None None false)].

Lemma hyb_batch_ok : batch_ok hyb_batch.
Proof.
  split; [discriminate|constructor; [discriminate|constructor]| | |constructor; [|constructor]| |].
  - apply (bool_decide_eq_true_1 (NoDup [1; 2]%nat)). vm_compute. reflexivity.
  - cbn. repeat (constructor; [split; [lia|intros _; lia]|]). constructor.
  - split; [by right|discriminate].
  - vm_compute. reflexivity.
  - left. vm_compute. reflexivity.
Qed.

Lemma hyb_batch_room :
  len (b_reqs hyb_batch) * MAMBA_STATE_PER_REQ_PREFIX_CACHE <=
    len (ms_slots (m_pool (b_tree hyb_batch))) + mamba_evictable_size (b_tree hyb_batch).
Proof. vm_compute. discriminate. Qed.

Lemma m_alloc_req_slots_spec_witness : exists lf lm L s1 lm1 L1 vs mvs p' t' x' reqs',
  consistent (hyb_tree true) lf lm L [] /\ m_evicted (hyb_tree true) lf L [] s1 lm1 L1 vs mvs /\
  m_alloc_req_slots hyb_batch = (Ok tt, MkBatch (mu_pool p' s1) t' x' reqs') /\
  Forall2 (admitted (mu_pool p' s1) x') (b_reqs hyb_batch) reqs'.
Proof.
  destruct hyb_tree_consistent as (lf & lm & L & Hcs & Hp). exists lf, lm, L.
  destruct (m_alloc_req_slots_spec hyb_batch lf lm L [] Hcs (demo_alloc_ok (hyb_tree true)) ltac:(cbn [b_tree hyb_batch]; rewrite Hp; reflexivity)
    hyb_batch_ok hyb_batch_room) as (s1 & lm1 & L1 & vs & mvs & Hev & _ & Hrun).
  exists s1, lm1, L1, vs, mvs. rewrite decide_True in Hrun by (cbn; lia).
  destruct Hrun as (p' & t' & x' & reqs' & Hr & _ & _ & Hadm & _). exists p', t', x', reqs'.
  split; [exact Hcs|]. split; [exact Hev|]. split; [exact Hr|exact Hadm].
Defined.

Lemma hyb_next_slot : next_slot hyb_ext hyb_fields 5.
Proof. exists [5; 6], 0, 0%nat. split_and!; try reflexivity. left. split; [reflexivity|by left]. Qed.

(** A prefill of 200 tokens after 64: 192 of them are whole chunks of 64. *)
Lemma prepare_for_extend_spec_witness : exists c seqlen f',
  prepare_for_extend 64 64 hyb_ext 64 200 (Some 128) hyb_fields = (Ok (MkTrack true 5 seqlen), f') /\
  tracks hyb_ext hyb_fields 5 (c * 16) f' /\ (64 < c * 16 ≤ 264)%nat /\ rounds_to 64 64 200 seqlen (c * 16).
Proof.
  assert (sizes_ok 64 64 16) as Hsz by (split; [lia|split; [lia|left; split; [reflexivity|exists 4%nat; reflexivity]]]).
  refine (prepare_for_extend_spec 64 64 16 hyb_ext hyb_fields 5 64 200 (Some 128) Hsz hyb_next_slot _ _).
  - exists 4%nat. reflexivity.
  - intros br [= <-]. reflexivity.
Defined.

(** The fifth token is a multiple of the interval 5. *)
Lemma mamba_prefix_cache_update_spec_witness : exists f',
  mamba_prefix_cache_update 5 hyb_ext (MkReq [1; 2; 3; 7] [8; 9] [] None None None [] 0 None 0 0 false false 0 0 false) false None hyb_fields
    = (Ok tt, f') /\ (exists c, tracks hyb_ext hyb_fields 5 (c * 5) f').
Proof.
  destruct (mamba_prefix_cache_update_spec 5 hyb_ext hyb_fields 5
    (MkReq [1; 2; 3; 7] [8; 9] [] None None None [] 0 None 0 0 false false 0 0 false) false None ltac:(lia) hyb_next_slot
    ltac:(vm_compute; discriminate) ltac:(discriminate)) as (f' & Hr & [(c & _ & Ht)|[Hno _]] & _).
  - exists f'. split; [exact Hr|]. exists c. exact Ht.
  - destruct (Hno 1%nat). reflexivity.
Defined.

(** *** Thinking tokens *)

(** A prompt of three tokens and two thinking tokens, all computed and cached
    under no prefix yet. *)
Definition mthink_req : Req :=
  MkReq [1; 2; 6] [7; 8] [1; 2; 6; 7; 8] None None (Some 1%nat) [] 0 (Some 0%nat) 5 5 false false 2 0 false.

Definition mthink_env (extra : bool) : MReqEnv (list Z) (MambaPool ctensor) :=
  MkMEnv (MkEnv (m_inc_lock_ref 0 (m_reset (hyb_blank extra)).2).2
    (with_row 1 [51; 52; 53; 54; 55; 0; 0; 0] (MkPool 2 8 (req_to_token (pool_init 2 8)) [2%nat])) mthink_req)
    (if extra then hyb_ext else HybridExt_init 2 false false)
    (if extra then hyb_fields else MkMFields (Some 4) None None None None false).

(** With [strip_thinking_cache] only the prompt counts as committed.  With the
    extra buffer, a checkpoint taken during decoding covers more tokens than
    that, and the release of the request fails an assertion. *)
Lemma strip_thinking_release_fails :
  (m_release_kv_cache think_args true (mthink_env true)).1 = Raise (Exn AssertionError "It is required").
Proof. vm_compute. reflexivity. Qed.

(** Without the extra buffer the release succeeds, and the running state (slot
    4), which has consumed prompt and output, becomes the checkpoint of the
    prompt: a later request with that prompt starts from it. *)
Lemma strip_thinking_files_late_state :
  let r := m_release_kv_cache think_args true (mthink_env false) in
  let t := tree (h_env r.2) in
  r.1 = Ok tt /\
  mm_indices <$> (match (m_match_prefix 1 (plain [1; 2; 6; 9]) None t).1 with Ok m => Some m | Raise _ => None end) =
    Some [51; 52; 53] /\
  (match (m_match_prefix 1 (plain [1; 2; 6; 9]) None t).1 with Ok m => ckpt_of t (mm_last m) | Raise _ => None end) = Some [4].
Proof. vm_compute. repeat split. Qed.

(** A request whose running slot went to the tree keeps its [mamba_pool_idx]
    after the release; only where the slot was freed is it reset. *)
Lemma released_keeps_pool_idx :
  let r := m_release_kv_cache demo_args true (mthink_env false) in
  r.1 = Ok tt /\ mamba_pool_idx (h_fields r.2) = Some 4 /\ ms_slots (m_pool (tree (h_env r.2))) = [].
Proof. vm_compute. repeat split. Qed.
