(* ===== verification/Agents.v ===== *)
(** * Agent tools and the agent loop

    [ToolRegistry] and [Tool] of agents/tool_registry.py, [ToolExecutionEngine]
    of agents/tool_execution.py and [AgentLoop] of agents/agent_loop.py: the
    model answers, the tools it asks for are run, their results go back to the
    model, until it asks for none or the limit is reached.

    The code never looks into the values of parameters: they are of an
    arbitrary type [V] with the comparison [==].  A tool's function is of an
    arbitrary type [F].  What the operating system and asyncio make of calling
    it is given by [run_worker], the state of the worker process and its queues
    when [join] returns, and [run_async], the end of awaiting the coroutine.
    Both depend on the number of the execution, so that tools may keep state of
    their own and two calls of a tool may differ; [elapsed] is the time an
    execution takes.  Tools do not change the registry or the context dictionary
    of the loop.  [metadata.get("tags", [])] is the list [t_tags].

    The model and the parser of tool calls are given to the loop by its caller
    and are parameters: [generate i] is the [i]-th call of the model and
    [extract] is [extract_tool_calls_from_response]; both may raise.  Nothing is
    assumed of what the parser finds: a model may write a JSON list where
    parameters are expected, or a number for a name, and the parser passes it
    on.  A message carries the tool calls themselves instead of their
    dictionaries. *)

From S2P Require Import Prelude PyDict PyText.

(** ** Tools *)

Inductive ToolParameterType := STRING | INTEGER | FLOAT | BOOLEAN | OBJECT | ARRAY.

Definition type_value (t : ToolParameterType) : string :=
  match t with
  | STRING => "string" | INTEGER => "integer" | FLOAT => "float"
  | BOOLEAN => "boolean" | OBJECT => "object" | ARRAY => "array"
  end.

(** [ToolParameter]; [properties] and [items] only describe it to the model *)
Record ToolParameter (V : Type) := MkParam {
  pm_name : string;
  pm_type : ToolParameterType;
  pm_description : string;
  pm_required : bool;
  pm_default : option V;
  pm_enum : option (list V)
}.
Arguments MkParam {V}.
Arguments pm_name {V}.
Arguments pm_type {V}.
Arguments pm_description {V}.
Arguments pm_required {V}.
Arguments pm_default {V}.
Arguments pm_enum {V}.

Record Tool (V F : Type) := MkTool {
  t_name : string;
  t_description : string;
  t_parameters : list (ToolParameter V);
  t_function : F;
  requires_conversation_context : bool;
  is_async : bool;
  t_tags : list string
}.
Arguments MkTool {V F}.
Arguments t_name {V F}.
Arguments t_description {V F}.
Arguments t_parameters {V F}.
Arguments t_function {V F}.
Arguments requires_conversation_context {V F}.
Arguments is_async {V F}.
Arguments t_tags {V F}.

(** The parameters of a call as a model wrote them: a dictionary, or something
    else, of which only [k in params] may have a value *)
Inductive params_t (V : Type) :=
  | PDict (d : dict string V)
  | PNoDict (contains : string -> res bool).
Arguments PDict {V}.
Arguments PNoDict {V}.

(** The name of the tool in a call: a string, or another JSON value, which no
    tool has; [shown] is how it is printed, and a list or a dictionary cannot be
    looked up *)
Inductive name_t := Name (s : string) | NotAName (shown : string) (hashable : bool).

Definition name_shown (n : name_t) : string := match n with Name s => s | NotAName s _ => s end.

(** ** The registry *)

Record ToolRegistry (V F : Type) := MkRegistry {
  rg_tools : dict string (Tool V F);
  rg_tags : dict string (list string)
}.
Arguments MkRegistry {V F}.
Arguments rg_tools {V F}.
Arguments rg_tags {V F}.

Section registry.
Context {V F : Type} (py_eq : V -> V -> bool) (callable : F -> bool).
Abbreviation MR := (M (ToolRegistry V F)).
Implicit Types (t : Tool V F) (r : ToolRegistry V F).

Definition ToolRegistry_init : ToolRegistry V F := MkRegistry [] [].

(** The loop of [register] over the tags *)
Definition add_tag (name : string) (tags : dict string (list string)) (tag : string) : dict string (list string) :=
  dict_set tags tag (default [] (dict_get tags tag) ++ [name]).

Definition register t : MR unit := fun r =>
  if dict_has (rg_tools r) (t_name t) then
    (Raise (Exn ValueError ("Tool '" +:+ t_name t +:+ "' already registered")), r)
  else if negb (callable (t_function t)) then
    (Raise (Exn ValueError ("Tool '" +:+ t_name t +:+ "' function must be callable")), r)
  else
    (Ok tt, MkRegistry (dict_set (rg_tools r) (t_name t) t) (foldl (add_tag (t_name t)) (rg_tags r) (t_tags t))).

(** [l.remove(x)] for a member *)
Fixpoint remove_first (x : string) (l : list string) : list string :=
  match l with
  | [] => []
  | y :: l' => if decide (y = x) then l' else y :: remove_first x l'
  end.

(** The loop of [unregister] *)
Definition drop_tag (name : string) (tags : dict string (list string)) (tag : string) : dict string (list string) :=
  match dict_get tags tag with
  | None => tags
  | Some l =>
      if decide (name ∈ l) then
        match remove_first name l with
        | [] => dict_del tags tag
        | l' => dict_set tags tag l'
        end
      else tags
  end.

Definition unregister (name : string) : MR bool := fun r =>
  match dict_get (rg_tools r) name with
  | None => (Ok false, r)
  | Some t => (Ok true, MkRegistry (dict_del (rg_tools r) name) (foldl (drop_tag name) (rg_tags r) (t_tags t)))
  end.

Definition get r (name : string) : option (Tool V F) := dict_get (rg_tools r) name.

(** [get] for the name in a call *)
Definition get_called r (n : name_t) : res (option (Tool V F)) :=
  match n with
  | Name s => Ok (get r s)
  | NotAName _ true => Ok None
  | NotAName _ false => Raise (Exn TypeError "unhashable type")
  end.

Fixpoint lookup_all (tools : dict string (Tool V F)) (names : list string) : res (list (Tool V F)) :=
  match names with
  | [] => Ok []
  | n :: names' =>
      match dict_get tools n with
      | None => Raise (Exn KeyError n)
      | Some t => match lookup_all tools names' with Ok l => Ok (t :: l) | Raise e => Raise e end
      end
  end.

Definition list_tools r (tag : option string) : res (list (Tool V F)) :=
  match tag with
  | None => Ok (dict_values (rg_tools r))
  | Some tag => lookup_all (rg_tools r) (default [] (dict_get (rg_tags r) tag))
  end.

Definition get_tool_names r (tag : option string) : list string :=
  match tag with
  | None => dict_keys (rg_tools r)
  | Some tag => default [] (dict_get (rg_tags r) tag)
  end.

Definition registry_clear : MR unit := fun _ => (Ok tt, ToolRegistry_init).

(** *** Schemas for the model *)

Record PropertySchema := MkProp {
  ps_type : string;
  ps_description : string;
  ps_enum : option (list V);
  ps_default : option V
}.

Record ToolSchema := MkSchema {
  sc_name : string;
  sc_description : string;
  sc_properties : dict string PropertySchema;
  sc_required : list string
}.

Definition tool_schema t : ToolSchema :=
  MkSchema (t_name t) (t_description t)
    (foldl (fun d p => dict_set d (pm_name p) (MkProp (type_value (pm_type p)) (pm_description p) (pm_enum p) (pm_default p)))
      [] (t_parameters t))
    (pm_name <$> filter (fun p => pm_required p = true) (t_parameters t)).

Definition get_tool_schemas r : list ToolSchema := tool_schema <$> dict_values (rg_tools r).

(** *** [validate_parameters] *)

Definition find_param t (name : string) : option (ToolParameter V) := find (fun p => bool_decide (pm_name p = name)) (t_parameters t).

(** [x in l] *)
Definition py_in (x : V) (l : list V) : bool := existsb (py_eq x) l.

Fixpoint has_required (contains : string -> res bool) (l : list (ToolParameter V)) : res bool :=
  match l with
  | [] => Ok true
  | p :: l' =>
      if pm_required p then
        match contains (pm_name p) with
        | Ok true => has_required contains l'
        | Ok false => Ok false
        | Raise e => Raise e
        end
      else has_required contains l'
  end.

Definition valid_item t (kv : string * V) : bool :=
  match find_param t kv.1 with
  | None => false
  | Some p => match pm_enum p with Some l => py_in kv.2 l | None => true end
  end.

Definition validate_parameters t (ps : params_t V) : res bool :=
  match ps with
  | PDict d =>
      match has_required (fun k => Ok (dict_has d k)) (t_parameters t) with
      | Ok true => Ok (forallb (valid_item t) d)
      | other => other
      end
  | PNoDict contains =>
      match has_required contains (t_parameters t) with
      | Ok true => Raise (Exn AttributeError "object has no attribute 'items'")
      | other => other
      end
  end.
End registry.

(** ** The execution engine *)

Inductive ToolExecutionStatus := SUCCESS | ERROR | TIMEOUT | VALIDATION_ERROR.

#[export] Instance status_eq_dec : EqDecision ToolExecutionStatus.
Proof. solve_decision. Defined.

(** [execution_time_ms] in the clock's unit; [metadata] is the sanitized trace *)
Record ToolExecutionResult (V : Type) := MkResult {
  x_tool_name : string;
  x_status : ToolExecutionStatus;
  x_result : option V;
  x_error : option string;
  x_time : Z
}.
Arguments MkResult {V}.
Arguments x_tool_name {V}.
Arguments x_status {V}.
Arguments x_result {V}.
Arguments x_error {V}.
Arguments x_time {V}.

(** What [_execute_sync] or [_execute_async] comes to: a value, a
    [TimeoutError], another exception that [except Exception] catches, or one
    that it does not catch *)
Inductive outcome (V : Type) :=
  | Returned (v : V)
  | TimedOut
  | Raised (class msg : string)
  | Escaped (msg : string).
Arguments Returned {V}.
Arguments TimedOut {V}.
Arguments Raised {V}.
Arguments Escaped {V}.

(** The worker process of [_execute_sync] when [proc.join(timeout)] returns:
    it could not be started, the wait was interrupted, it is alive, or it has
    finished with what it left in the two queues (nothing, if the tool called
    [sys.exit]) *)
Inductive worker (V : Type) :=
  | NotStarted (class msg : string)
  | Interrupted (msg : string)
  | Alive
  | Finished (exception : option (string * string)) (result : option V).
Arguments NotStarted {V}.
Arguments Interrupted {V}.
Arguments Alive {V}.
Arguments Finished {V}.

(** The counters; [started] numbers the executions and is no attribute *)
Record Stats := MkStats {
  started : nat;
  total_executions : Z;
  successful_executions : Z;
  failed_executions : Z;
  total_execution_time : Z
}.

Definition zero_stats : Stats := MkStats 0 0 0 0 0.

(** The three blocks under [_stats_lock] *)
Definition count_start (s : Stats) : Stats :=
  MkStats (S (started s)) (total_executions s + 1) (successful_executions s) (failed_executions s) (total_execution_time s).
Definition count_success (elapsed : Z) (s : Stats) : Stats :=
  MkStats (started s) (total_executions s) (successful_executions s + 1) (failed_executions s) (total_execution_time s + elapsed).
Definition count_failure (s : Stats) : Stats :=
  MkStats (started s) (total_executions s) (successful_executions s) (failed_executions s + 1) (total_execution_time s).

(** [reset_stats] *)
Definition reset_stats (s : Stats) : Stats := MkStats (started s) 0 0 0 0.

Section engine.
Context {V F : Type} (py_eq : V -> V -> bool).
(** The call of the function with its parameters and the timeout in effect; how
    long the execution takes; the empty dictionary as a value; how a timeout is
    printed *)
Context (run_worker : nat -> F -> dict string V -> Z -> worker V) (run_async : nat -> F -> dict string V -> Z -> outcome V).
Context (elapsed : nat -> Z).
Context (empty_dict : V) (show_timeout : Z -> string).
Context (default_timeout : Z).
Abbreviation MS := (M Stats).

(** [timeout or self.default_timeout] *)
Definition effective_timeout (timeout : option Z) : Z :=
  match timeout with Some z => if decide (z = 0) then default_timeout else z | None => default_timeout end.

(** [_execute_sync]; an exception of the tool arrives as a [RuntimeError] *)
Definition execute_sync (i : nat) (t : Tool V F) (d : dict string V) (timeout : Z) : outcome V :=
  match run_worker i (t_function t) d timeout with
  | NotStarted class msg => Raised class msg
  | Interrupted msg => Escaped msg
  | Alive => TimedOut
  | Finished (Some (class, msg)) _ => Raised "RuntimeError" (class +:+ ": " +:+ msg)
  | Finished None (Some v) => Returned v
  | Finished None None => Raised "RuntimeError" ("Tool '" +:+ t_name t +:+ "' completed but produced no result")
  end.

(** [_execute_async] *)
Definition execute_async (i : nat) (t : Tool V F) (d : dict string V) (timeout : Z) : outcome V :=
  run_async i (t_function t) d timeout.

Definition execute_tool (i : nat) (t : Tool V F) (d : dict string V) (timeout : Z) : outcome V :=
  if is_async t then execute_async i t d timeout else execute_sync i t d timeout.

(** [{**parameters, "_conversation_context": ...}] if the tool requires it *)
Definition with_context (t : Tool V F) (context : option V) (d : dict string V) : dict string V :=
  if requires_conversation_context t then dict_set d "_conversation_context" (default empty_dict context) else d.

(** [execute]; exceptions in the lookup and in [validate_parameters] are not
    caught *)
Definition execute (r : ToolRegistry V F) (name : name_t) (ps : params_t V) (context : option V) (timeout : option Z) :
    MS (ToolExecutionResult V) :=
  i ← gets started;
  modify count_start ≫= fun _ =>
  tool ← lift_res (get_called r name);
  match tool with
  | None =>
      modify count_failure ≫= fun _ =>
      mret (MkResult (name_shown name) ERROR None (Some ("Tool '" +:+ name_shown name +:+ "' not found in registry")) 0)
  | Some t =>
      valid ← lift_res (validate_parameters py_eq t ps);
      match valid, ps with
      | true, PDict d =>
          match execute_tool i t (with_context t context d) (effective_timeout timeout) with
          | Returned v =>
              modify (count_success (elapsed i)) ≫= fun _ =>
              mret (MkResult (name_shown name) SUCCESS (Some v) None (elapsed i))
          | TimedOut =>
              modify count_failure ≫= fun _ =>
              mret (MkResult (name_shown name) TIMEOUT None
                (Some ("Execution timeout after " +:+ show_timeout (effective_timeout timeout) +:+ "s")) (elapsed i))
          | Raised class msg =>
              modify count_failure ≫= fun _ =>
              mret (MkResult (name_shown name) ERROR None (Some (class +:+ ": " +:+ msg)) (elapsed i))
          | Escaped msg => raise BaseException msg
          end
      | _, _ =>
          modify count_failure ≫= fun _ =>
          mret (MkResult (name_shown name) VALIDATION_ERROR None (Some "Parameter validation failed") (elapsed i))
      end
  end.

(** [execute_batch]: a call without a name is answered without being counted *)
Fixpoint execute_batch (r : ToolRegistry V F) (calls : list (option name_t * params_t V)) (context : option V)
    (timeout : option Z) : MS (list (ToolExecutionResult V)) :=
  match calls with
  | [] => mret []
  | (None, _) :: calls' =>
      rest ← execute_batch r calls' context timeout;
      mret (MkResult "unknown" ERROR None (Some "Missing tool name in tool call") 0 :: rest)
  | (Some name, ps) :: calls' =>
      x ← execute r name ps context timeout;
      rest ← execute_batch r calls' context timeout;
      mret (x :: rest)
  end.
End engine.

(** ** The agent loop *)

Inductive role_t := SYSTEM | USER | ASSISTANT | TOOL.

(** [ParsedToolCall]: what the loop uses of it *)
Record ParsedToolCall (V : Type) := MkCall { c_name : name_t; c_parameters : params_t V }.
Arguments MkCall {V}.
Arguments c_name {V}.
Arguments c_parameters {V}.

Record AgentMessage (V : Type) := MkMessage {
  g_role : role_t;
  g_content : string;
  g_tool_calls : option (list (ParsedToolCall V));
  g_tool_results : option (list (ToolExecutionResult V))
}.
Arguments MkMessage {V}.
Arguments g_role {V}.
Arguments g_content {V}.
Arguments g_tool_calls {V}.
Arguments g_tool_results {V}.

Record AgentLoopConfig := MkConfig {
  max_iterations : Z;
  max_tool_calls_per_iteration : Z;
  tool_timeout : Z
}.

(** The attributes of [AgentLoop] that change, with the executor's counters and
    the number of calls of the model *)
Record AgentLoop (V : Type) := MkLoop {
  ag_messages : list (AgentMessage V);
  ag_context : dict string V;
  ag_total_iterations : Z;
  ag_total_tool_calls : Z;
  ag_total_model_calls : Z;
  ag_exec_stats : Stats;
  ag_calls_made : nat
}.
Arguments MkLoop {V}.
Arguments ag_messages {V}.
Arguments ag_context {V}.
Arguments ag_total_iterations {V}.
Arguments ag_total_tool_calls {V}.
Arguments ag_total_model_calls {V}.
Arguments ag_exec_stats {V}.
Arguments ag_calls_made {V}.

Section loop.
Context {V F : Type} (py_eq : V -> V -> bool) (of_string : string -> V) (of_dict : dict string V -> V).
Context (run_worker : nat -> F -> dict string V -> Z -> worker V) (run_async : nat -> F -> dict string V -> Z -> outcome V).
Context (elapsed : nat -> Z).
Context (empty_dict : V) (show_timeout show_ms : Z -> string) (show : V -> string) (default_timeout : Z).
Context (registry : ToolRegistry V F) (config : AgentLoopConfig).
Context (generate : nat -> list (AgentMessage V) -> res string) (extract : string -> res (list (ParsedToolCall V))).
Abbreviation ML := (M (AgentLoop V)).
Implicit Types s : AgentLoop V.

Definition add_message (m : AgentMessage V) s : AgentLoop V :=
  MkLoop (ag_messages s ++ [m]) (ag_context s) (ag_total_iterations s) (ag_total_tool_calls s) (ag_total_model_calls s)
    (ag_exec_stats s) (ag_calls_made s).

Definition count_iteration s : AgentLoop V :=
  MkLoop (ag_messages s) (ag_context s) (ag_total_iterations s + 1) (ag_total_tool_calls s) (ag_total_model_calls s)
    (ag_exec_stats s) (ag_calls_made s).

Definition count_model_call s : AgentLoop V :=
  MkLoop (ag_messages s) (ag_context s) (ag_total_iterations s) (ag_total_tool_calls s) (ag_total_model_calls s + 1)
    (ag_exec_stats s) (ag_calls_made s).

Definition count_tool_calls (n : Z) s : AgentLoop V :=
  MkLoop (ag_messages s) (ag_context s) (ag_total_iterations s) (ag_total_tool_calls s + n) (ag_total_model_calls s)
    (ag_exec_stats s) (ag_calls_made s).

(** [_generate_model_response] *)
Definition generate_model_response : ML string := fun s =>
  (generate (ag_calls_made s) (ag_messages s),
   MkLoop (ag_messages s) (ag_context s) (ag_total_iterations s) (ag_total_tool_calls s) (ag_total_model_calls s)
     (ag_exec_stats s) (S (ag_calls_made s))).

Definition on_executor {C} (m : M Stats C) : ML C :=
  zoom ag_exec_stats (fun x s => MkLoop (ag_messages s) (ag_context s) (ag_total_iterations s) (ag_total_tool_calls s)
    (ag_total_model_calls s) x (ag_calls_made s)) m.

(** [_execute_tools] *)
Fixpoint execute_tools (calls : list (ParsedToolCall V)) : ML (list (ToolExecutionResult V)) :=
  match calls with
  | [] => mret []
  | c :: calls' =>
      context ← gets ag_context;
      x ← on_executor (execute py_eq run_worker run_async elapsed empty_dict show_timeout default_timeout registry
            (c_name c) (c_parameters c) (Some (of_dict context)) (Some (tool_timeout config)));
      rest ← execute_tools calls';
      mret (x :: rest)
  end.

Definition status_value (x : ToolExecutionStatus) : string :=
  match x with
  | SUCCESS => "success" | ERROR => "error" | TIMEOUT => "timeout" | VALIDATION_ERROR => "validation_error"
  end.

Definition nl : string := String newline "".

(** The lines for the [i]-th result *)
Definition result_lines (i : nat) (x : ToolExecutionResult V) : list string :=
  [nl +:+ pretty i +:+ ". Tool: " +:+ x_tool_name x;
   "   Status: " +:+ status_value (x_status x);
   if decide (x_status x = SUCCESS) then "   Result: " +:+ (match x_result x with Some v => show v | None => "None" end)
   else "   Error: " +:+ default "None" (x_error x);
   "   Execution time: " +:+ show_ms (x_time x) +:+ "ms"].

Fixpoint all_lines (i : nat) (l : list (ToolExecutionResult V)) : list string :=
  match l with [] => [] | x :: l' => result_lines i x ++ all_lines (S i) l' end.

(** [_format_tool_results] *)
Definition format_tool_results (l : list (ToolExecutionResult V)) : string :=
  match l with
  | [] => "No tool results."
  | _ => String.concat nl ("Tool execution results:" :: all_lines 1 l)
  end.

(** [tool_calls[:limit]] if there are more *)
Definition limit_calls (l : list (ParsedToolCall V)) : list (ParsedToolCall V) :=
  let limit := max_tool_calls_per_iteration config in
  if decide (limit < len l) then take (Z.to_nat (if decide (limit < 0) then len l + limit else limit)) l else l.

(** The loop of [run]: [n] iterations are left; [None] when they are used up *)
Fixpoint iterate (n : nat) : ML (option string) :=
  match n with
  | O => mret None
  | S n' =>
      modify count_iteration ≫= fun _ =>
      model_response ← generate_model_response;
      modify count_model_call ≫= fun _ =>
      tool_calls ← lift_res (extract model_response);
      match tool_calls with
      | [] => mret (Some model_response)
      | _ =>
          let tool_calls := limit_calls tool_calls in
          modify (add_message (MkMessage ASSISTANT model_response (Some tool_calls) None)) ≫= fun _ =>
          tool_results ← execute_tools tool_calls;
          modify (count_tool_calls (len tool_results)) ≫= fun _ =>
          modify (add_message (MkMessage TOOL (format_tool_results tool_results) None (Some tool_results))) ≫= fun _ =>
          iterate n'
      end
  end.

Definition exhausted_response : string :=
  "Maximum iterations (" +:+ pretty (max_iterations config) +:+ ") reached. Unable to complete request.".

(** [if conversation_id: ...["conversation_id"] = conversation_id] *)
Definition set_conversation (conversation_id : option string) s : AgentLoop V :=
  match conversation_id with
  | None => s
  | Some cid =>
      if decide (cid = "") then s
      else MkLoop (ag_messages s) (dict_set (ag_context s) "conversation_id" (of_string cid)) (ag_total_iterations s)
        (ag_total_tool_calls s) (ag_total_model_calls s) (ag_exec_stats s) (ag_calls_made s)
  end.

(** [if system_prompt and not self.messages: ...] *)
Definition add_system_prompt (system_prompt : option string) s : AgentLoop V :=
  match system_prompt, ag_messages s with
  | Some p, [] => if decide (p = "") then s else add_message (MkMessage SYSTEM p None None) s
  | _, _ => s
  end.

(** [run] *)
Definition run (user_input : string) (system_prompt conversation_id : option string) : ML string :=
  modify (set_conversation conversation_id) ≫= fun _ =>
  modify (add_system_prompt system_prompt) ≫= fun _ =>
  modify (add_message (MkMessage USER user_input None None)) ≫= fun _ =>
  final ← iterate (Z.to_nat (max_iterations config));
  let final_response := default exhausted_response final in
  modify (add_message (MkMessage ASSISTANT final_response None None)) ≫= fun _ =>
  mret final_response.

(** [clear_history] and [reset_stats] *)
Definition clear_history s : AgentLoop V :=
  MkLoop [] (ag_context s) (ag_total_iterations s) (ag_total_tool_calls s) (ag_total_model_calls s) (ag_exec_stats s)
    (ag_calls_made s).
Definition reset_loop_stats s : AgentLoop V :=
  MkLoop (ag_messages s) (ag_context s) 0 0 0 (ag_exec_stats s) (ag_calls_made s).
End loop.
