(* ===== verification/AgentFacts.v ===== *)
(** * Agent tools and the agent loop: what they promise

    - The registry is a list of tools: with the index of tags it behaves as if
      it searched the list of the registered tools ([registry_refines]).
    - The engine counts every execution once, in whatever order concurrent
      executions take its lock ([engine_counts]).
    - The agent loop ends, and its history is well formed ([agent_run_spec]). *)

From stdpp Require Import relations.
From S2P Require Import Prelude PyDict PyText Agents.

(** ** The registry *)

Section registry.
Context {V F : Type} (callable : F -> bool).
Abbreviation Tool := (Tool V F).
Implicit Types (l : list Tool) (t : Tool) (d : dict string (list string)).

Definition times (g : string) (tags : list string) : nat := length (filter (fun g' => g' = g) tags).

(** The names of the tools with tag [g], in the order of registration *)
Definition names_for (g : string) l : list string := l ≫= fun t => replicate (times g (t_tags t)) (t_name t).

(** The registry stands for the list [l] of tools. *)
Record registry_of l (r : ToolRegistry V F) : Prop := RegistryOf {
  ro_tools : rg_tools r = (fun t => (t_name t, t)) <$> l;
  ro_nodup : NoDup (t_name <$> l);
  ro_tags g : dict_get (rg_tags r) g = if decide (names_for g l = []) then None else Some (names_for g l)
}.

Definition value_of d (g : string) : list string := default [] (dict_get d g).

Lemma times_cons g g' tags : times g (g' :: tags) = ((if decide (g' = g) then 1 else 0) + times g tags)%nat.
Proof. unfold times. rewrite filter_cons. by case_decide. Qed.

(** No tag is without tools. *)
Definition no_empty d : Prop := forall g, dict_get d g ≠ Some [].

Lemma get_value d g : no_empty d -> dict_get d g = if decide (value_of d g = []) then None else Some (value_of d g).
Proof.
  intros Hne. specialize (Hne g). unfold value_of. destruct (dict_get d g) as [x|]; [|done]. simpl.
  case_decide; [by subst|done].
Qed.

Lemma add_tags_value n tags d g : value_of (foldl (add_tag n) d tags) g = value_of d g ++ replicate (times g tags) n.
Proof.
  revert d. induction tags as [|g' tags IH]; intros d; simpl; [by rewrite app_nil_r|].
  rewrite IH, times_cons. unfold value_of, add_tag. case_decide as E.
  - subst g'. rewrite dict_get_set_eq. simpl. by rewrite <-app_assoc.
  - by rewrite dict_get_set_ne by done.
Qed.

Lemma add_tags_no_empty n tags d : no_empty d -> no_empty (foldl (add_tag n) d tags).
Proof.
  revert d. induction tags as [|g' tags IH]; intros d Hd; simpl; [done|]. apply IH. intros g. unfold add_tag.
  destruct (decide (g' = g)) as [->|Hne]; [|by rewrite dict_get_set_ne].
  rewrite dict_get_set_eq. intros [= E]. by apply app_nil in E as [_ E].
Qed.

Lemma remove_first_absent n (x : list string) : n ∉ x -> remove_first n x = x.
Proof.
  induction x as [|y x IH]; intros Hn; simpl; [done|]. rewrite decide_False by set_solver. f_equal. apply IH. set_solver.
Qed.

Lemma remove_first_app n (x y : list string) : n ∉ x -> remove_first n (x ++ n :: y) = x ++ y.
Proof.
  induction x as [|z x IH]; intros Hn; simpl; [by rewrite decide_True|].
  rewrite decide_False by set_solver. f_equal. apply IH. set_solver.
Qed.

Lemma drop_tag_value n d g' g :
  value_of (drop_tag n d g') g = if decide (g' = g) then remove_first n (value_of d g) else value_of d g.
Proof.
  unfold drop_tag, value_of. destruct (dict_get d g') as [x|] eqn:Ex.
  - destruct (decide (n ∈ x)) as [Hn|Hn].
    + destruct (remove_first n x) as [|y x'] eqn:Er; destruct (decide (g' = g)) as [<-|Hne].
      * rewrite dict_get_del_eq, Ex. simpl. by rewrite Er.
      * by rewrite dict_get_del_ne.
      * rewrite dict_get_set_eq, Ex. simpl. by rewrite Er.
      * by rewrite dict_get_set_ne.
    + case_decide as E; [|done]. subst g'. rewrite Ex. simpl. by rewrite remove_first_absent.
  - case_decide as E; [|done]. subst g'. by rewrite Ex.
Qed.

Lemma drop_tag_no_empty n d g' : no_empty d -> no_empty (drop_tag n d g').
Proof.
  intros Hd g. unfold drop_tag. destruct (dict_get d g') as [x|] eqn:Ex; [|done]. case_decide; [|done].
  destruct (remove_first n x) as [|y x'].
  - destruct (decide (g' = g)) as [->|]; [by rewrite dict_get_del_eq|by rewrite dict_get_del_ne].
  - destruct (decide (g' = g)) as [->|]; [by rewrite dict_get_set_eq|by rewrite dict_get_set_ne].
Qed.

Lemma drop_tags_value n tags d g :
  value_of (foldl (drop_tag n) d tags) g = Nat.iter (times g tags) (remove_first n) (value_of d g).
Proof.
  revert d. induction tags as [|g' tags IH]; intros d; simpl; [done|].
  rewrite IH, times_cons, drop_tag_value. case_decide; [|done]. simpl. by rewrite <-Nat.iter_succ_r.
Qed.

Lemma drop_tags_no_empty n tags d : no_empty d -> no_empty (foldl (drop_tag n) d tags).
Proof. revert d. induction tags as [|g' tags IH]; intros d Hd; simpl; [done|]. by apply IH, drop_tag_no_empty. Qed.

Lemma remove_all_replicate n k (x y : list string) :
  n ∉ x -> Nat.iter k (remove_first n) (x ++ replicate k n ++ y) = x ++ y.
Proof.
  intros Hn. induction k as [|k IH]; [done|]. rewrite Nat.iter_succ_r. simpl app at 1.
  change (replicate (S k) n ++ y) with (n :: (replicate k n ++ y)). by rewrite remove_first_app.
Qed.

Lemma names_for_app g l1 l2 : names_for g (l1 ++ l2) = names_for g l1 ++ names_for g l2.
Proof. apply bind_app. Qed.

Lemma names_for_cons g t l : names_for g (t :: l) = replicate (times g (t_tags t)) (t_name t) ++ names_for g l.
Proof. done. Qed.

Lemma names_for_in g l n : n ∈ names_for g l -> n ∈ t_name <$> l.
Proof.
  intros (t & Hn & Ht)%list_elem_of_bind. apply elem_of_replicate in Hn as [-> _]. by apply list_elem_of_fmap_2.
Qed.

Lemma registry_no_empty l r : registry_of l r -> no_empty (rg_tags r).
Proof. intros [_ _ Ht] g. rewrite Ht. case_decide; congruence. Qed.

Lemma registry_value l r g : registry_of l r -> value_of (rg_tags r) g = names_for g l.
Proof. intros [_ _ Ht]. unfold value_of. rewrite Ht. by case_decide as E; [rewrite E|]. Qed.

Lemma tools_get l n : dict_get ((fun t => (t_name t, t)) <$> l) n = find (fun t => bool_decide (t_name t = n)) l.
Proof. induction l as [|t l IH]; [done|]. simpl. rewrite <-IH. case_decide; by case_bool_decide. Qed.

Lemma tools_has l n : dict_has ((fun t => (t_name t, t)) <$> l) n = bool_decide (n ∈ t_name <$> l).
Proof.
  unfold dict_has. rewrite tools_get. induction l as [|t l IH]; [done|]. rewrite fmap_cons. cbn [find].
  destruct (decide (t_name t = n)) as [E|E].
  - rewrite (bool_decide_true (t_name t = n)) by done. rewrite bool_decide_true; [done|]. rewrite E. left.
  - rewrite (bool_decide_false (t_name t = n)) by done. rewrite IH. apply bool_decide_ext. rewrite elem_of_cons. naive_solver.
Qed.

(** *** Operations *)

Inductive registry_op := Register (t : Tool) | Unregister (name : string) | Clear.

(** The answers: [None] for an exception *)
Definition run_registry_op (o : registry_op) (r : ToolRegistry V F) : option bool * ToolRegistry V F :=
  match o with
  | Register t => match register callable t r with (Ok _, r') => (Some true, r') | (Raise _, r') => (None, r') end
  | Unregister n => match unregister n r with (Ok b, r') => (Some b, r') | (Raise _, r') => (None, r') end
  | Clear => match registry_clear r with (Ok _, r') => (Some true, r') | (Raise _, r') => (None, r') end
  end.

(** The same on the list of tools *)
Definition spec_registry_op (o : registry_op) l : option bool * list Tool :=
  match o with
  | Register t =>
      if decide (t_name t ∈ t_name <$> l) then (None, l)
      else if callable (t_function t) then (Some true, l ++ [t]) else (None, l)
  | Unregister n =>
      if decide (n ∈ t_name <$> l) then (Some true, filter (fun t => t_name t ≠ n) l) else (Some false, l)
  | Clear => (Some true, [])
  end.

Lemma registry_init_of : registry_of [] (ToolRegistry_init : ToolRegistry V F).
Proof. split; [done|constructor|done]. Qed.

Lemma register_of l r t : registry_of l r -> t_name t ∉ t_name <$> l -> callable (t_function t) = true ->
  exists r', register callable t r = (Ok tt, r') /\ registry_of (l ++ [t]) r'.
Proof.
  intros Hr Hn Hc. unfold register. rewrite (ro_tools _ _ Hr), tools_has, bool_decide_false by done. rewrite Hc. simpl.
  eexists. split; [done|]. split; simpl.
  - rewrite dict_set_absent; [by rewrite fmap_app|]. apply dict_has_false. by rewrite tools_has, bool_decide_false.
  - rewrite fmap_app. apply NoDup_app. split_and!; [exact (ro_nodup _ _ Hr)|set_solver|apply NoDup_singleton].
  - intros g. rewrite get_value by (by eapply add_tags_no_empty, registry_no_empty).
    by rewrite add_tags_value, (registry_value l r g Hr), names_for_app, names_for_cons, app_nil_r.
Qed.

Lemma filter_other l1 t l2 : NoDup (t_name <$> l1 ++ t :: l2) ->
  filter (fun t' => t_name t' ≠ t_name t) (l1 ++ t :: l2) = l1 ++ l2 /\ t_name t ∉ t_name <$> l1.
Proof.
  rewrite fmap_app, fmap_cons. intros (_ & H1 & [H2 _]%NoDup_cons)%NoDup_app.
  assert (t_name t ∉ t_name <$> l1) as H3 by (intros Hin; apply (H1 _ Hin); left).
  assert (forall l, t_name t ∉ t_name <$> l -> filter (fun t' => t_name t' ≠ t_name t) l = l) as Hall.
  { intros l. induction l as [|t' l IH]; intros Hl; [done|]. rewrite fmap_cons in Hl.
    rewrite filter_cons, decide_True by set_solver. f_equal. apply IH. set_solver. }
  split; [|done]. rewrite filter_app, filter_cons, decide_False by tauto. by rewrite (Hall l1 H3), (Hall l2 H2).
Qed.

Lemma tools_del l n : dict_del ((fun t => (t_name t, t)) <$> l) n = (fun t => (t_name t, t)) <$> filter (fun t => t_name t ≠ n) l.
Proof.
  induction l as [|t l IH]; [done|]. rewrite filter_cons, fmap_cons. cbn [dict_del].
  destruct (decide (t_name t = n)) as [E|E]; [by rewrite (decide_False (P := t_name t ≠ n)) by tauto|].
  rewrite (decide_True (P := t_name t ≠ n)) by done. by rewrite IH.
Qed.

Lemma unregister_of l r n : registry_of l r -> n ∈ t_name <$> l ->
  exists r', unregister n r = (Ok true, r') /\ registry_of (filter (fun t => t_name t ≠ n) l) r'.
Proof.
  intros Hr (t & -> & (l1 & l2 & ->)%list_elem_of_split)%list_elem_of_fmap.
  pose proof (ro_nodup _ _ Hr) as Hnd. destruct (filter_other l1 t l2 Hnd) as [Hf H1].
  assert (dict_get (rg_tools r) (t_name t) = Some t) as Hget.
  { rewrite (ro_tools _ _ Hr). apply dict_elem_get; [|apply list_elem_of_fmap; exists t; set_solver].
    unfold dict_wf, dict_keys. by rewrite <-list_fmap_compose. }
  unfold unregister. rewrite Hget. eexists. split; [done|]. split; simpl.
  - by rewrite (ro_tools _ _ Hr), tools_del.
  - rewrite Hf. rewrite fmap_app, fmap_cons in Hnd. rewrite fmap_app.
    apply NoDup_app in Hnd as (Hn1 & Hd & [Ht Hn2]%NoDup_cons). apply NoDup_app. split_and!; [done|set_solver|done].
  - intros g. rewrite get_value by (by eapply drop_tags_no_empty, registry_no_empty).
    rewrite drop_tags_value, (registry_value _ r g Hr), names_for_app, names_for_cons, Hf, names_for_app.
    rewrite remove_all_replicate; [done|]. by intros Hin%names_for_in.
Qed.

Lemma registry_op_refines l r o : registry_of l r ->
  exists r', run_registry_op o r = ((spec_registry_op o l).1, r') /\ registry_of (spec_registry_op o l).2 r'.
Proof.
  intros Hr. destruct o as [t|n|]; simpl.
  - case_decide as Hn.
    { exists r. split; [|done]. unfold register. rewrite (ro_tools _ _ Hr), tools_has, bool_decide_true by done. done. }
    destruct (callable (t_function t)) eqn:Hc.
    + destruct (register_of l r t Hr Hn Hc) as (r' & -> & Hr'). eauto.
    + exists r. split; [|done]. unfold register. rewrite (ro_tools _ _ Hr), tools_has, bool_decide_false by done.
      by rewrite Hc.
  - case_decide as Hn.
    + destruct (unregister_of l r n Hr Hn) as (r' & -> & Hr'). eauto.
    + exists r. split; [|done]. unfold unregister.
      assert (dict_get (rg_tools r) n = None) as ->; [|done]. rewrite (ro_tools _ _ Hr).
      apply dict_has_false. by rewrite tools_has, bool_decide_false.
  - eexists. split; [done|]. apply registry_init_of.
Qed.

(** What the registry answers, given the list *)
Lemma lookup_all_names l l' g :
  (forall t, t ∈ l' -> dict_get ((fun t => (t_name t, t)) <$> l) (t_name t) = Some t) ->
  lookup_all ((fun t => (t_name t, t)) <$> l) (names_for g l') = Ok (l' ≫= fun t => replicate (times g (t_tags t)) t).
Proof.
  induction l' as [|t l' IH]; intros Hl; [done|]. rewrite names_for_cons.
  change (lookup_all ((fun t => (t_name t, t)) <$> l) (replicate (times g (t_tags t)) (t_name t) ++ names_for g l') =
    Ok (replicate (times g (t_tags t)) t ++ (l' ≫= fun t => replicate (times g (t_tags t)) t))).
  specialize (IH ltac:(intros; apply Hl; by right)).
  induction (times g (t_tags t)) as [|k IHk]; [exact IH|]. simpl. rewrite (Hl t) by (by left). by rewrite IHk.
Qed.

Lemma list_tools_tag l r g : registry_of l r ->
  list_tools r (Some g) = Ok (l ≫= fun t => replicate (times g (t_tags t)) t).
Proof.
  intros Hr. unfold list_tools. fold (value_of (rg_tags r) g). rewrite (registry_value l r g Hr), (ro_tools _ _ Hr).
  apply lookup_all_names. intros t Ht. apply dict_elem_get; [|apply list_elem_of_fmap; by exists t].
  unfold dict_wf, dict_keys. rewrite <-list_fmap_compose. exact (ro_nodup _ _ Hr).
Qed.

Fixpoint run_registry (ops : list registry_op) (r : ToolRegistry V F) : list (option bool) * ToolRegistry V F :=
  match ops with
  | [] => ([], r)
  | o :: ops' => let '(b, r1) := run_registry_op o r in let '(bs, r2) := run_registry ops' r1 in (b :: bs, r2)
  end.

Fixpoint spec_registry (ops : list registry_op) l : list (option bool) * list Tool :=
  match ops with
  | [] => ([], l)
  | o :: ops' => let '(b, l1) := spec_registry_op o l in let '(bs, l2) := spec_registry ops' l1 in (b :: bs, l2)
  end.

Lemma run_registry_of ops l r : registry_of l r ->
  exists r', run_registry ops r = ((spec_registry ops l).1, r') /\ registry_of (spec_registry ops l).2 r'.
Proof.
  revert l r. induction ops as [|o ops IH]; intros l r Hr; [by exists r|]. simpl.
  destruct (registry_op_refines l r o Hr) as (r1 & -> & Hr1). destruct (spec_registry_op o l) as [b l1]. simpl in *.
  destruct (IH l1 r1 Hr1) as (r2 & -> & Hr2). destruct (spec_registry ops l1) as [bs l2]. simpl in *. by exists r2.
Qed.

(** C11: The tool registry refines a list of tools: after any sequence of
    registrations, removals and clearings from an empty registry, each
    operation has answered as on the list (an exception exactly for a name
    that is taken or a function that cannot be called), and then every query
    answers as a search of the list does.  In particular the tag index never
    goes stale: listing the tools of a tag does not raise and gives the
    registered tools with that tag, in the order of registration. *)
Theorem registry_refines ops :
  let l := (spec_registry ops []).2 in
  exists r, run_registry ops ToolRegistry_init = ((spec_registry ops []).1, r) /\ NoDup (t_name <$> l) /\
    list_tools r None = Ok l /\ get_tool_names r None = t_name <$> l /\
    (forall g, list_tools r (Some g) = Ok (l ≫= fun t => replicate (times g (t_tags t)) t) /\
      get_tool_names r (Some g) = names_for g l) /\
    (forall n, get r n = find (fun t => bool_decide (t_name t = n)) l) /\
    get_tool_schemas r = tool_schema <$> l.
Proof.
  intros l. destruct (run_registry_of ops [] _ registry_init_of) as (r & Hrun & Hr). fold l in Hr. exists r.
  split_and!; [done|exact (ro_nodup _ _ Hr)|..].
  - simpl. rewrite (ro_tools _ _ Hr). unfold dict_values. rewrite <-list_fmap_compose. f_equal. apply list_fmap_id.
  - simpl. rewrite (ro_tools _ _ Hr). unfold dict_keys. by rewrite <-list_fmap_compose.
  - intros g. split; [by apply list_tools_tag|]. exact (registry_value l r g Hr).
  - intros n. unfold get. by rewrite (ro_tools _ _ Hr), tools_get.
  - unfold get_tool_schemas. rewrite (ro_tools _ _ Hr). unfold dict_values. by rewrite <-!list_fmap_compose.
Qed.
End registry.

(** ** The execution engine *)

(** The steps that concurrent executions take under the lock; the number is that
    of the executions that are open: they have started and not been counted as
    ended. *)
Inductive engine_step : Stats * nat -> Stats * nat -> Prop :=
  | step_start s n : engine_step (s, n) (count_start s, S n)
  | step_success s n elapsed : engine_step (s, S n) (count_success elapsed s, n)
  | step_failure s n : engine_step (s, S n) (count_failure s, n).

Definition counts_ok (x : Stats * nat) : Prop :=
  total_executions x.1 = successful_executions x.1 + failed_executions x.1 + Z.of_nat x.2 /\
  0 <= successful_executions x.1 /\ 0 <= failed_executions x.1.

Lemma engine_step_ok x y : engine_step x y -> counts_ok x -> counts_ok y.
Proof. destruct 1; unfold counts_ok; simpl; lia. Qed.

Lemma engine_steps_ok x y : rtc engine_step x y -> counts_ok x -> counts_ok y.
Proof. induction 1; [done|]. intros. eauto using engine_step_ok. Qed.

Section engine.
Context {V F : Type} (py_eq : V -> V -> bool).
Context (run_worker : nat -> F -> dict string V -> Z -> worker V) (run_async : nat -> F -> dict string V -> Z -> outcome V).
Context (elapsed : nat -> Z).
Context (empty_dict : V) (show_timeout : Z -> string) (default_timeout : Z).
Abbreviation exec := (execute py_eq run_worker run_async elapsed empty_dict show_timeout default_timeout).
Abbreviation called := (execute_tool run_worker run_async).
Implicit Types (r : ToolRegistry V F) (x : ToolExecutionResult V).

(** A result with the status [st] and the value [v] *)
Definition ended (st : ToolExecutionStatus) (v : option V) (o : res (ToolExecutionResult V)) : Prop :=
  exists x, o = Ok x /\ x_status x = st /\ x_result x = v /\ (x_error x = None <-> st = SUCCESS).

(** What the [i]-th execution comes to: it depends on whether the tool is
    registered, its parameters are valid, and what its function does. *)
Definition execution_of r (name : name_t) (ps : params_t V) (context : option V) (timeout : option Z) (i : nat)
    (o : res (ToolExecutionResult V)) : Prop :=
  match get_called r name with
  | Raise e => o = Raise e
  | Ok None => ended ERROR None o
  | Ok (Some t) =>
      match validate_parameters py_eq t ps, ps with
      | Raise e, _ => o = Raise e
      | Ok true, PDict d =>
          match called i t (with_context empty_dict t context d) (effective_timeout default_timeout timeout) with
          | Returned v => ended SUCCESS (Some v) o
          | TimedOut => ended TIMEOUT None o
          | Raised _ _ => ended ERROR None o
          | Escaped msg => o = Raise (Exn BaseException msg)
          end
      | _, _ => ended VALIDATION_ERROR None o
      end
  end.

(** The end of an execution as the counters see it *)
Definition count_end (o : res (ToolExecutionResult V)) (s : Stats) : Stats :=
  match o with
  | Ok x => match x_status x with SUCCESS => count_success (x_time x) s | _ => count_failure s end
  | Raise _ => s
  end.

(** One execution: it starts, and ends as a success, as a failure, or with an
    exception. *)
Lemma execute_run r name ps context timeout s :
  exists o s', exec r name ps context timeout s = (o, s') /\ s' = count_end o (count_start s) /\
    execution_of r name ps context timeout (started s) o /\
    (forall x, o = Ok x -> x_tool_name x = name_shown name).
Proof.
  unfold execute, execution_of, ended. do 2 (erewrite bind_ok by reflexivity; cbv beta).
  destruct (get_called r name) as [[t|]|e] eqn:Eg;
    [|erewrite bind_ok by reflexivity; eexists _, _; (split; [reflexivity|]); split_and!; [done|by eexists|by intros ? [= <-]]
     |by eexists _, _; split; [by erewrite bind_raise|]].
  erewrite bind_ok by reflexivity. cbv beta.
  destruct (validate_parameters py_eq t ps) as [b|e] eqn:Ev;
    [|exists (Raise e), (count_start s); split; [by erewrite bind_raise by (unfold lift_res; by rewrite Ev)|by destruct ps]].
  erewrite bind_ok by (unfold lift_res; by rewrite Ev). cbv beta.
  destruct b; [destruct ps as [d|c]|]; [destruct (called _ _ _ _) as [v| |class msg|msg]|..];
    eexists _, _; (split; [reflexivity|]); split_and!; first [done|by eexists|by intros ? [= <-]].
Qed.

(** C12: The counters of the engine account for every execution.  However
    executions are interleaved, [total = successful + failed + open] and the
    success rate does not exceed one.  A call of [execute], whatever the name,
    the parameters and the tool, starts one execution; if it returns a result,
    that execution is counted as ended, as a success exactly when the tool is
    registered, its parameters are valid and its function has returned the value
    in the result, while an unknown tool, invalid parameters, a timeout and an
    exception each have their status and no value; and if it raises, which
    happens exactly when the lookup or the validation of malformed input raises
    or a tool raises what [except Exception] does not catch, the execution stays
    open. *)
Theorem engine_counts r name ps context timeout s n s0 :
  rtc engine_step (zero_stats, O) (s, n) ->
  counts_ok (s, n) /\ successful_executions s <= total_executions s /\
  exists o s', exec r name ps context timeout s0 = (o, s') /\
    execution_of r name ps context timeout (started s0) o /\
    engine_step (s0, n) (count_start s0, S n) /\
    match o with
    | Ok x => x_tool_name x = name_shown name /\ engine_step (count_start s0, S n) (s', n) /\
        (successful_executions s' = successful_executions s0 + 1 <-> x_status x = SUCCESS)
    | Raise _ => s' = count_start s0
    end.
Proof.
  intros Hsteps. assert (counts_ok (s, n)) as Hok by (by eapply engine_steps_ok; [exact Hsteps|]).
  split; [done|]. split; [unfold counts_ok in Hok; simpl in Hok; lia|].
  destruct (execute_run r name ps context timeout s0) as (o & s' & Hr & -> & He & Hn).
  exists o. eexists. split; [exact Hr|]. split; [exact He|]. split; [constructor|].
  destruct o as [x|e]; [|done]. split; [by apply Hn|]. simpl.
  split; [destruct (x_status x); constructor|]. destruct (x_status x); simpl; split; intros; done || lia.
Qed.

(** Parameters that are not a dictionary make the engine raise, after the
    execution has been counted as started. *)
Lemma malformed_parameters_escape r name t context timeout s :
  get r name = Some t -> t_parameters t = [] ->
  exec r (Name name) (PNoDict (fun _ => Ok false)) context timeout s =
    (Raise (Exn AttributeError "object has no attribute 'items'"), count_start s).
Proof.
  intros Hg Ht. destruct (execute_run r (Name name) (PNoDict (fun _ => Ok false)) context timeout s) as (o & s' & -> & -> & He & _).
  unfold execution_of in He. simpl in He. rewrite Hg in He. simpl in He. rewrite Ht in He. simpl in He. by subst o.
Qed.
End engine.

(** A reset while a tool runs: the end is counted, the start is not. *)
Lemma reset_in_flight :
  let s := count_success 5 (reset_stats (count_start zero_stats)) in
  total_executions s < successful_executions s.
Proof. simpl. lia. Qed.

(** ** The agent loop *)

Section loop.
Context {V F : Type} (py_eq : V -> V -> bool) (of_string : string -> V) (of_dict : dict string V -> V).
Context (run_worker : nat -> F -> dict string V -> Z -> worker V) (run_async : nat -> F -> dict string V -> Z -> outcome V).
Context (elapsed : nat -> Z).
Context (empty_dict : V) (show_timeout show_ms : Z -> string) (show : V -> string) (default_timeout : Z).
Context (registry : ToolRegistry V F) (config : AgentLoopConfig).
Context (generate : nat -> list (AgentMessage V) -> res string) (extract : string -> res (list (ParsedToolCall V))).
Implicit Types (s : AgentLoop V) (calls : list (ParsedToolCall V)) (results : list (ToolExecutionResult V)).

Abbreviation exec_tools :=
  (execute_tools py_eq of_dict run_worker run_async elapsed empty_dict show_timeout default_timeout registry config).
Abbreviation loop :=
  (iterate py_eq of_dict run_worker run_async elapsed empty_dict show_timeout show_ms show default_timeout registry config generate extract).
Abbreviation agent_run :=
  (run py_eq of_string of_dict run_worker run_async elapsed empty_dict show_timeout show_ms show default_timeout registry config
    generate extract).
Abbreviation format := (format_tool_results show_ms show).

Definition set_exec_stats (x : Stats) s : AgentLoop V :=
  MkLoop (ag_messages s) (ag_context s) (ag_total_iterations s) (ag_total_tool_calls s) (ag_total_model_calls s) x
    (ag_calls_made s).

(** [o] is what executing the call [c] in the conversation [context] comes to. *)
Definition executed (context : dict string V) (c : ParsedToolCall V) (o : res (ToolExecutionResult V)) : Prop :=
  exists i, execution_of py_eq run_worker run_async empty_dict default_timeout registry (c_name c) (c_parameters c)
    (Some (of_dict context)) (Some (tool_timeout config)) i o.

(** Running the tools: one result per call, in order, and as many executions; or
    up to the first call that raises *)
Lemma execute_tools_run calls : forall s, exists o st, exec_tools calls s = (o, set_exec_stats st s) /\
  match o with
  | Ok results => Forall2 (fun c x => executed (ag_context s) c (Ok x)) calls results /\
      total_executions st = total_executions (ag_exec_stats s) + len calls
  | Raise e => exists before c after results, calls = before ++ c :: after /\
      Forall2 (fun c x => executed (ag_context s) c (Ok x)) before results /\ executed (ag_context s) c (Raise e)
  end.
Proof.
  induction calls as [|c calls IH]; intros s.
  { exists (Ok []), (ag_exec_stats s). split; [by destruct s|]. split; [constructor|]. unfold len. simpl. lia. }
  destruct (execute_run py_eq run_worker run_async elapsed empty_dict show_timeout default_timeout registry (c_name c)
    (c_parameters c) (Some (of_dict (ag_context s))) (Some (tool_timeout config)) (ag_exec_stats s)) as (o & st & Hx & -> & He & _).
  cbn [execute_tools]. erewrite bind_ok by reflexivity. cbv beta. destruct o as [x|e].
  2: { exists (Raise e). eexists. split; [erewrite bind_raise; [reflexivity|]; unfold on_executor, zoom; rewrite Hx; reflexivity|].
       exists [], c, calls, []. split; [done|]. split; [constructor|]. by eexists. }
  erewrite bind_ok by (unfold on_executor, zoom; rewrite Hx; reflexivity). cbv beta.
  match goal with |- context [(exec_tools calls ≫= _) ?st] => destruct (IH st) as (o & st' & Hr & Ho) end.
  destruct o as [results|e].
  - rewrite (bind_ok _ _ _ _ _ Hr). exists (Ok (x :: results)). eexists. split; [reflexivity|]. destruct Ho as [Ho Ht].
    split; [constructor; [by eexists|exact Ho]|]. rewrite Ht. unfold len. simpl. destruct (x_status x); simpl; lia.
  - rewrite (bind_raise _ _ _ _ _ Hr). exists (Raise e). eexists. split; [reflexivity|].
    destruct Ho as (before & c' & after & results & -> & Hf & Hc). exists (c :: before), c', after, (x :: results).
    split; [done|]. split; [constructor; [by eexists|exact Hf]|exact Hc].
Qed.

(** [calls] are the first of [all], as many as the limit allows. *)
Definition first_calls all calls : Prop :=
  calls `prefix_of` all /\
  (0 <= max_tool_calls_per_iteration config -> len calls = Z.min (max_tool_calls_per_iteration config) (len all)).

(** The rounds of a conversation from the [i]-th call of the model on: each time
    the model is given the messages so far, asks for tools, and the first of
    them, as many as the limit allows, are executed in order; its answer and the
    results become messages. *)
Inductive rounds (context : dict string V) : nat -> list (AgentMessage V) -> nat -> list (AgentMessage V) -> Prop :=
  | no_round i ms : rounds context i ms i ms
  | one_round i ms x all calls results i' ms' :
      generate i ms = Ok x -> extract x = Ok all -> all ≠ [] -> first_calls all calls ->
      Forall2 (fun c x => executed context c (Ok x)) calls results ->
      rounds context (S i) (ms ++ [MkMessage ASSISTANT x (Some calls) None;
        MkMessage TOOL (format results) None (Some results)]) i' ms' ->
      rounds context i ms i' ms'.

(** What ends the rounds with an exception: the model, the parser, or a tool;
    [ms'] is the history left behind *)
Definition broken_off (context : dict string V) (i : nat) (ms : list (AgentMessage V)) (e : exn) (ms' : list (AgentMessage V)) : Prop :=
  (generate i ms = Raise e /\ ms' = ms) \/
  exists x, generate i ms = Ok x /\
    ((extract x = Raise e /\ ms' = ms) \/
     exists all before c after results, extract x = Ok all /\ first_calls all (before ++ c :: after) /\
       Forall2 (fun c x => executed context c (Ok x)) before results /\ executed context c (Raise e) /\
       ms' = ms ++ [MkMessage ASSISTANT x (Some (before ++ c :: after)) None]).

(** The loop, from [s] with [n] iterations left to [s'] *)
Record iterated (n : nat) s (o : res (option string)) s' (i : nat) (ms : list (AgentMessage V)) : Prop := Iterated {
  it_rounds : rounds (ag_context s) (ag_calls_made s) (ag_messages s) i ms;
  it_context : ag_context s' = ag_context s;
  it_end : match o with
    | Ok (Some x) => (i < ag_calls_made s + n)%nat /\ generate i ms = Ok x /\ extract x = Ok [] /\ ag_messages s' = ms
    | Ok None => i = (ag_calls_made s + n)%nat /\ ag_messages s' = ms
    | Raise e => (i < ag_calls_made s + n)%nat /\ broken_off (ag_context s) i ms e (ag_messages s')
    end;
  it_calls : ag_calls_made s' = match o with Ok None => i | _ => S i end;
  it_iterations : ag_total_iterations s' - ag_total_iterations s = Z.of_nat (ag_calls_made s') - Z.of_nat (ag_calls_made s);
  it_counters : match o with
    | Ok _ => ag_total_model_calls s' - ag_total_model_calls s = Z.of_nat (ag_calls_made s') - Z.of_nat (ag_calls_made s) /\
        total_executions (ag_exec_stats s') - total_executions (ag_exec_stats s) =
          ag_total_tool_calls s' - ag_total_tool_calls s
    | Raise _ => True
    end
}.

Lemma limit_calls_first calls : first_calls calls (limit_calls config calls).
Proof.
  unfold limit_calls, first_calls. case_decide; [|split; [done|lia]]. split; [apply prefix_take|].
  intros Hl. rewrite decide_False by lia. unfold len in *. rewrite length_take. lia.
Qed.

(** The first iteration, after the model has asked for tools that all ran *)
Lemma iterated_round n s x all results st o s' i ms :
  let calls := limit_calls config all in
  let s1 := MkLoop (ag_messages s ++ [MkMessage ASSISTANT x (Some calls) None;
      MkMessage TOOL (format results) None (Some results)]) (ag_context s) (ag_total_iterations s + 1)
      (ag_total_tool_calls s + len results) (ag_total_model_calls s + 1) st (S (ag_calls_made s)) in
  generate (ag_calls_made s) (ag_messages s) = Ok x -> extract x = Ok all -> all ≠ [] ->
  Forall2 (fun c x => executed (ag_context s) c (Ok x)) calls results ->
  total_executions st = total_executions (ag_exec_stats s) + len calls ->
  iterated n s1 o s' i ms -> iterated (S n) s o s' i ms.
Proof.
  intros calls s1' Hg He Hne Hf Ht [I1 I2 I3 I4 I5 I6]. assert (length results = length calls) as Hlen
    by (symmetry; by eapply Forall2_length). subst s1'. cbn in *. split.
  - eapply one_round; [done..|apply limit_calls_first|exact Hf|exact I1].
  - done.
  - destruct o as [[y|]|e]; naive_solver lia.
  - done.
  - lia.
  - destruct o as [o|e]; [|done]. unfold len in *. lia.
Qed.

Lemma iterate_run n : forall s, exists o s' i ms, loop n s = (o, s') /\ iterated n s o s' i ms.
Proof.
  induction n as [|n IH]; intros s.
  { exists (Ok None), s, (ag_calls_made s), (ag_messages s). split; [done|]. split; simpl; [constructor|done|split; [lia|done]|lia..]. }
  cbn [iterate]. erewrite bind_ok by reflexivity. cbv beta.
  destruct (generate (ag_calls_made s) (ag_messages s)) as [x|e] eqn:Hx.
  2: { exists (Raise e). eexists _, (ag_calls_made s), (ag_messages s).
       split; [erewrite bind_raise; [reflexivity|]; unfold generate_model_response; simpl; by rewrite Hx|].
       split; simpl; [constructor|done|split; [lia|by left]|done|lia|done]. }
  erewrite bind_ok by (unfold generate_model_response; simpl; rewrite Hx; reflexivity). cbv beta.
  erewrite bind_ok by reflexivity. cbv beta.
  destruct (extract x) as [all|e] eqn:Ex.
  2: { exists (Raise e). eexists _, (ag_calls_made s), (ag_messages s). split; [by erewrite bind_raise|].
       split; simpl; [constructor|done|split; [lia|right; eauto]|done|lia|done]. }
  erewrite bind_ok by reflexivity. cbv beta.
  destruct all as [|c cs] eqn:Ea.
  { exists (Ok (Some x)). eexists _, (ag_calls_made s), (ag_messages s). split; [reflexivity|].
    split; simpl; [constructor|done|split_and!; [lia|done..]|done|lia|split; lia]. }
  rewrite <-Ea in *. erewrite bind_ok by reflexivity. cbv beta.
  match goal with |- context [(exec_tools _ ≫= _) ?st] => set (s1 := st) end.
  destruct (execute_tools_run (limit_calls config all) s1) as (o & st & Hr & Ho).
  destruct o as [results|e].
  2: { exists (Raise e). eexists _, (ag_calls_made s), (ag_messages s). split; [by rewrite (bind_raise _ _ _ _ _ Hr)|].
       destruct Ho as (before & c' & after & results & E & Hf & Hc).
       split; simpl; [constructor|done| |done|lia|done]. split; [lia|]. right. exists x. split; [done|]. right.
       exists all, before, c', after, results. rewrite <-E. split_and!; [done|apply limit_calls_first|done..]. }
  destruct Ho as [Hf Ht]. rewrite (bind_ok _ _ _ _ _ Hr). cbv beta. do 2 (erewrite bind_ok by reflexivity; cbv beta).
  match goal with |- context [loop n ?st] => destruct (IH st) as (o & s' & i & ms & Hl & Hi) end.
  exists o, s', i, ms. split; [exact Hl|].
  eapply iterated_round; [exact Hx|exact Ex|by rewrite Ea|exact Hf|exact Ht|].
  subst s1. unfold set_exec_stats, add_message, count_tool_calls, count_model_call, count_iteration in Hi.
  cbn in Hi. rewrite <-app_assoc in Hi. exact Hi.
Qed.

(** The message that a run adds before the user's *)
Definition prompt_message (system_prompt : option string) s : list (AgentMessage V) :=
  match system_prompt, ag_messages s with
  | Some p, [] => if decide (p = "") then [] else [MkMessage SYSTEM p None None]
  | _, _ => []
  end.

(** The state in which the loop is entered *)
Lemma entered user_input system_prompt conversation_id s :
  let s1 := add_message (MkMessage USER user_input None None)
    (add_system_prompt system_prompt (set_conversation of_string conversation_id s)) in
  ag_messages s1 = ag_messages s ++ prompt_message system_prompt s ++ [MkMessage USER user_input None None] /\
  ag_context s1 = ag_context (set_conversation of_string conversation_id s) /\
  ag_calls_made s1 = ag_calls_made s /\ ag_total_iterations s1 = ag_total_iterations s /\
  ag_total_model_calls s1 = ag_total_model_calls s /\ ag_total_tool_calls s1 = ag_total_tool_calls s /\
  ag_exec_stats s1 = ag_exec_stats s.
Proof.
  unfold add_message, add_system_prompt, set_conversation, prompt_message.
  destruct conversation_id as [cid|]; [destruct (decide (cid = ""))|]; simpl;
    (destruct system_prompt as [p|]; [destruct (ag_messages s) as [|m ms] eqn:Em; [destruct (decide (p = ""))|]|]); simpl;
    by rewrite ?Em.
Qed.

(** C10: A run of the agent ends after at most [max_iterations] calls of the
    model, for every model, parser and set of tools.  The history grows by the
    system prompt (at the start of a conversation), the user's message and the
    rounds of tool calls; in each round the model, given the history so far,
    has asked for tools, and the first of these, as many as the limit allows,
    have each been executed once, in order, with the conversation's context and
    the timeout of the configuration, their results being in the next message.
    If the run returns, its answer ends the history and is the first answer of
    the model without tool calls, or, after exactly [max_iterations] rounds, the
    notice that the limit is reached; the counters of loop and executor agree.
    It raises exactly if the model, the parser or the execution of a call
    raises: the exception is theirs, and the history keeps the rounds before
    it. *)
Theorem agent_run_spec user_input system_prompt conversation_id s :
  let limit := (ag_calls_made s + Z.to_nat (max_iterations config))%nat in
  let context := ag_context (set_conversation of_string conversation_id s) in
  exists o s' i ms,
    agent_run user_input system_prompt conversation_id s = (o, s') /\
    rounds context (ag_calls_made s)
      (ag_messages s ++ prompt_message system_prompt s ++ [MkMessage USER user_input None None]) i ms /\
    ag_context s' = context /\
    match o with
    | Ok answer =>
        ag_messages s' = ms ++ [MkMessage ASSISTANT answer None None] /\
        (((i < limit)%nat /\ generate i ms = Ok answer /\ extract answer = Ok [] /\ ag_calls_made s' = S i) \/
         (i = limit /\ answer = exhausted_response config /\ ag_calls_made s' = i)) /\
        ag_total_model_calls s' - ag_total_model_calls s = Z.of_nat (ag_calls_made s') - Z.of_nat (ag_calls_made s) /\
        total_executions (ag_exec_stats s') - total_executions (ag_exec_stats s) =
          ag_total_tool_calls s' - ag_total_tool_calls s
    | Raise e => (i < limit)%nat /\ broken_off context i ms e (ag_messages s') /\ ag_calls_made s' = S i
    end /\
    ag_total_iterations s' - ag_total_iterations s = Z.of_nat (ag_calls_made s') - Z.of_nat (ag_calls_made s).
Proof.
  intros limit context. unfold run. do 3 (erewrite bind_ok by reflexivity; cbv beta).
  destruct (entered user_input system_prompt conversation_id s) as (E1 & E2 & E3 & E4 & E5 & E6 & E7).
  match goal with |- context [(loop ?n ≫= _) ?st] => set (s1 := st) in *;
    destruct (iterate_run n s1) as (o & s' & i & ms & Hl & [I1 I2 I3 I4 I5 I6]) end.
  rewrite E1, E2, E3 in I1. rewrite E2 in I2, I3. rewrite E3 in I3, I5. rewrite E4 in I5. rewrite E3, E5, E6, E7 in I6.
  fold context in I1, I2, I3. destruct o as [final|e].
  - rewrite (bind_ok _ _ _ _ _ Hl). cbv beta zeta. erewrite bind_ok by reflexivity. cbv beta.
    exists (Ok (default (exhausted_response config) final)). eexists _, i, ms. split; [reflexivity|].
    split; [exact I1|]. split; [exact I2|]. split; [|exact I5]. simpl.
    destruct final as [y|]; simpl; [destruct I3 as (? & ? & ? & <-)|destruct I3 as (? & <-)];
      (split; [done|]; split; [|exact I6]); [left|right]; done.
  - rewrite (bind_raise _ _ _ _ _ Hl). exists (Raise e), s', i, ms. by destruct I3.
Qed.
End loop.

(** ** Concrete tools *)

(** An adder that takes the numbers from its parameters, and a tool that never
    ends *)
Inductive demo_fun := Sum | Spin.

Definition demo_worker (i : nat) (f : demo_fun) (d : dict string Z) (timeout : Z) : worker Z :=
  match f with
  | Sum => Finished None (Some (sumZ id (dict_values d)))
  | Spin => Alive
  end.

Definition demo_async (i : nat) (f : demo_fun) (d : dict string Z) (timeout : Z) : outcome Z := TimedOut.
Definition demo_elapsed (i : nat) : Z := 1.

Definition demo_tools : list (Tool Z demo_fun) :=
  [MkTool "sum" "adds" [MkParam "x" INTEGER "first" true None None; MkParam "y" INTEGER "second" true None (Some [1; 2])]
     Sum false false ["math"];
   MkTool "spin" "waits" [] Spin false false ["math"; "slow"]].

Definition demo_tool_registry : ToolRegistry Z demo_fun :=
  (run_registry (fun _ => true) (Register <$> demo_tools) ToolRegistry_init).2.

Example registry_demo :
  get_tool_names demo_tool_registry (Some "math") = ["sum"; "spin"] /\
  get_tool_names (run_registry_op (fun _ => true) (Unregister "sum") demo_tool_registry).2 (Some "math") = ["spin"] /\
  get_tool_names (run_registry_op (fun _ => true) (Unregister "spin") demo_tool_registry).2 (Some "slow") = [].
Proof. vm_compute. done. Qed.

(** A model that asks for two sums at first and answers then *)
Definition demo_generate (i : nat) (_ : list (AgentMessage Z)) : res string :=
  match i with O => Ok "call" | _ => Ok "done" end.

Definition demo_extract (x : string) : res (list (ParsedToolCall Z)) :=
  if decide (x = "call")
  then Ok [MkCall (Name "sum") (PDict [("x", 3); ("y", 2)]); MkCall (Name "sum") (PDict [("x", 3); ("y", 7)]);
           MkCall (Name "spin") (PDict []); MkCall (NotAName "null" true) (PDict [])]
  else if decide (x = "list") then Ok [MkCall (Name "spin") (PNoDict (fun _ => Ok false))]
  else Ok [].

Definition demo_show (z : Z) : string := pretty z.
Definition demo_config : AgentLoopConfig := MkConfig 10 5 30.
Definition demo_loop : AgentLoop Z := MkLoop [] [] 0 0 0 zero_stats O.

Definition demo_agent : res string * AgentLoop Z :=
  run Z.eqb (fun _ => 0) (fun _ => 0) demo_worker demo_async demo_elapsed 0 demo_show demo_show demo_show 60 demo_tool_registry demo_config
    demo_generate demo_extract "add" (Some "You have tools.") None demo_loop.

(** The second call violates the enumeration of [y], the third one times out. *)
Example agent_demo :
  demo_agent.1 = Ok "done" /\ map g_role (ag_messages demo_agent.2) = [SYSTEM; USER; ASSISTANT; TOOL; ASSISTANT] /\
  map (fun m => map x_status (default [] (g_tool_results m))) (ag_messages demo_agent.2) =
    [[]; []; []; [SUCCESS; VALIDATION_ERROR; TIMEOUT; ERROR]; []] /\
  ag_exec_stats demo_agent.2 = MkStats 4 4 1 3 1.
Proof. vm_compute. done. Qed.

(** A model that writes a list for the parameters of the second tool *)
Example agent_breaks_off :
  (run Z.eqb (fun _ => 0) (fun _ => 0) demo_worker demo_async demo_elapsed 0 demo_show demo_show demo_show 60
    demo_tool_registry demo_config (fun _ _ => Ok "list") demo_extract "add" None None demo_loop).1 =
  Raise (Exn AttributeError "object has no attribute 'items'").
Proof. vm_compute. done. Qed.

Lemma engine_counts_witness :
  exists x s', execute Z.eqb demo_worker demo_async demo_elapsed 0 demo_show 60 demo_tool_registry (Name "sum")
      (PDict [("x", 3); ("y", 2)]) None None zero_stats = (Ok x, s') /\ x_result x = Some 5 /\
    counts_ok (count_failure (count_start (count_start zero_stats)), 1%nat).
Proof.
  destruct (engine_counts Z.eqb demo_worker demo_async demo_elapsed 0 demo_show 60 demo_tool_registry (Name "sum")
    (PDict [("x", 3); ("y", 2)]) None None
    (count_failure (count_start (count_start zero_stats))) 1 zero_stats) as (Hc & _ & o & s' & Hr & He & _ & Ho).
  - eapply rtc_l; [apply step_start|]. eapply rtc_l; [apply step_start|]. eapply rtc_l; [apply step_failure|]. apply rtc_refl.
  - vm_compute in He. destruct He as (x & -> & _ & Hx & _). exists x, s'. split; [exact Hr|]. split; [exact Hx|exact Hc].
Defined.
